(* ===== verification/_CoqProject ===== *)
-Q . S2P
Prelude.v
RustStr.v
RustNum.v
TokenBucket.v
RustNet.v
CommonTypes.v
CommonPath.v
CommonValidate.v
LoadBalancer.v
Ddos.v
AdaptiveBlocker.v
RouteRegistry.v
Stats.v
HttpLimits.v
HttpMiddleware.v
HttpHeaders.v
HttpSelect.v
HttpAuth.v
HttpPolicy.v
HttpPages.v
DatabaseProxy.v
DockerDiscovery.v
Geo.v
HttpForward.v
HttpPipeline.v
Redis.v
RouteStore.v
RedisTokens.v
AdminAuth.v
AdminRoutes.v
AdminApi.v
Config.v
HealthCheck.v
RuntimeEvents.v
Tls.v
TlsReload.v
ClickHouseSql.v
ClickHouse.v
AnalyticsWriter.v
Listeners.v
RedisCounters.v
DatabaseFiles.v
EdgeMain.v
Certificates.v
HttpSettings.v
Metrics.v
