(* ===== verification/Prelude.v ===== *)
(** * Pxxl Proxy: a verification development

    Pxxl Proxy is an edge proxy in Rust (the crates under [src/edge/crates]).
    Routes come from a static file, the control API, Redis and container labels;
    each is validated and enters a registry.  A request is matched against the
    registry, judged by the security engine and the policy of its route,
    limited, authenticated, and forwarded to an upstream that the load balancer
    chooses.  A second listener forwards database connections.

    This library is a shallow embedding of the crates' own logic.  Definitions
    keep the names of the source; errors are values of [result]; shared
    mutable state is passed explicitly; machine integers are [Z] with the bounds,
    saturation and wrap-around of the code written out; [f64] values are integers
    scaled by a power of two with the rounding of binary64 ([RustNum]).

    ** Files

    - [Prelude]: [result] and the question-mark operator, iterator adaptors,
      tactics, hint databases [pxxl] and [pxxl_rw], generic list lemmas.
    - [RustStr]: byte strings, the functions of [str] the sources call, UTF-8,
      number parsing and printing, string order, [BTreeMap] iteration.
    - [RustNum]: integer widths and binary64 arithmetic with its error bounds.
    - [RustNet]: addresses, their parsing, and classes for the [ipnet] and [url]
      crates with concrete instances.
    - [TokenBucket]: the bucket arithmetic shared by two limiters, and the
      interface [KeyedLimiter] with its laws, against which the rate bound is
      proved once.
    - [CommonTypes], [CommonPath], [CommonValidate]: [common/src/lib.rs] - the
      route data model, path canonicalisation, validation.
    - [LoadBalancer]: [load-balancer/src/lib.rs].
    - [Ddos], [AdaptiveBlocker]: [ddos/src/lib.rs] - blacklist, rate limiter;
      adaptive blocker and the order of the security engine.
    - [RouteRegistry], [Stats]: [core/src/lib.rs] - the route table, the edge state
      and its gauges; statistics, analytics queue.
    - [HttpLimits], [HttpMiddleware], [HttpHeaders], [HttpSelect], [HttpAuth],
      [HttpPolicy], [HttpPages], [HttpForward]: [http-proxy/src/lib.rs] - limits,
      circuit breaker, in-flight slots and passive health; middleware expansion and
      retries; header removal and client addresses; upstream selection; basic and
      digest authentication; access rules, firewall, bot score and CORS; error
      pages; the network check, the headers sent on, bodies and compression.
    - [HttpPipeline]: [ProxyServer::handle] of the same crate, composed of the
      files above: a stage answers the request or passes on a value, and threads
      the state of the server; what the outside answers is the record [World].
      Module [Demo] runs the whole handler on a route.
    - [DatabaseProxy]: [database-proxy/src/lib.rs].
    - [DockerDiscovery]: [docker-discovery/src/lib.rs].
    - [Geo]: [geo/src/lib.rs].
    - [Redis]: actions over Redis commands that may fail on their way there or back,
      and rules for invariants that hold whatever becomes of them.
    - [RedisTokens], [RouteStore]: [redis-sync/src/lib.rs] - the store of admin
      tokens; the store of API routes, with the snapshot file of [api/src/lib.rs].
    - [AdminAuth], [AdminRoutes], [AdminApi]: [api/src/lib.rs] - scopes, tokens and
      logins; request bodies, the network check and the removal of secrets;
      [ApiServer::handle] with the endpoints behind it.
    - [Config]: [config/src/lib.rs] and the preparation of the configuration in
      [src/main.rs] - defaults, documents, static routes, the overrides of the
      environment, the production checks.
    - [HealthCheck], [RuntimeEvents]: [src/main.rs] - the active health checks; the
      event stream of the container runtime and the routes the edge starts with.
    - [Tls]: [tls/src/lib.rs] - the certificate pair on disk and the choice of a
      certificate, over a file system whose operations may fail.
    - [TlsReload]: [run_tls_reloader] of [src/main.rs] as a machine of turns.
    - [ClickHouseSql], [ClickHouse]: [storage/src/lib.rs] - the texts of all
      statements and queries with the literals in them; the client, the cache of
      query results, the readers, the backfill and the bandwidth quota.
    - [AnalyticsWriter]: the writer task of [storage/src/lib.rs] with its spool
      directory, together with the queue and overflow spool of [core/src/lib.rs].
    - [Listeners]: the accept loops of [http-proxy], [api], [database-proxy] and the
      metrics endpoint as one state machine: permits, connection tasks, handshakes,
      time limits, shutdown and the reload of the TLS configuration.
    - [RedisCounters]: the bandwidth counters and the blacklist channel of
      [redis-sync/src/lib.rs], over keys that expire.
    - [DatabaseFiles]: the file of database routes, its restore at the start, and the
      sessions of [database-proxy/src/lib.rs].
    - [Certificates]: the certificates of domains in [api/src/lib.rs] - inspection,
      registry, issuing with certbot, installation, status and maintenance.
    - [EdgeMain]: the frame of [src/main.rs] - which tasks are started, how they are
      ended, the listeners they open and the file of the statistics.
    - [HttpSettings]: what [http-proxy] reads when it starts - error page templates,
      trusted addresses, runtime diagnostics - and the diagnostics request.
    - [Metrics]: [metrics/src/lib.rs] - the metrics and their registration.

    ** What the theorems show

    - Paths and routes: a canonical path has no traversal or control byte (escapes
      are undone at most four times); a prefix is accepted exactly when it is canonical; accepted routes
      have only safe upstreams; lookup returns the longest match of the best
      source; the table stays indexed and deduplicated under every operation;
      two unsynchronised writers lose an update.
    - Limits: token buckets bound the requests of any interval, per address and
      per policy scope; the sliding window equals a reference computed from the
      whole history; a block lasts exactly its time; in-flight slots are exact
      under every interleaving; the breaker and passive health agree with a
      reference over the history.
    - Selection: every algorithm returns a healthy upstream of the pool, and nothing
      exactly when there is none or [ip_hash] has no address; rotation is a cycle by
      weights; what is chosen passed validation, so that an IPv4 host is in none of
      the private blocks unless the operator allows them.
    - Requests: the policy decides by its rules in order; the headers an upstream
      receives are exactly specified for every name, buffered or streamed; the client's
      address cannot be forged past the trusted proxies, and none is taken from a
      list of reserved blocks written as numbers; a digest response is accepted once;
      retries end and stop at the first good answer.
    - The handler: neither a request nor a mirrored copy reaches an upstream without
      having passed every check, and its target is the canonical path where that makes
      a URI; every request is recorded once with the status of its answer; credentials
      for the edge are in no request and no copy; a handler that ends has given its
      in-flight slot back, and one that is dropped while it waits loses exactly its own.
    - Databases: the registry refines a finite map; the start-up exchange
      accepts exactly the well-framed streams; no connection without the token.
    - Containers: quotas and validation hold for every discovery, no container is
      lost below the quotas, chunked decoding is exact, the bodies that make it panic
      included, and always ends, polling
      leaves the other sources alone.
    - The admin API: who is let in, exactly; the token store refines a table of
      records while Redis answers, and a revoked token stays revoked whatever fails;
      passwords are derived as RFC 2104 and RFC 8018 say and guesses are bounded per
      window, without a look at the password during a lock-out, while every lock-out
      ends; only a writer changes routes; every route of the API stays valid in memory,
      in Redis, in the snapshot file and in the snapshots yet to be written; updates
      that do not overlap never go back a version (an overlapping one can); no answer shows a secret; the snapshot file is never torn by saves that follow
      each other; a failed write to the store is not made good by a repetition.
    - Start and background tasks: a production edge starts only with safe settings;
      the static routes are those of the document; the edge starts with the routes
      of Redis or else of the snapshot file; a turn of the health checks sets every
      flag to the result of its own check where a domain has routes of one source; a
      runtime event replaces the stored route
      and nothing else; the TLS configuration exists exactly if every pair is
      usable; the reloader reaches the first hundred names of the routes, serves the
      configuration made for them, and does not try for ever.
    - Analytics: no value of a request changes a query; the cache of results equals
      a reference over its history; no queued event is lost whatever the database
      does, as long as the spool can be written, up to the last flush of the shutdown
      (events queued during that flush are lost); readable spool files drain once the
      database is back; events of a full queue are lost
      after the first replay, because a removed file is kept open.
    - Connections: every listener hands out exactly one permit per living connection
      task and the gauge counts the connections being served, plus those whose handler
      panicked; tunnels of upgraded connections are outside the permits and not
      bounded; served connections end within their limit, unfinished handshakes do
      not; the whole edge has at most a number of connection tasks fixed by its
      configuration.
    - Bandwidth: the numbers a limit is compared with lie between the acknowledged and
      all recorded bytes of the month and the day, whatever commands fail.
    - Certificates: a renewal is asked for exactly when the file is missing, does not
      name the domain, or ends within the window; an issued certificate is installed
      with its key for every name, each in files of its own; a maintenance pass is bounded.
    - Settings: the error pages are those of the directory, whatever its order where
      no status has two; the diagnostics service is sent nothing but the configured
      token and believed only when it answers in order; every metric registers.
    - Restarts: the database routes of the last save resolve as before, over those the
      configuration has, and the statistics are those of the last save; a save that
      fails does no damage.
    - Round trips: statistics, blocker and route snapshots, start-up parameters,
      chunked answers, nonces, hexadecimal text.

    ** Bounds and fuel

    Loops that are not structural take fuel computed from their input: the number
    of bytes for UTF-8, [replace], [trim], the start-up and chunk loops (each round
    consumes input; the theorems show the fuel is never spent), 128 digits for
    numbers below [2^128], and the number of names for middleware chains, whose
    recursion the source bounds by a visited path.

    ** Parameters

    Code outside the repository is a class argument with its documented laws and
    a concrete instance for the witnesses: [IpNetLib], [UrlLib], [DefaultHasher],
    [SnapshotCodec], [HeaderLib], [CryptoLib], [Log2Lib], [MmdbLib], [ContainersJson],
    [DigestLib], [TokenCodec], [RouteCodec], [CertLib], [JsonLib], [ChronoLib],
    [EventCodec], [DatabaseCodec], [PromLib], [Calendar] and the readers [CertReaders] of
    [Certificates].  Clocks, environment variables, processes, name lookups and
    random identifiers are arguments.

    ** Not modelled

    The bytes that travel over sockets (hyper and the copying of streams); what
    ClickHouse computes from a statement; what certbot does; the increments of
    Prometheus counters (the gauges that the code reads back are modelled); the
    hardening options given to hyper; the bandwidth handlers of [api], which no route
    of its dispatcher reaches; the parsers of TOML, JSON, PEM and X.509.

    ** Concurrency

    One request of the handler runs at a time, with one reading of each clock per use.
    Concurrency is modelled where the code relies on it or is exposed to it: connection
    permits, tunnel tasks and panics ([Listeners]); atomic in-flight counters
    ([HttpLimits]) and a handler that is dropped while it waits ([handle_waiting] in
    [HttpPipeline]); the load/store registry ([RouteRegistry]); a route update in two
    halves, before and after its name lookups, with other changes in between
    ([AdminApi]); background writes of the snapshot file ([RouteStore], [AdminApi]);
    requests recorded while the analytics writer waits, in every phase of its shutdown
    ([AnalyticsWriter]).  The end of the process may cut any task short; what is then
    on disk is the state reached by that time. *)
From Stdlib Require Import Ascii.
From stdpp Require Export base list gmap strings numbers sorting.
From stdpp Require Import options.

#[global] Set Default Goal Selector "1".
#[export] Unset Default Proof Using.

(** ** Results: Rust's [Result<T, E>] and the [?] operator *)

Inductive result (E A : Type) : Type :=
| Ok (a : A)
| Err (e : E).
Arguments Ok {E A} a.
Arguments Err {E A} e.

Declare Scope rust_scope.
Delimit Scope rust_scope with rust.
Open Scope rust_scope.

(** [let? x := e in k] is Rust's [let x = e?; k]: an [Err] returns at once. *)
Notation "'let?' x ':=' e 'in' k" :=
  (match e with Ok x => k | Err err => Err err end)
  (at level 10, x name, e at level 100, k at level 200) : rust_scope.
Notation "'do?' e 'in' k" :=
  (match e with Ok _ => k | Err err => Err err end)
  (at level 10, e at level 100, k at level 200) : rust_scope.

(** ** Actions with an oracle

    Code that talks to a server or a disk: an action on a state [S] that takes what
    becomes of its operations, of type [R] each, from a list. *)

Definition oracle (S R E A : Type) : Type := S * list R -> (S * list R) * result E A.
Definition rret {S R E A} (a : A) : oracle S R E A := fun s => (s, Ok a).
Definition rfail {S R E A} (e : E) : oracle S R E A := fun s => (s, Err e).
Definition rbind {S R E A B} (m : oracle S R E A) (k : A -> oracle S R E B) : oracle S R E B :=
  fun s => match m s with (s, Ok a) => k a s | (s, Err e) => (s, Err e) end.
Notation "'let*' x ':=' e 'in' k" := (rbind e (fun x => k)) (at level 10, x name, e at level 100, k at level 200).
Notation "'do*' e 'in' k" := (rbind e (fun _ => k)) (at level 10, e at level 100, k at level 200).

Definition is_ok {E A} (r : result E A) : bool :=
  match r with Ok _ => true | Err _ => false end.

Definition ok {E A} (r : result E A) : option A :=
  match r with Ok a => Some a | Err _ => None end.

Definition ok_or {E A} (e : E) (o : option A) : result E A :=
  match o with Some a => Ok a | None => Err e end.

Definition map_err {E F A} (f : E -> F) (r : result E A) : result F A :=
  match r with Ok a => Ok a | Err e => Err (f e) end.

(** A loop [for x in l { f(x)?; }]: the first error leaves the loop. *)
Fixpoint for_each {E A} (f : A -> result E unit) (l : list A) : result E unit :=
  match l with
  | [] => Ok tt
  | x :: l' => do? f x in for_each f l'
  end.

(** [iter.map(f).collect::<Result<Vec<_>, _>>()]: stops at the first error. *)
Fixpoint collect_results {E A B} (f : A -> result E B) (l : list A) : result E (list B) :=
  match l with
  | [] => Ok []
  | x :: l' => let? y := f x in let? ys := collect_results f l' in Ok (y :: ys)
  end.

(** ** Iterator adaptors of the standard library *)

Fixpoint find_map {A B} (f : A -> option B) (l : list A) : option B :=
  match l with
  | [] => None
  | x :: l' => match f x with Some y => Some y | None => find_map f l' end
  end.

(** [Iterator::max_by_key]: the last of the maximal elements. *)
Definition max_by_key {A} (key : A -> Z) (l : list A) : option A :=
  foldl (fun best x =>
           match best with
           | None => Some x
           | Some b => if (key b <=? key x)%Z then Some x else Some b
           end) None l.

(** [Iterator::min_by_key]: the first of the minimal elements. *)
Definition min_by_key {A} (key : A -> Z) (l : list A) : option A :=
  foldl (fun best x =>
           match best with
           | None => Some x
           | Some b => if (key x <? key b)%Z then Some x else Some b
           end) None l.

(** [Iterator::max] on an iterator of integers. *)
Definition max_of (l : list Z) : option Z := max_by_key (fun z => z) l.

(** ** Tactics of the development *)

(** Split every [match], [if] and [let?] scrutinee in the goal. *)
Ltac case_goal :=
  repeat match goal with
         | |- context [match ?x with _ => _ end] => destruct x eqn:?; simplify_eq/=; try done
         end.

(** The same in hypothesis [H]. *)
Ltac case_in H :=
  repeat match type of H with
         | context [match ?x with _ => _ end] => destruct x eqn:?; simplify_eq/=; try done
         end.

(** Turn boolean hypotheses and goals into propositions. *)
Ltac bools :=
  rewrite ?andb_true_iff, ?orb_true_iff, ?negb_true_iff, ?andb_false_iff,
    ?orb_false_iff, ?negb_false_iff, ?Z.leb_le, ?Z.ltb_lt, ?Z.leb_gt, ?Z.ltb_ge,
    ?Z.eqb_eq, ?Z.eqb_neq, ?bool_decide_eq_true, ?bool_decide_eq_false in *.

(** Settle a decidable closed goal by evaluating its decision procedure. *)
Ltac by_decide :=
  match goal with
  | |- ?P => refine (bool_decide_eq_true_1 P _); vm_compute; reflexivity
  end.

Create HintDb pxxl.
Create Rewrite HintDb pxxl_rw.

(** ** Generic lemmas *)

Lemma for_each_ok {E A} (f : A -> result E unit) l :
  for_each f l = Ok tt <-> Forall (fun x => f x = Ok tt) l.
Proof.
  induction l as [|x l IH]; simpl; [by split|].
  rewrite Forall_cons. destruct (f x) as [[]|e]; naive_solver.
Qed.

Lemma collect_results_ok {E A B} (f : A -> result E B) l ys :
  collect_results f l = Ok ys <-> Forall2 (fun x y => f x = Ok y) l ys.
Proof.
  revert ys; induction l as [|x l IH]; intros ys; simpl.
  - split; [by intros [= <-]|by inversion 1].
  - split.
    + intros H. case_in H. constructor; [done|by apply IH].
    + inversion 1 as [|?? ? ys' Hx Hl]; subst. rewrite Hx.
      apply IH in Hl. by rewrite Hl.
Qed.

Lemma do_ok {E A B} (e : result E A) (k : result E B) b :
  (do? e in k) = Ok b -> (exists a, e = Ok a) /\ k = Ok b.
Proof. destruct e; naive_solver. Qed.
(** Split a chain of [do?] steps that ended well. *)
Ltac do_steps H :=
  repeat match type of H with
         | (match _ with Ok _ => _ | Err err => Err err end) = Ok _ =>
           let H1 := fresh "Hstep" in apply do_ok in H as [[[] H1] H]
         end.

Section by_key.
Context {A : Type} (key : A -> Z).

Let stepM (best : option A) (x : A) : option A :=
  match best with
  | None => Some x
  | Some b => if (key b <=? key x)%Z then Some x else Some b
  end.
Let stepm (best : option A) (x : A) : option A :=
  match best with
  | None => Some x
  | Some b => if (key x <? key b)%Z then Some x else Some b
  end.

Lemma max_fold_spec (l : list A) (b : A) :
  exists m, foldl stepM (Some b) l = Some m /\ (m = b \/ m ∈ l) /\
    (key b <= key m)%Z /\ Forall (fun x => (key x <= key m)%Z) l.
Proof.
  revert b; induction l as [|x l IH]; intros b; simpl.
  - exists b. repeat split; auto. lia.
  - destruct (key b <=? key x)%Z eqn:E; bools.
    + destruct (IH x) as (m & -> & Hm & Hx & Hall). exists m.
      split; [done|]. split; [set_solver|]. split; [lia|]. constructor; [lia|done].
    + destruct (IH b) as (m & -> & Hm & Hx & Hall). exists m.
      split; [done|]. split; [set_solver|]. split; [lia|]. constructor; [lia|done].
Qed.

Lemma min_fold_spec (l : list A) (b : A) :
  exists m, foldl stepm (Some b) l = Some m /\ (m = b \/ m ∈ l) /\
    (key m <= key b)%Z /\ Forall (fun x => (key m <= key x)%Z) l.
Proof.
  revert b; induction l as [|x l IH]; intros b; simpl.
  - exists b. repeat split; auto. lia.
  - destruct (key x <? key b)%Z eqn:E; bools.
    + destruct (IH x) as (m & -> & Hm & Hx & Hall). exists m.
      split; [done|]. split; [set_solver|]. split; [lia|]. constructor; [lia|done].
    + destruct (IH b) as (m & -> & Hm & Hx & Hall). exists m.
      split; [done|]. split; [set_solver|]. split; [lia|]. constructor; [lia|done].
Qed.

Lemma max_by_key_Some (l : list A) m :
  max_by_key key l = Some m -> m ∈ l /\ Forall (fun x => (key x <= key m)%Z) l.
Proof.
  destruct l as [|b l]; [done|]. unfold max_by_key; simpl.
  destruct (max_fold_spec l b) as (m' & Hf & Hm & Hb & Hall).
  fold stepM. unfold stepM in *. rewrite Hf. intros [= <-].
  split; [set_solver|]. by constructor.
Qed.

Lemma max_by_key_last (l : list A) m :
  max_by_key key l = Some m ->
  exists pre post, l = pre ++ m :: post /\
    Forall (fun x => (key x <= key m)%Z) pre /\ Forall (fun x => (key x < key m)%Z) post.
Proof.
  revert m. induction l as [|x l IH] using rev_ind; intros m; [done|].
  unfold max_by_key in *. rewrite foldl_snoc. destruct (foldl _ None l) as [b|] eqn:E.
  - destruct (IH b eq_refl) as (pre & post & -> & Hpre & Hpost).
    destruct (Z.leb_spec (key b) (key x)) as [Hle|Hlt]; intros [= <-].
    + exists (pre ++ b :: post), []. split; [done|]. split; [|done]. apply Forall_app. split.
      * eapply Forall_impl; [exact Hpre|]. intros y Hy. cbn in *. lia.
      * constructor; [done|]. eapply Forall_impl; [exact Hpost|]. intros y Hy. cbn in *. lia.
    + exists pre, (post ++ [x]). rewrite <-app_assoc. split; [done|]. split; [done|].
      apply Forall_app. by repeat constructor.
  - intros [= <-]. exists [], []. split; [|done]. destruct l as [|y l _] using rev_ind; [done|].
    rewrite foldl_snoc in E. by repeat case_match.
Qed.

Lemma max_by_key_None (l : list A) : max_by_key key l = None <-> l = [].
Proof.
  destruct l as [|b l]; [done|]. unfold max_by_key; simpl.
  destruct (max_fold_spec l b) as (m' & Hf & _). unfold stepM in *. by rewrite Hf.
Qed.

Lemma min_by_key_Some (l : list A) m :
  min_by_key key l = Some m -> m ∈ l /\ Forall (fun x => (key m <= key x)%Z) l.
Proof.
  destruct l as [|b l]; [done|]. unfold min_by_key; simpl.
  destruct (min_fold_spec l b) as (m' & Hf & Hm & Hb & Hall).
  unfold stepm in *. rewrite Hf. intros [= <-].
  split; [set_solver|]. by constructor.
Qed.

Lemma min_by_key_None (l : list A) : min_by_key key l = None <-> l = [].
Proof.
  destruct l as [|b l]; [done|]. unfold min_by_key; simpl.
  destruct (min_fold_spec l b) as (m' & Hf & _). unfold stepm in *. by rewrite Hf.
Qed.
End by_key.

Lemma find_map_Some {A B} (f : A -> option B) l y :
  find_map f l = Some y -> exists x, x ∈ l /\ f x = Some y.
Proof.
  induction l as [|x l IH]; simpl; [done|].
  destruct (f x) eqn:E; [intros [= <-]; exists x; set_solver|].
  intros H; destruct (IH H) as (z & ? & ?). exists z; set_solver.
Qed.

Lemma Sorted_snoc_inv (l : list Z) (x : Z) :
  Sorted Z.le (l ++ [x]) -> Sorted Z.le l /\ forall y, y ∈ l -> (y <= x)%Z.
Proof.
  intros H. apply Sorted_StronglySorted in H; [|intros ? ? ?; lia]. split.
  - apply StronglySorted_Sorted. by eapply StronglySorted_app_1_l.
  - intros y Hy. eapply (StronglySorted_app_1_elem_of Z.le l [x]); [done|done|set_solver].
Qed.

Lemma filter_none {A} (P : A -> Prop) {D : forall x, Decision (P x)} (l : list A) :
  (forall x, x ∈ l -> ~ P x) -> filter P l = [].
Proof.
  induction l as [|x l IH]; intros H; [done|]. rewrite filter_cons_False by (apply H; left).
  apply IH. intros y Hy. apply H. by right.
Qed.

(** *** Conditions of actions with an oracle *)

(** From [P], whatever becomes of its operations, the action ends in [Q] of its value
    when it succeeds and in [X] when it fails. *)
Definition hoare {S R E A} (P : S -> Prop) (m : oracle S R E A) (Q : A -> S -> Prop) (X : S -> Prop) : Prop :=
  forall st, P (fst st) -> match snd (m st) with Ok a => Q a (fst (fst (m st))) | Err _ => X (fst (fst (m st))) end.
Section hoare.
Context {S R E : Type}.
Lemma hoare_ret {A} (a : A) (Q : A -> S -> Prop) X : hoare (Q a) (rret a : oracle S R E A) Q X.
Proof. by intros st H. Qed.
Lemma hoare_bind {A B} (m : oracle S R E A) (k : A -> oracle S R E B) P Q Q' X :
  hoare P m Q X -> (forall a, hoare (Q a) (k a) Q' X) -> hoare P (rbind m k) Q' X.
Proof. intros Hm Hk st HP. unfold rbind. specialize (Hm st HP). destruct (m st) as [st1 [a|e]]; [|done]. by apply Hk. Qed.
Lemma hoare_weaken {A} (m : oracle S R E A) (P P' : S -> Prop) (Q Q' : A -> S -> Prop) (X X' : S -> Prop) :
  hoare P m Q X -> (forall s, P' s -> P s) -> (forall a s, Q a s -> Q' a s) -> (forall s, X s -> X' s) -> hoare P' m Q' X'.
Proof. intros Hm HP HQ HX st H. specialize (Hm st (HP _ H)). destruct (snd (m st)); auto. Qed.
Lemma hoare_pre {A} (F : Prop) (m : oracle S R E A) (P : S -> Prop) (Q : A -> S -> Prop) X : (F -> hoare P m Q X) -> hoare (fun s => F /\ P s) m Q X.
Proof. intros H st [HF HP]. by apply H. Qed.
End hoare.
