(* ===== verification/RustStr.v ===== *)
(** Rust strings ([String], [&str]) as the byte sequences they are, with the
    methods of [str] the proxy uses.  A [rstr] is the list of its UTF-8 bytes;
    a method that works on characters ([trim], [chars]) is written on the byte
    encoding, which is exact on valid UTF-8. *)
From Stdlib Require Export Ascii.
From stdpp Require Import options.
From S2P Require Import Prelude.

Local Open Scope Z_scope.

Abbreviation rstr := (list ascii).

(** A string literal of the source. *)
Definition lit (s : string) : rstr := String.list_ascii_of_string s.
Definition lits (l : list string) : list rstr := map lit l.

(** The value of a byte. *)
Definition bz (b : ascii) : Z := Z.of_N (N_of_ascii b).
Definition byte_of (z : Z) : ascii := ascii_of_N (Z.to_N z).
Definition chr (s : string) : ascii :=
  match s with String.String c _ => c | String.EmptyString => Ascii.zero end.

Definition beq (a b : ascii) : bool := bool_decide (a = b).
Definition seq_eqb (a b : rstr) : bool := bool_decide (a = b).
Notation "a =s? b" := (seq_eqb a b) (at level 70) : rust_scope.

Definition str_len (s : rstr) : Z := Z.of_nat (length s).
Definition is_empty {A} (l : list A) : bool := match l with [] => true | _ => false end.

Definition in_range (lo hi : Z) (b : ascii) : bool := (lo <=? bz b) && (bz b <=? hi).
Definition is_ascii_digit (b : ascii) : bool := in_range 48 57 b.
Definition is_ascii_lower (b : ascii) : bool := in_range 97 122 b.
Definition is_ascii_upper (b : ascii) : bool := in_range 65 90 b.
Definition is_ascii_alphabetic (b : ascii) : bool := is_ascii_lower b || is_ascii_upper b.
Definition is_ascii_alphanumeric (b : ascii) : bool := is_ascii_digit b || is_ascii_alphabetic b.
Definition is_ascii_hexdigit (b : ascii) : bool :=
  is_ascii_digit b || in_range 97 102 b || in_range 65 70 b.
(** [u8::is_ascii_whitespace]: space, tab, line feed, form feed, carriage return. *)
Definition is_ascii_whitespace (b : ascii) : bool :=
  existsb (Z.eqb (bz b)) [32; 9; 10; 12; 13].

Definition ascii_lower (b : ascii) : ascii :=
  if is_ascii_upper b then byte_of (bz b + 32) else b.
Definition ascii_upper (b : ascii) : ascii :=
  if is_ascii_lower b then byte_of (bz b - 32) else b.
Definition to_ascii_lowercase (s : rstr) : rstr := map ascii_lower s.
Definition to_ascii_uppercase (s : rstr) : rstr := map ascii_upper s.
Definition eq_ignore_ascii_case (a b : rstr) : bool :=
  to_ascii_lowercase a =s? to_ascii_lowercase b.

(** [str::strip_prefix], [starts_with], [ends_with], [contains] with a string pattern. *)
Fixpoint strip_prefix (p s : rstr) : option rstr :=
  match p, s with
  | [], _ => Some s
  | a :: p', b :: s' => if beq a b then strip_prefix p' s' else None
  | _ :: _, [] => None
  end.
Definition starts_with (p s : rstr) : bool :=
  match strip_prefix p s with Some _ => true | None => false end.
Definition strip_suffix (p s : rstr) : option rstr :=
  reverse <$> strip_prefix (reverse p) (reverse s).
Definition ends_with (p s : rstr) : bool := starts_with (reverse p) (reverse s).
Fixpoint contains (p s : rstr) : bool :=
  starts_with p s || match s with [] => false | _ :: s' => contains p s' end.
Definition contains_char (c : ascii) (s : rstr) : bool := existsb (beq c) s.

(** [trim_start_matches], [trim_end_matches] and [trim_matches] with a character. *)
Fixpoint trim_start_matches (c : ascii) (s : rstr) : rstr :=
  match s with
  | b :: s' => if beq b c then trim_start_matches c s' else s
  | [] => []
  end.
Definition trim_end_matches (c : ascii) (s : rstr) : rstr :=
  reverse (trim_start_matches c (reverse s)).
Definition trim_matches (c : ascii) (s : rstr) : rstr :=
  trim_end_matches c (trim_start_matches c s).

(** The UTF-8 encodings of the Unicode [White_Space] characters, which
    [str::trim] removes. *)
Definition white_space : list rstr :=
  map (map byte_of)
    ([[9]; [10]; [11]; [12]; [13]; [32]; [194; 133]; [194; 160]; [225; 154; 128]] ++
     map (fun k => [226; 128; 128 + Z.of_nat k]) (seq 0 11) ++
     [[226; 128; 168]; [226; 128; 169]; [226; 128; 175]; [226; 129; 159]; [227; 128; 128]]).

Fixpoint strip_seqs (fuel : nat) (seqs : list rstr) (s : rstr) : rstr :=
  match fuel with
  | O => s
  | S n => match find_map (fun w => strip_prefix w s) seqs with
           | Some s' => strip_seqs n seqs s'
           | None => s
           end
  end.
(** Each step removes at least one byte, so the length is enough fuel. *)
Definition trim_start (s : rstr) : rstr := strip_seqs (length s) white_space s.
Definition trim_end (s : rstr) : rstr :=
  reverse (strip_seqs (length s) (map (@reverse ascii) white_space) (reverse s)).
Definition trim (s : rstr) : rstr := trim_end (trim_start s).

(** [str::split(c)]: always at least one piece. *)
Fixpoint split (c : ascii) (s : rstr) : list rstr :=
  match s with
  | [] => [[]]
  | b :: s' => if beq b c then [] :: split c s'
               else match split c s' with
                    | [] => [[b]]
                    | p :: ps => (b :: p) :: ps
                    end
  end.

(** [slice::join]. *)
Fixpoint join (sep : rstr) (l : list rstr) : rstr :=
  match l with
  | [] => []
  | [x] => x
  | x :: l' => x ++ sep ++ join sep l'
  end.

Fixpoint split_once (c : ascii) (s : rstr) : option (rstr * rstr) :=
  match s with
  | [] => None
  | b :: s' => if beq b c then Some ([], s')
               else match split_once c s' with
                    | Some (x, y) => Some (b :: x, y)
                    | None => None
                    end
  end.
Definition rsplit_once (c : ascii) (s : rstr) : option (rstr * rstr) :=
  match split_once c (reverse s) with
  | Some (x, y) => Some (reverse y, reverse x)
  | None => None
  end.

(** [str::replace] of a character by a string. *)
Definition replace_char (c : ascii) (by_ : rstr) (s : rstr) : rstr :=
  flat_map (fun b => if beq b c then by_ else [b]) s.

(** [str::replace] of a non-empty pattern: non-overlapping matches from the left. *)
Fixpoint replace_fuel (fuel : nat) (p by_ s : rstr) : rstr :=
  match fuel with
  | O => s
  | S n => match strip_prefix p s with
           | Some s' => by_ ++ replace_fuel n p by_ s'
           | None => match s with
                     | [] => []
                     | b :: s' => b :: replace_fuel n p by_ s'
                     end
           end
  end.
Definition replace (p by_ s : rstr) : rstr := replace_fuel (S (length s)) p by_ s.

(** ** UTF-8 *)

(** [std::str::from_utf8]: well-formedness of a byte sequence. *)
Definition cont (b : ascii) : bool := in_range 128 191 b.
(** The bytes after the first character, when one is well formed. *)
Definition utf8_tail (s : rstr) : option rstr :=
  match s with
  | [] => None
  | a :: r =>
    if bz a <=? 127 then Some r else
    match r with
    | [] => None
    | b :: r2 =>
      if in_range 194 223 a && cont b then Some r2 else
      match r2 with
      | [] => None
      | c :: r3 =>
        if ((bz a =? 224) && in_range 160 191 b && cont c)
           || ((in_range 225 236 a || in_range 238 239 a) && cont b && cont c)
           || ((bz a =? 237) && in_range 128 159 b && cont c)
        then Some r3 else
        match r3 with
        | [] => None
        | d :: r4 =>
          if (((bz a =? 240) && in_range 144 191 b)
              || (in_range 241 243 a && cont b)
              || ((bz a =? 244) && in_range 128 143 b))
             && cont c && cont d
          then Some r4 else None
        end
      end
    end
  end.
Fixpoint valid_utf8_fuel (fuel : nat) (s : rstr) : bool :=
  match s with
  | [] => true
  | _ :: _ =>
    match fuel with
    | O => false
    | S n => match utf8_tail s with Some r => valid_utf8_fuel n r | None => false end
    end
  end.
(** A character has at least one byte, so the length is enough fuel. *)
Definition valid_utf8 (s : rstr) : bool := valid_utf8_fuel (length s) s.

(** [s.chars().take(n).collect()]: a character starts at each byte that is
    not a continuation byte. *)
Fixpoint take_chars (n : nat) (s : rstr) : rstr :=
  match s with
  | [] => []
  | b :: s' => if cont b then b :: take_chars n s'
               else match n with O => [] | S m => b :: take_chars m s' end
  end.

(** ** Numbers in strings *)

Definition digit_value (b : ascii) : option Z :=
  if in_range 48 57 b then Some (bz b - 48)
  else if in_range 97 122 b then Some (bz b - 97 + 10)
  else if in_range 65 90 b then Some (bz b - 65 + 10)
  else None.

Fixpoint parse_digits (radix max acc : Z) (s : rstr) : option Z :=
  match s with
  | [] => Some acc
  | b :: s' => match digit_value b with
               | Some d => if (d <? radix) && (acc * radix + d <=? max)
                           then parse_digits radix max (acc * radix + d) s' else None
               | None => None
               end
  end.
(** [uN::from_str_radix]: an optional plus sign, at least one digit, and an
    error when the value does not fit ([max] is [uN::MAX]). *)
Definition from_str_radix (radix max : Z) (s : rstr) : option Z :=
  match s with
  | [] => None
  | b :: s' =>
    if beq b "+"%char then match s' with [] => None | _ => parse_digits radix max 0 s' end
    else parse_digits radix max 0 s
  end.
Definition parse_uint (max : Z) (s : rstr) : option Z := from_str_radix 10 max s.

Definition digit_char (d : Z) : ascii :=
  byte_of (if d <? 10 then 48 + d else 87 + d).
Fixpoint digits_fuel (fuel : nat) (radix n : Z) (acc : rstr) : rstr :=
  match fuel with
  | O => acc
  | S k => let acc' := digit_char (n mod radix) :: acc in
           if n <? radix then acc' else digits_fuel k radix (n / radix) acc'
  end.
(** [n.to_string()] and [format!("{n:x}")]; a value below [2^128] has at most
    128 digits in any radix. *)
Definition to_dec (n : Z) : rstr := digits_fuel 128 10 n [].
Definition to_hex (n : Z) : rstr := digits_fuel 128 16 n [].
(** [format!("{n:0w$}")] with zero padding. *)
Definition zero_pad (w : nat) (s : rstr) : rstr :=
  repeat "0"%char (w - length s) ++ s.

(** ** Sanity checks *)
Example trim_ex : trim (lit "  ab c ") = lit "ab c".
Proof. vm_compute. reflexivity. Qed.
Example split_ex : split "/"%char (lit "/a//b") = lits [""; "a"; ""; "b"].
Proof. vm_compute. reflexivity. Qed.
Example replace_ex : replace (lit "ab") (lit "X") (lit "cababd") = lit "cXXd".
Proof. vm_compute. reflexivity. Qed.
Example dec_ex : (to_dec 0, to_dec 40961, to_hex 48879) = (lit "0", lit "40961", lit "beef").
Proof. vm_compute. reflexivity. Qed.

(** ** Lemmas *)

Lemma beq_true a b : beq a b = true <-> a = b.
Proof. apply bool_decide_eq_true. Qed.
Lemma beq_false a b : beq a b = false <-> a <> b.
Proof. apply bool_decide_eq_false. Qed.
Lemma beq_refl a : beq a a = true.
Proof. by apply beq_true. Qed.
Lemma seqb_true a b : (a =s? b) = true <-> a = b.
Proof. apply bool_decide_eq_true. Qed.
Lemma seqb_false a b : (a =s? b) = false <-> a <> b.
Proof. apply bool_decide_eq_false. Qed.
Lemma seqb_refl a : (a =s? a) = true.
Proof. by apply seqb_true. Qed.

Lemma bz_range b : 0 <= bz b <= 255.
Proof. destruct b as [[] [] [] [] [] [] [] []]; vm_compute; intuition congruence. Qed.

Lemma byte_of_bz b : byte_of (bz b) = b.
Proof. unfold byte_of, bz. by rewrite N2Z.id, ascii_N_embedding. Qed.

Lemma strip_prefix_Some p s r : strip_prefix p s = Some r <-> s = p ++ r.
Proof.
  revert s; induction p as [|a p IH]; intros s; simpl.
  - split; congruence.
  - destruct s as [|b s]; [split; done|]. destruct (beq a b) eqn:E.
    + apply beq_true in E as ->. rewrite IH. split; congruence.
    + apply beq_false in E. split; congruence.
Qed.

Lemma starts_with_spec p s : starts_with p s = true <-> exists r, s = p ++ r.
Proof.
  unfold starts_with. destruct (strip_prefix p s) as [r|] eqn:E.
  - apply strip_prefix_Some in E. split; eauto.
  - split; [done|]. intros [r ->]. by rewrite (proj2 (strip_prefix_Some p (p ++ r) r)) in E.
Qed.

Lemma ends_with_spec p s : ends_with p s = true <-> exists r, s = r ++ p.
Proof.
  unfold ends_with. rewrite starts_with_spec. split; intros [r H].
  - exists (reverse r). by rewrite <- (reverse_involutive s), H, reverse_app, reverse_involutive.
  - exists (reverse r). by rewrite H, reverse_app.
Qed.

Lemma trim_start_matches_spec c s :
  exists k, s = repeat c k ++ trim_start_matches c s /\
    match trim_start_matches c s with b :: _ => b <> c | [] => True end.
Proof.
  induction s as [|b s IH]; simpl; [by exists O|].
  destruct (beq b c) eqn:E.
  - apply beq_true in E as ->. destruct IH as (k & IH1 & IH2).
    exists (S k). simpl. by rewrite <- IH1.
  - apply beq_false in E. by exists O.
Qed.

Lemma trim_start_matches_id c s :
  match s with b :: _ => b <> c | [] => True end -> trim_start_matches c s = s.
Proof.
  destruct s as [|b s]; simpl; [done|]. intros H. destruct (beq b c) eqn:E; [|done].
  by apply beq_true in E.
Qed.

Lemma trim_start_matches_idem c s :
  trim_start_matches c (trim_start_matches c s) = trim_start_matches c s.
Proof. destruct (trim_start_matches_spec c s) as (k & _ & H). by apply trim_start_matches_id. Qed.

Lemma trim_end_matches_idem c s :
  trim_end_matches c (trim_end_matches c s) = trim_end_matches c s.
Proof.
  unfold trim_end_matches. by rewrite reverse_involutive, trim_start_matches_idem.
Qed.

Lemma trim_end_matches_prefix c s : exists k, s = trim_end_matches c s ++ repeat c k.
Proof.
  destruct (trim_start_matches_spec c (reverse s)) as (k & H & _). exists k.
  unfold trim_end_matches. rewrite <- (reverse_involutive s) at 1. rewrite H at 1.
  rewrite reverse_app. f_equal.
  clear. induction k; [done|]. simpl. rewrite reverse_cons, IHk. clear IHk.
  induction k; simpl; congruence.
Qed.

Lemma trim_end_matches_last c s x :
  last (trim_end_matches c s) = Some x -> x <> c.
Proof.
  destruct (trim_start_matches_spec c (reverse s)) as (k & _ & H).
  unfold trim_end_matches. rewrite last_reverse.
  destruct (trim_start_matches c (reverse s)); simpl in *; congruence.
Qed.

Lemma trim_end_matches_id c s :
  match last s with Some x => x <> c | None => True end -> trim_end_matches c s = s.
Proof.
  intros H. unfold trim_end_matches. rewrite trim_start_matches_id; [apply reverse_involutive|].
  rewrite <- (reverse_involutive s), last_reverse in H. by destruct (reverse s).
Qed.

(** *** Splitting and joining *)

Lemma split_nonempty c s : split c s <> [].
Proof. destruct s as [|b s]; simpl; [done|]. destruct (beq b c); [done|]. by destruct (split c s). Qed.

Lemma split_no_sep c s : Forall (fun p => c ∉ p) (split c s).
Proof.
  induction s as [|b s IH]; simpl.
  - repeat constructor. set_solver.
  - destruct (beq b c) eqn:E.
    + constructor; [set_solver|done].
    + apply beq_false in E. destruct (split c s) as [|p ps]; [repeat constructor; set_solver|].
      apply Forall_cons in IH as [? ?]. constructor; [set_solver|done].
Qed.

Lemma split_app_sep c x s : c ∉ x -> split c (x ++ c :: s) = x :: split c s.
Proof.
  induction x as [|b x IH]; intros H; simpl.
  - by rewrite beq_refl.
  - destruct (beq b c) eqn:E; [apply beq_true in E; set_solver|].
    rewrite IH by set_solver. done.
Qed.

Lemma split_no_sep_single c x : c ∉ x -> split c x = [x].
Proof.
  induction x as [|b x IH]; intros H; simpl; [done|].
  destruct (beq b c) eqn:E; [apply beq_true in E; set_solver|].
  rewrite IH by set_solver. done.
Qed.

(** Splitting undoes joining, when no piece holds the separator. *)
Lemma split_join c l :
  l <> [] -> Forall (fun p => c ∉ p) l -> split c (join [c] l) = l.
Proof.
  induction l as [|x [|y l] IH]; intros Hne Hl; [done| |].
  - apply Forall_cons in Hl as [? _]. by apply split_no_sep_single.
  - apply Forall_cons in Hl as [? ?].
    change (join [c] (x :: y :: l)) with (x ++ c :: join [c] (y :: l)).
    rewrite split_app_sep by done. f_equal. by apply IH.
Qed.

(** Joining undoes splitting. *)
Lemma join_split c s : join [c] (split c s) = s.
Proof.
  induction s as [|b s IH]; simpl; [done|]. destruct (beq b c) eqn:E.
  - apply beq_true in E as ->. pose proof (split_nonempty c s).
    destruct (split c s) as [|p ps]; [done|]. simpl in *. by rewrite IH.
  - destruct (split c s) as [|p [|q ps]] eqn:Es; simpl in *; [|congruence..].
    by apply split_nonempty in Es.
Qed.

Lemma split_once_Some c s x y :
  split_once c s = Some (x, y) <-> s = x ++ c :: y /\ c ∉ x.
Proof.
  revert x; induction s as [|b s IH]; intros x; simpl.
  - split; [done|]. intros [H _]. by destruct x.
  - destruct (beq b c) eqn:E.
    + apply beq_true in E as ->. split; [intros [= <- <-]; set_solver|].
      intros [H Hx]. destruct x as [|a x]; simplify_eq/=; [done|]. set_solver.
    + apply beq_false in E. split.
      * destruct (split_once c s) as [[x' y']|]; [|done]. intros [= <- <-].
        destruct (proj1 (IH x') eq_refl) as [-> ?]. set_solver.
      * intros [H Hx]. destruct x as [|a x]; simplify_eq/=.
        rewrite (proj2 (IH x)); [done|]. set_solver.
Qed.

(** *** Case folding *)

Lemma ascii_lower_idem b : ascii_lower (ascii_lower b) = ascii_lower b.
Proof. destruct b as [[] [] [] [] [] [] [] []]; reflexivity. Qed.

Lemma to_ascii_lowercase_idem s :
  to_ascii_lowercase (to_ascii_lowercase s) = to_ascii_lowercase s.
Proof. unfold to_ascii_lowercase. rewrite map_map. apply map_ext. apply ascii_lower_idem. Qed.

Lemma eq_ignore_ascii_case_spec a b :
  eq_ignore_ascii_case a b = true <-> to_ascii_lowercase a = to_ascii_lowercase b.
Proof. apply seqb_true. Qed.

(** *** UTF-8 validity *)

Lemma utf8_tail_spec s r :
  utf8_tail s = Some r ->
  exists ch, s = ch ++ r /\ ch <> [] /\
    ((exists a, ch = [a] /\ bz a <= 127) \/ Forall (fun b => 128 <= bz b) ch) /\
    forall r', utf8_tail (ch ++ r') = Some r'.
Proof.
  unfold utf8_tail, cont, in_range. intros H.
  destruct s as [|a s]; [done|]. destruct (bz a <=? 127) eqn:Ea.
  { simplify_eq. exists [a]. bools. simpl. rewrite (proj2 (Z.leb_le _ _) Ea).
    split; [done|]. split; [done|]. split; [left; eauto|done]. }
  destruct s as [|b s]; [done|].
  match type of H with (if ?c then _ else _) = _ => destruct c eqn:E2 end.
  { simplify_eq. exists [a; b]. simpl. rewrite Ea, E2. bools.
    split; [done|]. split; [done|]. split; [right; repeat constructor; lia|done]. }
  destruct s as [|c s]; [done|].
  match type of H with (if ?c then _ else _) = _ => destruct c eqn:E3 end.
  { simplify_eq. exists [a; b; c]. simpl. rewrite Ea, E2, E3.
    split; [done|]. split; [done|]. split; [right|done]. bools.
    repeat constructor; lia. }
  destruct s as [|d s]; [done|].
  match type of H with (if ?c then _ else _) = _ => destruct c eqn:E4 end; [|done].
  simplify_eq. exists [a; b; c; d]. simpl. rewrite Ea, E2, E3, E4.
  split; [done|]. split; [done|]. split; [right|done]. bools. repeat constructor; lia.
Qed.

Lemma valid_utf8_fuel_enough n s :
  (length s <= n)%nat -> valid_utf8_fuel n s = valid_utf8 s.
Proof.
  unfold valid_utf8. remember (length s) as m eqn:Hm. assert (length s <= m)%nat by lia. clear Hm.
  revert n m H. induction s as [s IH] using (induction_ltof1 _ (@length ascii)).
  intros n m Hm Hn. destruct s as [|a s]; [by destruct n, m|].
  simpl in Hm. destruct n as [|n], m as [|m]; [lia..|]. cbn [valid_utf8_fuel].
  destruct (utf8_tail (a :: s)) as [r|] eqn:E; [|done].
  apply utf8_tail_spec in E as (ch & Hch & Hne & _ & _).
  assert (length r < length (a :: s))%nat as Hlt.
  { rewrite Hch, length_app. destruct ch; [done|]. simpl; lia. }
  simpl in Hlt. apply IH; [exact Hlt|lia|lia].
Qed.

Lemma valid_utf8_cons ch r :
  ch <> [] -> (forall r', utf8_tail (ch ++ r') = Some r') ->
  valid_utf8 (ch ++ r) = valid_utf8 r.
Proof.
  intros Hne Ht. unfold valid_utf8 at 1. destruct ch as [|a ch]; [done|].
  cbn [app length valid_utf8_fuel]. rewrite (Ht r : utf8_tail (a :: (ch ++ r)) = _).
  apply valid_utf8_fuel_enough. rewrite length_app. lia.
Qed.

Lemma valid_utf8_inv s :
  valid_utf8 s = true -> s <> [] ->
  exists ch r, s = ch ++ r /\ ch <> [] /\ valid_utf8 r = true /\
    ((exists a, ch = [a] /\ bz a <= 127) \/ Forall (fun b => 128 <= bz b) ch) /\
    (forall r', utf8_tail (ch ++ r') = Some r').
Proof.
  intros Hv Hne. destruct s as [|a s]; [done|].
  unfold valid_utf8 in Hv. cbn [length valid_utf8_fuel] in Hv.
  destruct (utf8_tail (a :: s)) as [r|] eqn:E; [|done].
  apply utf8_tail_spec in E as (ch & Hs & Hch & Hk & Ht).
  exists ch, r. split; [done|]. split; [done|]. split; [|done].
  rewrite <- Hv. symmetry. apply valid_utf8_fuel_enough.
  assert (length (a :: s) = length (ch ++ r)) as Hl by (by rewrite Hs).
  rewrite length_app in Hl. destruct ch; [done|]. simpl in Hl. lia.
Qed.

Lemma valid_utf8_app x y :
  valid_utf8 x = true -> valid_utf8 y = true -> valid_utf8 (x ++ y) = true.
Proof.
  induction x as [x IH] using (induction_ltof1 _ (@length ascii)). intros Hx Hy.
  destruct (decide (x = [])) as [->|Hne]; [done|].
  destruct (valid_utf8_inv x Hx Hne) as (ch & r & -> & Hch & Hr & _ & Ht).
  rewrite <- app_assoc, valid_utf8_cons by done. apply IH; [|done..].
  unfold ltof. rewrite length_app. destruct ch; [done|]. simpl; lia.
Qed.

(** A valid string can be cut at any ASCII byte. *)
Lemma valid_utf8_cut x c y :
  bz c <= 127 -> valid_utf8 (x ++ c :: y) = true -> valid_utf8 x = true /\ valid_utf8 y = true.
Proof.
  intros Hc. induction x as [x IH] using (induction_ltof1 _ (@length ascii)). intros Hv.
  assert (x ++ c :: y <> []) as Hne by (by destruct x).
  destruct (valid_utf8_inv _ Hv Hne) as (ch & r & Hs & Hch & Hr & Hk & Ht).
  destruct x as [|b x].
  - destruct ch as [|a ch]; [done|]. simplify_eq/=. split; [done|].
    destruct Hk as [(a' & [= -> ->] & _)|Hall]; [done|].
    apply Forall_cons in Hall as [? _]. lia.
  - assert (exists x', b :: x = ch ++ x') as [x' Hx'].
    { destruct Hk as [(a & -> & _)|Hall]; [exists x; simplify_eq/=; done|].
      clear -Hs Hall Hc. revert ch Hs Hall. generalize (b :: x) as w; clear b x.
      induction w as [|b w IHw]; intros [|a ch] Hs Hall; simplify_eq/=; [by eexists| |by eexists|].
      - apply Forall_cons in Hall as [? _]. lia.
      - apply Forall_cons in Hall as [_ ?]. destruct (IHw ch) as [x' ->]; [done..|]. eauto. }
    assert ((ch ++ x') ++ c :: y = ch ++ r) as Hs' by (by rewrite <- Hx').
    rewrite <- app_assoc in Hs'. apply app_inv_head in Hs'. subst r.
    destruct (IH x') as [Hx Hy]; [|done|].
    { unfold ltof. rewrite (f_equal length Hx'), length_app.
      destruct ch; [done|]. simpl; lia. }
    rewrite Hx'. split; [|done]. by rewrite valid_utf8_cons.
Qed.

Lemma valid_utf8_ascii c s : bz c <= 127 -> valid_utf8 (c :: s) = valid_utf8 s.
Proof.
  intros Hc. apply (valid_utf8_cons [c] s); [done|]. intros r'. simpl.
  by rewrite (proj2 (Z.leb_le _ _) Hc).
Qed.

Lemma valid_utf8_join c l :
  bz c <= 127 -> Forall (fun p => valid_utf8 p = true) l -> valid_utf8 (join [c] l) = true.
Proof.
  intros Hc. induction l as [|x [|y l] IH]; intros Hl; [done| |].
  - by apply Forall_cons in Hl as [? _].
  - apply Forall_cons in Hl as [Hx Hl].
    change (join [c] (x :: y :: l)) with (x ++ c :: join [c] (y :: l)).
    apply valid_utf8_app; [done|]. rewrite valid_utf8_ascii by done. by apply IH.
Qed.

Lemma valid_utf8_split c s :
  bz c <= 127 -> valid_utf8 s = true -> Forall (fun p => valid_utf8 p = true) (split c s).
Proof.
  intros Hc. rewrite <- (join_split c s) at 1. generalize (split c s) as l.
  induction l as [|x [|y l] IH]; intros Hv; [by constructor|by repeat constructor|].
  change (join [c] (x :: y :: l)) with (x ++ c :: join [c] (y :: l)) in Hv.
  apply valid_utf8_cut in Hv as [? ?]; [|done]. constructor; [done|]. by apply IH.
Qed.

Lemma valid_utf8_replace_ascii c d s :
  bz c <= 127 -> bz d <= 127 -> valid_utf8 s = true -> valid_utf8 (replace_char c [d] s) = true.
Proof.
  intros Hc Hd. induction s as [s IH] using (induction_ltof1 _ (@length ascii)). intros Hv.
  destruct (decide (s = [])) as [->|Hne]; [done|].
  destruct (valid_utf8_inv s Hv Hne) as (ch & r & -> & Hch & Hr & Hk & Ht).
  unfold replace_char. rewrite flat_map_app. fold (replace_char c [d] r).
  assert (valid_utf8 (replace_char c [d] r) = true) as Hrest.
  { apply IH; [|done]. unfold ltof. rewrite length_app. destruct ch; [done|]. simpl; lia. }
  destruct Hk as [(a & -> & Ha)|Hall].
  - simpl. destruct (beq a c); simpl; by rewrite valid_utf8_ascii.
  - assert (flat_map (fun b => if beq b c then [d] else [b]) ch = ch) as ->.
    { clear -Hall Hc. induction Hall as [|b ch Hb _ IHch]; [done|]. simpl. rewrite IHch.
      destruct (beq b c) eqn:E; [apply beq_true in E; subst; lia|done]. }
    by rewrite valid_utf8_cons.
Qed.

(** *** Trimming *)

Definition visible (b : ascii) : Prop := 33 <= bz b <= 126.

Lemma strip_seqs_id n seqs s :
  forallb (fun w => match w with a :: _ => negb (in_range 33 126 a) | [] => false end) seqs = true ->
  Forall visible s -> strip_seqs n seqs s = s.
Proof.
  intros Hs Hv. destruct n as [|n]; [done|]. simpl.
  assert (find_map (fun w => strip_prefix w s) seqs = None) as ->; [|done].
  induction seqs as [|w seqs IH]; simpl in *; [done|]. apply andb_true_iff in Hs as [Hw Hs].
  rewrite IH by done. destruct w as [|a w]; [done|]. destruct s as [|b s]; [done|].
  simpl. destruct (beq a b) eqn:E; [|done]. apply beq_true in E as ->.
  apply Forall_cons in Hv as [Hb _]. unfold visible, in_range in *. bools. lia.
Qed.

(** Trimming leaves a string of visible ASCII characters alone. *)
Lemma trim_visible s : Forall visible s -> trim s = s.
Proof.
  intros Hv. unfold trim, trim_start, trim_end.
  rewrite (strip_seqs_id (length s) white_space s) by done.
  rewrite strip_seqs_id; [apply reverse_involutive|done|].
  by apply Forall_reverse.
Qed.

Lemma split_app c x y : split c (x ++ c :: y) = split c x ++ split c y.
Proof.
  induction x as [|b x IH]; simpl; [by rewrite beq_refl|].
  destruct (beq b c); [by rewrite IH|]. rewrite IH.
  destruct (split c x) eqn:E; [by apply split_nonempty in E|done].
Qed.

Lemma join_app c l k :
  l <> [] -> k <> [] -> join [c] (l ++ k) = join [c] l ++ c :: join [c] k.
Proof.
  induction l as [|x [|y l] IH]; intros Hl Hk; [done| |].
  - simpl. by destruct k.
  - change ((x :: y :: l) ++ k) with (x :: (y :: l) ++ k).
    change (join [c] (x :: y :: l)) with (x ++ c :: join [c] (y :: l)).
    rewrite <- app_assoc. simpl in *. rewrite IH by done. done.
Qed.

#[export] Hint Rewrite beq_true beq_false seqb_true seqb_false beq_refl seqb_refl
  to_ascii_lowercase_idem trim_end_matches_idem : pxxl_rw.
#[export] Hint Resolve split_nonempty split_no_sep bz_range : pxxl.

(** *** Order *)

(** [Ord for str]: byte by byte. *)
Fixpoint str_leb (a b : rstr) : bool :=
  match a, b with
  | [], _ => true
  | _ :: _, [] => false
  | x :: a', y :: b' =>
    if bz x <? bz y then true else if bz y <? bz x then false else str_leb a' b'
  end.
Definition str_le (a b : rstr) : Prop := str_leb a b = true.
#[export] Instance str_le_dec : RelDecision str_le.
Proof. intros a b. unfold str_le. apply _. Defined.
(** [Vec<String>::sort] *)
Definition sort_strings (l : list rstr) : list rstr := merge_sort str_le l.

Lemma str_leb_bz x y a b :
  str_leb (x :: a) (y :: b) = (bz x <? bz y) || ((bz x =? bz y) && str_leb a b).
Proof.
  cbn. destruct (Z.ltb_spec (bz x) (bz y)), (Z.ltb_spec (bz y) (bz x)), (Z.eqb_spec (bz x) (bz y)); done || lia.
Qed.
#[export] Instance str_le_total : Total str_le.
Proof.
  intros a. unfold str_le. induction a as [|x a IH]; intros [|y b]; auto.
  rewrite !str_leb_bz. specialize (IH b).
  destruct (Z.ltb_spec (bz x) (bz y)), (Z.ltb_spec (bz y) (bz x)),
    (Z.eqb_spec (bz x) (bz y)), (Z.eqb_spec (bz y) (bz x)); try lia; cbn; auto.
Qed.
#[export] Instance str_le_trans : Transitive str_le.
Proof.
  intros a. unfold str_le. induction a as [|x a IH]; intros [|y b] [|z c]; try done.
  rewrite !str_leb_bz, !orb_true_iff, !andb_true_iff, !Z.ltb_lt, !Z.eqb_eq.
  intros [H1|[H1 H2]] [H3|[H3 H4]]; [left; lia..|right]. split; [lia|by apply (IH b)].
Qed.

#[export] Instance str_le_antisymm : AntiSymm (=) str_le.
Proof.
  intros a. unfold str_le. induction a as [|x a IH]; intros [|y b]; try done.
  rewrite !str_leb_bz, !orb_true_iff, !andb_true_iff, !Z.ltb_lt, !Z.eqb_eq.
  intros [H1|[H1 H2]] [H3|[H3 H4]]; try lia. f_equal; [|by apply IH]. by rewrite <- (byte_of_bz x), H1, byte_of_bz.
Qed.

(** A [BTreeMap] iterates in the order of its keys. *)
Definition key_le {V} (a b : rstr * V) : Prop := str_le (fst a) (fst b).
#[export] Instance key_le_dec {V} : RelDecision (@key_le V).
Proof. intros a b. unfold key_le. apply _. Defined.
Definition btree_to_list {V} (m : gmap rstr V) : list (rstr * V) := merge_sort key_le (map_to_list m).

Lemma btree_to_list_perm {V} (m : gmap rstr V) : btree_to_list m ≡ₚ map_to_list m.
Proof. apply merge_sort_Permutation. Qed.
Lemma btree_to_list_elem {V} (m : gmap rstr V) k v : (k, v) ∈ btree_to_list m <-> m !! k = Some v.
Proof. rewrite btree_to_list_perm. apply elem_of_map_to_list. Qed.
Lemma btree_to_list_NoDup {V} (m : gmap rstr V) : NoDup (btree_to_list m).
Proof. rewrite btree_to_list_perm. apply NoDup_map_to_list. Qed.
Lemma btree_to_list_keys {V} (m : gmap rstr V) : NoDup (fst <$> btree_to_list m).
Proof. rewrite btree_to_list_perm. apply NoDup_fst_map_to_list. Qed.
Lemma btree_to_list_length {V} (m : gmap rstr V) : length (btree_to_list m) = size m.
Proof. rewrite btree_to_list_perm. apply length_map_to_list. Qed.

(** *** Lines *)

(** [str::lines]: a line ends at a line feed, with the carriage return before
    it; a final empty line is not one. *)
Definition LF : ascii := byte_of 10.
Definition CR : ascii := byte_of 13.
Definition strip_cr (l : rstr) : rstr :=
  match strip_suffix [CR] l with Some l' => l' | None => l end.
Definition lines (s : rstr) : list rstr :=
  let parts := split LF s in
  let terminated := removelast parts in
  let rest := List.last parts [] in
  map strip_cr terminated ++ (if is_empty rest then [] else [rest]).
Example lines_example :
  lines (lit "a" ++ [CR; LF] ++ lit "b" ++ [LF; LF] ++ lit "c" ++ [CR]) = [lit "a"; lit "b"; []; lit "c" ++ [CR]].
Proof. reflexivity. Qed.

(** ** Numbers and their digits *)

Lemma digit_char_value d : 0 <= d < 36 -> digit_value (digit_char d) = Some d.
Proof.
  intros Hd. assert (Forall (fun n => digit_value (digit_char (Z.of_nat n)) = Some (Z.of_nat n)) (seq 0 36)) as H.
  { repeat constructor. }
  rewrite Forall_forall in H. specialize (H (Z.to_nat d)). rewrite Z2Nat.id in H by lia.
  apply H. apply elem_of_seq. lia.
Qed.

Lemma digits_fuel_app fuel r n acc : digits_fuel fuel r n acc = digits_fuel fuel r n [] ++ acc.
Proof.
  revert n acc. induction fuel as [|k IH]; intros n acc; [done|]. cbn [digits_fuel].
  destruct (n <? r); [done|]. rewrite IH, (IH _ [_]), <- app_assoc. done.
Qed.

Lemma parse_digits_app r max a x y :
  parse_digits r max a (x ++ y) =
  match parse_digits r max a x with Some b => parse_digits r max b y | None => None end.
Proof.
  revert a. induction x as [|c x IH]; intros a; [done|]. cbn [app parse_digits].
  destruct (digit_value c) as [d|]; [|done]. destruct (_ && _); [apply IH|done].
Qed.

Lemma parse_digits_fuel r max fuel : forall n,
  2 <= r <= 36 -> 0 <= n <= max -> n < r ^ Z.of_nat fuel ->
  parse_digits r max 0 (digits_fuel fuel r n []) = Some n /\
  Forall (fun c => exists d, 0 <= d < r /\ c = digit_char d) (digits_fuel fuel r n []) /\
  (fuel <> O -> digits_fuel fuel r n [] <> []).
Proof.
  induction fuel as [|k IH]; intros n Hr Hn Hf.
  { cbn [digits_fuel]. change (r ^ Z.of_nat 0) with 1 in Hf. assert (n = 0) as -> by lia. done. }
  cbn [digits_fuel]. pose proof (Z.mod_pos_bound n r ltac:(lia)) as Hm.
  pose proof (Z.div_mod n r ltac:(lia)) as Hdm.
  assert (forall a, 0 <= a -> a * r + n mod r <= max ->
    parse_digits r max a [digit_char (n mod r)] = Some (a * r + n mod r)) as Hlast.
  { intros a Ha Hle. cbn [parse_digits]. rewrite digit_char_value by lia.
    rewrite (proj2 (Z.ltb_lt _ _)) by lia. cbn [andb]. by rewrite (proj2 (Z.leb_le _ _)) by lia. }
  destruct (n <? r) eqn:E; bools.
  - assert (n mod r = n) as Em by (apply Z.mod_small; lia). rewrite Hlast, Em by lia.
    split; [f_equal; lia|]. split; [|done].
    constructor; [|constructor]. exists n. split; [lia|done].
  - rewrite digits_fuel_app. destruct (IH (n / r)) as (H1 & H2 & _).
    + done.
    + split; [apply Z.div_pos; lia|]. transitivity n; [|lia]. apply Z.div_le_upper_bound; nia.
    + apply Z.div_lt_upper_bound; [lia|]. rewrite Nat2Z.inj_succ, Z.pow_succ_r in Hf by lia. lia.
    + rewrite parse_digits_app, H1, Hlast by (try apply Z.div_pos; lia). split; [f_equal; lia|]. split.
      * apply Forall_app. split; [done|]. constructor; [|constructor]. by exists (n mod r).
      * intros _. by destruct (digits_fuel k r (n / r) []).
Qed.

(** [format!("{n:x}")] followed by [u64::from_str_radix(.., 16)]. *)
Lemma to_hex_roundtrip max n :
  0 <= n <= max -> n < 2 ^ 128 ->
  from_str_radix 16 max (to_hex n) = Some n /\ to_hex n <> [] /\
  Forall (fun c => exists d, 0 <= d < 16 /\ c = digit_char d) (to_hex n).
Proof.
  intros Hn Hlt. unfold to_hex.
  destruct (parse_digits_fuel 16 max 128 n) as (H1 & H2 & H3); [lia|done| |].
  { eapply Z.lt_le_trans; [exact Hlt|]. by vm_compute. }
  specialize (H3 ltac:(done)). split; [|split; [done|exact H2]].
  destruct (digits_fuel 128 16 n []) as [|c s] eqn:E; [done|]. unfold from_str_radix.
  apply Forall_cons in H2 as [(d & Hd & ->) _].
  assert (beq (digit_char d) "+"%char = false) as ->; [|exact H1].
  apply beq_false. intros Hp. pose proof (digit_char_value d ltac:(lia)) as Hv. rewrite Hp in Hv.
  discriminate Hv.
Qed.

(** ** Lists without repetition *)

(** [Vec::dedup]: of equal neighbours the first stays. *)
Fixpoint dedup_after (previous : rstr) (l : list rstr) : list rstr :=
  match l with
  | [] => []
  | x :: l' => if x =s? previous then dedup_after previous l' else x :: dedup_after x l'
  end.
Definition dedup (l : list rstr) : list rstr := match l with [] => [] | x :: l' => x :: dedup_after x l' end.

Lemma dedup_after_subset p l x : x ∈ dedup_after p l -> x ∈ l.
Proof.
  revert p. induction l as [|y l IH]; intros p; cbn; [done|]. destruct (y =s? p).
  - intros H. right. by eapply IH.
  - intros [->|H]%elem_of_cons; [left|right; by eapply IH].
Qed.
Lemma dedup_after_elem l : forall p x, x ∈ l -> x ∈ dedup_after p l \/ x = p.
Proof.
  induction l as [|y l IH]; intros p x Hx; [by apply elem_of_nil in Hx|]. cbn [dedup_after]. destruct (y =s? p) eqn:E.
  - apply seqb_true in E as ->. apply elem_of_cons in Hx as [->|Hx]; [by right|by apply IH].
  - apply elem_of_cons in Hx as [->|Hx]; [left; set_solver|]. left. destruct (IH y x Hx) as [?| ->]; set_solver.
Qed.
Lemma dedup_elem l x : x ∈ dedup l <-> x ∈ l.
Proof.
  destruct l as [|y l]; [done|]. cbn [dedup]. rewrite !elem_of_cons. split.
  - intros [->|?%dedup_after_subset]; auto.
  - intros [->|H]; [by left|]. destruct (dedup_after_elem l y x H); auto.
Qed.
Lemma dedup_after_sorted l : forall p, StronglySorted str_le (p :: l) ->
  StronglySorted str_le (p :: dedup_after p l) /\ NoDup (p :: dedup_after p l).
Proof.
  induction l as [|y l IH]; intros p H; cbn [dedup_after]; [split; [done|apply NoDup_singleton]|].
  apply StronglySorted_inv in H as [H Hp]. pose proof (StronglySorted_inv H) as [Hl Hy]. apply Forall_cons in Hp as [Hpy Hpl].
  destruct (y =s? p) eqn:E.
  - apply IH. by constructor.
  - apply seqb_false in E. destruct (IH y H) as [IH1 IH2]. assert (Forall (str_le y) (dedup_after y l)) as Hall by by apply StronglySorted_inv in IH1 as [_ ?].
    split.
    + constructor; [done|]. constructor; [done|]. eapply Forall_impl; [exact Hall|]. intros x Hx. by etransitivity.
    + constructor; [|done]. intros [<-|Hin]%elem_of_cons; [done|]. rewrite Forall_forall in Hall. apply E, (anti_symm str_le); [by apply Hall|done].
Qed.
Lemma dedup_sorted l : StronglySorted str_le l -> StronglySorted str_le (dedup l) /\ NoDup (dedup l).
Proof. destruct l as [|x l]; [by repeat constructor|]. apply dedup_after_sorted. Qed.

(** ** [String::from_utf8_lossy] *)

(** The bytes of an ill-formed sequence that one replacement character stands for:
    the longest start of a character. *)
Definition ill_formed (s : rstr) : nat :=
  match s with
  | a :: b :: r =>
    if (bz a =? 224) && in_range 160 191 b || (in_range 225 236 a || in_range 238 239 a) && cont b || (bz a =? 237) && in_range 128 159 b then 2%nat
    else if (bz a =? 240) && in_range 144 191 b || in_range 241 243 a && cont b || (bz a =? 244) && in_range 128 143 b
    then match r with c :: _ => if cont c then 3%nat else 2%nat | [] => 2%nat end
    else 1%nat
  | _ => 1%nat
  end.
Definition REPLACEMENT : rstr := map byte_of [239; 191; 189].
Fixpoint lossy_fuel (fuel : nat) (s : rstr) : rstr :=
  match s, fuel with
  | [], _ | _, O => []
  | _, S fuel =>
    match utf8_tail s with
    | Some r => take (length s - length r) s ++ lossy_fuel fuel r
    | None => REPLACEMENT ++ lossy_fuel fuel (drop (ill_formed s) s)
    end
  end.
Definition from_utf8_lossy (s : rstr) : rstr := lossy_fuel (length s) s.

Lemma lossy_fuel_valid n s : (length s <= n)%nat -> valid_utf8 s = true -> lossy_fuel n s = s.
Proof.
  revert s. induction n as [|n IH]; intros s Hn Hv; destruct (decide (s = [])) as [->|Hne]; try done; [by destruct s; cbn [length] in Hn; [|lia]|].
  destruct (valid_utf8_inv s Hv Hne) as (ch & r & -> & Hch & Hr & _ & Ht). destruct ch as [|a ch]; [done|]. cbn [lossy_fuel app].
  rewrite (Ht r : utf8_tail (a :: ch ++ r) = _). rewrite length_app in Hn. cbn [length] in Hn. rewrite IH; [|lia|done].
  assert (length (a :: ch ++ r) - length r = length (a :: ch))%nat as -> by (cbn [length]; rewrite length_app; lia).
  by rewrite (take_app_length (a :: ch) r : take _ (a :: ch ++ r) = _).
Qed.
Lemma from_utf8_lossy_valid s : valid_utf8 s = true -> from_utf8_lossy s = s.
Proof. by apply lossy_fuel_valid. Qed.
Example lossy_example :
  from_utf8_lossy (map byte_of [97; 226; 130; 98; 255; 240; 159; 146]) = map byte_of [97] ++ REPLACEMENT ++ map byte_of [98] ++ REPLACEMENT ++ REPLACEMENT.
Proof. by vm_compute. Qed.

(** ** Numbers as texts of bits, for the codecs of the examples *)

Fixpoint bits_of (p : positive) : rstr :=
  match p with xH => [] | xO p => chr "0" :: bits_of p | xI p => chr "1" :: bits_of p end.
Fixpoint of_bits (s : rstr) : positive :=
  match s with [] => xH | c :: s => if beq c (chr "1") then xI (of_bits s) else xO (of_bits s) end.
Lemma of_bits_of p : of_bits (bits_of p) = p.
Proof. induction p as [p IH|p IH|]; cbn; by rewrite ?IH. Qed.
Lemma bits_visible p : Forall visible (bits_of p).
Proof. induction p as [p IH|p IH|]; cbn; constructor; try done; by vm_compute. Qed.
Lemma visible_utf8 s : Forall visible s -> valid_utf8 s = true.
Proof. induction 1 as [|b s Hb Hs IH]; [done|]. rewrite valid_utf8_ascii; [done|]. unfold visible in Hb. lia. Qed.

Lemma digits_plain q fuel n acc : (forall d, digit_value q = Some d -> 10 <= d) -> q ∉ acc -> q ∉ digits_fuel fuel 10 n acc.
Proof.
  intros Hq. revert n acc. induction fuel as [|fuel IH]; intros n acc Ha; [done|]. cbn [digits_fuel].
  assert (q <> digit_char (n mod 10)) as Hd.
  { intros ->. pose proof (Z.mod_pos_bound n 10 ltac:(lia)). pose proof (digit_char_value (n mod 10) ltac:(lia)) as Hv. apply Hq in Hv. lia. }
  destruct (n <? 10); [by apply not_elem_of_cons|]. by apply IH, not_elem_of_cons.
Qed.

(** Numbers are known from their digits, with or without leading zeros. *)
Lemma parse_zero_pad w n : 0 <= n < 2 ^ 127 -> parse_digits 10 (2 ^ 127) 0 (zero_pad w (to_dec n)) = Some n.
Proof.
  intros Hn. unfold zero_pad. rewrite parse_digits_app.
  assert (forall k, parse_digits 10 (2 ^ 127) 0 (repeat "0"%char k) = Some 0) as -> by (induction k as [|k IH]; [done|exact IH]).
  destruct (parse_digits_fuel 10 (2 ^ 127) 128 n) as (H & _); [lia|lia| |exact H].
  eapply Z.lt_le_trans; [apply Hn|]. by vm_compute.
Qed.
Lemma zero_pad_inj w n n' : 0 <= n < 2 ^ 127 -> 0 <= n' < 2 ^ 127 -> zero_pad w (to_dec n) = zero_pad w (to_dec n') -> n = n'.
Proof. intros Hn Hn' H. apply (parse_zero_pad w) in Hn. apply (parse_zero_pad w) in Hn'. congruence. Qed.
Lemma zero_pad_plain q w n : (forall d, digit_value q = Some d -> 10 <= d) -> q ∉ zero_pad w (to_dec n).
Proof.
  intros Hq. unfold zero_pad. rewrite elem_of_app. intros [H|H].
  - apply list_elem_of_In, repeat_spec in H as ->. specialize (Hq 0 eq_refl). lia.
  - by apply (digits_plain q 128 n []) in H; [| |apply not_elem_of_nil].
Qed.

(** Texts around a separator that one side does not have. *)
Lemma app_sep_inj (c : ascii) a a' b b' : c ∉ a -> c ∉ a' -> a ++ c :: b = a' ++ c :: b' -> a = a' /\ b = b'.
Proof.
  revert a'. induction a as [|x a IH]; intros [|x' a'] Ha Ha' H; cbn [app] in H; injection H; [done|intros _ ->; by destruct Ha'; left|intros _ ->; by destruct Ha; left|clear H; intros H ->].
  apply not_elem_of_cons in Ha as [_ Ha]. apply not_elem_of_cons in Ha' as [_ Ha']. destruct (IH a' Ha Ha' H) as [-> ->]. done.
Qed.
Lemma app_sep_inj_r (c : ascii) a a' b b' : c ∉ b -> c ∉ b' -> a ++ c :: b = a' ++ c :: b' -> a = a' /\ b = b'.
Proof.
  intros Hb Hb' H. apply (f_equal reverse) in H. rewrite !reverse_app, !reverse_cons, <- !app_assoc in H. cbn [app] in H.
  apply app_sep_inj in H as [H1 H2]; [|by rewrite elem_of_reverse..]. split; by apply (inj reverse).
Qed.

(** ** Trimming twice, and trimming in lower case *)

Definition unstripped (seqs : list rstr) (s : rstr) : Prop := Forall (fun w => strip_prefix w s = None) seqs.
Lemma find_map_None {A B} (f : A -> option B) l : find_map f l = None <-> Forall (fun x => f x = None) l.
Proof. induction l as [|x l IH]; cbn; [done|]. rewrite Forall_cons. destruct (f x); [naive_solver|rewrite IH; naive_solver]. Qed.
Lemma strip_seqs_unstripped fuel seqs s : Forall (fun w => w <> []) seqs -> (length s <= fuel)%nat -> unstripped seqs (strip_seqs fuel seqs s).
Proof.
  intros Hne. revert s. induction fuel as [|n IH]; intros s Hl; cbn [strip_seqs].
  - destruct s; [|cbn in Hl; lia]. eapply Forall_impl; [exact Hne|]. by intros [|].
  - destruct (find_map _ seqs) as [s'|] eqn:E; [|by apply find_map_None in E].
    apply find_map_Some in E as (w & Hw & ->%strip_prefix_Some). rewrite Forall_forall in Hne. specialize (Hne w Hw).
    apply IH. rewrite length_app in Hl. destruct w; [done|]. cbn in Hl. lia.
Qed.
Lemma strip_seqs_suffix fuel seqs s : exists p, s = p ++ strip_seqs fuel seqs s.
Proof.
  revert s. induction fuel as [|n IH]; intros s; [by exists []|]. cbn [strip_seqs].
  destruct (find_map _ seqs) as [s'|] eqn:E; [|by exists []]. apply find_map_Some in E as (w & _ & ->%strip_prefix_Some).
  destruct (IH s') as [p Hp]. exists (w ++ p). by rewrite <- app_assoc, <- Hp.
Qed.
Lemma strip_seqs_done fuel seqs s : unstripped seqs s -> strip_seqs fuel seqs s = s.
Proof. intros H. destruct fuel; [done|]. cbn [strip_seqs]. by rewrite (proj2 (find_map_None _ _) H). Qed.
Lemma unstripped_prefix seqs s t : unstripped seqs (s ++ t) -> unstripped seqs s.
Proof.
  intros H. eapply Forall_impl; [exact H|]. intros w Hw. cbn in *. destruct (strip_prefix w s) as [r|] eqn:E; [|done].
  apply strip_prefix_Some in E as ->. rewrite <- app_assoc in Hw. by rewrite (proj2 (strip_prefix_Some _ _ _) eq_refl) in Hw.
Qed.
Lemma trim_ends s : unstripped white_space (trim s) /\ unstripped (map (@reverse ascii) white_space) (reverse (trim s)).
Proof.
  unfold trim. set (u := trim_start s).
  assert (Hu : unstripped white_space u) by (apply strip_seqs_unstripped; [by repeat constructor|done]).
  unfold trim_end. rewrite reverse_involutive. split; [|apply strip_seqs_unstripped; [by repeat constructor|by rewrite length_reverse]].
  destruct (strip_seqs_suffix (length u) (map (@reverse ascii) white_space) (reverse u)) as [p Hp].
  apply (f_equal reverse) in Hp. rewrite reverse_involutive, reverse_app in Hp. rewrite Hp in Hu. by apply unstripped_prefix in Hu.
Qed.
Lemma trim_idem s : trim (trim s) = trim s.
Proof.
  destruct (trim_ends s) as [H1 H2]. unfold trim at 1, trim_start. rewrite (strip_seqs_done _ _ _ H1). unfold trim_end.
  rewrite (strip_seqs_done _ _ _ H2). apply reverse_involutive.
Qed.

Definition caseless (w : rstr) : bool := forallb (fun c => negb (is_ascii_upper c) && negb (is_ascii_lower c)) w.
Lemma caseless_lower a b : negb (is_ascii_upper a) && negb (is_ascii_lower a) = true -> beq a (ascii_lower b) = beq a b.
Proof.
  intros Ha. destruct (beq a b) eqn:E.
  - apply beq_true in E as ->. unfold ascii_lower. apply andb_prop in Ha as [->%negb_true_iff _]. apply beq_refl.
  - unfold ascii_lower. destruct (is_ascii_upper b) eqn:Eb; [|exact E]. apply not_true_iff_false. intros ->%beq_true.
    revert Ha Eb. clear. by destruct b as [[] [] [] [] [] [] [] []].
Qed.
Lemma strip_prefix_lower w s : caseless w = true -> strip_prefix w (to_ascii_lowercase s) = to_ascii_lowercase <$> strip_prefix w s.
Proof.
  revert s. induction w as [|a w IH]; intros [|b s]; try done. cbn [caseless forallb]. intros [Ha Hw]%andb_prop.
  cbn [to_ascii_lowercase map strip_prefix]. rewrite caseless_lower by done. destruct (beq a b); [by apply IH|done].
Qed.
Lemma strip_seqs_lower fuel seqs s : forallb caseless seqs = true -> strip_seqs fuel seqs (to_ascii_lowercase s) = to_ascii_lowercase (strip_seqs fuel seqs s).
Proof.
  intros Hc. revert s. induction fuel as [|n IH]; intros s; [done|]. cbn [strip_seqs].
  assert (find_map (fun w => strip_prefix w (to_ascii_lowercase s)) seqs = to_ascii_lowercase <$> find_map (fun w => strip_prefix w s) seqs) as ->.
  { clear IH. induction seqs as [|w seqs IHs]; [done|]. cbn [forallb] in Hc. apply andb_prop in Hc as [Hw Hc]. cbn [find_map].
    rewrite strip_prefix_lower, IHs by done. by destruct (strip_prefix w s). }
  destruct (find_map _ seqs); [apply IH|done].
Qed.
Lemma reverse_lower s : reverse (to_ascii_lowercase s) = to_ascii_lowercase (reverse s).
Proof. symmetry. apply (fmap_reverse ascii_lower s). Qed.
Lemma trim_lower s : trim (to_ascii_lowercase s) = to_ascii_lowercase (trim s).
Proof.
  unfold trim, trim_start, trim_end. assert (Hl : forall s, length (to_ascii_lowercase s) = length s) by (intros; apply length_map).
  rewrite Hl, strip_seqs_lower, Hl, reverse_lower, strip_seqs_lower by (by vm_compute). apply reverse_lower.
Qed.
