(* ===== verification/RustNum.v ===== *)
(** Numbers: machine integers with their wrap-around and saturation, IEEE 754
    binary64 arithmetic on non-negative finite values, and the conversions of
    [std::time::Duration].

    A non-negative finite [f64] is a multiple of [2^-1074]; it is modelled by
    that multiple, an integer.  Each operation is the exact result rounded to
    53 significant bits, ties to even.  Infinities, NaN and negative values do
    not arise in the code modelled here (its operands are counts, durations
    and rates, and the only subtraction is guarded), so they are left out. *)
From stdpp Require Import options.
From S2P Require Import Prelude.

Local Open Scope Z_scope.

(** ** Machine integers *)

Definition U64_MAX : Z := 2 ^ 64 - 1.
Definition U32_MAX : Z := 2 ^ 32 - 1.
Definition wrap64 (z : Z) : Z := z mod 2 ^ 64.
Definition saturating_add64 (a b : Z) : Z := Z.min (a + b) U64_MAX.
Definition saturating_add32 (a b : Z) : Z := Z.min (a + b) U32_MAX.
Definition saturating_mul64 (a b : Z) : Z := Z.min (a * b) U64_MAX.
Definition saturating_sub (a b : Z) : Z := Z.max (a - b) 0.

Definition is_u64 (z : Z) : Prop := 0 <= z <= U64_MAX.

Lemma wrap64_range z : 0 <= wrap64 z < 2 ^ 64.
Proof. apply Z.mod_pos_bound. lia. Qed.
Lemma wrap64_small z : is_u64 z -> wrap64 z = z.
Proof. intros H. apply Z.mod_small. unfold is_u64, U64_MAX in H. lia. Qed.
Lemma saturating_add64_u64 a b : 0 <= a -> 0 <= b -> is_u64 (saturating_add64 a b).
Proof. unfold is_u64, saturating_add64, U64_MAX. lia. Qed.
Lemma saturating_sub_u64 a b : is_u64 a -> 0 <= b -> is_u64 (saturating_sub a b).
Proof. unfold is_u64, saturating_sub, U64_MAX. lia. Qed.
#[export] Hint Resolve wrap64_range saturating_add64_u64 saturating_sub_u64 : pxxl.

(** ** Rounding *)

(** The nearest integer to [n / d], ties to even. *)
Definition div_half_even (n d : Z) : Z :=
  let q := n / d in
  let r := n mod d in
  if 2 * r <? d then q
  else if d <? 2 * r then q + 1
  else if Z.even q then q else q + 1.

(** The unit in the last place of a value of integer part [v]. *)
Definition ulp_exp (v : Z) : Z := Z.max 0 (Z.log2 v - 52).

(** The value of 53 significant bits nearest to [n / d]. *)
Definition round53 (n d : Z) : Z :=
  let ulp := 2 ^ ulp_exp (n / d) in
  div_half_even n (d * ulp) * ulp.

(** ** [f64] *)

Definition f64_one : Z := 2 ^ 1074.
Definition f64_of_int (z : Z) : Z := round53 (z * f64_one) 1.
Definition f64_ratio (n d : Z) : Z := round53 (n * f64_one) d.
Definition f64_add (a b : Z) : Z := round53 (a + b) 1.
Definition f64_sub (a b : Z) : Z := round53 (a - b) 1.
Definition f64_mul (a b : Z) : Z := round53 (a * b) f64_one.
Definition f64_div (a b : Z) : Z := round53 (a * f64_one) b.
(** [x as u64]: truncation, saturating. *)
Definition f64_to_u64 (x : Z) : Z := Z.min (x / f64_one) U64_MAX.
(** [f64::round]: to the nearest integer, halves away from zero. *)
Definition f64_round (x : Z) : Z := (2 * x + f64_one) / (2 * f64_one) * f64_one.

(** ** [Duration], in nanoseconds *)

Definition NANOS : Z := 1000000000.
Definition from_secs (s : Z) : Z := s * NANOS.
Definition from_millis (ms : Z) : Z := ms * 1000000.
Definition as_secs (d : Z) : Z := d / NANOS.
Definition as_millis (d : Z) : Z := d / 1000000.
Definition as_secs_f64 (d : Z) : Z :=
  f64_add (f64_of_int (d / NANOS)) (f64_div (f64_of_int (d mod NANOS)) (f64_of_int NANOS)).
(** [Duration::from_secs_f64]: to the nearest nanosecond, ties to even. *)
Definition from_secs_f64 (x : Z) : Z := div_half_even (x * NANOS) f64_one.

Example as_secs_f64_half : as_secs_f64 2500000000 = 5 * 2 ^ 1073.
Proof. vm_compute. reflexivity. Qed.
Example f64_tenth : f64_ratio 1 10 = 0x1999999999999a * 2 ^ 1018.
Proof. vm_compute. reflexivity. Qed.

(** ** Lemmas on rounding *)

Lemma div_half_even_bounds n d :
  0 < d -> 2 * (d * div_half_even n d) <= 2 * n + d /\ 2 * n - d <= 2 * (d * div_half_even n d).
Proof.
  intros Hd. unfold div_half_even.
  pose proof (Z.div_mod n d ltac:(lia)) as Hdm. pose proof (Z.mod_pos_bound n d Hd).
  destruct (2 * (n mod d) <? d) eqn:E1; bools; [nia|].
  destruct (d <? 2 * (n mod d)) eqn:E2; bools; [nia|].
  destruct (Z.even (n / d)); nia.
Qed.

Lemma div_half_even_exact m d : 0 < d -> div_half_even (m * d) d = m.
Proof.
  intros Hd. unfold div_half_even. rewrite Z.div_mul, Z.mod_mul by lia.
  by rewrite (proj2 (Z.ltb_lt _ _)) by lia.
Qed.

Lemma div_half_even_nonneg n d : 0 < d -> 0 <= n -> 0 <= div_half_even n d.
Proof.
  intros Hd Hn. unfold div_half_even. pose proof (Z.div_pos n d Hn Hd).
  destruct (_ <? _); [lia|]. destruct (_ <? _); [lia|]. destruct (Z.even _); lia.
Qed.

Lemma div_half_even_mono a b d : 0 < d -> a <= b -> div_half_even a d <= div_half_even b d.
Proof.
  intros Hd Hab. unfold div_half_even.
  pose proof (Z.div_mod a d ltac:(lia)) as Ha. pose proof (Z.mod_pos_bound a d Hd).
  pose proof (Z.div_mod b d ltac:(lia)) as Hb. pose proof (Z.mod_pos_bound b d Hd).
  pose proof (Z.div_le_mono a b d Hd Hab) as Hq.
  destruct (decide (a / d = b / d)) as [E|E].
  - rewrite E in *. assert (a mod d <= b mod d) by lia.
    destruct (2 * (a mod d) <? d) eqn:A1, (2 * (b mod d) <? d) eqn:B1; bools; try lia.
    all: destruct (d <? 2 * (b mod d)) eqn:B2; bools; try lia.
    all: destruct (d <? 2 * (a mod d)) eqn:A2; bools; try lia.
    all: destruct (Z.even _); lia.
  - assert (a / d + 1 <= b / d) by lia.
    repeat match goal with |- context [if ?c then _ else _] => destruct c end; lia.
Qed.

(** A value that already has 53 significant bits is its own rounding. *)
Lemma round53_repr m k : 0 <= k -> 0 <= m < 2 ^ 53 -> round53 (m * 2 ^ k) 1 = m * 2 ^ k.
Proof.
  intros Hk Hm. unfold round53, ulp_exp. rewrite Z.div_1_r, Z.mul_1_l.
  set (e := Z.max 0 _). assert (0 <= e) as He by lia.
  assert (m = 0 \/ e <= k) as [->|Hek]; [|done|].
  { destruct (decide (m = 0)) as [->|?]; [by left|right].
    assert (Z.log2 (m * 2 ^ k) <= 52 + k); [|lia].
    rewrite Z.log2_mul_pow2 by lia. assert (Z.log2 m < 53); [|lia].
    apply Z.log2_lt_pow2; lia. }
  assert (0 < 2 ^ e) by (apply Z.pow_pos_nonneg; lia).
  replace (m * 2 ^ k) with (m * 2 ^ (k - e) * 2 ^ e).
  - by rewrite div_half_even_exact.
  - rewrite <- Z.mul_assoc, <- Z.pow_add_r by lia. do 2 f_equal. lia.
Qed.

Lemma round53_nonneg n d : 0 < d -> 0 <= n -> 0 <= round53 n d.
Proof.
  intros Hd Hn. unfold round53. assert (0 < 2 ^ ulp_exp (n / d)).
  { apply Z.pow_pos_nonneg; unfold ulp_exp; lia. }
  apply Z.mul_nonneg_nonneg; [|lia]. apply div_half_even_nonneg; [nia|done].
Qed.

Lemma ulp_exp_nonneg v : 0 <= ulp_exp v.
Proof. unfold ulp_exp. lia. Qed.
Lemma ulp_pos v : 0 < 2 ^ ulp_exp v.
Proof. apply Z.pow_pos_nonneg; [lia|apply ulp_exp_nonneg]. Qed.
#[export] Hint Resolve ulp_exp_nonneg ulp_pos : pxxl.

(** The integer part of a value is below [2^53] units in the last place, and
    at least [2^52] of them unless the unit is 1. *)
Lemma ulp_exp_spec v :
  0 <= v -> v < 2 ^ 53 * 2 ^ ulp_exp v /\ (ulp_exp v = 0 \/ 2 ^ 52 * 2 ^ ulp_exp v <= v).
Proof.
  intros Hv. rewrite <- !Z.pow_add_r by auto using ulp_exp_nonneg with lia.
  unfold ulp_exp. destruct (decide (v = 0)) as [->|Hv0].
  { split; [apply Z.pow_pos_nonneg; lia|left; done]. }
  destruct (Z.log2_spec v ltac:(lia)) as [Hlo Hhi]. split.
  - eapply Z.lt_le_trans; [exact Hhi|]. apply Z.pow_le_mono_r; lia.
  - destruct (decide (Z.log2 v <= 52)) as [?|?]; [left; lia|right].
    replace (52 + Z.max 0 (Z.log2 v - 52)) with (Z.log2 v) by lia. done.
Qed.

Lemma round53_mono a b : 0 <= a <= b -> round53 a 1 <= round53 b 1.
Proof.
  intros Hab. unfold round53. rewrite !Z.div_1_r, !Z.mul_1_l.
  destruct (decide (ulp_exp a = ulp_exp b)) as [E|E].
  { rewrite E. apply Z.mul_le_mono_nonneg_r; [pose proof (ulp_pos b); lia|].
    apply div_half_even_mono; [apply ulp_pos|lia]. }
  assert (ulp_exp a < ulp_exp b) as Hlt.
  { pose proof (Z.log2_le_mono a b ltac:(lia)). unfold ulp_exp in *. lia. }
  destruct (ulp_exp_spec a ltac:(lia)) as [Ha _].
  destruct (ulp_exp_spec b ltac:(lia)) as [_ [Hb|Hb]]; [pose proof (ulp_exp_nonneg a); lia|].
  set (ua := 2 ^ ulp_exp a) in *. set (ub := 2 ^ ulp_exp b) in *.
  assert (0 < ua /\ 0 < ub) as [Hua Hub] by (split; apply ulp_pos).
  assert (2 * ua <= ub) as Hu.
  { unfold ua, ub. change 2 with (2 ^ 1) at 1.
    rewrite <- Z.pow_add_r by (pose proof (ulp_exp_nonneg a); lia).
    apply Z.pow_le_mono_r; lia. }
  pose proof (div_half_even_mono a (2 ^ 53 * ua) ua Hua ltac:(lia)) as H1.
  pose proof (div_half_even_mono (2 ^ 52 * ub) b ub Hub Hb) as H2.
  rewrite div_half_even_exact in H1, H2 by done. nia.
Qed.

(** The values an [f64] can hold. *)
Definition f64_repr (x : Z) : Prop := exists m k, 0 <= k /\ 0 <= m < 2 ^ 53 /\ x = m * 2 ^ k.

Lemma round53_fix x : f64_repr x -> round53 x 1 = x.
Proof. intros (m & k & Hk & Hm & ->). by apply round53_repr. Qed.

Lemma round53_is_repr n d : 0 < d -> 0 <= n -> f64_repr (round53 n d).
Proof.
  intros Hd Hn. unfold round53.
  set (v := n / d). set (u := 2 ^ ulp_exp v). assert (0 < u) as Hu by apply ulp_pos.
  destruct (ulp_exp_spec v (Z.div_pos n d Hn Hd)) as [Hv _]. fold u in Hv.
  assert (n <= 2 ^ 53 * (d * u)) as Hle.
  { pose proof (Z.div_mod n d ltac:(lia)). pose proof (Z.mod_pos_bound n d Hd).
    unfold v in *. nia. }
  pose proof (div_half_even_mono _ _ (d * u) ltac:(nia) Hle) as Hm.
  rewrite div_half_even_exact in Hm by nia.
  pose proof (div_half_even_nonneg n (d * u) ltac:(nia) Hn).
  destruct (decide (div_half_even n (d * u) = 2 ^ 53)) as [->|?].
  - exists (2 ^ 52), (ulp_exp v + 1). pose proof (ulp_exp_nonneg v). split; [lia|]. split; [lia|].
    unfold u. rewrite Z.pow_add_r by lia. lia.
  - exists (div_half_even n (d * u)), (ulp_exp v). split; [apply ulp_exp_nonneg|]. split; [lia|done].
Qed.

(** The relative error of one rounding is at most [2^-53]. *)
Lemma round53_errors n d :
  0 < d -> 0 <= n -> (d = 1 \/ n = 0 \/ d * 2 ^ 52 <= n) ->
  2 ^ 53 * (d * round53 n d) <= (2 ^ 53 + 1) * n /\
  (2 ^ 53 - 1) * n <= 2 ^ 53 * (d * round53 n d).
Proof.
  intros Hd Hn Hcase. unfold round53. set (v := n / d). set (u := 2 ^ ulp_exp v).
  assert (0 < u) as Hu by apply ulp_pos.
  destruct (decide (n = 0)) as [E|?].
  { rewrite E. unfold div_half_even. rewrite Z.div_0_l, Z.mod_0_l by nia.
    rewrite (proj2 (Z.ltb_lt _ _)) by nia. lia. }
  assert (d * u * 2 ^ 52 <= n \/ (d = 1 /\ u = 1)) as [Hdu|[Ed Eu]].
  { destruct (ulp_exp_spec v (Z.div_pos n d Hn Hd)) as [_ [E|E]].
    - assert (u = 1) as Eu by (unfold u; by rewrite E). rewrite Eu.
      destruct Hcase as [?|[?|?]]; [by right|lia|left; lia].
    - left. fold u in E. pose proof (Z.mul_div_le n d Hd). unfold v in *. nia. }
  - pose proof (div_half_even_bounds n (d * u) ltac:(nia)) as [H1 H2].
    set (q := div_half_even n (d * u)) in *. clearbody q u v. nia.
  - rewrite Ed, Eu, !Z.mul_1_l, !Z.mul_1_r.
    assert (div_half_even n 1 = n) as -> by (rewrite <- (Z.mul_1_r n) at 1; by apply div_half_even_exact).
    lia.
Qed.

Lemma round53_error n d :
  0 < d -> 0 <= n -> (d = 1 \/ n = 0 \/ d * 2 ^ 52 <= n) ->
  2 ^ 53 * (d * round53 n d) <= (2 ^ 53 + 1) * n.
Proof. apply round53_errors. Qed.

(** Taking 1.0 from a value that holds it is exact. *)
Lemma f64_sub_one x :
  f64_repr x -> f64_one <= x -> x <= 2 ^ 53 * f64_one -> f64_sub x f64_one = x - f64_one.
Proof.
  unfold f64_one. intros (m & k & Hk & Hm & Hx) Hge Hle. apply round53_fix.
  destruct (decide (k <= 1074)) as [H|H].
  - exists (m - 2 ^ (1074 - k)), k. split; [done|].
    assert (2 ^ 1074 = 2 ^ (1074 - k) * 2 ^ k) as E.
    { rewrite <- Z.pow_add_r by lia. f_equal. lia. }
    assert (0 < 2 ^ k) by (apply Z.pow_pos_nonneg; lia).
    assert (0 < 2 ^ (1074 - k)) by (apply Z.pow_pos_nonneg; lia).
    rewrite E in *. split; [nia|]. rewrite Hx. ring.
  - exists (m * 2 ^ (k - 1074) - 1), 1074.
    assert (2 ^ k = 2 ^ (k - 1074) * 2 ^ 1074) as E.
    { rewrite <- Z.pow_add_r by lia. f_equal. lia. }
    assert (0 < 2 ^ (k - 1074)) by (apply Z.pow_pos_nonneg; lia).
    split; [lia|]. rewrite E in Hx. split; [|rewrite Hx; ring].
    set (S := 2 ^ 1074) in *. assert (0 < S) by (apply Z.pow_pos_nonneg; lia). clearbody S.
    rewrite Hx in Hge, Hle. nia.
Qed.

Lemma f64_one_pos : 0 < f64_one.
Proof. apply Z.pow_pos_nonneg; lia. Qed.

Lemma f64_of_int_exact z : 0 <= z < 2 ^ 53 -> f64_of_int z = z * f64_one.
Proof. intros Hz. unfold f64_of_int, f64_one. apply round53_repr; lia. Qed.

Lemma f64_int_repr z : 0 <= z < 2 ^ 53 -> f64_repr (z * f64_one).
Proof. intros Hz. exists z, 1074. unfold f64_one. lia. Qed.

Lemma f64_one_large : 2 ^ 128 <= f64_one.
Proof. apply Z.pow_le_mono_r; lia. Qed.

(** With the half unit a subnormal result may lose. *)
Lemma round53_error_abs n d :
  0 < d -> 0 <= n -> 2 ^ 53 * (d * round53 n d) <= (2 ^ 53 + 1) * n + 2 ^ 52 * d.
Proof.
  intros Hd Hn. destruct (decide (d * 2 ^ 52 <= n)) as [H|H].
  { pose proof (round53_error n d Hd Hn ltac:(by right; right)). lia. }
  assert (n / d < 2 ^ 52) as Hv by (apply Z.div_lt_upper_bound; lia).
  unfold round53. assert (ulp_exp (n / d) = 0) as ->.
  { unfold ulp_exp. destruct (decide (n / d <= 0)) as [?|?].
    - rewrite Z.log2_nonpos by lia. done.
    - assert (Z.log2 (n / d) < 52) by (apply Z.log2_lt_pow2; lia). lia. }
  change (2 ^ 0) with 1. rewrite !Z.mul_1_r.
  destruct (div_half_even_bounds n d Hd) as [H1 _]. lia.
Qed.

#[global] Opaque f64_one round53.
#[export] Hint Resolve f64_one_pos round53_is_repr round53_nonneg : pxxl.

(** Dividing and multiplying back loses less than a quarter below [2^50]. *)
Lemma average_roundtrip total n :
  0 <= total < 2 ^ 50 -> 0 < n < 2 ^ 53 ->
  f64_to_u64 (f64_round (f64_mul (f64_div (f64_of_int total) (f64_of_int n)) (f64_of_int n))) = total.
Proof.
  intros Ht Hn. rewrite !f64_of_int_exact by lia. unfold f64_mul, f64_div, f64_round, f64_to_u64.
  pose proof f64_one_large as HB. set (B := f64_one) in *.
  set (a := round53 (total * B * B) (n * B)).
  assert (2 ^ 53 * (n * a) <= (2 ^ 53 + 1) * (total * B) /\ (2 ^ 53 - 1) * (total * B) <= 2 ^ 53 * (n * a)) as Ha.
  { destruct (round53_errors (total * B * B) (n * B)) as [H1 H2]; [nia|nia| |fold a in H1, H2; nia].
    destruct (decide (total = 0)) as [->|?]; [right; left; lia|right; right]. nia. }
  set (b := round53 (a * (n * B)) B).
  assert (0 <= a) as Ha0 by (apply round53_nonneg; nia).
  assert (2 ^ 53 * b <= (2 ^ 53 + 1) * (n * a) /\ (2 ^ 53 - 1) * (n * a) <= 2 ^ 53 * b) as Hb.
  { destruct (round53_errors (a * (n * B)) B) as [H1 H2]; [nia|nia| |fold b in H1, H2; nia].
    destruct (decide (a = 0)) as [->|?]; [right; left; lia|right; right].
    destruct (decide (total = 0)) as [->|?]; [nia|]. nia. }
  assert ((2 * b + B) / (2 * B) = total) as ->.
  { symmetry. apply (Z.div_unique _ _ _ (2 * b + B - 2 * B * total)); [|lia]. left. nia. }
  rewrite Z.div_mul by nia. unfold U64_MAX. lia.
Qed.

(** [a + b] and [a * b] on [u64]: they wrap, as in a release build. *)
Definition add64 (a b : Z) : Z := wrap64 (a + b).
Definition mul64 (a b : Z) : Z := wrap64 (a * b).
