(* ===== verification/TokenBucket.v ===== *)
(** The token bucket both rate limiters are built from: [RateLimiter::allow]
    of the [ddos] crate and [PolicyRateLimiter::retry_after] of the
    [http-proxy] crate share its arithmetic word for word.  The tokens and the
    rate are [f64] values; instants are nanoseconds. *)
From stdpp Require Import options.
From S2P Require Import Prelude RustNum.

Local Open Scope Z_scope.

Record RateBucket := {
  rb_tokens : Z;
  rb_last_refill : Z;
}.
#[export] Instance RateBucket_eq_dec : EqDecision RateBucket.
Proof. solve_decision. Defined.

(** [now.duration_since(earlier)] saturates at zero. *)
Definition duration_since (now earlier : Z) : Z := saturating_sub now earlier.

Definition refill_amount (rate : Z) (b : RateBucket) (now : Z) : Z :=
  f64_mul (as_secs_f64 (duration_since now (rb_last_refill b))) rate.

Definition refill_bucket (rate burst : Z) (b : RateBucket) (now : Z) : RateBucket :=
  let refill := refill_amount rate b now in
  if 0 <? refill
  then {| rb_tokens := Z.min (f64_add (rb_tokens b) refill) burst; rb_last_refill := now |}
  else b.

(** Refill, then take a token if there is one. *)
Definition take_token (rate burst : Z) (b : RateBucket) (now : Z) : RateBucket * bool :=
  let b := refill_bucket rate burst b now in
  if f64_one <=? rb_tokens b
  then ({| rb_tokens := f64_sub (rb_tokens b) f64_one; rb_last_refill := rb_last_refill b |}, true)
  else (b, false).

(** A run of requests against one bucket, at the given times. *)
Fixpoint take_all (rate burst : Z) (b : RateBucket) (times : list Z) : RateBucket * Z :=
  match times with
  | [] => (b, 0)
  | t :: times' =>
    let '(b1, allowed) := take_token rate burst b t in
    let '(b2, n) := take_all rate burst b1 times' in
    (b2, n + (if allowed then 1 else 0))
  end.

Section bucket.
Context (rate burst : Z) (Hrate : 0 <= rate <= 2 ^ 33 * f64_one)
  (Hburst : f64_repr burst) (Hburst_max : burst <= 2 ^ 53 * f64_one).

Record bucket_ok (b : RateBucket) : Prop := {
  bo_repr : f64_repr (rb_tokens b);
  bo_range : 0 <= rb_tokens b <= burst;
}.

Lemma burst_nonneg : 0 <= burst.
Proof using All. destruct Hburst as (m & k & ? & ? & ->). nia. Qed.

Lemma as_secs_f64_nonneg d : 0 <= d -> 0 <= as_secs_f64 d.
Proof.
  intros Hd. pose proof f64_one_pos. assert (0 < NANOS) by done.
  pose proof (Z.div_pos d NANOS Hd ltac:(done)).
  pose proof (Z.mod_pos_bound d NANOS ltac:(done)).
  unfold as_secs_f64, f64_add, f64_div. rewrite (f64_of_int_exact NANOS) by (unfold NANOS; lia).
  apply round53_nonneg; [lia|]. apply Z.add_nonneg_nonneg; apply round53_nonneg; try nia.
  apply Z.mul_nonneg_nonneg; [|lia]. apply round53_nonneg; nia.
Qed.

Lemma refill_nonneg b now : 0 <= refill_amount rate b now.
Proof using All.
  unfold refill_amount, f64_mul. apply round53_nonneg; [apply f64_one_pos|].
  apply Z.mul_nonneg_nonneg; [|lia]. apply as_secs_f64_nonneg.
  unfold duration_since, saturating_sub. lia.
Qed.

Lemma min_repr a b : f64_repr a -> f64_repr b -> f64_repr (Z.min a b).
Proof. intros. destruct (Z.min_spec a b) as [[_ ->]|[_ ->]]; done. Qed.

Lemma refill_bucket_ok b now : bucket_ok b -> bucket_ok (refill_bucket rate burst b now).
Proof using All.
  intros Hb. unfold refill_bucket. destruct (0 <? _) eqn:E; [|done].
  pose proof burst_nonneg. pose proof (bo_range _ Hb). pose proof (refill_nonneg b now).
  split; simpl.
  - apply min_repr; [|done]. apply round53_is_repr; lia.
  - assert (0 <= f64_add (rb_tokens b) (refill_amount rate b now)); [|lia].
    apply round53_nonneg; lia.
Qed.

Lemma take_token_state b now :
  bucket_ok b ->
  bucket_ok (fst (take_token rate burst b now)) /\
  rb_tokens (fst (take_token rate burst b now)) =
    rb_tokens (refill_bucket rate burst b now)
      - (if snd (take_token rate burst b now) then f64_one else 0).
Proof using All.
  intros Hb. apply (refill_bucket_ok b now) in Hb. unfold take_token.
  set (b' := refill_bucket rate burst b now) in *. clearbody b'. destruct Hb as [Hr Hrange].
  destruct (f64_one <=? rb_tokens b') eqn:E; bools; simpl; [|split; [by split|lia]].
  rewrite f64_sub_one by (try done; lia). split; [|done].
  pose proof f64_one_pos. split; simpl; [|lia].
  rewrite <- f64_sub_one by (try done; lia). apply round53_is_repr; lia.
Qed.

(** *** How much a refill can add *)

Lemma as_secs_f64_bound d :
  0 <= d ->
  (2 ^ 53) ^ 2 * NANOS * as_secs_f64 d
    <= (2 ^ 53 + 1) ^ 2 * d * f64_one + (2 ^ 53 + 1) * 2 ^ 52 * NANOS.
Proof.
  intros Hd. assert (0 < NANOS) as HN by done. pose proof f64_one_pos as H1.
  set (s := d / NANOS). set (r := d mod NANOS).
  assert (0 <= r < NANOS) as Hr by (apply Z.mod_pos_bound; lia).
  assert (0 <= s) as Hs by (apply Z.div_pos; lia).
  assert (d = NANOS * s + r) as Hd' by (apply Z.div_mod; lia).
  unfold as_secs_f64. fold s r. set (A := f64_of_int s).
  set (B := f64_div (f64_of_int r) (f64_of_int NANOS)). set (C := f64_add A B).
  assert (2 ^ 53 * A <= (2 ^ 53 + 1) * (s * f64_one)) as HA.
  { pose proof (round53_error (s * f64_one) 1 ltac:(lia) ltac:(nia) ltac:(by left)).
    unfold A, f64_of_int. lia. }
  assert (0 <= A) as HA0 by (apply round53_nonneg; nia).
  assert (2 ^ 53 * (NANOS * B) <= (2 ^ 53 + 1) * (r * f64_one) + 2 ^ 52 * NANOS /\ 0 <= B)
    as [HB HB0].
  { unfold B, f64_div. rewrite !f64_of_int_exact by (unfold NANOS in *; lia).
    pose proof (round53_error_abs (r * f64_one * f64_one) (NANOS * f64_one) ltac:(nia) ltac:(nia)).
    split; [|apply round53_nonneg; nia]. set (X := round53 _ _) in *. clearbody X.
    apply (Z.mul_le_mono_pos_r _ _ f64_one); [done|]. lia. }
  assert (2 ^ 53 * C <= (2 ^ 53 + 1) * (A + B)) as HC.
  { pose proof (round53_error (A + B) 1 ltac:(lia) ltac:(lia) ltac:(by left)).
    unfold C, f64_add. lia. }
  clearbody A B C s r. generalize dependent f64_one. intros S H1.
  generalize dependent NANOS. intros N HN. intros. subst d.
  assert (2 ^ 53 * (N * (A + B)) <= (2 ^ 53 + 1) * ((N * s + r) * S) + 2 ^ 52 * N) as HAB by nia.
  assert ((2 ^ 53) ^ 2 * N * C <= (2 ^ 53 + 1) * (2 ^ 53 * (N * (A + B)))) as HC2 by nia.
  nia.
Qed.

Lemma refill_bound b now :
  (2 ^ 53) ^ 3 * NANOS * refill_amount rate b now
    <= (2 ^ 53 + 1) ^ 3 * duration_since now (rb_last_refill b) * rate + 2 ^ 194 * NANOS.
Proof using All.
  unfold refill_amount. set (d := duration_since now (rb_last_refill b)).
  assert (0 <= d) as Hd by (unfold d, duration_since, saturating_sub; lia).
  pose proof (as_secs_f64_bound d Hd) as HC. pose proof (as_secs_f64_nonneg d Hd) as HC0.
  set (C := as_secs_f64 d) in *. clearbody C d.
  pose proof (round53_error_abs (C * rate) f64_one f64_one_pos ltac:(nia)) as HR.
  unfold f64_mul. set (X := round53 (C * rate) f64_one) in *. clearbody X.
  pose proof f64_one_pos as H1. clear Hburst Hburst_max. generalize dependent f64_one. intros S Hr.
  assert (0 < NANOS) as HN by done. generalize dependent NANOS. intros N HC HN HR H1.
  apply (Z.mul_le_mono_pos_r _ _ S); [done|].
  assert ((2 ^ 53) ^ 3 * N * X * S
          <= (2 ^ 53 + 1) * rate * ((2 ^ 53) ^ 2 * N * C) + (2 ^ 53) ^ 2 * N * (2 ^ 52 * S)) as E1.
  { replace ((2 ^ 53) ^ 3 * N * X * S) with ((2 ^ 53) ^ 2 * N * (2 ^ 53 * (S * X))) by ring.
    replace ((2 ^ 53 + 1) * rate * ((2 ^ 53) ^ 2 * N * C) + (2 ^ 53) ^ 2 * N * (2 ^ 52 * S))
      with ((2 ^ 53) ^ 2 * N * ((2 ^ 53 + 1) * (C * rate) + 2 ^ 52 * S)) by ring.
    apply Z.mul_le_mono_nonneg_l; lia. }
  assert ((2 ^ 53 + 1) * rate * ((2 ^ 53) ^ 2 * N * C)
          <= (2 ^ 53 + 1) * rate * ((2 ^ 53 + 1) ^ 2 * d * S + (2 ^ 53 + 1) * 2 ^ 52 * N)) as E2.
  { apply Z.mul_le_mono_nonneg_l; lia. }
  assert (N * rate <= N * (2 ^ 33 * S)) as E3 by (apply Z.mul_le_mono_nonneg_l; lia).
  lia.
Qed.

(** One request: what is left and what was handed out is at most what was
    there, what the refill added and the rounding. *)
Lemma take_token_bound b now :
  bucket_ok b ->
  2 ^ 53 * (rb_tokens (fst (take_token rate burst b now))
            + (if snd (take_token rate burst b now) then f64_one else 0))
    <= 2 ^ 53 * rb_tokens b + (2 ^ 53 + 1) * refill_amount rate b now + burst.
Proof using All.
  intros Hb. destruct (take_token_state b now Hb) as [_ ->].
  pose proof (bo_range _ Hb). pose proof (refill_nonneg b now).
  assert (2 ^ 53 * rb_tokens (refill_bucket rate burst b now)
          <= 2 ^ 53 * rb_tokens b + (2 ^ 53 + 1) * refill_amount rate b now + burst); [|lia].
  unfold refill_bucket. destruct (0 <? _); simpl rb_tokens; [|lia].
  pose proof (round53_error (rb_tokens b + refill_amount rate b now) 1 ltac:(lia) ltac:(lia)
                ltac:(by left)). unfold f64_add. lia.
Qed.

(** The time of the last refill never runs ahead of the clock. *)
Lemma take_token_time b now :
  rb_last_refill b <= now ->
  rb_last_refill (fst (take_token rate burst b now)) <= now /\
  (2 ^ 53) ^ 3 * NANOS * refill_amount rate b now
    <= (2 ^ 53 + 1) ^ 3 * rate
       * (rb_last_refill (fst (take_token rate burst b now)) - rb_last_refill b) + 2 ^ 194 * NANOS.
Proof using All.
  intros Ht. pose proof (refill_bound b now) as HR.
  assert (duration_since now (rb_last_refill b) = now - rb_last_refill b) as Hd.
  { unfold duration_since, saturating_sub. lia. }
  rewrite Hd in HR.
  assert (rb_last_refill (fst (take_token rate burst b now))
          = rb_last_refill (refill_bucket rate burst b now)) as ->.
  { unfold take_token. generalize (refill_bucket rate burst b now). intros b'.
    by destruct (f64_one <=? rb_tokens b'). }
  unfold refill_bucket. destruct (0 <? _) eqn:E; simpl rb_last_refill.
  - split; lia.
  - bools. assert (0 < NANOS) by done.
    assert (refill_amount rate b now = 0) as -> by (pose proof (refill_nonneg b now); lia).
    split; lia.
Qed.

(** *** A run of requests *)

Lemma take_all_bound times : forall b,
  bucket_ok b -> Sorted Z.le (rb_last_refill b :: times) ->
  let b' := fst (take_all rate burst b times) in
  bucket_ok b' /\ rb_last_refill b' <= default (rb_last_refill b) (last times) /\
  (2 ^ 53) ^ 4 * NANOS * (rb_tokens b' + snd (take_all rate burst b times) * f64_one)
    <= (2 ^ 53) ^ 4 * NANOS * rb_tokens b
       + (2 ^ 53 + 1) ^ 4 * rate * (rb_last_refill b' - rb_last_refill b)
       + Z.of_nat (length times) * ((2 ^ 53) ^ 3 * NANOS * burst + 2 ^ 248 * NANOS).
Proof using All.
  induction times as [|t times IH]; intros b Hb Hs; simpl.
  { split; [done|]. split; lia. }
  apply Sorted_inv in Hs as [Hs Hle]. inversion Hle as [|? ? Ht]; subst.
  destruct (take_token_state b t Hb) as [Hb1 _].
  destruct (take_token_time b t Ht) as [Ht1 Hrf]. pose proof (take_token_bound b t Hb) as Hstep.
  destruct (take_token rate burst b t) as [b1 allowed]. simpl fst in *. simpl snd in *.
  assert (Sorted Z.le (rb_last_refill b1 :: times)) as Hs1.
  { apply Sorted_inv in Hs as [Hs Hle']. constructor; [done|].
    destruct Hle'; constructor. lia. }
  destruct (IH b1 Hb1 Hs1) as (Hok & Hlast & Hbound). clear IH.
  destruct (take_all rate burst b1 times) as [b2 n]. simpl fst in *. simpl snd in *.
  split; [done|]. split.
  { destruct times as [|t' times]; [simpl in *; lia|].
    change (last (t :: t' :: times)) with (last (t' :: times)).
    destruct (last (t' :: times)) eqn:EL; [exact Hlast|by apply last_None in EL]. }
  assert (0 < NANOS) as HN by done.
  assert ((2 ^ 53) ^ 3 * NANOS * (2 ^ 53 * (rb_tokens b1 + (if allowed then f64_one else 0)))
          <= (2 ^ 53) ^ 3 * NANOS * (2 ^ 53 * rb_tokens b
               + (2 ^ 53 + 1) * refill_amount rate b t + burst)) as E1.
  { apply Z.mul_le_mono_nonneg_l; lia. }
  rewrite Nat2Z.inj_succ. destruct allowed; lia.
Qed.
End bucket.

(** A bucket as the limiters create it: full, at the given instant. *)
Definition fresh_bucket (burst now : Z) : RateBucket :=
  {| rb_tokens := burst; rb_last_refill := now |}.

Lemma fresh_bucket_ok burst now : f64_repr burst -> bucket_ok burst (fresh_bucket burst now).
Proof. intros H. split; [done|]. destruct H as (m & k & ? & ? & ->). simpl. nia. Qed.

Lemma Sorted_last_le t times x : Sorted Z.le (t :: times) -> last times = Some x -> t <= x.
Proof.
  revert t; induction times as [|y times IH]; intros t Hs Hx; [done|].
  apply Sorted_inv in Hs as [Hs Hle]. inversion Hle; subst.
  destruct times as [|z times]; [simpl in Hx; simplify_eq; lia|].
  specialize (IH y Hs Hx). lia.
Qed.

(** The requests a full bucket lets through: [burst], [rate] per second over
    the time of the run, and the rounding of the run's additions, a relative
    error of [2^-53] per request.  [rate] is an [f64], [burst] an integer. *)
Definition within_rate (count rate burst elapsed n : Z) : Prop :=
  (2 ^ 53) ^ 4 * NANOS * count * f64_one
  <= (2 ^ 53) ^ 4 * NANOS * burst * f64_one + (2 ^ 53 + 1) ^ 4 * rate * elapsed
     + n * ((2 ^ 53) ^ 3 * NANOS * (burst + 1)) * f64_one.

Lemma fresh_bucket_bound rate burst t0 times :
  0 <= rate <= 2 ^ 33 * f64_one -> 0 <= burst <= U32_MAX -> Sorted Z.le (t0 :: times) ->
  within_rate (snd (take_all rate (f64_of_int burst) (fresh_bucket (f64_of_int burst) t0) times))
    rate burst (default t0 (last times) - t0) (Z.of_nat (length times)).
Proof.
  unfold U32_MAX, within_rate. intros Hr Hb Hs. rewrite !f64_of_int_exact by lia.
  pose proof f64_one_pos as H1. assert (0 < NANOS) as HN by done.
  assert (f64_repr (burst * f64_one)) as Hrep.
  { apply f64_int_repr. lia. }
  destruct (take_all_bound rate (burst * f64_one) Hr Hrep ltac:(nia) times
              (fresh_bucket (burst * f64_one) t0) (fresh_bucket_ok _ _ Hrep) Hs)
    as (Hok & Hlast & Hbound).
  set (res := take_all _ _ _ _) in *. destruct res as [b' n]. simpl fst in *. simpl snd in *.
  simpl in Hlast. destruct Hok as [_ [Hpos _]].
  simpl rb_tokens in Hbound. simpl rb_last_refill in Hbound.
  set (L := default t0 (last times)) in *. clearbody L.
  assert ((2 ^ 53 + 1) ^ 4 * rate * (rb_last_refill b' - t0) <= (2 ^ 53 + 1) ^ 4 * rate * (L - t0)) as E1.
  { apply Z.mul_le_mono_nonneg_l; lia. }
  assert (2 ^ 248 <= (2 ^ 53) ^ 3 * f64_one) as E2.
  { pose proof f64_one_large. lia. }
  assert (Z.of_nat (length times) * NANOS * 2 ^ 248
          <= Z.of_nat (length times) * NANOS * ((2 ^ 53) ^ 3 * f64_one)) as E3.
  { apply Z.mul_le_mono_nonneg_l; nia. }
  assert (0 <= (2 ^ 53) ^ 4 * NANOS * rb_tokens b') as E4 by (apply Z.mul_nonneg_nonneg; lia).
  lia.
Qed.

(** ** Limiters with a bucket per key *)

Lemma take_token_refill_time rate burst b now :
  rb_last_refill (fst (take_token rate burst b now)) = rb_last_refill b \/
  rb_last_refill (fst (take_token rate burst b now)) = now.
Proof.
  unfold take_token. assert (rb_last_refill (refill_bucket rate burst b now) = rb_last_refill b \/
    rb_last_refill (refill_bucket rate burst b now) = now) as H.
  { unfold refill_bucket. destruct (0 <? _); [by right|by left]. }
  revert H. generalize (refill_bucket rate burst b now). intros b' H.
  by destruct (f64_one <=? rb_tokens b').
Qed.

(** What both limiters promise: a call takes a token of its own key's bucket
    (full when there was none) and leaves the other buckets alone, as far as
    they were refilled within the last [ttl] nanoseconds. *)
Class KeyedLimiter (K S : Type) := {
  kl_bucket : S -> K -> option RateBucket;
  kl_call : K -> Z -> S -> S * bool;
  kl_valid : S -> Prop;
  kl_rate : Z;
  kl_burst : Z;
  kl_ttl : Z;
}.
Class KeyedLimiterLaws (K S : Type) (KL : KeyedLimiter K S) : Prop := {
  kl_valid_call : forall k now s, kl_valid s -> kl_valid (fst (kl_call k now s));
  kl_other : forall k k' now s, kl_valid s -> k' <> k ->
    (forall b, kl_bucket s k = Some b -> now - rb_last_refill b <= kl_ttl) ->
    kl_bucket (fst (kl_call k' now s)) k = kl_bucket s k;
  kl_own : forall k now s, kl_valid s ->
    (forall b, kl_bucket s k = Some b -> now - rb_last_refill b <= kl_ttl) ->
    let t := take_token kl_rate (f64_of_int kl_burst)
               (default (fresh_bucket (f64_of_int kl_burst) now) (kl_bucket s k)) now in
    kl_bucket (fst (kl_call k now s)) k = Some (fst t) /\ snd (kl_call k now s) = snd t;
}.

Section keyed.
Context {K S : Type} `{EqDecision K} {KL : KeyedLimiter K S} {Laws : KeyedLimiterLaws K S KL}.

(** A sequence of calls, each with its key and instant: the number of calls
    with key [k] that got a token, and the instants of those calls. *)
Fixpoint count_for (k : K) (calls : list (K * Z)) (s : S) : Z :=
  match calls with
  | [] => 0
  | (k', now) :: calls' =>
    let '(s', taken) := kl_call k' now s in
    count_for k calls' s' + (if bool_decide (k' = k) && taken then 1 else 0)
  end.
Definition times_of (k : K) (calls : list (K * Z)) : list Z :=
  snd <$> filter (fun c => fst c = k) calls.

Lemma times_of_cons k k' now calls :
  times_of k ((k', now) :: calls) =
    (if decide (k' = k) then now :: times_of k calls else times_of k calls).
Proof.
  unfold times_of. destruct (decide (k' = k)) as [->|Hne].
  - by rewrite filter_cons_True.
  - by rewrite filter_cons_False.
Qed.

(** While its bucket is kept, a key sees a token bucket of its own. *)
Lemma count_for_take_all k calls : forall s b t0,
  kl_valid s -> kl_bucket s k = Some b -> t0 <= rb_last_refill b ->
  Forall (fun c => t0 <= snd c <= t0 + kl_ttl) calls ->
  count_for k calls s = snd (take_all kl_rate (f64_of_int kl_burst) b (times_of k calls)).
Proof using Laws.
  induction calls as [|[k' now] calls IH]; intros s b t0 Hv Hb Ht Hall; [done|].
  apply Forall_cons in Hall as [Hnow Hall]. cbn [snd] in Hnow.
  pose proof (kl_valid_call k' now s Hv) as Hv'.
  assert (forall b', kl_bucket s k = Some b' -> now - rb_last_refill b' <= kl_ttl) as Hfresh.
  { intros b' Hb'. simplify_eq. lia. }
  rewrite times_of_cons. cbn [count_for]. destruct (decide (k' = k)) as [->|Hne].
  - destruct (kl_own k now s Hv Hfresh) as [Hb' Hd]. rewrite Hb in Hb', Hd. cbn [default from_option id] in Hb', Hd.
    destruct (kl_call k now s) as [s' taken]. cbn [fst snd take_all] in *.
    pose proof (take_token_refill_time kl_rate (f64_of_int kl_burst) b now) as Hrt.
    destruct (take_token _ _ b now) as [b1 a1]. cbn [fst snd] in *.
    rewrite (IH s' b1 t0 Hv' Hb') by (done || lia).
    destruct (take_all _ _ b1 _) as [b2 n]. cbn [snd]. by rewrite bool_decide_eq_true_2, Hd.
  - pose proof (kl_other k k' now s Hv Hne Hfresh) as Ho.
    destruct (kl_call k' now s) as [s' taken]. cbn [fst] in *.
    rewrite (IH s' b t0) by (rewrite ?Ho; done). rewrite bool_decide_eq_false_2 by done. simpl. lia.
Qed.

Lemma count_for_fresh k calls : forall s t0,
  kl_valid s -> kl_bucket s k = None ->
  Forall (fun c => t0 <= snd c <= t0 + kl_ttl) calls ->
  match times_of k calls with
  | [] => count_for k calls s = 0
  | t1 :: _ =>
    count_for k calls s = snd (take_all kl_rate (f64_of_int kl_burst)
                                 (fresh_bucket (f64_of_int kl_burst) t1) (times_of k calls))
  end.
Proof using Laws.
  induction calls as [|[k' now] calls IH]; intros s t0 Hv Hb Hall; [done|].
  apply Forall_cons in Hall as [Hnow Hall]. cbn [snd] in Hnow.
  pose proof (kl_valid_call k' now s Hv) as Hv'.
  assert (forall b', kl_bucket s k = Some b' -> now - rb_last_refill b' <= kl_ttl) as Hfresh.
  { intros b' Hb'. simplify_eq. }
  rewrite times_of_cons. cbn [count_for]. destruct (decide (k' = k)) as [->|Hne].
  - destruct (kl_own k now s Hv Hfresh) as [Hb' Hd]. rewrite Hb in Hb', Hd. cbn [default from_option id] in Hb', Hd.
    destruct (kl_call k now s) as [s' taken]. cbn [fst snd take_all] in *.
    pose proof (take_token_refill_time kl_rate (f64_of_int kl_burst)
      (fresh_bucket (f64_of_int kl_burst) now) now) as Hrt.
    destruct (take_token _ _ (fresh_bucket _ now) now) as [b1 a1]. cbn [fst snd fresh_bucket rb_last_refill] in *.
    rewrite (count_for_take_all k calls s' b1 t0 Hv' Hb') by (done || lia).
    destruct (take_all _ _ b1 _) as [b2 n]. cbn [snd]. by rewrite bool_decide_eq_true_2, Hd.
  - pose proof (kl_other k k' now s Hv Hne Hfresh) as Ho. rewrite Hb in Ho.
    destruct (kl_call k' now s) as [s' taken]. cbn [fst] in *.
    specialize (IH s' t0 Hv' Ho Hall). rewrite bool_decide_eq_false_2 by done. cbn [andb].
    destruct (times_of k calls); rewrite IH; lia.
Qed.

(** The limit a client of the interface can rely on. *)
Lemma keyed_limit k calls s t0 :
  0 <= kl_rate <= 2 ^ 33 * f64_one -> 0 <= kl_burst <= U32_MAX ->
  kl_valid s -> kl_bucket s k = None ->
  Forall (fun c => t0 <= snd c <= t0 + kl_ttl) calls -> Sorted Z.le (times_of k calls) ->
  within_rate (count_for k calls s) kl_rate kl_burst
    (default 0 (last (times_of k calls)) - default 0 (head (times_of k calls)))
    (Z.of_nat (length (times_of k calls))).
Proof using Laws.
  intros Hr Hb Hv Hnone Hall Hs. pose proof (count_for_fresh k calls s t0 Hv Hnone Hall) as Hf.
  destruct (times_of k calls) as [|t1 ts] eqn:E.
  { rewrite Hf. unfold within_rate, NANOS. simpl. pose proof f64_one_pos. nia. }
  rewrite Hf. pose proof (fresh_bucket_bound kl_rate kl_burst t1 (t1 :: ts) Hr Hb) as Hbound.
  cbn [head default from_option id]. destruct (last (t1 :: ts)) as [tl|] eqn:El; [|by apply last_None in El].
  cbn [default from_option id] in *. apply Hbound. constructor; [done|]. constructor. lia.
Qed.
End keyed.

(** Eviction by age keeps the buckets refilled within the last [ttl]. *)
Section retain.
Context {K : Type} `{Countable K}.

Definition retain_younger (ttl now : Z) (m : gmap K RateBucket) : gmap K RateBucket :=
  filter (fun kv => duration_since now (rb_last_refill (snd kv)) <= ttl) m.

Lemma retain_younger_keeps ttl now m k :
  0 <= ttl -> (forall b, m !! k = Some b -> now - rb_last_refill b <= ttl) ->
  retain_younger ttl now m !! k = m !! k.
Proof.
  intros Ht Hb. destruct (m !! k) as [b|] eqn:E; [|apply map_lookup_filter_None; by left].
  apply map_lookup_filter_Some. split; [done|]. simpl. specialize (Hb b eq_refl).
  unfold duration_since, saturating_sub. lia.
Qed.
End retain.
