(* ===== verification/RustNet.v ===== *)
(** IP addresses ([std::net::IpAddr], with its parser, its printer and its
    classification methods), and the interfaces of the two crates the proxy
    relies on for addresses: [ipnet] (class [IpNetLib]) and [url] (class
    [UrlLib]).  Those crates are not part of the repository, so their
    operations are parameters; what is documented of them is in the classes
    of laws, each with an instance that shows the laws can hold. *)
From stdpp Require Import options.
From S2P Require Import Prelude RustStr.

Local Open Scope Z_scope.

(** ** [IpAddr] *)

(** An IPv4 address is its 32-bit value, an IPv6 address its 128-bit value. *)
Inductive IpAddr : Type :=
| V4 (bits : Z)
| V6 (bits : Z).

#[export] Instance IpAddr_eq_dec : EqDecision IpAddr.
Proof. solve_decision. Defined.
#[export] Instance IpAddr_countable : Countable IpAddr.
Proof.
  refine (inj_countable' (fun ip => match ip with V4 b => inl b | V6 b => inr b end)
            (fun s => match s with inl b => V4 b | inr b => V6 b end) _).
  by intros [].
Defined.

(** The octets of an IPv4 address and the segments of an IPv6 address. *)
Definition octet (i : Z) (ip : Z) : Z := Z.land (Z.shiftr ip (24 - 8 * i)) 255.
Definition segment (i : Z) (ip : Z) : Z := Z.land (Z.shiftr ip (112 - 16 * i)) 65535.
Definition v4 (a b c d : Z) : Z := ((a * 256 + b) * 256 + c) * 256 + d.
Definition v6 (segs : list Z) : Z := foldl (fun acc s => acc * 65536 + s) 0 segs.

(** [Ipv4Addr::is_private] and its siblings of the standard library. *)
Definition v4_is_private (ip : Z) : bool :=
  (octet 0 ip =? 10)
  || ((octet 0 ip =? 172) && (16 <=? octet 1 ip) && (octet 1 ip <=? 31))
  || ((octet 0 ip =? 192) && (octet 1 ip =? 168)).
Definition v4_is_loopback (ip : Z) : bool := octet 0 ip =? 127.
Definition v4_is_link_local (ip : Z) : bool := (octet 0 ip =? 169) && (octet 1 ip =? 254).
Definition v4_is_multicast (ip : Z) : bool := (224 <=? octet 0 ip) && (octet 0 ip <=? 239).
Definition v4_is_broadcast (ip : Z) : bool := ip =? v4 255 255 255 255.
Definition v4_is_unspecified (ip : Z) : bool := ip =? 0.
Definition v4_is_documentation (ip : Z) : bool :=
  ((octet 0 ip =? 192) && (octet 1 ip =? 0) && (octet 2 ip =? 2))
  || ((octet 0 ip =? 198) && (octet 1 ip =? 51) && (octet 2 ip =? 100))
  || ((octet 0 ip =? 203) && (octet 1 ip =? 0) && (octet 2 ip =? 113)).

Definition v6_is_loopback (ip : Z) : bool := ip =? 1.
Definition v6_is_unspecified (ip : Z) : bool := ip =? 0.
Definition v6_is_multicast (ip : Z) : bool := Z.land (segment 0 ip) 65280 =? 65280.

(** ** Parsing: the recursive-descent parser of [core::net::parser] *)

Definition parser (A : Type) : Type := rstr -> option (A * rstr).

Fixpoint read_digits (radix max : Z) (max_digits : nat) (count : nat) (acc : Z) (s : rstr)
  : option (Z * nat * rstr) :=
  match s with
  | [] => Some (acc, count, [])
  | b :: s' =>
    match digit_value b with
    | Some d =>
      if d <? radix then
        if (acc * radix + d <=? max) && (S count <=? max_digits)%nat
        then read_digits radix max max_digits (S count) (acc * radix + d) s'
        else None
      else Some (acc, count, s)
    | None => Some (acc, count, s)
    end
  end.

Definition read_number (radix max : Z) (max_digits : nat) (allow_zero_prefix : bool)
  : parser Z := fun s =>
  let has_leading_zero := match s with b :: _ => beq b "0"%char | [] => false end in
  match read_digits radix max max_digits 0 0 s with
  | Some (v, count, rest) =>
    if (count =? 0)%nat then None
    else if negb allow_zero_prefix && has_leading_zero && (1 <? count)%nat then None
    else Some (v, rest)
  | None => None
  end.

Definition read_given_char (c : ascii) : parser unit := fun s =>
  match s with b :: s' => if beq b c then Some (tt, s') else None | [] => None end.

Definition read_separator {A} (sep : ascii) (index : nat) (p : parser A) : parser A := fun s =>
  match index with
  | O => p s
  | S _ => match read_given_char sep s with Some (_, s') => p s' | None => None end
  end.

Fixpoint read_octets (n index : nat) (acc : Z) (s : rstr) : option (Z * rstr) :=
  match n with
  | O => Some (acc, s)
  | S n' => match read_separator "."%char index (read_number 10 255 3 false) s with
            | Some (o, s') => read_octets n' (S index) (acc * 256 + o) s'
            | None => None
            end
  end.
Definition read_ipv4_addr : parser Z := read_octets 4 0 0.

(** [read_groups]: up to [limit] groups of hexadecimal digits, the last two of
    which may be written as an IPv4 address.  Gives the groups read, whether
    an IPv4 address ended them, and the rest of the input. *)
Fixpoint read_groups (n index limit : nat) (acc : list Z) (s : rstr) : list Z * bool * rstr :=
  match n with
  | O => (acc, false, s)
  | S n' =>
    let v4_part := if (index <? limit - 1)%nat
                   then read_separator ":"%char index read_ipv4_addr s else None in
    match v4_part with
    | Some (ip, s') => (acc ++ [Z.shiftr ip 16; Z.land ip 65535], true, s')
    | None =>
      match read_separator ":"%char index (read_number 16 65535 4 true) s with
      | Some (g, s') => read_groups n' (S index) limit (acc ++ [g]) s'
      | None => (acc, false, s)
      end
    end
  end.

Definition read_ipv6_addr : parser Z := fun s =>
  match read_groups 8 0 8 [] s with
  | (head, head_ipv4, s1) =>
    if (length head =? 8)%nat then Some (v6 head, s1)
    else if head_ipv4 then None
    else
      match read_given_char ":"%char s1 with
      | Some (_, s2) =>
        match read_given_char ":"%char s2 with
        | Some (_, s3) =>
          let limit := (8 - (length head + 1))%nat in
          match read_groups limit 0 limit [] s3 with
          | (tail, _, s4) =>
            Some (v6 (head ++ repeat 0 (8 - length head - length tail) ++ tail), s4)
          end
        | None => None
        end
      | None => None
      end
  end.

(** [value.parse::<IpAddr>()]: the whole input must be consumed. *)
Definition parse_ip (s : rstr) : option IpAddr :=
  match match read_ipv4_addr s with
        | Some (ip, r) => Some (V4 ip, r)
        | None => match read_ipv6_addr s with Some (ip, r) => Some (V6 ip, r) | None => None end
        end with
  | Some (ip, []) => Some ip
  | _ => None
  end.

(** ** Blocks of addresses

    The classification methods in numbers: an address is in a block when it shares
    the first [prefix] bits with its base. *)

Definition ip_wf (ip : IpAddr) : Prop := match ip with V4 bits => 0 <= bits < 2 ^ 32 | V6 bits => 0 <= bits < 2 ^ 128 end.
Definition v4_block (base prefix bits : Z) : Prop := base <= bits < base + 2 ^ (32 - prefix).
Definition v6_block (base prefix bits : Z) : Prop := base <= bits < base + 2 ^ (128 - prefix).

Lemma octet_div i ip : 0 <= i <= 3 -> octet i ip = (ip / 2 ^ (24 - 8 * i)) mod 256.
Proof. intros Hi. unfold octet. rewrite Z.shiftr_div_pow2 by lia. apply (Z.land_ones _ 8). lia. Qed.
Lemma v4_octets ip : 0 <= ip < 2 ^ 32 ->
  ip = v4 (octet 0 ip) (octet 1 ip) (octet 2 ip) (octet 3 ip) /\
  0 <= octet 0 ip < 256 /\ 0 <= octet 1 ip < 256 /\ 0 <= octet 2 ip < 256 /\ 0 <= octet 3 ip < 256.
Proof.
  intros Hip. rewrite !octet_div by lia. unfold v4.
  change (2 ^ (24 - 8 * 0)) with 16777216. change (2 ^ (24 - 8 * 1)) with 65536.
  change (2 ^ (24 - 8 * 2)) with 256. change (2 ^ (24 - 8 * 3)) with 1. Z.to_euclidean_division_equations. lia.
Qed.
(** The classes of the standard library as blocks. *)
Section v4_classes.
Context (ip : Z) (Hip : 0 <= ip < 2 ^ 32).
Local Ltac by_octets := destruct (v4_octets ip Hip) as (E & H0 & H1 & H2 & H3); unfold v4_block, v4 in *; cbn; lia.
Lemma v4_private_blocks :
  v4_is_private ip = true <-> v4_block (v4 10 0 0 0) 8 ip \/ v4_block (v4 172 16 0 0) 12 ip \/ v4_block (v4 192 168 0 0) 16 ip.
Proof using Hip. unfold v4_is_private. by_octets. Qed.
Lemma v4_loopback_block : v4_is_loopback ip = true <-> v4_block (v4 127 0 0 0) 8 ip.
Proof using Hip. unfold v4_is_loopback. by_octets. Qed.
Lemma v4_link_local_block : v4_is_link_local ip = true <-> v4_block (v4 169 254 0 0) 16 ip.
Proof using Hip. unfold v4_is_link_local. by_octets. Qed.
Lemma v4_multicast_block : v4_is_multicast ip = true <-> v4_block (v4 224 0 0 0) 4 ip.
Proof using Hip. unfold v4_is_multicast. by_octets. Qed.
Lemma v4_broadcast_block : v4_is_broadcast ip = true <-> v4_block (v4 255 255 255 255) 32 ip.
Proof using Hip. unfold v4_is_broadcast, v4_block, v4. cbn. lia. Qed.
Lemma v4_unspecified_block : v4_is_unspecified ip = true <-> v4_block 0 32 ip.
Proof using Hip. unfold v4_is_unspecified, v4_block. cbn. lia. Qed.
Lemma v4_documentation_blocks :
  v4_is_documentation ip = true <-> v4_block (v4 192 0 2 0) 24 ip \/ v4_block (v4 198 51 100 0) 24 ip \/ v4_block (v4 203 0 113 0) 24 ip.
Proof using Hip. unfold v4_is_documentation. by_octets. Qed.
End v4_classes.

(** The mask of the first bits of a segment, and of the address. *)
Lemma segment_div ip : 0 <= ip < 2 ^ 128 -> segment 0 ip = ip / 2 ^ 112 /\ 0 <= segment 0 ip < 65536.
Proof.
  intros Hip. unfold segment. rewrite Z.shiftr_div_pow2 by lia. change (112 - 16 * 0) with 112.
  assert (0 <= ip / 2 ^ 112 < 65536) as H by (split; [apply Z.div_pos; lia|apply Z.div_lt_upper_bound; lia]).
  assert (Z.land (ip / 2 ^ 112) 65535 = ip / 2 ^ 112) as ->; [|done].
  rewrite (Z.land_ones _ 16) by lia. by apply Z.mod_small.
Qed.
(** A mask of the first bits keeps the quotient. *)
Lemma land_high x m k : 0 <= m -> 0 <= k -> 0 <= x < 2 ^ (m + k) -> Z.land x (Z.shiftl (Z.ones k) m) = x / 2 ^ m * 2 ^ m.
Proof.
  intros Hm Hk Hx. rewrite <- Z.shiftl_mul_pow2 by lia. assert (x / 2 ^ m = Z.land (x / 2 ^ m) (Z.ones k)) as ->.
  { rewrite Z.land_ones by lia. symmetry. apply Z.mod_small. split; [apply Z.div_pos; lia|]. apply Z.div_lt_upper_bound; [lia|]. rewrite <- Z.pow_add_r by lia. lia. }
  rewrite <- Z.shiftr_div_pow2 by lia. apply Z.bits_inj'. intros n Hn. rewrite Z.land_spec. destruct (Z.ltb_spec n m).
  - rewrite !Z.shiftl_spec_low by lia. apply andb_false_r.
  - rewrite !Z.shiftl_spec by lia. rewrite Z.land_spec, Z.shiftr_spec by lia. by replace (n - m + m) with n by lia.
Qed.
Lemma mask_block m b ip : 0 <= m <= 16 -> 0 <= ip < 2 ^ 128 ->
  Z.land (segment 0 ip) (Z.shiftl (Z.ones (16 - m)) m) = b * 2 ^ m <-> v6_block (b * 2 ^ (m + 112)) (16 - m) ip.
Proof.
  intros Hm Hip. destruct (segment_div ip Hip) as [Hs Hr]. rewrite land_high by (try lia; by replace (m + (16 - m)) with 16 by lia).
  rewrite Hs, Z.div_div by lia. rewrite (Z.mul_comm (2 ^ 112)), <- Z.pow_add_r by lia. unfold v6_block. replace (128 - (16 - m)) with (m + 112) by lia.
  set (k := 2 ^ (m + 112)). assert (0 < k) by (unfold k; lia). assert (0 < 2 ^ m) by lia. rewrite Z.mul_cancel_r by lia.
  pose proof (Z.div_mod ip k ltac:(lia)). pose proof (Z.mod_pos_bound ip k ltac:(lia)). set (q := ip / k) in *. clearbody k q. nia.
Qed.
Lemma v6_multicast_block ip : 0 <= ip < 2 ^ 128 -> v6_is_multicast ip = true <-> v6_block (0xff00 * 2 ^ 112) 8 ip.
Proof. intros Hip. unfold v6_is_multicast. rewrite Z.eqb_eq. by apply (mask_block 8 0xff). Qed.
Lemma v6_unique_local_block ip : 0 <= ip < 2 ^ 128 -> Z.land (segment 0 ip) 0xfe00 = 0xfc00 <-> v6_block (0xfc00 * 2 ^ 112) 7 ip.
Proof. intros Hip. by apply (mask_block 9 0x7e). Qed.
Lemma v6_link_local_block ip : 0 <= ip < 2 ^ 128 -> Z.land (segment 0 ip) 0xffc0 = 0xfe80 <-> v6_block (0xfe80 * 2 ^ 112) 10 ip.
Proof. intros Hip. by apply (mask_block 6 0x3fa). Qed.

(** *** A parsed address is within its width *)

Lemma read_digits_range radix max m s : forall count acc v count' rest, 0 <= radix -> 0 <= acc <= max ->
  read_digits radix max m count acc s = Some (v, count', rest) -> 0 <= v <= max.
Proof.
  induction s as [|b s IH]; intros count acc v count' rest Hr Ha; cbn [read_digits]; [by intros [= <- _ _]|].
  destruct (digit_value b) as [d|] eqn:Ed; [|by intros [= <- _ _]]. destruct (d <? radix); [|by intros [= <- _ _]].
  destruct (_ && _) eqn:E; [|done]. bools. apply IH; [done|]. split; [|lia].
  assert (0 <= d) by (revert Ed; unfold digit_value, in_range; repeat case_match; bools; intros [= <-]; lia). nia.
Qed.
Lemma read_number_range radix max m z s v rest : 0 <= radix -> 0 <= max -> read_number radix max m z s = Some (v, rest) -> 0 <= v <= max.
Proof.
  intros Hr Hm. unfold read_number. destruct (read_digits _ _ _ _ _ _) as [[[w count] r]|] eqn:E; [|done].
  repeat case_match; try done; intros [= <- _]; by eapply read_digits_range; [exact Hr| |exact E].
Qed.
Lemma read_separator_some {A} sep i (p : parser A) s a rest : read_separator sep i p s = Some (a, rest) -> exists s', p s' = Some (a, rest).
Proof. unfold read_separator. destruct i; [by eexists|]. destruct (read_given_char sep s) as [[? s']|]; [by eexists|done]. Qed.
Lemma read_octets_range n : forall i acc s v rest, 0 <= acc -> read_octets n i acc s = Some (v, rest) ->
  acc * 256 ^ Z.of_nat n <= v < (acc + 1) * 256 ^ Z.of_nat n.
Proof.
  induction n as [|n IH]; intros i acc s v rest Ha; cbn [read_octets]; [intros [= <- _]; lia|].
  destruct (read_separator _ _ _ _) as [[o s']|] eqn:E; [|done]. apply read_separator_some in E as [s0 E]. apply read_number_range in E; [|lia..].
  intros H. apply IH in H; [|nia]. rewrite Nat2Z.inj_succ, Z.pow_succ_r by lia. assert (0 < 256 ^ Z.of_nat n) by lia. nia.
Qed.
Lemma read_ipv4_range s ip rest : read_ipv4_addr s = Some (ip, rest) -> 0 <= ip < 2 ^ 32.
Proof. intros H. apply read_octets_range in H; [|lia]. exact H. Qed.
Definition segments_ok (l : list Z) : Prop := Forall (fun x => 0 <= x < 65536) l.
Lemma read_groups_range n : forall i limit acc s l v4 rest, segments_ok acc -> (i + n = limit)%nat -> length acc = i ->
  read_groups n i limit acc s = (l, v4, rest) -> segments_ok l /\ (length l <= limit)%nat.
Proof.
  induction n as [|n IH]; intros i limit acc s l b rest Ha Hi Hl; cbn [read_groups]; [intros [= <- _ _]; split; [done|lia]|].
  destruct (if (i <? limit - 1)%nat then _ else None) as [[ip s']|] eqn:E4.
  - destruct (Nat.ltb_spec i (limit - 1)); [|done]. apply read_separator_some in E4 as [s0 E4%read_ipv4_range]. intros [= <- _ _].
    rewrite length_app. cbn [length]. split; [|lia]. apply Forall_app. split; [done|]. repeat constructor.
    + rewrite Z.shiftr_div_pow2 by lia. apply Z.div_pos; lia.
    + rewrite Z.shiftr_div_pow2 by lia. apply Z.div_lt_upper_bound; lia.
    + rewrite (Z.land_ones _ 16) by lia. apply Z.mod_pos_bound. lia.
    + rewrite (Z.land_ones _ 16) by lia. apply Z.mod_pos_bound. lia.
  - clear E4. destruct (read_separator _ _ _ _) as [[x s']|] eqn:Ex; [|intros [= <- _ _]; split; [done|lia]].
    apply read_separator_some in Ex as [s0 Ex]. apply read_number_range in Ex; [|lia..].
    apply IH; [apply Forall_app; split; [done|]; by repeat constructor; lia|lia|rewrite length_app; cbn; lia].
Qed.
Lemma v6_range l : segments_ok l -> 0 <= v6 l < 65536 ^ Z.of_nat (length l).
Proof.
  intros H. unfold v6. assert (forall acc, 0 <= acc -> acc * 65536 ^ Z.of_nat (length l) <= foldl (fun acc s => acc * 65536 + s) acc l < (acc + 1) * 65536 ^ Z.of_nat (length l)) as Hg.
  { induction l as [|x l IH]; intros acc Ha; cbn [foldl length]; [lia|]. apply Forall_cons in H as [Hx H]. specialize (IH H). specialize (IH (acc * 65536 + x) ltac:(nia)).
    rewrite Nat2Z.inj_succ, Z.pow_succ_r by lia. assert (0 < 65536 ^ Z.of_nat (length l)) by lia. nia. }
  specialize (Hg 0). lia.
Qed.
Lemma v6_eight l : segments_ok l -> length l = 8%nat -> 0 <= v6 l < 2 ^ 128.
Proof. intros H E. pose proof (v6_range l H) as Hr. rewrite E in Hr. exact Hr. Qed.
Lemma read_ipv6_range s ip rest : read_ipv6_addr s = Some (ip, rest) -> 0 <= ip < 2 ^ 128.
Proof.
  unfold read_ipv6_addr. destruct (read_groups 8 0 8 [] s) as [[hd hd4] s1] eqn:Eh.
  apply read_groups_range in Eh as [Hh Hl]; [|apply Forall_nil_2|done|done].
  destruct (Nat.eqb_spec (length hd) 8); [intros [= <- _]; by apply v6_eight|]. destruct hd4; [done|].
  destruct (read_given_char _ s1) as [[? s2]|]; [|done]. destruct (read_given_char _ s2) as [[? s3]|]; [|done].
  destruct (read_groups _ 0 _ [] s3) as [[tl tl4] s4] eqn:Et. apply read_groups_range in Et as [Ht Htl]; [|apply Forall_nil_2|done|done].
  intros [= <- _]. apply v6_eight.
  - apply Forall_app. split; [done|]. apply Forall_app. split; [|done]. apply Forall_forall. intros x Hx%list_elem_of_In%repeat_spec. lia.
  - rewrite !length_app, repeat_length. lia.
Qed.
Lemma parse_ip_wf s ip : parse_ip s = Some ip -> ip_wf ip.
Proof.
  unfold parse_ip. destruct (read_ipv4_addr s) as [[b r]|] eqn:E4.
  - destruct r; [|done]. intros [= <-]. by eapply read_ipv4_range.
  - destruct (read_ipv6_addr s) as [[b r]|] eqn:E6; [|done]. destruct r; [|done]. intros [= <-]. by eapply read_ipv6_range.
Qed.

(** ** Printing: [Display for IpAddr] *)

Definition ipv4_to_string (ip : Z) : rstr :=
  join (lit ".") (map (fun i => to_dec (octet i ip)) [0; 1; 2; 3]).

(** The first of the longest runs of zero segments: its start and length. *)
Fixpoint zero_runs (i : nat) (cur best : nat * nat) (segs : list Z) : nat * nat :=
  match segs with
  | [] => best
  | s :: segs' =>
    if s =? 0 then
      let cur' := ((if (snd cur =? 0)%nat then i else fst cur), S (snd cur)) in
      zero_runs (S i) cur' (if (snd best <? snd cur')%nat then cur' else best) segs'
    else zero_runs (S i) (0%nat, 0%nat) best segs'
  end.
Definition segs_to_string (segs : list Z) : rstr := join (lit ":") (map to_hex segs).
Definition ipv6_to_string (ip : Z) : rstr :=
  let segs := map (fun i => segment (Z.of_nat i) ip) (seq 0 8) in
  if Z.shiftr ip 32 =? 65535 then lit "::ffff:" ++ ipv4_to_string (Z.land ip 4294967295)
  else
    let '(start, len) := zero_runs 0 (0%nat, 0%nat) (0%nat, 0%nat) segs in
    if (1 <? len)%nat
    then segs_to_string (take start segs) ++ lit "::" ++ segs_to_string (drop (start + len) segs)
    else segs_to_string segs.
Definition ip_to_string (ip : IpAddr) : rstr :=
  match ip with V4 b => ipv4_to_string b | V6 b => ipv6_to_string b end.

Example parse_ip_ex :
  map parse_ip (lits ["203.0.113.10"; "::1"; "fe80::1:2"; "1.2.3"; "01.2.3.4"; "::ffff:1.2.3.4"])
  = [Some (V4 (v4 203 0 113 10)); Some (V6 1); Some (V6 (v6 [65152; 0; 0; 0; 0; 0; 1; 2]));
     None; None; Some (V6 (v6 [0; 0; 0; 0; 0; 65535; 258; 772]))].
Proof. vm_compute. reflexivity. Qed.

Example ip_to_string_ex :
  map ip_to_string [V4 (v4 10 0 0 255); V6 1; V6 (v6 [8193; 3512; 0; 0; 1; 0; 0; 1])]
  = lits ["10.0.0.255"; "::1"; "2001:db8::1:0:0:1"].
Proof. vm_compute. reflexivity. Qed.

(** ** The [ipnet] crate *)

Class IpNetLib := {
  IpNet : Type;
  IpNet_eq_dec :: EqDecision IpNet;
  (** [IpNet::contains(&ip)] *)
  net_contains : IpNet -> IpAddr -> bool;
  (** [IpNet::prefix_len()] *)
  net_prefix_len : IpNet -> Z;
  (** [IpNet::from_str], with the text of its error *)
  net_from_str : rstr -> result rstr IpNet;
  (** [Ipv4Net::new], [Ipv6Net::new] *)
  ipv4net_new : Z -> Z -> result rstr IpNet;
  ipv6net_new : Z -> Z -> result rstr IpNet;
}.

(** What the documentation of [ipnet] says of these functions: a network of
    prefix length [len] holds the addresses of its family that agree with it
    on the first [len] bits. *)
Class IpNetLaws (NL : IpNetLib) : Prop := {
  ipv4net_new_ok : forall ip len, 0 <= len <= 32 ->
    exists n, ipv4net_new ip len = Ok n /\ net_prefix_len n = len /\
      (forall x, net_contains n (V4 x) =
                 (Z.shiftr x (32 - len) =? Z.shiftr ip (32 - len))) /\
      (forall x, net_contains n (V6 x) = false);
  ipv6net_new_ok : forall ip len, 0 <= len <= 128 ->
    exists n, ipv6net_new ip len = Ok n /\ net_prefix_len n = len /\
      (forall x, net_contains n (V6 x) =
                 (Z.shiftr x (128 - len) =? Z.shiftr ip (128 - len))) /\
      (forall x, net_contains n (V4 x) = false);
}.

(** An instance: a network is an address and a prefix length, written
    [address/length]. *)
Definition cidr : Type := IpAddr * Z.
Definition cidr_contains (n : cidr) (ip : IpAddr) : bool :=
  match fst n, ip with
  | V4 b, V4 x => Z.shiftr x (32 - snd n) =? Z.shiftr b (32 - snd n)
  | V6 b, V6 x => Z.shiftr x (128 - snd n) =? Z.shiftr b (128 - snd n)
  | _, _ => false
  end.
Definition cidr_new (width : Z) (mk : Z -> IpAddr) (ip len : Z) : result rstr cidr :=
  if (0 <=? len) && (len <=? width) then Ok (mk ip, len) else Err (lit "invalid prefix length").
Definition cidr_from_str (s : rstr) : result rstr cidr :=
  match split_once "/"%char s with
  | Some (a, l) =>
    match parse_ip a, parse_uint 255 l with
    | Some (V4 ip), Some len => cidr_new 32 V4 ip len
    | Some (V6 ip), Some len => cidr_new 128 V6 ip len
    | _, _ => Err (lit "invalid IP address syntax")
    end
  | None => Err (lit "invalid IP address syntax")
  end.

Definition CidrLib : IpNetLib := {|
  IpNet := cidr;
  net_contains := cidr_contains;
  net_prefix_len := snd;
  net_from_str := cidr_from_str;
  ipv4net_new := cidr_new 32 V4;
  ipv6net_new := cidr_new 128 V6;
|}.

Lemma CidrLaws : IpNetLaws CidrLib.
Proof.
  split; intros ip len Hlen; simpl; unfold cidr_new.
  all: rewrite (proj2 (Z.leb_le 0 len)), (proj2 (Z.leb_le len _)) by lia; simpl.
  all: eexists; split; [reflexivity|]; done.
Qed.

(** ** The [url] crate *)

Class UrlLib := {
  Url : Type;
  (** [Url::parse], with the text of its error *)
  url_parse : rstr -> result rstr Url;
  url_scheme : Url -> rstr;
  url_username : Url -> rstr;
  url_password : Url -> option rstr;
  url_fragment : Url -> option rstr;
  url_host_str : Url -> option rstr;
  url_port : Url -> option Z;
  url_port_or_known_default : Url -> option Z;
}.

(** An instance for the URLs the examples use: [scheme://host[:port][/path]]
    without credentials or fragment. *)
Record simple_url := SimpleUrl { su_scheme : rstr; su_host : rstr; su_port : option Z }.
Definition simple_url_parse (s : rstr) : result rstr simple_url :=
  match split_once ":"%char s with
  | Some (scheme, rest) =>
    match strip_prefix (lit "//") rest with
    | Some auth =>
      let hp := hd [] (split "/"%char auth) in
      match split_once ":"%char hp with
      | Some (h, p) =>
        match parse_uint 65535 p with
        | Some port => if is_empty h then Err (lit "empty host")
                       else Ok (SimpleUrl scheme h (Some port))
        | None => Err (lit "invalid port number")
        end
      | None => if is_empty hp then Err (lit "empty host") else Ok (SimpleUrl scheme hp None)
      end
    | None => Err (lit "relative URL without a base")
    end
  | None => Err (lit "relative URL without a base")
  end.
Definition SimpleUrlLib : UrlLib := {|
  Url := simple_url;
  url_parse := simple_url_parse;
  url_scheme := su_scheme;
  url_username := fun _ => [];
  url_password := fun _ => None;
  url_fragment := fun _ => None;
  url_host_str := fun u => Some (su_host u);
  url_port := su_port;
  url_port_or_known_default := fun u =>
    match su_port u with
    | Some p => Some p
    | None => if su_scheme u =s? lit "http" then Some 80
              else if su_scheme u =s? lit "https" then Some 443 else None
    end;
|}.
