(* ===== verification/CommonTypes.v ===== *)
(** The data model of the [common] crate (edge/crates/common/src/lib.rs):
    routes, upstreams, domain rules and every configuration record they
    carry, with the defaults of the source.  Serde attributes (field
    renaming, aliases) are not part of the model; the default of each field
    is.  [DateTime<Utc>] values are instants in [Z]. *)
From stdpp Require Import options.
From S2P Require Import Prelude RustStr RustNet.

Local Open Scope Z_scope.

(** ** Constants and errors *)

Definition MAX_ROUTES_PER_SOURCE : Z := 100000.
Definition MAX_PATHS_PER_ROUTE : Z := 64.
Definition MAX_UPSTREAMS_PER_ROUTE : Z := 128.
Definition MAX_MIRROR_UPSTREAMS_PER_ROUTE : Z := 16.

Inductive PxxlError : Type :=
| RouteNotFound (host path : rstr)
| NoHealthyUpstreams (route_id : rstr)
| InvalidUpstream (url : rstr)
| UpstreamDnsResolutionFailed (url : rstr)
| UpstreamConnectionRefused (url : rstr)
| UpstreamConnectionTimeout (url : rstr)
| UpstreamConnectionFailed (url : rstr)
| InvalidHost
| InvalidPath (reason : rstr)
| BandwidthLimitExceeded (domain : rstr) (used limit : Z) (reset_date : rstr).

(** ** Defaults *)

Definition default_weight : Z := 1.
Definition default_true : bool := true.
Definition unknown_geo_source : rstr := lit "unknown".
Definition default_domain_rate_burst : Z := 240.
Definition default_rate_limit_status_code : Z := 429.
Definition default_auth_realm : rstr := lit "Pxxl".
Definition default_request_buffer_bytes : Z := 16 * 1024 * 1024.
Definition default_response_buffer_bytes : Z := 32 * 1024 * 1024.
Definition default_min_compress_bytes : Z := 1024.
Definition default_retry_attempts : Z := 2.
Definition default_retry_backoff_ms : Z := 50.
Definition default_circuit_failures : Z := 5.
Definition default_circuit_open_seconds : Z := 30.
Definition default_sticky_cookie_name : rstr := lit "pxxl_upstream".
Definition default_passive_failure_threshold : Z := 3.
Definition default_passive_recovery_seconds : Z := 30.
Definition default_mirror_percent : Z := 100.
Definition default_client_cert_header : rstr := lit "x-forwarded-tls-client-cert".
Definition default_reset_day : Z := 1.

(** ** Enumerations *)

Inductive RouteSource : Type := Static | Docker | Podman | Api.
#[export] Instance RouteSource_eq_dec : EqDecision RouteSource.
Proof. solve_decision. Defined.

Inductive LoadBalancingAlgorithm : Type :=
| RoundRobin | LeastConnections | IpHash | WeightedRoundRobin
| EwmaLatency | P2c | Hrw | LatencyAware.
#[export] Instance LoadBalancingAlgorithm_eq_dec : EqDecision LoadBalancingAlgorithm.
Proof. solve_decision. Defined.

Inductive InFlightLimitScope : Type := ScopeRoute | ScopeDomain | ScopeUpstream.
#[export] Instance InFlightLimitScope_eq_dec : EqDecision InFlightLimitScope.
Proof. solve_decision. Defined.

Inductive AcmeChallenge : Type := Http01 | Dns01 | TlsAlpn01.
#[export] Instance AcmeChallenge_eq_dec : EqDecision AcmeChallenge.
Proof. solve_decision. Defined.

Inductive RateLimitScope : Type := PerIp | PerDomain | PerIpPath.
#[export] Instance RateLimitScope_eq_dec : EqDecision RateLimitScope.
Proof. solve_decision. Defined.

Inductive ProxyMode : Type :=
| Direct
| External (proxy_url : rstr) (max_connections : option Z) (auth_token : option rstr)
    (forward_client_ip : bool).
#[export] Instance ProxyMode_eq_dec : EqDecision ProxyMode.
Proof. solve_decision. Defined.

(** ** Upstreams and paths *)

Record UpstreamTransport := {
  ut_server_name : option rstr;
  ut_insecure_skip_verify : bool;
  ut_ca_roots : list rstr;
  ut_mtls_cert_path : option rstr;
  ut_mtls_key_path : option rstr;
}.
#[export] Instance UpstreamTransport_eq_dec : EqDecision UpstreamTransport.
Proof. solve_decision. Defined.
Definition UpstreamTransport_default : UpstreamTransport := {|
  ut_server_name := None; ut_insecure_skip_verify := false; ut_ca_roots := [];
  ut_mtls_cert_path := None; ut_mtls_key_path := None |}.

Record Upstream := {
  u_url : rstr;
  u_weight : Z;
  u_healthy : bool;
  u_backup : bool;
  u_transport : UpstreamTransport;
}.
#[export] Instance Upstream_eq_dec : EqDecision Upstream.
Proof. solve_decision. Defined.
Definition Upstream_new (url : rstr) : Upstream := {|
  u_url := url; u_weight := default_weight; u_healthy := true; u_backup := false;
  u_transport := UpstreamTransport_default |}.
Definition set_healthy (h : bool) (u : Upstream) : Upstream := {|
  u_url := u_url u; u_weight := u_weight u; u_healthy := h; u_backup := u_backup u;
  u_transport := u_transport u |}.

Record PathRoute := {
  pr_prefix : rstr;
  pr_upstreams : list Upstream;
  pr_middlewares : list rstr;
}.
#[export] Instance PathRoute_eq_dec : EqDecision PathRoute.
Proof. solve_decision. Defined.

Record GeoLocation := {
  gl_country_code : option rstr;
  gl_country_name : option rstr;
  gl_continent_code : option rstr;
  gl_continent_name : option rstr;
  gl_region : option rstr;
  gl_city : option rstr;
  gl_source : rstr;
}.
#[export] Instance GeoLocation_eq_dec : EqDecision GeoLocation.
Proof. solve_decision. Defined.
Definition GeoLocation_unknown : GeoLocation := {|
  gl_country_code := None; gl_country_name := None; gl_continent_code := None;
  gl_continent_name := None; gl_region := None; gl_city := None;
  gl_source := unknown_geo_source |}.

(** ** Rule records *)

Record BandwidthLimit := {
  bl_enabled : bool;
  bl_max_bytes_per_month : option Z;
  bl_max_bytes_per_day : option Z;
  bl_reset_day_of_month : Z;
  bl_exceeded_error_page : option rstr;
  bl_exceeded_status_code : option Z;
}.
#[export] Instance BandwidthLimit_eq_dec : EqDecision BandwidthLimit.
Proof. solve_decision. Defined.
Definition BandwidthLimit_default : BandwidthLimit := {|
  bl_enabled := true; bl_max_bytes_per_month := None; bl_max_bytes_per_day := None;
  bl_reset_day_of_month := default_reset_day; bl_exceeded_error_page := None;
  bl_exceeded_status_code := Some 509 |}.

Record BasicAuthConfig := {
  ba_enabled : bool;
  ba_realm : rstr;
  ba_users : gmap rstr rstr;
}.
#[export] Instance BasicAuthConfig_eq_dec : EqDecision BasicAuthConfig.
Proof. solve_decision. Defined.
Definition BasicAuthConfig_default : BasicAuthConfig :=
  {| ba_enabled := true; ba_realm := default_auth_realm; ba_users := ∅ |}.

Record DigestAuthConfig := {
  da_enabled : bool;
  da_realm : rstr;
  da_users : gmap rstr rstr;
}.
#[export] Instance DigestAuthConfig_eq_dec : EqDecision DigestAuthConfig.
Proof. solve_decision. Defined.
Definition DigestAuthConfig_default : DigestAuthConfig :=
  {| da_enabled := false; da_realm := default_auth_realm; da_users := ∅ |}.

Record ForwardAuthConfig := {
  fa_enabled : bool;
  fa_url : rstr;
  fa_request_headers : list rstr;
  fa_response_headers : list rstr;
}.
#[export] Instance ForwardAuthConfig_eq_dec : EqDecision ForwardAuthConfig.
Proof. solve_decision. Defined.

Record BufferingConfig := {
  bc_enabled : bool;
  bc_max_request_bytes : Z;
  bc_max_response_bytes : Z;
}.
#[export] Instance BufferingConfig_eq_dec : EqDecision BufferingConfig.
Proof. solve_decision. Defined.
Definition BufferingConfig_default : BufferingConfig := {|
  bc_enabled := false; bc_max_request_bytes := default_request_buffer_bytes;
  bc_max_response_bytes := default_response_buffer_bytes |}.

Record CompressionConfig := {
  cc_enabled : bool;
  cc_min_bytes : Z;
  cc_content_types : list rstr;
}.
#[export] Instance CompressionConfig_eq_dec : EqDecision CompressionConfig.
Proof. solve_decision. Defined.
Definition CompressionConfig_default : CompressionConfig :=
  {| cc_enabled := false; cc_min_bytes := default_min_compress_bytes; cc_content_types := [] |}.

Record ContentTypeAutoDetectConfig := { ct_enabled : bool }.
#[export] Instance ContentTypeAutoDetectConfig_eq_dec : EqDecision ContentTypeAutoDetectConfig.
Proof. solve_decision. Defined.
Definition ContentTypeAutoDetectConfig_default : ContentTypeAutoDetectConfig :=
  {| ct_enabled := false |}.

Record RetryConfig := {
  rc_enabled : bool;
  rc_attempts : Z;
  rc_backoff_ms : Z;
  rc_retry_statuses : list Z;
}.
#[export] Instance RetryConfig_eq_dec : EqDecision RetryConfig.
Proof. solve_decision. Defined.
Definition RetryConfig_default : RetryConfig := {|
  rc_enabled := false; rc_attempts := default_retry_attempts;
  rc_backoff_ms := default_retry_backoff_ms; rc_retry_statuses := [502; 503; 504] |}.

Record CircuitBreakerConfig := {
  cb_enabled : bool;
  cb_failure_threshold : Z;
  cb_open_seconds : Z;
}.
#[export] Instance CircuitBreakerConfig_eq_dec : EqDecision CircuitBreakerConfig.
Proof. solve_decision. Defined.
Definition CircuitBreakerConfig_default : CircuitBreakerConfig := {|
  cb_enabled := false; cb_failure_threshold := default_circuit_failures;
  cb_open_seconds := default_circuit_open_seconds |}.

Record InFlightLimitConfig := {
  if_enabled : bool;
  if_max : option Z;
  if_scope : InFlightLimitScope;
}.
#[export] Instance InFlightLimitConfig_eq_dec : EqDecision InFlightLimitConfig.
Proof. solve_decision. Defined.
Definition InFlightLimitConfig_default : InFlightLimitConfig :=
  {| if_enabled := false; if_max := None; if_scope := ScopeRoute |}.

Record StickySessionConfig := {
  ss_enabled : bool;
  ss_cookie_name : rstr;
  ss_http_only : bool;
  ss_secure : bool;
  ss_same_site : option rstr;
  ss_max_age_seconds : option Z;
}.
#[export] Instance StickySessionConfig_eq_dec : EqDecision StickySessionConfig.
Proof. solve_decision. Defined.
Definition StickySessionConfig_default : StickySessionConfig := {|
  ss_enabled := false; ss_cookie_name := default_sticky_cookie_name; ss_http_only := true;
  ss_secure := false; ss_same_site := None; ss_max_age_seconds := None |}.

Record PassiveHealthConfig := {
  ph_enabled : bool;
  ph_failure_threshold : Z;
  ph_recovery_seconds : Z;
  ph_failure_statuses : list Z;
}.
#[export] Instance PassiveHealthConfig_eq_dec : EqDecision PassiveHealthConfig.
Proof. solve_decision. Defined.
Definition PassiveHealthConfig_default : PassiveHealthConfig := {|
  ph_enabled := false; ph_failure_threshold := default_passive_failure_threshold;
  ph_recovery_seconds := default_passive_recovery_seconds;
  ph_failure_statuses := [500; 502; 503; 504] |}.

(** The derived [Default] of this record has [percent = 0]; 100 is only the
    default of the field when it is missing from a document that is read. *)
Record TrafficMirrorConfig := {
  tm_enabled : bool;
  tm_upstreams : list Upstream;
  tm_percent : Z;
}.
#[export] Instance TrafficMirrorConfig_eq_dec : EqDecision TrafficMirrorConfig.
Proof. solve_decision. Defined.
Definition TrafficMirrorConfig_default : TrafficMirrorConfig :=
  {| tm_enabled := false; tm_upstreams := []; tm_percent := 0 |}.

Record ClientCertForwardingConfig := {
  cf_enabled : bool;
  cf_header_name : rstr;
}.
#[export] Instance ClientCertForwardingConfig_eq_dec : EqDecision ClientCertForwardingConfig.
Proof. solve_decision. Defined.
Definition ClientCertForwardingConfig_default : ClientCertForwardingConfig :=
  {| cf_enabled := false; cf_header_name := [] |}.

Record MiddlewareDefinition := {
  md_chain : list rstr;
  md_basic_auth : option BasicAuthConfig;
  md_digest_auth : option DigestAuthConfig;
  md_forward_auth : option ForwardAuthConfig;
  md_request_buffering : option BufferingConfig;
  md_response_buffering : option BufferingConfig;
  md_compression : option CompressionConfig;
  md_content_type_autodetect : option ContentTypeAutoDetectConfig;
  md_retry : option RetryConfig;
  md_circuit_breaker : option CircuitBreakerConfig;
  md_in_flight_limit : option InFlightLimitConfig;
  md_pass_tls_client_cert : option ClientCertForwardingConfig;
}.
#[export] Instance MiddlewareDefinition_eq_dec : EqDecision MiddlewareDefinition.
Proof. solve_decision. Defined.
Definition MiddlewareDefinition_default : MiddlewareDefinition := {|
  md_chain := []; md_basic_auth := None; md_digest_auth := None; md_forward_auth := None;
  md_request_buffering := None; md_response_buffering := None; md_compression := None;
  md_content_type_autodetect := None; md_retry := None; md_circuit_breaker := None;
  md_in_flight_limit := None; md_pass_tls_client_cert := None |}.

Record WeightedServiceTarget := {
  ws_service : rstr;
  ws_weight : Z;
}.
#[export] Instance WeightedServiceTarget_eq_dec : EqDecision WeightedServiceTarget.
Proof. solve_decision. Defined.

Record ServiceDefinition := {
  sd_upstreams : list Upstream;
  sd_weighted : list WeightedServiceTarget;
}.
#[export] Instance ServiceDefinition_eq_dec : EqDecision ServiceDefinition.
Proof. solve_decision. Defined.

Record ClientAuthConfig := {
  ca_required : bool;
  ca_ca_roots : list rstr;
}.
#[export] Instance ClientAuthConfig_eq_dec : EqDecision ClientAuthConfig.
Proof. solve_decision. Defined.
Definition ClientAuthConfig_default : ClientAuthConfig :=
  {| ca_required := false; ca_ca_roots := [] |}.

Record RouterTlsOptions := {
  to_min_version : option rstr;
  to_cipher_suites : list rstr;
  to_client_auth : ClientAuthConfig;
}.
#[export] Instance RouterTlsOptions_eq_dec : EqDecision RouterTlsOptions.
Proof. solve_decision. Defined.
Definition RouterTlsOptions_default : RouterTlsOptions :=
  {| to_min_version := None; to_cipher_suites := []; to_client_auth := ClientAuthConfig_default |}.

Record AcmeConfig := {
  ac_enabled : bool;
  ac_email : option rstr;
  ac_directory_url : option rstr;
  ac_challenge : AcmeChallenge;
  ac_dns_provider : option rstr;
  ac_wildcard : bool;
}.
#[export] Instance AcmeConfig_eq_dec : EqDecision AcmeConfig.
Proof. solve_decision. Defined.
Definition AcmeConfig_default : AcmeConfig := {|
  ac_enabled := false; ac_email := None; ac_directory_url := None; ac_challenge := Http01;
  ac_dns_provider := None; ac_wildcard := false |}.

Record TcpRoutingConfig := {
  tr_enabled : bool;
  tr_host_sni : list rstr;
  tr_tls_passthrough : bool;
}.
#[export] Instance TcpRoutingConfig_eq_dec : EqDecision TcpRoutingConfig.
Proof. solve_decision. Defined.
Definition TcpRoutingConfig_default : TcpRoutingConfig :=
  {| tr_enabled := false; tr_host_sni := []; tr_tls_passthrough := false |}.

Record UdpRoutingConfig := { ur_enabled : bool }.
#[export] Instance UdpRoutingConfig_eq_dec : EqDecision UdpRoutingConfig.
Proof. solve_decision. Defined.
Definition UdpRoutingConfig_default : UdpRoutingConfig := {| ur_enabled := false |}.

Record Http3Config := { h3_enabled : bool }.
#[export] Instance Http3Config_eq_dec : EqDecision Http3Config.
Proof. solve_decision. Defined.
Definition Http3Config_default : Http3Config := {| h3_enabled := false |}.

Record LocationRouteRule := {
  lr_name : option rstr;
  lr_countries : list rstr;
  lr_continents : list rstr;
  lr_upstreams : list Upstream;
}.
#[export] Instance LocationRouteRule_eq_dec : EqDecision LocationRouteRule.
Proof. solve_decision. Defined.
Definition lr_with_upstreams (ups : list Upstream) (r : LocationRouteRule) : LocationRouteRule :=
  {| lr_name := lr_name r; lr_countries := lr_countries r; lr_continents := lr_continents r;
     lr_upstreams := ups |}.

Record TrafficSplitRule := {
  ts_name : option rstr;
  ts_weight : Z;
  ts_countries : list rstr;
  ts_continents : list rstr;
  ts_upstreams : list Upstream;
}.
#[export] Instance TrafficSplitRule_eq_dec : EqDecision TrafficSplitRule.
Proof. solve_decision. Defined.
Definition ts_with_upstreams (ups : list Upstream) (r : TrafficSplitRule) : TrafficSplitRule :=
  {| ts_name := ts_name r; ts_weight := ts_weight r; ts_countries := ts_countries r;
     ts_continents := ts_continents r; ts_upstreams := ups |}.

Record DomainWafRules := {
  waf_enabled : bool;
  waf_block_path_traversal : bool;
  waf_block_sql_injection : bool;
  waf_block_xss : bool;
  waf_block_bad_bots : bool;
  waf_blocked_user_agents : list rstr;
  waf_blocked_path_patterns : list rstr;
  waf_blocked_query_patterns : list rstr;
}.
#[export] Instance DomainWafRules_eq_dec : EqDecision DomainWafRules.
Proof. solve_decision. Defined.
Definition DomainWafRules_default : DomainWafRules := {|
  waf_enabled := false; waf_block_path_traversal := true; waf_block_sql_injection := true;
  waf_block_xss := true; waf_block_bad_bots := false; waf_blocked_user_agents := [];
  waf_blocked_path_patterns := []; waf_blocked_query_patterns := [] |}.

Record RequiredHeaderRule := {
  rh_name : rstr;
  rh_value : option rstr;
}.
#[export] Instance RequiredHeaderRule_eq_dec : EqDecision RequiredHeaderRule.
Proof. solve_decision. Defined.

Record DomainRateLimit := {
  rl_enabled : bool;
  rl_requests_per_second : option Z;
  rl_requests_per_minute : option Z;
  rl_burst : Z;
  rl_scope : RateLimitScope;
  rl_status_code : Z;
  rl_retry_after_seconds : option Z;
}.
#[export] Instance DomainRateLimit_eq_dec : EqDecision DomainRateLimit.
Proof. solve_decision. Defined.
Definition DomainRateLimit_default : DomainRateLimit := {|
  rl_enabled := true; rl_requests_per_second := None; rl_requests_per_minute := None;
  rl_burst := default_domain_rate_burst; rl_scope := PerIp;
  rl_status_code := default_rate_limit_status_code; rl_retry_after_seconds := None |}.

(** ** Domain rules and routes (over the [ipnet] library's network type) *)

Section routes.
Context {NL : IpNetLib}.

Record DomainRules := {
  dr_www_alias : bool;
  dr_redirect_www_to_apex : bool;
  dr_allow_websocket : bool;
  dr_require_https : bool;
  dr_redirect_http_to_https : bool;
  dr_allowed_methods : list rstr;
  dr_blocked_methods : list rstr;
  dr_allowed_headers : list rstr;
  dr_blocked_headers : list rstr;
  dr_required_headers : list RequiredHeaderRule;
  dr_strip_request_headers : list rstr;
  dr_add_request_headers : gmap rstr rstr;
  dr_response_headers : gmap rstr rstr;
  dr_ip_allowlist : list IpNet;
  dr_ip_blocklist : list IpNet;
  dr_country_allowlist : list rstr;
  dr_country_blocklist : list rstr;
  dr_continent_allowlist : list rstr;
  dr_continent_blocklist : list rstr;
  dr_location_routes : list LocationRouteRule;
  dr_traffic_splits : list TrafficSplitRule;
  dr_waf : DomainWafRules;
  dr_rate_limit : option DomainRateLimit;
  dr_max_body_bytes : option Z;
  dr_max_uri_length : option Z;
  dr_allowed_content_types : list rstr;
  dr_maintenance_mode : bool;
  dr_maintenance_status_code : option Z;
  dr_preserve_host_header : bool;
  dr_add_security_headers : bool;
  dr_cors_allowed_origins : list rstr;
  dr_cors_allow_credentials : bool;
  dr_cors_allowed_methods : list rstr;
  dr_cors_allowed_headers : list rstr;
  dr_cors_preflight_enabled : bool;
  dr_middlewares : gmap rstr MiddlewareDefinition;
  dr_middleware_chains : gmap rstr (list rstr);
  dr_request_buffering : BufferingConfig;
  dr_response_buffering : BufferingConfig;
  dr_compression : CompressionConfig;
  dr_content_type_autodetect : ContentTypeAutoDetectConfig;
  dr_retry : RetryConfig;
  dr_circuit_breaker : CircuitBreakerConfig;
  dr_in_flight_limit : InFlightLimitConfig;
  dr_sticky_sessions : StickySessionConfig;
  dr_passive_health : PassiveHealthConfig;
  dr_traffic_mirroring : TrafficMirrorConfig;
  dr_client_cert_forwarding : ClientCertForwardingConfig;
  dr_services : gmap rstr ServiceDefinition;
  dr_upstream_transport : UpstreamTransport;
  dr_tls_options : RouterTlsOptions;
  dr_acme : AcmeConfig;
  dr_tcp : TcpRoutingConfig;
  dr_udp : UdpRoutingConfig;
  dr_http3 : Http3Config;
  dr_bandwidth_limit : option BandwidthLimit;
  dr_proxy_mode : ProxyMode;
}.
#[global] Instance DomainRules_eq_dec : EqDecision DomainRules.
Proof. solve_decision. Defined.

Definition DomainRules_default : DomainRules := {|
  dr_www_alias := false;
  dr_redirect_www_to_apex := false;
  dr_allow_websocket := true;
  dr_require_https := false;
  dr_redirect_http_to_https := false;
  dr_allowed_methods := [];
  dr_blocked_methods := [];
  dr_allowed_headers := [];
  dr_blocked_headers := [];
  dr_required_headers := [];
  dr_strip_request_headers := [];
  dr_add_request_headers := ∅;
  dr_response_headers := ∅;
  dr_ip_allowlist := [];
  dr_ip_blocklist := [];
  dr_country_allowlist := [];
  dr_country_blocklist := [];
  dr_continent_allowlist := [];
  dr_continent_blocklist := [];
  dr_location_routes := [];
  dr_traffic_splits := [];
  dr_waf := DomainWafRules_default;
  dr_rate_limit := None;
  dr_max_body_bytes := None;
  dr_max_uri_length := None;
  dr_allowed_content_types := [];
  dr_maintenance_mode := false;
  dr_maintenance_status_code := None;
  dr_preserve_host_header := false;
  dr_add_security_headers := false;
  dr_cors_allowed_origins := [];
  dr_cors_allow_credentials := false;
  dr_cors_allowed_methods := [];
  dr_cors_allowed_headers := [];
  dr_cors_preflight_enabled := true;
  dr_middlewares := ∅;
  dr_middleware_chains := ∅;
  dr_request_buffering := BufferingConfig_default;
  dr_response_buffering := BufferingConfig_default;
  dr_compression := CompressionConfig_default;
  dr_content_type_autodetect := ContentTypeAutoDetectConfig_default;
  dr_retry := RetryConfig_default;
  dr_circuit_breaker := CircuitBreakerConfig_default;
  dr_in_flight_limit := InFlightLimitConfig_default;
  dr_sticky_sessions := StickySessionConfig_default;
  dr_passive_health := PassiveHealthConfig_default;
  dr_traffic_mirroring := TrafficMirrorConfig_default;
  dr_client_cert_forwarding := ClientCertForwardingConfig_default;
  dr_services := ∅;
  dr_upstream_transport := UpstreamTransport_default;
  dr_tls_options := RouterTlsOptions_default;
  dr_acme := AcmeConfig_default;
  dr_tcp := TcpRoutingConfig_default;
  dr_udp := UdpRoutingConfig_default;
  dr_http3 := Http3Config_default;
  dr_bandwidth_limit := None;
  dr_proxy_mode := Direct;
|}.

Record Route := {
  r_id : rstr;
  r_domain : rstr;
  r_paths : list PathRoute;
  r_tls : bool;
  r_algorithm : LoadBalancingAlgorithm;
  r_rules : DomainRules;
  r_source : RouteSource;
  r_route_version : Z;
  r_created_at : Z;
  r_updated_at : Z;
}.
#[global] Instance Route_eq_dec : EqDecision Route.
Proof. solve_decision. Defined.

Record RouteMatch := {
  m_route : Route;
  m_path : PathRoute;
}.
#[global] Instance RouteMatch_eq_dec : EqDecision RouteMatch.
Proof. solve_decision. Defined.

(** Assignments to fields of a route ([route.paths = ...], [route.id = ...]). *)
Definition r_with_paths (ps : list PathRoute) (r : Route) : Route :=
  {| r_id := r_id r; r_domain := r_domain r; r_paths := ps; r_tls := r_tls r;
     r_algorithm := r_algorithm r; r_rules := r_rules r; r_source := r_source r;
     r_route_version := r_route_version r; r_created_at := r_created_at r;
     r_updated_at := r_updated_at r |}.
Definition r_with_rules (rules : DomainRules) (r : Route) : Route :=
  {| r_id := r_id r; r_domain := r_domain r; r_paths := r_paths r; r_tls := r_tls r;
     r_algorithm := r_algorithm r; r_rules := rules; r_source := r_source r;
     r_route_version := r_route_version r; r_created_at := r_created_at r;
     r_updated_at := r_updated_at r |}.
Definition with_id (id : rstr) (r : Route) : Route :=
  {| r_id := id; r_domain := r_domain r; r_paths := r_paths r; r_tls := r_tls r;
     r_algorithm := r_algorithm r; r_rules := r_rules r; r_source := r_source r;
     r_route_version := r_route_version r; r_created_at := r_created_at r;
     r_updated_at := r_updated_at r |}.
Definition r_with_source_domain (src : RouteSource) (d : rstr) (r : Route) : Route :=
  {| r_id := r_id r; r_domain := d; r_paths := r_paths r; r_tls := r_tls r;
     r_algorithm := r_algorithm r; r_rules := r_rules r; r_source := src;
     r_route_version := r_route_version r; r_created_at := r_created_at r;
     r_updated_at := r_updated_at r |}.

(** Assignments to the upstream lists of the rules. *)
Definition dr_with_pools (locs : list LocationRouteRule) (splits : list TrafficSplitRule)
    (d : DomainRules) : DomainRules := {|
  dr_www_alias := dr_www_alias d;
  dr_redirect_www_to_apex := dr_redirect_www_to_apex d;
  dr_allow_websocket := dr_allow_websocket d;
  dr_require_https := dr_require_https d;
  dr_redirect_http_to_https := dr_redirect_http_to_https d;
  dr_allowed_methods := dr_allowed_methods d;
  dr_blocked_methods := dr_blocked_methods d;
  dr_allowed_headers := dr_allowed_headers d;
  dr_blocked_headers := dr_blocked_headers d;
  dr_required_headers := dr_required_headers d;
  dr_strip_request_headers := dr_strip_request_headers d;
  dr_add_request_headers := dr_add_request_headers d;
  dr_response_headers := dr_response_headers d;
  dr_ip_allowlist := dr_ip_allowlist d;
  dr_ip_blocklist := dr_ip_blocklist d;
  dr_country_allowlist := dr_country_allowlist d;
  dr_country_blocklist := dr_country_blocklist d;
  dr_continent_allowlist := dr_continent_allowlist d;
  dr_continent_blocklist := dr_continent_blocklist d;
  dr_location_routes := locs;
  dr_traffic_splits := splits;
  dr_waf := dr_waf d;
  dr_rate_limit := dr_rate_limit d;
  dr_max_body_bytes := dr_max_body_bytes d;
  dr_max_uri_length := dr_max_uri_length d;
  dr_allowed_content_types := dr_allowed_content_types d;
  dr_maintenance_mode := dr_maintenance_mode d;
  dr_maintenance_status_code := dr_maintenance_status_code d;
  dr_preserve_host_header := dr_preserve_host_header d;
  dr_add_security_headers := dr_add_security_headers d;
  dr_cors_allowed_origins := dr_cors_allowed_origins d;
  dr_cors_allow_credentials := dr_cors_allow_credentials d;
  dr_cors_allowed_methods := dr_cors_allowed_methods d;
  dr_cors_allowed_headers := dr_cors_allowed_headers d;
  dr_cors_preflight_enabled := dr_cors_preflight_enabled d;
  dr_middlewares := dr_middlewares d;
  dr_middleware_chains := dr_middleware_chains d;
  dr_request_buffering := dr_request_buffering d;
  dr_response_buffering := dr_response_buffering d;
  dr_compression := dr_compression d;
  dr_content_type_autodetect := dr_content_type_autodetect d;
  dr_retry := dr_retry d;
  dr_circuit_breaker := dr_circuit_breaker d;
  dr_in_flight_limit := dr_in_flight_limit d;
  dr_sticky_sessions := dr_sticky_sessions d;
  dr_passive_health := dr_passive_health d;
  dr_traffic_mirroring := dr_traffic_mirroring d;
  dr_client_cert_forwarding := dr_client_cert_forwarding d;
  dr_services := dr_services d;
  dr_upstream_transport := dr_upstream_transport d;
  dr_tls_options := dr_tls_options d;
  dr_acme := dr_acme d;
  dr_tcp := dr_tcp d;
  dr_udp := dr_udp d;
  dr_http3 := dr_http3 d;
  dr_bandwidth_limit := dr_bandwidth_limit d;
  dr_proxy_mode := dr_proxy_mode d;
|}.
End routes.
