(* ===== verification/CommonPath.v ===== *)
(** Hosts, path prefixes and request paths of the [common] crate: domain
    normalisation, percent-decoding, path canonicalisation and the prefix
    test of a [PathRoute]. *)
From stdpp Require Import options.
From S2P Require Import Prelude RustStr RustNet CommonTypes.

Local Open Scope Z_scope.

Definition slash : ascii := "/"%char.

(** ** Hosts *)

Definition host_without_port (host : rstr) : option rstr :=
  let trimmed := trim host in
  if is_empty trimmed then None
  else if starts_with (lit "[") trimmed then
    match split "]"%char trimmed with
    | part :: _ => Some (trim_start_matches "["%char part)
    | [] => None
    end
  else match split ":"%char trimmed with part :: _ => Some part | [] => None end.

Definition normalize_domain (domain : rstr) : rstr :=
  to_ascii_lowercase
    (trim_end_matches "."%char
       (match host_without_port domain with Some h => h | None => domain end)).

(** ** Path prefixes *)

Definition normalize_path_prefix (raw : rstr) : rstr :=
  if is_empty (trim raw) || (raw =s? lit "/") then lit "/"
  else
    let with_slash := if starts_with (lit "/") raw then raw else lit "/" ++ raw in
    trim_end_matches slash with_slash.

Definition PathRoute_new (prefix : rstr) (upstreams : list Upstream) : PathRoute :=
  {| pr_prefix := normalize_path_prefix prefix; pr_upstreams := upstreams; pr_middlewares := [] |}.

Definition PathRoute_matches (pr : PathRoute) (path : rstr) : bool :=
  if pr_prefix pr =s? lit "/" then true
  else (path =s? pr_prefix pr)
       || starts_with (trim_end_matches slash (pr_prefix pr) ++ lit "/") path.

(** ** Request paths *)

Definition hex_value (byte : ascii) : option Z :=
  if in_range 48 57 byte then Some (bz byte - 48)
  else if in_range 97 102 byte then Some (bz byte - 97 + 10)
  else if in_range 65 70 byte then Some (bz byte - 65 + 10)
  else None.

Definition invalid_percent : rstr := lit "invalid percent encoding".

(** The loop of [percent_decode_utf8]: an escape is three bytes. *)
Fixpoint percent_decode (bytes : rstr) : result rstr rstr :=
  match bytes with
  | [] => Ok []
  | b :: rest =>
    if beq b "%"%char then
      match rest with
      | h :: l :: rest' =>
        match hex_value h, hex_value l with
        | Some high, Some low =>
          let? out := percent_decode rest' in
          Ok (byte_of (Z.lor (Z.shiftl high 4) low) :: out)
        | _, _ => Err invalid_percent
        end
      | _ => Err invalid_percent
      end
    else let? out := percent_decode rest in Ok (b :: out)
  end.

Definition percent_decode_utf8 (input : rstr) : result rstr rstr :=
  let? output := percent_decode input in
  if valid_utf8 output then Ok output
  else Err (lit "path percent-decoding produced invalid UTF-8").

(** [for _ in 0..n]: decode until nothing changes, [n] times at most. *)
Fixpoint decode_rounds (n : nat) (decoded : rstr) : result rstr rstr :=
  match n with
  | O => Ok decoded
  | S n' =>
    let? next := percent_decode_utf8 decoded in
    if next =s? decoded then Ok next else decode_rounds n' next
  end.

Definition is_control (byte : ascii) : bool := (bz byte <? 32) || (bz byte =? 127).

(** The [segments] vector is kept in reverse: its last element first. *)
Definition push_segment (segments : list rstr) (segment : rstr) : list rstr :=
  if is_empty segment || (segment =s? lit ".") then segments
  else if segment =s? lit ".." then match segments with [] => [] | _ :: l => l end
  else segment :: segments.

Definition path_segments (decoded : rstr) : list rstr :=
  reverse (foldl push_segment [] (split slash decoded)).

Definition render_segments (segments : list rstr) (preserve_trailing_slash : bool) : rstr :=
  if is_empty segments then lit "/"
  else if preserve_trailing_slash then lit "/" ++ join (lit "/") segments ++ lit "/"
  else lit "/" ++ join (lit "/") segments.

Definition canonicalize_path (path : rstr) : result rstr rstr :=
  if is_empty path then Ok (lit "/")
  else if negb (starts_with (lit "/") path) then Err (lit "path must start with '/'")
  else
    let? decoded := decode_rounds 4 path in
    if existsb is_control decoded then Err (lit "path contains control characters")
    else
      let decoded := replace_char "\"%char (lit "/") decoded in
      Ok (render_segments (path_segments decoded) (ends_with (lit "/") decoded)).

Definition canonicalize_request_path (path : rstr) : result PxxlError rstr :=
  map_err InvalidPath (canonicalize_path path).

(** ** Examples (the unit tests of the crate) *)

Example canonicalize_tests :
  map (fun s => canonicalize_path (lit s))
    ["/api/%2e%2e/admin"; "/api%2fusers//./42"; "/api/%252e%252e/admin"; "/admin/";
     "/api//users/./42/"]%string
  = [Ok (lit "/admin"); Ok (lit "/api/users/42"); Ok (lit "/admin"); Ok (lit "/admin/");
     Ok (lit "/api/users/42/")].
Proof. vm_compute. reflexivity. Qed.

(** ** Percent-decoding *)

Definition percent : ascii := "%"%char.

Lemma hex_value_range b v : hex_value b = Some v -> 0 <= v <= 15.
Proof.
  unfold hex_value, in_range. intros H.
  repeat match type of H with context [if ?c then _ else _] => destruct c eqn:? end;
    simplify_eq; bools; lia.
Qed.

(** Decoding leaves a string without escapes alone, and shortens any other. *)
Lemma percent_decode_id s : percent ∉ s -> percent_decode s = Ok s.
Proof.
  induction s as [|b s IH]; intros H; [done|]. simpl.
  destruct (beq b "%") eqn:E; [apply beq_true in E; set_solver|].
  rewrite IH by set_solver. done.
Qed.

Lemma percent_decode_length s t :
  percent_decode s = Ok t ->
  (length t <= length s)%nat /\ (percent ∈ s -> (length t < length s)%nat).
Proof.
  revert t. induction s as [s IH] using (induction_ltof1 _ (@length ascii)). intros t H.
  destruct s as [|b s]; simpl in H; [simplify_eq; set_solver|].
  destruct (beq b "%") eqn:E.
  - destruct s as [|h [|l s]]; [done..|].
    destruct (hex_value h), (hex_value l); [|done..].
    destruct (percent_decode s) as [out|] eqn:D; [|done]. simplify_eq/=.
    destruct (IH s) with (t := out) as [Hle _]; [unfold ltof; simpl; lia|done|].
    simpl. split; [lia|]. intros _. lia.
  - destruct (percent_decode s) as [out|] eqn:D; [|done]. simplify_eq/=.
    destruct (IH s) with (t := out) as [Hle Hlt]; [unfold ltof; simpl; lia|done|].
    apply beq_false in E. split; [lia|]. intros [Heq|Hin]%elem_of_cons; [by rewrite <- Heq in E|].
    specialize (Hlt Hin). lia.
Qed.

Lemma percent_decode_fixpoint s : percent_decode s = Ok s <-> percent ∉ s.
Proof.
  split; [|apply percent_decode_id]. intros H Hin.
  destruct (percent_decode_length s s H) as [_ Hlt]. specialize (Hlt Hin). lia.
Qed.

Lemma percent_decode_utf8_valid s t : percent_decode_utf8 s = Ok t -> valid_utf8 t = true.
Proof. unfold percent_decode_utf8. intros H. case_in H. Qed.

(** Four rounds of decoding, each of which changed the string. *)
Inductive decodes : nat -> rstr -> rstr -> Prop :=
| decodes_0 s : decodes 0 s s
| decodes_S n s t u :
    percent_decode_utf8 s = Ok t -> t <> s -> decodes n t u -> decodes (S n) s u.

Lemma decode_rounds_spec n s t :
  decode_rounds n s = Ok t -> decodes n s t \/ percent ∉ t.
Proof.
  revert s; induction n as [|n IH]; intros s H; simpl in H; [simplify_eq; left; constructor|].
  destruct (percent_decode_utf8 s) as [next|] eqn:D; [|done].
  destruct (next =s? s) eqn:E.
  - apply seqb_true in E as ->. simplify_eq. right.
    unfold percent_decode_utf8 in D. destruct (percent_decode t) as [o|] eqn:P; [|done].
    destruct (valid_utf8 o); [|done]. simplify_eq. by apply percent_decode_fixpoint.
  - apply seqb_false in E. destruct (IH next H) as [Hd|Hp]; [left|by right].
    by econstructor.
Qed.

Lemma decode_rounds_valid n s t :
  decode_rounds (S n) s = Ok t -> valid_utf8 t = true.
Proof.
  revert s; induction n as [|n IH]; intros s H.
  - simpl in H. destruct (percent_decode_utf8 s) as [next|] eqn:D; [|done].
    destruct (next =s? s); simplify_eq; by eapply percent_decode_utf8_valid.
  - change (decode_rounds (S (S n)) s) with
      (match percent_decode_utf8 s with
       | Ok next => if next =s? s then Ok next else decode_rounds (S n) next
       | Err err => Err err end) in H.
    destruct (percent_decode_utf8 s) as [next|] eqn:D; [|done].
    destruct (next =s? s); [simplify_eq; by eapply percent_decode_utf8_valid|eauto].
Qed.

Lemma decode_rounds_id n s :
  percent ∉ s -> valid_utf8 s = true -> decode_rounds n s = Ok s.
Proof.
  intros Hp Hv. destruct n as [|n]; [done|]. simpl. unfold percent_decode_utf8.
  rewrite percent_decode_id by done. by rewrite Hv, seqb_refl.
Qed.

(** ** Canonical paths *)

(** A segment of a canonical path. *)
Record segment_ok (s : rstr) : Prop := {
  seg_nonempty : s <> [];
  seg_not_dot : s <> lit ".";
  seg_not_dotdot : s <> lit "..";
  seg_no_slash : slash ∉ s;
  seg_no_backslash : "\"%char ∉ s;
  seg_no_control : Forall (fun b => is_control b = false) s;
  seg_utf8 : valid_utf8 s = true;
}.

(** A canonical path: a slash, good segments joined by single slashes, and
    possibly one trailing slash. *)
Definition canonical (p : rstr) : Prop :=
  exists segs trailing, Forall segment_ok segs /\ p = render_segments segs trailing.

(** What a piece of the decoded path is known to satisfy before the special
    segments are removed. *)
Definition piece_ok (s : rstr) : Prop :=
  (slash ∉ s) /\ ("\"%char ∉ s) /\ Forall (fun b => is_control b = false) s /\
  valid_utf8 s = true.

Lemma push_segment_ok segs s :
  piece_ok s -> Forall segment_ok segs -> Forall segment_ok (push_segment segs s).
Proof.
  intros (H1 & H2 & H3 & H4) Hs. unfold push_segment.
  destruct (is_empty s) eqn:E0; [done|]. cbn [orb].
  destruct (s =s? lit ".") eqn:E1; [done|].
  destruct (s =s? lit "..") eqn:E2.
  - destruct segs; [done|]. by apply Forall_cons in Hs as [_ ?].
  - apply seqb_false in E1, E2. constructor; [|done]. split; try done. by destruct s.
Qed.

Lemma path_segments_ok d : Forall piece_ok (split slash d) -> Forall segment_ok (path_segments d).
Proof.
  unfold path_segments. intros H. apply Forall_reverse.
  assert (Forall segment_ok []) as Hacc by constructor. revert Hacc.
  generalize (@nil rstr) as acc. induction (split slash d) as [|s l IH]; intros acc Hacc; [done|].
  apply Forall_cons in H as [? ?]. simpl. apply IH; [done|]. by apply push_segment_ok.
Qed.

Lemma push_segments_subset s l acc : s ∈ foldl push_segment acc l -> s ∈ acc \/ s ∈ l.
Proof.
  revert acc; induction l as [|x l IH]; intros acc; simpl; [by left|].
  intros [Ha|Hl]%IH; [|set_solver]. unfold push_segment in Ha.
  destruct (is_empty x || (x =s? lit ".")); [by left|].
  destruct (x =s? lit ".."); [destruct acc; set_solver|set_solver].
Qed.

Lemma path_segments_subset s d : s ∈ path_segments d -> s ∈ split slash d.
Proof.
  unfold path_segments. rewrite elem_of_reverse. intros [H|H]%push_segments_subset; set_solver.
Qed.

Lemma elem_of_replace_backslash b s :
  b ∈ replace_char "\"%char (lit "/") s -> b <> "\"%char /\ (b = slash \/ b ∈ s).
Proof.
  unfold replace_char. induction s as [|a s IH]; simpl; [set_solver|].
  intros [Ha|Hs]%elem_of_app.
  - destruct (beq a "\") eqn:E; simpl in Ha; apply list_elem_of_singleton in Ha as ->.
    + split; [done|by left].
    + apply beq_false in E. split; [done|set_solver].
  - destruct (IH Hs) as [? [?|?]]; set_solver.
Qed.

Lemma split_pieces_subset c s : Forall (fun p => forall b, b ∈ p -> b ∈ s) (split c s).
Proof.
  induction s as [|a s IH]; simpl; [repeat constructor; set_solver|].
  destruct (beq a c).
  - constructor; [set_solver|]. eapply Forall_impl; [exact IH|]. set_solver.
  - destruct (split c s) as [|p ps]; [constructor; [set_solver|by constructor]|].
    apply Forall_cons in IH as [Hp IH]. constructor; [set_solver|].
    eapply Forall_impl; [exact IH|]. set_solver.
Qed.

Lemma decoded_pieces_ok d :
  existsb is_control d = false -> valid_utf8 d = true ->
  Forall piece_ok (split slash (replace_char "\"%char (lit "/") d)).
Proof.
  intros Hc Hv. set (d' := replace_char _ _ d).
  assert (valid_utf8 d' = true) as Hv' by (by apply valid_utf8_replace_ascii).
  assert (Hsub := split_pieces_subset slash d').
  assert (Hns := split_no_sep slash d').
  assert (Hu := valid_utf8_split slash d' ltac:(by vm_compute) Hv').
  rewrite Forall_forall in *. intros p Hp. unfold piece_ok.
  specialize (Hsub p Hp). specialize (Hns p Hp). specialize (Hu p Hp).
  split; [done|]. split; [|split; [|done]].
  - intros Hb. apply Hsub, elem_of_replace_backslash in Hb as [? _]. done.
  - apply Forall_forall. intros b Hb. apply Hsub, elem_of_replace_backslash in Hb as [_ [->|Hb]];
      [by vm_compute|].
    destruct (is_control b) eqn:E; [|done].
    assert (existsb is_control d = true); [|congruence].
    apply existsb_exists. exists b. by rewrite <- list_elem_of_In.
Qed.

Lemma push_segments_ok segs acc :
  Forall segment_ok segs -> foldl push_segment acc segs = reverse segs ++ acc.
Proof.
  revert acc; induction segs as [|s segs IH]; intros acc Hs; [done|].
  apply Forall_cons in Hs as [[H0 H1 H2 _ _ _ _] Hs]. simpl.
  assert (push_segment acc s = s :: acc) as ->.
  { unfold push_segment. destruct s as [|b s]; [done|]. cbn [is_empty orb].
    by rewrite (proj2 (seqb_false _ _) H1), (proj2 (seqb_false _ _) H2). }
  rewrite IH by done. by rewrite reverse_cons, <- app_assoc.
Qed.

Lemma segments_no_slash segs : Forall segment_ok segs -> Forall (fun p => slash ∉ p) segs.
Proof. intros H. eapply Forall_impl; [exact H|]. by intros ? []. Qed.

Lemma split_render segs tr :
  segs <> [] -> Forall segment_ok segs ->
  split slash (render_segments segs tr) = [] :: segs ++ (if tr then [[]] else []).
Proof.
  intros Hne Hs. apply segments_no_slash in Hs. destruct segs as [|s segs]; [done|].
  unfold render_segments. cbn [is_empty]. destruct tr.
  - change (lit "/" ++ join (lit "/") (s :: segs) ++ lit "/")
      with ([] ++ slash :: (join [slash] (s :: segs) ++ slash :: [])).
    rewrite split_app_sep by set_solver. by rewrite split_app, split_join.
  - change (lit "/" ++ join (lit "/") (s :: segs)) with ([] ++ slash :: join [slash] (s :: segs)).
    rewrite split_app_sep by set_solver. by rewrite split_join, app_nil_r.
Qed.

Lemma path_segments_render segs tr :
  Forall segment_ok segs -> path_segments (render_segments segs tr) = segs.
Proof.
  intros Hs. unfold path_segments. destruct (decide (segs = [])) as [->|Hne]; [done|].
  rewrite split_render by done. cbn [foldl]. change (push_segment [] []) with (@nil rstr).
  rewrite foldl_app, (push_segments_ok segs), app_nil_r by done.
  destruct tr; cbn [foldl]; [change (push_segment (reverse segs) []) with (reverse segs)|];
    apply reverse_involutive.
Qed.

Lemma join_last_elem c segs b :
  last (join [c] segs) = Some b -> Forall (fun p => p <> [] /\ (c ∉ p)) segs -> b <> c.
Proof.
  induction segs as [|s [|s' segs] IH]; intros Hb Hs; [done| |].
  - apply Forall_cons in Hs as [[_ Hc] _]. simpl in Hb. apply last_Some_elem_of in Hb. set_solver.
  - change (join [c] (s :: s' :: segs)) with (s ++ c :: join [c] (s' :: segs)) in Hb.
    apply Forall_cons in Hs as [_ Hs]. apply IH; [|done].
    assert (join [c] (s' :: segs) <> []) as Hj.
    { apply Forall_cons in Hs as [[? _] _]. simpl. destruct segs; [done|]. by destruct s'. }
    rewrite last_app_cons in Hb. destruct (join [c] (s' :: segs)) as [|x l]; [done|]. done.
Qed.

Lemma ends_with_slash_last s : ends_with (lit "/") s = true <-> last s = Some slash.
Proof.
  rewrite ends_with_spec. split.
  - intros [r ->]. apply last_snoc.
  - intros H. apply last_Some in H as [r ->]. by exists r.
Qed.

Lemma ends_with_render segs tr :
  segs <> [] -> Forall segment_ok segs -> ends_with (lit "/") (render_segments segs tr) = tr.
Proof.
  intros Hne Hs. unfold render_segments. destruct segs as [|s segs]; [done|]. cbn [is_empty].
  destruct tr.
  - apply ends_with_spec. by exists (lit "/" ++ join (lit "/") (s :: segs)).
  - destruct (ends_with _ _) eqn:E; [|done]. apply ends_with_slash_last in E.
    change (lit "/" ++ join (lit "/") (s :: segs)) with (slash :: join [slash] (s :: segs)) in E.
    assert (Forall (fun p => p <> [] /\ (slash ∉ p)) (s :: segs)) as Hs'.
    { eapply Forall_impl; [exact Hs|]. by intros ? []. }
    assert (join [slash] (s :: segs) <> []) as Hj.
    { apply Forall_cons in Hs' as [[? _] _]. simpl. destruct segs; [done|]. by destruct s. }
    destruct (join [slash] (s :: segs)) as [|x l] eqn:J; [done|].
    exfalso. apply (join_last_elem slash (s :: segs) slash); [by rewrite J|done|done].
Qed.

Lemma elem_of_join b c l : b ∈ join [c] l -> b = c \/ exists p, p ∈ l /\ b ∈ p.
Proof.
  induction l as [|x [|y l] IH]; [set_solver| |].
  - intros H. right. exists x. set_solver.
  - change (join [c] (x :: y :: l)) with (x ++ c :: join [c] (y :: l)).
    intros [H|[->|H]%elem_of_cons]%elem_of_app; [right; exists x; set_solver|by left|].
    destruct (IH H) as [?|(p & ? & ?)]; [by left|right; exists p; set_solver].
Qed.

Lemma elem_of_render b segs tr :
  b ∈ render_segments segs tr -> b = slash \/ exists p, p ∈ segs /\ b ∈ p.
Proof.
  unfold render_segments. destruct segs as [|s segs]; cbn [is_empty]; [set_solver|].
  intros H. assert (b = slash \/ b ∈ join [slash] (s :: segs)) as [->|Hj]; [|by left|].
  { destruct tr; set_solver. }
  by apply elem_of_join in Hj.
Qed.

Lemma canonical_bytes q b : canonical q -> b ∈ q -> is_control b = false /\ b <> "\"%char.
Proof.
  intros (segs & tr & Hs & ->) Hb. apply elem_of_render in Hb as [->|(p & Hp & Hb)]; [done|].
  rewrite Forall_forall in Hs. destruct (Hs p Hp) as [_ _ _ _ Hbs Hc _].
  rewrite Forall_forall in Hc. split; [by apply Hc|]. by intros ->.
Qed.

Lemma canonical_utf8 q : canonical q -> valid_utf8 q = true.
Proof.
  intros (segs & tr & Hs & ->). unfold render_segments.
  destruct segs as [|s segs]; [done|]. cbn [is_empty].
  assert (valid_utf8 (join (lit "/") (s :: segs)) = true) as Hj.
  { apply valid_utf8_join; [by vm_compute|]. eapply Forall_impl; [exact Hs|]. by intros ? []. }
  destruct tr.
  - by apply valid_utf8_app, valid_utf8_app.
  - by apply valid_utf8_app.
Qed.

Lemma render_starts segs tr : exists r, render_segments segs tr = slash :: r.
Proof. unfold render_segments. destruct segs; [by eexists|]. destruct tr; by eexists. Qed.

Lemma replace_backslash_id s : ("\"%char ∉ s) -> replace_char "\"%char (lit "/") s = s.
Proof.
  induction s as [|b s IH]; intros H; [done|].
  change (replace_char "\"%char (lit "/") (b :: s)) with
    ((if beq b "\"%char then lit "/" else [b]) ++ replace_char "\"%char (lit "/") s).
  rewrite IH by set_solver. destruct (beq b "\"%char) eqn:E; [apply beq_true in E; set_solver|done].
Qed.

(** ** Properties of path canonicalisation *)

(** The run behind a successful canonicalisation. *)
Lemma canonicalize_inv p q :
  canonicalize_path p = Ok q ->
  (p = [] /\ q = lit "/") \/
  exists d e, starts_with (lit "/") p = true /\ decode_rounds 4 p = Ok d /\
    existsb is_control d = false /\ e = replace_char "\"%char (lit "/") d /\
    Forall segment_ok (path_segments e) /\
    q = render_segments (path_segments e) (ends_with (lit "/") e).
Proof.
  unfold canonicalize_path. intros H.
  destruct p as [|b p]; [left; split; [done|by injection H as <-]|right]. cbn [is_empty] in H.
  destruct (starts_with (lit "/") (b :: p)) eqn:Es; [|done]. cbn [negb] in H.
  destruct (decode_rounds 4 (b :: p)) as [d|] eqn:D; [|done].
  destruct (existsb is_control d) eqn:C; [done|]. exists d, (replace_char "\"%char (lit "/") d).
  split; [done|]. split; [done|]. split; [done|]. split; [done|].
  split; [|by injection H as <-].
  apply path_segments_ok, decoded_pieces_ok; [done|]. by eapply decode_rounds_valid.
Qed.

Lemma canonicalize_result_canonical p q : canonicalize_path p = Ok q -> canonical q.
Proof.
  intros [[_ ->]|(d & e & _ & _ & _ & _ & Hok & ->)]%canonicalize_inv; [by exists [], false|].
  by eexists _, _.
Qed.

(** C27: Every path the canonicaliser accepts is canonical: it starts with a
    slash, its segments are non-empty, none of them is [.] or [..], none
    holds a slash, a backslash or a control character, every one is valid
    UTF-8, and at most one slash trails.  So no plain traversal is left in it.
    Escapes are undone at most four times: dots that are percent-encoded more
    often than that are in the result as escapes, and a server that decodes
    them once more sees a traversal. *)
Theorem canonicalize_path_canonical p q : canonicalize_path p = Ok q -> canonical q.
Proof. apply canonicalize_result_canonical. Qed.

Lemma canonicalize_path_canonical_witness :
  canonical (lit "/admin/x").
Proof. apply (canonicalize_path_canonical (lit "/api/%2e%2e\admin/./x")). vm_compute. reflexivity. Defined.

Lemma canonicalize_fix q : canonical q -> percent ∉ q -> canonicalize_path q = Ok q.
Proof.
  intros Hq Hp. pose proof (canonical_utf8 q Hq) as Hu.
  assert (existsb is_control q = false) as Hc.
  { destruct (existsb is_control q) eqn:E; [|done]. apply existsb_exists in E as (b & Hb & E).
    apply list_elem_of_In in Hb. destruct (canonical_bytes q b Hq Hb) as [? _]. congruence. }
  assert ("\"%char ∉ q) as Hbs.
  { intros Hb. by destruct (canonical_bytes q _ Hq Hb). }
  unfold canonicalize_path. destruct Hq as (segs & tr & Hs & ->).
  destruct (render_starts segs tr) as [r Hr].
  rewrite decode_rounds_id, Hc, replace_backslash_id, path_segments_render by done.
  rewrite Hr. cbn [is_empty]. replace (starts_with (lit "/") (slash :: r)) with true by done.
  cbn [negb]. rewrite <- Hr. f_equal.
  destruct (decide (segs = [])) as [->|Hne]; [done|]. by rewrite ends_with_render.
Qed.

(** Canonicalisation is idempotent on every result that has no escape
    left: a path that was canonicalised once is not changed by a second pass. *)
Theorem canonicalize_path_idempotent p q :
  canonicalize_path p = Ok q -> percent ∉ q -> canonicalize_path q = Ok q.
Proof. intros H. apply canonicalize_fix. by eapply canonicalize_result_canonical. Qed.

Lemma canonicalize_path_idempotent_witness : canonicalize_path (lit "/a/b/") = Ok (lit "/a/b/").
Proof.
  apply (canonicalize_path_idempotent (lit "//a/%2E/b/")); [vm_compute; reflexivity|].
  by_decide.
Defined.

(** The four decoding rounds are all used before an escape can survive:
    a result that still holds a percent sign comes from an input that four
    successive decodings all changed. *)
Theorem canonicalize_path_residual p q :
  canonicalize_path p = Ok q -> percent ∈ q -> exists d, decodes 4 p d /\ percent ∈ d.
Proof.
  intros [[_ ->]|(d & e & _ & D & _ & -> & _ & ->)]%canonicalize_inv Hq; [set_solver|].
  assert (percent ∈ d) as Hd.
  { apply elem_of_render in Hq as [?|(s & Hs & Hb)]; [done|].
    apply path_segments_subset in Hs.
    pose proof (split_pieces_subset slash (replace_char "\"%char (lit "/") d)) as Hsub.
    rewrite Forall_forall in Hsub. specialize (Hsub s Hs percent Hb).
    by apply elem_of_replace_backslash in Hsub as [_ [?|?]]. }
  exists d. split; [|done]. by destruct (decode_rounds_spec _ _ _ D).
Qed.

Lemma canonicalize_path_residual_witness :
  exists d, decodes 4 (lit "/%25252525412e") d /\ percent ∈ d.
Proof.
  apply (canonicalize_path_residual _ (lit "/%412e")); [vm_compute; reflexivity|].
  by_decide.
Defined.

(** ** The gaps of the fixed number of decoding rounds *)

(** An encoded literal percent sign is refused: the second decoding round
    reads the decoded byte as the start of an escape, so [/100%25], the
    correct encoding of the path [/100%], has no canonical form. *)
Theorem canonicalize_literal_percent_rejected s :
  percent ∉ s -> valid_utf8 s = true ->
  canonicalize_path (lit "/" ++ s ++ lit "%25") = Err invalid_percent.
Proof.
  intros Hp Hv. unfold canonicalize_path. cbn [lit String.list_ascii_of_string app is_empty].
  change (starts_with _ _) with true. cbn [negb]. set (t := slash :: s).
  assert (forall u r, percent ∉ u -> percent_decode (u ++ r) =
            (let? o := percent_decode r in Ok (u ++ o))) as Hd.
  { induction u as [|b u IH]; intros r Hu; simpl; [by destruct (percent_decode r)|].
    destruct (beq b "%") eqn:E; [apply beq_true in E; set_solver|].
    rewrite IH by set_solver. by destruct (percent_decode r). }
  assert (percent ∉ t) as Ht by set_solver.
  change ("/"%char :: s ++ ["%"%char; "2"%char; "5"%char]) with (t ++ lit "%25").
  assert (percent_decode_utf8 (t ++ lit "%25") = Ok (t ++ lit "%")) as E1.
  { unfold percent_decode_utf8. rewrite Hd by done. cbn [lit String.list_ascii_of_string].
    change (percent_decode _) with (@Ok rstr rstr ["%"%char]). cbv iota.
    rewrite valid_utf8_app; [done| |done]. unfold t. by rewrite valid_utf8_ascii. }
  change (decode_rounds 4 ?x) with
    (let? next := percent_decode_utf8 x in if next =s? x then Ok next else decode_rounds 3 next).
  rewrite E1. replace (t ++ lit "%" =s? t ++ lit "%25") with false
    by (symmetry; apply seqb_false; intros [=]%app_inv_head).
  change (decode_rounds 3 ?x) with
    (let? next := percent_decode_utf8 x in if next =s? x then Ok next else decode_rounds 2 next).
  unfold percent_decode_utf8 at 1. by rewrite Hd.
Qed.

Lemma canonicalize_literal_percent_rejected_witness :
  canonicalize_path (lit "/100%25") = Err invalid_percent.
Proof.
  apply (canonicalize_literal_percent_rejected (lit "100")); [by_decide|].
  vm_compute. reflexivity.
Defined.

(** A five-fold encoding of [..] keeps its last escape. *)
Example canonicalize_five_fold :
  canonicalize_path (lit "/a/%252525252e%252525252e/b") = Ok (lit "/a/%2e%2e/b") /\
  canonicalize_path (lit "/a/%2e%2e/b") = Ok (lit "/b").
Proof. vm_compute. split; reflexivity. Qed.

(** ** Prefix matching *)

Lemma trailing_slash_free s : last s <> Some slash -> trim_end_matches slash s = s.
Proof. intros H. apply trim_end_matches_id. destruct (last s); [congruence|done]. Qed.

(** A path route whose prefix has no trailing slash matches a path
    exactly when the segments of the prefix are the first segments of the
    path: [/api] matches [/api] and [/api/x] and never [/apix]. *)
Theorem PathRoute_matches_segments pr path :
  last (pr_prefix pr) <> Some slash ->
  PathRoute_matches pr path = true <->
  split slash (pr_prefix pr) `prefix_of` split slash path.
Proof.
  intros Hl. unfold PathRoute_matches.
  destruct (pr_prefix pr =s? lit "/") eqn:E.
  { apply seqb_true in E. by rewrite E in Hl. }
  rewrite trailing_slash_free, orb_true_iff, seqb_true, starts_with_spec by done.
  set (q := pr_prefix pr). split.
  - intros [->|[r ->]]; [by exists []; rewrite app_nil_r|].
    exists (split slash r). rewrite <- app_assoc. apply (split_app slash).
  - intros [k Hk]. pose proof (join_split slash path) as Hj. rewrite Hk in Hj.
    destruct k as [|x k]; [left; by rewrite app_nil_r, join_split in Hj|right].
    rewrite join_app, join_split in Hj by auto with pxxl.
    exists (join [slash] (x :: k)). by rewrite <- Hj, <- app_assoc.
Qed.

Lemma PathRoute_matches_segments_witness :
  PathRoute_matches (PathRoute_new (lit "api/v1/") []) (lit "/api/v1/x") = true.
Proof.
  apply PathRoute_matches_segments; [by vm_compute|]. by exists [lit "x"].
Defined.

(** ** What decoding and canonicalisation preserve *)

Lemma last_cons_some {A} (x : A) l y : last l = Some y -> last (x :: l) = Some y.
Proof. destruct l; [done|]. done. Qed.

Lemma percent_decode_last s t :
  percent_decode s = Ok t -> last s = Some slash -> last t = Some slash.
Proof.
  revert t. induction s as [s IH] using (induction_ltof1 _ (@length ascii)). intros t H Hl.
  destruct s as [|b s]; [done|]. cbn [percent_decode] in H.
  destruct (beq b "%") eqn:E.
  - destruct s as [|h [|l s]]; [done..|].
    destruct (hex_value h); [|done]. destruct (hex_value l) eqn:El; [|done].
    destruct (percent_decode s) as [out|] eqn:D; [|done]. simplify_eq.
    destruct s as [|x s]; [simpl in Hl; simplify_eq|].
    apply last_cons_some, (IH (x :: s)); [unfold ltof; simpl; lia|done..].
  - destruct (percent_decode s) as [out|] eqn:D; [|done]. simplify_eq.
    destruct s as [|x s]; [simpl in *; by simplify_eq|].
    apply last_cons_some, (IH (x :: s)); [unfold ltof; simpl; lia|done..].
Qed.

Lemma percent_decode_utf8_inv s t : percent_decode_utf8 s = Ok t -> percent_decode s = Ok t.
Proof. unfold percent_decode_utf8. intros H. by case_in H. Qed.

Lemma decode_rounds_last n s t :
  decode_rounds n s = Ok t -> last s = Some slash -> last t = Some slash.
Proof.
  revert s; induction n as [|n IH]; intros s H Hl; simpl in H; [by simplify_eq|].
  destruct (percent_decode_utf8 s) as [next|] eqn:D; [|done].
  apply percent_decode_utf8_inv in D. pose proof (percent_decode_last _ _ D Hl).
  destruct (next =s? s); [by simplify_eq|eauto].
Qed.

Lemma decode_rounds_length n s t :
  decode_rounds n s = Ok t ->
  (length t <= length s)%nat /\ (percent ∈ s -> n <> O -> (length t < length s)%nat).
Proof.
  revert s; induction n as [|n IH]; intros s H; simpl in H; [by simplify_eq|].
  destruct (percent_decode_utf8 s) as [next|] eqn:D; [|done].
  apply percent_decode_utf8_inv, percent_decode_length in D as [D1 D2].
  destruct (next =s? s); [simplify_eq; split; [lia|intros Hp _; by apply D2]|].
  destruct (IH next H) as [? _]. split; [lia|]. intros Hp _. specialize (D2 Hp). lia.
Qed.

Lemma replace_backslash_last s :
  last s = Some slash -> last (replace_char "\"%char (lit "/") s) = Some slash.
Proof.
  intros H. apply last_Some in H as [r ->]. unfold replace_char. rewrite flat_map_app.
  apply last_snoc.
Qed.

Lemma replace_backslash_length s :
  length (replace_char "\"%char (lit "/") s) = length s.
Proof.
  induction s as [|b s IH]; [done|].
  change (replace_char "\"%char (lit "/") (b :: s)) with
    ((if beq b "\"%char then lit "/" else [b]) ++ replace_char "\"%char (lit "/") s).
  rewrite length_app, IH. by destruct (beq b "\"%char).
Qed.

(** The number of bytes of a list of pieces with one separator each. *)
Definition weight (l : list rstr) : nat := foldr (fun s n => S (length s + n)) O l.

Lemma weight_app l k : weight (l ++ k) = (weight l + weight k)%nat.
Proof. induction l as [|x l IH]; simpl; [done|]. rewrite IH. lia. Qed.

Lemma weight_reverse l : weight (reverse l) = weight l.
Proof.
  induction l as [|x l IH]; [done|]. rewrite reverse_cons, weight_app, IH. simpl. lia.
Qed.

Lemma weight_join c l : l <> [] -> S (length (join [c] l)) = weight l.
Proof.
  induction l as [|x [|y l] IH]; intros H; [done|simpl; lia|].
  change (join [c] (x :: y :: l)) with (x ++ c :: join [c] (y :: l)).
  rewrite length_app. cbn [length]. rewrite IH by done. cbn [weight foldr]. lia.
Qed.

Lemma push_segments_weight l acc :
  (weight (foldl push_segment acc l) <= weight acc + weight l)%nat.
Proof.
  revert acc; induction l as [|x l IH]; intros acc; [simpl; lia|].
  cbn [foldl]. etransitivity; [apply IH|].
  assert (weight (push_segment acc x) <= S (length x) + weight acc)%nat; [|simpl; lia].
  unfold push_segment. destruct (is_empty x || _); [lia|].
  destruct (x =s? _); [destruct acc; simpl; lia|simpl; lia].
Qed.

Lemma render_length d :
  (length (render_segments (path_segments (slash :: d)) false) <= S (length d))%nat.
Proof.
  set (l := path_segments (slash :: d)).
  assert (weight l <= S (length d))%nat as Hw.
  { unfold l, path_segments. rewrite weight_reverse.
    change (slash :: d) with ([] ++ slash :: d). rewrite split_app_sep by set_solver.
    cbn [foldl]. change (push_segment [] []) with (@nil rstr).
    etransitivity; [apply push_segments_weight|]. simpl.
    rewrite <- (weight_join slash) by apply split_nonempty. by rewrite join_split. }
  clearbody l. unfold render_segments. destruct l as [|x l]; [simpl; lia|]. cbn [is_empty].
  rewrite length_app. change (lit "/") with [slash]. rewrite <- (weight_join slash) in Hw by done.
  simpl length at 1. lia.
Qed.
