(* ===== verification/CommonValidate.v ===== *)
(** Routes and their validation in the [common] crate: [Route::new],
    [matches_host], [best_path], the checks of domains, path prefixes and
    upstreams, and the two whole-route validators.  The [url] and [ipnet]
    crates are the classes [UrlLib] and [IpNetLib]; [env] is
    [std::env::var(..).ok()].  The maps of the rules are [HashMap]s, whose
    iteration order is unspecified: [map_to_list] fixes one order, which only
    matters for the choice of the error that is reported. *)
From stdpp Require Import options.
From S2P Require Import Prelude RustStr RustNet CommonTypes CommonPath.

Local Open Scope Z_scope.

Section validate.
Context {NL : IpNetLib} {UL : UrlLib}.
Variable env : rstr -> option rstr.

(** ** Routes *)

Definition Route_new (uuid : rstr) (now : Z) (domain : rstr) (paths : list PathRoute)
    (source : RouteSource) : Route := {|
  r_id := uuid;
  r_domain := normalize_domain domain;
  r_paths := if is_empty paths then [PathRoute_new (lit "/") []] else paths;
  r_tls := true;
  r_algorithm := RoundRobin;
  r_rules := DomainRules_default;
  r_source := source;
  r_route_version := 0;
  r_created_at := now;
  r_updated_at := now |}.

Definition matches_host (r : Route) (host : rstr) : bool :=
  match host_without_port host with
  | Some candidate => eq_ignore_ascii_case candidate (r_domain r)
  | None => false
  end.

Definition best_path (r : Route) (path : rstr) : option PathRoute :=
  max_by_key (fun pr => str_len (pr_prefix pr))
    (filter (fun pr => PathRoute_matches pr path = true) (r_paths r)).

Definition all_upstreams (r : Route) : list Upstream :=
  flat_map pr_upstreams (r_paths r)
  ++ flat_map lr_upstreams (dr_location_routes (r_rules r))
  ++ flat_map ts_upstreams (dr_traffic_splits (r_rules r))
  ++ tm_upstreams (dr_traffic_mirroring (r_rules r)).

(** ** Domains and path prefixes *)

Definition domain_bad_byte (b : ascii) : bool :=
  (bz b <=? 32) || (bz b =? 127) || beq b "/"%char || beq b "\"%char || beq b "@"%char.

Definition label_byte (b : ascii) : bool :=
  is_ascii_alphanumeric b || beq b "-"%char || beq b "_"%char.

Definition validate_label (label : rstr) : result rstr unit :=
  if is_empty label || (63 <? str_len label) then Err (lit "domain label is invalid")
  else if starts_with (lit "-") label || ends_with (lit "-") label
  then Err (lit "domain label cannot start or end with '-'")
  else if negb (forallb label_byte label) then Err (lit "domain label contains invalid characters")
  else Ok tt.

Definition validate_domain_name (domain : rstr) : result rstr unit :=
  let normalized := normalize_domain domain in
  if is_empty normalized then Err (lit "domain is required")
  else if 253 <? str_len normalized then Err (lit "domain is too long")
  else if existsb domain_bad_byte normalized then Err (lit "domain contains invalid characters")
  else if starts_with (lit ".") normalized || contains (lit "..") normalized
  then Err (lit "domain has empty labels")
  else for_each validate_label (split "."%char normalized).

Definition validate_path_prefix (prefix : rstr) : result rstr unit :=
  if is_empty prefix || negb (starts_with (lit "/") prefix)
  then Err (lit "path prefix must start with '/'")
  else
    let? canonical := canonicalize_path prefix in
    if negb (canonical =s? normalize_path_prefix prefix)
    then Err (lit "path prefix must already be canonical")
    else Ok tt.

(** ** Upstreams *)

Definition private_upstreams_allowed : bool :=
  match env (lit "PXXL_ALLOW_PRIVATE_UPSTREAMS") with
  | Some value =>
    existsb (seq_eqb (to_ascii_lowercase value)) (lits ["1"; "true"; "yes"; "on"])
  | None => false
  end.

Definition ip_allowed_for_upstream (ip : IpAddr) : bool :=
  match ip with
  | V4 ip =>
    negb (v4_is_private ip || v4_is_loopback ip || v4_is_link_local ip || v4_is_multicast ip
          || v4_is_broadcast ip || v4_is_unspecified ip || (ip =? v4 169 254 169 254))
  | V6 ip =>
    negb (v6_is_loopback ip || v6_is_multicast ip || v6_is_unspecified ip
          || (Z.land (segment 0 ip) 0xfe00 =? 0xfc00)
          || (Z.land (segment 0 ip) 0xffc0 =? 0xfe80))
  end.

Definition is_control_or_space (b : ascii) : bool := (bz b <=? 32) || (bz b =? 127).

Definition private_ip_error : rstr :=
  lit "private, loopback, link-local, multicast, or unspecified upstream IP is not allowed".

Definition validate_upstream_host (host : rstr) : result rstr unit :=
  let host := to_ascii_lowercase (trim_end_matches "."%char host) in
  if is_empty host then Err (lit "upstream host is required")
  else if (host =s? lit "localhost") || ends_with (lit ".localhost") host
  then Err (lit "loopback upstream host is not allowed")
  else if existsb is_control_or_space host then Err (lit "upstream host contains invalid characters")
  else
    match parse_ip host with
    | Some ip =>
      if negb private_upstreams_allowed && negb (ip_allowed_for_upstream ip)
      then Err private_ip_error else Ok tt
    | None => Ok tt
    end.

Definition url_parse_upstream (raw : rstr) : result rstr Url :=
  map_err (fun e => lit "invalid upstream URL: " ++ e) (url_parse raw).

Definition validate_upstream_url (raw : rstr) : result rstr unit :=
  if 2048 <? str_len raw then Err (lit "upstream URL is too long")
  else if existsb is_control_or_space raw
  then Err (lit "upstream URL contains control or whitespace characters")
  else
    let? parsed := url_parse_upstream raw in
    if negb ((url_scheme parsed =s? lit "http") || (url_scheme parsed =s? lit "https"))
    then Err (lit "upstream URL scheme must be http or https")
    else if negb (is_empty (url_username parsed))
            || match url_password parsed with Some _ => true | None => false end
    then Err (lit "upstream URL must not contain credentials")
    else if match url_fragment parsed with Some _ => true | None => false end
    then Err (lit "upstream URL must not contain a fragment")
    else
      match url_host_str parsed with
      | None => Err (lit "upstream URL needs a host")
      | Some host => validate_upstream_host host
      end.

Definition validate_upstream (u : Upstream) : result rstr unit :=
  do? validate_upstream_url (u_url u) in
  if bool_decide (u_transport u <> UpstreamTransport_default)
  then Err (lit "upstream transport options are not enforced yet")
  else Ok tt.

Definition RESERVED_CONTROL_PLANE_HOSTS : list rstr :=
  lits ["redis"; "postgres"; "clickhouse"; "prometheus"; "grafana"; "loki"; "promtail";
        "pxxl-proxy-edge"; "edge"].

Definition validate_dynamic_upstream_url (raw : rstr) : result rstr unit :=
  do? validate_upstream_url raw in
  let? parsed := url_parse_upstream raw in
  match url_host_str parsed with
  | None => Err (lit "upstream URL needs a host")
  | Some host =>
    let host := to_ascii_lowercase (trim_end_matches "."%char host) in
    if existsb (seq_eqb host) RESERVED_CONTROL_PLANE_HOSTS
    then Err (lit "reserved control-plane upstream host is not allowed: " ++ host)
    else Ok tt
  end.

Definition validate_dynamic_upstream (u : Upstream) : result rstr unit :=
  do? validate_upstream u in validate_dynamic_upstream_url (u_url u).

(** ** Rules and whole routes *)

Definition guard_err (bad : bool) (msg : rstr) : result rstr unit :=
  if bad then Err msg else Ok tt.

Definition validate_location_route (r : LocationRouteRule) : result rstr unit :=
  do? guard_err (MAX_UPSTREAMS_PER_ROUTE <? Z.of_nat (length (lr_upstreams r)))
        (lit "location route has too many upstreams: max 128") in
  for_each validate_upstream (lr_upstreams r).

Definition validate_traffic_split (r : TrafficSplitRule) : result rstr unit :=
  do? guard_err (MAX_UPSTREAMS_PER_ROUTE <? Z.of_nat (length (ts_upstreams r)))
        (lit "traffic split has too many upstreams: max 128") in
  for_each validate_upstream (ts_upstreams r).

Definition validate_forward_auth (m : MiddlewareDefinition) : result rstr unit :=
  match md_forward_auth m with
  | Some fa =>
    if fa_enabled fa then
      do? guard_err (negb (is_empty (fa_response_headers fa)))
            (lit "forward_auth response_headers are not enforced yet") in
      validate_upstream_url (fa_url fa)
    else Ok tt
  | None => Ok tt
  end.

Definition validate_rules_for_runtime (d : DomainRules) : result rstr unit :=
  do? guard_err (bool_decide (dr_services d <> ∅))
        (lit "weighted service composition is not enforced yet") in
  do? guard_err (bool_decide (dr_upstream_transport d <> UpstreamTransport_default))
        (lit "default upstream transport options are not enforced yet") in
  do? guard_err (bool_decide (dr_tls_options d <> RouterTlsOptions_default))
        (lit "per-router TLS options are not enforced yet") in
  do? guard_err (bool_decide (dr_acme d <> AcmeConfig_default))
        (lit "ACME options are not enforced yet") in
  do? guard_err (bool_decide (dr_tcp d <> TcpRoutingConfig_default))
        (lit "TCP routing options are not enforced yet") in
  do? guard_err (bool_decide (dr_udp d <> UdpRoutingConfig_default))
        (lit "UDP routing options are not enforced yet") in
  do? guard_err (bool_decide (dr_http3 d <> Http3Config_default))
        (lit "HTTP/3 options are not enforced yet") in
  do? for_each validate_location_route (dr_location_routes d) in
  do? for_each validate_traffic_split (dr_traffic_splits d) in
  do? guard_err (MAX_MIRROR_UPSTREAMS_PER_ROUTE <?
                   Z.of_nat (length (tm_upstreams (dr_traffic_mirroring d))))
        (lit "traffic mirroring has too many upstreams: max 16") in
  do? for_each validate_upstream (tm_upstreams (dr_traffic_mirroring d)) in
  for_each validate_forward_auth (snd <$> map_to_list (dr_middlewares d)).

Definition validate_path (p : PathRoute) : result rstr unit :=
  do? validate_path_prefix (pr_prefix p) in
  do? guard_err (is_empty (pr_upstreams p))
        (lit "path " ++ pr_prefix p ++ lit " needs at least one upstream") in
  do? guard_err (MAX_UPSTREAMS_PER_ROUTE <? Z.of_nat (length (pr_upstreams p)))
        (lit "path " ++ pr_prefix p ++ lit " has too many upstreams: max 128") in
  for_each validate_upstream (pr_upstreams p).

Definition validate_for_runtime (r : Route) : result rstr unit :=
  do? validate_domain_name (r_domain r) in
  do? guard_err (is_empty (r_paths r)) (lit "route needs at least one path") in
  do? guard_err (MAX_PATHS_PER_ROUTE <? Z.of_nat (length (r_paths r)))
        (lit "route has too many paths: max 64") in
  do? for_each validate_path (r_paths r) in
  validate_rules_for_runtime (r_rules r).

Definition validate_dynamic_forward_auth (m : MiddlewareDefinition) : result rstr unit :=
  match md_forward_auth m with
  | Some fa => if fa_enabled fa then validate_dynamic_upstream_url (fa_url fa) else Ok tt
  | None => Ok tt
  end.

Definition validate_for_dynamic_control_plane (r : Route) : result rstr unit :=
  do? validate_for_runtime r in
  do? for_each validate_dynamic_upstream (all_upstreams r) in
  for_each validate_dynamic_forward_auth (snd <$> map_to_list (dr_middlewares (r_rules r))).

(** ** Networks *)

(** The text of [AddrParseError]. *)
Definition addr_parse_error : rstr := lit "invalid IP address syntax".

Definition parse_ip_net (value : rstr) : result rstr IpNet :=
  match net_from_str value with
  | Ok network => Ok network
  | Err _ =>
    match parse_ip value with
    | Some (V4 ip) => ipv4net_new ip 32
    | Some (V6 ip) => ipv6net_new ip 128
    | None => Err addr_parse_error
    end
  end.
End validate.

(** ** Path prefixes *)

Lemma strip_seqs_keep b n seqs s :
  Forall (fun w => b ∉ w) seqs -> b ∈ s -> b ∈ strip_seqs n seqs s.
Proof.
  intros Hw. revert s; induction n as [|n IH]; intros s Hs; simpl; [done|].
  destruct (find_map _ seqs) as [r|] eqn:E; [|done]. apply IH.
  apply find_map_Some in E as (w & Hin & E). apply strip_prefix_Some in E as ->.
  rewrite Forall_forall in Hw. specialize (Hw w Hin). set_solver.
Qed.

Lemma trim_keeps_slash s : slash ∈ s -> slash ∈ trim s.
Proof.
  intros Hs. unfold trim, trim_start, trim_end. rewrite elem_of_reverse.
  apply strip_seqs_keep; [by_decide|]. rewrite elem_of_reverse.
  apply strip_seqs_keep; [by_decide|done].
Qed.

Lemma normalize_prefix_slash s :
  slash :: s <> lit "/" -> normalize_path_prefix (slash :: s) = trim_end_matches slash (slash :: s).
Proof.
  intros H. unfold normalize_path_prefix.
  destruct (trim (slash :: s)) as [|b l] eqn:E.
  { pose proof (trim_keeps_slash (slash :: s) ltac:(set_solver)) as Hs. rewrite E in Hs. set_solver. }
  cbn [is_empty orb]. by rewrite (proj2 (seqb_false _ _) H).
Qed.

Lemma starts_with_slash s : starts_with (lit "/") s = true -> exists r, s = slash :: r.
Proof. rewrite starts_with_spec. by intros [r ->]; exists r. Qed.

Lemma decode_rounds_first n s t : decode_rounds n (slash :: s) = Ok t -> exists r, t = slash :: r.
Proof.
  revert s; induction n as [|n IH]; intros s H; cbn [decode_rounds] in H; [by eexists; injection H|].
  destruct (percent_decode_utf8 (slash :: s)) as [next|] eqn:D; [|done].
  apply percent_decode_utf8_inv in D.
  change (percent_decode (slash :: s)) with
    (let? o := percent_decode s in @Ok rstr _ (slash :: o)) in D.
  destruct (percent_decode s) as [o|]; [|done]. injection D as <-.
  destruct (_ =s? _) in H; [injection H as <-; by eexists|by eapply IH].
Qed.

(** A prefix the validator accepts has no trailing slash, unless it is the root. *)
Lemma validated_no_trailing p q :
  canonicalize_path p = Ok q -> q = trim_end_matches slash p -> last p <> Some slash.
Proof.
  intros Hc Hq Hl.
  assert (last q <> Some slash) as Hlast.
  { subst q. intros E. by apply trim_end_matches_last in E. }
  apply canonicalize_inv in Hc as [[-> _]|(d & e & _ & D & _ & He & Hok & Hc)]; [done|].
  pose proof (decode_rounds_last _ _ _ D Hl) as Hd.
  apply replace_backslash_last in Hd. rewrite <- He in Hd.
  apply ends_with_slash_last in Hd. rewrite Hd in Hc. apply Hlast. rewrite Hc.
  destruct (decide (path_segments e = [])) as [->|Hne]; [done|].
  apply ends_with_slash_last. by rewrite ends_with_render.
Qed.

Lemma fixpoint_no_percent p :
  canonicalize_path p = Ok p -> p <> lit "/" -> last p <> Some slash -> percent ∉ p.
Proof.
  intros Hc Hp Hl Hin.
  apply canonicalize_inv in Hc as [[-> ?]|(d & e & Es & D & _ & He & Hok & Hc)]; [done|].
  pose proof (decode_rounds_length _ _ _ D) as [_ Hlen]. specialize (Hlen Hin ltac:(lia)).
  rewrite <- (replace_backslash_length d), <- He in Hlen.
  destruct (ends_with (lit "/") e) eqn:Ee.
  { destruct (decide (path_segments e = [])) as [E0|E0]; [apply Hp; by rewrite Hc, E0|].
    apply Hl. rewrite Hc. apply ends_with_slash_last. by rewrite ends_with_render. }
  assert (exists r, e = slash :: r) as [r Hr].
  { apply starts_with_slash in Es as [r0 ->].
    destruct (decode_rounds_first _ _ _ D) as [r ->]. eexists. exact He. }
  pose proof (render_length r) as Hrl. rewrite <- Hr, <- Hc in Hrl.
  rewrite Hr in Hlen. simpl in Hlen. lia.
Qed.

Lemma validate_path_prefix_spec p :
  validate_path_prefix p = Ok tt <->
  canonical p /\ (percent ∉ p) /\ (p = lit "/" \/ last p <> Some slash).
Proof.
  unfold validate_path_prefix. split.
  - intros H. destruct (is_empty p) eqn:Ep; [done|]. cbn [orb] in H.
    destruct (starts_with (lit "/") p) eqn:Es; [|done]. cbn [negb] in H.
    destruct (canonicalize_path p) as [q|] eqn:Hc; [|done].
    destruct (q =s? normalize_path_prefix p) eqn:E; [|done]. clear H. apply seqb_true in E.
    pose proof (canonicalize_result_canonical _ _ Hc) as Hcan.
    destruct (decide (p = lit "/")) as [->|Hp].
    { split; [by exists [], false|]. split; [set_solver|by left]. }
    apply starts_with_slash in Es as [r ->]. rewrite normalize_prefix_slash in E by done.
    pose proof (validated_no_trailing _ _ Hc E) as Hl.
    rewrite trailing_slash_free in E by done. subst q.
    split; [done|]. split; [by apply fixpoint_no_percent|by right].
  - intros (Hcan & Hp & Ht). rewrite canonicalize_fix by done.
    destruct Hcan as (segs & tr & Hs & Hpeq). destruct (render_starts segs tr) as [r Hr].
    rewrite Hr in Hpeq. subst p. cbn [is_empty orb].
    replace (starts_with (lit "/") (slash :: r)) with true by done. cbn [negb].
    replace (normalize_path_prefix (slash :: r)) with (slash :: r); [by rewrite seqb_refl|].
    destruct (decide (slash :: r = lit "/")) as [->|Hne]; [done|].
    rewrite normalize_prefix_slash, trailing_slash_free; [done| |done]. by destruct Ht.
Qed.

(** The prefix validator accepts exactly the canonical prefixes: no
    escape, no special segment, no doubled or trailing slash (the root [/]
    apart), so that what a route stores is what a canonical request path is
    compared with. *)
Theorem validate_path_prefix_exact p :
  validate_path_prefix p = Ok tt <->
  canonical p /\ (percent ∉ p) /\ (p = lit "/" \/ last p <> Some slash).
Proof. apply validate_path_prefix_spec. Qed.

(** ** Choosing a path *)

Lemma best_path_spec {NL : IpNetLib} (r : Route) (path : rstr) :
  match best_path r path with
  | Some pr => pr ∈ r_paths r /\ PathRoute_matches pr path = true /\
      forall pr', pr' ∈ r_paths r -> PathRoute_matches pr' path = true ->
        (length (pr_prefix pr') <= length (pr_prefix pr))%nat
  | None => forall pr', pr' ∈ r_paths r -> PathRoute_matches pr' path = false
  end.
Proof.
  unfold best_path. destruct (max_by_key _ _) as [pr|] eqn:E.
  - apply max_by_key_Some in E as [Hin Hmax]. apply list_elem_of_filter in Hin as [Hm Hin].
    split; [done|]. split; [done|]. intros pr' Hin' Hm'.
    rewrite Forall_forall in Hmax. specialize (Hmax pr').
    rewrite list_elem_of_filter in Hmax. specialize (Hmax (conj Hm' Hin')).
    unfold str_len in Hmax. lia.
  - apply max_by_key_None in E. intros pr' Hin'.
    destruct (PathRoute_matches pr' path) eqn:Em; [|done].
    assert (pr' ∈ @nil PathRoute) as Hnil; [|set_solver].
    rewrite <- E. by apply list_elem_of_filter.
Qed.

(** [best_path] gives the longest matching prefix: its result is a path of
    the route that matches and no matching path has a longer prefix; it gives
    nothing exactly when no path of the route matches. *)
Theorem best_path_longest {NL : IpNetLib} (r : Route) (path : rstr) :
  match best_path r path with
  | Some pr => pr ∈ r_paths r /\ PathRoute_matches pr path = true /\
      forall pr', pr' ∈ r_paths r -> PathRoute_matches pr' path = true ->
        (length (pr_prefix pr') <= length (pr_prefix pr))%nat
  | None => forall pr', pr' ∈ r_paths r -> PathRoute_matches pr' path = false
  end.
Proof. apply best_path_spec. Qed.

(** ** Domains *)

Record valid_label (l : rstr) : Prop := {
  vl_nonempty : l <> [];
  vl_length : (length l <= 63)%nat;
  vl_bytes : Forall (fun b => label_byte b = true) l;
  vl_first : starts_with (lit "-") l = false;
  vl_last : ends_with (lit "-") l = false;
}.
Definition valid_domain (d : rstr) : Prop :=
  (length d <= 253)%nat /\ Forall valid_label (split "."%char d).

Lemma validate_label_ok l : validate_label l = Ok tt <-> valid_label l.
Proof.
  unfold validate_label, str_len. split.
  - intros H. destruct (is_empty l) eqn:E1; [done|]. cbn [orb] in H.
    destruct (63 <? _) eqn:E2; [done|].
    destruct (starts_with (lit "-") l) eqn:E3; [done|]. cbn [orb] in H.
    destruct (ends_with (lit "-") l) eqn:E4; [done|].
    destruct (forallb label_byte l) eqn:E5; [|done]. bools.
    split; [by destruct l|lia| |done|done].
    apply Forall_forall. rewrite forallb_forall in E5. intros b Hb. apply E5.
    by apply list_elem_of_In.
  - intros [H1 H2 H3 H4 H5]. destruct l as [|b l]; [done|]. cbn [is_empty orb].
    rewrite (proj2 (Z.ltb_ge _ _)) by lia. rewrite H4, H5. cbn [orb].
    replace (forallb label_byte (b :: l)) with true; [done|]. symmetry.
    apply forallb_forall. intros x Hx. rewrite Forall_forall in H3. apply H3.
    by apply list_elem_of_In.
Qed.

Lemma contains_spec p s : contains p s = true -> exists a b, s = a ++ p ++ b.
Proof.
  induction s as [|c s IH]; cbn [contains]; rewrite orb_true_iff.
  - intros [[r H]%starts_with_spec|?]; [by exists [], r|done].
  - intros [[r H]%starts_with_spec|H]; [by exists [], r|].
    destruct (IH H) as (a & b & ->). by exists (c :: a), b.
Qed.

(** A byte of a valid domain is a dot or a label byte, so visible and none of
    the bytes that end a host. *)
Lemma label_byte_visible b : label_byte b = true -> visible b /\ domain_bad_byte b = false
  /\ b <> ":"%char /\ b <> "["%char.
Proof.
  intros H. destruct b as [[] [] [] [] [] [] [] []]; try (vm_compute in H; discriminate H).
  all: split; [vm_compute; split; discriminate|split; [reflexivity|split; discriminate]].
Qed.

Lemma valid_domain_bytes d b :
  Forall valid_label (split "."%char d) -> b ∈ d -> b = "."%char \/ label_byte b = true.
Proof.
  intros Hl Hb. rewrite <- (join_split "."%char d) in Hb.
  apply elem_of_join in Hb as [?|(p & Hp & Hb)]; [by left|right].
  rewrite Forall_forall in Hl. destruct (Hl p Hp) as [_ _ Hbytes _ _].
  rewrite Forall_forall in Hbytes. by apply Hbytes.
Qed.

Lemma valid_domain_good d b :
  Forall valid_label (split "."%char d) -> b ∈ d ->
  visible b /\ domain_bad_byte b = false /\ b <> ":"%char /\ b <> "["%char.
Proof.
  intros Hl Hb. destruct (valid_domain_bytes d b Hl Hb) as [->|?]; [|by apply label_byte_visible].
  split; [by vm_compute|done].
Qed.

Lemma valid_no_empty_label d : Forall valid_label (split "."%char d) -> [] ∉ split "."%char d.
Proof. rewrite Forall_forall. intros H Hin. by destruct (H _ Hin). Qed.

Lemma validate_domain_name_ok domain :
  validate_domain_name domain = Ok tt <-> valid_domain (normalize_domain domain).
Proof.
  unfold validate_domain_name, valid_domain, str_len. set (d := normalize_domain domain).
  assert (for_each validate_label (split "."%char d) = Ok tt <->
          Forall valid_label (split "."%char d)) as Hl.
  { rewrite for_each_ok. apply Forall_iff. intros l. apply validate_label_ok. }
  split.
  - intros H. destruct (is_empty d); [done|]. destruct (253 <? _) eqn:E; [done|].
    destruct (existsb _ _); [done|]. destruct (starts_with _ _ || _); [done|]. bools.
    split; [lia|by apply Hl].
  - intros [Hlen Hlab]. pose proof (valid_no_empty_label d Hlab) as Hne.
    assert (is_empty d = false) as ->; [destruct d; [set_solver|done]|].
    rewrite (proj2 (Z.ltb_ge _ _)) by lia.
    destruct (existsb domain_bad_byte d) eqn:Eb.
    { apply existsb_exists in Eb as (x & Hx & Hbad). apply list_elem_of_In in Hx.
      destruct (valid_domain_good d x Hlab Hx) as (_ & ? & _). congruence. }
    destruct (starts_with (lit ".") d) eqn:Es.
    { apply starts_with_spec in Es as [r Hr]. rewrite Hr in Hne.
      change (lit "." ++ r) with ([] ++ "."%char :: r) in Hne.
      rewrite split_app_sep in Hne; set_solver. }
    cbn [orb]. destruct (contains (lit "..") d) eqn:Ec; [|by apply Hl].
    exfalso. apply contains_spec in Ec as (x & y & Hr). rewrite Hr in Hne. apply Hne.
    change (x ++ lit ".." ++ y) with (x ++ "."%char :: ([] ++ "."%char :: y)).
    rewrite split_app, (split_app_sep _ []) by set_solver. set_solver.
Qed.

(** Domain validation is exact: a domain is accepted if and only if its
    normal form is at most 253 bytes of dot-separated labels, each of 1 to 63
    alphanumerics, hyphens and underscores that neither starts nor ends with a
    hyphen. *)
Theorem validate_domain_name_exact domain :
  validate_domain_name domain = Ok tt <-> valid_domain (normalize_domain domain).
Proof. apply validate_domain_name_ok. Qed.

Lemma valid_domain_no_port d :
  d <> [] -> Forall valid_label (split "."%char d) -> host_without_port d = Some d.
Proof.
  intros Hne Hl. unfold host_without_port.
  assert (Forall (fun b => visible b /\ b <> ":"%char /\ b <> "["%char) d) as Hg.
  { apply Forall_forall. intros b Hb. destruct (valid_domain_good d b Hl Hb) as (? & _ & ? & ?).
    done. }
  rewrite trim_visible; [|eapply Forall_impl; [exact Hg|]; intros ? Hx; apply Hx].
  rewrite (split_no_sep_single ":"%char).
  - destruct d as [|b d]; [done|]. cbn [is_empty].
    destruct (starts_with (lit "[") (b :: d)) eqn:Es; [|done].
    apply starts_with_spec in Es as [r Hr]. simplify_eq/=.
    by apply Forall_cons in Hg as [(_ & _ & ?) _].
  - intros Hc. rewrite Forall_forall in Hg. by destruct (Hg _ Hc) as (_ & ? & _).
Qed.

Lemma valid_domain_no_dot d :
  Forall valid_label (split "."%char d) -> trim_end_matches "."%char d = d.
Proof.
  intros Hl. apply trim_end_matches_id. destruct (last d) as [x|] eqn:E; [|done]. intros ->.
  apply last_Some in E as [r ->]. apply valid_no_empty_label in Hl. apply Hl.
  rewrite split_app. set_solver.
Qed.

(** A valid domain in lower case is its own normal form. *)
Lemma normalize_valid d :
  Forall valid_label (split "."%char d) -> normalize_domain d = to_ascii_lowercase d.
Proof.
  intros Hl. assert (d <> []) as Hne.
  { intros ->. apply valid_no_empty_label in Hl. set_solver. }
  unfold normalize_domain. by rewrite valid_domain_no_port, valid_domain_no_dot.
Qed.

(** The normal form of an accepted domain is stable: normalising it again
    changes nothing, so the keys of the route table do not depend on how often
    a domain went through [normalize_domain]. *)
Theorem normalize_domain_stable domain :
  validate_domain_name domain = Ok tt ->
  normalize_domain (normalize_domain domain) = normalize_domain domain.
Proof.
  intros [_ Hl]%validate_domain_name_ok. rewrite normalize_valid by done.
  apply to_ascii_lowercase_idem.
Qed.

Lemma normalize_domain_stable_witness :
  normalize_domain (normalize_domain (lit "API.Example.com.:8443"))
  = normalize_domain (lit "API.Example.com.:8443").
Proof. apply normalize_domain_stable. vm_compute. reflexivity. Defined.

(** On other inputs it is not: a bracketed IPv6 host loses its tail. *)
Example normalize_domain_unstable :
  normalize_domain (lit "[2001:db8::1]:443") = lit "2001:db8::1" /\
  normalize_domain (lit "2001:db8::1") = lit "2001".
Proof. vm_compute. split; reflexivity. Qed.

(** ** Upstream addresses *)

Lemma land_byte x : Z.land x 255 = x mod 256.
Proof. change 255 with (Z.ones 8). rewrite Z.land_ones by lia. done. Qed.

Lemma octet_eq i ip : 0 <= i <= 3 -> octet i ip = ip / 2 ^ (24 - 8 * i) mod 256.
Proof. intros Hi. unfold octet. by rewrite land_byte, Z.shiftr_div_pow2 by lia. Qed.

Lemma segment0_eq ip : 0 <= ip < 2 ^ 128 -> segment 0 ip = ip / 2 ^ 112.
Proof.
  intros H. unfold segment. change 65535 with (Z.ones 16).
  rewrite Z.land_ones, Z.shiftr_div_pow2 by lia. change (112 - 16 * 0) with 112.
  apply Z.mod_small. split; [apply Z.div_pos; lia|]. apply Z.div_lt_upper_bound; lia.
Qed.

(** A mask of the leading bits of a 16-bit value rounds it down. *)
Lemma land_mask x k : 0 <= k <= 16 -> 0 <= x < 2 ^ 16 ->
  Z.land x (Z.shiftl (Z.ones (16 - k)) k) = x / 2 ^ k * 2 ^ k.
Proof.
  intros Hk Hx. rewrite <- Z.shiftl_mul_pow2, <- Z.shiftr_div_pow2 by lia.
  apply Z.bits_inj'. intros n Hn. rewrite Z.land_spec, !Z.shiftl_spec by lia.
  destruct (decide (n < k)) as [?|?].
  { by rewrite !(Z.testbit_neg_r _ (n - k)), andb_false_r by lia. }
  rewrite Z.shiftr_spec by lia. replace (n - k + k) with n by lia.
  destruct (decide (n < 16)) as [?|?].
  - by rewrite Z.ones_spec_low, andb_true_r by lia.
  - rewrite Z.ones_spec_high, andb_false_r by lia. symmetry.
    destruct (decide (x = 0)) as [->|Hx0]; [apply Z.testbit_0_l|].
    apply Z.bits_above_log2; [lia|]. apply Z.log2_lt_pow2; [lia|].
    apply Z.lt_le_trans with (2 ^ 16); [lia|]. apply Z.pow_le_mono_r; lia.
Qed.

Lemma masks x : 0 <= x < 65536 ->
  (Z.land x 0xfe00 = 0xfc00 <-> 0xfc00 <= x < 0xfe00) /\
  (Z.land x 0xffc0 = 0xfe80 <-> 0xfe80 <= x < 0xfec0) /\
  (Z.land x 0xff00 = 0xff00 <-> 0xff00 <= x).
Proof.
  intros Hx. pose proof (land_mask x 9 ltac:(lia) Hx) as H9.
  pose proof (land_mask x 6 ltac:(lia) Hx) as H6. pose proof (land_mask x 8 ltac:(lia) Hx) as H8.
  change (Z.shiftl _ _) with 0xfe00 in H9. change (Z.shiftl _ _) with 0xffc0 in H6.
  change (Z.shiftl _ _) with 0xff00 in H8. rewrite H9, H6, H8.
  change (2 ^ 9) with 512. change (2 ^ 6) with 64. change (2 ^ 8) with 256.
  split; [|split]; Z.div_mod_to_equations; lia.
Qed.

(** The IPv4 addresses refused as upstreams are exactly 10.0.0.0/8,
    172.16.0.0/12, 192.168.0.0/16, 127.0.0.0/8, 169.254.0.0/16, 224.0.0.0/4,
    the unspecified and the broadcast address. *)
Theorem ip_allowed_v4_exact ip :
  0 <= ip < 2 ^ 32 ->
  ip_allowed_for_upstream (V4 ip) = false <->
    v4 10 0 0 0 <= ip < v4 11 0 0 0 \/ v4 172 16 0 0 <= ip < v4 172 32 0 0 \/
    v4 192 168 0 0 <= ip < v4 192 169 0 0 \/ v4 127 0 0 0 <= ip < v4 128 0 0 0 \/
    v4 169 254 0 0 <= ip < v4 169 255 0 0 \/ v4 224 0 0 0 <= ip < v4 240 0 0 0 \/
    ip = v4 255 255 255 255 \/ ip = v4 0 0 0 0.
Proof.
  intros Hip. unfold ip_allowed_for_upstream, v4_is_private, v4_is_loopback, v4_is_link_local,
    v4_is_multicast, v4_is_broadcast, v4_is_unspecified, v4.
  rewrite negb_false_iff, !orb_true_iff, !andb_true_iff, !Z.eqb_eq, !Z.leb_le.
  rewrite !octet_eq by lia. change (2 ^ (24 - 8 * 0)) with 16777216.
  change (2 ^ (24 - 8 * 1)) with 65536.
  rewrite (Z.mod_small (ip / 16777216)) by
    (split; [apply Z.div_pos; lia|apply Z.div_lt_upper_bound; lia]).
  pose proof (Z.div_mod ip 16777216 ltac:(lia)). pose proof (Z.mod_pos_bound ip 16777216 ltac:(lia)).
  pose proof (Z.div_mod ip 65536 ltac:(lia)). pose proof (Z.mod_pos_bound ip 65536 ltac:(lia)).
  pose proof (Z.div_mod (ip / 65536) 256 ltac:(lia)).
  pose proof (Z.mod_pos_bound (ip / 65536) 256 ltac:(lia)).
  assert (ip / 65536 / 256 = ip / 16777216) as E by (rewrite Z.div_div by lia; done).
  rewrite E in *. split; lia.
Qed.

Lemma ip_allowed_v4_exact_witness : ip_allowed_for_upstream (V4 (v4 169 254 169 254)) = false.
Proof. apply ip_allowed_v4_exact; vm_compute; intuition discriminate. Defined.

(** The IPv6 addresses refused as upstreams are exactly the unspecified
    and the loopback address, fc00::/7, fe80::/10 and ff00::/8.  An
    IPv4-mapped address is judged as an IPv6 address. *)
Theorem ip_allowed_v6_exact ip :
  0 <= ip < 2 ^ 128 ->
  ip_allowed_for_upstream (V6 ip) = false <->
    ip = 0 \/ ip = 1 \/ 0xfc00 * 2 ^ 112 <= ip < 0xfe00 * 2 ^ 112 \/
    0xfe80 * 2 ^ 112 <= ip < 0xfec0 * 2 ^ 112 \/ 0xff00 * 2 ^ 112 <= ip.
Proof.
  intros Hip. unfold ip_allowed_for_upstream, v6_is_loopback, v6_is_multicast, v6_is_unspecified.
  assert (0 <= ip / 2 ^ 112 < 65536) as Hs.
  { split; [apply Z.div_pos; lia|apply Z.div_lt_upper_bound; lia]. }
  rewrite segment0_eq by done. change 65280 with 0xff00.
  destruct (masks _ Hs) as (M1 & M2 & M3).
  rewrite negb_false_iff, !orb_true_iff, !Z.eqb_eq, M1, M2, M3. clear M1 M2 M3.
  pose proof (Z.div_mod ip (2 ^ 112) ltac:(lia)).
  pose proof (Z.mod_pos_bound ip (2 ^ 112) ltac:(lia)). split; lia.
Qed.

Lemma ip_allowed_v6_exact_witness : ip_allowed_for_upstream (V6 (0xfe80 * 2 ^ 112 + 7)) = false.
Proof. apply ip_allowed_v6_exact; lia. Defined.

(** The IPv4-mapped form of the loopback address is not refused. *)
Example mapped_loopback_allowed :
  ip_allowed_for_upstream (V4 (v4 127 0 0 1)) = false /\
  parse_ip (lit "::ffff:127.0.0.1") = Some (V6 (65535 * 2 ^ 32 + v4 127 0 0 1)) /\
  ip_allowed_for_upstream (V6 (65535 * 2 ^ 32 + v4 127 0 0 1)) = true.
Proof. vm_compute. repeat split; reflexivity. Qed.

(** ** What a validated route guarantees *)

Section route_soundness.
Context {NL : IpNetLib} {UL : UrlLib}.
Variable env : rstr -> option rstr.

(** The host the proxy will connect to, as the validators see it. *)
Definition upstream_host (host : rstr) : rstr :=
  to_ascii_lowercase (trim_end_matches "."%char host).

(** What is promised of an upstream URL. *)
Record safe_url (raw : rstr) : Prop := {
  su_length : (length raw <= 2048)%nat;
  su_visible : existsb is_control_or_space raw = false;
  su_parsed : exists parsed host, url_parse raw = Ok parsed /\
    (url_scheme parsed = lit "http" \/ url_scheme parsed = lit "https") /\
    url_username parsed = [] /\ url_password parsed = None /\ url_fragment parsed = None /\
    url_host_str parsed = Some host /\ upstream_host host <> [] /\
    upstream_host host <> lit "localhost" /\
    (forall ip, parse_ip (upstream_host host) = Some ip ->
       private_upstreams_allowed env = true \/ ip_allowed_for_upstream ip = true);
}.

Lemma validate_upstream_host_sound host :
  validate_upstream_host env host = Ok tt ->
  upstream_host host <> [] /\ upstream_host host <> lit "localhost" /\
  (forall ip, parse_ip (upstream_host host) = Some ip ->
     private_upstreams_allowed env = true \/ ip_allowed_for_upstream ip = true).
Proof.
  unfold validate_upstream_host. fold (upstream_host host). intros H.
  destruct (is_empty (upstream_host host)) eqn:E1; [done|].
  destruct (upstream_host host =s? lit "localhost") eqn:E2; [done|]. cbn [orb] in H.
  destruct (ends_with _ _); [done|]. destruct (existsb _ _); [done|].
  split; [by intros E; rewrite E in E1|]. split; [by apply seqb_false|].
  intros ip Hip. rewrite Hip in H. destruct (private_upstreams_allowed env); [by left|].
  destruct (ip_allowed_for_upstream ip); [by right|done].
Qed.

Lemma validate_upstream_url_sound raw : validate_upstream_url env raw = Ok tt -> safe_url raw.
Proof.
  unfold validate_upstream_url, url_parse_upstream, str_len. intros H.
  destruct (2048 <? _) eqn:E1; [done|]. destruct (existsb _ raw) eqn:E2; [done|].
  destruct (url_parse raw) as [parsed|e] eqn:Ep; cbn [map_err] in H; [|done].
  destruct (url_scheme parsed =s? lit "http") eqn:Es1,
           (url_scheme parsed =s? lit "https") eqn:Es2; cbn [orb negb] in H; try done.
  all: destruct (url_username parsed) eqn:Eu; cbn [is_empty negb orb] in H; [|done].
  all: destruct (url_password parsed) eqn:Epw; [done|].
  all: destruct (url_fragment parsed) eqn:Ef; [done|].
  all: destruct (url_host_str parsed) as [host|] eqn:Eh; [|done].
  all: apply validate_upstream_host_sound in H; bools.
  all: split; [lia|done|]; exists parsed, host.
  all: rewrite ?seqb_true in *; naive_solver.
Qed.

Definition forward_auth_urls (d : DomainRules) : list rstr :=
  flat_map (fun m => match md_forward_auth m with
                     | Some fa => if fa_enabled fa then [fa_url fa] else []
                     | None => []
                     end) (snd <$> map_to_list (dr_middlewares d)).


Lemma guard_err_ok b m x : guard_err b m = Ok x -> b = false.
Proof. by destruct b. Qed.

Lemma validate_upstream_sound u :
  validate_upstream env u = Ok tt ->
  safe_url (u_url u) /\ u_transport u = UpstreamTransport_default.
Proof.
  unfold validate_upstream. intros [[[] H1] H2]%do_ok.
  split; [by apply validate_upstream_url_sound|]. 
  destruct (decide (u_transport u = UpstreamTransport_default)) as [?|?]; [done|].
  by rewrite bool_decide_eq_true_2 in H2.
Qed.

Lemma validate_upstreams_sound l :
  for_each (validate_upstream env) l = Ok tt ->
  Forall (fun u => safe_url (u_url u) /\ u_transport u = UpstreamTransport_default) l.
Proof.
  rewrite for_each_ok. intros H. eapply Forall_impl; [exact H|]. apply validate_upstream_sound.
Qed.

Lemma Forall_flat_map {A B} (P : B -> Prop) (f : A -> list B) l :
  Forall (fun x => Forall P (f x)) l -> Forall P (flat_map f l).
Proof. induction 1; simpl; [done|]. by apply Forall_app. Qed.

Lemma validate_rules_sound d :
  validate_rules_for_runtime env d = Ok tt ->
  Forall (fun u => safe_url (u_url u) /\ u_transport u = UpstreamTransport_default)
    (flat_map lr_upstreams (dr_location_routes d) ++ flat_map ts_upstreams (dr_traffic_splits d)
     ++ tm_upstreams (dr_traffic_mirroring d)) /\
  Forall safe_url (forward_auth_urls d).
Proof.
  unfold validate_rules_for_runtime. intros H. do_steps H.
  apply for_each_ok in H. apply for_each_ok in Hstep6. apply for_each_ok in Hstep7.
  apply validate_upstreams_sound in Hstep9. split.
  - rewrite !Forall_app. split; [|split; [|done]].
    all: apply Forall_flat_map; eapply Forall_impl; [eassumption|].
    all: intros x Hx; apply do_ok in Hx as [_ Hx]; by apply validate_upstreams_sound.
  - apply Forall_flat_map. eapply Forall_impl; [exact H|]. intros m Hm.
    unfold validate_forward_auth in Hm. destruct (md_forward_auth m) as [fa|]; [|constructor].
    destruct (fa_enabled fa); [|constructor]. apply do_ok in Hm as [_ Hm].
    constructor; [by apply validate_upstream_url_sound|constructor].
Qed.

(** What is promised of a route that passed [validate_for_runtime]. *)
Record runtime_valid (r : Route) : Prop := {
  rv_domain : valid_domain (normalize_domain (r_domain r));
  rv_paths : (1 <= length (r_paths r) <= 64)%nat;
  rv_path : Forall (fun p => canonical (pr_prefix p) /\ (percent ∉ pr_prefix p) /\
    (pr_prefix p = lit "/" \/ last (pr_prefix p) <> Some slash) /\
    (1 <= length (pr_upstreams p) <= 128)%nat) (r_paths r);
  rv_upstreams : Forall (fun u => safe_url (u_url u) /\
    u_transport u = UpstreamTransport_default) (all_upstreams r);
  rv_forward_auth : Forall safe_url (forward_auth_urls (r_rules r));
}.

Lemma validate_path_sound p :
  validate_path env p = Ok tt ->
  (canonical (pr_prefix p) /\ (percent ∉ pr_prefix p) /\
    (pr_prefix p = lit "/" \/ last (pr_prefix p) <> Some slash) /\
    (1 <= length (pr_upstreams p) <= 128)%nat) /\
  Forall (fun u => safe_url (u_url u) /\ u_transport u = UpstreamTransport_default)
    (pr_upstreams p).
Proof.
  unfold validate_path, MAX_UPSTREAMS_PER_ROUTE. intros H. do_steps H.
  apply validate_path_prefix_spec in Hstep as (? & ? & ?). apply guard_err_ok in Hstep0, Hstep1.
  bools. destruct (pr_upstreams p) eqn:E; [done|]. rewrite <- E in *.
  split; [|by apply validate_upstreams_sound]. split; [done|]. split; [done|]. split; [done|].
  rewrite E in Hstep1 |- *. cbn [length] in *. lia.
Qed.

Lemma validate_for_runtime_valid r : validate_for_runtime env r = Ok tt -> runtime_valid r.
Proof.
  unfold validate_for_runtime, MAX_PATHS_PER_ROUTE. intros H. do_steps H.
  apply validate_domain_name_ok in Hstep. apply guard_err_ok in Hstep0, Hstep1. bools.
  apply for_each_ok in Hstep2. apply validate_rules_sound in H as [Hrules Hfa].
  assert (1 <= length (r_paths r))%nat by (destruct (r_paths r); [done|simpl; lia]).
  split; [done|lia| | |done].
  - eapply Forall_impl; [exact Hstep2|]. intros p Hp. by apply validate_path_sound.
  - unfold all_upstreams. rewrite Forall_app. split; [|done].
    apply Forall_flat_map. eapply Forall_impl; [exact Hstep2|]. intros p Hp.
    by apply validate_path_sound.
Qed.

(** C33: A route accepted by [validate_for_runtime] has a valid domain, between
    1 and 64 paths with canonical prefixes and 1 to 128 upstreams each, and
    every upstream it can ever send a request to (paths, location routes,
    traffic splits, mirrors) as well as every enabled forward-auth URL is an
    http(s) URL without credentials or fragment whose host is not [localhost]
    and, if it reads as an IP address, an allowed one. *)
Theorem validate_for_runtime_sound r : validate_for_runtime env r = Ok tt -> runtime_valid r.
Proof. apply validate_for_runtime_valid. Qed.

(** An upstream URL that does not name a service of the control plane. *)
Definition not_control_plane (raw : rstr) : Prop :=
  exists parsed host, url_parse raw = Ok parsed /\ url_host_str parsed = Some host /\
    upstream_host host ∉ RESERVED_CONTROL_PLANE_HOSTS.

Lemma validate_dynamic_url_sound raw :
  validate_dynamic_upstream_url env raw = Ok tt -> not_control_plane raw.
Proof.
  unfold validate_dynamic_upstream_url, url_parse_upstream. intros [_ H]%do_ok.
  destruct (url_parse raw) as [parsed|] eqn:Ep; cbn [map_err] in H; [|done].
  destruct (url_host_str parsed) as [host|] eqn:Eh; [|done].
  fold (upstream_host host) in H. destruct (existsb _ _) eqn:E; [done|].
  exists parsed, host. split; [done|]. split; [done|]. intros Hin.
  assert (existsb (seq_eqb (upstream_host host)) RESERVED_CONTROL_PLANE_HOSTS = true); [|congruence].
  apply existsb_exists. exists (upstream_host host). split; [by apply list_elem_of_In|].
  apply seqb_refl.
Qed.

(** A route accepted for the dynamic control plane is valid for the
    runtime, and none of its upstreams or forward-auth URLs names a reserved
    control-plane host (redis, postgres, the edge itself, ...). *)
Theorem validate_for_dynamic_control_plane_sound r :
  validate_for_dynamic_control_plane env r = Ok tt ->
  runtime_valid r /\ Forall (fun u => not_control_plane (u_url u)) (all_upstreams r) /\
  Forall not_control_plane (forward_auth_urls (r_rules r)).
Proof.
  unfold validate_for_dynamic_control_plane. intros H. do_steps H.
  apply for_each_ok in Hstep0, H. split; [by apply validate_for_runtime_valid|]. split.
  - eapply Forall_impl; [exact Hstep0|]. intros u Hu. apply do_ok in Hu as [_ Hu].
    by apply validate_dynamic_url_sound.
  - apply Forall_flat_map. eapply Forall_impl; [exact H|]. intros m Hm.
    unfold validate_dynamic_forward_auth in Hm. destruct (md_forward_auth m) as [fa|]; [|constructor].
    destruct (fa_enabled fa); [|constructor].
    constructor; [by apply validate_dynamic_url_sound|constructor].
Qed.

End route_soundness.

Definition example_route : @Route CidrLib :=
  @Route_new CidrLib (lit "id") 0 (lit "Example.com")
    [PathRoute_new (lit "/api/") [Upstream_new (lit "http://10.0.0.9:3000")]] Api.

Definition allow_private : rstr -> option rstr := fun _ => Some (lit "TRUE").

Lemma validate_for_runtime_sound_witness :
  @runtime_valid CidrLib SimpleUrlLib allow_private example_route.
Proof. apply validate_for_runtime_sound. vm_compute. reflexivity. Defined.

Lemma validate_for_dynamic_control_plane_sound_witness :
  @runtime_valid CidrLib SimpleUrlLib allow_private example_route /\
  Forall (fun u => @not_control_plane SimpleUrlLib (u_url u)) (@all_upstreams CidrLib example_route) /\
  Forall (@not_control_plane SimpleUrlLib)
    (@forward_auth_urls CidrLib (@r_rules CidrLib example_route)).
Proof. apply validate_for_dynamic_control_plane_sound. vm_compute. reflexivity. Defined.

(** The same route is refused where private upstreams are not allowed. *)
Example private_upstream_refused :
  @validate_for_runtime CidrLib SimpleUrlLib (fun _ => None) example_route = Err private_ip_error.
Proof. vm_compute. reflexivity. Qed.

(** ** IPv6 literals *)

Lemma lower_not_control b : visible b -> is_control_or_space (ascii_lower b) = false.
Proof.
  intros H. assert (in_range 33 126 b = true) as Hr.
  { unfold visible, in_range in *. bools. lia. }
  clear H. destruct b as [[] [] [] [] [] [] [] []]; (discriminate Hr || reflexivity).
Qed.

(** The [url] crate gives an IPv6 host in brackets, and a bracketed host
    is not an address to the validator: whatever address is inside, loopback
    and link-local ones included, the host is accepted. *)
Theorem validate_upstream_host_ipv6 (env : rstr -> option rstr) addr :
  Forall visible addr ->
  validate_upstream_host env (lit "[" ++ addr ++ lit "]") = Ok tt.
Proof.
  intros Hv. unfold validate_upstream_host.
  assert (trim_end_matches "."%char (lit "[" ++ addr ++ lit "]") = lit "[" ++ addr ++ lit "]") as ->.
  { apply trim_end_matches_id. rewrite app_assoc. change (lit "]") with ["]"%char].
    by rewrite last_snoc. }
  set (h := to_ascii_lowercase _).
  assert (h = "["%char :: to_ascii_lowercase addr ++ ["]"%char]) as Hh.
  { unfold h, to_ascii_lowercase. by rewrite !map_app. }
  assert (is_empty h = false) as -> by (by rewrite Hh).
  assert ((h =s? lit "localhost") = false) as ->.
  { apply seqb_false. rewrite Hh. by intros [=]. }
  assert (ends_with (lit ".localhost") h = false) as ->.
  { destruct (ends_with _ h) eqn:E; [|done]. apply ends_with_spec in E as [r E]. exfalso.
    rewrite Hh in E. apply (f_equal last) in E.
    rewrite app_comm_cons, last_snoc, last_app in E. by simplify_eq/=. }
  cbn [orb].
  assert (existsb is_control_or_space h = false) as ->.
  { rewrite Hh. destruct (existsb _ _) eqn:E; [|done]. exfalso.
    apply existsb_exists in E as (b & Hb & E). apply list_elem_of_In in Hb.
    unfold to_ascii_lowercase in Hb.
    rewrite elem_of_cons, elem_of_app, list_elem_of_fmap, list_elem_of_singleton in Hb.
    destruct Hb as [->|[(c & -> & Hc)| ->]]; [done| |done].
    rewrite Forall_forall in Hv. rewrite lower_not_control in E; [done|by apply Hv]. }
  rewrite Hh. reflexivity.
Qed.

Lemma validate_upstream_host_ipv6_witness :
  validate_upstream_host (fun _ => None) (lit "[::1]") = Ok tt /\
  ip_allowed_for_upstream (V6 1) = false.
Proof.
  split; [|reflexivity]. apply (validate_upstream_host_ipv6 (fun _ => None) (lit "::1")).
  repeat constructor; vm_compute; discriminate.
Defined.
