(* ===== verification/LoadBalancer.v ===== *)
(** The [load-balancer] crate: the per-route counters, in-flight counts and
    latency averages, and the selection algorithms.  The algorithm of
    [std]'s [DefaultHasher] is documented as unspecified, so the hash is the
    class [DefaultHasher]: a function of the sequence of values that were fed
    to it.  The three [DashMap]s are one record; an operation of the code is
    one transition of it, in the order its atomic updates happen. *)
From stdpp Require Import options.
From S2P Require Import Prelude RustStr RustNum RustNet CommonTypes.

Local Open Scope Z_scope.

(** ** Hashing *)

Inductive hashed : Type :=
| HStr (s : rstr)
| HUsize (n : Z)
| HIp (ip : IpAddr).

Class DefaultHasher := {
  hash_finish : list hashed -> Z;
}.
(** ** State *)

Definition MAX_LOAD_BALANCER_KEYS : Z := 100000.

Record LoadBalancer := {
  lb_counters : gmap rstr Z;
  lb_in_flight : gmap rstr Z;
  lb_ewma_latency_micros : gmap rstr Z;
}.
Definition LoadBalancer_new : LoadBalancer :=
  {| lb_counters := ∅; lb_in_flight := ∅; lb_ewma_latency_micros := ∅ |}.

Definition set_counters (m : gmap rstr Z) (lb : LoadBalancer) : LoadBalancer :=
  {| lb_counters := m; lb_in_flight := lb_in_flight lb;
     lb_ewma_latency_micros := lb_ewma_latency_micros lb |}.
Definition set_in_flight (m : gmap rstr Z) (lb : LoadBalancer) : LoadBalancer :=
  {| lb_counters := lb_counters lb; lb_in_flight := m;
     lb_ewma_latency_micros := lb_ewma_latency_micros lb |}.
Definition set_ewma (m : gmap rstr Z) (lb : LoadBalancer) : LoadBalancer :=
  {| lb_counters := lb_counters lb; lb_in_flight := lb_in_flight lb;
     lb_ewma_latency_micros := m |}.

Definition upstream_key (route_key upstream : rstr) : rstr := route_key ++ lit "|" ++ upstream.

Definition clear_if_full (m : gmap rstr Z) : gmap rstr Z :=
  if MAX_LOAD_BALANCER_KEYS <? Z.of_nat (size m) then ∅ else m.

Definition evict_if_needed (lb : LoadBalancer) : LoadBalancer :=
  {| lb_counters := clear_if_full (lb_counters lb);
     lb_in_flight := clear_if_full (lb_in_flight lb);
     lb_ewma_latency_micros := clear_if_full (lb_ewma_latency_micros lb) |}.

(** [map.entry(k).or_insert_with(|| 0)]: the value there, 0 if none. *)
Definition entry0 (m : gmap rstr Z) (k : rstr) : Z := default 0 (m !! k).

(** [counters.entry(key).or_insert(0).fetch_add(1)]: the value before. *)
Definition fetch_add_counter (key : rstr) (lb : LoadBalancer) : LoadBalancer * Z :=
  let c := entry0 (lb_counters lb) key in
  (set_counters (<[key := wrap64 (c + 1)]> (lb_counters lb)) lb, c).

(** ** Bookkeeping of requests *)

Definition begin_request (route_key upstream : rstr) (lb : LoadBalancer) : LoadBalancer :=
  let lb := evict_if_needed lb in
  let k := upstream_key route_key upstream in
  set_in_flight (<[k := wrap64 (entry0 (lb_in_flight lb) k + 1)]> (lb_in_flight lb)) lb.

(** [(current as f64 * 0.8 + latency as f64 * 0.2) as u64] *)
Definition ewma_next (current latency_micros : Z) : Z :=
  let next :=
    if current =? 0 then latency_micros
    else f64_to_u64 (f64_add (f64_mul (f64_of_int current) (f64_ratio 8 10))
                             (f64_mul (f64_of_int latency_micros) (f64_ratio 2 10))) in
  Z.max next 1.

Definition end_request (route_key upstream : rstr) (latency_micros : Z) (lb : LoadBalancer)
  : LoadBalancer :=
  let k := upstream_key route_key upstream in
  let lb :=
    match lb_in_flight lb !! k with
    | Some v => set_in_flight (<[k := saturating_sub v 1]> (lb_in_flight lb)) lb
    | None => lb
    end in
  let current := default latency_micros (lb_ewma_latency_micros lb !! k) in
  set_ewma (<[k := ewma_next current latency_micros]> (lb_ewma_latency_micros lb)) lb.

Definition upstream_in_flight (lb : LoadBalancer) (route_key upstream : rstr) : Z :=
  entry0 (lb_in_flight lb) (upstream_key route_key upstream).

(** ** Selection *)

Definition nth_upstream {A} (l : list A) (index : Z) : option A := l !! Z.to_nat index.

(** [upstreams.len()] is not 0 where the code takes a remainder by it. *)
Definition round_robin (route_key : rstr) (upstreams : list Upstream) (lb : LoadBalancer)
  : LoadBalancer * option Upstream :=
  let '(lb, c) := fetch_add_counter route_key lb in
  (lb, nth_upstream upstreams (c mod Z.of_nat (length upstreams))).

Definition repeat_n {A} (x : A) (n : Z) : list A := repeat x (Z.to_nat n).

Definition weighted_upstreams (upstreams : list Upstream) : list Upstream :=
  flat_map (fun u => repeat_n u (Z.max (u_weight u) 1)) upstreams.

Definition least_connections (lb : LoadBalancer) (route_key : rstr) (upstreams : list Upstream)
  : option Upstream :=
  min_by_key (fun u => upstream_in_flight lb route_key (u_url u)) upstreams.

Definition latency_aware (lb : LoadBalancer) (route_key : rstr) (upstreams : list Upstream)
  : option Upstream :=
  min_by_key (fun u => entry0 (lb_ewma_latency_micros lb) (upstream_key route_key (u_url u)))
    upstreams.

Section select.
Context {DH : DefaultHasher}.

Definition hash_index (values : list hashed) (len : Z) : Z := hash_finish values mod len.

Definition power_of_two_choices (route_key : rstr) (upstreams : list Upstream) (lb : LoadBalancer)
  : LoadBalancer * option Upstream :=
  let len := Z.of_nat (length upstreams) in
  if len <=? 2 then (lb, least_connections lb route_key upstreams)
  else
    let '(lb, counter) := fetch_add_counter (route_key ++ lit ":p2c") lb in
    let first := counter mod len in
    let second := hash_index [HStr route_key; HUsize counter; HStr (lit "second")] len in
    let second := if second =? first then (second + 1) mod len else second in
    match nth_upstream upstreams first, nth_upstream upstreams second with
    | Some left_u, Some right_u =>
      if upstream_in_flight lb route_key (u_url left_u) <=?
         upstream_in_flight lb route_key (u_url right_u)
      then (lb, Some left_u) else (lb, Some right_u)
    | _, _ => (lb, None)
    end.

Definition highest_random_weight (route_key : rstr) (upstreams : list Upstream)
    (client_ip : option IpAddr) : option Upstream :=
  let identity := match client_ip with Some ip => ip_to_string ip | None => route_key end in
  max_by_key (fun u => saturating_mul64 (hash_finish [HStr identity; HStr (u_url u)])
                                         (Z.max (u_weight u) 1)) upstreams.

Definition select (route_key : rstr) (algorithm : LoadBalancingAlgorithm)
    (upstreams : list Upstream) (client_ip : option IpAddr) (lb : LoadBalancer)
  : LoadBalancer * option Upstream :=
  let lb := evict_if_needed lb in
  let healthy := filter (fun u => u_healthy u = true) upstreams in
  if is_empty healthy then (lb, None)
  else
    match algorithm with
    | IpHash =>
      match client_ip with
      | None => (lb, None)
      | Some ip => (lb, nth_upstream healthy (hash_index [HIp ip] (Z.of_nat (length healthy))))
      end
    | WeightedRoundRobin => round_robin route_key (weighted_upstreams healthy) lb
    | LeastConnections => (lb, least_connections lb route_key healthy)
    | P2c => power_of_two_choices route_key healthy lb
    | Hrw => (lb, highest_random_weight route_key healthy client_ip)
    | EwmaLatency | LatencyAware => (lb, latency_aware lb route_key healthy)
    | RoundRobin => round_robin route_key healthy lb
    end.

End select.

(** [weights.iter().enumerate().flat_map(|(i, w)| repeat_n(i, w.max(1)))] *)
Fixpoint weighted_indices (i : Z) (weights : list Z) : list Z :=
  match weights with
  | [] => []
  | w :: weights' => repeat_n i (Z.max w 1) ++ weighted_indices (i + 1) weights'
  end.

Definition select_weighted_index (route_key : rstr) (weights : list Z) (lb : LoadBalancer)
  : LoadBalancer * option Z :=
  let lb := evict_if_needed lb in
  if is_empty weights then (lb, None)
  else
    let weighted := weighted_indices 0 weights in
    let '(lb, c) := fetch_add_counter route_key lb in
    (lb, nth_upstream weighted (c mod Z.of_nat (length weighted))).

(** ** The abstract specification of a selection *)

(** An instance of the hasher: a polynomial of the values, modulo [2^64]. *)
Definition hashed_bytes (h : hashed) : list Z :=
  match h with
  | HStr s => map bz s ++ [255]
  | HUsize n => [n]
  | HIp (V4 b) => [0; b]
  | HIp (V6 b) => [1; b]
  end.
Definition PolyHasher : DefaultHasher :=
  {| hash_finish l := foldl (fun acc b => wrap64 (acc * 1099511628211 + b)) 14695981039346656037
                        (flat_map hashed_bytes l) |}.

Definition healthy_of (upstreams : list Upstream) : list Upstream :=
  filter (fun u => u_healthy u = true) upstreams.

Lemma elem_of_weighted u l : u ∈ weighted_upstreams l <-> u ∈ l.
Proof.
  unfold weighted_upstreams. induction l as [|x l IH]; simpl; [done|].
  rewrite elem_of_app, IH, elem_of_cons. unfold repeat_n. split.
  - intros [H|H]; [|by right]. left. by apply list_elem_of_In, repeat_spec in H.
  - intros [->|H]; [left|by right]. destruct (Z.to_nat (Z.max (u_weight x) 1)) eqn:E; [lia|].
    simpl. set_solver.
Qed.

Lemma nth_upstream_mod {A} (l : list A) c :
  l <> [] -> exists x, nth_upstream l (c mod Z.of_nat (length l)) = Some x /\ x ∈ l.
Proof.
  intros Hl. unfold nth_upstream. assert (0 < Z.of_nat (length l)) as Hn.
  { destruct l; [done|]. simpl. lia. }
  pose proof (Z.mod_pos_bound c _ Hn) as Hm.
  destruct (l !! Z.to_nat (c mod Z.of_nat (length l))) as [x|] eqn:E.
  - exists x. split; [done|]. by eapply list_elem_of_lookup_2.
  - apply lookup_ge_None in E. lia.
Qed.

Lemma by_key_some {A} (f : list A -> option A) l :
  l <> [] -> (f l = None <-> l = []) -> (forall m, f l = Some m -> m ∈ l) ->
  exists x, f l = Some x /\ x ∈ l.
Proof. intros Hl Hn Hs. destruct (f l) as [x|]; [exists x; auto|]. exfalso. by apply Hl, Hn. Qed.

Lemma min_by_key_in {A} (key : A -> Z) l :
  l <> [] -> exists x, min_by_key key l = Some x /\ x ∈ l.
Proof.
  intros Hl. apply by_key_some; [done|apply min_by_key_None|].
  intros m Hm. by apply min_by_key_Some in Hm as [? _].
Qed.
Lemma max_by_key_in {A} (key : A -> Z) l :
  l <> [] -> exists x, max_by_key key l = Some x /\ x ∈ l.
Proof.
  intros Hl. apply by_key_some; [done|apply max_by_key_None|].
  intros m Hm. by apply max_by_key_Some in Hm as [? _].
Qed.
#[export] Hint Resolve nth_upstream_mod min_by_key_in max_by_key_in : pxxl.

Lemma round_robin_in rk l lb :
  l <> [] -> exists x, snd (round_robin rk l lb) = Some x /\ x ∈ l.
Proof. intros Hl. unfold round_robin, fetch_add_counter. simpl. auto with pxxl. Qed.

Section select_spec.
Context {DH : DefaultHasher}.

Lemma p2c_in rk l lb :
  l <> [] -> exists x, snd (power_of_two_choices rk l lb) = Some x /\ x ∈ l.
Proof.
  intros Hl. unfold power_of_two_choices. destruct (_ <=? 2) eqn:E; [apply min_by_key_in; done|].
  unfold fetch_add_counter, hash_index. set (lb' := set_counters _ lb). cbv iota zeta.
  set (c := entry0 (lb_counters lb) _). set (h := hash_finish _).
  destruct (nth_upstream_mod l c Hl) as (x1 & -> & H1).
  assert (exists x2, nth_upstream l
            (if h mod Z.of_nat (length l) =? c mod Z.of_nat (length l)
             then (h mod Z.of_nat (length l) + 1) mod Z.of_nat (length l)
             else h mod Z.of_nat (length l)) = Some x2 /\ x2 ∈ l) as (x2 & -> & H2).
  { destruct (_ =? _); by apply nth_upstream_mod. }
  clear E. destruct (_ <=? _); [by exists x1|by exists x2].
Qed.

Lemma select_spec rk alg ups ip lb :
  match snd (select rk alg ups ip lb) with
  | Some u => u ∈ ups /\ u_healthy u = true
  | None => (forall u, u ∈ ups -> u_healthy u = false) \/ (alg = IpHash /\ ip = None)
  end.
Proof.
  unfold select. fold (healthy_of ups). set (lb' := evict_if_needed lb).
  destruct (is_empty (healthy_of ups)) eqn:E.
  { simpl. left. intros u Hu. destruct (u_healthy u) eqn:Eh; [|done].
    assert (u ∈ healthy_of ups) as H by (by apply list_elem_of_filter).
    destruct (healthy_of ups); [set_solver|done]. }
  assert (healthy_of ups <> []) as Hne by (by destruct (healthy_of ups)).
  assert (forall (r : LoadBalancer * option Upstream),
            (exists x, snd r = Some x /\ x ∈ healthy_of ups) ->
            match snd r with
            | Some u => u ∈ ups /\ u_healthy u = true
            | None => (forall u, u ∈ ups -> u_healthy u = false) \/ (alg = IpHash /\ ip = None)
            end) as Hin.
  { intros r (x & -> & Hx). apply list_elem_of_filter in Hx. tauto. }
  assert (weighted_upstreams (healthy_of ups) <> []) as Hw.
  { destruct (healthy_of ups) as [|x l] eqn:El; [done|]. intros Hn.
    assert (x ∈ weighted_upstreams (x :: l)) as H by (apply elem_of_weighted; set_solver).
    rewrite Hn in H. set_solver. }
  destruct alg.
  - apply Hin. by apply round_robin_in.
  - apply Hin. by apply min_by_key_in.
  - destruct ip as [ip|]; [|by right]. apply Hin. by apply nth_upstream_mod.
  - apply Hin. destruct (round_robin_in rk _ lb' Hw) as (x & Hx & Hxw). exists x. split; [done|].
    by apply elem_of_weighted.
  - apply Hin. by apply min_by_key_in.
  - apply Hin. by apply p2c_in.
  - apply Hin. by apply max_by_key_in.
  - apply Hin. by apply min_by_key_in.
Qed.
(** Without the client's address [ip_hash] selects nothing. *)
Lemma select_unknown_client rk ups lb : snd (select rk IpHash ups None lb) = None.
Proof. unfold select. by destruct (is_empty _). Qed.
(** C32: The selection contract, for every algorithm: the result is a healthy
    upstream of the given list whenever there is one and, for [ip_hash], the
    client address is known; otherwise, and only then, there is none.  An
    unhealthy upstream is never selected. *)
Theorem select_contract rk alg ups ip lb :
  match snd (select rk alg ups ip lb) with
  | Some u => (u ∈ ups) /\ u_healthy u = true /\ (alg = IpHash -> ip <> None)
  | None => (forall u, u ∈ ups -> u_healthy u = false) \/ (alg = IpHash /\ ip = None)
  end.
Proof.
  pose proof (select_spec rk alg ups ip lb) as H. destruct (snd (select rk alg ups ip lb)) as [u|] eqn:E; [|done].
  destruct H as [H1 H2]. split; [done|]. split; [done|]. intros -> ->. by rewrite select_unknown_client in E.
Qed.
End select_spec.

(** ** Round robin *)

(** [n] selections in a row. *)
Fixpoint select_run {DH : DefaultHasher} (n : nat) (rk : rstr) (alg : LoadBalancingAlgorithm)
    (ups : list Upstream) (ip : option IpAddr) (lb : LoadBalancer) : list (option Upstream) :=
  match n with
  | O => []
  | S n' => let '(lb', u) := select rk alg ups ip lb in u :: select_run n' rk alg ups ip lb'
  end.

(** The rotation a round-robin algorithm goes through. *)
Definition rotation_of (alg : LoadBalancingAlgorithm) (ups : list Upstream) : list Upstream :=
  match alg with
  | WeightedRoundRobin => weighted_upstreams (healthy_of ups)
  | _ => healthy_of ups
  end.

Section rotation.
Context {DH : DefaultHasher}.

Lemma clear_if_full_small m : Z.of_nat (size m) <= MAX_LOAD_BALANCER_KEYS -> clear_if_full m = m.
Proof. intros H. unfold clear_if_full. by rewrite (proj2 (Z.ltb_ge _ _)). Qed.

Lemma select_rr rk alg ups ip lb :
  alg = RoundRobin \/ alg = WeightedRoundRobin -> healthy_of ups <> [] ->
  Z.of_nat (size (lb_counters lb)) <= MAX_LOAD_BALANCER_KEYS ->
  let c := entry0 (lb_counters lb) rk in
  let W := rotation_of alg ups in
  snd (select rk alg ups ip lb) = nth_upstream W (c mod Z.of_nat (length W)) /\
  lb_counters (fst (select rk alg ups ip lb)) = <[rk := wrap64 (c + 1)]> (lb_counters lb).
Proof.
  intros Halg Hne Hsize. unfold select. fold (healthy_of ups).
  assert (is_empty (healthy_of ups) = false) as -> by (by destruct (healthy_of ups)).
  destruct Halg as [->| ->]; simpl; rewrite clear_if_full_small by done; split; reflexivity.
Qed.

Lemma select_run_nth rk alg ups ip n : forall lb c,
  alg = RoundRobin \/ alg = WeightedRoundRobin -> healthy_of ups <> [] ->
  entry0 (lb_counters lb) rk = c -> 0 <= c ->
  Z.of_nat (size (<[rk := 0]> (lb_counters lb))) <= MAX_LOAD_BALANCER_KEYS ->
  c + Z.of_nat n <= U64_MAX ->
  let W := rotation_of alg ups in
  select_run n rk alg ups ip lb
  = map (fun i => nth_upstream W ((c + Z.of_nat i) mod Z.of_nat (length W))) (seq 0 n).
Proof.
  induction n as [|n IH]; intros lb c Halg Hne Hc Hc0 Hsize Hmax; [done|].
  assert (size (lb_counters lb) <= size (<[rk := 0%Z]> (lb_counters lb)))%nat as Hs.
  { rewrite map_size_insert. destruct (lb_counters lb !! rk); simpl; lia. }
  destruct (select_rr rk alg ups ip lb Halg Hne ltac:(lia)) as [H1 H2].
  cbn [select_run seq map]. destruct (select rk alg ups ip lb) as [lb' u]. simpl in H1, H2.
  rewrite Hc in H1, H2. rewrite Nat2Z.inj_succ in Hmax.
  rewrite wrap64_small in H2 by (unfold is_u64; lia).
  rewrite H1, Z.add_0_r. f_equal.
  rewrite (IH lb' (c + 1)).
  - change 1%nat with (S 0) at 1. rewrite <- seq_shift, map_map. apply map_ext. intros i. do 2 f_equal. lia.
  - done.
  - done.
  - by rewrite H2; unfold entry0; rewrite lookup_insert_eq.
  - lia.
  - rewrite H2, insert_insert_eq. done.
  - lia.
Qed.

Lemma rotate_lookup {A} (l : list A) (k i : nat) :
  (k < length l)%nat -> (i < length l)%nat ->
  (drop k l ++ take k l) !! i = l !! ((k + i) mod length l)%nat.
Proof.
  intros Hk Hi. destruct (decide (k + i < length l)%nat) as [H|H].
  - rewrite lookup_app_l by (rewrite length_drop; lia).
    rewrite lookup_drop, Nat.mod_small by lia. done.
  - rewrite lookup_app_r by (rewrite length_drop; lia).
    rewrite length_drop, lookup_take_lt by lia. f_equal.
    apply (Nat.mod_unique _ _ 1); lia.
Qed.

(** Round robin and its weighted form are fair: over one full cycle the
    selections are the healthy upstreams, each as often as its weight says
    (once without weights), in list order and starting where the counter
    stands.  The counter must not overflow or be evicted during the cycle. *)
Theorem round_robin_cycle rk alg ups ip lb :
  alg = RoundRobin \/ alg = WeightedRoundRobin -> healthy_of ups <> [] ->
  let c := entry0 (lb_counters lb) rk in
  let W := rotation_of alg ups in
  0 <= c -> c + Z.of_nat (length W) <= U64_MAX ->
  Z.of_nat (size (<[rk := 0]> (lb_counters lb))) <= MAX_LOAD_BALANCER_KEYS ->
  let k := Z.to_nat (c mod Z.of_nat (length W)) in
  select_run (length W) rk alg ups ip lb = map Some (drop k W ++ take k W).
Proof.
  intros Halg Hne c W Hc Hmax Hsize k.
  rewrite (select_run_nth rk alg ups ip (length W) lb c) by done. fold W.
  destruct (decide (W = [])) as [E|HW]; [by rewrite E, drop_nil, take_nil|].
  assert (0 < Z.of_nat (length W)) as Hn by (destruct W; [done|simpl; lia]).
  pose proof (Z.mod_pos_bound c _ Hn) as Hk.
  apply list_eq. intros i. rewrite !list_lookup_fmap.
  destruct (decide (i < length W)%nat) as [Hi|Hi].
  - rewrite lookup_seq_lt by done. simpl. rewrite rotate_lookup by (unfold k; lia).
    unfold nth_upstream. replace (Z.to_nat ((c + Z.of_nat i) mod Z.of_nat (length W)))
      with ((k + i) mod length W)%nat.
    + destruct (W !! _) eqn:E; [done|]. apply lookup_ge_None in E.
      pose proof (Nat.mod_upper_bound (k + i) (length W)). lia.
    + apply Nat2Z.inj. rewrite Nat2Z.inj_mod, Nat2Z.inj_add, Z2Nat.id
        by (apply Z.mod_pos_bound; lia). unfold k. rewrite Z2Nat.id by lia.
      by rewrite Zplus_mod_idemp_l.
  - rewrite !lookup_ge_None_2; [done| |].
    + rewrite length_app, length_drop, length_take. lia.
    + rewrite length_seq. lia.
Qed.
End rotation.

Definition example_upstreams : list Upstream :=
  [ {| u_url := lit "http://a"; u_weight := 2; u_healthy := true; u_backup := false;
       u_transport := UpstreamTransport_default |};
    {| u_url := lit "http://b"; u_weight := 1; u_healthy := false; u_backup := false;
       u_transport := UpstreamTransport_default |};
    {| u_url := lit "http://c"; u_weight := 1; u_healthy := true; u_backup := false;
       u_transport := UpstreamTransport_default |} ].

Lemma round_robin_cycle_witness :
  map (fun u => default [] (u_url <$> u))
    (@select_run PolyHasher 3 (lit "r") WeightedRoundRobin example_upstreams None
       {| lb_counters := {[ lit "r" := 4 ]}; lb_in_flight := ∅; lb_ewma_latency_micros := ∅ |})
  = lits ["http://a"; "http://c"; "http://a"].
Proof.
  pose proof (@round_robin_cycle PolyHasher (lit "r") WeightedRoundRobin example_upstreams None
    {| lb_counters := {[ lit "r" := 4 ]}; lb_in_flight := ∅; lb_ewma_latency_micros := ∅ |}) as H.
  change 3%nat with (length (rotation_of WeightedRoundRobin example_upstreams)).
  rewrite H; [vm_compute; reflexivity|by right|by vm_compute|by vm_compute|by vm_compute|].
  vm_compute. discriminate.
Defined.

(** ** In-flight counts *)

Inductive lb_event : Type :=
| Begin (rk up : rstr)
| End_ (rk up : rstr) (latency : Z).

Definition lb_apply (lb : LoadBalancer) (e : lb_event) : LoadBalancer :=
  match e with
  | Begin rk up => begin_request rk up lb
  | End_ rk up lat => end_request rk up lat lb
  end.
Definition lb_run (es : list lb_event) (lb : LoadBalancer) : LoadBalancer := foldl lb_apply lb es.

(** Requests begun on a key and not ended yet. *)
Definition open_requests (k : rstr) (es : list lb_event) : Z :=
  foldr (fun e n => match e with
                    | Begin rk up => if upstream_key rk up =s? k then n + 1 else n
                    | End_ rk up _ => if upstream_key rk up =s? k then n - 1 else n
                    end) 0 es.

Lemma open_requests_snoc k es e :
  open_requests k (es ++ [e]) = open_requests k es + open_requests k [e].
Proof.
  induction es as [|x es IH]; simpl in *; [done|]. rewrite IH.
  destruct x, e; simpl; repeat destruct (_ =s? _); lia.
Qed.

Lemma open_requests_le k es : open_requests k es <= Z.of_nat (length es).
Proof.
  induction es as [|x es IH]; simpl length; [done|]. cbn [open_requests foldr].
  fold (open_requests k es). destruct x; destruct (_ =s? _); lia.
Qed.

Lemma lb_run_size es :
  Z.of_nat (length es) <= MAX_LOAD_BALANCER_KEYS ->
  (size (lb_in_flight (lb_run es LoadBalancer_new)) <= length es)%nat.
Proof.
  induction es as [|e es IH] using rev_ind; intros Hlen; [done|].
  rewrite length_app in *. cbn [length] in *. specialize (IH ltac:(lia)).
  unfold lb_run in *. rewrite foldl_snoc. set (lb := foldl _ _ es) in *. clearbody lb.
  destruct e as [rk up|rk up lat]; simpl.
  - rewrite clear_if_full_small by lia. rewrite map_size_insert.
    destruct (lb_in_flight lb !! _); simpl; lia.
  - destruct (lb_in_flight lb !! upstream_key rk up) eqn:E; simpl; [|lia].
    rewrite map_size_insert, E. simpl. lia.
Qed.

(** The in-flight count of an upstream is the number of requests begun and
    not yet ended, for every history in which no request ends before it
    began; in particular it never goes below zero and a begin followed by its
    end changes nothing.  The history is short enough that no key is evicted. *)
Theorem in_flight_counts k es :
  Z.of_nat (length es) <= MAX_LOAD_BALANCER_KEYS ->
  (forall p q, es = p ++ q -> 0 <= open_requests k p) ->
  entry0 (lb_in_flight (lb_run es LoadBalancer_new)) k = open_requests k es.
Proof.
  induction es as [|e es IH] using rev_ind; intros Hlen Hwb; [done|].
  rewrite length_app in Hlen. cbn [length] in Hlen.
  assert (entry0 (lb_in_flight (lb_run es LoadBalancer_new)) k = open_requests k es) as IH'.
  { apply IH; [lia|]. intros p q ->. apply (Hwb p (q ++ [e])). by rewrite <- app_assoc. }
  pose proof (Hwb es [e] eq_refl) as Hpos. pose proof (Hwb (es ++ [e]) [] ltac:(by rewrite app_nil_r)) as Hpos'.
  pose proof (lb_run_size es ltac:(lia)) as Hsize. pose proof (open_requests_le k es) as Hle.
  rewrite open_requests_snoc in *. unfold lb_run in *. rewrite foldl_snoc.
  set (lb := foldl _ _ es) in *. clearbody lb. clear IH Hwb.
  unfold MAX_LOAD_BALANCER_KEYS in *.
  assert (open_requests k [e] = match e with
    | Begin rk up => if upstream_key rk up =s? k then 1 else 0
    | End_ rk up _ => if upstream_key rk up =s? k then -1 else 0 end) as Ho.
  { by destruct e. }
  rewrite Ho in *. clear Ho. generalize dependent (open_requests k es). intros N IH' Hpos Hpos' Hle.
  destruct e as [rk up|rk up lat].
  - simpl. rewrite clear_if_full_small by (unfold MAX_LOAD_BALANCER_KEYS; lia).
    destruct (upstream_key rk up =s? k) eqn:E.
    + apply seqb_true in E as ->. unfold entry0 at 1. rewrite lookup_insert_eq. simpl.
      rewrite IH'. apply wrap64_small. unfold is_u64, U64_MAX. lia.
    + apply seqb_false in E. unfold entry0. rewrite lookup_insert_ne by done. unfold entry0 in IH'. rewrite IH'. lia.
  - simpl. destruct (upstream_key rk up =s? k) eqn:E.
    + apply seqb_true in E as ->. unfold entry0 in *.
      destruct (lb_in_flight lb !! k) as [v|] eqn:Ev; simpl in *.
      * rewrite lookup_insert_eq. simpl. unfold saturating_sub. lia.
      * lia.
    + apply seqb_false in E. unfold entry0 in *.
      destruct (lb_in_flight lb !! upstream_key rk up) eqn:Ev; simpl; [|lia].
      rewrite lookup_insert_ne by done. lia.
Qed.

Lemma in_flight_counts_witness :
  entry0 (lb_in_flight (lb_run [Begin (lit "r") (lit "u"); Begin (lit "r") (lit "v");
    Begin (lit "r") (lit "u"); End_ (lit "r") (lit "u") 1500] LoadBalancer_new)) (lit "r|u") = 1.
Proof.
  apply (in_flight_counts (lit "r|u")); [vm_compute; discriminate|].
  intros p q Hpq. destruct p as [|? [|? [|? [|? [|]]]]]; simplify_eq/=; vm_compute; discriminate.
Defined.

(** [least_connections] gives a healthy upstream with the fewest requests
    in flight. *)
Theorem least_connections_minimal {DH : DefaultHasher} rk ups ip lb u :
  snd (select rk LeastConnections ups ip lb) = Some u ->
  let lb' := fst (select rk LeastConnections ups ip lb) in
  forall v, v ∈ ups -> u_healthy v = true ->
    upstream_in_flight lb' rk (u_url u) <= upstream_in_flight lb' rk (u_url v).
Proof.
  unfold select. fold (healthy_of ups). destruct (is_empty (healthy_of ups)); [done|].
  simpl. intros H v Hv Hh. apply min_by_key_Some in H as [_ Hmin].
  rewrite Forall_forall in Hmin. apply Hmin. by apply list_elem_of_filter.
Qed.

Lemma least_connections_minimal_witness :
  let lb := begin_request (lit "r") (lit "http://a") LoadBalancer_new in
  upstream_in_flight lb (lit "r") (lit "http://c") <= upstream_in_flight lb (lit "r") (lit "http://a").
Proof.
  intros lb.
  apply (@least_connections_minimal PolyHasher (lit "r") example_upstreams None lb
           (Upstream_new (lit "http://c"))) with (v := hd (Upstream_new []) example_upstreams);
    [vm_compute; reflexivity|set_solver|vm_compute; reflexivity].
Defined.

(** The latency average is a [u64] and never 0, whatever the samples are,
    so that 0 stays reserved for an upstream without a sample. *)
Theorem ewma_next_positive current latency :
  1 <= ewma_next current latency /\ (is_u64 latency -> is_u64 (ewma_next current latency)).
Proof.
  unfold ewma_next, is_u64, U64_MAX. split; [lia|].
  intros H. destruct (current =? 0); [lia|]. unfold f64_to_u64, U64_MAX. lia.
Qed.

(** ** Weighted indices *)

Lemma weighted_indices_range i ws x : x ∈ weighted_indices i ws -> i <= x < i + Z.of_nat (length ws).
Proof.
  revert i; induction ws as [|w ws IH]; intros i; simpl; [set_solver|].
  rewrite elem_of_app. intros [H|H].
  - apply list_elem_of_In, repeat_spec in H. lia.
  - apply IH in H. lia.
Qed.

(** The index is one of the weight list, always (the weights 0 count as 1), and
    there is none for the empty list. *)
Lemma select_weighted_index_valid rk ws lb :
  match snd (select_weighted_index rk ws lb) with
  | Some i => 0 <= i < Z.of_nat (length ws)
  | None => ws = []
  end.
Proof.
  unfold select_weighted_index. destruct ws as [|w ws]; [done|]. cbn [is_empty].
  unfold fetch_add_counter. cbn [snd]. set (l := weighted_indices 0 (w :: ws)).
  assert (l <> []) as Hl.
  { unfold l. simpl. unfold repeat_n. destruct (Z.to_nat (Z.max w 1)) eqn:E; [lia|done]. }
  destruct (nth_upstream_mod l (entry0 (lb_counters (evict_if_needed lb)) rk) Hl) as (x & -> & Hx).
  by apply weighted_indices_range in Hx.
Qed.
