(* ===== verification/Ddos.v ===== *)
(** The blacklist and the rate limiter of the [ddos] crate.  A [DashMap] is a
    [gmap], a [DashSet] a [gset]; every call is one transition of the maps, in
    which all readings of the clock give the same instant (nanoseconds). *)
From stdpp Require Import options.
From S2P Require Import Prelude RustStr RustNum TokenBucket RustNet.

Local Open Scope Z_scope.

Inductive SecurityDecision : Type :=
| Allowed
| Blocked (reason : rstr)
| RateLimited (retry_after : Z).
#[export] Instance SecurityDecision_eq_dec : EqDecision SecurityDecision.
Proof. solve_decision. Defined.

(** ** The blacklist *)

Module Blacklist.
Section blacklist.
Context {NL : IpNetLib}.

Inductive BlacklistAction : Type := Add | Remove.
Record BlacklistCommand := {
  bc_action : BlacklistAction;
  bc_domain_id : rstr;
  bc_ip : IpAddr;
}.

Record BlacklistEngine := {
  be_domains : gmap rstr (gset IpAddr);
  be_cidr_blocks : list IpNet;
}.
Definition new : BlacklistEngine := {| be_domains := ∅; be_cidr_blocks := [] |}.
Definition with_cidrs (cidrs : list IpNet) : BlacklistEngine :=
  {| be_domains := ∅; be_cidr_blocks := cidrs |}.

Definition add (domain_id : rstr) (ip : IpAddr) (e : BlacklistEngine) : BlacklistEngine :=
  let s : gset IpAddr := default ∅ (be_domains e !! domain_id) in
  {| be_domains := <[domain_id := {[ip]} ∪ s]> (be_domains e);
     be_cidr_blocks := be_cidr_blocks e |}.

Definition remove (domain_id : rstr) (ip : IpAddr) (e : BlacklistEngine) : BlacklistEngine :=
  match be_domains e !! domain_id with
  | Some s => {| be_domains := <[domain_id := s ∖ {[ip]}]> (be_domains e);
                 be_cidr_blocks := be_cidr_blocks e |}
  | None => e
  end.

Definition contains (e : BlacklistEngine) (domain_id : rstr) (ip : IpAddr) : bool :=
  if existsb (fun network => net_contains network ip) (be_cidr_blocks e) then true
  else match be_domains e !! domain_id with
       | Some s => bool_decide (ip ∈ s)
       | None => false
       end.

Definition apply (command : BlacklistCommand) (e : BlacklistEngine) : BlacklistEngine :=
  match bc_action command with
  | Add => add (bc_domain_id command) (bc_ip command) e
  | Remove => remove (bc_domain_id command) (bc_ip command) e
  end.

Definition replace_cidrs (cidrs : list IpNet) (e : BlacklistEngine) : BlacklistEngine :=
  {| be_domains := be_domains e; be_cidr_blocks := cidrs |}.

(** *** Specification: a set of (domain, address) pairs and the CIDR list *)

Inductive blacklist_op : Type :=
| OpCommand (c : BlacklistCommand)
| OpCidrs (cidrs : list IpNet).

Definition run_op (e : BlacklistEngine) (op : blacklist_op) : BlacklistEngine :=
  match op with OpCommand c => apply c e | OpCidrs cidrs => replace_cidrs cidrs e end.

Definition spec_op (s : gset (rstr * IpAddr) * list IpNet) (op : blacklist_op)
  : gset (rstr * IpAddr) * list IpNet :=
  match op with
  | OpCommand c =>
    let p := (bc_domain_id c, bc_ip c) in
    match bc_action c with
    | Add => ({[p]} ∪ fst s, snd s)
    | Remove => (fst s ∖ {[p]}, snd s)
    end
  | OpCidrs cidrs => (fst s, cidrs)
  end.

(** The engine represents the pair of a set and a list. *)
Definition represents (e : BlacklistEngine) (s : gset (rstr * IpAddr) * list IpNet) : Prop :=
  be_cidr_blocks e = snd s /\
  forall d ip, (d, ip) ∈ fst s <-> exists l, be_domains e !! d = Some l /\ ip ∈ l.

Lemma run_op_represents e s op : represents e s -> represents (run_op e op) (spec_op s op).
Proof.
  intros [Hc Hd]. destruct op as [[[] dom ip]|cidrs]; simpl; [| |by split].
  - split; [done|]. intros d ip'. simpl. rewrite elem_of_union, elem_of_singleton, Hd.
    destruct (decide (d = dom)) as [->|Hne].
    + rewrite lookup_insert_eq. split.
      * intros [[= ->]|(l & Hl & Hin)]; eexists; (split; [done|]); [set_solver|].
        rewrite Hl. set_solver.
      * intros (l & [= <-] & Hin). apply elem_of_union in Hin as [?%elem_of_singleton|Hin].
        { left. by subst. }
        right. destruct (be_domains e !! dom) as [l'|]; [by exists l'|set_solver].
    + rewrite lookup_insert_ne by done. split; [intros [[= ? ?]|?]; [by subst|done]|by right].
  - unfold apply, remove. simpl. destruct (be_domains e !! dom) as [l0|] eqn:E.
    + split; [done|]. intros d ip'. simpl. rewrite elem_of_difference, elem_of_singleton, Hd.
      destruct (decide (d = dom)) as [->|Hne].
      * rewrite lookup_insert_eq, E. split.
        -- intros [(l & [= <-] & Hin) Hn]. eexists. split; [done|]. set_solver.
        -- intros (l & [= <-] & Hin). split; [exists l0; set_solver|]. intros [= ->]. set_solver.
      * rewrite lookup_insert_ne by done. split; [by intros [? _]|]. intros H. split; [done|].
        by intros [= -> _].
    + split; [done|]. intros d ip'. simpl. rewrite elem_of_difference, elem_of_singleton, Hd.
      split; [by intros [? _]|]. intros (l & Hl & Hin). split; [by exists l|].
      intros [= -> _]. congruence.
Qed.

(** The blacklist engine refines a set of (domain, address) pairs with a
    list of networks: after any sequence of add and remove commands and CIDR
    replacements, an address is blocked for a domain exactly when a network of
    the last list holds it or it was added for that domain and not removed
    since. *)
Theorem blacklist_refines cidrs ops d ip :
  let e := foldl run_op (with_cidrs cidrs) ops in
  let s := foldl spec_op (∅, cidrs) ops in
  contains e d ip = true <->
  (exists n, n ∈ snd s /\ net_contains n ip = true) \/ (d, ip) ∈ fst s.
Proof.
  intros e s. assert (represents e s) as [Hc Hd].
  { unfold e, s. assert (represents (with_cidrs cidrs) (∅, cidrs)) as Hr.
    { split; [done|]. intros ? ?. simpl. split; [set_solver|]. intros (l & H & _). done. }
    revert Hr. generalize (with_cidrs cidrs) (∅ : gset (rstr * IpAddr), cidrs).
    induction ops as [|op ops IH]; intros e0 s0 Hr; [done|]. simpl. apply IH.
    by apply run_op_represents. }
  unfold contains. rewrite Hc, Hd. destruct (existsb _ (snd s)) eqn:E.
  - split; [intros _; left|done]. apply existsb_exists in E as (n & Hn & Hin).
    exists n. by rewrite list_elem_of_In.
  - assert (~ exists n, n ∈ snd s /\ net_contains n ip = true) as Hno.
    { intros (n & Hn & Hin). assert (existsb (fun n => net_contains n ip) (snd s) = true); [|congruence].
      apply existsb_exists. exists n. by rewrite <- list_elem_of_In. }
    destruct (be_domains e !! d) as [l|].
    + rewrite bool_decide_eq_true. split; [right; by exists l|]. intros [?|(l' & [= <-] & ?)]; done.
    + split; [done|]. intros [?|(l' & ? & ?)]; done.
Qed.

End blacklist.
End Blacklist.

(** ** The rate limiter *)

Module Limiter.

Record RateLimitConfig := {
  rc_requests_per_second : Z;
  rc_burst : Z;
}.
Definition RateLimitConfig_default : RateLimitConfig :=
  {| rc_requests_per_second := 120; rc_burst := 240 |}.

Record RateLimiter := {
  rl_config : RateLimitConfig;
  rl_buckets : gmap IpAddr RateBucket;
  rl_last_eviction : Z;
}.
Definition RATE_BUCKET_TTL_SECONDS : Z := 600.
Definition RATE_BUCKET_EVICT_AT : Z := 100000.

Definition RateLimiter_new (config : RateLimitConfig) (now : Z) : RateLimiter :=
  {| rl_config := config; rl_buckets := ∅; rl_last_eviction := now |}.

Definition rl_set_buckets (m : gmap IpAddr RateBucket) (rl : RateLimiter) : RateLimiter :=
  {| rl_config := rl_config rl; rl_buckets := m; rl_last_eviction := rl_last_eviction rl |}.

Definition retain_fresh (now : Z) (m : gmap IpAddr RateBucket) : gmap IpAddr RateBucket :=
  retain_younger (from_secs RATE_BUCKET_TTL_SECONDS) now m.

Definition evict_if_due (now : Z) (rl : RateLimiter) : RateLimiter :=
  if duration_since now (rl_last_eviction rl) <? from_secs 30 then rl
  else {| rl_config := rl_config rl; rl_buckets := retain_fresh now (rl_buckets rl);
          rl_last_eviction := now |}.

Definition evict_stale (now : Z) (rl : RateLimiter) : RateLimiter :=
  if Z.of_nat (size (rl_buckets rl)) <? RATE_BUCKET_EVICT_AT then rl
  else rl_set_buckets (retain_fresh now (rl_buckets rl)) rl.

Definition allow (ip : IpAddr) (now : Z) (rl : RateLimiter) : RateLimiter * SecurityDecision :=
  let rl := evict_stale now (evict_if_due now rl) in
  let burst := f64_of_int (rc_burst (rl_config rl)) in
  let rps := rc_requests_per_second (rl_config rl) in
  let bucket := default (fresh_bucket burst now) (rl_buckets rl !! ip) in
  let '(bucket, taken) := take_token (f64_of_int rps) burst bucket now in
  let rl := rl_set_buckets (<[ip := bucket]> (rl_buckets rl)) rl in
  if taken then (rl, Allowed)
  else (rl, RateLimited (from_secs_f64 (f64_div f64_one (f64_of_int (Z.max rps 1))))).

Definition bucket_count (rl : RateLimiter) : Z := Z.of_nat (size (rl_buckets rl)).

Example allow_burst_then_limit :
  let rl0 := RateLimiter_new {| rc_requests_per_second := 2; rc_burst := 1 |} 0 in
  let '(rl1, d1) := allow (V4 1) 0 rl0 in
  let '(rl2, d2) := allow (V4 1) 1000000 rl1 in
  let '(rl3, d3) := allow (V4 1) 600000000 rl2 in
  [d1; d2; d3] = [Allowed; RateLimited 500000000; Allowed].
Proof. vm_compute. reflexivity. Qed.

(** *** The limiter as a [KeyedLimiter] *)

Lemma evict_keeps now rl ip :
  (forall b, rl_buckets rl !! ip = Some b ->
     now - rb_last_refill b <= from_secs RATE_BUCKET_TTL_SECONDS) ->
  rl_config (evict_stale now (evict_if_due now rl)) = rl_config rl /\
  rl_buckets (evict_stale now (evict_if_due now rl)) !! ip = rl_buckets rl !! ip.
Proof.
  intros H. assert (0 <= from_secs RATE_BUCKET_TTL_SECONDS) as Ht by done.
  assert (rl_config (evict_if_due now rl) = rl_config rl /\
          rl_buckets (evict_if_due now rl) !! ip = rl_buckets rl !! ip) as [H1 H2].
  { unfold evict_if_due. destruct (_ <? _); [done|]. split; [done|]. by apply retain_younger_keeps. }
  unfold evict_stale. destruct (_ <? _); [done|]. split; [done|]. cbn [rl_set_buckets rl_buckets].
  unfold retain_fresh. rewrite retain_younger_keeps; [done|done|]. by rewrite H2.
Qed.

Lemma evict_config now rl : rl_config (evict_stale now (evict_if_due now rl)) = rl_config rl.
Proof. unfold evict_stale, evict_if_due. by repeat destruct (_ <? _). Qed.

#[export] Instance RateLimiter_keyed (config : RateLimitConfig) : KeyedLimiter IpAddr RateLimiter := {|
  kl_bucket rl ip := rl_buckets rl !! ip;
  kl_call ip now rl := let '(rl', d) := allow ip now rl in (rl', bool_decide (d = Allowed));
  kl_valid rl := rl_config rl = config;
  kl_rate := f64_of_int (rc_requests_per_second config);
  kl_burst := rc_burst config;
  kl_ttl := from_secs RATE_BUCKET_TTL_SECONDS;
|}.

#[export] Instance RateLimiter_laws config : KeyedLimiterLaws _ _ (RateLimiter_keyed config).
Proof.
  split; cbn [kl_bucket kl_call kl_valid kl_rate kl_burst kl_ttl RateLimiter_keyed].
  - intros ip now rl <-. unfold allow.
    destruct (take_token _ _ _ _) as [b []]; cbn; apply evict_config.
  - intros ip ip' now rl <- Hne Hf. destruct (evict_keeps now rl ip Hf) as [_ Hbk]. unfold allow.
    destruct (take_token _ _ _ _) as [b []]; cbn; by rewrite lookup_insert_ne.
  - intros ip now rl <- Hf. destruct (evict_keeps now rl ip Hf) as [Hcfg Hbk]. unfold allow.
    rewrite Hcfg, Hbk. destruct (take_token _ _ _ _) as [b []]; cbn; by rewrite lookup_insert_eq.
Qed.

(** The number of calls of [ip] that were allowed. *)
Definition allowed_for (ip : IpAddr) (calls : list (IpAddr * Z)) (rl : RateLimiter) : Z :=
  count_for (KL := RateLimiter_keyed (rl_config rl)) ip calls rl.

(** C29: The rate limit holds: whatever the other addresses do, an address that
    has no bucket yet gets at most [burst] requests plus [rate] per second of
    the time between its first and its last call, up to the relative rounding
    error of the token arithmetic ([2^-53] per operation), in any ten minutes. *)
Theorem rate_limit_bound ip calls rl t0 :
  0 <= rc_requests_per_second (rl_config rl) <= U32_MAX ->
  0 <= rc_burst (rl_config rl) <= U32_MAX ->
  rl_buckets rl !! ip = None ->
  Forall (fun c => t0 <= snd c <= t0 + from_secs RATE_BUCKET_TTL_SECONDS) calls ->
  Sorted Z.le (times_of ip calls) ->
  let n := Z.of_nat (length (times_of ip calls)) in
  let elapsed := default 0 (last (times_of ip calls)) - default 0 (head (times_of ip calls)) in
  (2 ^ 53) ^ 4 * NANOS * allowed_for ip calls rl
  <= (2 ^ 53) ^ 4 * NANOS * rc_burst (rl_config rl)
     + (2 ^ 53 + 1) ^ 4 * rc_requests_per_second (rl_config rl) * elapsed
     + n * ((2 ^ 53) ^ 3 * NANOS * (rc_burst (rl_config rl) + 1)).
Proof.
  intros Hr Hb Hnone Hall Hs.
  pose proof (keyed_limit (KL := RateLimiter_keyed (rl_config rl)) ip calls rl t0) as H.
  cbn [kl_rate kl_burst kl_valid kl_bucket kl_ttl RateLimiter_keyed] in H. unfold U32_MAX in *.
  rewrite f64_of_int_exact in H by lia. pose proof f64_one_pos.
  specialize (H ltac:(nia) Hb eq_refl Hnone Hall Hs). unfold within_rate in H. unfold allowed_for.
  apply (Z.mul_le_mono_pos_r _ _ f64_one); [done|]. cbv zeta. lia.
Qed.

Lemma rate_limit_bound_witness :
  (2 ^ 53) ^ 4 * NANOS *
    allowed_for (V4 1) [(V4 1, 5); (V4 2, 6); (V4 1, 7); (V4 1, 600000000)]
      (RateLimiter_new {| rc_requests_per_second := 2; rc_burst := 1 |} 0)
  <= (2 ^ 53) ^ 4 * NANOS * 1 + (2 ^ 53 + 1) ^ 4 * 2 * (600000000 - 5)
     + 3 * ((2 ^ 53) ^ 3 * NANOS * (1 + 1)).
Proof.
  apply (rate_limit_bound (V4 1) [(V4 1, 5); (V4 2, 6); (V4 1, 7); (V4 1, 600000000)]
    (RateLimiter_new {| rc_requests_per_second := 2; rc_burst := 1 |} 0) 0);
    [by vm_compute|by vm_compute|reflexivity|by_decide|].
  repeat constructor; vm_compute; discriminate.
Defined.

(** Two different addresses never share tokens: a call of one address
    leaves the bucket of every other address as it was, unless that bucket was
    idle for more than ten minutes. *)
Theorem rate_limit_isolation ip ip' now rl b :
  ip' <> ip -> rl_buckets rl !! ip = Some b ->
  now - rb_last_refill b <= from_secs RATE_BUCKET_TTL_SECONDS ->
  rl_buckets (fst (allow ip' now rl)) !! ip = Some b.
Proof.
  intros Hne Hb Hle. pose proof (kl_other (KeyedLimiterLaws := RateLimiter_laws (rl_config rl))
    ip ip' now rl eq_refl Hne) as H. cbn in H.
  destruct (allow ip' now rl) as [rl' dec]. cbn in *. rewrite H; [done|]. intros b' Hb'. by simplify_eq.
Qed.

Lemma rate_limit_isolation_witness :
  let rl := {| rl_config := RateLimitConfig_default;
               rl_buckets := {[ V4 1 := fresh_bucket 0 5 ]}; rl_last_eviction := 0 |} in
  rl_buckets (fst (allow (V4 2) 9 rl)) !! V4 1 = Some (fresh_bucket 0 5).
Proof. intros rl. apply rate_limit_isolation; [done|reflexivity|by vm_compute]. Defined.

End Limiter.
