(* ===== verification/AdaptiveBlocker.v ===== *)
(** The adaptive blocker of the [ddos] crate: per-address sliding windows of
    traffic buckets, the thresholds that put an address on the watch list or
    block it, expiry, and the snapshots on disk; and [SecurityEngine], which
    puts blacklist, adaptive blocker and rate limiter in sequence.

    A call reads two clocks ([Instant::now], in nanoseconds, and the wall
    clock, in milliseconds) and may write files: [Readings] holds what they
    give during one call.  The snapshot files hold what [serde_json] makes of
    the entries; that crate is the class [SnapshotCodec]. *)
From stdpp Require Import options.
From S2P Require Import Prelude RustStr RustNum TokenBucket RustNet Ddos.

Local Open Scope Z_scope.

(** ** Data *)

Section data.
Context {NL : IpNetLib}.

Record AdaptiveBlockConfig := {
  abc_enabled : bool;
  abc_window_seconds : Z;
  abc_block_seconds : Z;
  abc_request_threshold : Z;
  abc_domain_threshold : Z;
  abc_high_request_threshold : Z;
  abc_high_request_domain_threshold : Z;
  abc_suspicious_path_threshold : Z;
  abc_suspicious_path_domain_threshold : Z;
  abc_watchlist_suspicious_path_threshold : Z;
  abc_watchlist_suspicious_path_domain_threshold : Z;
  abc_watchlist_ttl_seconds : Z;
  abc_failure_threshold : Z;
  abc_failure_domain_threshold : Z;
  abc_max_tracked_ips : Z;
  abc_bucket_seconds : Z;
  abc_snapshot_path : rstr;
  abc_watchlist_snapshot_path : rstr;
  abc_exempt_cidrs : list IpNet;
  abc_suspicious_path_prefixes : list rstr;
}.

Definition default_exempt_cidrs : list IpNet :=
  omap (fun cidr => ok (net_from_str (lit cidr))) ["127.0.0.0/8"; "::1/128"; "10.88.0.0/24"]%string.

Definition AdaptiveBlockConfig_default : AdaptiveBlockConfig := {|
  abc_enabled := true;
  abc_window_seconds := 300;
  abc_block_seconds := 1800;
  abc_request_threshold := 300;
  abc_domain_threshold := 25;
  abc_high_request_threshold := 1200;
  abc_high_request_domain_threshold := 8;
  abc_suspicious_path_threshold := 25;
  abc_suspicious_path_domain_threshold := 5;
  abc_watchlist_suspicious_path_threshold := 5;
  abc_watchlist_suspicious_path_domain_threshold := 3;
  abc_watchlist_ttl_seconds := 86400;
  abc_failure_threshold := 200;
  abc_failure_domain_threshold := 15;
  abc_max_tracked_ips := 100000;
  abc_bucket_seconds := 10;
  abc_snapshot_path := lit "/data/security/auto-blocks.json";
  abc_watchlist_snapshot_path := lit "/data/security/watchlist.json";
  abc_exempt_cidrs := default_exempt_cidrs;
  abc_suspicious_path_prefixes := [];
|}.
End data.

Record RequestObservationInput := {
  ev_ip : IpAddr;
  ev_domain : rstr;
  ev_path : rstr;
  ev_status : Z;
  ev_timestamp_unix_ms : Z;
}.

Record AdaptiveBlockSnapshot := {
  bs_ip : IpAddr;
  bs_reason : rstr;
  bs_blocked_at_unix_ms : Z;
  bs_expires_at_unix_ms : Z;
  bs_requests : Z;
  bs_domains : Z;
  bs_failures : Z;
  bs_failure_domains : Z;
  bs_suspicious_paths : Z;
  bs_suspicious_domains : Z;
  bs_sample_domains : list rstr;
}.

Record SuspiciousIpWatchlistEntry := {
  wl_ip : IpAddr;
  wl_reason : rstr;
  wl_first_seen_unix_ms : Z;
  wl_last_seen_unix_ms : Z;
  wl_expires_at_unix_ms : Z;
  wl_requests : Z;
  wl_domains : Z;
  wl_failures : Z;
  wl_failure_domains : Z;
  wl_suspicious_paths : Z;
  wl_suspicious_domains : Z;
  wl_sample_domains : list rstr;
  wl_sample_paths : list rstr;
}.

Record TrafficBucket := {
  tb_start_ms : Z;
  tb_requests : Z;
  tb_failures : Z;
  tb_suspicious_paths : Z;
  tb_domains : gset rstr;
  tb_failure_domains : gset rstr;
  tb_suspicious_domains : gset rstr;
  tb_suspicious_path_samples : gset rstr;
}.
Definition TrafficBucket_at (start_ms : Z) : TrafficBucket := {|
  tb_start_ms := start_ms; tb_requests := 0; tb_failures := 0; tb_suspicious_paths := 0;
  tb_domains := ∅; tb_failure_domains := ∅; tb_suspicious_domains := ∅;
  tb_suspicious_path_samples := ∅ |}.

Record IpWindow := {
  iw_buckets : list TrafficBucket;
  iw_last_seen_ms : Z;
}.
Definition IpWindow_default : IpWindow := {| iw_buckets := []; iw_last_seen_ms := 0 |}.

Record WindowTotals := {
  wt_requests : Z;
  wt_domains : Z;
  wt_failures : Z;
  wt_failure_domains : Z;
  wt_suspicious_paths : Z;
  wt_suspicious_domains : Z;
  wt_sample_domains : list rstr;
  wt_sample_paths : list rstr;
}.

(** ** Pure helpers *)

Definition normalize_domain_for_tracking (domain : rstr) : rstr :=
  to_ascii_lowercase (trim_end_matches "."%char (trim domain)).

Definition normalize_path_for_tracking (path : rstr) : rstr :=
  let value := trim path in
  if is_empty value then lit "/"
  else
    let without_query := match split "?"%char value with p :: _ => p | [] => value end in
    let normalized := if starts_with (lit "/") without_query then without_query
                      else lit "/" ++ without_query in
    take_chars 160 normalized.

Definition SUSPICIOUS_PREFIXES : list rstr :=
  lits ["/.env"; "/.git/"; "/api/.git/"; "/wp-admin/install.php"; "/wp-cron.php"; "/xmlrpc.php";
        "/admin.php"; "/shell.php"; "/cmd.php"; "/wso.php"; "/c99.php"; "/r57.php";
        "/wp-content/plugins/"; "/wp-content/uploads/"; "/vendor/phpunit/"].

Definition is_suspicious_path (path : rstr) (configured_prefixes : list rstr) : bool :=
  let path := to_ascii_lowercase path in
  existsb (fun prefix => starts_with prefix path) SUSPICIOUS_PREFIXES
  || existsb (fun prefix => starts_with (to_ascii_lowercase prefix) path) configured_prefixes.

Fixpoint trim_buckets (oldest_allowed : Z) (buckets : list TrafficBucket) : list TrafficBucket :=
  match buckets with
  | b :: buckets' => if tb_start_ms b <? oldest_allowed then trim_buckets oldest_allowed buckets'
                     else buckets
  | [] => []
  end.

(** The sets of the totals are [HashSet]s; [elements] fixes the order in which
    [take(8)] sees them. *)
Definition union_of (f : TrafficBucket -> gset rstr) (buckets : list TrafficBucket) : gset rstr :=
  foldl (fun acc b => acc ∪ f b) ∅ buckets.
Definition sum_of (f : TrafficBucket -> Z) (buckets : list TrafficBucket) : Z :=
  foldl (fun acc b => add64 acc (f b)) 0 buckets.
Definition count_of (s : gset rstr) : Z := Z.of_nat (size s).

Definition window_totals (buckets : list TrafficBucket) : WindowTotals :=
  let domains := union_of tb_domains buckets in
  let samples := union_of tb_suspicious_path_samples buckets in
  {| wt_requests := sum_of tb_requests buckets;
     wt_domains := count_of domains;
     wt_failures := sum_of tb_failures buckets;
     wt_failure_domains := count_of (union_of tb_failure_domains buckets);
     wt_suspicious_paths := sum_of tb_suspicious_paths buckets;
     wt_suspicious_domains := count_of (union_of tb_suspicious_domains buckets);
     wt_sample_domains := sort_strings (take 8 (elements domains));
     wt_sample_paths := sort_strings (take 8 (elements samples)) |}.

(** The updates [record] makes to the bucket of an event. *)
Definition add_to_bucket (prefixes : list rstr) (ev : RequestObservationInput) (b : TrafficBucket)
  : TrafficBucket :=
  let domain := normalize_domain_for_tracking (ev_domain ev) in
  let suspicious := is_suspicious_path (ev_path ev) prefixes in
  let failed := 400 <=? ev_status ev in
  {| tb_start_ms := tb_start_ms b;
     tb_requests := add64 (tb_requests b) 1;
     tb_failures := if failed then add64 (tb_failures b) 1 else tb_failures b;
     tb_suspicious_paths := if suspicious then add64 (tb_suspicious_paths b) 1
                            else tb_suspicious_paths b;
     tb_domains := {[domain]} ∪ tb_domains b;
     tb_failure_domains := if failed then {[domain]} ∪ tb_failure_domains b
                           else tb_failure_domains b;
     tb_suspicious_domains := if suspicious then {[domain]} ∪ tb_suspicious_domains b
                              else tb_suspicious_domains b;
     tb_suspicious_path_samples :=
       if suspicious then {[normalize_path_for_tracking (ev_path ev)]} ∪ tb_suspicious_path_samples b
       else tb_suspicious_path_samples b |}.

(** The first bucket that starts at [start] is updated; a new one is pushed
    back if there is none. *)
Fixpoint update_bucket (start : Z) (f : TrafficBucket -> TrafficBucket)
    (buckets : list TrafficBucket) : list TrafficBucket :=
  match buckets with
  | [] => [f (TrafficBucket_at start)]
  | b :: buckets' => if tb_start_ms b =? start then f b :: buckets'
                     else b :: update_bucket start f buckets'
  end.

(** ** The blocker *)

(** [serde_json::to_vec_pretty] and [from_slice] on the two snapshot types. *)
Class SnapshotCodec := {
  Payload : Type;
  encode_blocks : list AdaptiveBlockSnapshot -> option Payload;
  decode_blocks : Payload -> option (list AdaptiveBlockSnapshot);
  encode_watch : list SuspiciousIpWatchlistEntry -> option Payload;
  decode_watch : Payload -> option (list SuspiciousIpWatchlistEntry);
}.
(** What was encoded decodes to itself. *)
Class SnapshotCodecLaws (C : SnapshotCodec) : Prop := {
  decode_encode_blocks : forall l p, encode_blocks l = Some p -> decode_blocks p = Some l;
  decode_encode_watch : forall l p, encode_watch l = Some p -> decode_watch p = Some l;
}.

(** The clocks and the file system during one call; [rd_io_ok] says whether
    the directory, the write and the rename of a snapshot succeed. *)
Record Readings := {
  rd_instant : Z;
  rd_now_ms : Z;
  rd_io_ok : bool;
}.

Section blocker.
Context {NL : IpNetLib} {SC : SnapshotCodec}.

Record AdaptiveBlocker := {
  ab_config : AdaptiveBlockConfig;
  ab_windows : gmap IpAddr IpWindow;
  ab_blocks : gmap IpAddr AdaptiveBlockSnapshot;
  ab_watchlist : gmap IpAddr SuspiciousIpWatchlistEntry;
  ab_last_eviction : Z;
  ab_last_snapshot : Z;
  (** the two snapshot files *)
  ab_block_file : option Payload;
  ab_watch_file : option Payload;
}.

Definition with_windows (w : gmap IpAddr IpWindow) (s : AdaptiveBlocker) : AdaptiveBlocker :=
  {| ab_config := ab_config s; ab_windows := w; ab_blocks := ab_blocks s;
     ab_watchlist := ab_watchlist s; ab_last_eviction := ab_last_eviction s;
     ab_last_snapshot := ab_last_snapshot s; ab_block_file := ab_block_file s;
     ab_watch_file := ab_watch_file s |}.
Definition with_blocks (b : gmap IpAddr AdaptiveBlockSnapshot) (s : AdaptiveBlocker)
  : AdaptiveBlocker :=
  {| ab_config := ab_config s; ab_windows := ab_windows s; ab_blocks := b;
     ab_watchlist := ab_watchlist s; ab_last_eviction := ab_last_eviction s;
     ab_last_snapshot := ab_last_snapshot s; ab_block_file := ab_block_file s;
     ab_watch_file := ab_watch_file s |}.
Definition with_watchlist (w : gmap IpAddr SuspiciousIpWatchlistEntry) (s : AdaptiveBlocker)
  : AdaptiveBlocker :=
  {| ab_config := ab_config s; ab_windows := ab_windows s; ab_blocks := ab_blocks s;
     ab_watchlist := w; ab_last_eviction := ab_last_eviction s;
     ab_last_snapshot := ab_last_snapshot s; ab_block_file := ab_block_file s;
     ab_watch_file := ab_watch_file s |}.
Definition with_instants (ev sn : Z) (s : AdaptiveBlocker) : AdaptiveBlocker :=
  {| ab_config := ab_config s; ab_windows := ab_windows s; ab_blocks := ab_blocks s;
     ab_watchlist := ab_watchlist s; ab_last_eviction := ev; ab_last_snapshot := sn;
     ab_block_file := ab_block_file s; ab_watch_file := ab_watch_file s |}.
Definition with_files (bf wf : option Payload) (s : AdaptiveBlocker) : AdaptiveBlocker :=
  {| ab_config := ab_config s; ab_windows := ab_windows s; ab_blocks := ab_blocks s;
     ab_watchlist := ab_watchlist s; ab_last_eviction := ab_last_eviction s;
     ab_last_snapshot := ab_last_snapshot s; ab_block_file := bf; ab_watch_file := wf |}.

Definition is_exempt (s : AdaptiveBlocker) (ip : IpAddr) : bool :=
  existsb (fun network => net_contains network ip) (abc_exempt_cidrs (ab_config s)).

Definition active (now_ms : Z) (m : gmap IpAddr AdaptiveBlockSnapshot)
  : list AdaptiveBlockSnapshot :=
  filter (fun b => now_ms < bs_expires_at_unix_ms b) (snd <$> map_to_list m).
Definition watched (now_ms : Z) (m : gmap IpAddr SuspiciousIpWatchlistEntry)
  : list SuspiciousIpWatchlistEntry :=
  filter (fun w => now_ms < wl_expires_at_unix_ms w) (snd <$> map_to_list m).

Definition active_blocks (now_ms : Z) (s : AdaptiveBlocker) : list AdaptiveBlockSnapshot :=
  active now_ms (ab_blocks s).
Definition watchlist (now_ms : Z) (s : AdaptiveBlocker) : list SuspiciousIpWatchlistEntry :=
  watched now_ms (ab_watchlist s).

(** *** Snapshots *)

Definition persist_snapshot (rd : Readings) (s : AdaptiveBlocker) : AdaptiveBlocker :=
  if rd_io_ok rd then
    match encode_blocks (active (rd_now_ms rd) (ab_blocks s)) with
    | Some p => with_files (Some p) (ab_watch_file s) s
    | None => s
    end
  else s.

Definition persist_watchlist_snapshot (rd : Readings) (s : AdaptiveBlocker) : AdaptiveBlocker :=
  if rd_io_ok rd then
    match encode_watch (watched (rd_now_ms rd) (ab_watchlist s)) with
    | Some p => with_files (ab_block_file s) (Some p) s
    | None => s
    end
  else s.

Definition load_block (now_ms : Z) (s : AdaptiveBlocker) (b : AdaptiveBlockSnapshot)
  : AdaptiveBlocker :=
  if (now_ms <? bs_expires_at_unix_ms b) && negb (is_exempt s (bs_ip b))
  then with_blocks (<[bs_ip b := b]> (ab_blocks s)) s else s.
Definition load_snapshot (rd : Readings) (s : AdaptiveBlocker) : AdaptiveBlocker :=
  match ab_block_file s ≫= decode_blocks with
  | Some blocks => foldl (load_block (rd_now_ms rd)) s blocks
  | None => s
  end.

Definition load_watch (now_ms : Z) (s : AdaptiveBlocker) (w : SuspiciousIpWatchlistEntry)
  : AdaptiveBlocker :=
  if (now_ms <? wl_expires_at_unix_ms w) && negb (is_exempt s (wl_ip w))
  then with_watchlist (<[wl_ip w := w]> (ab_watchlist s)) s else s.
Definition load_watchlist_snapshot (rd : Readings) (s : AdaptiveBlocker) : AdaptiveBlocker :=
  match ab_watch_file s ≫= decode_watch with
  | Some entries => foldl (load_watch (rd_now_ms rd)) s entries
  | None => s
  end.

(** [AdaptiveBlocker::new], given the files found on disk. *)
Definition AdaptiveBlocker_new (config : AdaptiveBlockConfig) (block_file watch_file : option Payload)
    (rd : Readings) : AdaptiveBlocker :=
  load_watchlist_snapshot rd (load_snapshot rd
    {| ab_config := config; ab_windows := ∅; ab_blocks := ∅; ab_watchlist := ∅;
       ab_last_eviction := rd_instant rd; ab_last_snapshot := rd_instant rd;
       ab_block_file := block_file; ab_watch_file := watch_file |}).

(** *** Decisions *)

Definition ADAPTIVE_BLOCK_REASON : rstr := lit "adaptive_ip_block".

Definition check (ip : IpAddr) (rd : Readings) (s : AdaptiveBlocker)
  : AdaptiveBlocker * option SecurityDecision :=
  if negb (abc_enabled (ab_config s)) then (s, None)
  else if is_exempt s ip then (s, None)
  else
    match ab_blocks s !! ip with
    | Some block =>
      if rd_now_ms rd <? bs_expires_at_unix_ms block
      then (s, Some (Blocked ADAPTIVE_BLOCK_REASON))
      else (persist_snapshot rd (with_blocks (delete ip (ab_blocks s)) s), None)
    | None => (s, None)
    end.

Definition trigger_reason (c : AdaptiveBlockConfig) (t : WindowTotals) : option rstr :=
  if (abc_request_threshold c <=? wt_requests t) && (abc_domain_threshold c <=? wt_domains t)
  then Some (lit "cross_domain_request_volume")
  else if (abc_high_request_threshold c <=? wt_requests t)
          && (abc_high_request_domain_threshold c <=? wt_domains t)
  then Some (lit "high_request_volume")
  else if (abc_suspicious_path_threshold c <=? wt_suspicious_paths t)
          && (abc_suspicious_path_domain_threshold c <=? wt_suspicious_domains t)
  then Some (lit "suspicious_path_scanner")
  else if (abc_failure_threshold c <=? wt_failures t)
          && (abc_failure_domain_threshold c <=? wt_failure_domains t)
  then Some (lit "cross_domain_failures")
  else None.

Definition should_watch (c : AdaptiveBlockConfig) (t : WindowTotals) : bool :=
  (abc_watchlist_suspicious_path_threshold c <=? wt_suspicious_paths t)
  && (abc_watchlist_suspicious_path_domain_threshold c <=? wt_suspicious_domains t).

Definition watch_entry (ip : IpAddr) (reason : rstr) (t : WindowTotals) (first now_ms expires : Z)
  : SuspiciousIpWatchlistEntry := {|
  wl_ip := ip; wl_reason := reason; wl_first_seen_unix_ms := first;
  wl_last_seen_unix_ms := now_ms; wl_expires_at_unix_ms := expires;
  wl_requests := wt_requests t; wl_domains := wt_domains t; wl_failures := wt_failures t;
  wl_failure_domains := wt_failure_domains t; wl_suspicious_paths := wt_suspicious_paths t;
  wl_suspicious_domains := wt_suspicious_domains t; wl_sample_domains := wt_sample_domains t;
  wl_sample_paths := wt_sample_paths t |}.

Definition watch_ip (ip : IpAddr) (reason : rstr) (t : WindowTotals) (now_ms : Z) (rd : Readings)
    (s : AdaptiveBlocker) : AdaptiveBlocker :=
  let expires := add64 now_ms (mul64 (Z.max (abc_watchlist_ttl_seconds (ab_config s)) 60) 1000) in
  let first := match ab_watchlist s !! ip with
               | Some existing => wl_first_seen_unix_ms existing
               | None => now_ms
               end in
  let is_new := match ab_watchlist s !! ip with Some _ => false | None => true end in
  let s := with_watchlist (<[ip := watch_entry ip reason t first now_ms expires]> (ab_watchlist s)) s in
  if is_new then persist_watchlist_snapshot rd s else s.

Definition block_entry (c : AdaptiveBlockConfig) (ip : IpAddr) (reason : rstr) (t : WindowTotals)
    (now_ms : Z) : AdaptiveBlockSnapshot := {|
  bs_ip := ip; bs_reason := reason; bs_blocked_at_unix_ms := now_ms;
  bs_expires_at_unix_ms := add64 now_ms (mul64 (Z.max (abc_block_seconds c) 1) 1000);
  bs_requests := wt_requests t; bs_domains := wt_domains t; bs_failures := wt_failures t;
  bs_failure_domains := wt_failure_domains t; bs_suspicious_paths := wt_suspicious_paths t;
  bs_suspicious_domains := wt_suspicious_domains t; bs_sample_domains := wt_sample_domains t |}.

Definition block_ip (ip : IpAddr) (reason : rstr) (t : WindowTotals) (now_ms : Z) (rd : Readings)
    (s : AdaptiveBlocker) : AdaptiveBlocker * AdaptiveBlockSnapshot :=
  let block := block_entry (ab_config s) ip reason t now_ms in
  (persist_snapshot rd (with_blocks (<[ip := block]> (ab_blocks s)) s), block).

(** *** Eviction *)

Definition evict_stale_windows (now_ms : Z) (s : AdaptiveBlocker) : AdaptiveBlocker :=
  let stale_after_ms := mul64 (add64 (Z.max (abc_window_seconds (ab_config s)) 1) 300) 1000 in
  with_windows
    (filter (fun kv => saturating_sub now_ms (iw_last_seen_ms (snd kv)) <= stale_after_ms)
       (ab_windows s)) s.

Definition ab_evict_if_due (now_ms : Z) (rd : Readings) (s : AdaptiveBlocker) : AdaptiveBlocker :=
  if duration_since (rd_instant rd) (ab_last_eviction s) <? from_secs 30 then s
  else
    let s := with_instants (rd_instant rd) (ab_last_snapshot s) s in
    let s := evict_stale_windows now_ms s in
    let s := with_blocks (filter (fun kv => now_ms < bs_expires_at_unix_ms (snd kv)) (ab_blocks s)) s in
    with_watchlist (filter (fun kv => now_ms < wl_expires_at_unix_ms (snd kv)) (ab_watchlist s)) s.

Definition persist_if_due (rd : Readings) (s : AdaptiveBlocker) : AdaptiveBlocker :=
  if duration_since (rd_instant rd) (ab_last_snapshot s) <? from_secs 30 then s
  else persist_watchlist_snapshot rd
         (persist_snapshot rd (with_instants (ab_last_eviction s) (rd_instant rd) s)).

(** *** Recording a request *)

Definition bucket_start_of (c : AdaptiveBlockConfig) (ts : Z) : Z :=
  let bucket_ms := mul64 (Z.max (abc_bucket_seconds c) 1) 1000 in
  ts / bucket_ms * bucket_ms.
Definition oldest_allowed_of (c : AdaptiveBlockConfig) (ts : Z) : Z :=
  saturating_sub ts (mul64 (Z.max (abc_window_seconds c) (Z.max (abc_bucket_seconds c) 1)) 1000).

(** The window of the event's address after the event. *)
Definition record_window (c : AdaptiveBlockConfig) (ev : RequestObservationInput) (w : IpWindow)
  : IpWindow :=
  {| iw_last_seen_ms := ev_timestamp_unix_ms ev;
     iw_buckets :=
       update_bucket (bucket_start_of c (ev_timestamp_unix_ms ev))
         (add_to_bucket (abc_suspicious_path_prefixes c) ev)
         (trim_buckets (oldest_allowed_of c (ev_timestamp_unix_ms ev)) (iw_buckets w)) |}.

Definition windows_full (s : AdaptiveBlocker) : bool :=
  abc_max_tracked_ips (ab_config s) <=? Z.of_nat (size (ab_windows s)).

Definition record_event (ev : RequestObservationInput) (rd : Readings) (s : AdaptiveBlocker)
  : AdaptiveBlocker * option AdaptiveBlockSnapshot :=
  let ts := ev_timestamp_unix_ms ev in
  let c := ab_config s in
  let w := record_window c ev (default IpWindow_default (ab_windows s !! ev_ip ev)) in
  let s := with_windows (<[ev_ip ev := w]> (ab_windows s)) s in
  let totals := window_totals (iw_buckets w) in
  let s := if should_watch c totals
           then watch_ip (ev_ip ev) (lit "suspicious_path_watch") totals ts rd s else s in
  match trigger_reason c totals with
  | Some reason => let '(s, b) := block_ip (ev_ip ev) reason totals ts rd s in (s, Some b)
  | None => (s, None)
  end.

Definition record (ev : RequestObservationInput) (rd : Readings) (s : AdaptiveBlocker)
  : AdaptiveBlocker * option AdaptiveBlockSnapshot :=
  let ts := ev_timestamp_unix_ms ev in
  if negb (abc_enabled (ab_config s)) || is_exempt s (ev_ip ev) then (s, None)
  else
    let s := persist_if_due rd (ab_evict_if_due ts rd s) in
    let '(s, decision) := check (ev_ip ev) rd s in
    match decision with
    | Some _ => (s, None)
    | None =>
      if windows_full s && match ab_windows s !! ev_ip ev with Some _ => false | None => true end then
        let s := evict_stale_windows ts s in
        if windows_full s then (s, None) else record_event ev rd s
      else record_event ev rd s
    end.

Definition unblock (ip : IpAddr) (rd : Readings) (s : AdaptiveBlocker) : AdaptiveBlocker * bool :=
  match ab_blocks s !! ip with
  | Some _ => (persist_snapshot rd (with_blocks (delete ip (ab_blocks s)) s), true)
  | None => (s, false)
  end.

Definition unwatch (ip : IpAddr) (rd : Readings) (s : AdaptiveBlocker) : AdaptiveBlocker * bool :=
  match ab_watchlist s !! ip with
  | Some _ => (persist_watchlist_snapshot rd (with_watchlist (delete ip (ab_watchlist s)) s), true)
  | None => (s, false)
  end.
End blocker.

(** ** The sliding window *)

(** The code keeps at most one bucket per interval; the reference keeps the
    whole history and filters it. *)
Section window.
Context {NL : IpNetLib}.
Variable c : AdaptiveBlockConfig.

Definition ev_start (e : RequestObservationInput) : Z :=
  bucket_start_of c (ev_timestamp_unix_ms e).
Definition ev_dom (e : RequestObservationInput) : rstr :=
  normalize_domain_for_tracking (ev_domain e).
Definition ev_sample (e : RequestObservationInput) : rstr :=
  normalize_path_for_tracking (ev_path e).
Definition ev_failed (e : RequestObservationInput) : Prop := (400 <=? ev_status e) = true.
Definition ev_suspicious (e : RequestObservationInput) : Prop :=
  is_suspicious_path (ev_path e) (abc_suspicious_path_prefixes c) = true.
#[local] Instance ev_failed_dec e : Decision (ev_failed e).
Proof. unfold ev_failed. apply _. Defined.
#[local] Instance ev_suspicious_dec e : Decision (ev_suspicious e).
Proof. unfold ev_suspicious. apply _. Defined.

Definition run_window (H : list RequestObservationInput) : IpWindow :=
  foldl (fun w e => record_window c e w) IpWindow_default H.

Definition values_of (f : RequestObservationInput -> rstr) (l : list RequestObservationInput)
  : gset rstr := list_to_set (f <$> l).

(** The totals of the events whose interval starts at [lo] or later. *)
Definition reference_totals (lo : Z) (H : list RequestObservationInput) : WindowTotals :=
  let W := filter (fun e => lo <= ev_start e) H in
  let F := filter ev_failed W in
  let S := filter ev_suspicious W in
  {| wt_requests := Z.of_nat (length W);
     wt_domains := count_of (values_of ev_dom W);
     wt_failures := Z.of_nat (length F);
     wt_failure_domains := count_of (values_of ev_dom F);
     wt_suspicious_paths := Z.of_nat (length S);
     wt_suspicious_domains := count_of (values_of ev_dom S);
     wt_sample_domains := sort_strings (take 8 (elements (values_of ev_dom W)));
     wt_sample_paths := sort_strings (take 8 (elements (values_of ev_sample S))) |}.

(** The bucket of the interval [s] for the events of that interval. *)
Definition fill (s : Z) (l : list RequestObservationInput) : TrafficBucket :=
  foldl (fun b e => add_to_bucket (abc_suspicious_path_prefixes c) e b) (TrafficBucket_at s) l.
Definition agg (s : Z) (H : list RequestObservationInput) : TrafficBucket :=
  fill s (filter (fun e => ev_start e = s) H).

Lemma fill_start s l : tb_start_ms (fill s l) = s.
Proof.
  induction l as [|e l IH] using rev_ind; [done|]. unfold fill in *. by rewrite foldl_app.
Qed.

Lemma agg_snoc_same H e :
  agg (ev_start e) (H ++ [e])
  = add_to_bucket (abc_suspicious_path_prefixes c) e (agg (ev_start e) H).
Proof. unfold agg, fill. rewrite filter_app, filter_cons_True by done. by rewrite foldl_app. Qed.

Lemma agg_snoc_other s H e : s <> ev_start e -> agg s (H ++ [e]) = agg s H.
Proof.
  intros Hs. unfold agg. rewrite filter_app, filter_cons_False by congruence.
  by rewrite filter_nil, app_nil_r.
Qed.

Lemma agg_none s H : (forall e, e ∈ H -> ev_start e <> s) -> agg s H = TrafficBucket_at s.
Proof.
  intros Hn. unfold agg. destruct (filter _ H) as [|e l] eqn:E; [done|].
  assert (e ∈ filter (fun e => ev_start e = s) H) as He by (rewrite E; set_solver).
  apply list_elem_of_filter in He as [? ?]. by destruct (Hn e).
Qed.

(** *** What a bucket holds *)

Lemma add64_small a b : 0 <= a -> 0 <= b -> a + b <= U64_MAX -> add64 a b = a + b.
Proof. intros. unfold add64. apply wrap64_small. unfold is_u64. lia. Qed.

Lemma count_snoc (P : RequestObservationInput -> Prop) {D : forall x, Decision (P x)} (b : bool) l e n :
  (P e <-> b = true) -> n = Z.of_nat (length (filter P l)) -> Z.of_nat (length l) + 1 <= U64_MAX ->
  (if b then add64 n 1 else n) = Z.of_nat (length (filter P (l ++ [e]))).
Proof.
  intros Hb -> Hl. pose proof (length_filter P l). rewrite filter_app, length_app. destruct b.
  - rewrite filter_cons_True by tauto. rewrite add64_small by lia. rewrite filter_nil. simpl. lia.
  - rewrite filter_cons_False by (intros Hp; by apply Hb in Hp). rewrite filter_nil. simpl. lia.
Qed.

Lemma values_snoc (P : RequestObservationInput -> Prop) {D : forall x, Decision (P x)} (b : bool) f l e s :
  (P e <-> b = true) -> s = values_of f (filter P l) ->
  (if b then {[f e]} ∪ s else s) = values_of f (filter P (l ++ [e])).
Proof.
  intros Hb ->. unfold values_of. rewrite filter_app, fmap_app, list_to_set_app_L. destruct b.
  - rewrite filter_cons_True by tauto. rewrite filter_nil. simpl. set_solver.
  - rewrite filter_cons_False by (intros Hp; by apply Hb in Hp). rewrite filter_nil. simpl. set_solver.
Qed.

Record bucket_holds (b : TrafficBucket) (l : list RequestObservationInput) : Prop := {
  bh_requests : tb_requests b = Z.of_nat (length l);
  bh_failures : tb_failures b = Z.of_nat (length (filter ev_failed l));
  bh_suspicious : tb_suspicious_paths b = Z.of_nat (length (filter ev_suspicious l));
  bh_domains : tb_domains b = values_of ev_dom l;
  bh_failure_domains : tb_failure_domains b = values_of ev_dom (filter ev_failed l);
  bh_suspicious_domains : tb_suspicious_domains b = values_of ev_dom (filter ev_suspicious l);
  bh_samples : tb_suspicious_path_samples b = values_of ev_sample (filter ev_suspicious l);
}.

Lemma fill_holds s l : Z.of_nat (length l) <= U64_MAX -> bucket_holds (fill s l) l.
Proof.
  induction l as [|e l IH] using rev_ind; intros Hlen; [by split|].
  rewrite length_app in Hlen. cbn [length] in Hlen. destruct IH; [lia|].
  unfold fill in *. rewrite foldl_app. cbn [foldl]. set (b := foldl _ _ l) in *. clearbody b.
  split; cbn [add_to_bucket tb_requests tb_failures tb_suspicious_paths tb_domains
    tb_failure_domains tb_suspicious_domains tb_suspicious_path_samples].
  - rewrite add64_small by lia. rewrite length_app. simpl. lia.
  - apply count_snoc; [done|done|lia].
  - apply count_snoc; [done|done|lia].
  - unfold values_of in *. rewrite fmap_app, list_to_set_app_L. fold (ev_dom e). simpl. set_solver.
  - by apply (values_snoc _ _ ev_dom).
  - by apply (values_snoc _ _ ev_dom).
  - by apply (values_snoc _ _ ev_sample).
Qed.

(** *** The buckets of a window *)

Record window_inv (lo : Z) (H : list RequestObservationInput) (bs : list TrafficBucket) : Prop := {
  wi_sorted : StronglySorted Z.lt (tb_start_ms <$> bs);
  wi_agg : Forall (fun b => b = agg (tb_start_ms b) H) bs;
  wi_cover : forall e, e ∈ H -> lo <= ev_start e -> ev_start e ∈ tb_start_ms <$> bs;
  wi_recent : Forall (fun b => lo <= tb_start_ms b) bs;
  wi_from : Forall (fun b => exists e, e ∈ H /\ ev_start e = tb_start_ms b) bs;
}.

Lemma trim_inv lo lo' H bs : lo <= lo' -> window_inv lo H bs -> window_inv lo' H (trim_buckets lo' bs).
Proof.
  intros Hlo [Hs Ha Hc _ Hf].
  assert (forall e, e ∈ H -> lo' <= ev_start e -> ev_start e ∈ tb_start_ms <$> bs) as Hc'.
  { intros e He Hge. apply Hc; [done|lia]. }
  clear Hc. induction bs as [|b bs IH]; [by split|].
  cbn [trim_buckets]. apply Forall_cons in Ha as [Hab Ha]. apply Forall_cons in Hf as [Hfb Hf].
  rewrite fmap_cons in Hs. apply StronglySorted_inv in Hs as [Hs Hb].
  destruct (tb_start_ms b <? lo') eqn:E; bools.
  - apply IH; [done|done|done|]. intros e He Hge. specialize (Hc' e He Hge).
    rewrite fmap_cons in Hc'. apply elem_of_cons in Hc' as [?|?]; [lia|done].
  - split; [by constructor|by constructor|done| |by constructor]. constructor; [done|].
    rewrite Forall_fmap in Hb. eapply Forall_impl; [exact Hb|]. simpl. intros x Hx. lia.
Qed.

Lemma update_bucket_starts s f bs :
  (forall b, tb_start_ms (f b) = tb_start_ms b) ->
  Forall (fun b => tb_start_ms b <= s) bs -> StronglySorted Z.lt (tb_start_ms <$> bs) ->
  StronglySorted Z.lt (tb_start_ms <$> update_bucket s f bs) /\
  (forall x, x ∈ tb_start_ms <$> update_bucket s f bs <-> x = s \/ x ∈ tb_start_ms <$> bs).
Proof.
  intros Hf. induction bs as [|b bs IH]; intros Hle Hs.
  { simpl. rewrite Hf. split; [repeat constructor|]. intros x. simpl. set_solver. }
  apply Forall_cons in Hle as [Hb Hle]. rewrite fmap_cons in Hs.
  apply StronglySorted_inv in Hs as [Hs Hlt]. cbn [update_bucket].
  destruct (tb_start_ms b =? s) eqn:E; bools.
  - rewrite !fmap_cons, Hf. split; [by constructor|]. intros x. rewrite !elem_of_cons. subst s. tauto.
  - destruct (IH Hle Hs) as [IH1 IH2]. rewrite !fmap_cons. split.
    + constructor; [done|]. apply Forall_forall. intros x Hx.
      apply IH2 in Hx as [->|Hx]; [lia|]. rewrite Forall_forall in Hlt. by apply Hlt.
    + intros x. rewrite !elem_of_cons, IH2. tauto.
Qed.

Lemma update_bucket_agg H e bs :
  Forall (fun b => b = agg (tb_start_ms b) H) bs ->
  StronglySorted Z.lt (tb_start_ms <$> bs) ->
  (ev_start e ∉ tb_start_ms <$> bs -> agg (ev_start e) H = TrafficBucket_at (ev_start e)) ->
  Forall (fun b => b = agg (tb_start_ms b) (H ++ [e]))
    (update_bucket (ev_start e) (add_to_bucket (abc_suspicious_path_prefixes c) e) bs).
Proof.
  intros Ha Hs Hnew. induction bs as [|b bs IH].
  { simpl. constructor; [|constructor]. simpl tb_start_ms. rewrite agg_snoc_same, Hnew; set_solver. }
  apply Forall_cons in Ha as [Hb Ha]. rewrite fmap_cons in Hs, Hnew.
  apply StronglySorted_inv in Hs as [Hs Hlt]. cbn [update_bucket].
  destruct (tb_start_ms b =? ev_start e) eqn:E; bools.
  - constructor.
    + simpl tb_start_ms. rewrite E, agg_snoc_same. f_equal. by rewrite <- E.
    + rewrite Forall_fmap in Hlt. apply Forall_forall. intros x Hx.
      rewrite Forall_forall in Ha, Hlt. specialize (Hlt x Hx). simpl in Hlt.
      rewrite agg_snoc_other by lia. by apply Ha.
  - constructor; [by rewrite agg_snoc_other by done|]. apply IH; [done|done|].
    intros Hn. apply Hnew. rewrite not_elem_of_cons. split; [congruence|done].
Qed.

(** The bounds under which the arithmetic of the window does not wrap. *)
Record window_config_ok : Prop := {
  wc_bucket : 0 <= abc_bucket_seconds c /\ Z.max (abc_bucket_seconds c) 1 * 1000 <= U64_MAX;
  wc_window : 0 <= abc_window_seconds c /\
    Z.max (abc_window_seconds c) (Z.max (abc_bucket_seconds c) 1) * 1000 <= U64_MAX;
}.
Hypothesis Hcfg : window_config_ok.

Lemma bucket_start_eq t :
  bucket_start_of c t = t / (Z.max (abc_bucket_seconds c) 1 * 1000)
                          * (Z.max (abc_bucket_seconds c) 1 * 1000).
Proof using Hcfg.
  destruct Hcfg as [[? ?] _]. unfold bucket_start_of, mul64.
  rewrite wrap64_small by (unfold is_u64; lia). done.
Qed.

Lemma bucket_start_mono t t' : t <= t' -> bucket_start_of c t <= bucket_start_of c t'.
Proof using Hcfg.
  intros H. rewrite !bucket_start_eq. apply Z.mul_le_mono_nonneg_r; [lia|].
  apply Z.div_le_mono; lia.
Qed.

Lemma bucket_start_recent t : 0 <= t -> oldest_allowed_of c t <= bucket_start_of c t.
Proof using Hcfg.
  intros Ht. rewrite bucket_start_eq. destruct Hcfg as [[? ?] [? ?]].
  unfold oldest_allowed_of, mul64, saturating_sub. rewrite wrap64_small by (unfold is_u64; lia).
  set (d := Z.max (abc_bucket_seconds c) 1 * 1000) in *.
  pose proof (Z.div_mod t d ltac:(lia)). pose proof (Z.mod_pos_bound t d ltac:(lia)).
  pose proof (Z.div_pos t d Ht ltac:(lia)). nia.
Qed.

Lemma oldest_mono t t' : t <= t' -> oldest_allowed_of c t <= oldest_allowed_of c t'.
Proof. intros H. unfold oldest_allowed_of, saturating_sub. lia. Qed.

Definition last_seen (H : list RequestObservationInput) : Z :=
  default 0 (ev_timestamp_unix_ms <$> last H).

(** Recording an event that is not older than the others keeps the invariant. *)
Lemma record_window_inv H e w :
  Forall (fun e' => 0 <= ev_timestamp_unix_ms e' <= ev_timestamp_unix_ms e) H ->
  0 <= ev_timestamp_unix_ms e ->
  window_inv (oldest_allowed_of c (last_seen H)) H (iw_buckets w) ->
  window_inv (oldest_allowed_of c (ev_timestamp_unix_ms e)) (H ++ [e])
    (iw_buckets (record_window c e w)).
Proof using Hcfg.
  intros Hold Ht Hinv. set (t := ev_timestamp_unix_ms e) in *.
  assert (last_seen H <= t) as Hls.
  { unfold last_seen. destruct (last H) as [e'|] eqn:El; simpl; [|lia].
    apply last_Some_elem_of in El. rewrite Forall_forall in Hold. apply Hold in El. lia. }
  apply (trim_inv _ (oldest_allowed_of c t)) in Hinv; [|by apply oldest_mono].
  cbn [record_window iw_buckets]. fold t.
  set (bs := trim_buckets _ _) in *. clearbody bs. destruct Hinv as [Hs Ha Hc Hr Hf].
  assert (Forall (fun b => tb_start_ms b <= ev_start e) bs) as Hle.
  { eapply Forall_impl; [exact Hf|]. simpl. intros b (e' & He' & <-).
    rewrite Forall_forall in Hold. apply bucket_start_mono, (Hold e' He'). }
  destruct (update_bucket_starts (ev_start e)
    (add_to_bucket (abc_suspicious_path_prefixes c) e) bs ltac:(done) Hle Hs) as [Hs' Hin].
  assert (oldest_allowed_of c t <= ev_start e) as Hrec by (by apply bucket_start_recent).
  fold (ev_start e). split.
  - exact Hs'.
  - apply update_bucket_agg; [done|done|]. intros Hn. apply agg_none. intros e' He' E.
    apply Hn. rewrite <- E. apply Hc; [done|]. by rewrite E.
  - intros e' [He'|He'%list_elem_of_singleton]%elem_of_app Hge; apply Hin.
    + right. by apply Hc.
    + left. by subst.
  - apply Forall_forall. intros b Hb.
    assert (tb_start_ms b ∈ tb_start_ms <$> update_bucket (ev_start e)
      (add_to_bucket (abc_suspicious_path_prefixes c) e) bs) as Hb' by (by apply list_elem_of_fmap_2).
    apply Hin in Hb' as [->|Hb']; [done|].
    apply list_elem_of_fmap in Hb' as (x & -> & Hx). rewrite Forall_forall in Hr. by apply Hr.
  - apply Forall_forall. intros b Hb.
    assert (tb_start_ms b ∈ tb_start_ms <$> update_bucket (ev_start e)
      (add_to_bucket (abc_suspicious_path_prefixes c) e) bs) as Hb' by (by apply list_elem_of_fmap_2).
    apply Hin in Hb' as [->|Hb']; [exists e; set_solver|].
    apply list_elem_of_fmap in Hb' as (x & -> & Hx). rewrite Forall_forall in Hf.
    destruct (Hf x Hx) as (e' & ? & ?). exists e'. set_solver.
Qed.

(** Events in the order of their timestamps. *)
Definition in_order (H : list RequestObservationInput) : Prop :=
  StronglySorted Z.le (ev_timestamp_unix_ms <$> H) /\
  Forall (fun e => 0 <= ev_timestamp_unix_ms e) H.

Lemma in_order_snoc H e :
  in_order (H ++ [e]) ->
  in_order H /\ 0 <= ev_timestamp_unix_ms e /\
  Forall (fun e' => 0 <= ev_timestamp_unix_ms e' <= ev_timestamp_unix_ms e) H.
Proof.
  intros [Hs Hp]. rewrite fmap_app in Hs. apply Forall_app in Hp as [Hp He].
  apply Forall_cons in He as [He _]. apply StronglySorted_app in Hs as (Hle & Hs & _).
  split; [by split|]. split; [exact He|]. apply Forall_forall. intros e' He'.
  rewrite Forall_forall in Hp. split; [by apply Hp|]. apply Hle; [|set_solver].
  by apply list_elem_of_fmap_2.
Qed.

Lemma run_window_inv H :
  in_order H -> window_inv (oldest_allowed_of c (last_seen H)) H (iw_buckets (run_window H)).
Proof using Hcfg.
  induction H as [|e H IH] using rev_ind; intros Ho.
  { split; simpl; [constructor|constructor|set_solver|constructor|constructor]. }
  apply in_order_snoc in Ho as (Ho & Ht & Hold). unfold run_window. rewrite foldl_app. cbn [foldl].
  unfold last_seen. rewrite last_snoc. cbn [fmap option_fmap option_map default].
  apply record_window_inv; [done|done|by apply IH].
Qed.

(** *** The totals *)

Lemma count_partition (l : list RequestObservationInput) (starts : list Z) :
  NoDup starts ->
  foldr (fun s n => (length (filter (fun e => ev_start e = s) l) + n)%nat) O starts
  = length (filter (fun e => ev_start e ∈ starts) l).
Proof.
  induction starts as [|s starts IH]; intros Hnd.
  { simpl. induction l as [|e l IHl]; [done|]. rewrite filter_cons_False; [done|set_solver]. }
  apply NoDup_cons in Hnd as [Hs Hnd]. simpl. rewrite IH by done. clear IH.
  induction l as [|e l IHl]; [done|]. destruct (decide (ev_start e = s)) as [E|E].
  - rewrite (filter_cons_True (fun e => ev_start e = s)) by done.
    rewrite (filter_cons_False (fun e => ev_start e ∈ starts)) by (by rewrite E).
    rewrite filter_cons_True by (rewrite E; set_solver). simpl. lia.
  - rewrite (filter_cons_False (fun e => ev_start e = s)) by done.
    destruct (decide (ev_start e ∈ starts)) as [Hin|Hin].
    + rewrite (filter_cons_True (fun e => ev_start e ∈ starts)) by done.
      rewrite filter_cons_True by set_solver. simpl. lia.
    + rewrite (filter_cons_False (fun e => ev_start e ∈ starts)) by done.
      rewrite filter_cons_False by set_solver. done.
Qed.

Lemma sum_of_counts (f : TrafficBucket -> Z) (P : RequestObservationInput -> Prop)
    {D : forall x, Decision (P x)} H bs :
  Z.of_nat (length H) <= U64_MAX -> NoDup (tb_start_ms <$> bs) ->
  Forall (fun b => f b = Z.of_nat (length (filter P (filter (fun e => ev_start e = tb_start_ms b) H)))) bs ->
  sum_of f bs = Z.of_nat (length (filter P (filter (fun e => ev_start e ∈ tb_start_ms <$> bs) H))).
Proof.
  intros Hlen Hnd Hf.
  assert (forall Q1 Q2 : RequestObservationInput -> Prop, forall (D1 : forall x, Decision (Q1 x))
            (D2 : forall x, Decision (Q2 x)) l,
            length (filter Q1 (filter Q2 l)) = length (filter Q2 (filter Q1 l))) as Hcomm.
  { intros. rewrite !list_filter_filter. f_equal. apply list_filter_iff. tauto. }
  rewrite Hcomm, <- count_partition by done.
  set (l := filter P H).
  assert (Forall (fun b => f b = Z.of_nat (length (filter (fun e => ev_start e = tb_start_ms b) l))) bs)
    as Hf'.
  { eapply Forall_impl; [exact Hf|]. simpl. intros b ->. by rewrite Hcomm. }
  assert (forall ss, NoDup ss ->
    (foldr (fun s n => (length (filter (fun e => ev_start e = s) l) + n)%nat) O ss <= length l)%nat)
    as Hbound.
  { intros ss Hss. rewrite count_partition by done. apply length_filter. }
  assert (length l <= length H)%nat as Hl by apply length_filter.
  unfold sum_of. clear Hf Hcomm.
  assert (forall acc, 0 <= acc ->
    acc + Z.of_nat (foldr (fun s n => (length (filter (fun e => ev_start e = s) l) + n)%nat) O
                      (tb_start_ms <$> bs)) <= U64_MAX ->
    foldl (fun a b => add64 a (f b)) acc bs =
    acc + Z.of_nat (foldr (fun s n => (length (filter (fun e => ev_start e = s) l) + n)%nat) O
                      (tb_start_ms <$> bs))) as Hgen.
  { clear Hbound Hnd. induction bs as [|b bs IH]; intros acc Ha Hb; [simpl; lia|].
    apply Forall_cons in Hf' as [Hfb Hf']. cbn [foldl]. rewrite fmap_cons in *. cbn [foldr] in *.
    rewrite add64_small by lia. rewrite (IH Hf') by lia. lia. }
  rewrite Hgen; [done|lia|]. specialize (Hbound _ Hnd). lia.
Qed.

Lemma union_of_values (g : TrafficBucket -> gset rstr) (f : RequestObservationInput -> rstr)
    (P : RequestObservationInput -> Prop) {D : forall x, Decision (P x)} H bs :
  Forall (fun b => g b = values_of f (filter P (filter (fun e => ev_start e = tb_start_ms b) H))) bs ->
  union_of g bs = values_of f (filter P (filter (fun e => ev_start e ∈ tb_start_ms <$> bs) H)).
Proof.
  intros Hg.
  assert (forall x acc, x ∈ foldl (fun acc b => acc ∪ g b) acc bs <->
            x ∈ acc \/ exists b, b ∈ bs /\ x ∈ g b) as Hgen.
  { clear Hg. induction bs as [|b bs IH]; intros x acc; simpl; [set_solver|]. rewrite IH. set_solver. }
  apply set_eq. intros x. unfold union_of. rewrite Hgen. unfold values_of.
  rewrite elem_of_list_to_set, list_elem_of_fmap. setoid_rewrite list_elem_of_filter.
  setoid_rewrite list_elem_of_filter. setoid_rewrite list_elem_of_fmap.
  rewrite Forall_forall in Hg. split.
  - intros [?|(b & Hb & Hx)]; [set_solver|]. rewrite (Hg b Hb) in Hx. unfold values_of in Hx.
    rewrite elem_of_list_to_set, list_elem_of_fmap in Hx. destruct Hx as (e & -> & He).
    rewrite !list_elem_of_filter in He. exists e. naive_solver.
  - intros (e & -> & HP & (b & Hb1 & Hb) & He). right. exists b. split; [done|].
    rewrite (Hg b Hb). unfold values_of. rewrite elem_of_list_to_set, list_elem_of_fmap.
    exists e. by rewrite !list_elem_of_filter.
Qed.

Lemma filter_true {A} (l : list A) : filter (fun _ => True) l = l.
Proof. induction l as [|x l IH]; [done|]. rewrite filter_cons_True by done. by rewrite IH. Qed.

Lemma sorted_lt_NoDup l : StronglySorted Z.lt l -> NoDup l.
Proof.
  induction 1 as [|x l Hs IH Hx]; constructor; [|done].
  intros Hin. rewrite Forall_forall in Hx. specialize (Hx x Hin). lia.
Qed.

Lemma filter_ext_in {A} (P Q : A -> Prop) {DP : forall x, Decision (P x)}
    {DQ : forall x, Decision (Q x)} (l : list A) :
  (forall x, x ∈ l -> P x <-> Q x) -> filter P l = filter Q l.
Proof.
  induction l as [|x l IH]; intros H; [done|].
  specialize (IH ltac:(intros y Hy; apply H; set_solver)).
  destruct (decide (P x)) as [Hp|Hp].
  - rewrite !filter_cons_True by (try apply H; set_solver). by rewrite IH.
  - rewrite !filter_cons_False by (try rewrite <- H; set_solver). by rewrite IH.
Qed.

(** C30: The bucketed window computes the sliding window: after any history of
    requests in the order of their timestamps, the totals taken from the
    buckets are those of the requests of the whole history whose interval
    starts no earlier than the window's oldest allowed instant, counts,
    distinct domains and samples alike. *)
Theorem window_totals_reference H :
  in_order H -> Z.of_nat (length H) <= U64_MAX ->
  window_totals (iw_buckets (run_window H))
  = reference_totals (oldest_allowed_of c (last_seen H)) H.
Proof using Hcfg.
  intros Ho Hlen. destruct (run_window_inv H Ho) as [Hs Ha Hc Hr _].
  set (bs := iw_buckets (run_window H)) in *. set (lo := oldest_allowed_of c (last_seen H)) in *.
  assert (NoDup (tb_start_ms <$> bs)) as Hnd.
  { by apply sorted_lt_NoDup. }
  assert (Forall (fun b => bucket_holds b (filter (fun e => ev_start e = tb_start_ms b) H)) bs) as Hh.
  { eapply Forall_impl; [exact Ha|]. simpl. intros b Hb. rewrite Hb at 1. unfold agg. 
    apply fill_holds. pose proof (length_filter (fun e => ev_start e = tb_start_ms b) H). lia. }
  assert (filter (fun e => ev_start e ∈ tb_start_ms <$> bs) H = filter (fun e => lo <= ev_start e) H) as EW.
  { apply filter_ext_in. intros e He. split; [|by apply Hc].
    intros (b & -> & Hb)%list_elem_of_fmap. rewrite Forall_forall in Hr. by apply Hr. }
  assert (forall (R : TrafficBucket -> list RequestObservationInput -> Prop),
            (forall b l, bucket_holds b l -> R b l) ->
            Forall (fun b => R b (filter (fun e => ev_start e = tb_start_ms b) H)) bs) as Hfield.
  { intros R HR. eapply Forall_impl; [exact Hh|]. simpl. auto. }
  unfold window_totals, reference_totals. rewrite <- EW. f_equal.
  - rewrite (sum_of_counts tb_requests (fun _ => True) H bs), filter_true; [done..|].
    apply (Hfield (fun b l => tb_requests b = Z.of_nat (length (filter (fun _ => True) l)))).
    intros b l []. by rewrite filter_true.
  - f_equal. rewrite (union_of_values tb_domains ev_dom (fun _ => True) H bs), filter_true; [done|].
    apply (Hfield (fun b l => tb_domains b = values_of ev_dom (filter (fun _ => True) l))).
    intros b l []. by rewrite filter_true.
  - apply sum_of_counts; [done..|].
    apply (Hfield (fun b l => tb_failures b = Z.of_nat (length (filter ev_failed l)))). by intros ? ? [].
  - f_equal. apply union_of_values.
    apply (Hfield (fun b l => tb_failure_domains b = values_of ev_dom (filter ev_failed l))). by intros ? ? [].
  - apply sum_of_counts; [done..|].
    apply (Hfield (fun b l => tb_suspicious_paths b = Z.of_nat (length (filter ev_suspicious l)))).
    by intros ? ? [].
  - f_equal. apply union_of_values.
    apply (Hfield (fun b l => tb_suspicious_domains b = values_of ev_dom (filter ev_suspicious l))).
    by intros ? ? [].
  - do 3 f_equal. rewrite (union_of_values tb_domains ev_dom (fun _ => True) H bs), filter_true; [done|].
    apply (Hfield (fun b l => tb_domains b = values_of ev_dom (filter (fun _ => True) l))).
    intros b l []. by rewrite filter_true.
  - do 3 f_equal. apply union_of_values.
    apply (Hfield (fun b l => tb_suspicious_path_samples b = values_of ev_sample (filter ev_suspicious l))).
    by intros ? ? [].
Qed.
End window.

Definition example_event (t : Z) (d p : string) (status : Z) : RequestObservationInput :=
  {| ev_ip := V4 7; ev_domain := lit d; ev_path := lit p; ev_status := status;
     ev_timestamp_unix_ms := t |}.

Lemma window_totals_reference_witness :
  wt_domains (window_totals (iw_buckets (run_window (@AdaptiveBlockConfig_default CidrLib)
    [example_event 1000 "a.io" "/" 200; example_event 305000 "b.io" "/.env" 404;
     example_event 306000 "B.io." "/x" 500; example_event 312000 "c.io" "/" 200]))) = 2.
Proof.
  rewrite window_totals_reference; [vm_compute; reflexivity| | |vm_compute; discriminate].
  - split; by vm_compute.
  - split; [repeat constructor; vm_compute; discriminate|by_decide].
Defined.

(** ** Blocks *)

Section blocks.
Context {NL : IpNetLib} {SC : SnapshotCodec}.
Implicit Types s : AdaptiveBlocker.

(** *** The operations of the blocker as a transition system *)

Inductive blocker_step : AdaptiveBlocker -> AdaptiveBlocker -> Prop :=
| step_check ip rd s : blocker_step s (fst (check ip rd s))
| step_record ev rd s : blocker_step s (fst (record ev rd s))
| step_unblock ip rd s : blocker_step s (fst (unblock ip rd s))
| step_unwatch ip rd s : blocker_step s (fst (unwatch ip rd s)).

Inductive reachable (config : AdaptiveBlockConfig) : AdaptiveBlocker -> Prop :=
| reach_new bf wf rd : reachable config (AdaptiveBlocker_new config bf wf rd)
| reach_step s s' : reachable config s -> blocker_step s s' -> reachable config s'.

(** Every entry is under its own address, and no entry is exempt. *)
Record entries_ok s : Prop := {
  eo_blocks : forall ip b, ab_blocks s !! ip = Some b -> bs_ip b = ip /\ is_exempt s ip = false;
  eo_watch : forall ip w, ab_watchlist s !! ip = Some w -> wl_ip w = ip /\ is_exempt s ip = false;
}.

(** A step keeps the configuration; it may drop entries, and the entries it
    puts are good. *)
Definition refines_entries s s' : Prop :=
  ab_config s' = ab_config s /\
  (forall ip b, ab_blocks s' !! ip = Some b ->
     ab_blocks s !! ip = Some b \/ (bs_ip b = ip /\ is_exempt s ip = false)) /\
  (forall ip w, ab_watchlist s' !! ip = Some w ->
     ab_watchlist s !! ip = Some w \/ (wl_ip w = ip /\ is_exempt s ip = false)).

Lemma is_exempt_config s s' ip : ab_config s' = ab_config s -> is_exempt s' ip = is_exempt s ip.
Proof. unfold is_exempt. by intros ->. Qed.

Lemma refines_refl s : refines_entries s s.
Proof. repeat split; auto. Qed.
Lemma refines_trans s1 s2 s3 :
  refines_entries s1 s2 -> refines_entries s2 s3 -> refines_entries s1 s3.
Proof.
  intros (C1 & B1 & W1) (C2 & B2 & W2). split; [congruence|]. split.
  - intros ip b H. apply B2 in H as [H|[? H]]; [by apply B1|right].
    by rewrite (is_exempt_config s1 s2) in H.
  - intros ip w H. apply W2 in H as [H|[? H]]; [by apply W1|right].
    by rewrite (is_exempt_config s1 s2) in H.
Qed.
Lemma refines_ok s s' : refines_entries s s' -> entries_ok s -> entries_ok s'.
Proof.
  intros (C & B & W) [Hb Hw]. split.
  - intros ip b H. rewrite (is_exempt_config s s') by done. apply B in H as [H|H]; [by apply Hb|done].
  - intros ip w H. rewrite (is_exempt_config s s') by done. apply W in H as [H|H]; [by apply Hw|done].
Qed.

Lemma refines_persist rd s : refines_entries s (persist_snapshot rd s).
Proof. unfold persist_snapshot. repeat case_match; repeat split; auto. Qed.
Lemma refines_persist_watch rd s : refines_entries s (persist_watchlist_snapshot rd s).
Proof. unfold persist_watchlist_snapshot. repeat case_match; repeat split; auto. Qed.
Lemma refines_windows w s : refines_entries s (with_windows w s).
Proof. repeat split; auto. Qed.
Lemma refines_delete_block ip s : refines_entries s (with_blocks (delete ip (ab_blocks s)) s).
Proof.
  repeat split; auto. simpl. intros ip' b H. left. apply lookup_delete_Some in H. tauto.
Qed.
Lemma refines_delete_watch ip s : refines_entries s (with_watchlist (delete ip (ab_watchlist s)) s).
Proof.
  repeat split; auto. simpl. intros ip' b H. left. apply lookup_delete_Some in H. tauto.
Qed.
Lemma refines_evict now rd s : refines_entries s (ab_evict_if_due now rd s).
Proof.
  unfold ab_evict_if_due. destruct (_ <? _); [apply refines_refl|]. repeat split; simpl.
  - intros ip b H. left. apply map_lookup_filter_Some in H. tauto.
  - intros ip b H. left. apply map_lookup_filter_Some in H. tauto.
Qed.
Lemma refines_persist_due rd s : refines_entries s (persist_if_due rd s).
Proof.
  unfold persist_if_due. destruct (_ <? _); [apply refines_refl|].
  eapply refines_trans; [|apply refines_persist_watch].
  eapply refines_trans; [|apply refines_persist]. repeat split; auto.
Qed.
Lemma refines_insert_block ip b s :
  bs_ip b = ip -> is_exempt s ip = false ->
  refines_entries s (with_blocks (<[ip := b]> (ab_blocks s)) s).
Proof.
  intros Hb He. repeat split; auto. simpl. intros ip' b' H.
  apply lookup_insert_Some in H as [[<- <-]|[_ H]]; auto.
Qed.
Lemma refines_insert_watch ip w s :
  wl_ip w = ip -> is_exempt s ip = false ->
  refines_entries s (with_watchlist (<[ip := w]> (ab_watchlist s)) s).
Proof.
  intros Hb He. repeat split; auto. simpl. intros ip' b' H.
  apply lookup_insert_Some in H as [[<- <-]|[_ H]]; auto.
Qed.
#[local] Hint Resolve refines_refl refines_persist refines_persist_watch refines_windows
  refines_delete_block refines_delete_watch refines_evict refines_persist_due : pxxl.

Lemma refines_check ip rd s : refines_entries s (fst (check ip rd s)).
Proof.
  unfold check. destruct (negb _); [auto with pxxl|]. destruct (is_exempt s ip); [auto with pxxl|].
  destruct (ab_blocks s !! ip) as [b|]; [|auto with pxxl]. destruct (_ <? _); [auto with pxxl|].
  simpl. eapply refines_trans; [|apply refines_persist]. auto with pxxl.
Qed.

Lemma refines_watch_ip ip r t now rd s :
  is_exempt s ip = false -> refines_entries s (watch_ip ip r t now rd s).
Proof.
  intros He. unfold watch_ip. destruct (ab_watchlist s !! ip).
  - by apply refines_insert_watch.
  - eapply refines_trans; [|apply refines_persist_watch]. by apply refines_insert_watch.
Qed.

Lemma refines_record_event ev rd s :
  is_exempt s (ev_ip ev) = false -> refines_entries s (fst (record_event ev rd s)).
Proof.
  intros He. unfold record_event. set (w := record_window _ _ _).
  set (t := window_totals _). set (s1 := with_windows _ s).
  assert (refines_entries s s1) as H1 by apply refines_windows.
  set (s2 := if should_watch _ _ then _ else _).
  assert (refines_entries s s2) as H2.
  { unfold s2. destruct (should_watch _ _); [|done]. eapply refines_trans; [exact H1|].
    by apply refines_watch_ip. }
  destruct (trigger_reason _ t); [|exact H2]. simpl.
  eapply refines_trans; [|apply refines_persist]. eapply refines_trans; [exact H2|].
  apply refines_insert_block; [done|]. rewrite (is_exempt_config s s2); [done|]. apply H2.
Qed.

Lemma refines_record ev rd s : refines_entries s (fst (record ev rd s)).
Proof.
  unfold record. destruct (negb _); [auto with pxxl|]. cbn [orb].
  destruct (is_exempt s (ev_ip ev)) eqn:He; [auto with pxxl|].
  set (s1 := persist_if_due rd _).
  assert (refines_entries s s1) as H1.
  { eapply refines_trans; [apply refines_evict|apply refines_persist_due]. }
  pose proof (refines_check (ev_ip ev) rd s1) as Hc.
  destruct (check (ev_ip ev) rd s1) as [s2 d]. simpl in Hc.
  assert (refines_entries s s2) as H2 by (by eapply refines_trans).
  assert (is_exempt s2 (ev_ip ev) = false) as He2.
  { rewrite (is_exempt_config s s2); [done|apply H2]. }
  destruct d; [done|]. destruct (_ && _).
  - set (s3 := evict_stale_windows _ s2).
    assert (refines_entries s s3) as H3.
    { eapply refines_trans; [exact H2|]. apply refines_windows. }
    destruct (windows_full s3); [done|]. eapply refines_trans; [exact H3|].
    by apply refines_record_event.
  - eapply refines_trans; [exact H2|]. by apply refines_record_event.
Qed.

Lemma refines_step s s' : blocker_step s s' -> refines_entries s s'.
Proof.
  intros []; [apply refines_check|apply refines_record| |].
  - unfold unblock. destruct (ab_blocks s0 !! ip); [|apply refines_refl]. simpl.
    eapply refines_trans; [|apply refines_persist]. apply refines_delete_block.
  - unfold unwatch. destruct (ab_watchlist s0 !! ip); [|apply refines_refl]. simpl.
    eapply refines_trans; [|apply refines_persist_watch]. apply refines_delete_watch.
Qed.

Lemma refines_load_blocks now l : forall s, refines_entries s (foldl (load_block now) s l).
Proof.
  induction l as [|b l IH]; intros s; [apply refines_refl|]. simpl.
  eapply refines_trans; [|apply IH]. unfold load_block. destruct (_ <? _); [|apply refines_refl].
  cbn [andb]. destruct (is_exempt s (bs_ip b)) eqn:E; [apply refines_refl|].
  by apply refines_insert_block.
Qed.
Lemma refines_load_watch now l : forall s, refines_entries s (foldl (load_watch now) s l).
Proof.
  induction l as [|b l IH]; intros s; [apply refines_refl|]. simpl.
  eapply refines_trans; [|apply IH]. unfold load_watch. destruct (_ <? _); [|apply refines_refl].
  cbn [andb]. destruct (is_exempt s (wl_ip b)) eqn:E; [apply refines_refl|].
  by apply refines_insert_watch.
Qed.

Lemma new_entries_ok config bf wf rd : entries_ok (AdaptiveBlocker_new config bf wf rd).
Proof.
  unfold AdaptiveBlocker_new, load_watchlist_snapshot, load_snapshot.
  set (s0 := {| ab_config := config |}).
  assert (entries_ok s0) as H0 by (by split).
  set (s1 := match ab_block_file s0 ≫= decode_blocks with Some _ => _ | None => _ end).
  assert (entries_ok s1) as H1.
  { unfold s1. destruct (ab_block_file s0 ≫= decode_blocks); [|done].
    eapply refines_ok; [apply refines_load_blocks|done]. }
  destruct (ab_watch_file s1 ≫= decode_watch); [|done].
  eapply refines_ok; [apply refines_load_watch|done].
Qed.

Lemma reachable_entries_ok config s : reachable config s -> entries_ok s.
Proof.
  induction 1 as [|s s' _ IH Hstep]; [apply new_entries_ok|].
  eapply refines_ok; [by apply refines_step|done].
Qed.

Lemma reachable_config config s : reachable config s -> ab_config s = config.
Proof.
  induction 1 as [bf wf rd|s s' _ IH Hstep]; [|apply refines_step in Hstep as [-> _]; done].
  unfold AdaptiveBlocker_new, load_watchlist_snapshot, load_snapshot.
  set (s0 := {| ab_config := config |}).
  set (s1 := match ab_block_file s0 ≫= decode_blocks with Some _ => _ | None => _ end).
  assert (ab_config s1 = config) as H1.
  { unfold s1. destruct (ab_block_file s0 ≫= decode_blocks) as [l|]; [|done].
    apply (refines_load_blocks (rd_now_ms rd) l s0). }
  destruct (ab_watch_file s1 ≫= decode_watch) as [l|]; [|done]. rewrite <- H1.
  apply (refines_load_watch (rd_now_ms rd) l s1).
Qed.

(** In every reachable state of the adaptive blocker (whatever snapshot
    files it started from and whatever requests it recorded), every block and
    every watch-list entry is kept under its own address and no address of an
    exempt network is blocked or watched. *)
Theorem adaptive_entries_invariant config s :
  reachable config s -> entries_ok s.
Proof. apply reachable_entries_ok. Qed.

(** *** The life of a block *)

Lemma persist_snapshot_blocks rd s :
  ab_blocks (persist_snapshot rd s) = ab_blocks s /\ ab_config (persist_snapshot rd s) = ab_config s.
Proof. unfold persist_snapshot. by repeat case_match. Qed.

Lemma record_event_block ev rd s s' b :
  record_event ev rd s = (s', Some b) ->
  ab_blocks s' !! ev_ip ev = Some b /\ bs_ip b = ev_ip ev /\
  bs_expires_at_unix_ms b =
    add64 (ev_timestamp_unix_ms ev) (mul64 (Z.max (abc_block_seconds (ab_config s)) 1) 1000).
Proof.
  unfold record_event. set (w := record_window _ _ _). set (t := window_totals _).
  set (s1 := with_windows _ s). set (s2 := if should_watch _ _ then _ else _).
  assert (ab_config s2 = ab_config s) as Hcfg.
  { unfold s2. destruct (should_watch _ _); [|done].
    unfold watch_ip, persist_watchlist_snapshot. by repeat case_match. }
  destruct (trigger_reason _ t); [|done]. unfold block_ip. intros [= <- <-].
  rewrite (proj1 (persist_snapshot_blocks _ _)). simpl. rewrite lookup_insert_eq, Hcfg. done.
Qed.

Lemma record_inv ev rd s s' b :
  record ev rd s = (s', Some b) ->
  abc_enabled (ab_config s) = true /\ is_exempt s (ev_ip ev) = false /\
  exists s0, ab_config s0 = ab_config s /\ record_event ev rd s0 = (s', Some b).
Proof.
  unfold record. destruct (abc_enabled (ab_config s)); [|done]. cbn [negb orb].
  destruct (is_exempt s (ev_ip ev)) eqn:He; [done|]. intros H. split; [done|]. split; [done|].
  set (s1 := persist_if_due rd _) in H.
  assert (ab_config s1 = ab_config s) as H1.
  { apply (refines_trans s (ab_evict_if_due (ev_timestamp_unix_ms ev) rd s) s1);
      [apply refines_evict|apply refines_persist_due]. }
  pose proof (refines_check (ev_ip ev) rd s1) as [Hc _].
  destruct (check (ev_ip ev) rd s1) as [s2 d]. simpl in Hc. destruct d; [done|].
  destruct (_ && _).
  - destruct (windows_full _); [done|]. eexists. split; [|exact H]. simpl. congruence.
  - eexists. split; [|exact H]. congruence.
Qed.

(** A block holds until it expires and no longer: once [record] reports a
    block, [check] refuses the address at every later instant before the
    block's expiry, which is [block_seconds] (at least one second) after the
    request, and at the expiry it lets the address through and forgets the
    block. *)
Theorem block_lifetime ev rd s s' b :
  record ev rd s = (s', Some b) ->
  bs_expires_at_unix_ms b =
    add64 (ev_timestamp_unix_ms ev) (mul64 (Z.max (abc_block_seconds (ab_config s)) 1) 1000) /\
  (forall rd', rd_now_ms rd' < bs_expires_at_unix_ms b ->
     check (ev_ip ev) rd' s' = (s', Some (Blocked ADAPTIVE_BLOCK_REASON))) /\
  (forall rd', bs_expires_at_unix_ms b <= rd_now_ms rd' ->
     snd (check (ev_ip ev) rd' s') = None /\
     ab_blocks (fst (check (ev_ip ev) rd' s')) !! ev_ip ev = None).
Proof.
  intros H. pose proof (refines_record ev rd s) as (Hcfg & _). rewrite H in Hcfg. simpl in Hcfg.
  apply record_inv in H as (Hen & Hex & s0 & H0 & H). apply record_event_block in H as (Hb & _ & He).
  rewrite H0 in He. split; [done|].
  assert (forall rd', check (ev_ip ev) rd' s' =
    if rd_now_ms rd' <? bs_expires_at_unix_ms b then (s', Some (Blocked ADAPTIVE_BLOCK_REASON))
    else (persist_snapshot rd' (with_blocks (delete (ev_ip ev) (ab_blocks s')) s'), None)) as Hcheck.
  { intros rd'. unfold check. rewrite Hcfg, Hen. cbn [negb].
    rewrite (is_exempt_config s s') by done. by rewrite Hex, Hb. }
  split; intros rd' Hrd; rewrite Hcheck.
  - by rewrite (proj2 (Z.ltb_lt _ _)).
  - rewrite (proj2 (Z.ltb_ge _ _)) by done. split; [done|]. simpl.
    rewrite (proj1 (persist_snapshot_blocks _ _)). simpl. apply lookup_delete_eq.
Qed.

(** *** Snapshots *)

Lemma load_blocks_lookup now l : forall s,
  NoDup (bs_ip <$> l) -> ab_blocks s = ∅ ->
  ab_config (foldl (load_block now) s l) = ab_config s /\
  forall ip b, ab_blocks (foldl (load_block now) s l) !! ip = Some b <->
    b ∈ l /\ bs_ip b = ip /\ now < bs_expires_at_unix_ms b /\ is_exempt s ip = false.
Proof.
  induction l as [|x l IH] using rev_ind; intros s Hnd Hs.
  { split; [done|]. intros ip b. simpl. rewrite Hs, lookup_empty. set_solver. }
  rewrite fmap_app in Hnd. apply NoDup_app in Hnd as (Hnd & Hdis & _).
  destruct (IH s Hnd Hs) as [Hc Hl]. rewrite foldl_app. cbn [foldl].
  set (s1 := foldl _ s l) in *. clearbody s1. clear IH. unfold load_block.
  rewrite (is_exempt_config s s1) by done.
  destruct (now <? bs_expires_at_unix_ms x) eqn:E1; bools; cbn [andb].
  - destruct (is_exempt s (bs_ip x)) eqn:E2; cbn [negb].
    + split; [done|]. intros ip b. rewrite Hl, elem_of_app, list_elem_of_singleton.
      split; [tauto|]. intros ([?| ->] & <- & ? & ?); [done|congruence].
    + split; [done|]. intros ip b. simpl. rewrite lookup_insert_Some, Hl, elem_of_app, list_elem_of_singleton.
      split.
      * intros [[<- <-]|(Hne & ? & ? & ?)]; [|tauto]. tauto.
      * intros ([Hin| ->] & <- & ? & ?); [|by left]. right. split; [|done].
        intros Heq. apply (Hdis (bs_ip b)); [by apply list_elem_of_fmap_2|]. rewrite <- Heq. set_solver.
  - split; [done|]. intros ip b. rewrite Hl, elem_of_app, list_elem_of_singleton.
    split; [tauto|]. intros ([?| ->] & <- & ? & ?); [done|lia].
Qed.

Lemma active_elem now m b :
  b ∈ active now m <-> now < bs_expires_at_unix_ms b /\ exists ip, m !! ip = Some b.
Proof.
  unfold active. rewrite list_elem_of_filter, list_elem_of_fmap. split.
  - intros (? & [ip b'] & -> & H%elem_of_map_to_list). split; [done|]. by exists ip.
  - intros (? & ip & H). split; [done|]. exists (ip, b). split; [done|].
    by apply elem_of_map_to_list.
Qed.

Lemma active_NoDup now m :
  (forall ip b, m !! ip = Some b -> bs_ip b = ip) -> NoDup (bs_ip <$> active now m).
Proof.
  intros Hm. unfold active.
  assert (bs_ip <$> (snd <$> map_to_list m) = fst <$> map_to_list m) as E.
  { rewrite <- list_fmap_compose. apply list_fmap_ext. intros i [ip b] H. simpl.
    apply Hm. apply elem_of_map_to_list. by eapply list_elem_of_lookup_2. }
  assert (NoDup (bs_ip <$> (snd <$> map_to_list m))) as Hnd by (rewrite E; apply NoDup_fst_map_to_list).
  revert Hnd. generalize (snd <$> map_to_list m). intros l Hnd.
  eapply sublist_NoDup; [exact Hnd|]. apply fmap_sublist, sublist_filter.
Qed.

(** A restart keeps the active blocks: a blocker that starts from the file
    another one wrote has exactly the blocks of that one which have not
    expired at the time of the restart. *)
Theorem snapshot_roundtrip (CL : SnapshotCodecLaws SC) s config wf rd rd' :
  entries_ok s -> ab_config s = config -> rd_io_ok rd = true ->
  rd_now_ms rd <= rd_now_ms rd' ->
  (exists p, encode_blocks (active (rd_now_ms rd) (ab_blocks s)) = Some p) ->
  let s' := AdaptiveBlocker_new config (ab_block_file (persist_snapshot rd s)) wf rd' in
  forall ip b, ab_blocks s' !! ip = Some b <->
    ab_blocks s !! ip = Some b /\ rd_now_ms rd' < bs_expires_at_unix_ms b.
Proof.
  intros [Hb _] <- Hio Hnow [p Hp] s' ip b.
  unfold s', AdaptiveBlocker_new, persist_snapshot. rewrite Hio, Hp. cbn [with_files ab_block_file].
  set (s0 := {| ab_config := ab_config s |}).
  assert (forall s1, ab_blocks (load_watchlist_snapshot rd' s1) = ab_blocks s1) as Hw.
  { intros s1. unfold load_watchlist_snapshot. destruct (ab_watch_file s1 ≫= decode_watch) as [l|]; [|done].
    revert s1. induction l as [|x l IH]; intros s1; [done|]. simpl. rewrite IH. unfold load_watch.
    by destruct (_ && _). }
  rewrite Hw. unfold load_snapshot. cbn [s0 ab_block_file mbind option_bind].
  rewrite (decode_encode_blocks _ _ Hp).
  destruct (load_blocks_lookup (rd_now_ms rd') (active (rd_now_ms rd) (ab_blocks s)) s0) as [_ Hl];
    [apply active_NoDup; intros; by eapply Hb|done|].
  rewrite Hl, active_elem. split.
  - intros ((? & ip' & H) & <- & ? & ?). destruct (Hb _ _ H) as [-> _]. done.
  - intros [H ?]. destruct (Hb _ _ H) as [<- He]. split; [split; [lia|by exists (bs_ip b)]|].
    done.
Qed.
End blocks.

(** A codec: the payload is the entries themselves. *)
Definition PlainCodec : SnapshotCodec := {|
  Payload := list AdaptiveBlockSnapshot + list SuspiciousIpWatchlistEntry;
  encode_blocks l := Some (inl l);
  decode_blocks p := match p with inl l => Some l | inr _ => None end;
  encode_watch l := Some (inr l);
  decode_watch p := match p with inr l => Some l | inl _ => None end;
|}.
Lemma PlainCodecLaws : SnapshotCodecLaws PlainCodec.
Proof. by split; intros l p [= <-]. Qed.

Definition strict_config : @AdaptiveBlockConfig CidrLib := {|
  abc_enabled := true; abc_window_seconds := 300; abc_block_seconds := 60;
  abc_request_threshold := 2; abc_domain_threshold := 1; abc_high_request_threshold := 1200;
  abc_high_request_domain_threshold := 8; abc_suspicious_path_threshold := 25;
  abc_suspicious_path_domain_threshold := 5; abc_watchlist_suspicious_path_threshold := 5;
  abc_watchlist_suspicious_path_domain_threshold := 3; abc_watchlist_ttl_seconds := 86400;
  abc_failure_threshold := 200; abc_failure_domain_threshold := 15;
  abc_max_tracked_ips := 100000; abc_bucket_seconds := 10;
  abc_snapshot_path := lit "/s"; abc_watchlist_snapshot_path := lit "/w";
  abc_exempt_cidrs := []; abc_suspicious_path_prefixes := [] |}.

Definition rd_at (ms : Z) : Readings :=
  {| rd_instant := ms * 1000000; rd_now_ms := ms; rd_io_ok := true |}.

(** A blocker after two requests of one address. *)
Definition example_blocker : @AdaptiveBlocker CidrLib PlainCodec :=
  fst (@record CidrLib PlainCodec (example_event 1000 "a.io" "/" 200) (rd_at 1000)
    (@AdaptiveBlocker_new CidrLib PlainCodec strict_config None None (rd_at 0))).
Definition example_result : @AdaptiveBlocker CidrLib PlainCodec * option AdaptiveBlockSnapshot :=
  @record CidrLib PlainCodec (example_event 1500 "a.io" "/" 200) (rd_at 1500) example_blocker.
Definition example_blocked : @AdaptiveBlocker CidrLib PlainCodec := fst example_result.

Lemma example_reachable : reachable strict_config example_blocked.
Proof.
  eapply reach_step; [eapply reach_step; [apply reach_new|apply step_record]|apply step_record].
Qed.

Lemma adaptive_entries_invariant_witness : @entries_ok CidrLib PlainCodec example_blocked.
Proof.
  apply (adaptive_entries_invariant strict_config). exact example_reachable.
Defined.

Lemma block_lifetime_witness :
  snd (@check CidrLib PlainCodec (V4 7) (rd_at 61499) example_blocked)
    = Some (Blocked ADAPTIVE_BLOCK_REASON) /\
  snd (@check CidrLib PlainCodec (V4 7) (rd_at 61500) example_blocked) = None.
Proof.
  assert (exists b, snd example_result = Some b /\ bs_expires_at_unix_ms b = 61500) as (b & Hb & Hx)
    by (eexists; split; vm_compute; reflexivity).
  assert (@record CidrLib PlainCodec (example_event 1500 "a.io" "/" 200) (rd_at 1500) example_blocker
          = (example_blocked, Some b)) as E.
  { rewrite <- Hb. apply surjective_pairing. }
  destruct (block_lifetime _ _ _ _ _ E) as (_ & H1 & H2). clear E Hb.
  specialize (H1 (rd_at 61499)). specialize (H2 (rd_at 61500)). rewrite Hx in H1, H2. split.
  - etransitivity; [exact (f_equal snd (H1 eq_refl))|reflexivity].
  - apply H2. discriminate.
Defined.

Lemma snapshot_roundtrip_witness :
  is_Some (ab_blocks (@AdaptiveBlocker_new CidrLib PlainCodec strict_config
    (ab_block_file (persist_snapshot (rd_at 2000) example_blocked)) None (rd_at 3000)) !! V4 7).
Proof.
  assert (exists b, ab_blocks example_blocked !! V4 7 = Some b /\ bs_expires_at_unix_ms b = 61500)
    as (b & E & Hx) by (eexists; split; vm_compute; reflexivity).
  exists b. apply (@snapshot_roundtrip CidrLib PlainCodec PlainCodecLaws example_blocked strict_config
    None (rd_at 2000) (rd_at 3000)).
  - exact (reachable_entries_ok _ _ example_reachable).
  - exact (reachable_config _ _ example_reachable).
  - reflexivity.
  - by vm_compute.
  - by eexists.
  - split; [exact E|]. rewrite Hx. reflexivity.
Defined.

(** ** The security engine *)

Section engine.
Context {NL : IpNetLib} {SC : SnapshotCodec}.

Record SecurityEngine := {
  se_blacklist : Blacklist.BlacklistEngine;
  se_rate_limiter : Limiter.RateLimiter;
  se_adaptive_blocker : AdaptiveBlocker;
}.

Definition security_check (domain_id : rstr) (ip : IpAddr) (rd : Readings) (e : SecurityEngine)
  : SecurityEngine * SecurityDecision :=
  if Blacklist.contains (se_blacklist e) domain_id ip then (e, Blocked (lit "ip_blacklisted"))
  else
    let '(ab, decision) := check ip rd (se_adaptive_blocker e) in
    let e := {| se_blacklist := se_blacklist e; se_rate_limiter := se_rate_limiter e;
                se_adaptive_blocker := ab |} in
    match decision with
    | Some d => (e, d)
    | None =>
      let '(rl, d) := Limiter.allow ip (rd_instant rd) (se_rate_limiter e) in
      ({| se_blacklist := se_blacklist e; se_rate_limiter := rl;
          se_adaptive_blocker := se_adaptive_blocker e |}, d)
    end.

Definition record_request (ev : RequestObservationInput) (rd : Readings) (e : SecurityEngine)
  : SecurityEngine * option AdaptiveBlockSnapshot :=
  let '(ab, b) := record ev rd (se_adaptive_blocker e) in
  ({| se_blacklist := se_blacklist e; se_rate_limiter := se_rate_limiter e;
      se_adaptive_blocker := ab |}, b).

(** The security decision has a fixed precedence: the blacklist decides
    first, then a live adaptive block, then the rate limiter; and a request
    refused by one of the first two consumes no rate-limit token. *)
Theorem security_check_precedence domain ip rd e :
  let '(e', d) := security_check domain ip rd e in
  if Blacklist.contains (se_blacklist e) domain ip then
    d = Blocked (lit "ip_blacklisted") /\ e' = e
  else
    match snd (check ip rd (se_adaptive_blocker e)) with
    | Some d' => d = d' /\ se_rate_limiter e' = se_rate_limiter e
    | None => d = snd (Limiter.allow ip (rd_instant rd) (se_rate_limiter e)) /\
              se_rate_limiter e' = fst (Limiter.allow ip (rd_instant rd) (se_rate_limiter e))
    end.
Proof.
  unfold security_check. destruct (Blacklist.contains _ _ _); [done|].
  destruct (check ip rd _) as [ab [d'|]]; simpl; [done|].
  by destruct (Limiter.allow _ _ _).
Qed.
End engine.
