(* ===== verification/RouteRegistry.v ===== *)
(** The routing registry of the [core] crate: the route table with its domain
    index, deduplication, the operations that replace, insert and delete
    routes, the lookup of a host and path, and the health updates.  The
    [ArcSwap] cell is the state; an operation reads a snapshot and stores a
    new table.  [EdgeState] adds metrics, of which the per-source route counts
    and the health gauges are modelled. *)
From stdpp Require Import options.
From S2P Require Import Prelude RustStr RustNum RustNet CommonTypes CommonPath CommonValidate.

Local Open Scope Z_scope.

Section registry.
Context {NL : IpNetLib}.
Implicit Types r route : Route.

(** ** The table *)

(** The text of [{:?}] for a source. *)
Definition source_debug (s : RouteSource) : rstr :=
  match s with
  | Static => lit "Static"
  | Docker => lit "Docker"
  | Podman => lit "Podman"
  | Api => lit "Api"
  end.

Definition dedupe_key (route : Route) : rstr :=
  match r_source route with
  | Api => lit "api:" ++ r_domain route
  | _ => source_debug (r_source route) ++ lit ":" ++ r_domain route ++ lit ":" ++ r_id route
  end.

(** One turn of the loop: [merged[index] = route] or a push. *)
Definition dedupe_step (st : list Route * gmap rstr nat) (route : Route)
  : list Route * gmap rstr nat :=
  let '(merged, positions) := st in
  let key := dedupe_key route in
  match positions !! key with
  | Some index => (<[index := route]> merged, positions)
  | None => (merged ++ [route], <[key := length merged]> positions)
  end.
Definition dedupe_routes (routes : list Route) : list Route :=
  fst (foldl dedupe_step ([], ∅) routes).

Record RouteTable := {
  rt_routes : list Route;
  rt_by_domain : gmap rstr (list Route);
}.

Definition index_step (m : gmap rstr (list Route)) (route : Route) : gmap rstr (list Route) :=
  <[r_domain route := default [] (m !! r_domain route) ++ [route]]> m.

Definition RouteTable_new (routes : list Route) : RouteTable :=
  let routes := dedupe_routes routes in
  {| rt_routes := routes; rt_by_domain := foldl index_step ∅ routes |}.

(** ** Selection among routes *)

Definition source_priority (s : RouteSource) : Z :=
  match s with Static => 1 | Docker => 2 | Podman => 2 | Api => 3 end.

Definition is_apex_like_domain (domain : rstr) : bool :=
  (length (filter (fun part => part <> []) (split "."%char domain)) =? 2)%nat.

Definition route_allows_www_alias (domain : rstr) (www_alias : bool) : bool :=
  www_alias && negb (starts_with (lit "www.") domain) && is_apex_like_domain domain.

Definition www_alias_base (domain : rstr) : option rstr :=
  match strip_prefix (lit "www.") domain with
  | Some base => if negb (is_empty base) && negb (starts_with (lit "www.") base)
                 then Some base else None
  | None => None
  end.

Definition extend_unique_upstreams (target upstreams : list Upstream) : list Upstream :=
  foldl (fun target u =>
           if existsb (fun existing => u_url existing =s? u_url u) target then target
           else target ++ [u]) target upstreams.

Definition extend_unique_middlewares (target middlewares : list rstr) : list rstr :=
  foldl (fun target m => if existsb (fun existing => existing =s? m) target then target
                         else target ++ [m]) target middlewares.

Definition alias_ok (route : Route) : bool :=
  route_allows_www_alias (r_domain route) (dr_www_alias (r_rules route)).

Definition matching_routes (table : RouteTable) (domain path : rstr) (require_www_alias : bool)
  : list RouteMatch :=
  omap (fun route =>
          match best_path route path with
          | Some pr => Some {| m_route := route; m_path := pr |}
          | None => None
          end)
    (filter (fun route => negb require_www_alias || alias_ok route = true)
       (default [] (rt_by_domain table !! domain))).

(** [paths.entry(prefix).or_insert_with(..)], then the two extensions. *)
Definition merge_path (paths : gmap rstr PathRoute) (path : PathRoute) : gmap rstr PathRoute :=
  let entry := default {| pr_prefix := pr_prefix path; pr_upstreams := [];
                          pr_middlewares := pr_middlewares path |} (paths !! pr_prefix path) in
  <[pr_prefix path :=
      {| pr_prefix := pr_prefix entry;
         pr_upstreams := extend_unique_upstreams (pr_upstreams entry) (pr_upstreams path);
         pr_middlewares := extend_unique_middlewares (pr_middlewares entry) (pr_middlewares path) |}]>
    paths.

(** [BTreeMap::into_values]: in the order of the keys. *)
Definition btree_values {A} (m : gmap rstr A) : list A :=
  omap (fun k => m !! k) (sort_strings (elements (dom m))).

Definition merge_best_domain_routes (routes : list Route) : option Route :=
  match max_of (map (fun r => source_priority (r_source r)) routes) with
  | None => None
  | Some best_priority =>
    match filter (fun r => source_priority (r_source r) = best_priority) routes with
    | [] => None
    | [route] => Some route
    | route :: _ as selected =>
      let paths := foldl merge_path ∅ (flat_map r_paths selected) in
      Some (r_with_paths (btree_values paths) route)
    end
  end.

Definition match_len (m : RouteMatch) : Z := str_len (pr_prefix (m_path m)).
Definition match_priority (m : RouteMatch) : Z := source_priority (r_source (m_route m)).

Definition absorb_match (path : PathRoute) (m : RouteMatch) : PathRoute :=
  {| pr_prefix := pr_prefix path;
     pr_upstreams := extend_unique_upstreams (pr_upstreams path) (pr_upstreams (m_path m));
     pr_middlewares := extend_unique_middlewares (pr_middlewares path) (pr_middlewares (m_path m)) |}.

Definition merge_best_route_matches (matches : list RouteMatch) : option RouteMatch :=
  match max_of (map match_len matches) with
  | None => None
  | Some best_prefix_len =>
    match max_of (map match_priority (filter (fun m => match_len m = best_prefix_len) matches)) with
    | None => None
    | Some best_priority =>
      match filter (fun m => match_len m = best_prefix_len /\ match_priority m = best_priority)
              matches with
      | [] => None
      | m0 :: rest =>
        let path := foldl absorb_match (m_path m0) rest in
        Some {| m_route := r_with_paths [path] (m_route m0); m_path := path |}
      end
    end
  end.

(** ** Operations of the registry *)

Definition Registry_new (routes : list Route) : RouteTable := RouteTable_new routes.
Definition Registry_empty : RouteTable := Registry_new [].
Definition snapshot (t : RouteTable) : list Route := rt_routes t.

(** [self.routes.store(..)]: the new table, whatever the old one was. *)
Definition replace_all (routes : list Route) : RouteTable := RouteTable_new routes.

Definition replace_source (source : RouteSource) (routes : list Route) (t : RouteTable)
  : RouteTable :=
  replace_all (filter (fun r => r_source r <> source) (snapshot t) ++ routes).

Definition api_routes_equivalent (existing next : Route) : bool :=
  bool_decide (r_source existing = Api) && bool_decide (r_source next = Api)
  && (r_id existing =s? r_id next) && (r_domain existing =s? r_domain next)
  && bool_decide (r_paths existing = r_paths next)
  && Bool.eqb (r_tls existing) (r_tls next)
  && bool_decide (r_algorithm existing = r_algorithm next)
  && bool_decide (r_rules existing = r_rules next)
  && (r_route_version existing =? r_route_version next).

Definition upsert_api_route (route : Route) (t : RouteTable) : RouteTable :=
  if existsb (fun existing => api_routes_equivalent existing route) (snapshot t) then t
  else replace_all
         (filter (fun e => ~ (r_source e = Api /\ r_domain e = r_domain route)) (snapshot t)
          ++ [route]).

Definition delete_api_domain (domain : rstr) (t : RouteTable) : RouteTable * bool :=
  let before := snapshot t in
  let after := filter (fun r => ~ (r_source r = Api /\ r_domain r = domain)) before in
  (replace_all after, negb (length before =? length after)%nat).

Definition find_domain (t : RouteTable) (domain : rstr) : option Route :=
  let normalized := normalize_domain domain in
  match merge_best_domain_routes (default [] (rt_by_domain t !! normalized)) with
  | Some r => Some r
  | None =>
    match www_alias_base normalized with
    | Some base =>
      merge_best_domain_routes
        (filter (fun r => alias_ok r = true) (default [] (rt_by_domain t !! base)))
    | None => None
    end
  end.

Definition find (t : RouteTable) (host path : rstr) : option RouteMatch :=
  let normalized_host := normalize_domain host in
  if is_empty normalized_host then None
  else
    let matches := matching_routes t normalized_host path false in
    let matches :=
      if is_empty matches then
        match www_alias_base normalized_host with
        | Some base => matching_routes t base path true
        | None => matches
        end
      else matches in
    merge_best_route_matches matches.

Definition required_match (t : RouteTable) (host path : rstr) : result PxxlError RouteMatch :=
  ok_or (RouteNotFound host path) (find t host path).

(** *** Health *)

(** The loops over a route's paths, traffic splits and location routes;
    [fp] decides for an upstream of a path with the given prefix. *)
Definition map_upstreams (fp : rstr -> Upstream -> Upstream) (f : Upstream -> Upstream) (r : Route)
  : Route :=
  r_with_rules
    (dr_with_pools
       (map (fun l => lr_with_upstreams (map f (lr_upstreams l)) l) (dr_location_routes (r_rules r)))
       (map (fun s => ts_with_upstreams (map f (ts_upstreams s)) s) (dr_traffic_splits (r_rules r)))
       (r_rules r))
    (r_with_paths
       (map (fun p => {| pr_prefix := pr_prefix p;
                         pr_upstreams := map (fp (pr_prefix p)) (pr_upstreams p);
                         pr_middlewares := pr_middlewares p |}) (r_paths r)) r).

Definition apply_health (health : gmap rstr bool) (u : Upstream) : Upstream :=
  match health !! u_url u with Some h => set_healthy h u | None => u end.

Definition set_upstream_health (health : gmap rstr bool) (t : RouteTable) : RouteTable :=
  if bool_decide (health = ∅) then t
  else replace_all
         (map (map_upstreams (fun _ => apply_health health) (apply_health health)) (snapshot t)).

Definition set_single_upstream_health (url : rstr) (healthy : bool) (t : RouteTable) : RouteTable :=
  set_upstream_health {[url := healthy]} t.

Record RouteUpstreamHealth := {
  uh_domain : rstr;
  uh_path_prefix : rstr;
  uh_upstream_url : rstr;
  uh_healthy : bool;
}.

Definition set_if_url (update : RouteUpstreamHealth) (u : Upstream) : Upstream :=
  if u_url u =s? uh_upstream_url update then set_healthy (uh_healthy update) u else u.

(** An update names a domain and an upstream, or it is skipped. *)
Definition update_applies (update : RouteUpstreamHealth) : bool :=
  negb (is_empty (normalize_domain (uh_domain update)) || is_empty (trim (uh_upstream_url update))).

Definition apply_route_health (update : RouteUpstreamHealth) (routes : list Route) : list Route :=
  map (fun r =>
         if r_domain r =s? normalize_domain (uh_domain update) then
           map_upstreams (fun prefix u => if prefix =s? uh_path_prefix update
                                          then set_if_url update u else u)
             (set_if_url update) r
         else r) routes.

Definition set_route_upstream_health (update : RouteUpstreamHealth) (t : RouteTable) : RouteTable :=
  if negb (update_applies update) then t
  else replace_all (apply_route_health update (snapshot t)).

Definition set_route_upstream_health_many (updates : list RouteUpstreamHealth) (t : RouteTable)
  : RouteTable :=
  if is_empty updates then t
  else replace_all
         (foldl (fun routes u => if update_applies u then apply_route_health u routes else routes)
            (snapshot t) updates).
End registry.

(** ** Deduplication *)

Section dedupe.
Context {NL : IpNetLib}.
Implicit Types r x y : Route.

Definition keys (l : list Route) : list rstr := dedupe_key <$> l.

(** The last route of a history with the key of [x]. *)
Definition last_with_key (k : rstr) (hist : list Route) : option Route :=
  last (filter (fun y => dedupe_key y = k) hist).

Record dedupe_inv (hist merged : list Route) (positions : gmap rstr nat) : Prop := {
  di_nodup : NoDup (keys merged);
  di_positions : forall k i, positions !! k = Some i <-> keys merged !! i = Some k;
  di_last : forall x, x ∈ merged <-> last_with_key (dedupe_key x) hist = Some x;
}.

Lemma last_with_key_snoc k hist r :
  last_with_key k (hist ++ [r]) =
    if decide (dedupe_key r = k) then Some r else last_with_key k hist.
Proof.
  unfold last_with_key. rewrite filter_app. destruct (decide (dedupe_key r = k)) as [E|E].
  - rewrite filter_cons_True by done. by rewrite filter_nil, last_snoc.
  - rewrite filter_cons_False by done. by rewrite filter_nil, app_nil_r.
Qed.

Lemma elem_of_list_insert (l : list Route) i r x y :
  NoDup (keys l) -> l !! i = Some y -> dedupe_key y = dedupe_key r ->
  x ∈ <[i := r]> l <-> x = r \/ (x ∈ l /\ dedupe_key x <> dedupe_key r).
Proof.
  intros Hnd Hi Hk. rewrite list_elem_of_lookup. split.
  - intros [j Hj]. apply list_lookup_insert_Some in Hj as [(-> & -> & _)|[Hne Hj]]; [by left|right].
    split; [by eapply list_elem_of_lookup_2|]. intros Heq. apply Hne.
    eapply (NoDup_lookup _ _ _ _ Hnd); unfold keys; rewrite list_lookup_fmap.
    + rewrite Hi. simpl. by rewrite Hk.
    + rewrite Hj. simpl. by rewrite Heq.
  - intros [->|[Hx Hne]].
    + exists i. apply list_lookup_insert_eq. by eapply lookup_lt_Some.
    + apply list_elem_of_lookup in Hx as [j Hj]. exists j. rewrite list_lookup_insert_ne; [done|].
      intros ->. congruence.
Qed.

Lemma dedupe_step_inv hist merged positions r :
  dedupe_inv hist merged positions ->
  let '(merged', positions') := dedupe_step (merged, positions) r in
  dedupe_inv (hist ++ [r]) merged' positions'.
Proof.
  intros [Hnd Hpos Hlast]. unfold dedupe_step.
  destruct (positions !! dedupe_key r) as [i|] eqn:E.
  - apply Hpos in E as Hi. unfold keys in Hi. rewrite list_lookup_fmap in Hi.
    destruct (merged !! i) as [y|] eqn:Ey; simplify_eq/=.
    assert (keys (<[i:=r]> merged) = keys merged) as Hkeys.
    { unfold keys. rewrite list_fmap_insert. apply list_insert_id.
      rewrite list_lookup_fmap, Ey. simpl. congruence. }
    split; [by rewrite Hkeys|by intros k j; rewrite Hkeys|].
    intros x. rewrite last_with_key_snoc, (elem_of_list_insert _ _ _ _ y) by (done || congruence).
    destruct (decide (dedupe_key r = dedupe_key x)) as [Ek|Ek].
    + split; [intros [->|[_ ?]]; [done|congruence]|]. intros [= ->]. by left.
    + rewrite <- Hlast. split; [intros [->|[? _]]; done|]. intros ?. right. by split.
  - assert (dedupe_key r ∉ keys merged) as Hnew.
    { intros [i Hi]%list_elem_of_lookup. apply Hpos in Hi. congruence. }
    split.
    + unfold keys in *. rewrite fmap_app. apply NoDup_app. split; [done|].
      split; [set_solver|apply NoDup_singleton].
    + intros k j. unfold keys in *. rewrite fmap_app.
      rewrite lookup_insert_Some, Hpos. destruct (decide (j < length merged)%nat) as [Hj|Hj].
      * rewrite lookup_app_l by (rewrite length_fmap; lia). split.
        -- intros [[_ ?]|[_ ?]]; [lia|done].
        -- intros H. right. split; [|done]. intros <-. apply Hnew. by eapply list_elem_of_lookup_2.
      * rewrite lookup_app_r by (rewrite length_fmap; lia). rewrite length_fmap. split.
        -- intros [[<- <-]|[_ H]]; [by rewrite Nat.sub_diag|].
           apply lookup_lt_Some in H. rewrite length_fmap in H. lia.
        -- intros H. left. destruct (j - length merged)%nat eqn:Ej; simplify_eq/=.
           split; [done|lia].
    + intros x. rewrite elem_of_app, list_elem_of_singleton, last_with_key_snoc, Hlast.
      destruct (decide (dedupe_key r = dedupe_key x)) as [Ek|Ek].
      * split; [|by intros [= ->]; right]. intros [H| ->]; [|done].
        exfalso. apply Hnew. rewrite Ek. apply list_elem_of_fmap_2. by apply Hlast.
      * split; [by intros [?| ->]|by left].
Qed.

Lemma dedupe_run_inv hist :
  dedupe_inv hist (dedupe_routes hist) (snd (foldl dedupe_step ([], ∅) hist)).
Proof.
  unfold dedupe_routes. induction hist as [|r hist IH] using rev_ind.
  - split; [constructor|by intros k i; simpl; rewrite lookup_empty|]. intros x. simpl.
    split; [set_solver|done].
  - rewrite foldl_snoc. destruct (foldl dedupe_step ([], ∅) hist) as [merged positions].
    pose proof (dedupe_step_inv hist merged positions r IH) as H.
    by destruct (dedupe_step (merged, positions) r).
Qed.

Lemma dedupe_NoDup l : NoDup (keys (dedupe_routes l)).
Proof. apply (di_nodup _ _ _ (dedupe_run_inv l)). Qed.

Lemma dedupe_elem l x : x ∈ dedupe_routes l <-> last_with_key (dedupe_key x) l = Some x.
Proof. apply (di_last _ _ _ (dedupe_run_inv l)). Qed.

Lemma dedupe_keys_subset l k : k ∈ keys (dedupe_routes l) -> k ∈ keys l.
Proof.
  intros (x & -> & Hx)%list_elem_of_fmap. apply dedupe_elem in Hx.
  apply last_Some_elem_of, list_elem_of_filter in Hx as [_ Hx]. by apply list_elem_of_fmap_2.
Qed.

Lemma dedupe_snoc_new l r : dedupe_key r ∉ keys l -> dedupe_routes (l ++ [r]) = dedupe_routes l ++ [r].
Proof.
  intros Hr. unfold dedupe_routes. rewrite foldl_snoc. pose proof (dedupe_run_inv l) as [_ Hpos _].
  unfold dedupe_routes in Hpos. destruct (foldl dedupe_step ([], ∅) l) as [merged positions] eqn:E.
  simpl in *. destruct (positions !! dedupe_key r) as [i|] eqn:Ei; [|done].
  exfalso. apply Hr, dedupe_keys_subset. unfold dedupe_routes. rewrite E. simpl.
  apply Hpos in Ei. by eapply list_elem_of_lookup_2.
Qed.

(** A list without repeated keys is not changed. *)
Lemma dedupe_id l : NoDup (keys l) -> dedupe_routes l = l.
Proof.
  induction l as [|r l IH] using rev_ind; [done|]. unfold keys in *. rewrite fmap_app. simpl.
  intros (Hl & Hr & _)%NoDup_app. rewrite dedupe_snoc_new by (intros H; apply (Hr _ H); set_solver).
  by rewrite IH.
Qed.

(** Deduplication keeps, for every key (domain for API routes; source,
    domain and id for the others), exactly the last route given with that
    key, and at most one route per key. *)
Theorem dedupe_last_wins l :
  NoDup (dedupe_key <$> dedupe_routes l) /\
  forall x, x ∈ dedupe_routes l <-> last (filter (fun y => dedupe_key y = dedupe_key x) l) = Some x.
Proof. split; [apply dedupe_NoDup|]. intros x. apply dedupe_elem. Qed.
End dedupe.

(** ** The table invariant *)

Section table.
Context {NL : IpNetLib}.
Implicit Types r x y : Route.
Implicit Types t : RouteTable.

Lemma filter_all (P : Route -> Prop) {D : forall x, Decision (P x)} l : Forall P l -> filter P l = l.
Proof. induction 1 as [|x l Hx _ IH]; [done|]. rewrite filter_cons_True by done. by rewrite IH. Qed.

(** One route per key, and the index lists the routes of each domain in the
    order of the table. *)
Record table_wf t : Prop := {
  tw_keys : NoDup (keys (rt_routes t));
  tw_index : forall d, default [] (rt_by_domain t !! d)
                       = filter (fun r => r_domain r = d) (rt_routes t);
}.

Lemma index_spec l d :
  default [] (foldl index_step ∅ l !! d) = filter (fun r => r_domain r = d) l.
Proof.
  induction l as [|r l IH] using rev_ind; [simpl; by rewrite lookup_empty|].
  rewrite foldl_snoc, filter_app. unfold index_step at 1.
  destruct (decide (r_domain r = d)) as [<-|Hne].
  - rewrite lookup_insert_eq, filter_cons_True, filter_nil by done. simpl. by rewrite IH.
  - rewrite lookup_insert_ne, filter_cons_False, filter_nil, app_nil_r by done. done.
Qed.

Lemma RouteTable_new_wf l : table_wf (RouteTable_new l).
Proof. split; [apply dedupe_NoDup|]. intros d. apply index_spec. Qed.

Lemma set_upstream_health_wf h t : table_wf t -> table_wf (set_upstream_health h t).
Proof.
  intros Hwf. unfold set_upstream_health. destruct (bool_decide (h = ∅)); [done|].
  apply RouteTable_new_wf.
Qed.

(** The operations of the registry as a transition system. *)
Inductive registry_step : RouteTable -> RouteTable -> Prop :=
| rs_replace_all routes t : registry_step t (replace_all routes)
| rs_replace_source s routes t : registry_step t (replace_source s routes t)
| rs_upsert r t : registry_step t (upsert_api_route r t)
| rs_delete d t : registry_step t (fst (delete_api_domain d t))
| rs_health h t : registry_step t (set_upstream_health h t)
| rs_single_health u h t : registry_step t (set_single_upstream_health u h t)
| rs_route_health u t : registry_step t (set_route_upstream_health u t)
| rs_route_health_many us t : registry_step t (set_route_upstream_health_many us t).

Inductive registry_reachable : RouteTable -> Prop :=
| rr_new routes : registry_reachable (Registry_new routes)
| rr_step t t' : registry_reachable t -> registry_step t t' -> registry_reachable t'.

Lemma registry_step_wf t t' : table_wf t -> registry_step t t' -> table_wf t'.
Proof.
  intros Hwf Hstep. destruct Hstep; try apply RouteTable_new_wf.
  - unfold upsert_api_route. destruct (existsb _ _); [done|apply RouteTable_new_wf].
  - by apply set_upstream_health_wf.
  - unfold set_route_upstream_health. destruct (negb _); [done|apply RouteTable_new_wf].
  - unfold set_route_upstream_health_many. destruct (is_empty _); [done|apply RouteTable_new_wf].
Qed.

Lemma reachable_wf t : registry_reachable t -> table_wf t.
Proof. induction 1; [apply RouteTable_new_wf|by eapply registry_step_wf]. Qed.

(** C31: In every reachable state the registry is consistent: no two routes
    have the same key, and the domain index holds for every domain exactly the
    routes of that domain, in the order of the route list. *)
Theorem registry_invariant t : registry_reachable t -> table_wf t.
Proof. apply reachable_wf. Qed.

(** ** Replacing a source *)

Lemma key_source x y : dedupe_key x = dedupe_key y -> r_source x = r_source y.
Proof.
  unfold dedupe_key. destruct (r_source x), (r_source y); intros H; try done;
    cbn in H; discriminate H.
Qed.

Lemma keys_filter_NoDup (P : Route -> Prop) {D : forall x, Decision (P x)} l :
  NoDup (keys l) -> NoDup (keys (filter P l)).
Proof. intros H. eapply sublist_NoDup; [exact H|]. apply fmap_sublist, sublist_filter. Qed.

(** Prepending routes with other keys does not interfere. *)
Lemma dedupe_app l k :
  NoDup (keys l) -> (forall key, key ∈ keys l -> key ∉ keys k) ->
  dedupe_routes (l ++ k) = l ++ dedupe_routes k.
Proof.
  intros Hl Hdis.
  assert (fst (foldl dedupe_step ([], ∅) (l ++ k)) = l ++ fst (foldl dedupe_step ([], ∅) k) /\
    forall key, key ∉ keys l ->
      snd (foldl dedupe_step ([], ∅) (l ++ k)) !! key =
      (fun i => (length l + i)%nat) <$> (snd (foldl dedupe_step ([], ∅) k) !! key)) as [H _];
    [|exact H].
  induction k as [|r k IH] using rev_ind.
  - rewrite app_nil_r. simpl. rewrite app_nil_r. split; [by apply dedupe_id|].
    intros key Hk. rewrite lookup_empty. simpl. apply eq_None_not_Some. intros [i Hi].
    apply (di_positions _ _ _ (dedupe_run_inv l)) in Hi. rewrite dedupe_id in Hi by done.
    apply Hk. by eapply list_elem_of_lookup_2.
  - assert (forall key, key ∈ keys l -> key ∉ keys k) as Hdis'.
    { intros x Hx Hk. apply (Hdis x Hx). unfold keys. rewrite fmap_app. set_solver. }
    assert (dedupe_key r ∉ keys l) as Hr.
    { intros Hx. apply (Hdis _ Hx). unfold keys. rewrite fmap_app. set_solver. }
    destruct (IH Hdis') as [IH1 IH2]. rewrite app_assoc, !foldl_snoc.
    destruct (foldl dedupe_step ([], ∅) (l ++ k)) as [m1 p1].
    destruct (foldl dedupe_step ([], ∅) k) as [m2 p2]. simpl in IH1, IH2. subst m1.
    unfold dedupe_step. rewrite (IH2 _ Hr). destruct (p2 !! dedupe_key r) as [i|] eqn:E; simpl.
    + split; [by rewrite insert_app_r|]. exact IH2.
    + rewrite app_assoc. split; [done|]. intros key Hkey.
      destruct (decide (key = dedupe_key r)) as [->|Hne].
      * rewrite !lookup_insert_eq. simpl. by rewrite length_app.
      * rewrite !lookup_insert_ne by done. by apply IH2.
Qed.

Lemma replace_source_snapshot s routes t :
  table_wf t -> Forall (fun r => r_source r = s) routes ->
  snapshot (replace_source s routes t)
  = filter (fun r => r_source r <> s) (snapshot t) ++ dedupe_routes routes.
Proof.
  intros [Hk _] Hs. apply dedupe_app; [by apply keys_filter_NoDup|].
  intros k (x & -> & Hx)%list_elem_of_fmap (y & Hxy & Hy)%list_elem_of_fmap.
  apply list_elem_of_filter in Hx as [Hx _]. apply key_source in Hxy.
  rewrite Forall_forall in Hs. specialize (Hs y Hy). congruence.
Qed.

(** [replace_source] replaces the routes of one source and nothing else:
    afterwards the table has the routes of the other sources, untouched and in
    their order, followed by the deduplicated new routes. *)
Theorem replace_source_exact s routes t :
  table_wf t -> Forall (fun r => r_source r = s) routes ->
  snapshot (replace_source s routes t)
  = filter (fun r => r_source r <> s) (snapshot t) ++ dedupe_routes routes.
Proof. apply replace_source_snapshot. Qed.

(** ** API routes *)

Lemma filter_unique {B} (f : Route -> B) (P : Route -> Prop) {D : forall x, Decision (P x)} l x :
  NoDup (f <$> l) -> x ∈ l -> P x -> (forall y, y ∈ l -> P y -> f y = f x) -> filter P l = [x].
Proof.
  induction l as [|y l IH]; intros Hnd Hx Hp Hu; [set_solver|].
  apply NoDup_cons in Hnd as [Hy Hnd]. apply elem_of_cons in Hx as [<-|Hx].
  - rewrite filter_cons_True by done. f_equal.
    destruct (filter P l) as [|z zs] eqn:E; [done|].
    assert (z ∈ filter P l) as Hz by (rewrite E; set_solver).
    apply list_elem_of_filter in Hz as [Hzp Hz]. exfalso. apply Hy.
    rewrite <- (Hu z) by set_solver. by apply list_elem_of_fmap_2.
  - rewrite filter_cons_False; [apply IH; [done..|set_solver]|]. intros Hpy. apply Hy.
    rewrite (Hu y) by set_solver. by apply list_elem_of_fmap_2.
Qed.

Lemma max_of_spec (l : list Z) z : z ∈ l -> (forall w, w ∈ l -> w <= z) -> max_of l = Some z.
Proof.
  intros Hz Hmax. unfold max_of. destruct (max_by_key (fun z => z) l) as [m|] eqn:E.
  - apply max_by_key_Some in E as [Hm Hall]. rewrite Forall_forall in Hall.
    specialize (Hall z Hz). specialize (Hmax m Hm). f_equal. lia.
  - apply max_by_key_None in E as ->. set_solver.
Qed.

Lemma priority_api s : source_priority s <= 3 /\ (source_priority s = 3 <-> s = Api).
Proof. by destruct s. Qed.

(** An API route of a consistent table is what the lookup of its domain gives. *)
Lemma find_domain_api t r :
  table_wf t -> r ∈ rt_routes t -> r_source r = Api -> normalize_domain (r_domain r) = r_domain r ->
  find_domain t (r_domain r) = Some r.
Proof.
  intros [Hk Hi] Hr Hs Hn. unfold find_domain. rewrite Hn, Hi. unfold merge_best_domain_routes.
  set (l := filter (fun x => r_domain x = r_domain r) (rt_routes t)).
  assert (r ∈ l) as Hrl by (by apply list_elem_of_filter).
  rewrite (max_of_spec _ 3).
  - assert (filter (fun x => source_priority (r_source x) = 3) l = [r]) as ->; [|done].
    apply (filter_unique dedupe_key); [by apply keys_filter_NoDup|done|by rewrite Hs|].
    intros y Hy Hp. apply priority_api in Hp. apply list_elem_of_filter in Hy as [Hy _].
    unfold dedupe_key. by rewrite Hp, Hs, Hy.
  - apply list_elem_of_In, in_map_iff. exists r. rewrite Hs. split; [done|]. by apply list_elem_of_In.
  - intros y Hy. apply list_elem_of_In, in_map_iff in Hy as (x & <- & _). apply priority_api.
Qed.

Lemma upsert_stored r t :
  table_wf t -> r_source r = Api ->
  exists r', r' ∈ rt_routes (upsert_api_route r t) /\ api_routes_equivalent r' r = true /\
    (existsb (fun e => api_routes_equivalent e r) (snapshot t) = false -> r' = r).
Proof.
  intros Hwf Hs. unfold upsert_api_route.
  destruct (existsb (fun e => api_routes_equivalent e r) (snapshot t)) eqn:E.
  - apply existsb_exists in E as (r' & Hin & Heq). exists r'. by rewrite list_elem_of_In.
  - exists r. split; [|split; [|done]].
    + simpl. apply dedupe_elem. rewrite last_with_key_snoc. by rewrite decide_True.
    + unfold api_routes_equivalent. rewrite !bool_decide_eq_true_2, !seqb_refl, Z.eqb_refl by done.
      by destruct (r_tls r).
Qed.

(** What is upserted is found: after [upsert_api_route r], the lookup of
    the route's domain gives an API route equivalent to [r] (the route itself,
    unless an equivalent one was there already), whatever other routes the
    domain has; API routes win over every other source. *)
Theorem upsert_find r t :
  table_wf t -> r_source r = Api -> normalize_domain (r_domain r) = r_domain r ->
  exists r', find_domain (upsert_api_route r t) (r_domain r) = Some r' /\
    api_routes_equivalent r' r = true /\
    (existsb (fun e => api_routes_equivalent e r) (snapshot t) = false -> r' = r).
Proof.
  intros Hwf Hs Hn. destruct (upsert_stored r t Hwf Hs) as (r' & Hin & Heq & Hnew).
  exists r'. split; [|done].
  assert (r_source r' = Api /\ r_domain r' = r_domain r) as [Hs' Hd'].
  { unfold api_routes_equivalent in Heq. rewrite !andb_true_iff, !bool_decide_eq_true, !seqb_true in Heq.
    tauto. }
  rewrite <- Hd'. apply find_domain_api; [|done|done|by rewrite Hd'].
  eapply registry_step_wf; [exact Hwf|apply rs_upsert].
Qed.

(** [upsert_api_route] leaves every route alone that is not an API route of
    the same domain, and [delete_api_domain] removes exactly the API routes of
    the domain and says whether there was one. *)
Theorem upsert_delete_frame r d t :
  table_wf t ->
  (r_source r = Api ->
   filter (fun e => ~ (r_source e = Api /\ r_domain e = r_domain r)) (snapshot (upsert_api_route r t))
   = filter (fun e => ~ (r_source e = Api /\ r_domain e = r_domain r)) (snapshot t)) /\
  snapshot (fst (delete_api_domain d t))
  = filter (fun e => ~ (r_source e = Api /\ r_domain e = d)) (snapshot t) /\
  (snd (delete_api_domain d t) = true <->
   exists e, e ∈ snapshot t /\ r_source e = Api /\ r_domain e = d).
Proof.
  intros [Hk _]. split; [|split].
  - intros Hs. unfold upsert_api_route. destruct (existsb _ _); [done|]. simpl.
    rewrite dedupe_snoc_new.
    + rewrite dedupe_id by (by apply keys_filter_NoDup).
      rewrite filter_app, filter_cons_False, filter_nil, app_nil_r by tauto.
      rewrite list_filter_filter. apply list_filter_iff. tauto.
    + intros (y & Hy & Hin)%list_elem_of_fmap. apply list_elem_of_filter in Hin as [Hn _]. apply Hn.
      pose proof (key_source _ _ Hy) as Hsrc. rewrite Hs in Hsrc. split; [done|].
      unfold dedupe_key in Hy. rewrite Hs, <- Hsrc in Hy. by apply app_inv_head in Hy.
  - simpl. apply dedupe_id, keys_filter_NoDup, Hk.
  - simpl. rewrite negb_true_iff, Nat.eqb_neq. set (P := fun e => ~ (r_source e = Api /\ r_domain e = d)).
    split.
    + intros Hlen. destruct (decide (Exists (fun e => ~ P e) (snapshot t))) as [He|He].
      * apply Exists_exists in He as (e & He & Hp). exists e. split; [done|].
        unfold P in Hp. by apply dec_stable in Hp.
      * exfalso. apply Hlen. f_equal. symmetry. apply filter_all.
        apply not_Exists_Forall in He; [|apply _]. eapply Forall_impl; [exact He|].
        intros e Hp. by apply dec_stable in Hp.
    + intros (e & He & Hp) Hlen. pose proof (length_filter_lt P (snapshot t) e He) as Hlt.
      unfold P in Hlt at 1. specialize (Hlt ltac:(tauto)). lia.
Qed.
End table.

(** ** Lookup of a host and path *)

Section lookup.
Context {NL : IpNetLib}.
Implicit Types r x y : Route.
Implicit Types t : RouteTable.

Definition urls (l : list Upstream) : list rstr := u_url <$> l.

Lemma extend_unique_spec target ups :
  (NoDup (urls target) -> NoDup (urls (extend_unique_upstreams target ups))) /\
  forall url, url ∈ urls (extend_unique_upstreams target ups) <-> url ∈ urls target \/ url ∈ urls ups.
Proof.
  unfold extend_unique_upstreams. revert target.
  induction ups as [|u ups IH]; intros target; [set_solver|]. cbn [foldl].
  destruct (existsb (fun e => u_url e =s? u_url u) target) eqn:E.
  - destruct (IH target) as [IH1 IH2]. split; [done|]. intros url. rewrite IH2.
    apply existsb_exists in E as (e & He & Eq). apply seqb_true in Eq.
    apply list_elem_of_In in He. unfold urls. rewrite fmap_cons, elem_of_cons. split; [tauto|].
    intros [?|[->|?]]; [tauto| |tauto]. left. rewrite <- Eq. by apply list_elem_of_fmap_2.
  - destruct (IH (target ++ [u])) as [IH1 IH2]. split.
    + intros Hnd. apply IH1. unfold urls. rewrite fmap_app. apply NoDup_app. split; [done|].
      split; [|apply NoDup_singleton]. intros url Hurl Hu. apply list_elem_of_fmap in Hurl as (e & -> & He).
      apply list_elem_of_singleton in Hu.
      assert (existsb (fun e => u_url e =s? u_url u) target = true); [|congruence].
      apply existsb_exists. exists e. rewrite <- list_elem_of_In, seqb_true. done.
    + intros url. rewrite IH2. unfold urls. rewrite fmap_app, fmap_cons. set_solver.
Qed.

Lemma absorb_spec ms path :
  pr_prefix (foldl absorb_match path ms) = pr_prefix path /\
  (NoDup (urls (pr_upstreams path)) -> NoDup (urls (pr_upstreams (foldl absorb_match path ms)))) /\
  forall url, url ∈ urls (pr_upstreams (foldl absorb_match path ms)) <->
    url ∈ urls (pr_upstreams path) \/ exists m, m ∈ ms /\ url ∈ urls (pr_upstreams (m_path m)).
Proof.
  revert path; induction ms as [|m ms IH]; intros path; cbn [foldl].
  - split; [done|]. split; [done|]. set_solver.
  - destruct (IH (absorb_match path m)) as (H1 & H2 & H3). split; [done|].
    destruct (extend_unique_spec (pr_upstreams path) (pr_upstreams (m_path m))) as [E1 E2].
    split; [auto|]. intros url. rewrite H3. simpl. rewrite E2. split.
    + intros [[?|?]|(m' & ? & ?)]; [by left|right; exists m; set_solver|right; exists m'; set_solver].
    + intros [?|(m' & Hm & ?)]; [by left; left|]. apply elem_of_cons in Hm as [->|Hm]; [by left; right|].
      right. by exists m'.
Qed.

Lemma max_of_Some l z : max_of l = Some z -> z ∈ l /\ forall w, w ∈ l -> w <= z.
Proof.
  intros [H1 H2]%max_by_key_Some. split; [done|]. intros w Hw. rewrite Forall_forall in H2. by apply H2.
Qed.

(** The matches that were merged: the longest prefixes of the highest priority. *)
Definition selected (ms : list RouteMatch) (m : RouteMatch) : Prop :=
  m ∈ ms /\ (forall m', m' ∈ ms -> match_len m' <= match_len m) /\
  (forall m', m' ∈ ms -> match_len m' = match_len m -> match_priority m' <= match_priority m).

Lemma merge_matches_spec ms :
  match merge_best_route_matches ms with
  | Some res => exists m, selected ms m /\ pr_prefix (m_path res) = pr_prefix (m_path m) /\
      r_id (m_route res) = r_id (m_route m) /\ r_rules (m_route res) = r_rules (m_route m) /\
      r_paths (m_route res) = [m_path res] /\
      forall url, url ∈ urls (pr_upstreams (m_path res)) <->
        exists m', selected ms m' /\ url ∈ urls (pr_upstreams (m_path m'))
  | None => ms = []
  end.
Proof.
  unfold merge_best_route_matches. destruct (max_of (map match_len ms)) as [len|] eqn:El.
  2:{ unfold max_of in El. apply max_by_key_None in El. by destruct ms. }
  apply max_of_Some in El as [Hlen Hlmax].
  destruct (max_of (map match_priority _)) as [pri|] eqn:Ep.
  2:{ exfalso. apply max_by_key_None in Ep.
      apply list_elem_of_fmap in Hlen as (m & -> & Hm).
      destruct (filter _ ms) eqn:E; [|done].
      assert (m ∈ filter (fun m' => match_len m' = match_len m) ms) as H by (by apply list_elem_of_filter).
      rewrite E in H. set_solver. }
  apply max_of_Some in Ep as [Hpri Hpmax].
  assert (forall m, m ∈ filter (fun m => match_len m = len /\ match_priority m = pri) ms <->
            selected ms m) as Hsel.
  { apply list_elem_of_fmap in Hlen as (ml & -> & Hml).
    apply list_elem_of_fmap in Hpri as (mp & -> & Hmp). apply list_elem_of_filter in Hmp as [Hmpl Hmp].
    intros m. rewrite list_elem_of_filter. unfold selected. split.
    - intros [[Hl Hp] Hm]. split; [done|]. split.
      + intros m' Hm'. rewrite Hl. apply Hlmax. by apply list_elem_of_fmap_2.
      + intros m' Hm' Hl'. rewrite Hp. apply Hpmax. apply list_elem_of_fmap_2, list_elem_of_filter.
        split; [congruence|done].
    - intros (Hm & H1 & H2). split; [|done].
      assert (match_len m = match_len ml) as Hl.
      { apply Z.le_antisymm; [|by apply H1]. apply Hlmax. by apply list_elem_of_fmap_2. }
      split; [done|]. apply Z.le_antisymm.
      + apply Hpmax. apply list_elem_of_fmap_2, list_elem_of_filter. done.
      + apply H2; [done|congruence]. }
  destruct (filter (fun m => match_len m = len /\ match_priority m = pri) ms) as [|m0 rest] eqn:Ef.
  { exfalso. apply list_elem_of_fmap in Hpri as (mp & -> & Hmp).
    apply list_elem_of_filter in Hmp as [Hmpl Hmp].
    assert (mp ∈ filter (fun m => match_len m = len /\ match_priority m = match_priority mp) ms) as H
      by (by apply list_elem_of_filter). rewrite Ef in H. set_solver. }
  destruct (absorb_spec rest (m_path m0)) as (H1 & _ & H3).
  exists m0. split; [apply Hsel; set_solver|]. simpl. split; [done|]. split; [done|]. split; [done|].
  split; [done|]. intros url. rewrite H3. setoid_rewrite <- Hsel. split.
  - intros [?|(m & ? & ?)]; [exists m0|exists m]; set_solver.
  - intros (m & [->|Hm]%elem_of_cons & ?); [by left|right; by exists m].
Qed.

(** The (route, path) pairs of a domain that match, from the route list. *)
Definition candidates t (domain path : rstr) (alias : bool) : list RouteMatch :=
  omap (fun r => match best_path r path with
                 | Some pr => Some {| m_route := r; m_path := pr |}
                 | None => None
                 end)
    (filter (fun r => r_domain r = domain /\ (negb alias || alias_ok r = true)) (snapshot t)).

Lemma matching_candidates t domain path alias :
  table_wf t -> matching_routes t domain path alias = candidates t domain path alias.
Proof.
  intros [_ Hi]. unfold matching_routes, candidates, snapshot. f_equal.
  rewrite Hi, list_filter_filter. apply list_filter_iff. intros r. tauto.
Qed.

Lemma find_spec t host path :
  table_wf t ->
  let d := normalize_domain host in
  let direct := candidates t d path false in
  let aliased := match www_alias_base d with Some b => candidates t b path true | None => [] end in
  let ms := if is_empty direct then aliased else direct in
  match find t host path with
  | Some res => d <> [] /\ exists m, selected ms m /\ pr_prefix (m_path res) = pr_prefix (m_path m) /\
      r_id (m_route res) = r_id (m_route m) /\ r_rules (m_route res) = r_rules (m_route m) /\
      r_paths (m_route res) = [m_path res] /\
      forall url, url ∈ urls (pr_upstreams (m_path res)) <->
        exists m', selected ms m' /\ url ∈ urls (pr_upstreams (m_path m'))
  | None => d = [] \/ ms = []
  end.
Proof.
  intros Hwf d direct aliased ms. unfold find. fold d.
  destruct (is_empty d) eqn:Ed; [left; by destruct d|].
  assert (d <> []) as Hd by (by destruct d).
  assert ((if is_empty (matching_routes t d path false) then
             match www_alias_base d with
             | Some base => matching_routes t base path true
             | None => matching_routes t d path false
             end else matching_routes t d path false) = ms) as ->.
  { unfold ms, aliased. rewrite !matching_candidates by done. fold direct.
    destruct direct as [|x l]; [|done]. cbn [is_empty].
    destruct (www_alias_base d); [by rewrite matching_candidates|done]. }
  pose proof (merge_matches_spec ms) as H. destruct (merge_best_route_matches ms); [|by right].
  by split.
Qed.

(** Where the parts of a match come from. *)
Lemma find_sources t host path res :
  table_wf t -> find t host path = Some res ->
  (exists r, r ∈ snapshot t /\ r_rules (m_route res) = r_rules r) /\
  forall url, url ∈ urls (pr_upstreams (m_path res)) ->
    exists r p, r ∈ snapshot t /\ p ∈ r_paths r /\ url ∈ urls (pr_upstreams p).
Proof.
  intros Hwf Hf. pose proof (find_spec t host path Hwf) as H. cbv zeta in H. rewrite Hf in H.
  destruct H as (_ & m & Hm & _ & _ & Hrules & _ & Hurls).
  set (ms := if is_empty _ then _ else _) in *.
  assert (forall x : RouteMatch, x ∈ ms -> m_route x ∈ snapshot t /\ m_path x ∈ r_paths (m_route x)) as Hms.
  { assert (forall d a (x : RouteMatch), x ∈ candidates t d path a ->
      m_route x ∈ snapshot t /\ m_path x ∈ r_paths (m_route x)) as Hc.
    { intros d a x Hx. unfold candidates in Hx. apply list_elem_of_omap in Hx as (r & Hr & Hx).
      apply list_elem_of_filter in Hr as [_ Hr]. pose proof (best_path_spec r path) as Hb.
      destruct (best_path r path) as [pr|]; [|done]. injection Hx as <-. by split; [|apply Hb]. }
    intros x Hx. unfold ms in Hx. destruct (is_empty _); [|by eapply Hc].
    destruct (www_alias_base _); [by eapply Hc|by apply not_elem_of_nil in Hx]. }
  split.
  - exists (m_route m). split; [by apply Hms, Hm|done].
  - intros url (m' & Hm' & Hu)%Hurls. exists (m_route m'), (m_path m').
    destruct (Hms m') as [? ?]; [apply Hm'|]. done.
Qed.

(** C28: The routing decision: [find] gives a match exactly when some route of
    the host's domain matches the path or, failing that, when the host is the
    [www.] alias of a domain that allows it and has a matching route.  The
    match has the longest matching prefix, among those the highest source
    priority (API over containers over static), and its upstreams are exactly
    those of all routes that tie. *)
Theorem find_best t host path :
  table_wf t ->
  let d := normalize_domain host in
  let direct := candidates t d path false in
  let aliased := match www_alias_base d with Some b => candidates t b path true | None => [] end in
  let ms := if is_empty direct then aliased else direct in
  match find t host path with
  | Some res => d <> [] /\ exists m, selected ms m /\ pr_prefix (m_path res) = pr_prefix (m_path m) /\
      r_id (m_route res) = r_id (m_route m) /\ r_rules (m_route res) = r_rules (m_route m) /\
      r_paths (m_route res) = [m_path res] /\
      forall url, url ∈ urls (pr_upstreams (m_path res)) <->
        exists m', selected ms m' /\ url ∈ urls (pr_upstreams (m_path m'))
  | None => d = [] \/ ms = []
  end.
Proof. apply find_spec. Qed.

(** ** Health updates *)

(** Every upstream list of a route the health updates reach. *)
Definition pool_upstreams r : list Upstream :=
  flat_map pr_upstreams (r_paths r) ++ flat_map ts_upstreams (dr_traffic_splits (r_rules r))
  ++ flat_map lr_upstreams (dr_location_routes (r_rules r)).

Lemma map_upstreams_pool f r :
  pool_upstreams (map_upstreams (fun _ => f) f r) = map f (pool_upstreams r).
Proof.
  unfold pool_upstreams, map_upstreams. simpl. rewrite !map_app. f_equal; [|f_equal].
  - induction (r_paths r) as [|p l IH]; [done|]. simpl. by rewrite map_app, IH.
  - induction (dr_traffic_splits (r_rules r)) as [|p l IH]; [done|]. simpl. by rewrite map_app, IH.
  - induction (dr_location_routes (r_rules r)) as [|p l IH]; [done|]. simpl. by rewrite map_app, IH.
Qed.

Lemma map_upstreams_key fp f r : dedupe_key (map_upstreams fp f r) = dedupe_key r.
Proof. done. Qed.

Lemma keys_map (g : Route -> Route) l :
  (forall r, dedupe_key (g r) = dedupe_key r) -> keys (map g l) = keys l.
Proof.
  intros H. unfold keys. change (map g l) with (g <$> l). rewrite <- list_fmap_compose.
  apply list_fmap_ext. intros i r _. apply H.
Qed.

Lemma map_id_ext {A} (f : A -> A) l : (forall a, f a = a) -> map f l = l.
Proof. intros H. induction l as [|x l IH]; [done|]. simpl. by rewrite H, IH. Qed.

Lemma map_upstreams_id fp f r :
  (forall p u, fp p u = u) -> (forall u, f u = u) -> map_upstreams fp f r = r.
Proof.
  intros Hp Hf. unfold map_upstreams. destruct r as [i d ps tls alg rules src v c u]. destruct rules.
  unfold r_with_rules, r_with_paths, dr_with_pools. simpl. f_equal.
  - apply map_id_ext. intros [pre ups mw]. simpl. by rewrite map_id_ext.
  - f_equal; apply map_id_ext; intros []; unfold lr_with_upstreams, ts_with_upstreams; simpl;
      by rewrite map_id_ext.
Qed.

Lemma set_upstream_health_snapshot h t :
  table_wf t ->
  snapshot (set_upstream_health h t)
  = map (map_upstreams (fun _ => apply_health h) (apply_health h)) (snapshot t).
Proof.
  intros [Hk _]. unfold set_upstream_health. destruct (bool_decide (h = ∅)) eqn:Eh; bools.
  - subst h. symmetry. apply map_id_ext. intros r.
    apply map_upstreams_id; intros; unfold apply_health; by rewrite lookup_empty.
  - simpl. apply dedupe_id. by rewrite keys_map.
Qed.

(** A health update changes the health flags and nothing else: the table
    keeps its routes in order, every upstream of a path, traffic split or
    location route whose URL is in the update has the given health, and every
    other upstream is as it was. *)
Theorem set_upstream_health_exact h t :
  table_wf t ->
  snapshot (set_upstream_health h t)
  = map (map_upstreams (fun _ => apply_health h) (apply_health h)) (snapshot t) /\
  Forall2 (fun r r' => r_id r' = r_id r /\ r_domain r' = r_domain r /\
      pool_upstreams r' = map (apply_health h) (pool_upstreams r) /\
      Forall (fun u => forall b, h !! u_url u = Some b -> u_healthy u = b) (pool_upstreams r'))
    (snapshot t) (snapshot (set_upstream_health h t)).
Proof.
  intros Hwf. pose proof (set_upstream_health_snapshot h t Hwf) as E.
  split; [done|]. rewrite E. apply Forall2_fmap_r, Forall_Forall2_diag, Forall_true.
  intros r. split; [done|]. split; [done|]. rewrite map_upstreams_pool. split; [done|].
  apply Forall_forall. intros u (v & -> & _)%list_elem_of_fmap b. unfold apply_health.
  destruct (h !! u_url v) as [b'|] eqn:Eb; simpl; congruence.
Qed.
End lookup.

(** ** [EdgeState]: the registry with its metrics *)

Section edge.
Context {NL : IpNetLib}.
Implicit Types t : RouteTable.

(** The registry and the two gauges the route operations set. *)
Record EdgeState := {
  es_routes : RouteTable;
  es_routes_total : gmap rstr Z;
  es_upstream_health_status : gmap rstr Z;
}.

Definition source_label (s : RouteSource) : rstr :=
  match s with
  | Static => lit "static"
  | Docker => lit "docker"
  | Podman => lit "podman"
  | Api => lit "api"
  end.

Definition zero_counts : gmap rstr Z :=
  {[ lit "static" := 0; lit "docker" := 0; lit "podman" := 0; lit "api" := 0 ]}.

Definition count_route (counts : gmap rstr Z) (r : Route) : gmap rstr Z :=
  let k := source_label (r_source r) in <[k := default 0 (counts !! k) + 1]> counts.

(** Every count is set on the gauge of its label. *)
Definition refresh_route_metrics (t : RouteTable) (gauge : gmap rstr Z) : gmap rstr Z :=
  foldl count_route zero_counts (snapshot t) ∪ gauge.

Definition EdgeState_new (t : RouteTable) : EdgeState :=
  {| es_routes := t; es_routes_total := refresh_route_metrics t ∅;
     es_upstream_health_status := ∅ |}.

Definition with_routes (t : RouteTable) (es : EdgeState) : EdgeState :=
  {| es_routes := t; es_routes_total := refresh_route_metrics t (es_routes_total es);
     es_upstream_health_status := es_upstream_health_status es |}.

Definition es_replace_routes_from_source (s : RouteSource) (routes : list Route) (es : EdgeState)
  : EdgeState := with_routes (replace_source s routes (es_routes es)) es.

Definition es_upsert_api_route (r : Route) (es : EdgeState) : EdgeState * bool :=
  if existsb (fun existing => api_routes_equivalent existing r) (snapshot (es_routes es))
  then (es, false)
  else (with_routes (upsert_api_route r (es_routes es)) es, true).

Definition es_delete_api_domain (d : rstr) (es : EdgeState) : EdgeState * bool :=
  let '(t, deleted) := delete_api_domain d (es_routes es) in (with_routes t es, deleted).

Definition set_gauge (label : rstr) (healthy : bool) (g : gmap rstr Z) : gmap rstr Z :=
  <[label := if healthy then 1 else 0]> g.

Definition with_health (t : RouteTable) (g : gmap rstr Z) (es : EdgeState) : EdgeState :=
  {| es_routes := t; es_routes_total := es_routes_total es; es_upstream_health_status := g |}.

Definition es_set_upstream_health (health : gmap rstr bool) (es : EdgeState) : EdgeState :=
  with_health (set_upstream_health health (es_routes es))
    (foldl (fun g kv => set_gauge (fst kv) (snd kv) g) (es_upstream_health_status es)
       (map_to_list health)) es.

Definition es_set_single_upstream_health (url : rstr) (healthy : bool) (es : EdgeState) : EdgeState :=
  with_health (set_single_upstream_health url healthy (es_routes es))
    (set_gauge url healthy (es_upstream_health_status es)) es.

Definition route_upstream_health_label (domain path_prefix upstream_url : rstr) : rstr :=
  domain ++ lit "|" ++ path_prefix ++ lit "|" ++ upstream_url.
Definition update_label (u : RouteUpstreamHealth) : rstr :=
  route_upstream_health_label (uh_domain u) (uh_path_prefix u) (uh_upstream_url u).

Definition es_set_route_upstream_health (u : RouteUpstreamHealth) (es : EdgeState) : EdgeState :=
  with_health (set_route_upstream_health u (es_routes es))
    (set_gauge (update_label u) (uh_healthy u) (es_upstream_health_status es)) es.

Definition es_set_route_upstream_health_many (us : list RouteUpstreamHealth) (es : EdgeState)
  : EdgeState :=
  with_health (set_route_upstream_health_many us (es_routes es))
    (foldl (fun g u => set_gauge (update_label u) (uh_healthy u) g)
       (es_upstream_health_status es) us) es.

(** *** The route counts are those of the table *)

Definition count_source (s : RouteSource) (l : list Route) : Z :=
  Z.of_nat (length (filter (fun r => r_source r = s) l)).

Definition metrics_ok (es : EdgeState) : Prop :=
  table_wf (es_routes es) /\
  forall s, es_routes_total es !! source_label s = Some (count_source s (snapshot (es_routes es))).

Lemma source_label_inj s s' : source_label s = source_label s' -> s = s'.
Proof. destruct s, s'; try done; intros H; cbn in H; discriminate H. Qed.

Lemma counts_spec l s :
  foldl count_route zero_counts l !! source_label s = Some (count_source s l).
Proof.
  induction l as [|r l IH] using rev_ind; [by destruct s|].
  rewrite foldl_snoc. unfold count_route at 1. unfold count_source in *. rewrite filter_app, length_app.
  destruct (decide (r_source r = s)) as [<-|Hne].
  - rewrite lookup_insert_eq, IH, filter_cons_True, filter_nil by done. simpl. f_equal. lia.
  - rewrite lookup_insert_ne, IH, filter_cons_False, filter_nil by (done || intros ?%source_label_inj; done).
    simpl. f_equal. lia.
Qed.

Lemma with_routes_ok t es : table_wf t -> metrics_ok (with_routes t es).
Proof.
  intros Hwf. split; [done|]. intros s. simpl. unfold refresh_route_metrics.
  rewrite lookup_union_Some_raw. left. apply counts_spec.
Qed.

Lemma count_source_map (g : Route -> Route) s l :
  (forall r, r_source (g r) = r_source r) -> count_source s (map g l) = count_source s l.
Proof.
  intros Hg. unfold count_source. f_equal. induction l as [|r l IH]; [done|]. cbn [map].
  destruct (decide (r_source r = s)) as [E|E].
  - rewrite !filter_cons_True by (rewrite ?Hg; done). simpl. by rewrite IH.
  - rewrite !filter_cons_False by (rewrite ?Hg; done). done.
Qed.

Definition route_health_fun (u : RouteUpstreamHealth) (r : Route) : Route :=
  if r_domain r =s? normalize_domain (uh_domain u) then
    map_upstreams (fun prefix up => if prefix =s? uh_path_prefix u then set_if_url u up else up)
      (set_if_url u) r
  else r.

Lemma route_health_fun_frame u r :
  r_source (route_health_fun u r) = r_source r /\ dedupe_key (route_health_fun u r) = dedupe_key r.
Proof. unfold route_health_fun. by destruct (_ =s? _). Qed.

Lemma route_health_many_map us l : exists g : Route -> Route,
  foldl (fun routes u => if update_applies u then apply_route_health u routes else routes) l us = map g l /\
  forall r, r_source (g r) = r_source r /\ dedupe_key (g r) = dedupe_key r.
Proof.
  revert l; induction us as [|u us IH]; intros l; cbn [foldl].
  { exists (fun r => r). split; [symmetry; by apply map_id_ext|done]. }
  destruct (update_applies u); [|apply IH].
  destruct (IH (apply_route_health u l)) as (g & Hg & Hf).
  exists (fun r => g (route_health_fun u r)). split.
  - rewrite Hg. unfold apply_route_health. by rewrite map_map.
  - intros r. destruct (Hf (route_health_fun u r)) as [-> ->]. apply route_health_fun_frame.
Qed.

Lemma with_health_ok t' g es :
  metrics_ok es -> table_wf t' ->
  (forall s, count_source s (snapshot t') = count_source s (snapshot (es_routes es))) ->
  metrics_ok (with_health t' g es).
Proof. intros [_ Hm] Hwf Hc. split; [done|]. intros s. simpl. by rewrite Hc. Qed.

Inductive edge_step : EdgeState -> EdgeState -> Prop :=
| es_replace s routes es : edge_step es (es_replace_routes_from_source s routes es)
| es_upsert r es : edge_step es (fst (es_upsert_api_route r es))
| es_delete d es : edge_step es (fst (es_delete_api_domain d es))
| es_health h es : edge_step es (es_set_upstream_health h es)
| es_single u h es : edge_step es (es_set_single_upstream_health u h es)
| es_route u es : edge_step es (es_set_route_upstream_health u es)
| es_route_many us es : edge_step es (es_set_route_upstream_health_many us es).

Lemma edge_step_ok es es' : metrics_ok es -> edge_step es es' -> metrics_ok es'.
Proof.
  intros Hok Hstep. pose proof (proj1 Hok) as Hwf. destruct Hstep.
  - apply with_routes_ok, RouteTable_new_wf.
  - unfold es_upsert_api_route. destruct (existsb _ _); [done|]. apply with_routes_ok.
    eapply registry_step_wf; [exact Hwf|apply rs_upsert].
  - apply with_routes_ok, RouteTable_new_wf.
  - apply with_health_ok; [done|by apply set_upstream_health_wf|]. intros s.
    rewrite set_upstream_health_snapshot by done. by apply count_source_map.
  - apply with_health_ok; [done|by apply set_upstream_health_wf|]. intros s.
    unfold set_single_upstream_health. rewrite set_upstream_health_snapshot by done.
    by apply count_source_map.
  - apply with_health_ok; [done|eapply registry_step_wf; [exact Hwf|apply rs_route_health]|].
    intros s. unfold set_route_upstream_health. destruct (negb _); [done|]. simpl.
    change (apply_route_health u (snapshot (es_routes es)))
      with (map (route_health_fun u) (snapshot (es_routes es))).
    rewrite dedupe_id; [apply count_source_map|rewrite keys_map; [apply Hwf|]];
      intros r; apply route_health_fun_frame.
  - apply with_health_ok; [done|eapply registry_step_wf; [exact Hwf|apply rs_route_health_many]|].
    intros s. unfold set_route_upstream_health_many. destruct (is_empty us); [done|]. simpl.
    destruct (route_health_many_map us (snapshot (es_routes es))) as (g & -> & Hg).
    rewrite dedupe_id; [apply count_source_map|rewrite keys_map; [apply Hwf|]]; intros r; apply Hg.
Qed.

(** The route-count gauges always tell the truth: from the creation of the
    edge state on and across every operation on it, the gauge of each source
    is the number of routes of that source in the table. *)
Theorem edge_metrics_invariant routes es :
  rtc edge_step (EdgeState_new (Registry_new routes)) es -> metrics_ok es.
Proof.
  assert (metrics_ok (EdgeState_new (Registry_new routes))) as H0.
  { split; [apply RouteTable_new_wf|]. intros s. simpl. unfold refresh_route_metrics.
    rewrite lookup_union_Some_raw. left. apply counts_spec. }
  intros Hrtc. revert H0. induction Hrtc as [|es1 es2 es3 Hstep _ IH]; [done|].
  intros H. apply IH. by eapply edge_step_ok.
Qed.

(** ** Concurrent writers *)

(** A writer loads the table, computes, and stores: two atomic actions on the
    [ArcSwap] cell.  Two writers share the cell. *)
Inductive action : Type := Load1 | Store1 | Load2 | Store2.
Definition race_step (op1 op2 : RouteTable -> RouteTable)
    (st : RouteTable * RouteTable * RouteTable) (a : action) : RouteTable * RouteTable * RouteTable :=
  let '(cell, s1, s2) := st in
  match a with
  | Load1 => (cell, cell, s2)
  | Load2 => (cell, s1, cell)
  | Store1 => (op1 s1, s1, s2)
  | Store2 => (op2 s2, s1, s2)
  end.
Definition race (op1 op2 : RouteTable -> RouteTable) (schedule : list action) (t : RouteTable)
  : RouteTable := fst (fst (foldl (race_step op1 op2) (t, t, t) schedule)).

(** The registry's writers are not atomic: an API upsert whose store falls
    between the load and the store of a concurrent source refresh is lost,
    although each of the two completed; run one after the other, in either
    order, the upserted route is there. *)
Theorem registry_lost_update r s routes t :
  table_wf t -> r_source r = Api -> s <> Api -> Forall (fun x => r_source x = s) routes ->
  (r ∉ snapshot t) -> existsb (fun e => api_routes_equivalent e r) (snapshot t) = false ->
  let op1 := upsert_api_route r in
  let op2 := replace_source s routes in
  (r ∉ snapshot (race op1 op2 [Load1; Load2; Store1; Store2] t)) /\
  r ∈ snapshot (race op1 op2 [Load1; Store1; Load2; Store2] t) /\
  r ∈ snapshot (race op1 op2 [Load2; Store2; Load1; Store1] t).
Proof.
  intros Hwf Hs Hne Hall Hr Hneq op1 op2. split; [|split].
  - change (race _ _ _ _) with (replace_source s routes t). intros Hin.
    unfold replace_source, replace_all in Hin. simpl in Hin. apply dedupe_elem in Hin.
    apply last_Some_elem_of, list_elem_of_filter in Hin as [_ Hin].
    apply elem_of_app in Hin as [Hin|Hin]; [by apply list_elem_of_filter in Hin as [_ ?]|].
    rewrite Forall_forall in Hall. specialize (Hall r Hin). congruence.
  - destruct (upsert_stored r t Hwf Hs) as (r' & Hin & _ & Hnew). rewrite (Hnew Hneq) in Hin.
    assert (table_wf (op1 t)) as Hwf1 by (eapply registry_step_wf; [exact Hwf|apply rs_upsert]).
    change (race _ _ _ _) with (replace_source s routes (op1 t)).
    rewrite replace_source_snapshot by done.
    apply elem_of_app. left. apply list_elem_of_filter. split; [congruence|done].
  - change (race _ _ _ _) with (op1 (op2 t)).
    assert (table_wf (op2 t)) as Hwf2 by (eapply registry_step_wf; [exact Hwf|apply rs_replace_source]).
    destruct (upsert_stored r (op2 t) Hwf2 Hs) as (r' & Hin & _ & Hnew). rewrite Hnew in Hin; [done|].
    destruct (existsb _ (snapshot (op2 t))) eqn:E; [|done]. exfalso.
    apply existsb_exists in E as (e & He & Heq). apply list_elem_of_In in He.
    unfold op2 in He. rewrite replace_source_snapshot in He by done.
    apply elem_of_app in He as [He|He].
    + apply list_elem_of_filter in He as [_ He].
      assert (existsb (fun e => api_routes_equivalent e r) (snapshot t) = true); [|congruence].
      apply existsb_exists. exists e. by rewrite <- list_elem_of_In.
    + apply dedupe_elem, last_Some_elem_of, list_elem_of_filter in He as [_ He].
      rewrite Forall_forall in Hall. specialize (Hall e He).
      unfold api_routes_equivalent in Heq. rewrite !andb_true_iff, !bool_decide_eq_true in Heq.
      destruct Heq as [[[[[[[[He1 _] _] _] _] _] _] _] _]. congruence.
Qed.
End edge.

(** ** Witnesses *)

Section examples.
Let route (id d prefix url : string) (src : RouteSource) : @Route CidrLib :=
  with_id (lit id)
    (@Route_new CidrLib (lit id) 0 (lit d) [PathRoute_new (lit prefix) [Upstream_new (lit url)]] src).

Definition route_a : @Route CidrLib := route "a" "Example.com" "/" "http://a:1" Docker.
Definition route_b : @Route CidrLib := route "b" "example.com" "/api" "http://b:1" Docker.
Definition route_b2 : @Route CidrLib := route "b2" "example.com" "/api" "http://b2:1" Docker.
Definition route_s : @Route CidrLib := route "s" "example.com" "/api" "http://s:1" Static.
Definition route_api : @Route CidrLib := route "p" "example.com" "/" "http://p:1" Api.
End examples.

Definition example_table : @RouteTable CidrLib := Registry_new [route_a; route_s; route_b; route_b2].

Example find_example :
  (fun m => (pr_prefix (m_path m), map u_url (pr_upstreams (m_path m))))
    <$> find example_table (lit "EXAMPLE.com:80") (lit "/api/x")
  = Some (lit "/api", lits ["http://b:1"; "http://b2:1"]).
Proof. vm_compute. reflexivity. Qed.

Lemma registry_invariant_witness :
  @table_wf CidrLib (upsert_api_route route_api example_table).
Proof. apply registry_invariant. eapply rr_step; [apply rr_new|apply rs_upsert]. Defined.

Lemma example_wf : @table_wf CidrLib example_table.
Proof. apply RouteTable_new_wf. Qed.

Lemma replace_source_exact_witness :
  map r_id (snapshot (replace_source Docker [route_b2] example_table)) = lits ["s"; "b2"].
Proof.
  rewrite (replace_source_exact Docker [route_b2] example_table example_wf); [vm_compute; reflexivity|].
  repeat constructor.
Defined.

Lemma upsert_find_witness :
  exists r', find_domain (upsert_api_route route_api example_table) (lit "example.com") = Some r' /\
    r' = route_api.
Proof.
  destruct (upsert_find route_api example_table example_wf eq_refl) as (r' & H1 & _ & H2);
    [vm_compute; reflexivity|].
  exists r'. split; [exact H1|]. apply H2. vm_compute. reflexivity.
Defined.

Lemma upsert_delete_frame_witness :
  snd (delete_api_domain (lit "example.com") example_table) = true <->
  exists e, e ∈ snapshot example_table /\ r_source e = Api /\ r_domain e = lit "example.com".
Proof.
  apply (upsert_delete_frame route_api (lit "example.com") example_table example_wf).
Defined.

Lemma find_best_witness :
  exists (res m : @RouteMatch CidrLib), find example_table (lit "example.com") (lit "/api/x") = Some res /\
    pr_prefix (m_path res) = pr_prefix (m_path m) /\ m ∈ candidates example_table
      (normalize_domain (lit "example.com")) (lit "/api/x") false.
Proof.
  pose proof (find_best example_table (lit "example.com") (lit "/api/x") example_wf) as H.
  cbv zeta in H. revert H.
  assert (is_empty (candidates example_table (normalize_domain (lit "example.com")) (lit "/api/x") false)
          = false) as -> by (vm_compute; reflexivity).
  assert (match find example_table (lit "example.com") (lit "/api/x") with
          | Some _ => true | None => false end = true) as Hs by (vm_compute; reflexivity).
  revert Hs. generalize (find example_table (lit "example.com") (lit "/api/x")).
  intros [res|] Hs; [|discriminate Hs].
  intros (_ & m & (Hm & _) & Hp & _). exists res, m. split; [reflexivity|]. split; [exact Hp|exact Hm].
Defined.

Lemma set_upstream_health_exact_witness :
  map (fun r => map u_healthy (pool_upstreams r))
    (snapshot (set_upstream_health {[ lit "http://b:1" := false ]} example_table))
  = [[true]; [true]; [false]; [true]].
Proof.
  destruct (set_upstream_health_exact {[ lit "http://b:1" := false ]} example_table example_wf) as [E _].
  rewrite E. vm_compute. reflexivity.
Defined.

Lemma edge_metrics_invariant_witness :
  @metrics_ok CidrLib (fst (es_upsert_api_route route_api
    (EdgeState_new (Registry_new [route_a; route_s])))).
Proof. apply (edge_metrics_invariant [route_a; route_s]). apply rtc_once, es_upsert. Defined.

Lemma registry_lost_update_witness :
  (route_api ∉ snapshot (race (upsert_api_route route_api) (replace_source Docker [route_b])
    [Load1; Load2; Store1; Store2] example_table)).
Proof.
  refine (proj1 (registry_lost_update route_api Docker [route_b] example_table example_wf eq_refl _ _ _ _)).
  - discriminate.
  - repeat constructor.
  - by_decide.
  - vm_compute. reflexivity.
Defined.
