(* ===== verification/Stats.v ===== *)
(** The statistics of the [core] crate: the per-domain counters, their
    snapshots and restoration, the bounded key tables, the recent visits, and
    the registry that also feeds the analytics queue.  The queue is a bounded
    channel with its capacity; the overflow spool is the list of the events
    written to it. *)
From stdpp Require Import options.
From S2P Require Import Prelude RustStr RustNum RustNet CommonTypes.

Local Open Scope Z_scope.

Definition RECENT_VISIT_LIMIT : Z := 5000.
Definition MAX_COUNTER_KEYS : Z := 1000.
Definition OVERFLOW_COUNTER_KEY : rstr := lit "__other__".

(** ** Data *)

Record RequestObservation := {
  ob_request_id : rstr;
  ob_domain : rstr;
  ob_method : rstr;
  ob_path : rstr;
  ob_status : Z;
  ob_latency_ms : Z;
  ob_upstream : option rstr;
  ob_remote_ip : option IpAddr;
  ob_location : GeoLocation;
  ob_timestamp_unix_ms : Z;
  ob_bytes_sent : Z;
  ob_bytes_received : Z;
}.

Record VisitSnapshot := {
  vs_request_id : rstr;
  vs_domain : rstr;
  vs_method : rstr;
  vs_path : rstr;
  vs_status : Z;
  vs_latency_ms : Z;
  vs_upstream : option rstr;
  vs_remote_ip : option rstr;
  vs_location : GeoLocation;
  vs_timestamp_unix_ms : Z;
  vs_bytes_sent : Z;
  vs_bytes_received : Z;
}.

Record LocationCount := {
  lc_code : rstr;
  lc_name : option rstr;
  lc_count : Z;
}.

Record StringCount := {
  sc_value : rstr;
  sc_count : Z;
}.

Record DomainStatsSnapshot := {
  sn_domain : rstr;
  sn_requests_total : Z;
  sn_responses_2xx : Z;
  sn_responses_3xx : Z;
  sn_responses_4xx : Z;
  sn_responses_5xx : Z;
  sn_average_latency_ms : Z;  (** an [f64] *)
  sn_total_bytes_sent : Z;
  sn_total_bytes_received : Z;
  sn_total_bandwidth : Z;
  sn_last_status : option Z;
  sn_last_seen_unix_ms : option Z;
  sn_top_countries : list LocationCount;
  sn_top_continents : list LocationCount;
  sn_top_paths : list StringCount;
  sn_top_upstreams : list StringCount;
}.

Record DomainStatsCounters := {
  ds_requests_total : Z;
  ds_responses_2xx : Z;
  ds_responses_3xx : Z;
  ds_responses_4xx : Z;
  ds_responses_5xx : Z;
  ds_total_latency_ms : Z;
  ds_total_bytes_sent : Z;
  ds_total_bytes_received : Z;
  ds_last_status : Z;
  ds_last_seen_unix_ms : Z;
  ds_recent_visits : list VisitSnapshot;
  ds_country_counts : gmap rstr LocationCount;
  ds_continent_counts : gmap rstr LocationCount;
  ds_path_counts : gmap rstr Z;
  ds_upstream_counts : gmap rstr Z;
}.
Definition DomainStatsCounters_default : DomainStatsCounters := {|
  ds_requests_total := 0; ds_responses_2xx := 0; ds_responses_3xx := 0; ds_responses_4xx := 0;
  ds_responses_5xx := 0; ds_total_latency_ms := 0; ds_total_bytes_sent := 0;
  ds_total_bytes_received := 0; ds_last_status := 0; ds_last_seen_unix_ms := 0;
  ds_recent_visits := []; ds_country_counts := ∅; ds_continent_counts := ∅;
  ds_path_counts := ∅; ds_upstream_counts := ∅ |}.

(** ** Key tables *)

Definition increment_count (counts : gmap rstr Z) (value : rstr) : gmap rstr Z :=
  let key := if bool_decide (is_Some (counts !! value)) || (Z.of_nat (size counts) <? MAX_COUNTER_KEYS)
             then value else OVERFLOW_COUNTER_KEY in
  <[key := add64 (default 0 (counts !! key)) 1]> counts.

Definition increment_location_count (counts : gmap rstr LocationCount) (code name : option rstr)
  : gmap rstr LocationCount :=
  let code := to_ascii_uppercase (default (lit "UNKNOWN") code) in
  let entry := default {| lc_code := code; lc_name := name; lc_count := 0 |} (counts !! code) in
  <[code := {| lc_code := lc_code entry;
               lc_name := match lc_name entry with Some n => Some n | None => name end;
               lc_count := add64 (lc_count entry) 1 |}]> counts.

(** Most frequent first, ties in the order of the keys. *)
Definition location_le (a b : LocationCount) : Prop :=
  lc_count b < lc_count a \/ (lc_count a = lc_count b /\ str_le (lc_code a) (lc_code b)).
#[export] Instance location_le_dec : RelDecision location_le.
Proof. intros a b. unfold location_le. apply _. Defined.
Definition string_count_le (a b : StringCount) : Prop :=
  sc_count b < sc_count a \/ (sc_count a = sc_count b /\ str_le (sc_value a) (sc_value b)).
#[export] Instance string_count_le_dec : RelDecision string_count_le.
Proof. intros a b. unfold string_count_le. apply _. Defined.

Definition top_location_counts (counts : gmap rstr LocationCount) (limit : nat) : list LocationCount :=
  take limit (merge_sort location_le (snd <$> map_to_list counts)).

Definition top_string_counts (counts : gmap rstr Z) (limit : nat) : list StringCount :=
  take limit (merge_sort string_count_le
    ((fun kv => {| sc_value := fst kv; sc_count := snd kv |}) <$> map_to_list counts)).

Definition restore_string_counts (counts : gmap rstr Z) (values : list StringCount) : gmap rstr Z :=
  foldl (fun m item => <[sc_value item := sc_count item]> m) counts values.
Definition restore_location_counts (counts : gmap rstr LocationCount) (values : list LocationCount)
  : gmap rstr LocationCount :=
  foldl (fun m item => <[lc_code item := item]> m) counts values.

(** ** The counters of a domain *)

Definition visit_of (e : RequestObservation) : VisitSnapshot := {|
  vs_request_id := ob_request_id e; vs_domain := ob_domain e; vs_method := ob_method e;
  vs_path := ob_path e; vs_status := ob_status e; vs_latency_ms := ob_latency_ms e;
  vs_upstream := ob_upstream e; vs_remote_ip := ip_to_string <$> ob_remote_ip e;
  vs_location := ob_location e; vs_timestamp_unix_ms := ob_timestamp_unix_ms e;
  vs_bytes_sent := ob_bytes_sent e; vs_bytes_received := ob_bytes_received e |}.

(** The class of a status: the ranges of the [match], anything else is 5xx. *)
Definition is_class (lo : Z) (status : Z) : bool := (lo <=? status) && (status <=? lo + 99).
Definition bump (b : bool) (z : Z) : Z := if b then wrap64 (z + 1) else z.

Definition counters_record (e : RequestObservation) (c : DomainStatsCounters) : DomainStatsCounters :=
  let st := ob_status e in
  let loc := ob_location e in
  {| ds_requests_total := wrap64 (ds_requests_total c + 1);
     ds_responses_2xx := bump (is_class 200 st) (ds_responses_2xx c);
     ds_responses_3xx := bump (is_class 300 st) (ds_responses_3xx c);
     ds_responses_4xx := bump (is_class 400 st) (ds_responses_4xx c);
     ds_responses_5xx := bump (negb (is_class 200 st || is_class 300 st || is_class 400 st))
                           (ds_responses_5xx c);
     ds_total_latency_ms := wrap64 (ds_total_latency_ms c + ob_latency_ms e);
     ds_total_bytes_sent := wrap64 (ds_total_bytes_sent c + ob_bytes_sent e);
     ds_total_bytes_received := wrap64 (ds_total_bytes_received c + ob_bytes_received e);
     ds_last_status := st;
     ds_last_seen_unix_ms := ob_timestamp_unix_ms e;
     ds_recent_visits := take (Z.to_nat RECENT_VISIT_LIMIT) (visit_of e :: ds_recent_visits c);
     ds_country_counts := increment_location_count (ds_country_counts c)
                            (gl_country_code loc) (gl_country_name loc);
     ds_continent_counts := increment_location_count (ds_continent_counts c)
                              (gl_continent_code loc) (gl_continent_name loc);
     ds_path_counts := increment_count (ds_path_counts c) (ob_path e);
     ds_upstream_counts := increment_count (ds_upstream_counts c)
                             (default (lit "none") (ob_upstream e)) |}.

Definition nonzero_u16 (v : Z) : option Z := if v =? 0 then None else Some (v mod 2 ^ 16).
Definition nonzero_u64 (v : Z) : option Z := if v =? 0 then None else Some v.

Definition counters_snapshot (domain : rstr) (c : DomainStatsCounters) : DomainStatsSnapshot := {|
  sn_domain := domain;
  sn_requests_total := ds_requests_total c;
  sn_responses_2xx := ds_responses_2xx c;
  sn_responses_3xx := ds_responses_3xx c;
  sn_responses_4xx := ds_responses_4xx c;
  sn_responses_5xx := ds_responses_5xx c;
  sn_average_latency_ms :=
    if ds_requests_total c =? 0 then 0
    else f64_div (f64_of_int (ds_total_latency_ms c)) (f64_of_int (ds_requests_total c));
  sn_total_bytes_sent := ds_total_bytes_sent c;
  sn_total_bytes_received := ds_total_bytes_received c;
  sn_total_bandwidth := add64 (ds_total_bytes_sent c) (ds_total_bytes_received c);
  sn_last_status := nonzero_u16 (ds_last_status c);
  sn_last_seen_unix_ms := nonzero_u64 (ds_last_seen_unix_ms c);
  sn_top_countries := top_location_counts (ds_country_counts c) 10;
  sn_top_continents := top_location_counts (ds_continent_counts c) 10;
  sn_top_paths := top_string_counts (ds_path_counts c) 10;
  sn_top_upstreams := top_string_counts (ds_upstream_counts c) 10 |}.

(** The recent visits are not part of a snapshot and stay as they are. *)
Definition counters_restore (s : DomainStatsSnapshot) (c : DomainStatsCounters)
  : DomainStatsCounters := {|
  ds_requests_total := sn_requests_total s;
  ds_responses_2xx := sn_responses_2xx s;
  ds_responses_3xx := sn_responses_3xx s;
  ds_responses_4xx := sn_responses_4xx s;
  ds_responses_5xx := sn_responses_5xx s;
  ds_total_latency_ms :=
    f64_to_u64 (f64_round (f64_mul (Z.max (sn_average_latency_ms s) 0)
                                   (f64_of_int (sn_requests_total s))));
  ds_total_bytes_sent := sn_total_bytes_sent s;
  ds_total_bytes_received := sn_total_bytes_received s;
  ds_last_status := default 0 (sn_last_status s);
  ds_last_seen_unix_ms := default 0 (sn_last_seen_unix_ms s);
  ds_recent_visits := ds_recent_visits c;
  ds_country_counts := restore_location_counts (ds_country_counts c) (sn_top_countries s);
  ds_continent_counts := restore_location_counts (ds_continent_counts c) (sn_top_continents s);
  ds_path_counts := restore_string_counts (ds_path_counts c) (sn_top_paths s);
  ds_upstream_counts := restore_string_counts (ds_upstream_counts c) (sn_top_upstreams s) |}.

Definition counters_recent_visits (limit : nat) (c : DomainStatsCounters) : list VisitSnapshot :=
  take limit (ds_recent_visits c).
Definition counters_recent_by_request_id (id : rstr) (limit : nat) (c : DomainStatsCounters)
  : list VisitSnapshot :=
  take limit (filter (fun v => vs_request_id v = id) (ds_recent_visits c)).

(** ** The registry *)

(** The sending side of the analytics channel. *)
Record Sink := {
  sk_queue : list RequestObservation;
  sk_capacity : Z;
  sk_closed : bool;
}.
Inductive send_result : Type := Sent (s : Sink) | Full | Closed.
Definition try_send (e : RequestObservation) (s : Sink) : send_result :=
  if sk_closed s then Closed
  else if sk_capacity s <=? Z.of_nat (length (sk_queue s)) then Full
  else Sent {| sk_queue := sk_queue s ++ [e]; sk_capacity := sk_capacity s; sk_closed := false |}.

Record DomainStatsRegistry := {
  sr_domains : gmap rstr DomainStatsCounters;
  sr_sink : option Sink;
  (** the events the overflow spool holds, when one is configured *)
  sr_overflow_spool : option (list RequestObservation);
}.
Definition StatsRegistry_new (sink : option Sink) (spool : bool) : DomainStatsRegistry :=
  {| sr_domains := ∅; sr_sink := sink; sr_overflow_spool := if spool then Some [] else None |}.

(** [spool_ok]: the directory, the file and the write of the spool succeed. *)
Definition offer (spool_ok : bool) (e : RequestObservation) (r : DomainStatsRegistry)
  : DomainStatsRegistry :=
  match sr_sink r with
  | None => r
  | Some sink =>
    match try_send e sink with
    | Sent sink' => {| sr_domains := sr_domains r; sr_sink := Some sink';
                       sr_overflow_spool := sr_overflow_spool r |}
    | Full =>
      match sr_overflow_spool r with
      | Some l => {| sr_domains := sr_domains r; sr_sink := sr_sink r;
                     sr_overflow_spool := Some (if spool_ok then l ++ [e] else l) |}
      | None => r
      end
    | Closed => r
    end
  end.

Definition stats_record (spool_ok : bool) (e : RequestObservation) (r : DomainStatsRegistry)
  : DomainStatsRegistry :=
  let r := offer spool_ok e r in
  let c := default DomainStatsCounters_default (sr_domains r !! ob_domain e) in
  {| sr_domains := <[ob_domain e := counters_record e c]> (sr_domains r);
     sr_sink := sr_sink r; sr_overflow_spool := sr_overflow_spool r |}.

Definition snapshot_domain (r : DomainStatsRegistry) (domain : rstr) : option DomainStatsSnapshot :=
  counters_snapshot domain <$> sr_domains r !! domain.

Definition snapshot_le (a b : DomainStatsSnapshot) : Prop := str_le (sn_domain a) (sn_domain b).
#[export] Instance snapshot_le_dec : RelDecision snapshot_le.
Proof. intros a b. unfold snapshot_le. apply _. Defined.
Definition snapshots (r : DomainStatsRegistry) : list DomainStatsSnapshot :=
  merge_sort snapshot_le
    ((fun kv => counters_snapshot (fst kv) (snd kv)) <$> map_to_list (sr_domains r)).

Definition restore_one (m : gmap rstr DomainStatsCounters) (s : DomainStatsSnapshot)
  : gmap rstr DomainStatsCounters :=
  if is_empty (trim (sn_domain s)) then m
  else <[sn_domain s := counters_restore s DomainStatsCounters_default]> m.
Definition restore_snapshots (l : list DomainStatsSnapshot) (r : DomainStatsRegistry)
  : DomainStatsRegistry :=
  {| sr_domains := foldl restore_one (sr_domains r) l; sr_sink := sr_sink r;
     sr_overflow_spool := sr_overflow_spool r |}.

Definition recent_visits (r : DomainStatsRegistry) (domain : rstr) (limit : nat) : list VisitSnapshot :=
  match sr_domains r !! domain with
  | Some c => counters_recent_visits limit c
  | None => []
  end.

(** [sort_by_key(Reverse(timestamp))] is stable: the latest first. *)
Definition later (a b : VisitSnapshot) : Prop := vs_timestamp_unix_ms b <= vs_timestamp_unix_ms a.
#[export] Instance later_dec : RelDecision later.
Proof. intros a b. unfold later. apply _. Defined.
Definition recent_visits_all (r : DomainStatsRegistry) (limit : nat) : list VisitSnapshot :=
  take limit (merge_sort later
    (flat_map (fun kv => counters_recent_visits limit (snd kv)) (map_to_list (sr_domains r)))).
Definition recent_visits_by_request_id (r : DomainStatsRegistry) (id : rstr) (limit : nat)
  : list VisitSnapshot :=
  take limit (merge_sort later
    (flat_map (fun kv => counters_recent_by_request_id id limit (snd kv))
       (map_to_list (sr_domains r)))).
Definition recent_visits_for_domain_by_request_id (r : DomainStatsRegistry) (domain id : rstr)
    (limit : nat) : list VisitSnapshot :=
  match sr_domains r !! domain with
  | Some c => counters_recent_by_request_id id limit c
  | None => []
  end.

(** ** The key tables *)

Definition table_total (m : gmap rstr Z) : Z := map_fold (fun _ v acc => v + acc) 0 m.

Lemma table_total_new m k v : m !! k = None -> table_total (<[k := v]> m) = v + table_total m.
Proof.
  intros Hk. unfold table_total. rewrite map_fold_insert_L; [done|intros; lia|done].
Qed.

Lemma table_total_update m k v v' :
  m !! k = Some v -> table_total (<[k := v']> m) = v' - v + table_total m.
Proof.
  intros Hk. rewrite <- (insert_id m k v Hk) at 2.
  rewrite <- (insert_delete_eq m k v'), <- (insert_delete_eq m k v).
  rewrite !table_total_new by apply lookup_delete_eq. lia.
Qed.

Lemma increment_count_total m value n :
  table_total m = n -> (forall k v, m !! k = Some v -> 0 <= v <= n) -> n + 1 <= U64_MAX ->
  table_total (increment_count m value) = n + 1 /\
  (forall k v, increment_count m value !! k = Some v -> 0 <= v <= n + 1).
Proof.
  intros Ht Hv Hn. unfold increment_count. set (key := if _ || _ then value else _).
  assert (0 <= default 0 (m !! key) <= n /\ table_total (<[key := default 0 (m !! key) + 1]> m) = n + 1)
    as [Hd Hins].
  { destruct (m !! key) as [v|] eqn:E; simpl.
    - split; [by apply (Hv key)|]. rewrite (table_total_update _ _ v) by done. lia.
    - rewrite table_total_new by done. split; [|lia]. split; [lia|]. rewrite <- Ht.
      unfold table_total. apply (map_fold_weak_ind (fun acc m' => (forall k v, m' !! k = Some v -> m !! k = Some v) -> 0 <= acc)); [lia| |auto].
      intros k v m' acc Hk IH Hsub. assert (m !! k = Some v) as Hkv by (apply Hsub, lookup_insert_eq).
      apply Hv in Hkv. assert (0 <= acc); [|lia]. apply IH. intros k' v' Hk'. apply Hsub.
      rewrite lookup_insert_ne; [done|]. intros ->. congruence. }
  unfold add64. rewrite wrap64_small by (unfold is_u64, U64_MAX in *; lia). split; [done|].
  intros k v. rewrite lookup_insert_Some. intros [[_ <-]|[_ H]]; [lia|]. apply Hv in H. lia.
Qed.

Lemma increment_count_size m value :
  Z.of_nat (size m) <= MAX_COUNTER_KEYS + 1 ->
  (Z.of_nat (size m) = MAX_COUNTER_KEYS + 1 -> is_Some (m !! OVERFLOW_COUNTER_KEY)) ->
  Z.of_nat (size (increment_count m value)) <= MAX_COUNTER_KEYS + 1 /\
  (Z.of_nat (size (increment_count m value)) = MAX_COUNTER_KEYS + 1 ->
   is_Some (increment_count m value !! OVERFLOW_COUNTER_KEY)).
Proof.
  intros Hs Ho. unfold increment_count. rewrite map_size_insert.
  destruct (bool_decide (is_Some (m !! value))) eqn:E1; cbn [orb].
  - apply bool_decide_eq_true in E1 as [v Hv]. rewrite Hv. simpl. split; [done|].
    intros H. apply Ho in H. destruct (decide (value = OVERFLOW_COUNTER_KEY)) as [->|Hne].
    + rewrite lookup_insert_eq. by eexists.
    + by rewrite lookup_insert_ne.
  - apply bool_decide_eq_false in E1.
    destruct (Z.of_nat (size m) <? MAX_COUNTER_KEYS) eqn:E2; bools.
    + destruct (m !! value); [by destruct E1|]. split; [lia|]. intros H. lia.
    + split; [|intros _; rewrite lookup_insert_eq; by eexists].
      destruct (m !! OVERFLOW_COUNTER_KEY) as [v|] eqn:Eo; simpl; [done|].
      assert (Z.of_nat (size m) <> MAX_COUNTER_KEYS + 1); [|lia].
      intros H. destruct (Ho H) as [? ?]. congruence.
Qed.

(** ** The counters of a history *)

Definition history (es : list RequestObservation) : DomainStatsCounters :=
  foldl (fun c e => counters_record e c) DomainStatsCounters_default es.

Definition class_count (P : Z -> bool) (es : list RequestObservation) : Z :=
  Z.of_nat (length (filter (fun e => P (ob_status e) = true) es)).
Definition other_class (st : Z) : bool := negb (is_class 200 st || is_class 300 st || is_class 400 st).
Definition sum_by (f : RequestObservation -> Z) (es : list RequestObservation) : Z :=
  foldr (fun e n => f e + n) 0 es.

Lemma class_count_snoc P es e :
  class_count P (es ++ [e]) = class_count P es + (if P (ob_status e) then 1 else 0).
Proof.
  unfold class_count. rewrite filter_app, length_app. destruct (P (ob_status e)) eqn:E.
  - rewrite filter_cons_True by done. rewrite filter_nil. simpl. lia.
  - rewrite filter_cons_False by congruence. rewrite filter_nil. simpl. lia.
Qed.

Lemma class_count_le P es : 0 <= class_count P es <= Z.of_nat (length es).
Proof. unfold class_count. pose proof (length_filter (fun e => P (ob_status e) = true) es). lia. Qed.

Lemma class_bump P es e z :
  z = class_count P es -> Z.of_nat (length es) + 1 <= U64_MAX ->
  bump (P (ob_status e)) z = class_count P (es ++ [e]).
Proof.
  intros -> Hlen. rewrite class_count_snoc. pose proof (class_count_le P es). unfold bump.
  destruct (P (ob_status e)); [|lia]. rewrite wrap64_small; [lia|]. unfold is_u64. lia.
Qed.

Lemma sum_by_snoc f es e : sum_by f (es ++ [e]) = sum_by f es + f e.
Proof. unfold sum_by. induction es as [|x es IH]; simpl; [lia|]. rewrite IH. lia. Qed.

Lemma take_cons_take {A} (n : nat) (x : A) l : take n (x :: take n l) = take n (x :: l).
Proof. destruct n; [done|]. cbn [take]. f_equal. rewrite take_take. f_equal. lia. Qed.

Record counters_of (c : DomainStatsCounters) (es : list RequestObservation) : Prop := {
  co_requests : ds_requests_total c = Z.of_nat (length es);
  co_2xx : ds_responses_2xx c = class_count (is_class 200) es;
  co_3xx : ds_responses_3xx c = class_count (is_class 300) es;
  co_4xx : ds_responses_4xx c = class_count (is_class 400) es;
  co_5xx : ds_responses_5xx c = class_count other_class es;
  co_latency : ds_total_latency_ms c = sum_by ob_latency_ms es mod 2 ^ 64;
  co_sent : ds_total_bytes_sent c = sum_by ob_bytes_sent es mod 2 ^ 64;
  co_received : ds_total_bytes_received c = sum_by ob_bytes_received es mod 2 ^ 64;
  co_visits : ds_recent_visits c = take (Z.to_nat RECENT_VISIT_LIMIT) (reverse (visit_of <$> es));
  co_path_total : table_total (ds_path_counts c) = Z.of_nat (length es);
  co_path_size : Z.of_nat (size (ds_path_counts c)) <= MAX_COUNTER_KEYS + 1;
  co_upstream_total : table_total (ds_upstream_counts c) = Z.of_nat (length es);
  co_upstream_size : Z.of_nat (size (ds_upstream_counts c)) <= MAX_COUNTER_KEYS + 1;
}.

(** What the induction carries besides. *)
Record table_inv (m : gmap rstr Z) (n : Z) : Prop := {
  ti_total : table_total m = n;
  ti_values : forall k v, m !! k = Some v -> 0 <= v <= n;
  ti_size : Z.of_nat (size m) <= MAX_COUNTER_KEYS + 1;
  ti_overflow : Z.of_nat (size m) = MAX_COUNTER_KEYS + 1 -> is_Some (m !! OVERFLOW_COUNTER_KEY);
}.
Lemma table_inv_step m n value : table_inv m n -> n + 1 <= U64_MAX -> table_inv (increment_count m value) (n + 1).
Proof.
  intros [Ht Hv Hs Ho] Hn. destruct (increment_count_total m value n Ht Hv Hn) as [H1 H2].
  destruct (increment_count_size m value Hs Ho) as [H3 H4]. by split.
Qed.

Lemma wrap_add_mod a b : wrap64 (a mod 2 ^ 64 + b) = (a + b) mod 2 ^ 64.
Proof. apply Zplus_mod_idemp_l. Qed.

Lemma history_spec es :
  Z.of_nat (length es) <= U64_MAX ->
  counters_of (history es) es /\
  table_inv (ds_path_counts (history es)) (Z.of_nat (length es)) /\
  table_inv (ds_upstream_counts (history es)) (Z.of_nat (length es)).
Proof.
  induction es as [|e es IH] using rev_ind; intros Hlen.
  { assert (table_inv ∅ 0) as H by (split; [done|done|by vm_compute|done]).
    split; [|split; exact H]. split; try done; by vm_compute. }
  rewrite length_app in *. cbn [length] in *.
  assert (Z.of_nat (length es + 1) = Z.of_nat (length es) + 1) as El by lia. rewrite El in *.
  destruct IH as (Hc & Hp & Hu); [lia|]. unfold history in *. rewrite foldl_snoc.
  set (c := foldl _ _ es) in *. clearbody c.
  apply (table_inv_step _ _ (ob_path e)) in Hp; [|done].
  apply (table_inv_step _ _ (default (lit "none") (ob_upstream e))) in Hu; [|done].
  split; [|split; [exact Hp|exact Hu]]. destruct Hc.
  split; cbn [counters_record ds_requests_total ds_responses_2xx ds_responses_3xx ds_responses_4xx
    ds_responses_5xx ds_total_latency_ms ds_total_bytes_sent ds_total_bytes_received
    ds_recent_visits ds_path_counts ds_upstream_counts].
  - rewrite co_requests0, wrap64_small by (unfold is_u64; lia). rewrite length_app. simpl. lia.
  - by apply class_bump.
  - by apply class_bump.
  - by apply class_bump.
  - by apply (class_bump other_class).
  - by rewrite sum_by_snoc, co_latency0, wrap_add_mod.
  - by rewrite sum_by_snoc, co_sent0, wrap_add_mod.
  - by rewrite sum_by_snoc, co_received0, wrap_add_mod.
  - rewrite co_visits0, take_cons_take, fmap_app, reverse_app. done.
  - rewrite length_app. simpl length. rewrite El. apply Hp.
  - apply Hp.
  - rewrite length_app. simpl length. rewrite El. apply Hu.
  - apply Hu.
Qed.

Lemma class_counts_total es :
  class_count (is_class 200) es + class_count (is_class 300) es + class_count (is_class 400) es +
    class_count other_class es = Z.of_nat (length es).
Proof.
  induction es as [|e es IH] using rev_ind; [done|].
  rewrite !class_count_snoc, length_app. simpl length. unfold other_class in *.
  destruct (is_class 200 (ob_status e)) eqn:E2, (is_class 300 (ob_status e)) eqn:E3,
    (is_class 400 (ob_status e)) eqn:E4; cbn [orb negb]; unfold is_class in E2, E3, E4; bools; lia.
Qed.

Lemma class_count_all P es :
  Forall (fun e => P (ob_status e) = true) es -> class_count P es = Z.of_nat (length es).
Proof.
  induction es as [|e es IH] using rev_ind; [done|]. rewrite Forall_app, Forall_singleton.
  intros [H He]. rewrite class_count_snoc, He, IH, length_app by done. simpl. lia.
Qed.

(** The four response classes partition the requests; what is not 2xx, 3xx
    or 4xx is a server error for the statistics, so a history of responses
    below 200 (the 101 of a WebSocket upgrade) or above 499 counts as 5xx
    throughout. *)
Theorem response_classes_partition es :
  Z.of_nat (length es) <= U64_MAX ->
  ds_responses_2xx (history es) + ds_responses_3xx (history es) +
    ds_responses_4xx (history es) + ds_responses_5xx (history es) = ds_requests_total (history es) /\
  (Forall (fun e => ob_status e < 200 \/ 499 < ob_status e) es ->
   ds_responses_5xx (history es) = ds_requests_total (history es)).
Proof.
  intros Hlen. destruct (history_spec es Hlen) as [[] _].
  rewrite co_requests0, co_2xx0, co_3xx0, co_4xx0, co_5xx0. split; [apply class_counts_total|].
  intros H. apply class_count_all. eapply Forall_impl; [exact H|]. intros e He.
  unfold other_class, is_class. do 2 bools. cbn beta in *. lia.
Qed.


(** ** The registry *)

Definition record_all (es : list (bool * RequestObservation)) (r : DomainStatsRegistry)
  : DomainStatsRegistry :=
  foldl (fun r be => stats_record (fst be) (snd be) r) r es.

Lemma offer_domains b e r : sr_domains (offer b e r) = sr_domains r.
Proof.
  unfold offer. destruct (sr_sink r) as [sink|]; [|done].
  destruct (try_send e sink); [done| |done]. by destruct (sr_overflow_spool r).
Qed.

Lemma record_all_domain es sink spool d :
  sr_domains (record_all es (StatsRegistry_new sink spool)) !! d =
  let own := filter (fun e => ob_domain e = d) (es.*2) in
  if decide (own = []) then None else Some (history own).
Proof.
  induction es as [|[b e] es IH] using rev_ind; [done|].
  unfold record_all in *. rewrite foldl_snoc, fmap_app, filter_app. cbn [fst snd fmap list_fmap].
  unfold stats_record at 1. cbn [sr_domains]. rewrite offer_domains.
  destruct (decide (ob_domain e = d)) as [E|E].
  - rewrite (filter_cons_True (fun e => ob_domain e = d)) by done. rewrite filter_nil, E, lookup_insert_eq.
    cbv zeta. rewrite decide_False by (intros H; by apply app_eq_nil in H as [_ H]).
    f_equal. unfold history. rewrite foldl_snoc. f_equal. rewrite IH. cbv zeta.
    by destruct (decide _) as [->|?].
  - rewrite (filter_cons_False (fun e => ob_domain e = d)) by done.
    rewrite filter_nil, app_nil_r, lookup_insert_ne by done. exact IH.
Qed.

(** The statistics of every domain are those of its own requests, in
    whatever order the requests of all domains are recorded and whatever
    becomes of the analytics queue: a domain without requests has no entry;
    otherwise its counters are the number of requests, of responses per class,
    the sums of latency and bytes (modulo [2^64]), the last 5000 visits latest
    first, and every request is counted once in the path and upstream tables,
    which never have more than 1001 keys. *)
Theorem counters_history es sink spool d :
  Z.of_nat (length es) <= U64_MAX ->
  let own := filter (fun e => ob_domain e = d) (es.*2) in
  match sr_domains (record_all es (StatsRegistry_new sink spool)) !! d with
  | None => own = []
  | Some c => counters_of c own
  end.
Proof.
  intros Hlen own. rewrite record_all_domain. fold own. cbv zeta.
  destruct (decide (own = [])) as [?|_]; [done|]. apply history_spec.
  pose proof (length_filter (fun e => ob_domain e = d) (es.*2)). rewrite length_fmap in *.
  unfold own. lia.
Qed.

Definition example_observation (path : string) (status latency : Z) : RequestObservation := {|
  ob_request_id := lit "id"; ob_domain := lit "example.com"; ob_method := lit "GET";
  ob_path := lit path; ob_status := status; ob_latency_ms := latency; ob_upstream := None;
  ob_remote_ip := Some (V4 1); ob_location := GeoLocation_unknown; ob_timestamp_unix_ms := 7;
  ob_bytes_sent := 10; ob_bytes_received := 20 |}.
Definition example_events : list (bool * RequestObservation) :=
  [(true, example_observation "/a" 200 3); (true, example_observation "/b" 101 4)].

Lemma counters_history_witness :
  Z.of_nat (length example_events) <= U64_MAX /\
  match sr_domains (record_all example_events (StatsRegistry_new None false)) !! lit "example.com" with
  | None => example_events.*2 = []
  | Some c => counters_of c (example_events.*2)
  end.
Proof.
  split; [by vm_compute|].
  apply (counters_history example_events None false (lit "example.com")). by vm_compute.
Defined.

(** The analytics queue with its consumer: requests are recorded while a worker
    takes events from the queue. *)
Inductive queue_step : Type := Record_ (e : RequestObservation) | Receive.
Definition receive (r : DomainStatsRegistry) : DomainStatsRegistry * option RequestObservation :=
  match sr_sink r with
  | Some {| sk_queue := e :: q; sk_capacity := cap; sk_closed := cl |} =>
    ({| sr_domains := sr_domains r; sr_overflow_spool := sr_overflow_spool r;
        sr_sink := Some {| sk_queue := q; sk_capacity := cap; sk_closed := cl |} |}, Some e)
  | _ => (r, None)
  end.
(** The registry and what the worker has received so far. *)
Definition run_step (s : queue_step) (p : DomainStatsRegistry * list RequestObservation)
  : DomainStatsRegistry * list RequestObservation :=
  match s with
  | Record_ e => (stats_record true e p.1, p.2)
  | Receive => let '(r, o) := receive p.1 in (r, p.2 ++ option_list o)
  end.
Definition run_steps (ss : list queue_step) p := foldl (fun p s => run_step s p) p ss.
Definition recorded (ss : list queue_step) : list RequestObservation :=
  omap (fun s => match s with Record_ e => Some e | Receive => None end) ss.

Record queue_inv (cap : Z) (es : list RequestObservation)
    (p : DomainStatsRegistry * list RequestObservation) (q spool : list RequestObservation) : Prop := {
  qi_sink : sr_sink p.1 = Some {| sk_queue := q; sk_capacity := cap; sk_closed := false |};
  qi_spool : sr_overflow_spool p.1 = Some spool;
  qi_bound : Z.of_nat (length q) <= cap;
  qi_order : sublist (p.2 ++ q) es;
  qi_all : p.2 ++ q ++ spool ≡ₚ es;
}.

Lemma queue_inv_step cap es p q spool s :
  queue_inv cap es p q spool ->
  exists q' spool', queue_inv cap (es ++ recorded [s]) (run_step s p) q' spool'.
Proof.
  intros [Hs Ho Hb Hord Hall]. destruct p as [r got]. cbn [fst snd] in *. destruct s as [e|].
  - cbn [recorded omap list_omap run_step fst snd]. unfold stats_record, offer. rewrite Hs.
    unfold try_send. cbn [sk_closed sk_capacity sk_queue].
    destruct (cap <=? Z.of_nat (length q)) eqn:E; bools.
    + rewrite Ho. exists q, (spool ++ [e]). split; cbn [fst snd sr_sink sr_overflow_spool]; try done.
      * by apply sublist_inserts_r.
      * rewrite <- Hall. by rewrite !app_assoc.
    + exists (q ++ [e]), spool. split; cbn [fst snd sr_sink sr_overflow_spool]; try done.
      * rewrite length_app. simpl. lia.
      * rewrite app_assoc. by apply sublist_app.
      * rewrite <- Hall. rewrite <- !app_assoc. by rewrite (Permutation_app_comm [e] spool).
  - cbn [recorded omap list_omap run_step fst snd]. rewrite app_nil_r. unfold receive. rewrite Hs.
    destruct q as [|e q]; [exists [], spool; by split; cbn [option_list]; rewrite ?app_nil_r in *|].
    exists q, spool. split; cbn [fst snd sr_sink sr_overflow_spool option_list]; try done.
    + simpl in Hb. lia.
    + by rewrite <- app_assoc.
    + by rewrite <- app_assoc.
Qed.

Lemma queue_inv_run cap ss :
  0 <= cap ->
  exists q spool, queue_inv cap (recorded ss)
    (run_steps ss (StatsRegistry_new (Some {| sk_queue := []; sk_capacity := cap; sk_closed := false |}) true, []))
    q spool.
Proof.
  intros Hc. induction ss as [|s ss (q & spool & IH)] using rev_ind.
  { exists [], []. by split. }
  unfold run_steps, recorded in *. rewrite foldl_snoc, omap_app. by apply (queue_inv_step _ _ _ q spool).
Qed.

(** No analytics event is lost while the spool can be written: in every
    interleaving of requests with the worker's receives, what the worker has
    received, what the bounded queue holds and what the overflow spool holds
    are together exactly the recorded events; the queue never exceeds its
    capacity, and the worker sees the events in the order of the requests. *)
Theorem analytics_conserved cap ss :
  0 <= cap ->
  let '(r, received) := run_steps ss
    (StatsRegistry_new (Some {| sk_queue := []; sk_capacity := cap; sk_closed := false |}) true, []) in
  exists q spool,
    sr_sink r = Some {| sk_queue := q; sk_capacity := cap; sk_closed := false |} /\
    sr_overflow_spool r = Some spool /\
    Z.of_nat (length q) <= cap /\
    sublist (received ++ q) (recorded ss) /\
    received ++ q ++ spool ≡ₚ recorded ss.
Proof.
  intros Hc. destruct (queue_inv_run cap ss Hc) as (q & spool & []).
  destruct (run_steps ss _) as [r received]. by exists q, spool.
Qed.

Lemma analytics_conserved_witness :
  0 <= 1 /\
  let ss := [Record_ (example_observation "/a" 200 3); Record_ (example_observation "/b" 200 4); Receive] in
  snd (run_steps ss (StatsRegistry_new (Some {| sk_queue := []; sk_capacity := 1; sk_closed := false |}) true, []))
    = [example_observation "/a" 200 3] /\
  let '(r, received) := run_steps ss
    (StatsRegistry_new (Some {| sk_queue := []; sk_capacity := 1; sk_closed := false |}) true, []) in
  exists q spool,
    sr_sink r = Some {| sk_queue := q; sk_capacity := 1; sk_closed := false |} /\
    sr_overflow_spool r = Some spool /\
    Z.of_nat (length q) <= 1 /\
    sublist (received ++ q) (recorded ss) /\
    received ++ q ++ spool ≡ₚ recorded ss.
Proof.
  split; [lia|]. split; [vm_compute; reflexivity|].
  apply (analytics_conserved 1
    [Record_ (example_observation "/a" 200 3); Record_ (example_observation "/b" 200 4); Receive]).
  lia.
Defined.

Lemma response_classes_partition_witness :
  ds_responses_5xx (history [example_observation "/ws" 101 3]) =
  ds_requests_total (history [example_observation "/ws" 101 3]).
Proof.
  apply (response_classes_partition [example_observation "/ws" 101 3]); [by vm_compute|].
  apply Forall_singleton. left. simpl. lia.
Defined.

(** ** Snapshots *)

Section insert_rows.
Context {A B : Type} (key : A -> rstr) (val : A -> B).

(** The common shape of the two restorations. *)
Definition insert_rows (m : gmap rstr B) (rows : list A) : gmap rstr B :=
  foldl (fun m i => <[key i := val i]> m) m rows.

Lemma insert_rows_keep (rows : list A) m k :
  k ∉ (key <$> rows) -> insert_rows m rows !! k = m !! k.
Proof.
  unfold insert_rows. revert m. induction rows as [|i l IH]; intros m Hk; [done|].
  cbn [foldl]. rewrite IH by set_solver. apply lookup_insert_ne. set_solver.
Qed.

Lemma insert_rows_has (rows : list A) m i :
  NoDup (key <$> rows) -> i ∈ rows -> insert_rows m rows !! key i = Some (val i).
Proof.
  unfold insert_rows. revert m.
  induction rows as [|j l IH]; intros m Hnd Hi; [by apply not_elem_of_nil in Hi|].
  cbn [fmap list_fmap foldl] in *. apply NoDup_cons in Hnd as [Hj Hnd].
  apply elem_of_cons in Hi as [->|Hi]; [|by apply IH].
  pose proof (insert_rows_keep l (<[key j := val j]> m) (key j) Hj) as E. unfold insert_rows in E.
  rewrite E. apply lookup_insert_eq.
Qed.

(** Inserting rows of a table into the empty one gives a part of it; all of
    it when every row is there. *)
Lemma insert_rows_sub (rows : list A) (m : gmap rstr B) :
  (forall i, i ∈ rows -> m !! key i = Some (val i)) -> insert_rows ∅ rows ⊆ m.
Proof.
  intros Hrows. apply map_subseteq_spec. intros k v.
  assert (forall l m', (forall i, i ∈ l -> m !! key i = Some (val i)) -> m' ⊆ m -> insert_rows m' l ⊆ m) as H.
  { unfold insert_rows. clear. induction l as [|i l IH]; intros m' Hl Hm; [done|]. cbn [foldl].
    apply IH; [set_solver|]. apply map_subseteq_spec. intros k v.
    rewrite lookup_insert_Some. intros [[<- <-]|[_ H]]; [apply Hl; set_solver|].
    by apply (lookup_weaken m'). }
  intros Hk. eapply lookup_weaken; [exact Hk|]. apply H; [done|]. apply map_empty_subseteq.
Qed.

Lemma insert_rows_all (rows : list A) (m : gmap rstr B) :
  NoDup (key <$> rows) -> (forall i, i ∈ rows -> m !! key i = Some (val i)) ->
  (forall k v, m !! k = Some v -> exists i, i ∈ rows /\ key i = k) ->
  insert_rows ∅ rows = m.
Proof.
  intros Hnd Hrows Hcov. apply (anti_symm (⊆)); [by apply insert_rows_sub|].
  apply map_subseteq_spec. intros k v Hk. destruct (Hcov k v Hk) as (i & Hi & <-).
  rewrite (insert_rows_has _ _ i Hnd Hi). rewrite (Hrows i Hi) in Hk. congruence.
Qed.

(** Sorting the rows of a table and keeping the first [n]. *)
Lemma insert_rows_top (R : relation A) `{!RelDecision R} (rows : list A) (m : gmap rstr B) n :
  NoDup (key <$> rows) -> (forall i, i ∈ rows -> m !! key i = Some (val i)) ->
  (forall k v, m !! k = Some v -> exists i, i ∈ rows /\ key i = k) -> length rows = size m ->
  insert_rows ∅ (take n (merge_sort R rows)) ⊆ m /\
  ((size m <= n)%nat -> insert_rows ∅ (take n (merge_sort R rows)) = m).
Proof.
  intros Hnd Hrows Hcov Hlen. pose proof (merge_sort_Permutation R rows) as HP. split.
  - apply insert_rows_sub. intros i Hi. apply Hrows. rewrite <- HP.
    apply elem_of_take in Hi as (j & Hj & _). by eapply list_elem_of_lookup_2.
  - intros Hn. rewrite take_ge by (rewrite HP; lia). apply insert_rows_all.
    + by rewrite HP.
    + intros i. rewrite HP. apply Hrows.
    + intros k v Hk. destruct (Hcov k v Hk) as (i & ? & ?). exists i. by rewrite HP.
Qed.
End insert_rows.

Lemma restore_top_strings m :
  restore_string_counts ∅ (top_string_counts m 10) ⊆ m /\
  ((size m <= 10)%nat -> restore_string_counts ∅ (top_string_counts m 10) = m).
Proof.
  apply (insert_rows_top sc_value sc_count string_count_le).
  - rewrite <- list_fmap_compose. apply NoDup_fst_map_to_list.
  - intros i Hi. apply list_elem_of_fmap in Hi as ([k v] & -> & Hkv). by apply elem_of_map_to_list in Hkv.
  - intros k v Hk. exists {| sc_value := k; sc_count := v |}. split; [|done].
    apply list_elem_of_fmap. exists (k, v). split; [done|]. by apply elem_of_map_to_list.
  - by rewrite length_fmap, length_map_to_list.
Qed.

(** A location row carries its key. *)
Definition location_keys (m : gmap rstr LocationCount) : Prop := forall k e, m !! k = Some e -> lc_code e = k.

Lemma restore_top_locations m :
  location_keys m ->
  restore_location_counts ∅ (top_location_counts m 10) ⊆ m /\
  ((size m <= 10)%nat -> restore_location_counts ∅ (top_location_counts m 10) = m).
Proof.
  intros Hk. apply (insert_rows_top lc_code (fun i => i) location_le).
  - rewrite <- list_fmap_compose. rewrite (list_fmap_ext _ fst); [apply NoDup_fst_map_to_list|].
    intros i [k e] Hi. simpl. apply Hk, elem_of_map_to_list. by eapply list_elem_of_lookup_2.
  - intros i Hi. apply list_elem_of_fmap in Hi as ([k e] & -> & Hkv).
    apply elem_of_map_to_list in Hkv. simpl. by rewrite (Hk k e).
  - intros k e He. exists e. split; [|by apply Hk].
    apply list_elem_of_fmap. exists (k, e). split; [done|]. by apply elem_of_map_to_list.
  - by rewrite length_fmap, length_map_to_list.
Qed.

Lemma increment_location_keys m code name :
  location_keys m -> location_keys (increment_location_count m code name).
Proof.
  intros Hm k e. unfold increment_location_count.
  rewrite lookup_insert_Some. intros [[<- <-]|[_ H]]; [|by apply Hm]. cbn [lc_code].
  destruct (m !! _) as [e|] eqn:E; [|done]. by apply Hm in E.
Qed.

Lemma history_location_keys es :
  location_keys (ds_country_counts (history es)) /\ location_keys (ds_continent_counts (history es)).
Proof.
  induction es as [|e es IH] using rev_ind; [done|]. unfold history in *. rewrite foldl_snoc.
  destruct IH. split; by apply increment_location_keys.
Qed.

Record same_counters (r c : DomainStatsCounters) : Prop := {
  sm_requests : ds_requests_total r = ds_requests_total c;
  sm_2xx : ds_responses_2xx r = ds_responses_2xx c;
  sm_3xx : ds_responses_3xx r = ds_responses_3xx c;
  sm_4xx : ds_responses_4xx r = ds_responses_4xx c;
  sm_5xx : ds_responses_5xx r = ds_responses_5xx c;
  sm_latency : ds_total_latency_ms r = ds_total_latency_ms c;
  sm_sent : ds_total_bytes_sent r = ds_total_bytes_sent c;
  sm_received : ds_total_bytes_received r = ds_total_bytes_received c;
  sm_status : ds_last_status r = ds_last_status c;
  sm_seen : ds_last_seen_unix_ms r = ds_last_seen_unix_ms c;
}.

(** A table after a restart: a part of the table, all of it up to ten keys. *)
Definition table_restored {B} (r c : gmap rstr B) : Prop := r ⊆ c /\ ((size c <= 10)%nat -> r = c).

Lemma nonzero_roundtrip v : default 0 (nonzero_u64 v) = v.
Proof. unfold nonzero_u64. destruct (v =? 0) eqn:E; bools; simpl; lia. Qed.
Lemma nonzero_u16_roundtrip v : 0 <= v < 2 ^ 16 -> default 0 (nonzero_u16 v) = v.
Proof.
  intros Hv. unfold nonzero_u16. destruct (v =? 0) eqn:E; bools; cbn [default]; [lia|].
  by apply Z.mod_small.
Qed.

Lemma history_last_status es :
  Forall (fun e => 0 <= ob_status e < 2 ^ 16) es -> 0 <= ds_last_status (history es) < 2 ^ 16.
Proof.
  destruct es as [|e es _] using rev_ind; [done|]. rewrite Forall_app, Forall_singleton.
  intros [_ He]. unfold history. by rewrite foldl_snoc.
Qed.

Lemma sum_by_nonneg f es : Forall (fun e => 0 <= f e) es -> 0 <= sum_by f es.
Proof. unfold sum_by. induction 1; simpl; lia. Qed.

(** Restoring the snapshot of a domain gives its statistics back: every
    counter is exact, the total latency included although the snapshot only
    holds the rounded average (below [2^50] ms and [2^53] requests); each
    table comes back as its ten most frequent keys, whole if it has no
    more. *)
Theorem stats_restore_roundtrip es domain :
  Z.of_nat (length es) < 2 ^ 53 -> sum_by ob_latency_ms es < 2 ^ 50 ->
  Forall (fun e => 0 <= ob_latency_ms e) es -> Forall (fun e => 0 <= ob_status e < 2 ^ 16) es ->
  let c := history es in
  let r := counters_restore (counters_snapshot domain c) DomainStatsCounters_default in
  same_counters r c /\
  table_restored (ds_country_counts r) (ds_country_counts c) /\
  table_restored (ds_continent_counts r) (ds_continent_counts c) /\
  table_restored (ds_path_counts r) (ds_path_counts c) /\
  table_restored (ds_upstream_counts r) (ds_upstream_counts c).
Proof.
  intros Hlen Hsum Hlat Hst c r. destruct (history_location_keys es) as [Hk1 Hk2].
  split; [|split; [by apply restore_top_locations|split; [by apply restore_top_locations|]];
           split; apply restore_top_strings].
  split; try reflexivity.
  - destruct (history_spec es) as [Hc _]; [unfold U64_MAX; lia|]. unfold r, c.
    cbn [counters_restore counters_snapshot ds_total_latency_ms sn_average_latency_ms sn_requests_total].
    pose proof (sum_by_nonneg _ _ Hlat) as H0.
    assert (ds_total_latency_ms (history es) = sum_by ob_latency_ms es) as El.
    { rewrite (co_latency _ _ Hc). apply Z.mod_small. lia. }
    rewrite El, (co_requests _ _ Hc). destruct es as [|e es']; [vm_compute; reflexivity|].
    set (es := e :: es') in *. assert (0 < Z.of_nat (length es)) as Hpos by (unfold es; simpl; lia).
    rewrite (proj2 (Z.eqb_neq _ _)) by lia.
    rewrite Z.max_l by (apply round53_nonneg; rewrite ?f64_of_int_exact by lia; pose proof f64_one_pos; nia).
    apply average_roundtrip; lia.
  - apply nonzero_u16_roundtrip, history_last_status, Hst.
  - apply nonzero_roundtrip.
Qed.

Lemma stats_restore_roundtrip_witness :
  same_counters (counters_restore (counters_snapshot (lit "example.com") (history (example_events.*2)))
                   DomainStatsCounters_default) (history (example_events.*2)).
Proof.
  apply (stats_restore_roundtrip (example_events.*2) (lit "example.com")).
  - by vm_compute.
  - by vm_compute.
  - repeat constructor; by vm_compute.
  - repeat constructor; by vm_compute.
Defined.
