(* ===== verification/HttpLimits.v ===== *)
(** The stateful limits of the [http-proxy] crate's [PolicyEnforcer]: the
    policy rate limiter (token buckets per domain, address or path), the
    in-flight limit with its compare-and-exchange loop, the circuit breaker and
    the passive health checks.  Instants are nanoseconds of a monotonic clock;
    the instants an operation reads are taken as one.  Metrics that nothing
    reads back are left out. *)
From stdpp Require Import options.
From S2P Require Import Prelude RustStr RustNum TokenBucket RustNet CommonTypes CommonPath CommonValidate RouteRegistry.

Local Open Scope Z_scope.

Definition POLICY_RATE_BUCKET_TTL_SECONDS : Z := 600.
Definition POLICY_RATE_BUCKET_EVICT_AT : Z := 100000.

Definition path_without_query (path : rstr) : rstr := default path (head (split (chr "?") path)).

(** ** The policy rate limiter *)

Module PolicyRate.

#[global] Instance RateLimitScope_countable : Countable RateLimitScope.
Proof.
  refine (inj_countable' (fun s => match s with PerIp => 0%nat | PerDomain => 1%nat | PerIpPath => 2%nat end)
    (fun n => match n with 0%nat => PerIp | 1%nat => PerDomain | _ => PerIpPath end) _).
  by intros [].
Defined.

Record PolicyRateKey := {
  pk_domain : rstr;
  pk_scope : RateLimitScope;
  pk_ip : option IpAddr;
  pk_path : option rstr;
}.
#[global] Instance PolicyRateKey_eq_dec : EqDecision PolicyRateKey.
Proof. solve_decision. Defined.
#[global] Instance PolicyRateKey_countable : Countable PolicyRateKey.
Proof.
  refine (inj_countable' (fun k => (pk_domain k, pk_scope k, pk_ip k, pk_path k))
    (fun t => let '(d, s, i, p) := t in
              {| pk_domain := d; pk_scope := s; pk_ip := i; pk_path := p |}) _).
  by intros [].
Defined.

Definition PolicyRateKey_new (domain path : rstr) (remote_ip : option IpAddr) (scope : RateLimitScope)
  : PolicyRateKey :=
  match scope with
  | PerIp => {| pk_domain := domain; pk_scope := scope; pk_ip := remote_ip; pk_path := None |}
  | PerDomain => {| pk_domain := domain; pk_scope := scope; pk_ip := None; pk_path := None |}
  | PerIpPath => {| pk_domain := domain; pk_scope := scope; pk_ip := remote_ip;
                    pk_path := Some (path_without_query path) |}
  end.

(** [DashMap<PolicyRateKey, Mutex<PolicyRateBucket>>]. *)
Abbreviation PolicyRateLimiter := (gmap PolicyRateKey RateBucket).

Definition effective_rate_per_second (limit : DomainRateLimit) : option Z :=
  let per_minute :=
    match (match rl_requests_per_minute limit with
           | Some rate => if 0 <? rate then Some rate else None
           | None => None
           end) with
    | Some rate => Some (f64_div (f64_of_int rate) (f64_of_int 60))
    | None => Some (f64_of_int 120)
    end in
  match rl_requests_per_second limit with
  | Some rate => if 0 <? rate then Some (f64_of_int rate) else per_minute
  | None => per_minute
  end.

Definition evict_stale (now : Z) (m : PolicyRateLimiter) : PolicyRateLimiter :=
  if Z.of_nat (size m) <? POLICY_RATE_BUCKET_EVICT_AT then m
  else retain_younger (from_secs POLICY_RATE_BUCKET_TTL_SECONDS) now m.

Definition retry_after (limit : DomainRateLimit) (domain path : rstr) (remote_ip : option IpAddr)
    (now : Z) (m : PolicyRateLimiter) : PolicyRateLimiter * option Z :=
  if negb (rl_enabled limit) then (m, None)
  else
    match effective_rate_per_second limit with
    | None => (m, None)
    | Some rate =>
      let burst := f64_of_int (Z.max (rl_burst limit) 1) in
      let key := PolicyRateKey_new domain path remote_ip (rl_scope limit) in
      let m := evict_stale now m in
      let bucket := default (fresh_bucket burst now) (m !! key) in
      let '(bucket, taken) := take_token rate burst bucket now in
      (<[key := bucket]> m,
       if taken then None
       else Some (match rl_retry_after_seconds limit with
                  | Some s => from_secs s
                  | None => from_secs_f64 (f64_div f64_one (Z.max rate (f64_ratio 1 1000)))
                  end))
    end.

Definition example_limit (rpm burst : Z) (scope : RateLimitScope) : DomainRateLimit := {|
  rl_enabled := true; rl_requests_per_second := None; rl_requests_per_minute := Some rpm;
  rl_burst := burst; rl_scope := scope; rl_status_code := 429; rl_retry_after_seconds := None |}.

(** 30 a minute: one every two seconds. *)
Example retry_after_half_rate :
  let call now m := retry_after (example_limit 30 1 PerIp) (lit "a.com") (lit "/") (Some (V4 1)) now m in
  let '(m1, d1) := call 0 ∅ in
  let '(m2, d2) := call 1000000 m1 in
  let '(m3, d3) := call 2100000000 m2 in
  [d1; d2; d3] = [None; Some 2000000000; None].
Proof. vm_compute. reflexivity. Qed.

(** The parts of a request the limiter looks at. *)
Record rate_call := { rq_domain : rstr; rq_path : rstr; rq_ip : option IpAddr }.
Definition key_of (scope : RateLimitScope) (c : rate_call) : PolicyRateKey :=
  PolicyRateKey_new (rq_domain c) (rq_path c) (rq_ip c) scope.

(** The effective rate is positive and below [2^33] a second. *)
Lemma effective_rate_range limit :
  (forall r, rl_requests_per_second limit = Some r -> r <= U32_MAX) ->
  (forall r, rl_requests_per_minute limit = Some r -> r <= U32_MAX) ->
  exists rate, effective_rate_per_second limit = Some rate /\ 0 <= rate <= 2 ^ 33 * f64_one.
Proof.
  intros Hs Hm. pose proof f64_one_pos as H1. unfold U32_MAX in *.
  assert (exists rate, match (match rl_requests_per_minute limit with
           | Some rate => if 0 <? rate then Some rate else None
           | None => None
           end) with
    | Some rate => Some (f64_div (f64_of_int rate) (f64_of_int 60))
    | None => Some (f64_of_int 120)
    end = Some rate /\ 0 <= rate <= 2 ^ 33 * f64_one) as Hpm.
  { assert (0 <= f64_of_int 120 <= 2 ^ 33 * f64_one) as H120 by (rewrite f64_of_int_exact by lia; lia).
    destruct (rl_requests_per_minute limit) as [r|]; [|by eexists].
    destruct (0 <? r) eqn:E; [|by eexists]. apply Z.ltb_lt in E. eexists. split; [done|].
    specialize (Hm r eq_refl). rewrite !f64_of_int_exact by lia. unfold f64_div.
    pose proof f64_one_large. split; [apply round53_nonneg; nia|].
    pose proof (round53_error (r * f64_one * f64_one) (60 * f64_one) ltac:(lia) ltac:(nia)
      ltac:(right; right; nia)) as He. nia. }
  unfold effective_rate_per_second. destruct (rl_requests_per_second limit) as [r|]; [|exact Hpm].
  destruct (0 <? r) eqn:E; [|exact Hpm]. apply Z.ltb_lt in E. eexists. split; [done|].
  specialize (Hs r eq_refl). rewrite f64_of_int_exact by lia. nia.
Qed.

(** *** The limiter as a [KeyedLimiter], for one limit *)

Section keyed.
Context (limit : DomainRateLimit) (rate : Z).
Context (Hen : rl_enabled limit = true) (Hrate : effective_rate_per_second limit = Some rate).

(** A call that is refused gives a delay. *)
Definition policy_call (c : rate_call) (now : Z) (m : PolicyRateLimiter) : PolicyRateLimiter * bool :=
  let '(m', d) := retry_after limit (rq_domain c) (rq_path c) (rq_ip c) now m in
  (m', bool_decide (d = None)).

(** The token a key takes; the interface's calls carry the key. *)
Definition key_call (k : PolicyRateKey) (now : Z) (m : PolicyRateLimiter) : PolicyRateLimiter * bool :=
  let m := evict_stale now m in
  let burst := f64_of_int (Z.max (rl_burst limit) 1) in
  let '(b, taken) := take_token rate burst (default (fresh_bucket burst now) (m !! k)) now in
  (<[k := b]> m, taken).

Lemma policy_call_key c now m : policy_call c now m = key_call (key_of (rl_scope limit) c) now m.
Proof using Hen Hrate.
  unfold policy_call, retry_after, key_call, key_of. rewrite Hen, Hrate. cbn [negb].
  by destruct (take_token _ _ _ _) as [b []].
Qed.

#[export] Instance Policy_keyed : KeyedLimiter PolicyRateKey PolicyRateLimiter := {|
  kl_bucket m k := m !! k;
  kl_call := key_call;
  kl_valid _ := True;
  kl_rate := rate;
  kl_burst := Z.max (rl_burst limit) 1;
  kl_ttl := from_secs POLICY_RATE_BUCKET_TTL_SECONDS;
|}.

Lemma policy_evict_keeps now (m : PolicyRateLimiter) k :
  (forall b, m !! k = Some b -> now - rb_last_refill b <= from_secs POLICY_RATE_BUCKET_TTL_SECONDS) ->
  evict_stale now m !! k = m !! k.
Proof. intros H. unfold evict_stale. destruct (_ <? _); [done|]. by apply retain_younger_keeps. Qed.

#[export] Instance Policy_laws : KeyedLimiterLaws _ _ Policy_keyed.
Proof.
  split; cbn [kl_bucket kl_call kl_valid kl_rate kl_burst kl_ttl Policy_keyed]; unfold key_call.
  - done.
  - intros k k' now m _ Hne Hf. destruct (take_token _ _ _ _) as [b t]. cbn [fst].
    rewrite lookup_insert_ne by done. by apply policy_evict_keeps.
  - intros k now m _ Hf. rewrite policy_evict_keeps by done.
    destruct (take_token _ _ _ _) as [b t]. cbn [fst snd]. by rewrite lookup_insert_eq.
Qed.
End keyed.

(** A sequence of requests under one limit: how many requests of the key [k]
    were let through, and when the requests of that key came. *)
Fixpoint let_through (limit : DomainRateLimit) (k : PolicyRateKey) (calls : list (rate_call * Z))
    (m : PolicyRateLimiter) : Z :=
  match calls with
  | [] => 0
  | (c, now) :: calls' =>
    let '(m', d) := retry_after limit (rq_domain c) (rq_path c) (rq_ip c) now m in
    let_through limit k calls' m' +
      (if bool_decide (key_of (rl_scope limit) c = k) && bool_decide (d = None) then 1 else 0)
  end.
Definition key_times (limit : DomainRateLimit) (k : PolicyRateKey) (calls : list (rate_call * Z)) : list Z :=
  times_of k ((fun c => (key_of (rl_scope limit) (fst c), snd c)) <$> calls).

Lemma let_through_count limit rate k calls :
  rl_enabled limit = true -> effective_rate_per_second limit = Some rate ->
  forall m, let_through limit k calls m =
    count_for (KL := Policy_keyed limit rate) k
      ((fun c => (key_of (rl_scope limit) (fst c), snd c)) <$> calls) m.
Proof.
  intros Hen Hr. induction calls as [|[c now] calls IH]; intros m; [done|].
  pose proof (policy_call_key limit rate Hen Hr c now m) as E. unfold policy_call in E.
  cbn [let_through fmap list_fmap fst snd count_for kl_call Policy_keyed].
  destruct (retry_after _ _ _ _ now m) as [m' d]. rewrite <- E, IH. done.
Qed.

(** The policy rate limit holds for the scope it is configured for: over
    any sequence of requests within ten minutes, the requests let through that
    share the domain, the address or the address and path (as the scope says)
    are at most [burst] plus the effective rate times the seconds between the
    first and the last of them, up to the relative rounding error of the token
    arithmetic; a limit that sets no usable rate means 120 a second, never no
    limit. *)
Theorem policy_rate_bound limit k calls m t0 :
  rl_enabled limit = true -> 0 <= rl_burst limit <= U32_MAX ->
  (forall r, rl_requests_per_second limit = Some r -> r <= U32_MAX) ->
  (forall r, rl_requests_per_minute limit = Some r -> r <= U32_MAX) ->
  m !! k = None ->
  Forall (fun c => t0 <= snd c <= t0 + from_secs POLICY_RATE_BUCKET_TTL_SECONDS) calls ->
  Sorted Z.le (key_times limit k calls) ->
  exists rate, effective_rate_per_second limit = Some rate /\
    within_rate (let_through limit k calls m) rate (Z.max (rl_burst limit) 1)
      (default 0 (last (key_times limit k calls)) - default 0 (head (key_times limit k calls)))
      (Z.of_nat (length (key_times limit k calls))).
Proof.
  intros Hen Hb Hs Hm Hk Hall Hsort. destruct (effective_rate_range limit Hs Hm) as (rate & Hr & Hrange).
  exists rate. split; [done|]. rewrite (let_through_count _ rate) by done. unfold key_times, U32_MAX in *.
  eapply (keyed_limit (KL := Policy_keyed limit rate)); cbn [kl_rate kl_burst kl_valid kl_bucket kl_ttl Policy_keyed].
  - done.
  - unfold U32_MAX. lia.
  - done.
  - done.
  - apply Forall_fmap. exact Hall.
  - exact Hsort.
Qed.

Definition example_call (path : string) : rate_call :=
  {| rq_domain := lit "a.com"; rq_path := lit path; rq_ip := Some (V4 1) |}.

Lemma policy_rate_bound_witness :
  exists rate, effective_rate_per_second (example_limit 30 1 PerIpPath) = Some rate /\
    within_rate
      (let_through (example_limit 30 1 PerIpPath) (key_of PerIpPath (example_call "/a"))
         [(example_call "/a?x=1", 5); (example_call "/b", 6); (example_call "/a?x=2", 7)] ∅)
      rate 1 (7 - 5) 2.
Proof.
  apply (policy_rate_bound (example_limit 30 1 PerIpPath) (key_of PerIpPath (example_call "/a"))
    [(example_call "/a?x=1", 5); (example_call "/b", 6); (example_call "/a?x=2", 7)] ∅ 0).
  - reflexivity.
  - by vm_compute.
  - intros r H. discriminate H.
  - intros r H. injection H as <-. by vm_compute.
  - reflexivity.
  - by_decide.
  - repeat constructor; vm_compute; discriminate.
Defined.
End PolicyRate.

(** ** Outcomes of upstream requests *)

(** [StatusCode::is_server_error]. *)
Definition is_server_error (status : Z) : bool := (500 <=? status) && (status <=? 599).

(** The number of failures since the last success, and the instant of the last
    failure, for one key of a sequence of outcomes. *)
Record outcome := { oc_key : rstr; oc_failed : bool; oc_time : Z }.
Definition streak_step (k : rstr) (s : Z * Z) (o : outcome) : Z * Z :=
  if oc_key o =s? k then if oc_failed o then (s.1 + 1, oc_time o) else (0, s.2) else s.
Definition streak (k : rstr) (os : list outcome) : Z * Z := foldl (streak_step k) (0, 0) os.

(** ** The circuit breaker *)

Module Circuit.

Record CircuitBreakerState := {
  cs_failures : Z;
  cs_open_until : option Z;
}.
Definition CircuitBreakerState_default : CircuitBreakerState :=
  {| cs_failures := 0; cs_open_until := None |}.
Abbreviation Breakers := (gmap rstr CircuitBreakerState).

Definition circuit_key (route_id path_prefix upstream : rstr) : rstr :=
  route_id ++ lit ":" ++ path_prefix ++ lit ":" ++ upstream.

(** [open_until.is_some_and(|open_until| now < open_until)]. *)
Definition still_open (state : CircuitBreakerState) (now : Z) : bool :=
  match cs_open_until state with Some open_until => now <? open_until | None => false end.

Definition circuit_is_open (key : rstr) (now : Z) (m : Breakers) : Breakers * bool :=
  match m !! key with
  | None => (m, false)
  | Some state =>
    if still_open state now
    then (m, true)
    else (<[key := {| cs_failures := cs_failures state; cs_open_until := None |}]> m, false)
  end.

Definition breaker_after (config : CircuitBreakerConfig) (failed : bool) (now : Z)
    (b : CircuitBreakerState) : CircuitBreakerState :=
  if failed then
    let failures := Z.min (cs_failures b + 1) U32_MAX in
    {| cs_failures := failures;
       cs_open_until := if Z.max (cb_failure_threshold config) 1 <=? failures
                        then Some (now + from_secs (Z.max (cb_open_seconds config) 1))
                        else cs_open_until b |}
  else {| cs_failures := 0; cs_open_until := None |}.

Definition record_circuit_result (config : CircuitBreakerConfig) (key : rstr) (status : Z)
    (error : bool) (now : Z) (m : Breakers) : Breakers :=
  if negb (cb_enabled config) then m
  else
    let breaker := default CircuitBreakerState_default (m !! key) in
    <[key := breaker_after config (error || is_server_error status) now breaker]> m.

(** *** Histories of outcomes and probes *)

Inductive event : Type :=
| Outcome (key : rstr) (status : Z) (error : bool) (t : Z)
| Probe (key : rstr) (t : Z).
Definition event_time (e : event) : Z := match e with Outcome _ _ _ t | Probe _ t => t end.
Definition run_event (config : CircuitBreakerConfig) (m : Breakers) (e : event) : Breakers :=
  match e with
  | Outcome key status error t => record_circuit_result config key status error t m
  | Probe key t => fst (circuit_is_open key t m)
  end.
Definition outcomes (es : list event) : list outcome :=
  omap (fun e => match e with
                 | Outcome key status error t =>
                   Some {| oc_key := key; oc_failed := error || is_server_error status; oc_time := t |}
                 | Probe _ _ => None
                 end) es.

Section breaker.
Context (config : CircuitBreakerConfig).
Context (Hen : cb_enabled config = true) (Hthr : cb_failure_threshold config <= U32_MAX).
Let threshold := Z.max (cb_failure_threshold config) 1.
Let open_time := from_secs (Z.max (cb_open_seconds config) 1).

(** What the breaker of a key holds after a history with the given streak and
    last instant: it may have forgotten an opening that is over. *)
Definition breaker_inv (s : Z * Z) (T : Z) (b : option CircuitBreakerState) : Prop :=
  let b := default CircuitBreakerState_default b in
  0 <= s.1 /\ cs_failures b = Z.min s.1 U32_MAX /\
  (s.1 < threshold -> cs_open_until b = None) /\
  (threshold <= s.1 -> cs_open_until b = Some (s.2 + open_time) \/
     (cs_open_until b = None /\ s.2 + open_time <= T)).

Lemma breaker_inv_later s T T' b : T <= T' -> breaker_inv s T b -> breaker_inv s T' b.
Proof.
  intros HT (H0 & H1 & H2 & H3). split; [done|]. split; [done|]. split; [done|].
  intros H. destruct (H3 H) as [?|[? ?]]; [by left|right]. split; [done|lia].
Qed.

Lemma breaker_inv_event k e es m T :
  T <= event_time e -> breaker_inv (streak k (outcomes es)) T (m !! k) ->
  breaker_inv (streak k (outcomes (es ++ [e]))) (event_time e) (run_event config m e !! k).
Proof using Hen Hthr.
  intros HT Hinv. apply (breaker_inv_later _ _ _ _ HT) in Hinv.
  unfold outcomes. rewrite omap_app. fold (outcomes es). unfold streak. rewrite foldl_app.
  fold (streak k (outcomes es)). set (s := streak k (outcomes es)) in *. clearbody s.
  destruct e as [key status error t|key t]; cbn [omap list_omap foldl run_event event_time] in *.
  - unfold record_circuit_result. rewrite Hen. cbn [negb]. unfold streak_step. cbn [oc_key oc_failed oc_time].
    destruct (key =s? k) eqn:Ek.
    2:{ apply seqb_false in Ek. by rewrite lookup_insert_ne. }
    apply seqb_true in Ek as ->. rewrite lookup_insert_eq.
    destruct Hinv as (H0 & H1 & H2 & H3). unfold breaker_inv, breaker_after. cbn [default from_option id].
    fold threshold open_time. set (b := default _ (m !! k)) in *. clearbody b.
    assert (1 <= threshold <= U32_MAX) as Ht by (unfold threshold, U32_MAX in *; lia).
    destruct (error || is_server_error status); cbn [cs_failures cs_open_until fst snd].
    + destruct (threshold <=? Z.min (cs_failures b + 1) U32_MAX) eqn:E; bools.
      * split; [lia|]. split; [lia|]. split; [intros; lia|]. intros _. by left.
      * split; [lia|]. split; [lia|]. split; [intros; apply H2; lia|intros; lia].
    + unfold U32_MAX in *. split; [lia|]. split; [lia|]. split; [done|]. intros; lia.
  - unfold circuit_is_open. destruct (decide (key = k)) as [->|Hne].
    2:{ destruct (m !! key) as [b|]; [|done]. destruct (still_open b t); [done|].
        cbn [fst]. by rewrite lookup_insert_ne. }
    destruct (m !! k) as [b|] eqn:Eb; [|cbn [fst]; by rewrite Eb]. destruct Hinv as (H0 & H1 & H2 & H3).
    cbn [default from_option id] in *.
    destruct (still_open b t) eqn:E; cbn [fst].
    { rewrite Eb. split; [done|]. split; [done|]. by split. }
    rewrite lookup_insert_eq. unfold breaker_inv. cbn [default from_option id cs_failures cs_open_until].
    split; [done|]. split; [done|]. split; [done|]. intros H.
    destruct (H3 H) as [Hu|[_ Hu]]; right; (split; [done|]); [|lia].
    unfold still_open in E. rewrite Hu in E. bools. lia.
Qed.

Lemma breaker_inv_run k es :
  Sorted Z.le (event_time <$> es) -> Forall (fun e => 0 <= event_time e) es ->
  breaker_inv (streak k (outcomes es)) (default 0 (last (event_time <$> es)))
    (foldl (run_event config) ∅ es !! k).
Proof using Hen Hthr.
  induction es as [|e es IH] using rev_ind; intros Hs Hp.
  { unfold breaker_inv. split; [done|]. split; [done|]. split; [done|].
    unfold outcomes, streak, threshold. cbn [omap list_omap foldl fst]. lia. }
  rewrite foldl_snoc, fmap_app. change (event_time <$> [e]) with [event_time e]. rewrite last_snoc.
  cbn [default from_option id].
  rewrite fmap_app in Hs. change (event_time <$> [e]) with [event_time e] in Hs.
  apply Sorted_snoc_inv in Hs as [Hs Hlast]. apply Forall_app in Hp as [Hp He].
  apply (breaker_inv_event k e es _ (default 0 (last (event_time <$> es)))).
  - destruct (last (event_time <$> es)) as [T|] eqn:El; cbn [default from_option id].
    + apply Hlast. by apply last_Some_elem_of.
    + rewrite Forall_singleton in He. exact He.
  - by apply IH.
Qed.
End breaker.

(** The circuit of an upstream is open exactly when it should be: after any
    history of request outcomes and probes in the order of time, a probe finds
    it open if and only if the failures since the last success reached the
    threshold and the last of them is less than the opening time ago.  Outcomes
    of other upstreams and the probes themselves do not matter, so the first
    failure after the opening time opens it again. *)
Theorem circuit_open_exact config es k now :
  cb_enabled config = true -> cb_failure_threshold config <= U32_MAX ->
  Sorted Z.le (event_time <$> es) -> Forall (fun e => 0 <= event_time e <= now) es ->
  snd (circuit_is_open k now (foldl (run_event config) ∅ es)) = true <->
  Z.max (cb_failure_threshold config) 1 <= (streak k (outcomes es)).1 /\
  now < (streak k (outcomes es)).2 + from_secs (Z.max (cb_open_seconds config) 1).
Proof.
  intros Hen Hthr Hs Ht.
  assert (Forall (fun e => 0 <= event_time e) es) as Hp by (eapply Forall_impl; [exact Ht|]; cbn; lia).
  pose proof (breaker_inv_run config Hen Hthr k es Hs Hp) as (H0 & H1 & H2 & H3).
  unfold circuit_is_open, still_open. destruct (foldl _ _ _ !! k) as [b|]; cbn [default from_option id] in *.
  2:{ cbn [snd cs_failures cs_open_until CircuitBreakerState_default] in *. unfold U32_MAX in *.
      split; [done|]. intros [? ?]. lia. }
  assert (default 0 (last (event_time <$> es)) <= Z.max now 0) as HT.
  { destruct (last (event_time <$> es)) as [T|] eqn:E; [|simpl; lia]. simpl.
    apply last_Some_elem_of, list_elem_of_fmap in E as (e & -> & He).
    rewrite Forall_forall in Ht. apply Ht in He. lia. }
  assert (es <> [] -> 0 <= now) as Hnow.
  { destruct es as [|e es']; [done|]. intros _. apply Forall_cons in Ht as [? _]. lia. }
  destruct (decide (Z.max (cb_failure_threshold config) 1 <= (streak k (outcomes es)).1)) as [Hge|Hlt].
  - assert (0 <= now) as Hn0.
    { apply Hnow. intros ->. unfold outcomes, streak in Hge. cbn in Hge. lia. }
    destruct (H3 Hge) as [->|[-> Hle]]; cbn [snd].
    + destruct (now <? _) eqn:E; cbn [snd]; bools; (split; [intros; by split|]); intros; [done|lia].
    + split; [done|]. intros [_ ?]. lia.
  - rewrite H2 by lia. cbn [snd]. split; [done|]. intros [? _]. lia.
Qed.

Definition example_config : CircuitBreakerConfig :=
  {| cb_enabled := true; cb_failure_threshold := 2; cb_open_seconds := 10 |}.
Definition example_events (k : rstr) : list event :=
  [Outcome k 502 false 5; Probe k 6; Outcome k 200 true 7].

Lemma circuit_open_exact_witness :
  snd (circuit_is_open (circuit_key (lit "r") (lit "/") (lit "u")) 8
         (foldl (run_event example_config) ∅ (example_events (circuit_key (lit "r") (lit "/") (lit "u"))))) = true.
Proof.
  apply (circuit_open_exact example_config (example_events (circuit_key (lit "r") (lit "/") (lit "u")))).
  - reflexivity.
  - by vm_compute.
  - repeat constructor; vm_compute; discriminate.
  - by_decide.
  - split; by vm_compute.
Defined.
End Circuit.

(** ** The in-flight limit *)

Module InFlight.

Section key.
Context {NL : IpNetLib}.

Definition in_flight_key (limit : InFlightLimitConfig) (matched : RouteMatch) (upstream : Upstream)
  : rstr * rstr :=
  match if_scope limit with
  | ScopeDomain => (r_domain (m_route matched), lit "domain")
  | ScopeUpstream => (r_id (m_route matched) ++ lit ":" ++ pr_prefix (m_path matched) ++ lit ":" ++ u_url upstream,
                      lit "upstream")
  | ScopeRoute => (r_id (m_route matched) ++ lit ":" ++ pr_prefix (m_path matched), lit "route")
  end.
End key.

(** The loop of [try_acquire_in_flight], one atomic access at a time: a load,
    then a weak compare-and-exchange, which may also fail without cause. *)
Inductive acquire_pc : Type := Start | Loaded (current : Z).
Inductive acquire_result : Type := Continue (pc : acquire_pc) | Acquired | Refused.
#[export] Instance acquire_pc_eq_dec : EqDecision acquire_pc.
Proof. solve_decision. Defined.

Definition acquire_step (max : Z) (pc : acquire_pc) (spurious : bool) (counter : Z)
  : Z * acquire_result :=
  match pc with
  | Start => (counter, if max <=? counter then Refused else Continue (Loaded counter))
  | Loaded current =>
    if (counter =? current) && negb spurious then (current + 1, Acquired) else (counter, Continue Start)
  end.

(** The loop when nothing interferes, for the given failures without cause:
    one more iteration for each of them. *)
Fixpoint acquire_loop (max : Z) (spurious : list bool) (counter : Z) : Z * bool :=
  match acquire_step max Start false counter with
  | (counter, Continue pc) =>
    match spurious with
    | [] => match acquire_step max pc false counter with
            | (counter, Acquired) => (counter, true)
            | (counter, _) => (counter, false)
            end
    | b :: spurious' =>
      match acquire_step max pc b counter with
      | (counter, Acquired) => (counter, true)
      | (counter, _) => acquire_loop max spurious' counter
      end
    end
  | (counter, _) => (counter, false)
  end.

(** [fetch_update(|value| Some(value.saturating_sub(1)))] is atomic. *)
Definition release_counter (counter : Z) : Z := saturating_sub counter 1.

Section operations.
Context {NL : IpNetLib}.

Definition try_acquire_in_flight (limit : InFlightLimitConfig) (matched : RouteMatch)
    (upstream : Upstream) (spurious : list bool) (m : gmap rstr Z)
  : gmap rstr Z * result rstr (option rstr) :=
  if negb (if_enabled limit) then (m, Ok None)
  else
    match if_max limit with
    | None => (m, Ok None)
    | Some max =>
      let '(key, scope) := in_flight_key limit matched upstream in
      let '(counter, acquired) := acquire_loop max spurious (default 0 (m !! key)) in
      (<[key := counter]> m, if acquired then Ok (Some key) else Err scope)
    end.

Definition release_in_flight (key : option rstr) (m : gmap rstr Z) : gmap rstr Z :=
  match key with
  | None => m
  | Some key =>
    match m !! key with
    | Some counter => <[key := release_counter counter]> m
    | None => m
    end
  end.
End operations.

Lemma acquire_loop_spec max spurious counter :
  acquire_loop max spurious counter =
    if max <=? counter then (counter, false) else (counter + 1, true).
Proof.
  induction spurious as [|b l IH]; cbn [acquire_loop acquire_step];
    destruct (max <=? counter) eqn:E; cbn [acquire_step]; try done; rewrite Z.eqb_refl; [done|].
  destruct b; cbn [andb negb]; [exact IH|done].
Qed.

(** *** Requests that share a counter *)

(** A request tries to acquire, holds its slot while the upstream answers, and
    releases it; the future of a request whose client goes away is dropped at
    its [await], after which none of its code runs. *)
Inductive thread : Type := Trying (pc : acquire_pc) | Holding | Done | Dropped.
#[export] Instance thread_eq_dec : EqDecision thread.
Proof. solve_decision. Defined.

Record shared := { sh_counter : Z; sh_threads : list thread }.
Definition with_thread (i : nat) (t : thread) (c : Z) (s : shared) : shared :=
  {| sh_counter := c; sh_threads := <[i := t]> (sh_threads s) |}.
Definition thread_after (r : acquire_result) : thread :=
  match r with Continue pc => Trying pc | Acquired => Holding | Refused => Done end.

Inductive step (max : Z) : shared -> shared -> Prop :=
| step_acquire i pc spurious s c r :
    sh_threads s !! i = Some (Trying pc) -> acquire_step max pc spurious (sh_counter s) = (c, r) ->
    step max s (with_thread i (thread_after r) c s)
| step_release i s :
    sh_threads s !! i = Some Holding ->
    step max s (with_thread i Done (release_counter (sh_counter s)) s)
| step_drop i s :
    sh_threads s !! i = Some Holding -> step max s (with_thread i Dropped (sh_counter s) s).

Definition initial (n : nat) : shared := {| sh_counter := 0; sh_threads := replicate n (Trying Start) |}.
Definition count_threads (t : thread) (s : shared) : Z :=
  Z.of_nat (length (filter (fun t' => t' = t) (sh_threads s))).
Definition one_if (b : bool) : Z := if b then 1 else 0.

Lemma count_threads_update t i t0 t1 c s :
  sh_threads s !! i = Some t0 ->
  count_threads t (with_thread i t1 c s)
  = count_threads t s - one_if (bool_decide (t0 = t)) + one_if (bool_decide (t1 = t)).
Proof.
  intros Hi. unfold count_threads, with_thread. cbn [sh_threads].
  assert (forall x : thread, Z.of_nat (length (filter (fun t' => t' = t) [x])) = one_if (bool_decide (x = t))) as Hx.
  { intros x. destruct (decide (x = t)) as [->|Hne].
    - rewrite filter_cons_True by done. by rewrite bool_decide_eq_true_2.
    - rewrite filter_cons_False by done. by rewrite bool_decide_eq_false_2. }
  rewrite <- (Hx t0), <- (Hx t1). rewrite <- (take_drop_middle _ _ _ Hi) at 2.
  rewrite insert_take_drop by (by eapply lookup_lt_Some).
  change (t1 :: drop (S i) (sh_threads s)) with ([t1] ++ drop (S i) (sh_threads s)).
  change (t0 :: drop (S i) (sh_threads s)) with ([t0] ++ drop (S i) (sh_threads s)).
  rewrite !filter_app, !length_app. lia.
Qed.

(** A slot is held, or lost with a dropped request; a loaded value is below
    the limit. *)
Record slots_ok (max : Z) (s : shared) : Prop := {
  so_counter : sh_counter s = count_threads Holding s + count_threads Dropped s;
  so_bound : sh_counter s <= max;
  so_loaded : forall i cur, sh_threads s !! i = Some (Trying (Loaded cur)) -> cur < max;
}.

Lemma loaded_update max i t c s :
  (forall j cur, sh_threads s !! j = Some (Trying (Loaded cur)) -> cur < max) ->
  (forall cur, t = Trying (Loaded cur) -> cur < max) ->
  forall j cur, sh_threads (with_thread i t c s) !! j = Some (Trying (Loaded cur)) -> cur < max.
Proof.
  intros Hs Ht j cur. cbn [with_thread sh_threads]. rewrite list_lookup_insert_Some.
  intros [(_ & E & _)|[_ H]]; [by apply Ht|by eapply Hs].
Qed.

Lemma slots_ok_acquire max s i pc spurious c r :
  slots_ok max s -> sh_threads s !! i = Some (Trying pc) ->
  acquire_step max pc spurious (sh_counter s) = (c, r) ->
  slots_ok max (with_thread i (thread_after r) c s).
Proof.
  intros [Hc Hb Hl] Hi Ha.
  assert (forall cur, thread_after r = Trying (Loaded cur) -> cur < max) as Hl'.
  { destruct pc as [|cur']; cbn [acquire_step] in Ha.
    - destruct (max <=? sh_counter s) eqn:E; simplify_eq/=; intros cur [= <-]. by bools.
    - destruct (_ && _); by simplify_eq/=. }
  assert (c = sh_counter s + one_if (bool_decide (thread_after r = Holding)) /\ c <= max /\
          thread_after r <> Dropped) as (Hc' & Hmax & Hnd).
  { destruct pc as [|cur]; cbn [acquire_step] in Ha.
    - destruct (max <=? sh_counter s); simplify_eq/=; (split; [lia|by split]).
    - apply Hl in Hi. destruct ((sh_counter s =? cur) && negb spurious) eqn:E; simplify_eq/=.
      + bools. destruct E as [-> _]. split; [done|]. split; [lia|done].
      + split; [lia|by split]. }
  split; [|done|by apply loaded_update].
  cbn [with_thread sh_counter]. rewrite !(count_threads_update _ i (Trying pc)) by done.
  rewrite !(bool_decide_eq_false_2 (Trying pc = _)) by done.
  rewrite (bool_decide_eq_false_2 (thread_after r = Dropped)) by done. cbn [one_if]. lia.
Qed.

Lemma slots_ok_step max s s' : slots_ok max s -> step max s s' -> slots_ok max s'.
Proof.
  intros Hok Hstep. destruct Hstep as [i pc spurious s c r Hi Ha|i s Hi|i s Hi];
    [by eapply slots_ok_acquire| |]; destruct Hok as [Hc Hb Hl];
    assert (0 <= count_threads Dropped s /\ 0 <= count_threads Holding s) by (unfold count_threads; lia);
    (split; [|cbn [with_thread sh_counter]; unfold release_counter, saturating_sub|by apply loaded_update]);
    [|lia| |lia];
    cbn [with_thread sh_counter]; rewrite !(count_threads_update _ i Holding) by done;
    repeat rewrite ?bool_decide_eq_true_2, ?bool_decide_eq_false_2 by done; cbn [one_if].
  - assert (1 <= count_threads Holding s).
    { unfold count_threads. assert (Holding ∈ filter (fun t' => t' = Holding) (sh_threads s)) as Hin
        by (apply list_elem_of_filter; split; [done|by eapply list_elem_of_lookup_2]).
      destruct (filter _ _); [by apply not_elem_of_nil in Hin|]. cbn [length]. lia. }
    unfold release_counter, saturating_sub. lia.
  - lia.
Qed.

Lemma slots_ok_initial max n : 0 <= max -> slots_ok max (initial n).
Proof.
  intros Hm. assert (forall t, t <> Trying Start -> count_threads t (initial n) = 0) as H0.
  { intros t Ht. unfold count_threads, initial. cbn [sh_threads].
    induction n as [|n IH]; [done|]. cbn [replicate]. by rewrite filter_cons_False. }
  split; [by rewrite !H0|done|].
  intros i cur H. apply lookup_replicate in H as [H _]. discriminate H.
Qed.

(** The in-flight limit holds under every interleaving of the loads,
    compare-and-exchanges and releases of any number of requests that share a
    counter: never more than [max] requests hold a slot, and the counter is the
    number of those plus the number of requests whose future was dropped while
    they held one.  Slots lost that way never come back: after [max] of them
    every further request is refused although nothing is in flight. *)
Theorem in_flight_accounting max n s :
  0 <= max -> rtc (step max) (initial n) s ->
  sh_counter s = count_threads Holding s + count_threads Dropped s /\
  count_threads Holding s + count_threads Dropped s <= max /\
  (count_threads Dropped s = max -> count_threads Holding s = 0 /\
     forall spurious, acquire_loop max spurious (sh_counter s) = (sh_counter s, false)).
Proof.
  intros Hm Hr. assert (slots_ok max s) as [Hc Hb _].
  { revert Hr. apply (rtc_ind_r (slots_ok max) (initial n)); [by apply slots_ok_initial|].
    intros; by eapply slots_ok_step. }
  assert (0 <= count_threads Holding s) by (unfold count_threads; lia).
  split; [done|]. split; [lia|]. intros Hd. split; [lia|]. intros spurious.
  rewrite acquire_loop_spec, (proj2 (Z.leb_le _ _)) by lia. done.
Qed.

(** One slot, two requests: the first acquires and is dropped. *)
Lemma in_flight_accounting_witness :
  exists s, rtc (step 1) (initial 2) s /\ count_threads Dropped s = 1 /\
    acquire_loop 1 [] (sh_counter s) = (1, false).
Proof.
  set (s3 := {| sh_counter := 1; sh_threads := [Dropped; Trying Start] |}).
  assert (rtc (step 1) (initial 2) s3) as Hr.
  { eapply rtc_l; [apply (step_acquire 1 0 Start false); reflexivity|].
    eapply rtc_l; [apply (step_acquire 1 0 (Loaded 0) false); reflexivity|].
    eapply rtc_l; [apply (step_drop 1 0); reflexivity|]. apply rtc_refl. }
  exists s3. split; [exact Hr|]. split; [reflexivity|].
  apply (in_flight_accounting 1 2 s3); [lia|exact Hr|reflexivity].
Defined.
End InFlight.

(** ** Passive health checks *)

Module Passive.
Section passive.
Context {NL : IpNetLib}.

(** The failure counts, the edge state they act on, and the recovery tasks that
    wait: each with the instant at which its sleep ends. *)
Record PassiveHealth := {
  ps_failures : gmap rstr Z;
  ps_state : EdgeState;
  ps_recoveries : list (Z * RouteUpstreamHealth);
}.

Definition route_health_key (domain path_prefix upstream : rstr) : rstr :=
  domain ++ lit ":" ++ path_prefix ++ lit ":" ++ upstream.

Definition passive_failed (config : PassiveHealthConfig) (status : Z) (error : bool) : bool :=
  error || existsb (fun code => code =? status) (ph_failure_statuses config) || is_server_error status.

Definition health_update (domain path_prefix upstream : rstr) (healthy : bool) : RouteUpstreamHealth :=
  {| uh_domain := domain; uh_path_prefix := path_prefix; uh_upstream_url := upstream;
     uh_healthy := healthy |}.

Definition record_passive_health (config : PassiveHealthConfig) (domain path_prefix upstream : rstr)
    (status : Z) (error : bool) (now : Z) (s : PassiveHealth) : PassiveHealth :=
  if negb (ph_enabled config) then s
  else
    let key := route_health_key domain path_prefix upstream in
    let failures := default 0 (ps_failures s !! key) in
    if passive_failed config status error then
      let failures := Z.min (failures + 1) U32_MAX in
      let counted := <[key := failures]> (ps_failures s) in
      if Z.max (ph_failure_threshold config) 1 <=? failures then
        {| ps_failures := counted;
           ps_state := es_set_route_upstream_health
                         (health_update domain path_prefix upstream false) (ps_state s);
           ps_recoveries := ps_recoveries s ++
             [(now + from_secs (Z.max (ph_recovery_seconds config) 1),
               health_update domain path_prefix upstream true)] |}
      else {| ps_failures := counted; ps_state := ps_state s; ps_recoveries := ps_recoveries s |}
    else {| ps_failures := <[key := 0]> (ps_failures s); ps_state := ps_state s;
            ps_recoveries := ps_recoveries s |}.

(** The recovery tasks whose sleep is over run. *)
Definition recover (now : Z) (s : PassiveHealth) : PassiveHealth :=
  {| ps_failures := ps_failures s;
     ps_state := foldl (fun es r => es_set_route_upstream_health r.2 es) (ps_state s)
                   (filter (fun r => r.1 <= now) (ps_recoveries s));
     ps_recoveries := filter (fun r => now < r.1) (ps_recoveries s) |}.

Inductive passive_event : Type :=
| Observed (domain path_prefix upstream : rstr) (status : Z) (error : bool) (t : Z)
| Tick (t : Z).
Definition run_passive (config : PassiveHealthConfig) (s : PassiveHealth) (e : passive_event)
  : PassiveHealth :=
  match e with
  | Observed d p u status error t => record_passive_health config d p u status error t s
  | Tick t => recover t s
  end.
Definition passive_outcomes (config : PassiveHealthConfig) (es : list passive_event) : list outcome :=
  omap (fun e => match e with
                 | Observed d p u status error t =>
                   Some {| oc_key := route_health_key d p u; oc_failed := passive_failed config status error;
                           oc_time := t |}
                 | Tick _ => None
                 end) es.

Lemma passive_counts config es s0 k :
  ph_enabled config = true -> ps_failures s0 !! k = None ->
  0 <= (streak k (passive_outcomes config es)).1 /\
  default 0 (ps_failures (foldl (run_passive config) s0 es) !! k)
  = Z.min (streak k (passive_outcomes config es)).1 U32_MAX.
Proof.
  intros Hen H0. induction es as [|e es [IH0 IH]] using rev_ind.
  { split; [done|]. cbn [foldl]. rewrite H0. reflexivity. }
  rewrite foldl_snoc. unfold passive_outcomes in *. rewrite omap_app. unfold streak in *.
  rewrite foldl_app. set (st := foldl (streak_step k) _ _) in *. set (s := foldl (run_passive config) s0 es) in *.
  destruct e as [d p u status error t|t]; [|by split].
  cbn [omap list_omap foldl run_passive]. unfold record_passive_health, streak_step.
  rewrite Hen. cbn [negb oc_key oc_failed oc_time].
  destruct (route_health_key d p u =s? k) eqn:Ek.
  - apply seqb_true in Ek as ->. unfold U32_MAX in *.
    destruct (passive_failed config status error); [|cbn [ps_failures]; rewrite lookup_insert_eq; done].
    destruct (_ <=? _); cbn [ps_failures fst snd]; rewrite lookup_insert_eq; cbn [default from_option id]; lia.
  - apply seqb_false in Ek. split; [done|].
    destruct (passive_failed config status error); [destruct (_ <=? _)|]; cbn [ps_failures];
      by rewrite lookup_insert_ne.
Qed.

(** Passive health marks an upstream exactly when it should: after any
    history of outcomes and recoveries, one more outcome marks the upstream of
    that route path unhealthy in the edge state, and schedules its recovery,
    if and only if it is a failure and the failures of that route path and
    upstream since the last success, this one included, reach the threshold;
    otherwise the edge state does not change.  A recovery does not reset the
    count, so the first failure after it marks the upstream again. *)
Theorem passive_health_exact config es s0 d p u status error t :
  ph_enabled config = true -> ph_failure_threshold config <= U32_MAX -> ps_failures s0 = ∅ ->
  let s := foldl (run_passive config) s0 es in
  let s' := run_passive config s (Observed d p u status error t) in
  let count := (streak (route_health_key d p u)
                  (passive_outcomes config (es ++ [Observed d p u status error t]))).1 in
  if bool_decide (passive_failed config status error = true /\ Z.max (ph_failure_threshold config) 1 <= count)
  then ps_state s' = es_set_route_upstream_health (health_update d p u false) (ps_state s) /\
       ps_recoveries s' = ps_recoveries s ++
         [(t + from_secs (Z.max (ph_recovery_seconds config) 1), health_update d p u true)]
  else ps_state s' = ps_state s /\ ps_recoveries s' = ps_recoveries s.
Proof.
  intros Hen Hthr H0 s s' count. unfold U32_MAX in *.
  destruct (passive_counts config es s0 (route_health_key d p u) Hen) as [Hn Hc]; [by rewrite H0|].
  fold s in Hc.
  assert (passive_failed config status error = true ->
          count = (streak (route_health_key d p u) (passive_outcomes config es)).1 + 1) as Hcount.
  { intros Hf. unfold count, passive_outcomes, streak. rewrite omap_app, foldl_app.
    cbn [omap list_omap foldl]. unfold streak_step at 1. cbn [oc_key oc_failed]. by rewrite seqb_refl, Hf. }
  unfold s'. cbn [run_passive]. unfold record_passive_health. rewrite Hen. cbn [negb].
  destruct (passive_failed config status error) eqn:Hf.
  2:{ rewrite bool_decide_eq_false_2 by (intros [? _]; done). done. }
  rewrite Hc, Hcount by done. unfold U32_MAX in *. clear Hcount Hc count s'.
  set (n := (streak _ _).1) in *. clearbody n.
  destruct (_ <=? _) eqn:E; bools.
  - rewrite bool_decide_eq_true_2 by (split; [done|lia]). split; reflexivity.
  - rewrite bool_decide_eq_false_2 by (intros [_ ?]; lia). split; reflexivity.
Qed.
End passive.

Definition example_passive : PassiveHealthConfig :=
  {| ph_enabled := true; ph_failure_threshold := 2; ph_recovery_seconds := 30; ph_failure_statuses := [] |}.
Definition example_state : @PassiveHealth CidrLib :=
  {| ps_failures := ∅; ps_state := EdgeState_new example_table; ps_recoveries := [] |}.

Definition example_observed : Z -> passive_event :=
  Observed (lit "example.com") (lit "/api") (lit "http://b:1") 502 false.

Lemma passive_health_exact_witness :
  ps_recoveries (run_passive example_passive
    (foldl (run_passive example_passive) example_state [example_observed 5]) (example_observed 9))
  = ps_recoveries (foldl (run_passive example_passive) example_state [example_observed 5]) ++
    [(9 + from_secs (Z.max (ph_recovery_seconds example_passive) 1),
      health_update (lit "example.com") (lit "/api") (lit "http://b:1") true)].
Proof.
  pose proof (passive_health_exact example_passive [example_observed 5] example_state (lit "example.com")
    (lit "/api") (lit "http://b:1") 502 false 9 eq_refl ltac:(by vm_compute) eq_refl) as H.
  cbv zeta in H. rewrite bool_decide_eq_true_2 in H by (split; vm_compute; [reflexivity|discriminate]).
  exact (proj2 H).
Defined.
End Passive.
