(* ===== verification/HttpMiddleware.v ===== *)
(** The middleware of a route ([http-proxy] crate): the expansion of chains of
    middleware names and the effective settings of a request.  The expansion
    gives up below eight nested chains, so a chain that refers to itself ends;
    the depth left is the fuel of the recursion. *)
From stdpp Require Import options.
From S2P Require Import Prelude RustStr RustNum RustNet CommonTypes.

Local Open Scope Z_scope.

Section middleware.
Context {NL : IpNetLib}.
Implicit Types rules : DomainRules.

Record EffectiveMiddleware := {
  em_request_buffering : BufferingConfig;
  em_response_buffering : BufferingConfig;
  em_compression : CompressionConfig;
  em_content_type_autodetect : ContentTypeAutoDetectConfig;
  em_retry : RetryConfig;
  em_circuit_breaker : CircuitBreakerConfig;
  em_in_flight_limit : InFlightLimitConfig;
  em_sticky_sessions : StickySessionConfig;
  em_passive_health : PassiveHealthConfig;
  em_traffic_mirroring : TrafficMirrorConfig;
  em_client_cert_forwarding : ClientCertForwardingConfig;
  em_basic_auth : option BasicAuthConfig;
  em_digest_auth : option DigestAuthConfig;
  em_forward_auth : option ForwardAuthConfig;
}.

(** [fuel] is [9 - depth]. *)
Fixpoint expand_fuel (rules : DomainRules) (fuel : nat) (names : list rstr) : list rstr :=
  match fuel with
  | O => []
  | S fuel' =>
    flat_map (fun name =>
      match dr_middleware_chains rules !! name with
      | Some chain => expand_fuel rules fuel' chain
      | None =>
        name :: match dr_middlewares rules !! name with
                | Some middleware => expand_fuel rules fuel' (md_chain middleware)
                | None => []
                end
      end) names
  end.
Definition expand_middleware_names (names : list rstr) (rules : DomainRules) (output : list rstr)
    (depth : nat) : list rstr := output ++ expand_fuel rules (9 - depth) names.

Definition or_else {A} (o : option A) (a : A) : A := match o with Some b => b | None => a end.
Definition or_some {A} (o p : option A) : option A := match o with Some b => Some b | None => p end.

(** [EffectiveMiddleware::apply]. *)
Definition apply_middleware (m : MiddlewareDefinition) (e : EffectiveMiddleware) : EffectiveMiddleware := {|
  em_basic_auth := or_some (md_basic_auth m) (em_basic_auth e);
  em_forward_auth := or_some (md_forward_auth m) (em_forward_auth e);
  em_digest_auth := or_some (md_digest_auth m) (em_digest_auth e);
  em_request_buffering := or_else (md_request_buffering m) (em_request_buffering e);
  em_response_buffering := or_else (md_response_buffering m) (em_response_buffering e);
  em_compression := or_else (md_compression m) (em_compression e);
  em_content_type_autodetect := or_else (md_content_type_autodetect m) (em_content_type_autodetect e);
  em_retry := or_else (md_retry m) (em_retry e);
  em_circuit_breaker := or_else (md_circuit_breaker m) (em_circuit_breaker e);
  em_in_flight_limit := or_else (md_in_flight_limit m) (em_in_flight_limit e);
  em_client_cert_forwarding := or_else (md_pass_tls_client_cert m) (em_client_cert_forwarding e);
  em_sticky_sessions := em_sticky_sessions e;
  em_passive_health := em_passive_health e;
  em_traffic_mirroring := em_traffic_mirroring e |}.

Definition middleware_of_rules (rules : DomainRules) : EffectiveMiddleware := {|
  em_request_buffering := dr_request_buffering rules;
  em_response_buffering := dr_response_buffering rules;
  em_compression := dr_compression rules;
  em_content_type_autodetect := dr_content_type_autodetect rules;
  em_retry := dr_retry rules;
  em_circuit_breaker := dr_circuit_breaker rules;
  em_in_flight_limit := dr_in_flight_limit rules;
  em_sticky_sessions := dr_sticky_sessions rules;
  em_passive_health := dr_passive_health rules;
  em_traffic_mirroring := dr_traffic_mirroring rules;
  em_client_cert_forwarding := dr_client_cert_forwarding rules;
  em_basic_auth := None;
  em_digest_auth := None;
  em_forward_auth := None |}.

Definition from_rules (rules : DomainRules) (names : list rstr) : EffectiveMiddleware :=
  foldl (fun e name => match dr_middlewares rules !! name with
                       | Some m => apply_middleware m e
                       | None => e
                       end)
    (middleware_of_rules rules) (expand_middleware_names names rules [] 0).

Definition request_body_limit (rules : DomainRules) (m : EffectiveMiddleware) : Z :=
  Z.min (default (bc_max_request_bytes (em_request_buffering m)) (dr_max_body_bytes rules))
    (bc_max_request_bytes (em_request_buffering m)).

Definition requires_buffered_forwarding (m : EffectiveMiddleware) (strict_body_limit : bool) : bool :=
  strict_body_limit
  || bc_enabled (em_request_buffering m)
  || bc_enabled (em_response_buffering m)
  || rc_enabled (em_retry m)
  || cc_enabled (em_compression m)
  || ct_enabled (em_content_type_autodetect m)
  || (tm_enabled (em_traffic_mirroring m)
      && negb (is_empty (tm_upstreams (em_traffic_mirroring m)))
      && (0 <? tm_percent (em_traffic_mirroring m))).

Definition retryable_status (status : Z) (retry : RetryConfig) : bool :=
  rc_enabled retry &&
  (is_empty (rc_retry_statuses retry) || existsb (fun code => code =? status) (rc_retry_statuses retry)).
End middleware.

(** ** Forwarding with retries *)

Section retry.
Context {Response : Type} (status_of : Response -> Z).

(** The outcome of attempt [n], counted from 1; the answer and the number of
    requests sent. *)
Fixpoint retry_from (retry : RetryConfig) (url : rstr) (send : nat -> result PxxlError Response)
    (left attempt : nat) (last_error : option PxxlError) : result PxxlError Response * nat :=
  match left with
  | O => (Err (or_else last_error (InvalidUpstream url)), pred attempt)
  | S left' =>
    match send attempt with
    | Ok response =>
      if negb (left' =? 0)%nat && retryable_status (status_of response) retry
      then retry_from retry url send left' (S attempt) last_error
      else (Ok response, attempt)
    | Err error =>
      if negb (left' =? 0)%nat then retry_from retry url send left' (S attempt) (Some error)
      else (Err error, attempt)
    end
  end.

Definition forward_with_retry (retry : RetryConfig) (url : rstr)
    (send : nat -> result PxxlError Response) : result PxxlError Response * nat :=
  let attempts := if rc_enabled retry then Z.max (rc_attempts retry) 1 else 1 in
  retry_from retry url send (Z.to_nat attempts) 1 None.

(** An outcome that is sent again if attempts are left. *)
Definition retried (retry : RetryConfig) (o : result PxxlError Response) : bool :=
  match o with Ok r => retryable_status (status_of r) retry | Err _ => true end.

Lemma retry_from_spec retry url send left : forall attempt e,
  exists n, (attempt <= n < attempt + S left)%nat /\
    retry_from retry url send (S left) attempt e = (send n, n) /\
    (forall i, (attempt <= i < n)%nat -> retried retry (send i) = true) /\
    (retried retry (send n) = false \/ n = (attempt + left)%nat).
Proof.
  induction left as [|left IH]; intros attempt e.
  { exists attempt. split; [lia|]. split; [cbn [retry_from Nat.eqb negb andb]; by destruct (send attempt)|].
    split; [intros; lia|right; lia]. }
  destruct (retried retry (send attempt)) eqn:E.
  - destruct (IH (S attempt) (match send attempt with Ok _ => e | Err x => Some x end))
      as (n & Hn & Hr & Hall & Hend).
    exists n. split; [lia|]. split; [|split; [|destruct Hend; [by left|right; lia]]].
    + rewrite <- Hr. cbn [retry_from]. unfold retried in E. destruct (send attempt); [by rewrite E|done].
    + intros i Hi. destruct (decide (i = attempt)) as [->|?]; [done|]. apply Hall. lia.
  - exists attempt. split; [lia|]. split; [|split; [intros; lia|by left]].
    unfold retried in E. cbn [retry_from]. destruct (send attempt); [|done]. by rewrite E, andb_false_r.
Qed.

(** Retrying is bounded and stops as soon as it can: between one and
    [attempts] requests are sent (one when retries are off), every one but the
    last had an outcome that is retried, the last one is final or the attempts
    are used up, and its outcome is the answer.  With an empty list of retry
    statuses every response is retried, a success too, so that all attempts are
    always made. *)
Theorem forward_with_retry_exact retry url send :
  let attempts := if rc_enabled retry then Z.max (rc_attempts retry) 1 else 1 in
  exists n, 1 <= Z.of_nat n <= attempts /\
    forward_with_retry retry url send = (send n, n) /\
    (forall i, (1 <= i < n)%nat -> retried retry (send i) = true) /\
    (retried retry (send n) = false \/ Z.of_nat n = attempts) /\
    (bool_decide (rc_retry_statuses retry = []) = true -> Z.of_nat n = attempts).
Proof.
  intros attempts. assert (1 <= attempts) as Ha by (unfold attempts; destruct (rc_enabled retry); lia).
  destruct (retry_from_spec retry url send (pred (Z.to_nat attempts)) 1 None) as (n & Hn & Hr & Hall & Hend).
  replace (S (pred (Z.to_nat attempts))) with (Z.to_nat attempts) in * by lia.
  exists n. split; [lia|]. split; [exact Hr|]. split; [exact Hall|]. split; [destruct Hend; [by left|right; lia]|].
  rewrite bool_decide_eq_true. intros He. destruct Hend as [Hend|]; [|lia].
  unfold attempts in *. destruct (rc_enabled retry) eqn:Een; [|lia].
  exfalso. unfold retried, retryable_status in Hend. rewrite He, Een in Hend.
  cbn [is_empty orb andb] in Hend. by destruct (send n).
Qed.
End retry.

Lemma forward_with_retry_exact_witness :
  exists n, 1 <= Z.of_nat n <= 3 /\
    forward_with_retry (fun s : Z => s)
      {| rc_enabled := true; rc_attempts := 3; rc_backoff_ms := 10; rc_retry_statuses := [] |}
      (lit "http://a") (fun _ => Ok 200) = (Ok 200, n) /\ Z.of_nat n = 3.
Proof.
  destruct (forward_with_retry_exact (fun s : Z => s)
      {| rc_enabled := true; rc_attempts := 3; rc_backoff_ms := 10; rc_retry_statuses := [] |}
      (lit "http://a") (fun _ => Ok 200)) as (n & Hn & Hr & _ & _ & He).
  exists n. split; [exact Hn|]. split; [exact Hr|]. apply He. reflexivity.
Defined.

(** ** The effective settings *)

Section effective.
Context {NL : IpNetLib}.

(** The middleware definitions a list of names stands for, in order. *)
Definition definitions_of (rules : DomainRules) (names : list rstr) : list MiddlewareDefinition :=
  omap (fun name => dr_middlewares rules !! name) (expand_middleware_names names rules [] 0).
(** The last of them that sets a field. *)
Definition last_set {A} (field : MiddlewareDefinition -> option A) (ms : list MiddlewareDefinition)
  : option A := last (omap field ms).

Lemma last_set_snoc {A} (field : MiddlewareDefinition -> option A) ms m :
  last_set field (ms ++ [m]) = or_some (field m) (last_set field ms).
Proof.
  unfold last_set. rewrite omap_app. cbn [omap list_omap]. destruct (field m).
  - by rewrite last_snoc.
  - by rewrite app_nil_r.
Qed.
Lemma or_else_some {A} (o p : option A) d : or_else (or_some o p) d = or_else o (or_else p d).
Proof. by destruct o. Qed.
Lemma or_some_assoc {A} (o p q : option A) : or_some (or_some o p) q = or_some o (or_some p q).
Proof. by destruct o. Qed.

Lemma from_rules_definitions rules names :
  from_rules rules names =
  foldl (fun e m => apply_middleware m e) (middleware_of_rules rules) (definitions_of rules names).
Proof.
  unfold from_rules, definitions_of. generalize (middleware_of_rules rules).
  induction (expand_middleware_names names rules [] 0) as [|name l IH]; intros e; [done|].
  cbn [foldl omap list_omap]. destruct (dr_middlewares rules !! name); apply IH.
Qed.

(** The effective settings of a request: every setting a middleware can
    carry has the value of the last definition, in the order of the expanded
    chain, that sets it, and that of the domain rules if none does; the
    authentications are off unless a middleware sets them; sticky sessions,
    passive health and mirroring always come from the domain rules. *)
Theorem effective_last_wins rules names :
  let ms := definitions_of rules names in
  from_rules rules names = {|
    em_request_buffering := or_else (last_set md_request_buffering ms) (dr_request_buffering rules);
    em_response_buffering := or_else (last_set md_response_buffering ms) (dr_response_buffering rules);
    em_compression := or_else (last_set md_compression ms) (dr_compression rules);
    em_content_type_autodetect :=
      or_else (last_set md_content_type_autodetect ms) (dr_content_type_autodetect rules);
    em_retry := or_else (last_set md_retry ms) (dr_retry rules);
    em_circuit_breaker := or_else (last_set md_circuit_breaker ms) (dr_circuit_breaker rules);
    em_in_flight_limit := or_else (last_set md_in_flight_limit ms) (dr_in_flight_limit rules);
    em_sticky_sessions := dr_sticky_sessions rules;
    em_passive_health := dr_passive_health rules;
    em_traffic_mirroring := dr_traffic_mirroring rules;
    em_client_cert_forwarding :=
      or_else (last_set md_pass_tls_client_cert ms) (dr_client_cert_forwarding rules);
    em_basic_auth := last_set md_basic_auth ms;
    em_digest_auth := last_set md_digest_auth ms;
    em_forward_auth := last_set md_forward_auth ms |}.
Proof.
  intros ms. rewrite from_rules_definitions. fold ms. clearbody ms.
  induction ms as [|m ms IH] using rev_ind; [done|].
  rewrite foldl_snoc, IH, !last_set_snoc, !or_else_some. done.
Qed.
End effective.
