(* ===== verification/HttpHeaders.v ===== *)
(** The header handling of the [http-proxy] crate: the address of the client,
    the removal of hop-by-hop and forwarding headers, protocol upgrades and the
    sticky-session cookie.  The header map of the [http] crate is a parameter
    ([HeaderLib]) with its documented behaviour ([HeaderLaws]); an association
    list is an instance. *)
From stdpp Require Import options.
From S2P Require Import Prelude RustStr RustNum RustNet CommonTypes CommonValidate.

Local Open Scope Z_scope.

Definition quote : ascii := byte_of 34.

(** ** The header map of the [http] crate *)

(** Names are in their lower-case form, values are byte strings. *)
Class HeaderLib := {
  HeaderMap : Type;
  (** [HeaderMap::new] *)
  empty_headers : HeaderMap;
  get_all : HeaderMap -> rstr -> list rstr;
  header_names : HeaderMap -> list rstr;
  remove : rstr -> HeaderMap -> HeaderMap;
  insert_header : rstr -> rstr -> HeaderMap -> HeaderMap;
  (** [HeaderName::from_bytes], [HeaderValue::from_str], [HeaderValue::to_str] *)
  name_from_bytes : rstr -> option rstr;
  value_from_str : rstr -> option rstr;
  to_str : rstr -> option rstr;
}.
Class HeaderLaws (HL : HeaderLib) : Prop := {
  get_all_empty : forall n, get_all empty_headers n = [];
  get_all_remove : forall n h n',
    get_all (remove n h) n' = if n =s? n' then [] else get_all h n';
  get_all_insert : forall n v h n',
    get_all (insert_header n v h) n' = if n =s? n' then [v] else get_all h n';
  header_names_spec : forall h n, n ∈ header_names h <-> get_all h n <> [];
}.

(** An association list, for examples: names are non-empty and made of letters,
    digits, hyphens and underscores; a value reads as a string if it is visible
    ASCII, spaces and tabs. *)
Definition name_byte (b : ascii) : bool :=
  is_ascii_alphanumeric b || beq b (chr "-") || beq b (chr "_").
Definition text_byte (b : ascii) : bool := in_range 32 126 b || (bz b =? 9).
Definition AssocHeaders : HeaderLib := {|
  HeaderMap := list (rstr * rstr);
  empty_headers := [];
  get_all h n := snd <$> filter (fun kv => fst kv = n) h;
  header_names h := remove_dups (fst <$> h);
  remove n h := filter (fun kv => fst kv <> n) h;
  insert_header n v h := filter (fun kv => fst kv <> n) h ++ [(n, v)];
  name_from_bytes s := if is_empty s || negb (forallb name_byte s) then None else Some (to_ascii_lowercase s);
  value_from_str s := if forallb text_byte s then Some s else None;
  to_str s := if forallb text_byte s then Some s else None;
|}.

Lemma assoc_get_remove n n' (h : list (rstr * rstr)) :
  (snd <$> filter (fun kv => fst kv = n') (filter (fun kv => fst kv <> n) h))
  = if n =s? n' then [] else snd <$> filter (fun kv => fst kv = n') h.
Proof.
  rewrite list_filter_filter. destruct (n =s? n') eqn:E; [apply seqb_true in E as ->|apply seqb_false in E].
  - induction h as [|kv h IH]; [done|].
    rewrite (filter_cons_False (fun kv => fst kv = n' /\ fst kv <> n')) by tauto. exact IH.
  - f_equal. apply list_filter_iff. intros [k v]. cbn [fst]. split; [tauto|]. intros ->. by split.
Qed.

#[export] Instance AssocHeaders_laws : HeaderLaws AssocHeaders.
Proof.
  split; cbn [HeaderMap empty_headers get_all header_names remove insert_header AssocHeaders].
  - done.
  - intros n h n'. apply assoc_get_remove.
  - intros n v h n'. rewrite filter_app, fmap_app, assoc_get_remove.
    destruct (n =s? n') eqn:E; [apply seqb_true in E as ->|apply seqb_false in E].
    + rewrite (filter_cons_True (fun kv => fst kv = n')) by done. by rewrite filter_nil.
    + rewrite (filter_cons_False (fun kv => fst kv = n')) by done. rewrite filter_nil. apply app_nil_r.
  - intros h n. rewrite elem_of_remove_dups, list_elem_of_fmap. split.
    + intros ((k & v) & -> & Hkv) E.
      assert ((k, v) ∈ filter (fun kv => fst kv = k) h) as Hin by (by apply list_elem_of_filter).
      apply fmap_nil_inv in E. cbn [fst] in E. rewrite E in Hin. by apply not_elem_of_nil in Hin.
    + intros Hne. destruct (filter (fun kv => fst kv = n) h) as [|kv l] eqn:E; [done|].
      assert (kv ∈ filter (fun kv => fst kv = n) h) as Hin by (rewrite E; set_solver).
      apply list_elem_of_filter in Hin as [<- Hin]. by exists kv.
Qed.

Section headers.
Context {HL : HeaderLib}.

(** [HeaderMap::get]: the first value. *)
Definition get (h : HeaderMap) (n : rstr) : option rstr := head (get_all h n).
Definition get_str (h : HeaderMap) (n : rstr) : option rstr :=
  match get h n with Some v => to_str v | None => None end.

(** ** Removal of headers *)

(** The names listed in the [Connection] headers. *)
Definition connection_tokens (h : HeaderMap) : list rstr :=
  filter (fun value => is_empty value = false)
    (flat_map (fun value => map trim (split (chr ",") value)) (omap to_str (get_all h (lit "connection")))).

Definition remove_tokens (tokens : list rstr) (h : HeaderMap) : HeaderMap :=
  foldl (fun h token => match name_from_bytes token with Some name => remove name h | None => h end) h tokens.
Definition remove_names (names : list rstr) (h : HeaderMap) : HeaderMap :=
  foldl (fun h name => remove name h) h names.

Definition FORWARDED_REQUEST_HEADERS : list rstr := lits
  ["connection"; "host"; "upgrade"; "te"; "trailer"; "proxy-authorization"; "proxy-connection";
   "keep-alive"; "transfer-encoding"; "forwarded"; "x-forwarded-for"; "x-forwarded-host";
   "x-forwarded-proto"; "x-forwarded-prefix"; "x-real-ip"; "x-original-url"; "x-rewrite-url";
   "x-client-ip"].
Definition HOP_BY_HOP_RESPONSE_HEADERS : list rstr := lits
  ["connection"; "host"; "upgrade"; "te"; "trailer"; "proxy-authenticate"; "proxy-authorization";
   "proxy-connection"; "keep-alive"; "transfer-encoding"].

Definition strip_forwarded_request_headers (h : HeaderMap) : HeaderMap :=
  remove_names FORWARDED_REQUEST_HEADERS (remove_tokens (connection_tokens h) h).
Definition strip_hop_by_hop_response_headers (h : HeaderMap) : HeaderMap :=
  remove_names HOP_BY_HOP_RESPONSE_HEADERS (remove_tokens (connection_tokens h) h).

Definition preserve_websocket_upgrade_headers (h : HeaderMap) : HeaderMap :=
  insert_header (lit "upgrade") (lit "websocket") (insert_header (lit "connection") (lit "Upgrade") h).

Definition is_websocket_upgrade (h : HeaderMap) : bool :=
  match get_str h (lit "connection") with
  | Some value => existsb (fun part => eq_ignore_ascii_case (trim part) (lit "upgrade")) (split (chr ",") value)
  | None => false
  end &&
  match get_str h (lit "upgrade") with
  | Some value => eq_ignore_ascii_case value (lit "websocket")
  | None => false
  end.

Definition content_length (h : HeaderMap) : option Z :=
  match get_str h (lit "content-length") with Some v => parse_uint U64_MAX v | None => None end.

Definition header_present (h : HeaderMap) (name : rstr) : bool :=
  match name_from_bytes name with Some n => negb (is_empty (get_all h n)) | None => false end.
Definition header_value (h : HeaderMap) (name : rstr) : option rstr :=
  match name_from_bytes name with Some n => get_str h n | None => None end.

(** ** The address of the client *)

Definition is_public_client_ip (ip : IpAddr) : bool :=
  match ip with
  | V4 ip =>
    negb (v4_is_private ip) && negb (v4_is_loopback ip) && negb (v4_is_link_local ip)
    && negb (v4_is_broadcast ip) && negb (v4_is_documentation ip) && negb (v4_is_unspecified ip)
  | V6 ip =>
    let first := segment 0 ip in
    let unique_local := Z.land first 0xfe00 =? 0xfc00 in
    let link_local := Z.land first 0xffc0 =? 0xfe80 in
    negb (v6_is_loopback ip) && negb (v6_is_multicast ip) && negb (v6_is_unspecified ip)
    && negb unique_local && negb link_local
  end.

Definition public_only (ip : IpAddr) : option IpAddr := if is_public_client_ip ip then Some ip else None.

Definition parse_forwarded_ip_value (value : rstr) : option IpAddr :=
  let value := trim_matches (chr "]") (trim_matches (chr "[") (trim_matches quote (trim value))) in
  if is_empty value || eq_ignore_ascii_case value (lit "unknown") || starts_with (lit "_") value then None
  else
    match parse_ip value with
    | Some ip => public_only ip
    | None =>
      match rsplit_once (chr ":") value with
      | Some (host, _) =>
        match parse_ip (trim_matches (chr "]") (trim_matches (chr "[") (trim host))) with
        | Some ip => public_only ip
        | None => None
        end
      | None => None
      end
    end.

Definition parse_x_forwarded_for (value : rstr) : option IpAddr :=
  find_map parse_forwarded_ip_value (split (chr ",") value).

Definition forwarded_pair (pair : rstr) : option IpAddr :=
  match split_once (chr "=") (trim pair) with
  | None => None
  | Some (name, raw_value) =>
    if negb (eq_ignore_ascii_case (trim name) (lit "for")) then None
    else parse_forwarded_ip_value raw_value
  end.
Definition parse_forwarded_header (value : rstr) : option IpAddr :=
  find_map (fun segment => find_map forwarded_pair (split (chr ";") segment)) (split (chr ",") value).

Definition header_ip (h : HeaderMap) (parse : rstr -> option IpAddr) (name : rstr) : option IpAddr :=
  match get_str h name with Some v => parse v | None => None end.

Definition forwarded_client_ip (h : HeaderMap) : option IpAddr :=
  match find_map (header_ip h parse_forwarded_ip_value)
          (lits ["cf-connecting-ip"; "x-real-ip"; "true-client-ip"]) with
  | Some ip => Some ip
  | None =>
    match header_ip h parse_x_forwarded_for (lit "x-forwarded-for") with
    | Some ip => Some ip
    | None => header_ip h parse_forwarded_header (lit "forwarded")
    end
  end.

Context {NL : IpNetLib}.

(** [TrustedClientIpConfig]: the networks of the trusted proxies. *)
Definition trusted_parse (value : rstr) : list IpNet :=
  omap (fun entry => ok (parse_ip_net entry))
    (filter (fun entry => is_empty entry = false) (map trim (split (chr ",") value))).
Definition trusted_peer (cidrs : list IpNet) (peer_ip : IpAddr) : bool :=
  existsb (fun network => net_contains network peer_ip) cidrs.

Definition resolve_effective_client_ip (h : HeaderMap) (peer_ip : option IpAddr) (cidrs : list IpNet)
  : option IpAddr :=
  match peer_ip with
  | None => None
  | Some peer_ip =>
    if negb (trusted_peer cidrs peer_ip) then Some peer_ip
    else match forwarded_client_ip h with
         | Some ip => Some ip
         | None => Some peer_ip
         end
  end.
End headers.

(** ** Theorems *)

Section stripped.
Context {HL : HeaderLib} {Laws : HeaderLaws HL}.

Lemma remove_names_get names h n :
  get_all (remove_names names h) n = if bool_decide (n ∈ names) then [] else get_all h n.
Proof using Laws.
  unfold remove_names. revert h. induction names as [|m names IH]; intros h; [done|].
  cbn [foldl]. rewrite IH, get_all_remove. destruct (m =s? n) eqn:E.
  - apply seqb_true in E as ->. rewrite (bool_decide_eq_true_2 (n ∈ n :: names)) by set_solver.
    by destruct (bool_decide _).
  - apply seqb_false in E. by rewrite (bool_decide_ext (n ∈ m :: names) (n ∈ names)) by set_solver.
Qed.

Lemma remove_tokens_names tokens h : remove_tokens tokens h = remove_names (omap name_from_bytes tokens) h.
Proof.
  unfold remove_tokens, remove_names. revert h. induction tokens as [|t tokens IH]; intros h; [done|].
  cbn [foldl omap list_omap]. destruct (name_from_bytes t); [cbn [foldl]|]; apply IH.
Qed.

(** The headers the client declares as its own hop-by-hop headers. *)
Definition declared_hop_by_hop (h : HeaderMap) : list rstr := omap name_from_bytes (connection_tokens h).

Lemma strip_get fixed h n :
  get_all (remove_names fixed (remove_tokens (connection_tokens h) h)) n =
  if bool_decide (n ∈ fixed ++ declared_hop_by_hop h) then [] else get_all h n.
Proof using Laws.
  unfold declared_hop_by_hop. rewrite remove_tokens_names, !remove_names_get.
  destruct (decide (n ∈ fixed)) as [H1|H1].
  - rewrite bool_decide_eq_true_2 by done. by rewrite bool_decide_eq_true_2 by set_solver.
  - rewrite bool_decide_eq_false_2 by done.
    by rewrite (bool_decide_ext (n ∈ fixed ++ _) (n ∈ omap name_from_bytes (connection_tokens h))) by set_solver.
Qed.

(** What is forwarded: after the removal of the forwarding headers a request
    has no value for any of the fixed hop-by-hop and forwarding headers nor for
    any header its [Connection] headers declare (so a client cannot smuggle an
    [X-Forwarded-For], [X-Real-IP] or [Forwarded] past the proxy), and the
    values of every other header are untouched; the same holds of the response
    for its hop-by-hop headers. *)
Theorem headers_stripped h n :
  get_all (strip_forwarded_request_headers h) n =
    (if bool_decide (n ∈ FORWARDED_REQUEST_HEADERS ++ declared_hop_by_hop h) then [] else get_all h n) /\
  get_all (strip_hop_by_hop_response_headers h) n =
    (if bool_decide (n ∈ HOP_BY_HOP_RESPONSE_HEADERS ++ declared_hop_by_hop h) then [] else get_all h n).
Proof using Laws. split; apply strip_get. Qed.
End stripped.

Lemma headers_stripped_witness :
  let h := [(lit "connection", lit "keep-alive, X-Real-IP"); (lit "x-real-ip", lit "8.8.8.8");
            (lit "accept", lit "*/*")] in
  @get_all AssocHeaders (@strip_forwarded_request_headers AssocHeaders h) (lit "accept") = [lit "*/*"].
Proof.
  intros h. etransitivity; [apply (proj1 (@headers_stripped AssocHeaders AssocHeaders_laws h (lit "accept")))|].
  vm_compute. reflexivity.
Defined.

Section client_ip.
Context {HL : HeaderLib} {NL : IpNetLib}.

(** The addresses that are no client's on the public internet, in numbers: private,
    loopback, link-local, broadcast, documentation and unspecified ones of IPv4, and
    loopback, unspecified, multicast, unique-local and link-local ones of IPv6. *)
Definition reserved_v4 : list (Z * Z) := [
  (v4 10 0 0 0, 8); (v4 172 16 0 0, 12); (v4 192 168 0 0, 16); (v4 127 0 0 0, 8); (v4 169 254 0 0, 16); (v4 255 255 255 255, 32);
  (v4 192 0 2 0, 24); (v4 198 51 100 0, 24); (v4 203 0 113 0, 24); (0, 32)].
Definition reserved_v6 : list (Z * Z) := [(1, 128); (0xff00 * 2 ^ 112, 8); (0, 128); (0xfc00 * 2 ^ 112, 7); (0xfe80 * 2 ^ 112, 10)].
Definition reserved (ip : IpAddr) : Prop :=
  match ip with
  | V4 bits => Exists (fun block => v4_block (fst block) (snd block) bits) reserved_v4
  | V6 bits => Exists (fun block => v6_block (fst block) (snd block) bits) reserved_v6
  end.
Lemma public_exact ip : ip_wf ip -> is_public_client_ip ip = true <-> ~ reserved ip.
Proof.
  destruct ip as [ip|ip]; intros Hip; unfold is_public_client_ip, reserved, reserved_v4, reserved_v6.
  - rewrite !Exists_cons, Exists_nil. cbn [fst snd].
    pose proof (v4_private_blocks ip Hip). pose proof (v4_loopback_block ip Hip). pose proof (v4_link_local_block ip Hip).
    pose proof (v4_broadcast_block ip Hip). pose proof (v4_documentation_blocks ip Hip). pose proof (v4_unspecified_block ip Hip).
    rewrite !andb_true_iff, !negb_true_iff, <- !not_true_iff_false. tauto.
  - rewrite !Exists_cons, Exists_nil. cbn [fst snd].
    pose proof (v6_multicast_block ip Hip). pose proof (v6_unique_local_block ip Hip). pose proof (v6_link_local_block ip Hip).
    assert (v6_is_loopback ip = true <-> v6_block 1 128 ip) by (unfold v6_is_loopback, v6_block; cbn; lia).
    assert (v6_is_unspecified ip = true <-> v6_block 0 128 ip) by (unfold v6_is_unspecified, v6_block; cbn; lia).
    cbv zeta. rewrite !andb_true_iff, !negb_true_iff, !Z.eqb_neq, <- !not_true_iff_false. tauto.
Qed.

Lemma public_only_Some s ip ip' : parse_ip s = Some ip -> public_only ip = Some ip' -> ip_wf ip' /\ ~ reserved ip'.
Proof.
  intros Hs. unfold public_only. destruct (is_public_client_ip ip) eqn:E; intros [= <-]. apply parse_ip_wf in Hs. split; [done|]. by apply public_exact.
Qed.

Lemma parse_forwarded_ip_public v ip : parse_forwarded_ip_value v = Some ip -> ip_wf ip /\ ~ reserved ip.
Proof.
  unfold parse_forwarded_ip_value. destruct (_ || _); [done|].
  destruct (parse_ip _) as [ip0|] eqn:E; [by apply (public_only_Some _ _ _ E)|].
  destruct (rsplit_once _ _) as [[host port]|]; [|done].
  clear E. destruct (parse_ip (trim_matches _ _)) as [ip0|] eqn:E2; [by apply (public_only_Some _ _ _ E2)|done].
Qed.

Lemma header_ip_public h parse name ip :
  (forall v, parse v = Some ip -> ip_wf ip /\ ~ reserved ip) ->
  header_ip h parse name = Some ip -> ip_wf ip /\ ~ reserved ip.
Proof. intros Hp. unfold header_ip. destruct (get_str h name); [apply Hp|done]. Qed.

Lemma forwarded_client_ip_public h ip : forwarded_client_ip h = Some ip -> ip_wf ip /\ ~ reserved ip.
Proof.
  unfold forwarded_client_ip. destruct (find_map _ _) as [ip0|] eqn:E1.
  { intros [= ->]. apply find_map_Some in E1 as (name & _ & Hn).
    eapply header_ip_public; [|exact Hn]. intros v. apply parse_forwarded_ip_public. }
  destruct (header_ip h parse_x_forwarded_for _) as [ip0|] eqn:E2.
  { intros [= ->]. eapply header_ip_public; [|exact E2]. intros v Hv.
    apply find_map_Some in Hv as (x & _ & Hx). by eapply parse_forwarded_ip_public. }
  apply header_ip_public. intros v Hv. apply find_map_Some in Hv as (seg & _ & Hs).
  apply find_map_Some in Hs as (pair & _ & Hp). unfold forwarded_pair in Hp.
  destruct (split_once _ _) as [[name raw]|]; [|done]. destruct (negb _); [done|].
  by eapply parse_forwarded_ip_public.
Qed.

(** C39: The client address cannot be forged from outside the trusted networks:
    a connection with a peer address always has a client address; it is the
    peer's own unless the peer is in a trusted network and the headers name an
    address that is taken, and only then it is that address. The address that is
    taken from a header is never in 10.0.0.0/8, 172.16.0.0/12, 192.168.0.0/16,
    127.0.0.0/8, 169.254.0.0/16, the three documentation blocks, 0.0.0.0 or
    255.255.255.255, and never the IPv6 addresses :: and ::1 or in ff00::/8, fc00::/7
    or fe80::/10. (IPv4 addresses in their IPv6 form, ::ffff:127.0.0.1 for one, are in
    none of these blocks and are taken.) *)
Theorem effective_client_ip_trust h peer cidrs :
  exists ip, resolve_effective_client_ip h (Some peer) cidrs = Some ip /\
    if trusted_peer cidrs peer && bool_decide (is_Some (forwarded_client_ip h))
    then forwarded_client_ip h = Some ip /\ ip_wf ip /\ ~ reserved ip
    else ip = peer.
Proof.
  unfold resolve_effective_client_ip. destruct (trusted_peer cidrs peer); cbn [negb andb].
  - destruct (forwarded_client_ip h) as [ip|] eqn:E; [|by exists peer].
    exists ip. split; [done|]. rewrite bool_decide_eq_true_2 by (by eexists). split; [done|].
    by apply forwarded_client_ip_public in E.
  - by exists peer.
Qed.

(** The leftmost address of [X-Forwarded-For] wins, whatever the proxies append. *)
Lemma x_forwarded_for_leftmost s rest ip :
  chr "," ∉ s -> parse_forwarded_ip_value s = Some ip ->
  parse_x_forwarded_for (s ++ chr "," :: rest) = Some ip.
Proof. intros Hs Hp. unfold parse_x_forwarded_for. rewrite split_app_sep by done. cbn [find_map]. by rewrite Hp. Qed.
End client_ip.

Example client_ip_trusted :
  @resolve_effective_client_ip AssocHeaders CidrLib [(lit "x-forwarded-for", lit "10.0.0.9, 203.0.114.7:99")]
    (Some (V4 (v4 10 0 0 1))) (@trusted_parse CidrLib (lit "10.0.0.0/8")) = Some (V4 (v4 203 0 114 7)).
Proof. vm_compute. reflexivity. Qed.
(** The loopback address of IPv4 in its IPv6 form is taken for a client's. *)
Example mapped_loopback_taken :
  @resolve_effective_client_ip AssocHeaders CidrLib [(lit "x-real-ip", lit "::ffff:127.0.0.1")]
    (Some (V4 (v4 10 0 0 1))) (@trusted_parse CidrLib (lit "10.0.0.0/8")) = Some (V6 (0xffff * 2 ^ 32 + v4 127 0 0 1)) /\
  @resolve_effective_client_ip AssocHeaders CidrLib [(lit "x-real-ip", lit "127.0.0.1")]
    (Some (V4 (v4 10 0 0 1))) (@trusted_parse CidrLib (lit "10.0.0.0/8")) = Some (V4 (v4 10 0 0 1)).
Proof. split; vm_compute; reflexivity. Qed.
