(* ===== verification/HttpSelect.v ===== *)
(** The choice of the upstream of a request ([http-proxy] crate): the pool from
    traffic splits, location routes and the matched path, then sticky sessions,
    circuit breakers, primaries and backups over the load balancer. *)
From stdpp Require Import options.
From S2P Require Import Prelude RustStr RustNum RustNet CommonTypes CommonPath CommonValidate LoadBalancer RouteRegistry HttpLimits HttpMiddleware HttpHeaders.

Local Open Scope Z_scope.

(** ** Sticky sessions *)

(** FNV-1a over the bytes of the URL, on [u64]. *)
Definition fnv1a (s : rstr) : Z :=
  foldl (fun hash b => wrap64 (Z.lxor hash (bz b) * 0x100000001b3)) 0xcbf29ce484222325 s.
Definition sticky_upstream_id (upstream : rstr) : rstr := to_hex (fnv1a upstream).

Definition cookie_value (cookie name : rstr) : option rstr :=
  find_map (fun part =>
    match split_once (chr "=") (trim part) with
    | Some (cookie_name, value) => if cookie_name =s? name then Some value else None
    | None => None
    end) (split (chr ";") cookie).

Definition mirror_should_run (domain uri upstream : rstr) (percent : Z) : bool :=
  if 100 <=? percent then true
  else fnv1a (domain ++ lit ":" ++ uri ++ lit ":" ++ upstream) mod 100 <? percent.

Section sticky.
Context {HL : HeaderLib}.

Definition sticky_upstream (headers : HeaderMap) (upstreams : list Upstream) (sticky : StickySessionConfig)
  : option Upstream :=
  if negb (ss_enabled sticky) then None
  else
    match get_str headers (lit "cookie") with
    | None => None
    | Some cookie =>
      match cookie_value cookie (ss_cookie_name sticky) with
      | None => None
      | Some wanted => List.find (fun u => sticky_upstream_id (u_url u) =s? wanted) upstreams
      end
    end.

Definition sticky_cookie (sticky : StickySessionConfig) (upstream : Upstream) : rstr :=
  ss_cookie_name sticky ++ lit "=" ++ sticky_upstream_id (u_url upstream) ++ lit "; Path=/"
  ++ (if ss_http_only sticky then lit "; HttpOnly" else [])
  ++ (if ss_secure sticky then lit "; Secure" else [])
  ++ (match ss_same_site sticky with Some v => lit "; SameSite=" ++ v | None => [] end)
  ++ (match ss_max_age_seconds sticky with Some v => lit "; Max-Age=" ++ to_dec v | None => [] end).
Definition apply_sticky_cookie (headers : HeaderMap) (sticky : StickySessionConfig) (upstream : Upstream)
  : HeaderMap :=
  if negb (ss_enabled sticky) then headers
  else match value_from_str (sticky_cookie sticky upstream) with
       | Some value => insert_header (lit "set-cookie") value headers
       | None => headers
       end.
End sticky.

Example sticky_id_example : sticky_upstream_id (lit "a") = lit "af63dc4c8601ec8c".
Proof. vm_compute. reflexivity. Qed.

(** ** The pool *)

Definition location_code_matches (actual : option rstr) (configured : list rstr) : bool :=
  match actual with
  | None => false
  | Some actual => existsb (fun code => (code =s? lit "*") || eq_ignore_ascii_case code actual) configured
  end.
Definition location_matches (countries continents : list rstr) (location : GeoLocation) : bool :=
  (is_empty countries || location_code_matches (gl_country_code location) countries) &&
  (is_empty continents || location_code_matches (gl_continent_code location) continents).
Definition location_rule_matches (rule : TrafficSplitRule) (location : GeoLocation) : bool :=
  location_matches (ts_countries rule) (ts_continents rule) location.

Section pool.
Context {NL : IpNetLib}.

Definition location_upstreams (rules : DomainRules) (location : GeoLocation)
  : option (rstr * list Upstream) :=
  find_map (fun rule =>
    if is_empty (lr_upstreams rule) then None
    else if location_matches (lr_countries rule) (lr_continents rule) location
    then Some (default (lit "geo:" ++ join (lit "_") (lr_countries rule) ++ lit ":"
                        ++ join (lit "_") (lr_continents rule)) (lr_name rule),
               lr_upstreams rule)
    else None) (dr_location_routes rules).

Definition matching_traffic_splits (rules : DomainRules) (location : GeoLocation) : list TrafficSplitRule :=
  filter (fun rule => negb (is_empty (ts_upstreams rule)) && location_rule_matches rule location = true)
    (dr_traffic_splits rules).

(** The suffix of the route key and the pool. *)
Definition select_upstream_pool (base_route_key : rstr) (matched : RouteMatch) (location : GeoLocation)
    (lb : LoadBalancer) : LoadBalancer * (rstr * list Upstream) :=
  let rules := r_rules (m_route matched) in
  let otherwise :=
    match location_upstreams rules location with
    | Some (name, ups) => (lit ":location:" ++ name, ups)
    | None => ([], pr_upstreams (m_path matched))
    end in
  let splits := matching_traffic_splits rules location in
  if is_empty splits then (lb, otherwise)
  else
    let '(lb, index) := select_weighted_index (base_route_key ++ lit ":traffic_split")
                          (map ts_weight splits) lb in
    match index with
    | Some index =>
      match splits !! Z.to_nat index with
      | Some split =>
        (lb, (lit ":split:" ++ default (lit "weighted-" ++ to_dec index) (ts_name split), ts_upstreams split))
      | None => (lb, otherwise)
      end
    | None => (lb, otherwise)
    end.
End pool.

(** ** The upstream *)

Section select_upstream.
Context {NL : IpNetLib} {HL : HeaderLib} {DH : DefaultHasher}.

Definition breaker_key (matched : RouteMatch) (u : Upstream) : rstr :=
  Circuit.circuit_key (r_id (m_route matched)) (pr_prefix (m_path matched)) (u_url u).

(** [upstreams.iter().filter(..)]: the circuit is looked at only for healthy
    upstreams of the right kind. *)
Fixpoint filter_available (matched : RouteMatch) (backup : bool) (now : Z) (ups : list Upstream)
    (m : Circuit.Breakers) : Circuit.Breakers * list Upstream :=
  match ups with
  | [] => (m, [])
  | u :: ups' =>
    if Bool.eqb (u_backup u) backup && u_healthy u then
      let '(m, opened) := Circuit.circuit_is_open (breaker_key matched u) now m in
      let '(m, rest) := filter_available matched backup now ups' m in
      (m, if opened then rest else u :: rest)
    else filter_available matched backup now ups' m
  end.

Definition select_primary_or_backup (route_key : rstr) (matched : RouteMatch) (ups : list Upstream)
    (remote_ip : option IpAddr) (now : Z) (lb : LoadBalancer) (m : Circuit.Breakers)
  : LoadBalancer * Circuit.Breakers * option Upstream :=
  let '(m, primary) := filter_available matched false now ups m in
  let '(lb, chosen) := select route_key (r_algorithm (m_route matched)) primary remote_ip lb in
  match chosen with
  | Some u => (lb, m, Some u)
  | None =>
    let '(m, backups) := filter_available matched true now ups m in
    let '(lb, chosen) := select route_key (r_algorithm (m_route matched)) backups remote_ip lb in
    (lb, m, chosen)
  end.

Definition select_available_upstream (route_key : rstr) (matched : RouteMatch) (ups : list Upstream)
    (remote_ip : option IpAddr) (headers : HeaderMap) (middleware : EffectiveMiddleware) (now : Z)
    (lb : LoadBalancer) (m : Circuit.Breakers) : LoadBalancer * Circuit.Breakers * option Upstream :=
  match sticky_upstream headers ups (em_sticky_sessions middleware) with
  | Some u =>
    if u_healthy u then
      let '(m, opened) := Circuit.circuit_is_open (breaker_key matched u) now m in
      if opened then select_primary_or_backup route_key matched ups remote_ip now lb m
      else (lb, m, Some u)
    else select_primary_or_backup route_key matched ups remote_ip now lb m
  | None => select_primary_or_backup route_key matched ups remote_ip now lb m
  end.
End select_upstream.

(** ** Theorems *)

Definition open_now (m : Circuit.Breakers) (k : rstr) (now : Z) : bool :=
  snd (Circuit.circuit_is_open k now m).

(** Probing a circuit changes the answer of no probe at the same instant. *)
Lemma open_now_probe m k k' now : open_now (fst (Circuit.circuit_is_open k now m)) k' now = open_now m k' now.
Proof.
  unfold open_now, Circuit.circuit_is_open. destruct (m !! k) as [b|] eqn:Ek; [|done].
  destruct (Circuit.still_open b now) eqn:E; [done|]. cbn [fst].
  destruct (decide (k = k')) as [<-|Hne].
  2:{ rewrite lookup_insert_ne by done. destruct (m !! k') as [b'|]; [|done].
      by destruct (Circuit.still_open b' now). }
  rewrite lookup_insert_eq, Ek, E. done.
Qed.

Section available.
Context {NL : IpNetLib} {HL : HeaderLib} {DH : DefaultHasher}.

Definition available (matched : RouteMatch) (m : Circuit.Breakers) (now : Z) (u : Upstream) : Prop :=
  u_healthy u = true /\ open_now m (breaker_key matched u) now = false.

Lemma filter_available_spec matched backup now ups : forall m,
  let '(m', l) := filter_available matched backup now ups m in
  (forall k, open_now m' k now = open_now m k now) /\
  forall u, u ∈ l <-> u ∈ ups /\ u_backup u = backup /\ available matched m now u.
Proof.
  induction ups as [|u ups IH]; intros m; cbn [filter_available]; [split; [done|set_solver]|].
  destruct (Bool.eqb (u_backup u) backup && u_healthy u) eqn:E.
  - apply andb_true_iff in E as [Eb Eh]. apply Bool.eqb_prop in Eb.
    pose proof (fun k => open_now_probe m (breaker_key matched u) k now) as Hp.
    assert (snd (Circuit.circuit_is_open (breaker_key matched u) now m) = open_now m (breaker_key matched u) now) as Ho by done.
    destruct (Circuit.circuit_is_open _ now m) as [m1 opened]. cbn [fst snd] in *.
    specialize (IH m1). destruct (filter_available matched backup now ups m1) as [m2 l].
    destruct IH as [Hk Hl]. split; [intros k; by rewrite Hk, Hp|]. intros v.
    assert (available matched m1 now v <-> available matched m now v) as Ha
      by (unfold available; by rewrite Hp).
    destruct opened.
    + rewrite Hl, Ha, elem_of_cons. split; [tauto|]. intros ([->|Hv] & Hb & Hav); [|tauto].
      destruct Hav as [_ Hav]. congruence.
    + rewrite elem_of_cons, Hl, Ha, elem_of_cons. split; [|tauto].
      intros [->|?]; [|tauto]. split; [by left|]. split; [done|]. by split.
  - specialize (IH m). destruct (filter_available matched backup now ups m) as [m2 l].
    destruct IH as [Hk Hl]. split; [done|]. intros v. rewrite Hl, elem_of_cons. split; [tauto|].
    intros ([->|Hv] & Hb & Hav); [|tauto]. destruct Hav as [Hh _].
    rewrite Hb, Hh in E. by destruct backup.
Qed.

Lemma select_ip_hash_none rk l lb : snd (select rk IpHash l None lb) = None.
Proof. unfold select. by destruct (is_empty _). Qed.

(** What the choice between primaries and backups promises. *)
Definition chosen_ok (matched : RouteMatch) (ups : list Upstream) (ip : option IpAddr)
    (m : Circuit.Breakers) (now : Z) (o : option Upstream) : Prop :=
  match o with
  | Some u => u ∈ ups /\ available matched m now u /\
      (u_backup u = true -> forall v, v ∈ ups -> u_backup v = false -> ~ available matched m now v)
  | None => (forall u, u ∈ ups -> ~ available matched m now u) \/
      (r_algorithm (m_route matched) = IpHash /\ ip = None)
  end.

Lemma select_pool rk matched backup ups ip now lb m :
  let '(m', l) := filter_available matched backup now ups m in
  (forall k, open_now m' k now = open_now m k now) /\
  match snd (select rk (r_algorithm (m_route matched)) l ip lb) with
  | Some u => u ∈ ups /\ u_backup u = backup /\ available matched m now u
  | None => (forall u, u ∈ ups -> u_backup u = backup -> ~ available matched m now u) \/
      (r_algorithm (m_route matched) = IpHash /\ ip = None)
  end.
Proof.
  pose proof (filter_available_spec matched backup now ups m) as H.
  destruct (filter_available matched backup now ups m) as [m' l]. destruct H as [Hk Hl].
  split; [done|]. pose proof (select_spec rk (r_algorithm (m_route matched)) l ip lb) as Hs.
  destruct (snd (select _ _ _ _ _)) as [u|]; [apply Hl, Hs|].
  destruct Hs as [Hs|Hs]; [left|by right]. intros u Hu Hb Ha.
  specialize (Hs u (proj2 (Hl u) (conj Hu (conj Hb Ha)))). destruct Ha. congruence.
Qed.

Lemma select_primary_or_backup_ok rk matched ups ip now lb m :
  chosen_ok matched ups ip m now (snd (select_primary_or_backup rk matched ups ip now lb m)).
Proof.
  unfold select_primary_or_backup. pose proof (select_pool rk matched false ups ip now lb m) as H1.
  destruct (filter_available matched false now ups m) as [m1 l1]. destruct H1 as [Hk1 H1].
  destruct (select rk _ l1 ip lb) as [lb1 [u|]]; cbn [snd] in *.
  { destruct H1 as (? & Hb & ?). split; [done|]. split; [done|]. congruence. }
  pose proof (select_pool rk matched true ups ip now lb1 m1) as H2.
  destruct (filter_available matched true now ups m1) as [m2 l2]. destruct H2 as [_ H2].
  destruct (select rk _ l2 ip lb1) as [lb2 o] eqn:Es. cbn [snd] in *.
  assert (forall u, available matched m1 now u <-> available matched m now u) as Ha
    by (intros u; unfold available; by rewrite Hk1).
  destruct o as [u|]; cbn [chosen_ok].
  - destruct H2 as (Hu & Hb & Hav). split; [done|]. split; [by apply Ha|]. intros _ v Hv Hvb.
    destruct H1 as [H1|[E1 E2]]; [by apply H1|].
    exfalso. pose proof (select_ip_hash_none rk l2 lb1) as Hn. rewrite <- E1, <- E2 in Hn.
    by rewrite Es in Hn.
  - destruct H1 as [H1|H1]; [|by right]. destruct H2 as [H2|H2]; [|by right]. left.
    intros u Hu Hav. destruct (u_backup u) eqn:Eb; [|by apply (H1 u)]. apply (H2 u); [done|done|by apply Ha].
Qed.

Lemma sticky_upstream_in headers ups sticky u : sticky_upstream headers ups sticky = Some u -> u ∈ ups.
Proof.
  unfold sticky_upstream. destruct (negb _); [done|]. destruct (get_str _ _) as [c|]; [|done].
  destruct (cookie_value _ _) as [w|]; [|done]. intros H. apply find_some in H as [H _].
  by apply list_elem_of_In.
Qed.

Lemma available_upstream_spec rk matched ups ip headers mw now lb m :
  match snd (select_available_upstream rk matched ups ip headers mw now lb m) with
  | Some u => u ∈ ups /\ available matched m now u /\
      (u_backup u = true ->
       sticky_upstream headers ups (em_sticky_sessions mw) = Some u \/
       forall v, v ∈ ups -> u_backup v = false -> ~ available matched m now v)
  | None => (forall u, u ∈ ups -> ~ available matched m now u) \/
      (r_algorithm (m_route matched) = IpHash /\ ip = None)
  end.
Proof.
  assert (forall m', (forall k, open_now m' k now = open_now m k now) ->
    chosen_ok matched ups ip m now (snd (select_primary_or_backup rk matched ups ip now lb m'))) as Hrest.
  { intros m' Hm. pose proof (select_primary_or_backup_ok rk matched ups ip now lb m') as H.
    assert (forall u, available matched m' now u <-> available matched m now u) as Ha
      by (intros u; unfold available; by rewrite Hm).
    revert H. generalize (snd (select_primary_or_backup rk matched ups ip now lb m')).
    intros [u|]; cbn [chosen_ok]; by setoid_rewrite Ha. }
  assert (forall o, chosen_ok matched ups ip m now o -> match o with
    | Some u => u ∈ ups /\ available matched m now u /\
        (u_backup u = true -> sticky_upstream headers ups (em_sticky_sessions mw) = Some u \/
         forall v, v ∈ ups -> u_backup v = false -> ~ available matched m now v)
    | None => (forall u, u ∈ ups -> ~ available matched m now u) \/
        (r_algorithm (m_route matched) = IpHash /\ ip = None)
    end) as Hweak.
  { intros [u|]; cbn [chosen_ok]; [|done]. intros (? & ? & H). split; [done|]. split; [done|].
    intros Hb. right. by apply H. }
  unfold select_available_upstream.
  destruct (sticky_upstream headers ups _) as [u|] eqn:Es; [|apply Hweak; by apply Hrest].
  destruct (u_healthy u) eqn:Eh; [|apply Hweak; by apply Hrest].
  pose proof (fun k => open_now_probe m (breaker_key matched u) k now) as Hp.
  assert (snd (Circuit.circuit_is_open (breaker_key matched u) now m)
          = open_now m (breaker_key matched u) now) as Ho by done.
  destruct (Circuit.circuit_is_open _ now m) as [m1 opened]. cbn [fst snd] in *.
  destruct opened; [apply Hweak; by apply Hrest|]. cbn [snd].
  apply sticky_upstream_in in Es as Hin. split; [done|]. split; [by split|]. by left.
Qed.

Lemma available_upstream_in rk matched ups ip headers mw now lb m u :
  snd (select_available_upstream rk matched ups ip headers mw now lb m) = Some u -> u ∈ ups.
Proof.
  intros H. pose proof (available_upstream_spec rk matched ups ip headers mw now lb m) as Hs.
  rewrite H in Hs. apply Hs.
Qed.

(** The upstream of a request: whatever the algorithm, the cookie and the
    state of the breakers, the upstream chosen is one of the pool, healthy and
    with its circuit closed at that instant.  A backup is chosen only when no
    primary is available, or when the sticky cookie names it; and none is
    chosen only when none is available (or [ip_hash] has no client address). *)
Theorem available_upstream_contract rk matched ups ip headers mw now lb m :
  match snd (select_available_upstream rk matched ups ip headers mw now lb m) with
  | Some u => u ∈ ups /\ available matched m now u /\
      (u_backup u = true ->
       sticky_upstream headers ups (em_sticky_sessions mw) = Some u \/
       forall v, v ∈ ups -> u_backup v = false -> ~ available matched m now v)
  | None => (forall u, u ∈ ups -> ~ available matched m now u) \/
      (r_algorithm (m_route matched) = IpHash /\ ip = None)
  end.
Proof. apply available_upstream_spec. Qed.
End available.

(** ** Composition: from the registry to the upstream *)

Section composition.
Context {NL : IpNetLib} {UL : UrlLib} {HL : HeaderLib} {DH : DefaultHasher}.

(** The upstreams a match can lead to, by where they come from. *)
Lemma pool_source base matched loc lb u :
  u ∈ snd (snd (select_upstream_pool base matched loc lb)) ->
  u ∈ pr_upstreams (m_path matched) \/
  u ∈ flat_map lr_upstreams (dr_location_routes (r_rules (m_route matched))) \/
  u ∈ flat_map ts_upstreams (dr_traffic_splits (r_rules (m_route matched))).
Proof.
  set (rules := r_rules (m_route matched)). unfold select_upstream_pool. fold rules.
  set (other := match location_upstreams rules loc with Some _ => _ | None => _ end).
  assert (u ∈ snd other -> u ∈ pr_upstreams (m_path matched) \/
          u ∈ flat_map lr_upstreams (dr_location_routes rules)) as Hother.
  { unfold other. destruct (location_upstreams rules loc) as [[name ups]|] eqn:E; [|by left].
    cbn [snd]. intros Hu. right. apply find_map_Some in E as (rule & Hrule & E).
    destruct (is_empty _); [done|]. destruct (location_matches _ _ _); [|done]. injection E as _ <-.
    apply list_elem_of_In, in_flat_map. exists rule. by rewrite <- !list_elem_of_In. }
  destruct (is_empty (matching_traffic_splits rules loc)); [intros H; apply Hother in H; tauto|].
  destruct (select_weighted_index _ _ lb) as [lb' [i|]]; [|intros H; apply Hother in H; tauto].
  destruct (matching_traffic_splits rules loc !! Z.to_nat i) as [split|] eqn:E;
    [|intros H; apply Hother in H; tauto].
  cbn [snd]. intros Hu. right; right. apply list_elem_of_lookup_2, list_elem_of_filter in E as [_ E].
  apply list_elem_of_In, in_flat_map. exists split. by rewrite <- !list_elem_of_In.
Qed.

(** The choice of pool and upstream, the way a request makes it. *)
Definition choose_upstream (base : rstr) (matched : RouteMatch) (loc : GeoLocation) (ip : option IpAddr)
    (headers : HeaderMap) (mw : EffectiveMiddleware) (now : Z) (lb : LoadBalancer) (m : Circuit.Breakers)
  : LoadBalancer * Circuit.Breakers * option Upstream :=
  let '(lb, (suffix, ups)) := select_upstream_pool base matched loc lb in
  select_available_upstream (base ++ suffix) matched ups ip headers mw now lb m.

(** The blocks of IPv4 that are refused as upstreams: private, loopback, link-local,
    multicast, broadcast and unspecified. *)
Definition refused_blocks : list (Z * Z) := [
  (v4 10 0 0 0, 8); (v4 172 16 0 0, 12); (v4 192 168 0 0, 16); (v4 127 0 0 0, 8); (v4 169 254 0 0, 16); (v4 224 0 0 0, 4);
  (v4 255 255 255 255, 32); (0, 32)].
Lemma allowed_not_refused bits : 0 <= bits < 2 ^ 32 -> ip_allowed_for_upstream (V4 bits) = true ->
  Forall (fun block => ~ v4_block (fst block) (snd block) bits) refused_blocks.
Proof.
  intros Hip H. unfold ip_allowed_for_upstream in H. rewrite negb_true_iff, !orb_false_iff, <- !not_true_iff_false in H.
  pose proof (v4_private_blocks bits Hip). pose proof (v4_loopback_block bits Hip). pose proof (v4_link_local_block bits Hip).
  pose proof (v4_multicast_block bits Hip). pose proof (v4_broadcast_block bits Hip). pose proof (v4_unspecified_block bits Hip).
  unfold refused_blocks. rewrite !Forall_cons, Forall_nil. cbn [fst snd]. tauto.
Qed.

(** C34: No request leaves for an address the validation refuses: if every route
    of the table passed [validate_for_runtime], then for every host, path,
    client location, cookie and state of the balancer and breakers, the
    upstream chosen for the match has a safe URL: http(s), no credentials, not
    [localhost]; and unless the operator sets [PXXL_ALLOW_PRIVATE_UPSTREAMS], a host
    that is an IPv4 address is not in 10.0.0.0/8, 172.16.0.0/12, 192.168.0.0/16,
    127.0.0.0/8, 169.254.0.0/16 or 224.0.0.0/4, nor 0.0.0.0 or 255.255.255.255.
    Merging of routes, traffic splits and location routes included. Not so for IPv6:
    a URL has such a host in brackets, with which the check does not read it as an
    address, and lets it pass. *)
Theorem chosen_upstream_safe env t host path matched base loc ip headers mw now lb m u :
  table_wf t -> Forall (fun r => validate_for_runtime env r = Ok tt) (snapshot t) ->
  find t host path = Some matched ->
  snd (choose_upstream base matched loc ip headers mw now lb m) = Some u ->
  safe_url env (u_url u) /\
  (private_upstreams_allowed env = false -> forall parsed host bits,
     url_parse (u_url u) = Ok parsed -> url_host_str parsed = Some host -> parse_ip (upstream_host host) = Some (V4 bits) ->
     Forall (fun block => ~ v4_block (fst block) (snd block) bits) refused_blocks).
Proof.
  intros Hwf Hval Hfind Hu. enough (safe_url env (u_url u)) as Hs.
  { split; [done|]. intros Hoff parsed hs bits Hp Hh Hip. destruct Hs as [_ _ (parsed' & host' & Hp' & _ & _ & _ & _ & Hh' & _ & _ & Hall)].
    assert (parsed' = parsed) as -> by congruence. assert (host' = hs) as -> by congruence.
    destruct (Hall _ Hip) as [?|Ha]; [congruence|]. apply allowed_not_refused; [exact (parse_ip_wf _ _ Hip)|done]. }
  assert (forall r v, r ∈ snapshot t -> v ∈ all_upstreams r -> safe_url env (u_url v)) as Hsafe.
  { intros r v Hr Hv. rewrite Forall_forall in Hval.
    pose proof (rv_upstreams _ _ (validate_for_runtime_valid env r (Hval r Hr))) as H.
    rewrite Forall_forall in H. by apply H. }
  destruct (find_sources t host path matched Hwf Hfind) as [(r & Hr & Hrules) Hurls].
  unfold choose_upstream in Hu. pose proof (pool_source base matched loc lb u) as Hpool.
  destruct (select_upstream_pool base matched loc lb) as [lb' [suffix ups]]. cbn [snd] in Hpool.
  pose proof (available_upstream_in (base ++ suffix) matched ups ip headers mw now lb' m u Hu) as Hin.
  destruct (Hpool Hin) as [H|[H|H]].
  - destruct (Hurls (u_url u)) as (r' & p & Hr' & Hp & Hpu); [by apply list_elem_of_fmap_2|].
    apply list_elem_of_fmap in Hpu as (v & -> & Hv). apply (Hsafe r'); [done|].
    unfold all_upstreams. apply elem_of_app. left. apply list_elem_of_In, in_flat_map. exists p.
    by rewrite <- !list_elem_of_In.
  - rewrite Hrules in H. apply (Hsafe r); [done|]. unfold all_upstreams. rewrite !elem_of_app. tauto.
  - rewrite Hrules in H. apply (Hsafe r); [done|]. unfold all_upstreams. rewrite !elem_of_app. tauto.
Qed.
End composition.

Definition is_some {A} (o : option A) : bool := match o with Some _ => true | None => false end.
Lemma default_is_Some {A} (d : A) o : is_some o = true -> o = Some (default d o).
Proof. by destruct o. Qed.

Definition public_route : @Route CidrLib :=
  @Route_new CidrLib (lit "id") 0 (lit "Example.com")
    [PathRoute_new (lit "/api/") [Upstream_new (lit "http://93.184.216.34:3000")]] Api.
Definition example_match : @RouteMatch CidrLib :=
  default {| m_route := public_route; m_path := PathRoute_new [] [] |}
    (find (Registry_new [public_route]) (r_domain public_route) (lit "/api/x")).
Definition example_choice : option Upstream :=
  snd (@choose_upstream CidrLib AssocHeaders PolyHasher (lit "key") example_match GeoLocation_unknown
         (Some (V4 1)) [] (middleware_of_rules (r_rules public_route)) 5 LoadBalancer_new ∅).

Lemma chosen_upstream_safe_witness :
  example_choice = Some (Upstream_new (lit "http://93.184.216.34:3000")) /\
  @safe_url SimpleUrlLib (fun _ => None) (lit "http://93.184.216.34:3000") /\
  Forall (fun block => ~ v4_block (fst block) (snd block) (v4 93 184 216 34)) refused_blocks.
Proof.
  assert (example_choice = Some (Upstream_new (lit "http://93.184.216.34:3000"))) as Hu by (vm_compute; reflexivity).
  split; [exact Hu|].
  destruct (@chosen_upstream_safe CidrLib SimpleUrlLib AssocHeaders PolyHasher (fun _ => None)
    (Registry_new [public_route]) (r_domain public_route) (lit "/api/x") example_match (lit "key")
    GeoLocation_unknown (Some (V4 1)) [] (middleware_of_rules (r_rules public_route)) 5 LoadBalancer_new ∅
    (Upstream_new (lit "http://93.184.216.34:3000"))) as [H1 H2].
  - apply RouteTable_new_wf.
  - assert (snapshot (Registry_new [public_route]) = [public_route]) as E
      by (apply dedupe_id, NoDup_singleton).
    rewrite E.
    apply Forall_singleton. vm_compute. reflexivity.
  - apply default_is_Some. vm_compute. reflexivity.
  - exact Hu.
  - split; [exact H1|]. eapply H2; [reflexivity|vm_compute; reflexivity..].
Defined.
