(* ===== verification/HttpAuth.v ===== *)
(** Basic and digest authentication of the [http-proxy] crate: the signed
    nonces with their lifetime, the verification of a digest response and the
    replay table.  SHA-256 and base64 come from other crates and are parameters
    ([CryptoLib]).  A call reads the wall clock (milliseconds) and the
    monotonic clock (nanoseconds). *)
From stdpp Require Import options.
From S2P Require Import Prelude RustStr RustNum RustNet CommonTypes HttpHeaders.

Local Open Scope Z_scope.

Definition DIGEST_NONCE_TTL_MS : Z := 5 * 60 * 1000.
Definition DIGEST_NONCE_CLOCK_SKEW_MS : Z := 30 * 1000.
Definition DIGEST_REPLAY_EVICT_AT : Z := 100000.

Class CryptoLib := {
  sha256_hex : rstr -> rstr;
  base64_decode : rstr -> option rstr;
}.
(** A SHA-256 value in hexadecimal has 64 characters. *)
Class CryptoLaws (CL : CryptoLib) : Prop := {
  sha256_hex_length : forall s, length (sha256_hex s) = 64%nat;
}.

(** Not a hash, but enough for examples: the sum of the bytes. *)
Definition SumCrypto : CryptoLib := {|
  sha256_hex s := zero_pad 64 (take 64 (to_hex (foldl (fun a b => (a * 31 + bz b) mod 2 ^ 64) 7 s)));
  base64_decode s := Some s |}.
#[export] Instance SumCrypto_laws : CryptoLaws SumCrypto.
Proof.
  split. intros s. cbn [sha256_hex SumCrypto]. unfold zero_pad.
  rewrite length_app, repeat_length, length_take. lia.
Qed.

Definition constant_time_str_eq (l r : rstr) : bool :=
  if negb (length l =? length r)%nat then false
  else foldl (fun acc lr => Z.lor acc (Z.lxor (bz (fst lr)) (bz (snd lr)))) 0 (zip l r) =? 0.

Definition valid_digest_nc (value : rstr) : bool :=
  (str_len value =? 8) && forallb is_ascii_hexdigit value.

(** [collect::<HashMap<_, _>>()]: the last value of a key stays. *)
Definition digest_param (part : rstr) : option (rstr * rstr) :=
  match split_once (chr "=") (trim part) with
  | Some (key, value) => Some (to_ascii_lowercase (trim key), trim_matches quote (trim value))
  | None => None
  end.
Definition parse_digest_authorization (value : rstr) : gmap rstr rstr :=
  foldl (fun m kv => <[fst kv := snd kv]> m) ∅ (omap digest_param (split (chr ",") value)).

Section auth.
Context {CL : CryptoLib}.

(** ** Nonces *)

Definition digest_nonce_signature (secret realm timestamp_hex : rstr) : rstr :=
  sha256_hex (secret ++ lit ":" ++ realm ++ lit ":" ++ timestamp_hex).
Definition digest_nonce (secret realm : rstr) (timestamp_unix_ms : Z) : rstr :=
  let timestamp_hex := to_hex timestamp_unix_ms in
  timestamp_hex ++ lit "." ++ digest_nonce_signature secret realm timestamp_hex.
Definition digest_nonce_is_valid (secret realm nonce : rstr) (now_unix_ms : Z) : bool :=
  match split_once (chr ".") nonce with
  | None => false
  | Some (timestamp_hex, signature) =>
    if is_empty timestamp_hex || is_empty signature then false
    else
      match from_str_radix 16 U64_MAX timestamp_hex with
      | None => false
      | Some timestamp_unix_ms =>
        if saturating_add64 now_unix_ms DIGEST_NONCE_CLOCK_SKEW_MS <? timestamp_unix_ms then false
        else if DIGEST_NONCE_TTL_MS <? saturating_sub now_unix_ms timestamp_unix_ms then false
        else constant_time_str_eq (digest_nonce_signature secret realm timestamp_hex) signature
      end
  end.

(** ** Digest responses *)

(** [DashMap<String, Instant>]: the instant an entry expires. *)
Definition prune_digest_replays (now : Z) (replays : gmap rstr Z) : gmap rstr Z :=
  if Z.of_nat (size replays) <? DIGEST_REPLAY_EVICT_AT then replays
  else filter (fun kv => now < snd kv) replays.

Record DigestAuthCheck := {
  dc_method : rstr;
  dc_realm : rstr;
  dc_users : gmap rstr rstr;
  dc_params : gmap rstr rstr;
  dc_actual_uri : rstr;
  dc_secret : rstr;
}.

(** What the checks of [digest_authorized] before the replay table establish:
    the user name, nonce, nc and cnonce of the response. *)
Definition digest_verified (check : DigestAuthCheck) (now_unix_ms : Z) : option (rstr * rstr * rstr * rstr * rstr) :=
  let param k := dc_params check !! lit k in
  match param "username" with
  | None => None
  | Some username =>
  match dc_users check !! username with
  | None => None
  | Some password =>
  if match param "realm" with Some v => negb (v =s? dc_realm check) | None => false end then None else
  match param "nonce" with
  | None => None
  | Some nonce =>
  if negb (digest_nonce_is_valid (dc_secret check) (dc_realm check) nonce now_unix_ms) then None else
  match param "uri" with
  | None => None
  | Some uri =>
  if negb (uri =s? dc_actual_uri check) then None else
  if match param "algorithm" with
     | Some a => negb (eq_ignore_ascii_case a (lit "SHA-256")) | None => false end then None else
  match param "qop" with
  | None => None
  | Some qop =>
  if negb (eq_ignore_ascii_case qop (lit "auth")) then None else
  match param "nc" with
  | None => None
  | Some nc =>
  if negb (valid_digest_nc nc) then None else
  match param "cnonce" with
  | None => None
  | Some cnonce =>
  if is_empty cnonce then None else
  match param "response" with
  | None => None
  | Some response =>
    let ha1 := sha256_hex (username ++ lit ":" ++ dc_realm check ++ lit ":" ++ password) in
    let ha2 := sha256_hex (dc_method check ++ lit ":" ++ uri) in
    let expected := sha256_hex (ha1 ++ lit ":" ++ nonce ++ lit ":" ++ nc ++ lit ":" ++ cnonce
                                ++ lit ":" ++ qop ++ lit ":" ++ ha2) in
    if negb (constant_time_str_eq expected response) then None
    else Some (username, nonce, nc, cnonce, uri)
  end end end end end end end end.

Definition replay_key (p : rstr * rstr * rstr * rstr * rstr) : rstr :=
  let '(username, nonce, nc, cnonce, uri) := p in
  username ++ lit ":" ++ nonce ++ lit ":" ++ nc ++ lit ":" ++ cnonce ++ lit ":" ++ uri.

Definition digest_authorized (check : DigestAuthCheck) (now_unix_ms now : Z) (replays : gmap rstr Z)
  : gmap rstr Z * bool :=
  match digest_verified check now_unix_ms with
  | None => (replays, false)
  | Some p =>
    let replays := prune_digest_replays now replays in
    (<[replay_key p := now + from_millis DIGEST_NONCE_TTL_MS]> replays,
     bool_decide (replays !! replay_key p = None))
  end.

Definition digest_request_uri (query : option rstr) (canonical_path : rstr) : rstr :=
  match query with
  | Some q => if is_empty q then canonical_path else canonical_path ++ lit "?" ++ q
  | None => canonical_path
  end.

(** ** The handlers: is the request authorized?  A refusal answers 401 with a
    challenge, which for digest carries a fresh nonce. *)

Context {HL : HeaderLib}.

Definition basic_authorized (headers : HeaderMap) (config : BasicAuthConfig) : bool :=
  match get_str headers (lit "authorization") with
  | None => false
  | Some value =>
    match strip_prefix (lit "Basic ") value with
    | None => false
    | Some encoded =>
      match base64_decode (trim encoded) with
      | None => false
      | Some decoded =>
        if negb (valid_utf8 decoded) then false
        else match split_once (chr ":") decoded with
             | None => false
             | Some (user, pass) =>
               match ba_users config !! user with
               | Some expected => expected =s? pass
               | None => false
               end
             end
      end
    end
  end.
(** [None]: let through; [Some challenge]: 401 with this [WWW-Authenticate]. *)
Definition evaluate_basic_auth (headers : HeaderMap) (config : BasicAuthConfig) : option rstr :=
  if negb (ba_enabled config) then None
  else if basic_authorized headers config then None
  else Some (lit "Basic realm=" ++ [quote] ++ ba_realm config ++ [quote]).

Definition evaluate_digest_auth (headers : HeaderMap) (method : rstr) (query : option rstr) (path : rstr)
    (config : DigestAuthConfig) (secret : rstr) (now_unix_ms now : Z) (replays : gmap rstr Z)
  : gmap rstr Z * option rstr :=
  if negb (da_enabled config) then (replays, None)
  else
    let '(replays, authorized) :=
      match get_str headers (lit "authorization") with
      | None => (replays, false)
      | Some value =>
        match strip_prefix (lit "Digest ") value with
        | None => (replays, false)
        | Some v =>
          digest_authorized {| dc_method := method; dc_realm := da_realm config; dc_users := da_users config;
                               dc_params := parse_digest_authorization v;
                               dc_actual_uri := digest_request_uri query path; dc_secret := secret |}
            now_unix_ms now replays
        end
      end in
    if authorized then (replays, None)
    else (replays, Some (lit "Digest realm=" ++ [quote] ++ da_realm config ++ [quote] ++ lit ", qop="
            ++ [quote] ++ lit "auth" ++ [quote] ++ lit ", algorithm=SHA-256, nonce=" ++ [quote]
            ++ digest_nonce secret (da_realm config) now_unix_ms ++ [quote])).
End auth.

(** ** Theorems *)

Lemma fold_lor_zero {A} (f : A -> Z) l a :
  foldl (fun acc x => Z.lor acc (f x)) a l = 0 <-> a = 0 /\ Forall (fun x => f x = 0) l.
Proof.
  revert a. induction l as [|x l IH]; intros a; cbn [foldl]; [by intuition|].
  rewrite IH, Z.lor_eq_0_iff, Forall_cons. tauto.
Qed.

Lemma constant_time_str_eq_spec l r : constant_time_str_eq l r = true <-> l = r.
Proof.
  unfold constant_time_str_eq. destruct (length l =? length r)%nat eqn:E; cbn [negb].
  2:{ split; [done|]. intros ->. by rewrite Nat.eqb_refl in E. }
  apply Nat.eqb_eq in E. rewrite Z.eqb_eq, fold_lor_zero. revert r E.
  induction l as [|x l IH]; intros [|y r] E; try done. cbn [zip_with]. rewrite Forall_cons.
  injection E as E. specialize (IH r E). cbn [fst snd]. rewrite Z.lxor_eq_0_iff. split.
  - intros (_ & Hxy & H). rewrite <- (byte_of_bz x), Hxy, byte_of_bz. f_equal. by apply IH.
  - intros [= -> ->]. split; [done|]. split; [done|]. by apply IH.
Qed.

Section nonces.
Context {CL : CryptoLib} {Laws : CryptoLaws CL}.

Lemma hex_no_dot n : 0 <= n <= U64_MAX -> chr "." ∉ to_hex n.
Proof.
  intros Hn Hin. destruct (to_hex_roundtrip U64_MAX n Hn) as (_ & _ & H); [unfold U64_MAX in *; lia|].
  rewrite Forall_forall in H. destruct (H _ Hin) as (d & Hd & E).
  pose proof (digit_char_value d ltac:(lia)) as Hv. rewrite <- E in Hv. discriminate Hv.
Qed.

Lemma digest_nonce_split secret realm ts :
  0 <= ts <= U64_MAX ->
  split_once (chr ".") (digest_nonce secret realm ts)
  = Some (to_hex ts, digest_nonce_signature secret realm (to_hex ts)).
Proof. intros Hts. apply split_once_Some. split; [done|]. by apply hex_no_dot. Qed.

(** Digest nonces: a nonce the server made is valid from 30 seconds before
    its timestamp to five minutes after it and at no other time; and whatever
    is accepted as a nonce is a timestamp of that period followed by the
    server's signature of it, so that no other nonce can be made up without the
    secret. *)
Theorem digest_nonce_exact secret realm ts now nonce :
  0 <= ts <= U64_MAX -> 0 <= now ->
  (digest_nonce_is_valid secret realm (digest_nonce secret realm ts) now = true <->
   ts <= saturating_add64 now DIGEST_NONCE_CLOCK_SKEW_MS /\ now <= ts + DIGEST_NONCE_TTL_MS) /\
  (digest_nonce_is_valid secret realm nonce now = true ->
   exists hex t, nonce = hex ++ lit "." ++ digest_nonce_signature secret realm hex /\
     from_str_radix 16 U64_MAX hex = Some t /\
     t <= saturating_add64 now DIGEST_NONCE_CLOCK_SKEW_MS /\ now <= t + DIGEST_NONCE_TTL_MS).
Proof using Laws.
  intros Hts Hnow. unfold digest_nonce_is_valid. split.
  - rewrite digest_nonce_split by done.
    destruct (to_hex_roundtrip U64_MAX ts Hts) as (Hparse & Hne & _); [unfold U64_MAX in *; lia|].
    assert (is_empty (to_hex ts) = false) as -> by (by destruct (to_hex ts)).
    assert (is_empty (digest_nonce_signature secret realm (to_hex ts)) = false) as ->.
    { unfold digest_nonce_signature. set (s := secret ++ _). pose proof (sha256_hex_length s) as H.
      destruct (sha256_hex s); [discriminate H|done]. }
    cbn [orb]. rewrite Hparse. rewrite (proj2 (constant_time_str_eq_spec _ _) eq_refl).
    unfold saturating_sub, DIGEST_NONCE_TTL_MS.
    destruct (_ <? ts) eqn:E1; [bools; split; [done|lia]|].
    destruct (_ <? Z.max _ _) eqn:E2; bools; split; [done|lia|lia|done].
  - destruct (split_once (chr ".") nonce) as [[hex sig]|] eqn:Es; [|done].
    destruct (_ || _); [done|]. destruct (from_str_radix 16 U64_MAX hex) as [t|] eqn:Et; [|done].
    destruct (_ <? t) eqn:E1; [done|]. destruct (_ <? saturating_sub now t) eqn:E2; [done|].
    rewrite constant_time_str_eq_spec. intros <-. apply split_once_Some in Es as [-> _].
    exists hex, t. split; [done|]. split; [done|]. unfold saturating_sub, DIGEST_NONCE_TTL_MS in *. bools. lia.
Qed.
End nonces.

Lemma digest_nonce_exact_witness :
  @digest_nonce_is_valid SumCrypto (lit "k") (lit "r") (@digest_nonce SumCrypto (lit "k") (lit "r") 1000) 1500 = true.
Proof.
  apply (@digest_nonce_exact SumCrypto SumCrypto_laws (lit "k") (lit "r") 1000 1500 []); [by vm_compute|lia|].
  split; by vm_compute.
Defined.

(** *** Replays *)

Section replays.
Context {CL : CryptoLib}.

(** An attempt with the two clock readings; the table after a sequence of attempts. *)
Record attempt := { at_check : DigestAuthCheck; at_unix_ms : Z; at_now : Z }.
Definition authorize (a : attempt) (replays : gmap rstr Z) : gmap rstr Z * bool :=
  digest_authorized (at_check a) (at_unix_ms a) (at_now a) replays.
Definition attempts (l : list attempt) (replays : gmap rstr Z) : gmap rstr Z :=
  foldl (fun r a => fst (authorize a r)) replays l.

Definition remembered (k : rstr) (until : Z) (replays : gmap rstr Z) : Prop :=
  exists e, replays !! k = Some e /\ until <= e.

Lemma prune_remembered k until now replays :
  now < until -> remembered k until replays -> remembered k until (prune_digest_replays now replays).
Proof.
  intros Hn (e & He & Hle). exists e. split; [|done]. unfold prune_digest_replays.
  destruct (_ <? _); [done|]. apply map_lookup_filter_Some. split; [done|]. simpl. lia.
Qed.

Lemma authorize_remembered k t0 a replays :
  t0 <= at_now a < t0 + from_millis DIGEST_NONCE_TTL_MS ->
  remembered k (t0 + from_millis DIGEST_NONCE_TTL_MS) replays ->
  remembered k (t0 + from_millis DIGEST_NONCE_TTL_MS) (fst (authorize a replays)).
Proof.
  intros Ht Hr. unfold authorize, digest_authorized. destruct (digest_verified _ _) as [p|]; [|done].
  cbn [fst]. destruct (decide (replay_key p = k)) as [->|Hne].
  - eexists. rewrite lookup_insert_eq. split; [done|]. lia.
  - destruct (prune_remembered k _ (at_now a) replays (proj2 Ht) Hr) as (e & He & Hle).
    exists e. by rewrite lookup_insert_ne.
Qed.

(** C40: A digest response is accepted at most once in five minutes: after an
    attempt with a verified response, accepted or not, no attempt with the same
    user, nonce, nc, cnonce and uri is accepted in the next five minutes of the
    monotonic clock, whatever other attempts come between and however often
    the replay table is pruned.  (The nonce itself is dead five minutes after
    it was made.) *)
Theorem digest_no_replay first mid second p p' replays :
  digest_verified (at_check first) (at_unix_ms first) = Some p ->
  digest_verified (at_check second) (at_unix_ms second) = Some p' ->
  replay_key p' = replay_key p ->
  Forall (fun a => at_now first <= at_now a <= at_now second) mid -> at_now first <= at_now second ->
  at_now second < at_now first + from_millis DIGEST_NONCE_TTL_MS ->
  snd (authorize second (attempts mid (fst (authorize first replays)))) = false.
Proof.
  intros Hp Hp' Hk Hmid Hle Hlt. set (until := at_now first + from_millis DIGEST_NONCE_TTL_MS) in *.
  assert (remembered (replay_key p) until (attempts mid (fst (authorize first replays)))) as H.
  { assert (remembered (replay_key p) until (fst (authorize first replays))) as H0.
    { unfold authorize, digest_authorized. rewrite Hp. eexists. cbn [fst]. rewrite lookup_insert_eq.
      split; [done|]. unfold until. lia. }
    unfold attempts. revert H0. generalize (fst (authorize first replays)).
    induction mid as [|a mid IH]; intros r Hr; [done|]. apply Forall_cons in Hmid as [Ha Hmid].
    cbn [foldl]. apply IH; [done|]. apply authorize_remembered; [|done]. unfold until in *. lia. }
  apply (prune_remembered _ _ (at_now second)) in H as (e & He & _); [|done].
  set (r := attempts mid _) in *. clearbody r. unfold authorize, digest_authorized. rewrite Hp'. cbn [snd].
  rewrite Hk.
  apply bool_decide_eq_false. rewrite He. done.
Qed.
End replays.

(** A response a client computes for the nonce of timestamp 1000. *)
Definition example_params : gmap rstr rstr :=
  let h := @sha256_hex SumCrypto in
  let nonce := @digest_nonce SumCrypto (lit "k") (lit "r") 1000 in
  list_to_map [(lit "username", lit "u"); (lit "nonce", nonce); (lit "uri", lit "/"); (lit "qop", lit "auth");
    (lit "nc", lit "00000001"); (lit "cnonce", lit "c");
    (lit "response", h (h (lit "u:r:pw") ++ lit ":" ++ nonce ++ lit ":00000001:c:auth:" ++ h (lit "GET:/")))].
Definition example_attempt (now : Z) : attempt := {|
  at_check := {| dc_method := lit "GET"; dc_realm := lit "r"; dc_users := {[ lit "u" := lit "pw" ]};
                 dc_params := example_params; dc_actual_uri := lit "/"; dc_secret := lit "k" |};
  at_unix_ms := 1500; at_now := now |}.

Lemma digest_no_replay_witness :
  snd (@authorize SumCrypto (example_attempt 5) ∅) = true /\
  snd (@authorize SumCrypto (example_attempt 9)
         (@attempts SumCrypto [] (fst (@authorize SumCrypto (example_attempt 5) ∅)))) = false.
Proof.
  split; [vm_compute; reflexivity|].
  assert (exists p, @digest_verified SumCrypto (at_check (example_attempt 5)) 1500 = Some p) as [p Hp]
    by (eexists; vm_compute; reflexivity).
  apply (@digest_no_replay SumCrypto (example_attempt 5) [] (example_attempt 9) p p ∅).
  - exact Hp.
  - exact Hp.
  - reflexivity.
  - constructor.
  - cbn. lia.
  - cbn. by vm_compute.
Defined.

(** The uri of the response is compared with the canonical, decoded path: a
    response for [/a%20b], the request target of the path [/a b], is refused
    whatever the credentials are. *)
Example digest_escaped_path_refused :
  digest_request_uri None (lit "/a b") <> lit "/a%20b".
Proof. vm_compute. discriminate. Qed.
