(* ===== verification/HttpPolicy.v ===== *)
(** The domain policy of the [http-proxy] crate: [PolicyEnforcer::evaluate] with
    the WAF patterns and the bot score, the header rules of requests and
    responses, and CORS.  [f64::log2] is a parameter ([Log2Lib]): its precision
    is not specified. *)
From stdpp Require Import options.
From S2P Require Import Prelude RustStr RustNum RustNet TokenBucket CommonTypes CommonPath CommonValidate HttpLimits HttpHeaders HttpSelect.

Local Open Scope Z_scope.

(** [- f64::log2(p)] for [0 < p <= 1]. *)
Class Log2Lib := { neg_log2 : Z -> Z }.
(** The integer part, for examples. *)
Definition CoarseLog2 : Log2Lib := {| neg_log2 p := (1074 - Z.log2 p) * f64_one |}.

Inductive RequestScheme : Type := Http | Https.
#[export] Instance RequestScheme_eq_dec : EqDecision RequestScheme.
Proof. solve_decision. Defined.
Definition scheme_as_str (s : RequestScheme) : rstr :=
  match s with Http => lit "http" | Https => lit "https" end.

Record PolicyRejection := {
  pr_status : Z;
  pr_message : rstr;
  pr_metric_reason : rstr;
  pr_retry_after : option Z;
  pr_location : option rstr;
}.
Definition policy_rejection (status : Z) (message reason : string) : PolicyRejection :=
  {| pr_status := status; pr_message := lit message; pr_metric_reason := lit reason;
     pr_retry_after := None; pr_location := None |}.

Record ProxyRequestContext := {
  px_request_id : rstr;
  px_domain : rstr;
  px_method : rstr;
  px_path : rstr;
  px_remote_ip : option IpAddr;
  px_scheme : RequestScheme;
  px_location : GeoLocation;
  px_timestamp_unix_ms : Z;
}.

(** [StatusCode::from_u16]. *)
Definition status_from_u16 (v : Z) : option Z := if (100 <=? v) && (v <=? 999) then Some v else None.

(** ** Patterns *)

Definition contains_any (value : rstr) (patterns : list rstr) : bool :=
  existsb (fun pattern => contains pattern value) patterns.
Definition string_patterns_match (value_lower : rstr) (patterns : list rstr) : bool :=
  existsb (fun pattern => negb (is_empty pattern) && contains pattern value_lower)
    (map to_ascii_lowercase patterns).
Definition path_had_structural_normalization (raw_path canonical_path : rstr) : bool :=
  if raw_path =s? canonical_path then false
  else contains_any (to_ascii_lowercase raw_path)
         (lits [".."; "%2e"; "%252e"; "%2f"; "%252f"; "%5c"; "%255c"; "\"; "//"]).
Definition request_can_have_body (method : rstr) : bool :=
  existsb (seq_eqb method) (lits ["POST"; "PUT"; "PATCH"; "DELETE"]).
Definition content_type_matches (actual expected : rstr) : bool :=
  eq_ignore_ascii_case (trim (default actual (head (split (chr ";") actual)))) (trim expected).

(** ** Entropy *)

Section entropy.
Context {LL : Log2Lib}.

Definition byte_count (value : rstr) (b : ascii) : Z :=
  Z.min (Z.of_nat (length (filter (fun c => c = b) value))) 65535.
Definition all_bytes : list ascii := map (fun n => byte_of (Z.of_nat n)) (seq 0 256).
Definition shannon_entropy (value : rstr) : Z :=
  if is_empty value then 0
  else
    let len := f64_of_int (str_len value) in
    foldl (fun sum b =>
             let count := byte_count value b in
             if 0 <? count then
               let probability := f64_div (f64_of_int count) len in
               f64_add sum (f64_mul probability (neg_log2 probability))
             else sum) 0 all_bytes.

Definition count_bytes (p : ascii -> bool) (s : rstr) : Z := Z.of_nat (length (filter (fun b => p b = true) s)).
Definition path_has_long_random_segment (path : rstr) : bool :=
  existsb (fun segment =>
      (str_len segment * 9 / 10 <=? count_bytes is_ascii_alphanumeric segment)
      && (3 <=? count_bytes is_ascii_digit segment)
      && (8 <=? count_bytes is_ascii_alphabetic segment)
      && (f64_of_int 4 <=? shannon_entropy segment))
    (filter (fun segment => 20 <= str_len segment) (split (chr "/") path)).
End entropy.

(** ** The bot score *)

Record BotScoreBucket := { bs_window_started : Z; bs_requests : Z }.
(** [DashMap<BotScoreKey, Mutex<BotScoreBucket>>], keyed by domain and address. *)
Abbreviation BotBuckets := (gmap (rstr * IpAddr) BotScoreBucket).
Definition BOT_WINDOW : Z := from_secs 10.
Definition BOT_BUCKET_EVICT_AT : Z := 100000.

Definition rate_points (requests : Z) : Z :=
  if requests <=? 40 then 0 else if requests <=? 120 then 15 else if requests <=? 300 then 30 else 45.
Definition evict_bots (now : Z) (m : BotBuckets) : BotBuckets :=
  if BOT_BUCKET_EVICT_AT <=? Z.of_nat (size m)
  then filter (fun kv => saturating_sub now (bs_window_started (snd kv)) <= BOT_WINDOW * 6) m
  else m.
Definition bot_rate_points (domain : rstr) (ip : IpAddr) (now : Z) (m : BotBuckets) : BotBuckets * Z :=
  let m := evict_bots now m in
  let b := default {| bs_window_started := now; bs_requests := 0 |} (m !! (domain, ip)) in
  let b := if BOT_WINDOW <? saturating_sub now (bs_window_started b)
           then {| bs_window_started := now; bs_requests := 0 |} else b in
  let b := {| bs_window_started := bs_window_started b; bs_requests := saturating_add32 (bs_requests b) 1 |} in
  (<[(domain, ip) := b]> m, rate_points (bs_requests b)).

Section policy.
Context {NL : IpNetLib} {HL : HeaderLib} {LL : Log2Lib}.

(** What the policy looks at of a request: [req.uri().to_string()], its path and
    query, and the headers. *)
Record PolicyRequest := {
  rq_method : rstr;
  rq_uri : rstr;
  rq_path : rstr;
  rq_query : option rstr;
  rq_headers : HeaderMap;
}.

Definition user_agent (req : PolicyRequest) : rstr := default [] (get_str (rq_headers req) (lit "user-agent")).

Definition SCANNER_AGENTS : list rstr := lits
  ["sqlmap"; "nikto"; "masscan"; "zgrab"; "nmap"; "dirbuster"; "gobuster"; "ffuf"; "acunetix"; "nessus"; "wpscan"].
Definition AUTOMATION_AGENTS : list rstr := lits
  ["python-requests"; "aiohttp"; "httpx"; "libwww-perl"; "scrapy"; "go-http-client"; "java/"; "okhttp"; "curl"; "wget"].
Definition HOSTING_MARKERS : list rstr := lits
  ["hosting"; "cloud"; "digitalocean"; "linode"; "vultr"; "hetzner"; "ovh"; "contabo"; "amazon"; "aws"; "google";
   "microsoft"; "azure"; "leaseweb"; "colo"; "datacenter"].

(** The points with the reasons they were given for. *)
Definition assess_bot_request (req : PolicyRequest) (cx : ProxyRequestContext) (now : Z) (m : BotBuckets)
  : BotBuckets * list (Z * string) :=
  let agent := user_agent req in
  let agent_lower := to_ascii_lowercase agent in
  let by_length :=
    if is_empty (trim agent) then [(20, "missing_user_agent"%string)]
    else if str_len agent <? 8 then [(10, "short_user_agent"%string)] else [] in
  let by_agent :=
    if contains_any agent_lower SCANNER_AGENTS then [(70, "scanner_user_agent"%string)]
    else if contains_any agent_lower AUTOMATION_AGENTS then [(20, "automation_user_agent"%string)] else [] in
  let '(m, by_rate) :=
    match px_remote_ip cx with
    | None => (m, [])
    | Some ip =>
      let '(m, points) := bot_rate_points (px_domain cx) ip now m in
      (m, if 0 <? points then [(points, "request_rate"%string)] else [])
    end in
  let by_entropy :=
    if (48 <=? str_len (px_path cx)) && (f64_ratio 17 4 <=? shannon_entropy (px_path cx))
    then [(20, "path_entropy"%string)] else [] in
  let by_segment := if path_has_long_random_segment (px_path cx) then [(20, "random_path_segment"%string)] else [] in
  let source_lower := to_ascii_lowercase (gl_source (px_location cx)) in
  let by_geo := if source_lower =s? lit "unknown" then [(5, "unknown_geo"%string)] else [] in
  let by_asn :=
    if contains (lit "asn") source_lower then
      (5, "asn_seen"%string) ::
      (if contains_any source_lower HOSTING_MARKERS then [(15, "hosting_asn"%string)] else [])
    else [] in
  (m, by_length ++ by_agent ++ by_rate ++ by_entropy ++ by_segment ++ by_geo ++ by_asn).
Definition bot_score (reasons : list (Z * string)) : Z := foldr (fun r n => fst r + n) 0 reasons.

(** ** The WAF *)

Definition static_waf_rejection_reason (req : PolicyRequest) (rules : DomainRules) (canonical_path : rstr)
  : option string :=
  let waf := dr_waf rules in
  if negb (waf_enabled waf) then None
  else
    let path := rq_path req in
    let query_lower := to_ascii_lowercase (default [] (rq_query req)) in
    let path_lower := to_ascii_lowercase path in
    let canonical_lower := to_ascii_lowercase canonical_path in
    let agent_lower := to_ascii_lowercase (user_agent req) in
    if waf_block_path_traversal waf
       && (contains_any path_lower (lits ["../"; "..\"; "%2e%2e"; "%252e%252e"])
           || path_had_structural_normalization path canonical_path)
    then Some "waf_path_traversal"%string
    else if waf_block_sql_injection waf
       && contains_any query_lower
            (lits [" union select "; "union%20select"; "' or 1=1"; "%27%20or%201=1"]
             ++ [quote :: lit " or 1=1"]
             ++ lits ["%22%20or%201=1"; "information_schema"; "sleep("; "benchmark("])
    then Some "waf_sql_injection"%string
    else
      let xss := lits ["<script"; "%3cscript"; "javascript:"] in
      if waf_block_xss waf
         && (contains_any query_lower xss || contains_any path_lower xss || contains_any canonical_lower xss)
      then Some "waf_xss"%string
      else if waf_block_bad_bots waf
         && contains_any agent_lower (lits ["sqlmap"; "nikto"; "masscan"; "zgrab"; "nmap"; "dirbuster"])
      then Some "waf_bad_bot"%string
      else if string_patterns_match agent_lower (waf_blocked_user_agents waf) then Some "waf_user_agent"%string
      else if string_patterns_match path_lower (waf_blocked_path_patterns waf)
              || string_patterns_match canonical_lower (waf_blocked_path_patterns waf)
      then Some "waf_path_pattern"%string
      else if string_patterns_match query_lower (waf_blocked_query_patterns waf)
      then Some "waf_query_pattern"%string
      else None.

Definition waf_rejection_reason (req : PolicyRequest) (rules : DomainRules) (cx : ProxyRequestContext)
    (now : Z) (m : BotBuckets) : BotBuckets * option string :=
  if negb (waf_enabled (dr_waf rules)) then (m, None)
  else
    match static_waf_rejection_reason req rules (px_path cx) with
    | Some reason => (m, Some reason)
    | None =>
      if waf_block_bad_bots (dr_waf rules) then
        let '(m, reasons) := assess_bot_request req cx now m in
        (m, if 60 <=? bot_score reasons then Some "waf_bot_score"%string else None)
      else (m, None)
    end.

Definition cors_origin_allowed (origin : rstr) (allowed_origins : list rstr) : bool :=
  match to_str origin with
  | None => false
  | Some origin =>
    existsb (fun allowed => (allowed =s? lit "*") || eq_ignore_ascii_case allowed origin) allowed_origins
  end.
Definition is_cors_preflight (req : PolicyRequest) (rules : DomainRules) : bool :=
  dr_cors_preflight_enabled rules && negb (is_empty (dr_cors_allowed_origins rules))
  && (rq_method req =s? lit "OPTIONS")
  && negb (is_empty (get_all (rq_headers req) (lit "origin")))
  && negb (is_empty (get_all (rq_headers req) (lit "access-control-request-method"))).
End policy.

(** ** The policy *)

Section evaluate.
Context {NL : IpNetLib} {HL : HeaderLib} {LL : Log2Lib}.

(** A chain of checks: the first that fails answers. *)
Fixpoint first_rejection (checks : list (bool * PolicyRejection)) : option PolicyRejection :=
  match checks with
  | [] => None
  | (true, r) :: _ => Some r
  | (false, _) :: checks' => first_rejection checks'
  end.

Definition maintenance_status (rules : DomainRules) : Z :=
  match dr_maintenance_status_code rules with
  | Some v => match status_from_u16 v with
              | Some v => if (400 <=? v) && (v <=? 599) then v else 503
              | None => 503
              end
  | None => 503
  end.
Definition over (limit : option Z) (size : option Z) : bool :=
  match limit, size with Some l, Some s => l <? s | _, _ => false end.
Definition any_net (nets : list IpNet) (ip : IpAddr) : bool := existsb (fun n => net_contains n ip) nets.

(** The checks before the WAF, in the order of the code. *)
Definition access_checks (req : PolicyRequest) (rules : DomainRules) (cx : ProxyRequestContext)
  : list (bool * PolicyRejection) :=
  let plain := bool_decide (px_scheme cx = Http) in
  let method_in := existsb (fun m => eq_ignore_ascii_case m (rq_method req)) in
  let on_ip (f : IpAddr -> bool) := match px_remote_ip cx with Some ip => f ip | None => false end in
  let country := gl_country_code (px_location cx) in
  let continent := gl_continent_code (px_location cx) in
  [ (dr_maintenance_mode rules,
     policy_rejection (maintenance_status rules) "domain is in maintenance mode" "maintenance_mode");
    (plain && dr_redirect_http_to_https rules,
     {| pr_status := 308; pr_message := lit "https required"; pr_metric_reason := lit "https_redirect";
        pr_retry_after := None; pr_location := Some (lit "https://" ++ px_domain cx ++ px_path cx) |});
    (plain && dr_require_https rules,
     policy_rejection 426 "https is required for this domain" "https_required");
    (on_ip (fun ip => negb (is_empty (dr_ip_allowlist rules)) && negb (any_net (dr_ip_allowlist rules) ip)),
     policy_rejection 403 "ip is not allowed for this domain" "ip_not_allowlisted");
    (on_ip (any_net (dr_ip_blocklist rules)),
     policy_rejection 403 "ip is blocked for this domain" "ip_blocklisted");
    (negb (is_empty (dr_country_allowlist rules)) && negb (location_code_matches country (dr_country_allowlist rules)),
     policy_rejection 403 "country is not allowed for this domain" "country_not_allowlisted");
    (location_code_matches country (dr_country_blocklist rules),
     policy_rejection 403 "country is blocked for this domain" "country_blocklisted");
    (negb (is_empty (dr_continent_allowlist rules))
       && negb (location_code_matches continent (dr_continent_allowlist rules)),
     policy_rejection 403 "continent is not allowed for this domain" "continent_not_allowlisted");
    (location_code_matches continent (dr_continent_blocklist rules),
     policy_rejection 403 "continent is blocked for this domain" "continent_blocklisted");
    (method_in (dr_blocked_methods rules),
     policy_rejection 405 "method is blocked for this domain" "method_blocked");
    (negb (is_empty (dr_allowed_methods rules)) && negb (method_in (dr_allowed_methods rules)),
     policy_rejection 405 "method is not allowed for this domain" "method_not_allowed");
    (negb (dr_allow_websocket rules) && is_websocket_upgrade (rq_headers req),
     policy_rejection 403 "websocket upgrades are disabled for this domain" "websocket_disabled");
    (over (dr_max_uri_length rules) (Some (str_len (rq_uri req))),
     policy_rejection 414 "request uri is too long" "uri_too_long");
    (over (dr_max_body_bytes rules) (content_length (rq_headers req)),
     policy_rejection 413 "request body is too large" "body_too_large") ].

Definition content_type_refused (req : PolicyRequest) (rules : DomainRules) : bool :=
  negb (is_empty (dr_allowed_content_types rules)) && request_can_have_body (rq_method req)
  && negb (match get_str (rq_headers req) (lit "content-type") with
           | Some t => existsb (content_type_matches t) (dr_allowed_content_types rules)
           | None => false
           end).

(** The loop over the required headers: the first one that is missing or has
    another value. *)
Fixpoint required_rejection (h : HeaderMap) (required : list RequiredHeaderRule) : option PolicyRejection :=
  match required with
  | [] => None
  | r :: required' =>
    match header_value h (rh_name r) with
    | None => Some (policy_rejection 400 "request is missing a required header" "header_required")
    | Some value =>
      if match rh_value r with Some expected => negb (expected =s? value) | None => false end
      then Some (policy_rejection 400 "request header has an invalid value" "header_required_value")
      else required_rejection h required'
    end
  end.

(** The checks after the WAF up to the rate limit. *)
Definition header_checks (req : PolicyRequest) (rules : DomainRules) : list (bool * PolicyRejection) :=
  [ (content_type_refused req rules,
     policy_rejection 415 "content-type is not allowed for this domain" "content_type_not_allowed");
    (existsb (header_present (rq_headers req)) (dr_blocked_headers rules),
     policy_rejection 403 "request contains a blocked header" "header_blocked");
    (negb (is_empty (dr_allowed_headers rules))
       && existsb (fun name => negb (existsb (fun a => eq_ignore_ascii_case a name) (dr_allowed_headers rules)))
            (header_names (rq_headers req)),
     policy_rejection 403 "request contains a header that is not allowed" "header_not_allowed") ].

(** The state the policy keeps: the policy rate limiter and the bot buckets. *)
Record PolicyState := { po_rates : gmap PolicyRate.PolicyRateKey RateBucket; po_bots : BotBuckets }.

Definition rate_rejection (rules : DomainRules) (cx : ProxyRequestContext) (now : Z)
    (m : gmap PolicyRate.PolicyRateKey RateBucket)
  : gmap PolicyRate.PolicyRateKey RateBucket * option PolicyRejection :=
  match dr_rate_limit rules with
  | None => (m, None)
  | Some limit =>
    let '(m, delay) := PolicyRate.retry_after limit (px_domain cx) (px_path cx) (px_remote_ip cx) now m in
    (m, match delay with
        | None => None
        | Some d => Some {| pr_status := default 429 (status_from_u16 (rl_status_code limit));
                            pr_message := lit "rate limited by domain rules";
                            pr_metric_reason := lit "domain_rate_limited";
                            pr_retry_after := Some d; pr_location := None |}
        end)
  end.

Definition evaluate (req : PolicyRequest) (rules : DomainRules) (cx : ProxyRequestContext) (now : Z)
    (s : PolicyState) : PolicyState * option PolicyRejection :=
  match first_rejection (access_checks req rules cx) with
  | Some r => (s, Some r)
  | None =>
    let '(bots, reason) := waf_rejection_reason req rules cx now (po_bots s) in
    let s := {| po_rates := po_rates s; po_bots := bots |} in
    match reason with
    | Some reason => (s, Some (policy_rejection 403 "request blocked by waf rules" reason))
    | None =>
      match first_rejection (header_checks req rules) with
      | Some r => (s, Some r)
      | None =>
        match required_rejection (rq_headers req) (dr_required_headers rules) with
        | Some r => (s, Some r)
        | None =>
          let '(rates, rejected) := rate_rejection rules cx now (po_rates s) in
          let s := {| po_rates := rates; po_bots := po_bots s |} in
          match rejected with
          | Some r => (s, Some r)
          | None =>
            if is_cors_preflight req rules then
              (s, Some (policy_rejection 204 "cors preflight accepted" "cors_preflight"))
            else (s, None)
          end
        end
      end
    end
  end.

(** ** Header rules *)

Definition set_header (h : HeaderMap) (nv : rstr * rstr) : HeaderMap :=
  match name_from_bytes (fst nv), value_from_str (snd nv) with
  | Some name, Some value => insert_header name value h
  | _, _ => h
  end.
Definition apply_request_rules (h : HeaderMap) (rules : DomainRules) : HeaderMap :=
  let h := remove_tokens (dr_strip_request_headers rules) h in
  foldl set_header h (map_to_list (dr_add_request_headers rules)).

Definition insert_if_absent (name value : rstr) (h : HeaderMap) : HeaderMap :=
  if is_empty (get_all h name) then insert_header name value h else h.
Definition CONTENT_SECURITY_POLICY : rstr := lit
  "default-src 'self'; base-uri 'self'; object-src 'none'; frame-ancestors 'none'; script-src 'self' 'unsafe-inline' 'wasm-unsafe-eval' https:; style-src 'self' 'unsafe-inline'; img-src 'self' data: blob: https:; font-src 'self' data:; connect-src 'self' data: https: wss:; frame-src 'self' https:; upgrade-insecure-requests".
Definition security_headers (h : HeaderMap) : HeaderMap :=
  let h := insert_header (lit "strict-transport-security") (lit "max-age=31536000; includeSubDomains; preload") h in
  let h := insert_header (lit "cross-origin-opener-policy") (lit "same-origin-allow-popups") h in
  let h := insert_header (lit "x-frame-options") (lit "DENY") h in
  let h := insert_header (lit "x-content-type-options") (lit "nosniff") h in
  let h := insert_header (lit "referrer-policy") (lit "origin-when-cross-origin") h in
  let h := insert_if_absent (lit "permissions-policy") (lit "camera=(), microphone=(), geolocation=()") h in
  insert_header (lit "content-security-policy") CONTENT_SECURITY_POLICY h.

Definition insert_list (name : rstr) (l : list rstr) (h : HeaderMap) : HeaderMap :=
  if is_empty l then h
  else match value_from_str (join (lit ", ") l) with
       | Some value => insert_header name value h
       | None => h
       end.
Definition cors_headers (rules : DomainRules) (request_origin : option rstr) (h : HeaderMap) : HeaderMap :=
  match request_origin with
  | Some origin =>
    if cors_origin_allowed origin (dr_cors_allowed_origins rules) then
      let h := insert_header (lit "access-control-allow-origin") origin h in
      let h := insert_header (lit "vary") (lit "origin") h in
      let h := if dr_cors_allow_credentials rules
               then insert_header (lit "access-control-allow-credentials") (lit "true") h else h in
      let h := insert_list (lit "access-control-allow-methods") (dr_cors_allowed_methods rules) h in
      insert_list (lit "access-control-allow-headers") (dr_cors_allowed_headers rules) h
    else h
  | None =>
    if existsb (fun o => o =s? lit "*") (dr_cors_allowed_origins rules)
    then insert_header (lit "access-control-allow-origin") (lit "*") h else h
  end.
Definition apply_response_rules (h : HeaderMap) (rules : DomainRules) (request_origin : option rstr) : HeaderMap :=
  let h := if dr_add_security_headers rules then security_headers h else h in
  let h := foldl set_header h (map_to_list (dr_response_headers rules)) in
  cors_headers rules request_origin h.
End evaluate.

(** ** Theorems *)

Lemma first_rejection_None l : first_rejection l = None <-> Forall (fun c => fst c = false) l.
Proof.
  induction l as [|[[] r] l IH]; cbn [first_rejection]; [by split|split; [done|]|].
  - intros H. by apply Forall_cons in H as [? _].
  - rewrite IH, Forall_cons. tauto.
Qed.

Lemma existsb_false {A} (f : A -> bool) l : existsb f l = false <-> forall x, x ∈ l -> f x = false.
Proof.
  induction l as [|y l IH]; cbn [existsb]; [set_solver|]. rewrite orb_false_iff, IH. set_solver.
Qed.
Lemma existsb_elem {A} (f : A -> bool) l : existsb f l = true <-> exists x, x ∈ l /\ f x = true.
Proof. rewrite existsb_exists. by setoid_rewrite list_elem_of_In. Qed.

(** The list is empty or has an entry that fits. *)
Definition allowed_by {A} (fits : A -> bool) (l : list A) : Prop := l = [] \/ exists x, x ∈ l /\ fits x = true.
Definition blocked_by {A} (fits : A -> bool) (l : list A) : Prop := exists x, x ∈ l /\ fits x = true.

Lemma not_allowed_false {A} (fits : A -> bool) l :
  negb (is_empty l) && negb (existsb fits l) = false <-> allowed_by fits l.
Proof.
  unfold allowed_by. rewrite <- existsb_elem. destruct l as [|x l]; [cbn; tauto|].
  cbn [is_empty negb andb]. rewrite negb_false_iff. split; [by right|]. by intros [?|?].
Qed.
Lemma not_blocked_false {A} (fits : A -> bool) l : existsb fits l = false <-> ~ blocked_by fits l.
Proof. unfold blocked_by. rewrite <- existsb_elem. by rewrite not_true_iff_false. Qed.

Section accepted.
Context {NL : IpNetLib} {HL : HeaderLib} {LL : Log2Lib}.

Definition code_fits (actual : option rstr) (code : rstr) : bool :=
  match actual with Some a => (code =s? lit "*") || eq_ignore_ascii_case code a | None => false end.

Lemma location_code_matches_spec actual l : location_code_matches actual l = existsb (code_fits actual) l.
Proof. unfold location_code_matches, code_fits. destruct actual; [done|]. by induction l. Qed.

(** What the rules of a domain ask of a request, the WAF and the rate limit
    apart. *)
Record permitted (req : PolicyRequest) (rules : DomainRules) (cx : ProxyRequestContext) : Prop := {
  pm_maintenance : dr_maintenance_mode rules = false;
  pm_https : px_scheme cx = Http -> dr_redirect_http_to_https rules = false /\ dr_require_https rules = false;
  pm_ip : forall ip, px_remote_ip cx = Some ip ->
    allowed_by (fun n => net_contains n ip) (dr_ip_allowlist rules) /\
    ~ blocked_by (fun n => net_contains n ip) (dr_ip_blocklist rules);
  pm_country : allowed_by (code_fits (gl_country_code (px_location cx))) (dr_country_allowlist rules) /\
    ~ blocked_by (code_fits (gl_country_code (px_location cx))) (dr_country_blocklist rules);
  pm_continent : allowed_by (code_fits (gl_continent_code (px_location cx))) (dr_continent_allowlist rules) /\
    ~ blocked_by (code_fits (gl_continent_code (px_location cx))) (dr_continent_blocklist rules);
  pm_method : allowed_by (fun m => eq_ignore_ascii_case m (rq_method req)) (dr_allowed_methods rules) /\
    ~ blocked_by (fun m => eq_ignore_ascii_case m (rq_method req)) (dr_blocked_methods rules);
  pm_websocket : is_websocket_upgrade (rq_headers req) = true -> dr_allow_websocket rules = true;
  pm_uri : forall limit, dr_max_uri_length rules = Some limit -> str_len (rq_uri req) <= limit;
  pm_body : forall limit len, dr_max_body_bytes rules = Some limit ->
    content_length (rq_headers req) = Some len -> len <= limit;
  pm_content_type : request_can_have_body (rq_method req) = true ->
    dr_allowed_content_types rules = [] \/
    exists t, get_str (rq_headers req) (lit "content-type") = Some t /\
      exists a, a ∈ dr_allowed_content_types rules /\ content_type_matches t a = true;
  pm_blocked_headers : ~ blocked_by (header_present (rq_headers req)) (dr_blocked_headers rules);
  pm_allowed_headers : dr_allowed_headers rules = [] \/ forall n, n ∈ header_names (rq_headers req) ->
    exists a, a ∈ dr_allowed_headers rules /\ eq_ignore_ascii_case a n = true;
  pm_required : forall r, r ∈ dr_required_headers rules -> exists v, header_value (rq_headers req) (rh_name r) = Some v /\
    (forall e, rh_value r = Some e -> e = v);
}.

Lemma over_false limit size : over limit size = false <-> forall l s, limit = Some l -> size = Some s -> s <= l.
Proof.
  unfold over. destruct limit as [l|], size as [s|]; split; try done.
  - intros H ? ? [= <-] [= <-]. by bools.
  - intros H. bools. by apply H.
Qed.

Lemma required_rejection_None h l :
  required_rejection h l = None <-> forall r, r ∈ l -> exists v, header_value h (rh_name r) = Some v /\
    (forall e, rh_value r = Some e -> e = v).
Proof.
  induction l as [|r l IH]; cbn [required_rejection]; [split; [set_solver|done]|].
  destruct (header_value h (rh_name r)) as [v|] eqn:Ev.
  2:{ split; [done|]. intros H. destruct (H r) as (v & Hv & _); [set_solver|]. congruence. }
  destruct (rh_value r) as [e|] eqn:Ee.
  - destruct (e =s? v) eqn:E; cbn [negb]; [apply seqb_true in E as ->|apply seqb_false in E].
    + rewrite IH. split; [|set_solver]. intros H x Hx. apply elem_of_cons in Hx as [->|Hx]; [|by apply H].
      exists v. split; [done|]. congruence.
    + split; [done|]. intros H. destruct (H r) as (v' & Hv & He); [set_solver|]. rewrite Ev in Hv.
      injection Hv as <-. by destruct E, (He e Ee).
  - rewrite IH. split; [|set_solver]. intros H x Hx. apply elem_of_cons in Hx as [->|Hx]; [|by apply H].
    exists v. split; [done|]. congruence.
Qed.

Lemma allowed_headers_false allowed names :
  negb (is_empty allowed) && existsb (fun name => negb (existsb (fun a => eq_ignore_ascii_case a name) allowed)) names
  = false <-> allowed = [] \/ forall n, n ∈ names -> exists a, a ∈ allowed /\ eq_ignore_ascii_case a n = true.
Proof.
  destruct allowed as [|a l]; [cbn; tauto|]. cbn [is_empty negb andb]. rewrite existsb_false.
  setoid_rewrite negb_false_iff. setoid_rewrite existsb_elem. split; [by right|]. by intros [?|?].
Qed.

Lemma content_type_false req rules :
  content_type_refused req rules = false <->
  (request_can_have_body (rq_method req) = true ->
   dr_allowed_content_types rules = [] \/
   exists t, get_str (rq_headers req) (lit "content-type") = Some t /\
     exists a, a ∈ dr_allowed_content_types rules /\ content_type_matches t a = true).
Proof.
  unfold content_type_refused. destruct (dr_allowed_content_types rules) as [|x l]; [cbn; tauto|].
  cbn [is_empty negb andb]. destruct (request_can_have_body _); [|cbn; by split].
  cbn [andb]. rewrite negb_false_iff. destruct (get_str _ _) as [t|].
  - rewrite existsb_elem. split; [intros H _; right; by exists t|].
    intros H. destruct (H eq_refl) as [?|(? & [= <-] & H')]; [done|exact H'].
  - split; [done|]. intros H. destruct (H eq_refl) as [?|(? & ? & _)]; done.
Qed.

Lemma checks_permitted req rules cx :
  first_rejection (access_checks req rules cx) = None /\ first_rejection (header_checks req rules) = None /\
  required_rejection (rq_headers req) (dr_required_headers rules) = None <-> permitted req rules cx.
Proof.
  rewrite !first_rejection_None, required_rejection_None.
  unfold access_checks, header_checks. rewrite !Forall_cons, !Forall_nil. cbn [fst].
  rewrite !location_code_matches_spec, !not_allowed_false, !not_blocked_false, !over_false, allowed_headers_false,
    content_type_false.
  assert ((match px_remote_ip cx with
           | Some ip => negb (is_empty (dr_ip_allowlist rules)) && negb (any_net (dr_ip_allowlist rules) ip)
           | None => false end = false /\
           match px_remote_ip cx with Some ip => any_net (dr_ip_blocklist rules) ip | None => false end = false) <->
          forall ip, px_remote_ip cx = Some ip ->
            allowed_by (fun n => net_contains n ip) (dr_ip_allowlist rules) /\
            ~ blocked_by (fun n => net_contains n ip) (dr_ip_blocklist rules)) as Hip.
  { destruct (px_remote_ip cx) as [ip|]; [|split; [done|done]]. unfold any_net.
    rewrite not_allowed_false, not_blocked_false. split; [by intros ? ? [= <-]|]. intros H. by apply H. }
  assert (bool_decide (px_scheme cx = Http) && dr_redirect_http_to_https rules = false /\
          bool_decide (px_scheme cx = Http) && dr_require_https rules = false <->
          (px_scheme cx = Http -> dr_redirect_http_to_https rules = false /\ dr_require_https rules = false)) as Hs.
  { destruct (px_scheme cx); cbn; [tauto|]. split; [done|by split]. }
  assert (negb (dr_allow_websocket rules) && is_websocket_upgrade (rq_headers req) = false <->
          (is_websocket_upgrade (rq_headers req) = true -> dr_allow_websocket rules = true)) as Hw.
  { destruct (dr_allow_websocket rules), (is_websocket_upgrade _); cbn; intuition congruence. }
  split.
  - intros (Ha & Hh & Hr). destruct Ha as (H1 & H2 & H3 & H4 & H5 & H6 & H7 & H8 & H9 & H10 & H11 & H12 & H13 & H14 & _).
    destruct Hh as (H15 & H16 & H17 & _). split; try done; try tauto.
    + intros limit H. by apply (H13 limit (str_len (rq_uri req))).
  - intros []. destruct pm_country0, pm_continent0, pm_method0. apply Hip in pm_ip0. apply Hs in pm_https0.
    split; [|split; [by repeat split|done]].
    repeat (split; [tauto|]). split; [intros l s Hl [= <-]; by apply pm_uri0|]. by split.
Qed.

Lemma evaluate_permitted req rules cx now s : snd (evaluate req rules cx now s) = None -> permitted req rules cx.
Proof.
  rewrite <- checks_permitted. unfold evaluate.
  destruct (first_rejection (access_checks req rules cx)); [done|].
  destruct (waf_rejection_reason _ _ _ _ _) as [bots [reason|]]; [done|].
  destruct (first_rejection (header_checks req rules)); [done|]. by destruct (required_rejection _ _).
Qed.

(** C35: The policy decides exactly by its rules: a request is let through if and
    only if the domain is not in maintenance, HTTPS is used where it is asked
    for, address, country, continent and method are allowed and not blocked,
    upgrade, URI length, declared body length, content type and headers are
    within the rules, the WAF has no objection, the rate limiter grants a token
    and it is not a CORS preflight (which the proxy answers itself).  A request
    the other rules refuse never takes a token of the rate limiter. *)
Theorem policy_exact req rules cx now s :
  let waf := snd (waf_rejection_reason req rules cx now (po_bots s)) in
  (snd (evaluate req rules cx now s) = None <->
   permitted req rules cx /\ waf = None /\ snd (rate_rejection rules cx now (po_rates s)) = None /\
   is_cors_preflight req rules = false) /\
  (~ (permitted req rules cx /\ waf = None) -> po_rates (fst (evaluate req rules cx now s)) = po_rates s).
Proof.
  intros waf. rewrite <- checks_permitted. unfold evaluate, waf.
  destruct (first_rejection (access_checks req rules cx)); [cbn; split; [split; [done|intros ([? _] & _); done]|done]|].
  destruct (waf_rejection_reason req rules cx now (po_bots s)) as [bots [reason|]]; cbn [snd].
  { split; [split; [done|intros (_ & ? & _); done]|done]. }
  destruct (first_rejection (header_checks req rules)); [cbn; split; [split; [done|intros ((_ & ? & _) & _); done]|done]|].
  destruct (required_rejection _ _); [cbn; split; [split; [done|intros ((_ & _ & ?) & _); done]|done]|].
  cbn [po_rates po_bots]. split; [|intros H; by destruct H].
  destruct (rate_rejection rules cx now (po_rates s)) as [rates [r|]]; cbn [snd].
  { split; [done|]. by intros (_ & _ & ? & _). }
  destruct (is_cors_preflight req rules); cbn [snd]; split; try done. by intros (_ & _ & _ & ?).
Qed.
End accepted.

Section bots.
Context {NL : IpNetLib} {HL : HeaderLib} {LL : Log2Lib}.

Lemma bot_score_app a b : bot_score (a ++ b) = bot_score a + bot_score b.
Proof. unfold bot_score. induction a as [|x a IH]; cbn; lia. Qed.

Lemma rate_points_range n : 0 <= rate_points n <= 45.
Proof. unfold rate_points. destruct (_ <=? _); [lia|]. destruct (_ <=? _); [lia|]. destruct (_ <=? _); lia. Qed.

(** The bot score is between 0 and 200, so the [u16] additions never
    overflow; and with bot blocking on, a request of a known scanner is refused
    whatever its rate, path and origin are. *)
Theorem bot_score_bounds req rules cx now m :
  0 <= bot_score (snd (assess_bot_request req cx now m)) <= 200 /\
  (waf_enabled (dr_waf rules) && waf_block_bad_bots (dr_waf rules)
     && contains_any (to_ascii_lowercase (user_agent req)) SCANNER_AGENTS = true ->
   snd (waf_rejection_reason req rules cx now m) <> None).
Proof.
  assert (0 <= bot_score (snd (assess_bot_request req cx now m)) <= 200 /\
    (contains_any (to_ascii_lowercase (user_agent req)) SCANNER_AGENTS = true ->
     60 <= bot_score (snd (assess_bot_request req cx now m)))) as [Hrange Hscan].
  { unfold assess_bot_request.
    set (by_length := if is_empty (trim (user_agent req)) then _ else _).
    set (by_agent := if contains_any _ SCANNER_AGENTS then _ else _).
    set (rate := match px_remote_ip cx with Some ip => _ | None => _ end).
    set (by_entropy := if _ && _ then _ else _).
    set (by_segment := if path_has_long_random_segment (px_path cx) then _ else _).
    set (by_geo := if _ =s? lit "unknown" then _ else _).
    set (by_asn := if contains (lit "asn") _ then _ else _).
    assert (0 <= bot_score by_length <= 20) as H1.
    { unfold by_length. destruct (is_empty _); [cbn; lia|]. destruct (_ <? _); cbn; lia. }
    assert (0 <= bot_score by_agent <= 70) as H2.
    { unfold by_agent. destruct (contains_any _ _); [cbn; lia|]. destruct (contains_any _ _); cbn; lia. }
    assert (0 <= bot_score (snd rate) <= 45) as H3.
    { unfold rate. destruct (px_remote_ip cx) as [ip|]; [|cbn; lia]. unfold bot_rate_points.
      set (b := {| bs_window_started := _; bs_requests := saturating_add32 _ 1 |}). cbn [snd].
      clearbody b. pose proof (rate_points_range (bs_requests b)).
      destruct (0 <? rate_points (bs_requests b)); cbn [bot_score foldr fst]; lia. }
    assert (0 <= bot_score by_entropy <= 20) as H4 by (unfold by_entropy; destruct (_ && _); cbn [bot_score foldr fst]; lia).
    assert (0 <= bot_score by_segment <= 20) as H5 by (unfold by_segment; destruct (path_has_long_random_segment _); cbn [bot_score foldr fst]; lia).
    assert (0 <= bot_score by_geo <= 5) as H6 by (unfold by_geo; destruct (_ =s? _); cbn [bot_score foldr fst]; lia).
    assert (0 <= bot_score by_asn <= 20) as H7.
    { unfold by_asn. destruct (contains _ _); [|cbn; lia].
      destruct (contains_any _ HOSTING_MARKERS); cbn [bot_score foldr fst]; lia. }
    destruct rate as [m' by_rate]. cbn [snd] in *. rewrite !bot_score_app. split; [lia|].
    intros Hs. assert (bot_score by_agent = 70); [|lia]. unfold by_agent. by rewrite Hs. }
  split; [exact Hrange|]. intros [[He Hb]%andb_true_iff Hs]%andb_true_iff.
  unfold waf_rejection_reason. rewrite He, Hb. cbn [negb].
  destruct (static_waf_rejection_reason _ _ _); [done|]. specialize (Hscan Hs).
  destruct (assess_bot_request req cx now m) as [m' reasons]. cbn [snd] in *.
  by rewrite (proj2 (Z.leb_le _ _)).
Qed.
End bots.

Section cors.
Context {NL : IpNetLib} {HL : HeaderLib} {Laws : HeaderLaws HL}.

Lemma insert_list_get name l h n :
  n <> name -> get_all (insert_list name l h) n = get_all h n.
Proof using Laws.
  intros Hn. unfold insert_list. destruct (is_empty l); [done|]. destruct (value_from_str _); [|done].
  rewrite get_all_insert. by rewrite (proj2 (seqb_false _ _)).
Qed.

(** The CORS answer: an origin the rules do not allow changes no header of
    the response; an allowed one is returned as the allowed origin, and then
    credentials are allowed exactly as the rules say.  A wildcard allows every
    origin, so that with a wildcard and credentials every site is answered its
    own origin with credentials. *)
Theorem cors_exact rules h origin :
  let base := apply_response_rules h rules None in
  let answered := apply_response_rules h rules (Some origin) in
  if cors_origin_allowed origin (dr_cors_allowed_origins rules) then
    get_all answered (lit "access-control-allow-origin") = [origin] /\
    get_all answered (lit "vary") = [lit "origin"] /\
    (dr_cors_allow_credentials rules = true ->
     get_all answered (lit "access-control-allow-credentials") = [lit "true"]) /\
    (dr_cors_allow_credentials rules = false ->
     get_all answered (lit "access-control-allow-credentials")
     = get_all base (lit "access-control-allow-credentials"))
  else lit "*" ∉ dr_cors_allowed_origins rules \/ to_str origin = None.
Proof using Laws.
  intros base answered. unfold base, answered, apply_response_rules.
  set (h0 := foldl set_header _ _). clearbody h0.
  destruct (cors_origin_allowed origin (dr_cors_allowed_origins rules)) eqn:E.
  - assert (get_all (cors_headers rules None h0) (lit "access-control-allow-credentials")
            = get_all h0 (lit "access-control-allow-credentials")) as ->.
    { cbn [cors_headers]. destruct (existsb _ _); [|done]. by rewrite get_all_insert. }
    cbn [cors_headers]. rewrite E, !insert_list_get by done.
    destruct (dr_cors_allow_credentials rules); rewrite !get_all_insert; by repeat split.
  - unfold cors_origin_allowed in E. destruct (to_str origin) as [o|]; [left|by right].
    intros Hin. rewrite existsb_false in E. specialize (E _ Hin). cbn in E. discriminate E.
Qed.
End cors.
Definition with_cors (origins : list rstr) (credentials : bool) (d : @DomainRules CidrLib) : @DomainRules CidrLib := {|
  dr_www_alias := dr_www_alias d; dr_redirect_www_to_apex := dr_redirect_www_to_apex d;
  dr_allow_websocket := dr_allow_websocket d; dr_require_https := dr_require_https d;
  dr_redirect_http_to_https := dr_redirect_http_to_https d;
  dr_allowed_methods := dr_allowed_methods d; dr_blocked_methods := dr_blocked_methods d;
  dr_allowed_headers := dr_allowed_headers d; dr_blocked_headers := dr_blocked_headers d;
  dr_required_headers := dr_required_headers d;
  dr_strip_request_headers := dr_strip_request_headers d;
  dr_add_request_headers := dr_add_request_headers d;
  dr_response_headers := dr_response_headers d; dr_ip_allowlist := dr_ip_allowlist d;
  dr_ip_blocklist := dr_ip_blocklist d; dr_country_allowlist := dr_country_allowlist d;
  dr_country_blocklist := dr_country_blocklist d;
  dr_continent_allowlist := dr_continent_allowlist d;
  dr_continent_blocklist := dr_continent_blocklist d; dr_location_routes := dr_location_routes d;
  dr_traffic_splits := dr_traffic_splits d; dr_waf := dr_waf d; dr_rate_limit := dr_rate_limit d;
  dr_max_body_bytes := dr_max_body_bytes d; dr_max_uri_length := dr_max_uri_length d;
  dr_allowed_content_types := dr_allowed_content_types d;
  dr_maintenance_mode := dr_maintenance_mode d;
  dr_maintenance_status_code := dr_maintenance_status_code d;
  dr_preserve_host_header := dr_preserve_host_header d;
  dr_add_security_headers := dr_add_security_headers d; dr_cors_allowed_origins := origins;
  dr_cors_allow_credentials := credentials; dr_cors_allowed_methods := dr_cors_allowed_methods d;
  dr_cors_allowed_headers := dr_cors_allowed_headers d;
  dr_cors_preflight_enabled := dr_cors_preflight_enabled d; dr_middlewares := dr_middlewares d;
  dr_middleware_chains := dr_middleware_chains d; dr_request_buffering := dr_request_buffering d;
  dr_response_buffering := dr_response_buffering d; dr_compression := dr_compression d;
  dr_content_type_autodetect := dr_content_type_autodetect d; dr_retry := dr_retry d;
  dr_circuit_breaker := dr_circuit_breaker d; dr_in_flight_limit := dr_in_flight_limit d;
  dr_sticky_sessions := dr_sticky_sessions d; dr_passive_health := dr_passive_health d;
  dr_traffic_mirroring := dr_traffic_mirroring d;
  dr_client_cert_forwarding := dr_client_cert_forwarding d; dr_services := dr_services d;
  dr_upstream_transport := dr_upstream_transport d; dr_tls_options := dr_tls_options d;
  dr_acme := dr_acme d; dr_tcp := dr_tcp d; dr_udp := dr_udp d; dr_http3 := dr_http3 d;
  dr_bandwidth_limit := dr_bandwidth_limit d; dr_proxy_mode := dr_proxy_mode d |}.

Lemma cors_exact_witness :
  let rules := with_cors [lit "*"] true DomainRules_default in
  get_all (@apply_response_rules CidrLib AssocHeaders [] rules (Some (lit "https://evil.test")))
    (lit "access-control-allow-origin") = [lit "https://evil.test"].
Proof.
  intros rules. pose proof (@cors_exact CidrLib AssocHeaders AssocHeaders_laws rules [] (lit "https://evil.test")) as H.
  cbv zeta in H.
  assert (@cors_origin_allowed AssocHeaders (lit "https://evil.test") (dr_cors_allowed_origins rules) = true) as E
    by (vm_compute; reflexivity).
  rewrite E in H. exact (proj1 H).
Defined.

Definition example_request (agent : string) : @PolicyRequest AssocHeaders := {|
  rq_method := lit "GET"; rq_uri := lit "/"; rq_path := lit "/"; rq_query := None;
  rq_headers := ([(lit "user-agent", lit agent)] : @HeaderMap AssocHeaders) |}.
Definition example_context : ProxyRequestContext := {|
  px_request_id := lit "id"; px_domain := lit "a.com"; px_method := lit "GET"; px_path := lit "/";
  px_remote_ip := Some (V4 1); px_scheme := Https; px_location := GeoLocation_unknown;
  px_timestamp_unix_ms := 0 |}.

Lemma bot_score_bounds_witness :
  0 <= bot_score (snd (@assess_bot_request AssocHeaders CoarseLog2 (example_request "curl/8.0") example_context 5 ∅)) <= 200.
Proof.
  apply (@bot_score_bounds CidrLib AssocHeaders CoarseLog2 (example_request "curl/8.0") DomainRules_default
    example_context 5 ∅).
Defined.

(** The default rules let a plain request through. *)
Example evaluate_default :
  snd (@evaluate CidrLib AssocHeaders CoarseLog2 (example_request "Mozilla/5.0") DomainRules_default
         example_context 5 {| po_rates := ∅; po_bots := ∅ |}) = None.
Proof. vm_compute. reflexivity. Qed.
