(* ===== verification/HttpPages.v ===== *)
(** The error answers of the [http-proxy] crate: the reasons of a failure and how
    they are found, the pages and their templates, the bandwidth page, and the
    files of ACME challenges.  The reason phrases of the [http] crate, the
    text of the built-in page and the file system are parameters. *)
From stdpp Require Import options.
From S2P Require Import Prelude RustStr RustNum RustNet CommonTypes CommonPath HttpLimits HttpHeaders HttpSelect.

Local Open Scope Z_scope.

(** ** Reasons *)

Inductive ProxyErrorReason :=
| RouteNotRegistered | RouteHasNoUpstreams | AllUpstreamsUnhealthy | CircuitBreakerOpen
| DnsResolutionFailed | ConnectionRefused | ConnectionTimeout | PortIncorrect | PortNotListening
| ConfigurationInvalid | ConnectionFailed | ProxyInternal.
#[export] Instance ProxyErrorReason_eq_dec : EqDecision ProxyErrorReason.
Proof. solve_decision. Defined.

Definition reason_code (r : ProxyErrorReason) : rstr :=
  lit match r with
  | RouteNotRegistered => "route_not_registered"
  | RouteHasNoUpstreams => "route_has_no_upstreams"
  | AllUpstreamsUnhealthy => "all_upstreams_unhealthy"
  | CircuitBreakerOpen => "circuit_breaker_open"
  | DnsResolutionFailed => "upstream_dns_resolution_failed"
  | ConnectionRefused => "upstream_connection_refused"
  | ConnectionTimeout => "upstream_connection_timeout"
  | PortIncorrect => "upstream_port_incorrect"
  | PortNotListening => "upstream_port_not_listening"
  | ConfigurationInvalid => "upstream_configuration_invalid"
  | ConnectionFailed => "upstream_connection_failed"
  | ProxyInternal => "proxy_internal_error"
  end.
Definition public_message (r : ProxyErrorReason) : rstr :=
  lit match r with
  | RouteNotRegistered => "No route is registered for this domain yet. The deployment may still be connecting to the proxy."
  | RouteHasNoUpstreams => "This domain is registered, but it does not have a runtime container target yet."
  | AllUpstreamsUnhealthy => "The deployment and route exist, but no registered runtime replica is currently healthy. Pxxl will resume traffic when a healthy replica is available."
  | CircuitBreakerOpen => "The app route exists, but recent upstream failures temporarily opened the protection circuit."
  | DnsResolutionFailed => "The route exists, but its runtime service name could not be resolved. Pxxl is retrying service discovery."
  | ConnectionRefused => "The route exists, but the runtime refused the connection. The app may still be starting or may only be bound to localhost."
  | ConnectionTimeout => "The route exists, but the runtime did not accept a connection before the timeout. The app or runtime network may be unavailable."
  | PortIncorrect => "The deployment exists, but its registered runtime port does not match the route. Configure the app to listen on the PORT value supplied by Pxxl and bind to 0.0.0.0."
  | PortNotListening => "The deployment exists, but nothing is listening on its registered runtime port. Make sure the app uses the PORT value supplied by Pxxl and binds to 0.0.0.0."
  | ConfigurationInvalid => "The route exists, but its runtime target is invalid. Review the deployment port and protocol, then redeploy the service."
  | ConnectionFailed => "The route exists, but Pxxl could not establish a connection to the runtime. The runtime may be restarting or temporarily unreachable."
  | ProxyInternal => "The proxy hit an internal routing error while serving this request."
  end.

(** The diagnostic codes of the runtime service, by the reason they mean. *)
Definition diagnostic_codes : list (ProxyErrorReason * list string) :=
  [ (RouteNotRegistered, ["route_not_registered"; "route_missing"; "global_route_missing"; "domain_mapping_missing"]%string);
    (RouteHasNoUpstreams, ["route_has_no_upstreams"; "deployment_mapping_issue"; "container_missing";
                           "allocated_port_missing"; "published_port_missing"]%string);
    (AllUpstreamsUnhealthy, ["all_upstreams_unhealthy"; "service_unhealthy"; "deployment_unhealthy"; "app_crashed"]%string);
    (CircuitBreakerOpen, ["circuit_breaker_open"]%string);
    (DnsResolutionFailed, ["upstream_dns_resolution_failed"; "dns_resolution_failed"; "dns_error"]%string);
    (ConnectionRefused, ["upstream_connection_refused"; "connection_refused"]%string);
    (ConnectionTimeout, ["upstream_connection_timeout"; "connection_timeout"; "upstream_timeout"]%string);
    (PortIncorrect, ["upstream_port_incorrect"; "incorrect_port"; "wrong_port"; "port_mismatch"; "allocated_port_wrong"]%string);
    (PortNotListening, ["upstream_port_not_listening"; "no_listener"]%string);
    (ConfigurationInvalid, ["upstream_configuration_invalid"; "stale_route_target"]%string);
    (ConnectionFailed, ["upstream_connection_failed"; "upstream_tcp_unreachable"]%string) ].
Definition runtime_diagnostic_reason (value : option rstr) : option ProxyErrorReason :=
  match value with
  | None => None
  | Some value =>
    let code := to_ascii_lowercase (trim value) in
    find_map (fun rc => if existsb (fun c => code =s? lit c) (snd rc) then Some (fst rc) else None) diagnostic_codes
  end.

Definition upstream_failure_reason (error : PxxlError) : ProxyErrorReason :=
  match error with
  | UpstreamDnsResolutionFailed _ => DnsResolutionFailed
  | UpstreamConnectionRefused _ => ConnectionRefused
  | UpstreamConnectionTimeout _ => ConnectionTimeout
  | UpstreamConnectionFailed _ => ConnectionFailed
  | InvalidUpstream _ => ConfigurationInvalid
  | _ => ProxyInternal
  end.

(** An error of the client and its sources: the kind of an I/O error, if it is
    one, and its text. *)
Inductive io_kind := KindRefused | KindTimedOut | KindOther.
Definition error_link : Type := option io_kind * rstr.
Definition DNS_MARKERS : list rstr := lits
  ["dns error"; "failed to lookup address"; "name or service not known"; "nodename nor servname provided";
   "no such host"; "temporary failure in name resolution"].
Definition is_dns_message (message : rstr) : bool :=
  existsb (fun marker => contains marker (to_ascii_lowercase message)) DNS_MARKERS.
Fixpoint classify_chain (chain : list error_link) (dns_failure : bool) (upstream : rstr) : PxxlError :=
  match chain with
  | (Some KindRefused, _) :: _ => UpstreamConnectionRefused upstream
  | (Some KindTimedOut, _) :: _ => UpstreamConnectionTimeout upstream
  | (_, message) :: chain' => classify_chain chain' (dns_failure || is_dns_message message) upstream
  | [] => if dns_failure then UpstreamDnsResolutionFailed upstream else UpstreamConnectionFailed upstream
  end.
Definition classify_upstream_client_error (chain : list error_link) (upstream : rstr) : PxxlError :=
  classify_chain chain false upstream.

Section unavailable.
Context {NL : IpNetLib}.
(** Each probe of a circuit may close it, so the breakers are threaded. *)
Fixpoint all_circuits_open (matched : RouteMatch) (now : Z) (ups : list Upstream) (m : Circuit.Breakers)
  : Circuit.Breakers * bool :=
  match ups with
  | [] => (m, true)
  | u :: ups' => let '(m, opened) := Circuit.circuit_is_open (breaker_key matched u) now m in
                 if opened then all_circuits_open matched now ups' m else (m, false)
  end.
Definition route_unavailable_reason (matched : RouteMatch) (ups : list Upstream) (now : Z) (m : Circuit.Breakers)
  : Circuit.Breakers * ProxyErrorReason :=
  if is_empty ups then (m, RouteHasNoUpstreams)
  else
    let healthy := filter (fun u => u_healthy u = true) ups in
    if (length healthy =? 0)%nat then (m, AllUpstreamsUnhealthy)
    else
      let '(m, blocked) := all_circuits_open matched now healthy m in
      (m, if blocked then CircuitBreakerOpen else AllUpstreamsUnhealthy).
End unavailable.

(** ** Pages *)

Definition escape_char (c : ascii) : rstr :=
  if beq c (chr "&") then lit "&amp;"
  else if beq c (chr "<") then lit "&lt;"
  else if beq c (chr ">") then lit "&gt;"
  else if beq c quote then lit "&quot;"
  else if beq c (chr "'") then lit "&#39;"
  else [c].
Definition escape_html (input : rstr) : rstr := flat_map escape_char input.

Record ErrorRenderContext := {
  rc_status : Z;
  rc_message : rstr;
  rc_reason_code : rstr;
  rc_domain : rstr;
  rc_path : rstr;
  rc_request_id : rstr;
  rc_processing_time_ms : Z;
}.

(** The answer: status, the content type of its body, the reason code header. *)
Record page_response := {
  ps_status : Z;
  ps_headers : list (rstr * rstr);
  ps_body : rstr;
}.
Definition response_with_body (status : Z) (content_type : string) (body : rstr) : page_response := {|
  ps_status := status;
  ps_headers := [(lit "content-type", lit content_type); (lit "cache-control", lit "no-store");
                 (lit "x-content-type-options", lit "nosniff")];
  ps_body := body |}.
Definition html_response (status : Z) (body : rstr) : page_response :=
  response_with_body status "text/html; charset=utf-8" body.
Definition text_response (status : Z) (message : rstr) : page_response :=
  response_with_body status "text/plain; charset=utf-8" message.
(** The reason codes of the source are header values. *)
Definition attach_error_code_header (code : rstr) (r : page_response) : page_response :=
  {| ps_status := ps_status r; ps_headers := ps_headers r ++ [(lit "x-pxxl-error-code", code)]; ps_body := ps_body r |}.

Record ErrorPageRenderer := {
  ep_enabled : bool;
  ep_pages : gmap Z rstr;
  ep_default_page : option rstr;
}.
Definition ErrorPageRenderer_default : ErrorPageRenderer :=
  {| ep_enabled := true; ep_pages := ∅; ep_default_page := None |}.
Definition ErrorPageRenderer_disabled : ErrorPageRenderer :=
  {| ep_enabled := false; ep_pages := ∅; ep_default_page := None |}.
Definition page_template (p : ErrorPageRenderer) (status : Z) : option rstr :=
  match ep_pages p !! status with Some t => Some t | None => ep_default_page p end.

Section pages.
Context (canonical_reason : Z -> option rstr) (DEFAULT_ERROR_TEMPLATE : rstr).

Definition render_error_template (template : rstr) (c : ErrorRenderContext) : rstr :=
  let status_code := to_dec (rc_status c) in
  let status_text := default (lit "Proxy Error") (canonical_reason (rc_status c)) in
  let domain := if is_empty (rc_domain c) then lit "unknown" else rc_domain c in
  let path := if is_empty (rc_path c) then lit "/" else rc_path c in
  let t := replace (lit "{{status_code}}") (escape_html status_code) template in
  let t := replace (lit "{{status_text}}") (escape_html status_text) t in
  let t := replace (lit "{{message}}") (escape_html (rc_message c)) t in
  let t := replace (lit "{{reason_code}}") (escape_html (rc_reason_code c)) t in
  let t := replace (lit "{{domain}}") (escape_html domain) t in
  let t := replace (lit "{{path}}") (escape_html path) t in
  let t := replace (lit "{{request_id}}") (escape_html (rc_request_id c)) t in
  replace (lit "{{processing_time_ms}}") (escape_html (to_dec (rc_processing_time_ms c))) t.
Definition default_error_html (c : ErrorRenderContext) : rstr := render_error_template DEFAULT_ERROR_TEMPLATE c.
Definition page_body (p : ErrorPageRenderer) (c : ErrorRenderContext) : rstr :=
  match page_template p (rc_status c) with
  | Some template => render_error_template template c
  | None => default_error_html c
  end.
Definition page_for (p : ErrorPageRenderer) (status : Z) (message domain path request_id : rstr)
    (processing_time_ms : Z) : page_response :=
  if negb (ep_enabled p) then text_response status message
  else html_response status (page_body p {|
    rc_status := status; rc_message := message; rc_reason_code := lit "proxy_error"; rc_domain := domain;
    rc_path := path; rc_request_id := request_id; rc_processing_time_ms := processing_time_ms |}).
Definition response_with_reason_code (p : ErrorPageRenderer) (c : ErrorRenderContext) : page_response :=
  if negb (ep_enabled p) then attach_error_code_header (rc_reason_code c) (text_response (rc_status c) (rc_message c))
  else attach_error_code_header (rc_reason_code c) (html_response (rc_status c) (page_body p c)).
(** [diagnostic] is the code the runtime service answered, if it did. *)
Definition diagnostic_error_response (p : ErrorPageRenderer) (diagnostic : option rstr) (status : Z)
    (reason : ProxyErrorReason) (domain request_id : rstr) (elapsed_ms : Z) : page_response :=
  let reason := default reason (runtime_diagnostic_reason diagnostic) in
  response_with_reason_code p {|
    rc_status := status; rc_message := public_message reason; rc_reason_code := reason_code reason;
    rc_domain := domain; rc_path := lit "/"; rc_request_id := request_id; rc_processing_time_ms := elapsed_ms |}.

(** *** The bandwidth page *)

(** [format!("{:.d$}", x)] of an [f64]: the exact value, rounded half to even. *)
Definition fixed (d : nat) (x : Z) : rstr :=
  let scale := 10 ^ Z.of_nat d in
  let n := div_half_even (x * scale) f64_one in
  to_dec (n / scale) ++ lit "." ++ zero_pad d (to_dec (n mod scale)).
Definition scaled_bytes (bytes unit : Z) : rstr := fixed 2 (f64_div (f64_of_int bytes) (f64_of_int unit)).
Definition format_bytes (bytes : Z) : rstr :=
  let KB := 1024 in
  let MB := KB * 1024 in
  let GB := MB * 1024 in
  let TB := GB * 1024 in
  if TB <=? bytes then scaled_bytes bytes TB ++ lit " TB"
  else if GB <=? bytes then scaled_bytes bytes GB ++ lit " GB"
  else if MB <=? bytes then scaled_bytes bytes MB ++ lit " MB"
  else if KB <=? bytes then scaled_bytes bytes KB ++ lit " KB"
  else to_dec bytes ++ lit " B".
Definition bandwidth_reset_date (now_secs reset_day : Z) : rstr :=
  let approx_reset := now_secs + 30 * 24 * 3600 in
  let days := approx_reset / 86400 in
  let year := 1970 + days / 365 in
  let month := (days mod 365) / 30 + 1 in
  let day := Z.min reset_day 28 in
  to_dec year ++ lit "-" ++ zero_pad 2 (to_dec month) ++ lit "-" ++ zero_pad 2 (to_dec day).

Record BandwidthExceededContext := {
  bw_status : Z;
  bw_domain : rstr;
  bw_path : rstr;
  bw_request_id : rstr;
  bw_processing_time_ms : Z;
  bw_bytes_used : Z;
  bw_bytes_limit : Z;
  bw_reset_day : Z;
}.
Definition percentage_used (used limit : Z) : Z :=
  if 0 <? limit then Z.min (f64_mul (f64_div (f64_of_int used) (f64_of_int limit)) (f64_of_int 100)) (f64_of_int 100)
  else f64_of_int 100.
Definition bandwidth_template_body (template : rstr) (now_secs : Z) (c : BandwidthExceededContext) : rstr :=
  let percentage := percentage_used (bw_bytes_used c) (bw_bytes_limit c) in
  let t := replace (lit "{{domain}}") (bw_domain c) template in
  let t := replace (lit "{{bytes_used}}") (format_bytes (bw_bytes_used c)) t in
  let t := replace (lit "{{bytes_limit}}") (format_bytes (bw_bytes_limit c)) t in
  let t := replace (lit "{{percentage_used}}") (fixed 1 percentage) t in
  let t := replace (lit "{{reset_date}}") (bandwidth_reset_date now_secs (bw_reset_day c)) t in
  let t := replace (lit "{{request_id}}") (bw_request_id c) t in
  let t := replace (lit "{{processing_time_ms}}") (to_dec (bw_processing_time_ms c)) t in
  let t := replace (lit "{{status_code}}") (to_dec (bw_status c)) t in
  let t := replace (lit "{{status_text}}") (default (lit "Bandwidth Limit Exceeded") (canonical_reason (bw_status c))) t in
  let t := replace (lit "{{message}}") (lit "Bandwidth limit exceeded") t in
  let t := replace (lit "{{reason_code}}") (lit "bandwidth_limit_exceeded") t in
  replace (lit "{{path}}") (bw_path c) t.
Definition bandwidth_fallback_body (now_secs : Z) (c : BandwidthExceededContext) : rstr :=
  lit "<!DOCTYPE html><html><head><title>509 Bandwidth Limit Exceeded</title></head>" ++ [LF]
  ++ lit "<body><h1>509 Bandwidth Limit Exceeded</h1>" ++ [LF]
  ++ lit "<p>Domain <strong>" ++ bw_domain c ++ lit "</strong> has exceeded its bandwidth limit.</p>" ++ [LF]
  ++ lit "<p>Used: " ++ format_bytes (bw_bytes_used c) ++ lit " / Limit: " ++ format_bytes (bw_bytes_limit c)
  ++ lit " (" ++ fixed 1 (percentage_used (bw_bytes_used c) (bw_bytes_limit c)) ++ lit "%)</p>" ++ [LF]
  ++ lit "<p>Resets: " ++ bandwidth_reset_date now_secs (bw_reset_day c) ++ lit "</p>" ++ [LF]
  ++ lit "<p>Request ID: " ++ bw_request_id c ++ lit "</p>" ++ [LF]
  ++ lit "<p>Processing time: " ++ to_dec (bw_processing_time_ms c) ++ lit " ms</p>" ++ [LF]
  ++ lit "</body></html>".
Definition bandwidth_exceeded_response (p : ErrorPageRenderer) (now_secs : Z) (c : BandwidthExceededContext) : page_response :=
  html_response (bw_status c)
    match page_template p (bw_status c) with
    | Some template => bandwidth_template_body template now_secs c
    | None => bandwidth_fallback_body now_secs c
    end.
End pages.

(** ** ACME challenges *)

Definition ACME_CHALLENGE_PREFIX : rstr := lit "/.well-known/acme-challenge/".
Definition bad_acme_token (token : rstr) : bool :=
  is_empty token || contains_char (chr "/") token || contains_char (byte_of 92) token
  || (token =s? lit ".") || (token =s? lit "..") || starts_with (lit ".") token.
Definition acme_files (root token : rstr) : list rstr :=
  [root ++ lit "/.well-known/acme-challenge/" ++ token; root ++ lit "/" ++ token].
(** [read] is the text of a file; [root] the directory of the challenges. *)
Definition serve_acme_http01_challenge (root : rstr) (read : rstr -> option rstr) (path : rstr) : option page_response :=
  match strip_prefix ACME_CHALLENGE_PREFIX path with
  | None => None
  | Some token =>
    if bad_acme_token token then Some (text_response 400 (lit "invalid acme challenge token"))
    else match find_map read (acme_files root token) with
    | Some value => Some (response_with_body 200 "text/plain; charset=utf-8" value)
    | None => Some (text_response 404 (lit "acme challenge not found"))
    end
  end.

(** ** Markup comes only from the templates *)

Definition count_char (c : ascii) (s : rstr) : nat := length (filter (fun b => b = c) s).
(** The characters that can open or close a tag or an attribute value. *)
Definition markup : list ascii := [chr "<"; chr ">"; quote; chr "'"].

Lemma count_char_app c s t : count_char c (s ++ t) = (count_char c s + count_char c t)%nat.
Proof. unfold count_char. by rewrite filter_app, length_app. Qed.

Lemma count_char_replace c p by_ s :
  count_char c p = O -> count_char c by_ = O -> count_char c (replace p by_ s) = count_char c s.
Proof.
  intros Hp Hb. unfold replace. generalize (S (length s)) as fuel. intros fuel.
  revert s. induction fuel as [|n IH]; intros s; [done|]. cbn [replace_fuel].
  destruct (strip_prefix p s) as [s'|] eqn:E.
  - apply strip_prefix_Some in E as ->. rewrite !count_char_app, IH. lia.
  - destruct s as [|b s]; [done|]. change (b :: s) with ([b] ++ s).
    change (b :: replace_fuel n p by_ s) with ([b] ++ replace_fuel n p by_ s). rewrite !count_char_app, IH. done.
Qed.

Lemma escape_html_no_markup c s : c ∈ markup -> count_char c (escape_html s) = O.
Proof.
  intros Hc. unfold escape_html. induction s as [|b s IH]; [done|]. cbn [flat_map].
  rewrite count_char_app, IH, Nat.add_0_r. unfold escape_char.
  assert (Hlits : forall e, e ∈ [lit "&amp;"; lit "&lt;"; lit "&gt;"; lit "&quot;"; lit "&#39;"] -> count_char c e = O).
  { clear IH. apply Forall_forall. revert c Hc. apply Forall_forall. by repeat constructor. }
  repeat case_match; try (apply Hlits; set_solver).
  unfold count_char. rewrite filter_cons_False, filter_nil; [done|].
  intros ->. unfold markup in Hc. rewrite !elem_of_cons in Hc.
  destruct Hc as [->|[->|[->|[->|Hc]]]]; [rewrite beq_refl in *; done..|set_solver].
Qed.

Lemma count_char_escape c p v s :
  c ∈ markup -> count_char c p = O -> count_char c (replace p (escape_html v) s) = count_char c s.
Proof. intros Hc Hp. apply count_char_replace; [done|]. by apply escape_html_no_markup. Qed.

(** No value of a request can add markup to an error page: whatever the
    message, domain, path or request identifier contain (a placeholder that a
    later substitution expands included), the page has exactly the angle brackets
    and quotes of its template. *)
Theorem error_page_markup canonical_reason builtin p context c :
  c ∈ markup ->
  count_char c (page_body canonical_reason builtin p context) =
  count_char c (default builtin (page_template p (rc_status context))).
Proof.
  intros Hc. assert (Hr : forall t, count_char c (render_error_template canonical_reason t context) = count_char c t).
  { intros t. unfold render_error_template.
    rewrite !count_char_escape by (first [done | revert c Hc; apply Forall_forall; by repeat constructor]). done. }
  unfold page_body, default_error_html. destruct (page_template p (rc_status context)); apply Hr.
Qed.
Definition demo_page : ErrorPageRenderer :=
  {| ep_enabled := true; ep_pages := ∅; ep_default_page := Some (lit "<p title='x'>{{message}} {{path}}</p>") |}.
Definition demo_context : ErrorRenderContext := {|
  rc_status := 404; rc_message := lit "{{path}}"; rc_reason_code := lit "r"; rc_domain := lit "a.com";
  rc_path := lit "/<script>"; rc_request_id := lit "id"; rc_processing_time_ms := 3 |}.
Lemma error_page_markup_witness :
  count_char (chr "<") (page_body (fun _ => None) [] demo_page demo_context) = 2%nat.
Proof. apply (error_page_markup (fun _ => None) [] demo_page demo_context (chr "<")). by left. Defined.

(** The bandwidth page inserts its values as they are: in a template that shows
    the path, the path of the request is markup. *)
Lemma bandwidth_path_unescaped canonical_reason now c :
  bandwidth_template_body canonical_reason (lit "{{path}}") now c = bw_path c.
Proof.
  unfold bandwidth_template_body.
  assert (Hskip : forall p v, p ∈ lits ["{{domain}}"; "{{bytes_used}}"; "{{bytes_limit}}"; "{{percentage_used}}";
    "{{reset_date}}"; "{{request_id}}"; "{{processing_time_ms}}"; "{{status_code}}"; "{{status_text}}"; "{{message}}";
    "{{reason_code}}"] -> replace p v (lit "{{path}}") = lit "{{path}}").
  { intros p v Hp. revert p Hp. apply Forall_forall. by repeat constructor. }
  rewrite (Hskip (lit "{{domain}}")),
    (Hskip (lit "{{bytes_used}}")),
    (Hskip (lit "{{bytes_limit}}")),
    (Hskip (lit "{{percentage_used}}")),
    (Hskip (lit "{{reset_date}}")),
    (Hskip (lit "{{request_id}}")),
    (Hskip (lit "{{processing_time_ms}}")),
    (Hskip (lit "{{status_code}}")),
    (Hskip (lit "{{status_text}}")),
    (Hskip (lit "{{message}}")),
    (Hskip (lit "{{reason_code}}")) by by_decide.
  change (bw_path c ++ [] = bw_path c). apply app_nil_r.
Qed.

(** ** Which files an ACME request can read *)

Definition safe_token (token : rstr) : Prop :=
  token <> [] /\ (chr "/" ∉ token) /\ (byte_of 92 ∉ token) /\ starts_with (lit ".") token = false.

Lemma contains_char_false c s : contains_char c s = false <-> c ∉ s.
Proof.
  unfold contains_char. split.
  - intros H Hc. assert (existsb (beq c) s = true); [|congruence].
    apply existsb_exists. exists c. split; [by apply list_elem_of_In|apply beq_refl].
  - intros H. destruct (existsb (beq c) s) eqn:E; [|done].
    apply existsb_exists in E as (b & Hb & Heq%beq_true). subst b. by apply list_elem_of_In in Hb.
Qed.

Lemma bad_acme_token_false token : bad_acme_token token = false -> safe_token token.
Proof.
  unfold bad_acme_token. rewrite !orb_false_iff, !contains_char_false.
  intros (((((He & Hs) & Hb) & _) & _) & Hd). split; [by destruct token|done].
Qed.

(** An ACME request reads only files directly inside the two challenge
    directories: two file systems that agree on those files give the same
    answer to every request path, so no name with a separator or a leading dot
    ever leaves the directory. *)
Theorem acme_confined root read1 read2 path :
  (forall token, safe_token token ->
     read1 (root ++ lit "/.well-known/acme-challenge/" ++ token) = read2 (root ++ lit "/.well-known/acme-challenge/" ++ token) /\
     read1 (root ++ lit "/" ++ token) = read2 (root ++ lit "/" ++ token)) ->
  serve_acme_http01_challenge root read1 path = serve_acme_http01_challenge root read2 path.
Proof.
  intros Hagree. unfold serve_acme_http01_challenge.
  destruct (strip_prefix ACME_CHALLENGE_PREFIX path) as [token|]; [|done].
  destruct (bad_acme_token token) eqn:E; [done|]. apply bad_acme_token_false, Hagree in E as [E1 E2].
  unfold acme_files. cbn [find_map]. by rewrite E1, E2.
Qed.
Lemma acme_confined_witness :
  let read1 := fun f => if f =s? lit "/data/tok" then Some (lit "proof") else None in
  let read2 := fun f => if f =s? lit "/data/tok" then Some (lit "proof")
                        else if f =s? lit "/etc/key.pem" then Some (lit "secret") else None in
  serve_acme_http01_challenge (lit "/data") read1 (lit "/.well-known/acme-challenge/tok")
  = serve_acme_http01_challenge (lit "/data") read2 (lit "/.well-known/acme-challenge/tok").
Proof.
  apply acme_confined. intros token _.
  assert (H : forall x, (lit "/data" ++ x =s? lit "/etc/key.pem") = false) by (intros x; by apply seqb_false).
  split; rewrite H; done.
Defined.

(** ** Why a route is unavailable *)

Section unavailable_spec.
Context {NL : IpNetLib}.
Lemma all_circuits_open_spec (matched : RouteMatch) now ups m :
  snd (all_circuits_open matched now ups m) = forallb (fun u => open_now m (breaker_key matched u) now) ups.
Proof.
  revert m. induction ups as [|u ups IH]; intros m; [done|]. cbn [all_circuits_open forallb].
  assert (Hp : forall v, open_now (fst (Circuit.circuit_is_open (breaker_key matched u) now m)) (breaker_key matched v) now
                         = open_now m (breaker_key matched v) now) by (intros; apply open_now_probe).
  change (open_now m (breaker_key matched u) now) with (snd (Circuit.circuit_is_open (breaker_key matched u) now m)).
  destruct (Circuit.circuit_is_open (breaker_key matched u) now m) as [m' opened]. cbn [snd fst] in *.
  destruct opened; [|done]. rewrite IH. cbn [andb]. clear IH.
  induction ups as [|v ups IHu]; [done|]. cbn [forallb]. by rewrite Hp, IHu.
Qed.

(** The reason given for an unavailable route is exact: no upstreams, none of
    them healthy, or every healthy one behind an open circuit; with a healthy
    upstream whose circuit is closed the reason is the general one. *)
Theorem unavailable_reason_exact (matched : RouteMatch) ups now m :
  let healthy := filter (fun u => u_healthy u = true) ups in
  let reason := snd (route_unavailable_reason matched ups now m) in
  (reason = RouteHasNoUpstreams <-> ups = []) /\
  (reason = CircuitBreakerOpen <->
     healthy <> [] /\ forall u, u ∈ healthy -> open_now m (breaker_key matched u) now = true) /\
  (reason = RouteHasNoUpstreams \/ reason = CircuitBreakerOpen \/ reason = AllUpstreamsUnhealthy).
Proof.
  intros healthy reason. unfold reason, route_unavailable_reason. fold healthy.
  destruct ups as [|u ups]; [naive_solver|]. cbn [is_empty].
  destruct (Nat.eqb_spec (length healthy) 0) as [Hz|Hz].
  { apply length_zero_iff_nil in Hz. rewrite Hz. cbn [snd]. naive_solver. }
  pose proof (all_circuits_open_spec matched now healthy m) as Ha.
  destruct (all_circuits_open matched now healthy m) as [m' blocked]. cbn [snd] in *.
  assert (Hall : blocked = true <-> forall u, u ∈ healthy -> open_now m (breaker_key matched u) now = true).
  { rewrite Ha, forallb_forall. setoid_rewrite list_elem_of_In. done. }
  assert (healthy <> []) by (intros E; by rewrite E in Hz).
  destruct blocked; naive_solver.
Qed.
End unavailable_spec.

(** ** Reasons and their codes *)

(** The codes the proxy reports are among those it understands. *)
Lemma reason_code_roundtrip r : r <> ProxyInternal -> runtime_diagnostic_reason (Some (reason_code r)) = Some r.
Proof. by destruct r. Qed.

(** The first refused or timed-out link of the chain decides; otherwise it is a
    resolution failure exactly when some link says so. *)
Lemma classify_chain_spec chain dns upstream :
  classify_chain chain dns upstream =
  match List.find (fun l => match fst l with Some KindRefused | Some KindTimedOut => true | _ => false end) chain with
  | Some (Some KindRefused, _) => UpstreamConnectionRefused upstream
  | Some _ => UpstreamConnectionTimeout upstream
  | None => if dns || existsb (fun l => is_dns_message (snd l)) chain then UpstreamDnsResolutionFailed upstream
            else UpstreamConnectionFailed upstream
  end.
Proof.
  revert dns. induction chain as [|[[[]|] message] chain IH]; intros dns;
    cbn [classify_chain List.find fst snd existsb]; try done; [by rewrite orb_false_r|..];
    rewrite IH; repeat case_match; try done; by rewrite <-orb_assoc in *; congruence.
Qed.
