(* ===== verification/DatabaseProxy.v ===== *)
(** The [database-proxy] crate: the registry of database routes with its index
    by public port, the parsing of a PostgreSQL start-up packet, and the choice
    of the upstream of a connection.  Bytes are characters; the inbound socket
    is the list of the bytes it will deliver. *)
From stdpp Require Import options.
From S2P Require Import Prelude RustStr RustNum.

Local Open Scope Z_scope.

Definition POSTGRES_SSL_REQUEST_CODE : Z := 80877103.
Definition POSTGRES_GSSENC_REQUEST_CODE : Z := 80877104.
Definition POSTGRES_STARTUP_MAX_BYTES : Z := 64 * 1024.

Record DatabaseProxyRoute := {
  dp_database_type : rstr;
  dp_key : rstr;
  dp_upstream : rstr;
  dp_route_host : option rstr;
  dp_public_port : option Z;
}.

Definition normalize_database_type (value : rstr) : rstr :=
  let v := to_ascii_lowercase (trim value) in
  if v =s? lit "postgresql" then lit "postgres"
  else if v =s? lit "dragonflydb" then lit "dragonfly"
  else v.
Definition normalize_route_key (value : rstr) : rstr := to_ascii_lowercase (trim value).

(** ** The registry *)

Record DatabaseRouteRegistry := {
  db_routes : gmap rstr (gmap rstr rstr);
  db_metadata : gmap rstr (gmap rstr DatabaseProxyRoute);
  db_routes_by_port : gmap Z rstr;
}.
Definition DatabaseRouteRegistry_default : DatabaseRouteRegistry :=
  {| db_routes := ∅; db_metadata := ∅; db_routes_by_port := ∅ |}.

(** [map.entry(a).or_default().insert(b, v)] *)
Definition insert2 {V} (a b : rstr) (v : V) (m : gmap rstr (gmap rstr V)) : gmap rstr (gmap rstr V) :=
  <[a := <[b := v]> (default ∅ (m !! a))]> m.
Definition lookup2 {V} (m : gmap rstr (gmap rstr V)) (a b : rstr) : option V :=
  match m !! a with Some inner => inner !! b | None => None end.

Definition normalized (route : DatabaseProxyRoute) : DatabaseProxyRoute := {|
  dp_database_type := normalize_database_type (dp_database_type route);
  dp_key := normalize_route_key (dp_key route);
  dp_upstream := dp_upstream route; dp_route_host := dp_route_host route;
  dp_public_port := dp_public_port route |}.

Definition db_upsert (route : DatabaseProxyRoute) (r : DatabaseRouteRegistry) : DatabaseRouteRegistry :=
  let database_type := normalize_database_type (dp_database_type route) in
  let key := normalize_route_key (dp_key route) in
  let upstream := trim (dp_upstream route) in
  if is_empty database_type || is_empty key || is_empty upstream then r
  else {|
    db_routes := insert2 database_type key upstream (db_routes r);
    db_metadata := insert2 database_type key (normalized route) (db_metadata r);
    db_routes_by_port := match dp_public_port route with
                         | Some port => <[port := upstream]> (db_routes_by_port r)
                         | None => db_routes_by_port r
                         end |}.

Definition db_new (routes : list DatabaseProxyRoute) : DatabaseRouteRegistry :=
  foldl (fun r route => db_upsert route r) DatabaseRouteRegistry_default routes.

Definition db_delete (database_type key : rstr) (r : DatabaseRouteRegistry) : DatabaseRouteRegistry * bool :=
  let database_type := normalize_database_type database_type in
  let key := normalize_route_key key in
  match db_routes r !! database_type with
  | None => (r, false)
  | Some by_key =>
    let deleted := bool_decide (is_Some (by_key !! key)) in
    let by_key := delete key by_key in
    let '(metadata, by_port) :=
      match db_metadata r !! database_type with
      | None => (db_metadata r, db_routes_by_port r)
      | Some meta =>
        (<[database_type := delete key meta]> (db_metadata r),
         match meta !! key with
         | Some route => match dp_public_port route with
                         | Some port => delete port (db_routes_by_port r)
                         | None => db_routes_by_port r
                         end
         | None => db_routes_by_port r
         end)
      end in
    ({| db_routes := if bool_decide (by_key = ∅) then delete database_type (db_routes r)
                     else <[database_type := by_key]> (db_routes r);
        db_metadata := metadata; db_routes_by_port := by_port |}, deleted)
  end.

Definition db_resolve (r : DatabaseRouteRegistry) (database_type key : rstr) : option rstr :=
  lookup2 (db_routes r) (normalize_database_type database_type) (normalize_route_key key).
Definition db_resolve_only_route (r : DatabaseRouteRegistry) (database_type : rstr) : option rstr :=
  match db_routes r !! normalize_database_type database_type with
  | None => None
  | Some by_key => if (size by_key =? 1)%nat then head (snd <$> map_to_list by_key) else None
  end.
Definition db_resolve_public_port (r : DatabaseRouteRegistry) (port : Z) : option rstr :=
  db_routes_by_port r !! port.

(** In the order of the types and keys, as [BTreeMap] iterates. *)
Definition db_list (r : DatabaseRouteRegistry) : list DatabaseProxyRoute :=
  flat_map (fun kv => snd <$> btree_to_list (snd kv)) (btree_to_list (db_metadata r)).

(** ** The start-up packet *)

Record PostgresStartup := {
  pg_user : option rstr;
  pg_database : option rstr;
  pg_parameters : gmap rstr rstr;
}.

Definition non_blank (o : option rstr) : option rstr :=
  match o with Some v => if is_empty (trim v) then None else Some v | None => None end.
Definition route_key (s : PostgresStartup) : option rstr :=
  normalize_route_key <$> match non_blank (pg_database s) with
                          | Some v => Some v
                          | None => non_blank (pg_user s)
                          end.

Definition NUL : ascii := byte_of 0.
Definition startup_key_error : rstr := lit "postgres startup key was not UTF-8".
Definition startup_value_error : rstr := lit "postgres startup value was not UTF-8".
Fixpoint startup_pairs (parts : list rstr) (m : gmap rstr rstr) : result rstr (gmap rstr rstr) :=
  match parts with
  | key :: value :: parts' =>
    if negb (valid_utf8 key) then Err startup_key_error
    else if negb (valid_utf8 value) then Err startup_value_error
    else startup_pairs parts' (<[key := value]> m)
  | _ => Ok m
  end.
Definition parse_postgres_startup_parameters (bytes : rstr) : result rstr PostgresStartup :=
  let parts := filter (fun part => is_empty part = false) (split NUL bytes) in
  let? m := startup_pairs parts ∅ in
  Ok {| pg_user := m !! lit "user"; pg_database := m !! lit "database"; pg_parameters := m |}.

Definition u32_from_be_bytes (b : rstr) : Z := foldl (fun acc x => acc * 256 + bz x) 0 b.

(** [read_exact]: the first [n] bytes, if the peer sends as many. *)
Definition read_exact (n : Z) (stream : rstr) : result rstr (rstr * rstr) :=
  if Z.of_nat (length stream) <? n then Err (lit "early eof")
  else Ok (take (Z.to_nat n) stream, drop (Z.to_nat n) stream).

(** The packet loop: the start-up parameters, the bytes to pass on, the number
    of [N] replies to encryption requests, and what is left of the stream.
    Every round takes at least eight bytes, so the length of the stream is
    enough fuel. *)
Record startup_read := {
  sr_startup : PostgresStartup;
  sr_prelude : rstr;
  sr_refusals : nat;
  sr_rest : rstr;
}.
Definition packet_length_error (n : Z) : rstr := lit "invalid postgres startup packet length " ++ to_dec n.
Fixpoint read_startup_loop (fuel : nat) (stream : rstr) (refusals : nat) : result rstr startup_read :=
  match fuel with
  | O => Err (lit "early eof")
  | S fuel' =>
    let? len_rest := read_exact 4 stream in
    let packet_len := u32_from_be_bytes (fst len_rest) in
    if negb ((8 <=? packet_len) && (packet_len <=? POSTGRES_STARTUP_MAX_BYTES)) then
      Err (packet_length_error packet_len)
    else
      let? packet := read_exact (packet_len - 4) (snd len_rest) in
      let code := u32_from_be_bytes (take 4 (fst packet)) in
      if (code =? POSTGRES_SSL_REQUEST_CODE) || (code =? POSTGRES_GSSENC_REQUEST_CODE) then
        read_startup_loop fuel' (snd packet) (S refusals)
      else
        let? startup := parse_postgres_startup_parameters (drop 4 (fst packet)) in
        Ok {| sr_startup := startup; sr_prelude := fst len_rest ++ fst packet;
              sr_refusals := refusals; sr_rest := snd packet |}
  end.
Definition read_postgres_startup_packet (stream : rstr) : result rstr startup_read :=
  read_startup_loop (S (length stream)) stream 0.

(** ** A connection *)

Definition require_database_proxy_token (token_env : option rstr) (s : PostgresStartup) : result rstr unit :=
  match token_env with
  | None => Err (lit "PXXL_DATABASE_PROXY_TOKEN is required for database proxy auth")
  | Some expected =>
    match (match pg_parameters s !! lit "pxxl_proxy_token" with
           | Some v => if is_empty (trim v) then None else Some (trim v)
           | None => None
           end) with
    | None => Err (lit "missing database proxy token")
    | Some provided => if provided =s? expected then Ok tt else Err (lit "invalid database proxy token")
    end
  end.

Definition no_route_error (database_type : rstr) (key : option rstr) : rstr :=
  lit "no database proxy route for type=" ++ database_type ++ lit " key=" ++ default (lit "<none>") key.
(** The upstream and what is sent to it before the bytes of the client. *)
Definition choose_database (token_env : option rstr) (database_type : rstr) (stream : rstr)
    (r : DatabaseRouteRegistry) : result rstr (rstr * rstr) :=
  let? key_prelude :=
    if (database_type =s? lit "postgres") || (database_type =s? lit "postgresql") then
      let? read := read_postgres_startup_packet stream in
      do? require_database_proxy_token token_env (sr_startup read) in
      Ok (route_key (sr_startup read), sr_prelude read)
    else Ok (None, []) in
  let resolved :=
    match fst key_prelude with Some key => db_resolve r database_type key | None => None end in
  match (match resolved with Some u => Some u | None => db_resolve_only_route r database_type end) with
  | Some upstream => Ok (upstream, snd key_prelude)
  | None => Err (no_route_error database_type (fst key_prelude))
  end.
Definition public_port_upstream (r : DatabaseRouteRegistry) (port : Z) : result rstr rstr :=
  ok_or (lit "no database proxy route for public_port=" ++ to_dec port) (db_resolve_public_port r port).

(** ** The registry refines a finite map from (type, key) to routes *)

Inductive db_op := DbUpsert (route : DatabaseProxyRoute) | DbDelete (database_type key : rstr).
Definition db_step (r : DatabaseRouteRegistry) (op : db_op) : DatabaseRouteRegistry :=
  match op with DbUpsert route => db_upsert route r | DbDelete t k => fst (db_delete t k r) end.

Abbreviation db_spec := (gmap (rstr * rstr) DatabaseProxyRoute).
Definition db_entry (t k : rstr) : rstr * rstr := (normalize_database_type t, normalize_route_key k).
Definition storable (route : DatabaseProxyRoute) : bool :=
  let '(t, k) := db_entry (dp_database_type route) (dp_key route) in
  negb (is_empty t || is_empty k || is_empty (trim (dp_upstream route))).
Definition spec_step (M : db_spec) (op : db_op) : db_spec :=
  match op with
  | DbUpsert route =>
    if storable route then <[db_entry (dp_database_type route) (dp_key route) := normalized route]> M else M
  | DbDelete t k => delete (db_entry t k) M
  end.
Definition upstream_of (route : DatabaseProxyRoute) : rstr := trim (dp_upstream route).

Record db_repr (r : DatabaseRouteRegistry) (M : db_spec) : Prop := {
  repr_routes a b : lookup2 (db_routes r) a b = upstream_of <$> M !! (a, b);
  repr_metadata a b : lookup2 (db_metadata r) a b = M !! (a, b);
  repr_inner a m : db_routes r !! a = Some m -> m <> ∅;
}.

Lemma lookup2_insert2 {V} (a b : rstr) (v : V) m a' b' :
  lookup2 (insert2 a b v m) a' b' = if decide ((a', b') = (a, b)) then Some v else lookup2 m a' b'.
Proof.
  unfold lookup2, insert2. destruct (decide (a' = a)) as [->|Ha].
  - rewrite lookup_insert_eq. case_decide as Hd.
    + simplify_eq. apply lookup_insert_eq.
    + rewrite lookup_insert_ne by naive_solver. by destruct (m !! a).
  - rewrite lookup_insert_ne by done. rewrite decide_False by naive_solver. done.
Qed.

Lemma lookup2_shrink {V} (a b : rstr) (m : gmap rstr (gmap rstr V)) (inner : gmap rstr V) m' (a' b' : rstr) :
  m !! a = Some inner ->
  m' = <[a := delete b inner]> m \/ (delete b inner = ∅ /\ m' = delete a m) ->
  lookup2 m' a' b' = if decide ((a', b') = (a, b)) then None else lookup2 m a' b'.
Proof.
  unfold lookup2. intros Hm Hm'. destruct (decide (a' = a)) as [->|Ha].
  - destruct Hm' as [->|[He ->]]; rewrite ?lookup_insert_eq, ?lookup_delete_eq, Hm.
    + case_decide; simplify_eq; [apply lookup_delete_eq | apply lookup_delete_ne; naive_solver].
    + case_decide as Hd; [done|]. symmetry.
      rewrite <-(lookup_delete_ne inner b) by naive_solver. by rewrite He.
  - rewrite decide_False by naive_solver.
    destruct Hm' as [->|[_ ->]]; [rewrite lookup_insert_ne by done | rewrite lookup_delete_ne by done]; done.
Qed.

Lemma spec_insert_lookup (M : db_spec) e x e' :
  <[e := x]> M !! e' = if decide (e' = e) then Some x else M !! e'.
Proof. case_decide; subst; [apply lookup_insert_eq | by apply lookup_insert_ne]. Qed.
Lemma spec_delete_lookup (M : db_spec) e e' :
  delete e M !! e' = if decide (e' = e) then None else M !! e'.
Proof. case_decide; subst; [apply lookup_delete_eq | by apply lookup_delete_ne]. Qed.

Lemma db_upsert_repr r M route :
  db_repr r M -> db_repr (db_upsert route r) (spec_step M (DbUpsert route)).
Proof.
  intros [Hr Hm Hi]. unfold db_upsert, spec_step, storable, db_entry.
  destruct (is_empty _ || _ || _) eqn:Hg; cbn [negb]; [done|]. constructor; cbn.
  - intros a b. rewrite lookup2_insert2, Hr, spec_insert_lookup. by case_decide.
  - intros a b. rewrite lookup2_insert2, Hm, spec_insert_lookup. done.
  - intros a m. unfold insert2. rewrite lookup_insert_Some. intros [[<- <-]|[_ H]]; [|by eapply Hi].
    apply insert_non_empty.
Qed.

Lemma lookup2_nonempty {V} (m : gmap rstr (gmap rstr V)) (a : rstr) (inner : gmap rstr V) :
  m !! a = Some inner -> inner <> ∅ -> exists b, is_Some (lookup2 m a b).
Proof.
  intros Hm Hne. destruct (map_choose inner Hne) as (b & x & Hb).
  exists b, x. unfold lookup2. by rewrite Hm.
Qed.

Lemma db_delete_repr r M t k :
  db_repr r M ->
  db_repr (fst (db_delete t k r)) (spec_step M (DbDelete t k)) /\
  snd (db_delete t k r) = bool_decide (is_Some (M !! db_entry t k)).
Proof.
  intros [Hr Hm Hi]. unfold db_delete, spec_step.
  set (t' := normalize_database_type t). set (k' := normalize_route_key k).
  assert (He : db_entry t k = (t', k')) by done. rewrite He.
  pose proof (Hr t' k') as Hrk. unfold lookup2 in Hrk.
  destruct (db_routes r !! t') as [by_key|] eqn:Hbk; cbn [fst snd].
  2:{ destruct (M !! (t', k')) eqn:HM; [done|]. rewrite delete_id by done. done. }
  destruct (lookup2_nonempty _ _ _ Hbk (Hi _ _ Hbk)) as [b0 Hb0].
  rewrite Hr, fmap_is_Some, <-Hm in Hb0. unfold lookup2 in Hb0.
  destruct (db_metadata r !! t') as [meta|] eqn:Hmeta; [clear Hb0 | by destruct Hb0]. cbn [fst snd].
  split; [constructor; cbn [db_routes db_metadata]|].
  - intros a b.
    rewrite (lookup2_shrink t' k' (db_routes r) by_key), Hr, spec_delete_lookup;
      [by case_decide | done |].
    destruct (bool_decide_reflect (delete k' by_key = ∅)); auto.
  - intros a b. rewrite (lookup2_shrink t' k' (db_metadata r) meta), Hm, spec_delete_lookup; auto.
  - intros a m. destruct (bool_decide_reflect (delete k' by_key = ∅)).
    + rewrite lookup_delete_Some. intros [_ H]. by eapply Hi.
    + rewrite lookup_insert_Some. intros [[_ <-]|[_ H]]; [done | by eapply Hi].
  - rewrite Hrk. apply bool_decide_ext, fmap_is_Some.
Qed.

Lemma db_run_repr ops : db_repr (foldl db_step DatabaseRouteRegistry_default ops) (foldl spec_step ∅ ops).
Proof.
  induction ops as [|op ops IH] using rev_ind.
  - constructor; intros; unfold lookup2 in *; cbn in *; by rewrite ?lookup_empty in *.
  - rewrite !foldl_snoc. destruct op as [route | t k]; [by apply db_upsert_repr | by apply db_delete_repr].
Qed.

Lemma db_spec_keyed ops e route :
  foldl spec_step ∅ ops !! e = Some route -> e = (dp_database_type route, dp_key route).
Proof.
  revert e route. induction ops as [|op ops IH] using rev_ind; intros e route; [by cbn [foldl]; rewrite lookup_empty|].
  rewrite foldl_snoc. destruct op as [x | t k]; cbn [spec_step].
  - destruct (storable x); [|apply IH]. rewrite spec_insert_lookup.
    case_decide; [|apply IH]. intros [= <-]. by subst.
  - rewrite spec_delete_lookup. case_decide; [done | apply IH].
Qed.

Lemma size_one_only {V} (m : gmap rstr V) v :
  (size m = 1%nat /\ head (snd <$> map_to_list m) = Some v) <->
  exists k, m !! k = Some v /\ forall k', is_Some (m !! k') -> k' = k.
Proof.
  split.
  - intros [Hs Hh]. rewrite <-(length_map_to_list m) in Hs.
    pose proof (elem_of_map_to_list m) as Hel.
    destruct (map_to_list m) as [|[k x] [|]]; [done| |done]. cbn in Hh. simplify_eq.
    exists k. split; [apply Hel; left|]. intros k' [y Hy]. apply Hel in Hy.
    apply list_elem_of_singleton in Hy. congruence.
  - intros (k & Hk & Hu). assert (m = {[k := v]}) as ->.
    { apply map_eq. intros k'. destruct (decide (k' = k)) as [->|Hne]; [by rewrite lookup_singleton_eq|].
      rewrite lookup_singleton_ne by done. destruct (m !! k') eqn:E; [|done].
      exfalso. apply Hne, Hu. by eexists. }
    rewrite map_size_singleton, map_to_list_singleton. done.
Qed.

Section Refinement.
  Context (r : DatabaseRouteRegistry) (M : db_spec).
  Hypothesis Hrepr : db_repr r M.
  Hypothesis Hkeyed : forall e route, M !! e = Some route -> e = (dp_database_type route, dp_key route).

Lemma db_only_route_spec t u :
  db_resolve_only_route r t = Some u <->
  exists k route, M !! (normalize_database_type t, k) = Some route /\ upstream_of route = u /\
    forall k', is_Some (M !! (normalize_database_type t, k')) -> k' = k.
Proof using Hrepr.
  unfold db_resolve_only_route. set (t' := normalize_database_type t).
  pose proof (repr_routes _ _ Hrepr t') as Hr. unfold lookup2 in Hr.
  destruct (db_routes r !! t') as [m|] eqn:Hm.
  - transitivity (exists k, m !! k = Some u /\ forall k', is_Some (m !! k') -> k' = k).
    + rewrite <-size_one_only. destruct (Nat.eqb_spec (size m) 1); naive_solver.
    + setoid_rewrite Hr. setoid_rewrite fmap_Some. setoid_rewrite fmap_is_Some. naive_solver.
  - split; [done|]. intros (k & route & Hk & _). specialize (Hr k). by rewrite Hk in Hr.
Qed.

Lemma db_list_elem route : route ∈ db_list r <-> M !! (dp_database_type route, dp_key route) = Some route.
Proof using Hrepr Hkeyed.
  unfold db_list. rewrite list_elem_of_In, in_flat_map.
  setoid_rewrite <-list_elem_of_In. split.
  - intros ([a m] & Ha & Hx). apply btree_to_list_elem in Ha.
    apply list_elem_of_fmap in Hx as ([b x] & -> & Hb). apply btree_to_list_elem in Hb. cbn in *.
    assert (HM : M !! (a, b) = Some x).
    { rewrite <-(repr_metadata _ _ Hrepr). unfold lookup2. by rewrite Ha. }
    pose proof (Hkeyed _ _ HM). by simplify_eq.
  - rewrite <-(repr_metadata _ _ Hrepr). unfold lookup2.
    destruct (db_metadata r !! dp_database_type route) as [m|] eqn:Hm; [|done]. intros Hk.
    exists (dp_database_type route, m). split; [by apply btree_to_list_elem|].
    apply list_elem_of_fmap. exists (dp_key route, route). split; [done|]. by apply btree_to_list_elem.
Qed.

Lemma db_list_NoDup : NoDup (db_list r).
Proof using Hrepr Hkeyed.
  assert (Hin : forall a m b x, (a, m) ∈ btree_to_list (db_metadata r) -> (b, x) ∈ btree_to_list m ->
                  a = dp_database_type x /\ b = dp_key x).
  { intros a m b x Ha%btree_to_list_elem Hb%btree_to_list_elem.
    assert (M !! (a, b) = Some x) as Hk%Hkeyed by
      (rewrite <-(repr_metadata _ _ Hrepr); unfold lookup2; by rewrite Ha).
    by simplify_eq. }
  unfold db_list. change (NoDup (btree_to_list (db_metadata r) ≫= fun kv => snd <$> btree_to_list (snd kv))).
  apply NoDup_bind; [| |apply btree_to_list_NoDup].
  - intros [a1 m1] [a2 m2] y H1 H2 ([b1 y1] & -> & E1)%list_elem_of_fmap ([b2 y2] & E & E2)%list_elem_of_fmap.
    cbn in *. subst y2. destruct (Hin _ _ _ _ H1 E1) as [-> _], (Hin _ _ _ _ H2 E2) as [-> _].
    apply btree_to_list_elem in H1, H2. congruence.
  - intros [a m] Ha. cbn. apply NoDup_fmap_2_strong; [|apply btree_to_list_NoDup].
    intros [b1 x1] [b2 x2] E1 E2 E. cbn in E. subst x2.
    destruct (Hin _ _ _ _ Ha E1) as [_ ->], (Hin _ _ _ _ Ha E2) as [_ ->]. done.
Qed.
End Refinement.

(** C37: The registry of database routes refines a finite map from (type, key)
    to routes. After any sequence of upserts and deletes, resolving finds the
    upstream of the entry, a delete reports whether the entry existed, the
    fallback for a type answers exactly when the type has one entry, and the
    listing has every stored route exactly once. *)
Theorem db_refines ops :
  let r := foldl db_step DatabaseRouteRegistry_default ops in
  let M := foldl spec_step ∅ ops in
  (forall t k, db_resolve r t k = upstream_of <$> M !! db_entry t k) /\
  (forall t k, snd (db_delete t k r) = bool_decide (is_Some (M !! db_entry t k))) /\
  (forall t u, db_resolve_only_route r t = Some u <->
     exists k route, M !! (normalize_database_type t, k) = Some route /\ upstream_of route = u /\
       forall k', is_Some (M !! (normalize_database_type t, k')) -> k' = k) /\
  NoDup (db_list r) /\
  (forall route, route ∈ db_list r <-> M !! (dp_database_type route, dp_key route) = Some route).
Proof.
  intros r M. pose proof (db_run_repr ops) as HR. pose proof (db_spec_keyed ops) as HK.
  split; [intros; apply (repr_routes _ _ HR)|]. split; [intros; by apply db_delete_repr|].
  split; [intros; by apply db_only_route_spec|]. split; [by eapply db_list_NoDup|].
  intros route. by apply db_list_elem.
Qed.

(** ** The index by public port *)

Lemma db_upsert_port route r p :
  storable route = true ->
  db_resolve_public_port (db_upsert route r) p =
  if decide (dp_public_port route = Some p) then Some (upstream_of route) else db_resolve_public_port r p.
Proof.
  unfold storable, db_entry, db_upsert, db_resolve_public_port. rewrite negb_true_iff. intros ->. cbn.
  destruct (dp_public_port route) as [q|]; [|by rewrite decide_False].
  case_decide as E; simplify_eq; [apply lookup_insert_eq | apply lookup_insert_ne; naive_solver].
Qed.

Lemma db_upsert_meta route r :
  storable route = true ->
  lookup2 (db_metadata (db_upsert route r)) (normalize_database_type (dp_database_type route))
    (normalize_route_key (dp_key route)) = Some (normalized route) /\
  is_Some (db_routes (db_upsert route r) !! normalize_database_type (dp_database_type route)).
Proof.
  unfold storable, db_entry, db_upsert. rewrite negb_true_iff. intros ->. cbn [db_metadata db_routes].
  rewrite lookup2_insert2, decide_True by done. split; [done|]. unfold insert2. rewrite lookup_insert_eq. by eexists.
Qed.

(** A public port outlives its route. When a route is stored again under
    the same type and key with another public port and then deleted, the first
    port still forwards to the first upstream, whatever the registry held. *)
Theorem db_port_stale r old new p :
  storable old = true -> storable new = true ->
  dp_database_type new = dp_database_type old -> dp_key new = dp_key old ->
  dp_public_port old = Some p -> dp_public_port new <> Some p ->
  let r' := fst (db_delete (dp_database_type new) (dp_key new) (db_upsert new (db_upsert old r))) in
  db_resolve r' (dp_database_type old) (dp_key old) = None /\
  db_resolve_public_port r' p = Some (upstream_of old).
Proof.
  intros Ho Hn Ht Hk Hp Hp' r'. subst r'. set (r1 := db_upsert new (db_upsert old r)).
  assert (Hport : db_resolve_public_port r1 p = Some (upstream_of old)).
  { unfold r1. rewrite db_upsert_port, decide_False by done. by rewrite db_upsert_port, decide_True. }
  destruct (db_upsert_meta new (db_upsert old r) Hn) as [Hmeta [by_key Hbk]]. fold r1 in Hmeta, Hbk.
  unfold lookup2 in Hmeta. unfold db_resolve, db_delete, db_resolve_public_port. rewrite <-Ht, <-Hk, Hbk.
  destruct (db_metadata r1 !! _) as [meta|]; [|done]. rewrite Hmeta. cbn [fst db_routes db_routes_by_port].
  split.
  - rewrite (lookup2_shrink _ (normalize_route_key (dp_key new)) _ by_key _ _ _ Hbk); [by rewrite decide_True|].
    case_bool_decide; auto.
  - cbn [normalized dp_public_port]. destruct (dp_public_port new) as [q|]; [|done].
    rewrite lookup_delete_ne by congruence. done.
Qed.

Definition demo_route (port : Z) (upstream : string) : DatabaseProxyRoute := {|
  dp_database_type := lit "PostgreSQL"; dp_key := lit " Shop "; dp_upstream := lit upstream;
  dp_route_host := None; dp_public_port := Some port |}.
Lemma db_port_stale_witness :
  let r' := fst (db_delete (lit "PostgreSQL") (lit " Shop ")
      (db_upsert (demo_route 7001 "10.0.0.2:5432") (db_upsert (demo_route 7000 "10.0.0.1:5432")
        DatabaseRouteRegistry_default))) in
  db_resolve r' (lit "PostgreSQL") (lit " Shop ") = None /\
  db_resolve_public_port r' 7000 = Some (lit "10.0.0.1:5432").
Proof.
  apply (db_port_stale DatabaseRouteRegistry_default
           (demo_route 7000 "10.0.0.1:5432") (demo_route 7001 "10.0.0.2:5432") 7000);
    first [reflexivity | vm_compute; discriminate].
Defined.

(** ** The start-up exchange *)

(** A packet as the protocol frames it: its first four bytes give its length. *)
Definition framed (p : rstr) : Prop :=
  8 <= str_len p <= POSTGRES_STARTUP_MAX_BYTES /\ u32_from_be_bytes (take 4 p) = str_len p.
Definition packet_code (p : rstr) : Z := u32_from_be_bytes (take 4 (drop 4 p)).
Definition encryption_request (p : rstr) : Prop :=
  framed p /\ (packet_code p = POSTGRES_SSL_REQUEST_CODE \/ packet_code p = POSTGRES_GSSENC_REQUEST_CODE).
Definition startup_packet (p : rstr) : Prop :=
  framed p /\ packet_code p <> POSTGRES_SSL_REQUEST_CODE /\ packet_code p <> POSTGRES_GSSENC_REQUEST_CODE.

Lemma read_exact_Ok n (stream x y : rstr) :
  0 <= n -> read_exact n stream = Ok (x, y) <-> stream = x ++ y /\ str_len x = n.
Proof.
  intros Hn. unfold read_exact, str_len. destruct (Z.ltb_spec (Z.of_nat (length stream)) n) as [H|H].
  - split; [done|]. intros [-> Hx]. rewrite length_app in H. lia.
  - split.
    + intros [= <- <-]. rewrite take_drop, length_take. split; [done|lia].
    + intros [-> <-]. rewrite Nat2Z.id, take_app_length, drop_app_length. done.
Qed.

(** One round of the loop: a whole packet [p] is at the head of the stream. *)
Lemma read_round (p rest : rstr) fuel n :
  framed p ->
  read_startup_loop (S fuel) (p ++ rest) n =
  if (packet_code p =? POSTGRES_SSL_REQUEST_CODE) || (packet_code p =? POSTGRES_GSSENC_REQUEST_CODE) then
    read_startup_loop fuel rest (S n)
  else
    let? startup := parse_postgres_startup_parameters (drop 8 p) in
    Ok {| sr_startup := startup; sr_prelude := p; sr_refusals := n; sr_rest := rest |}.
Proof.
  intros [Hlen Hhd]. unfold str_len in *. cbn [read_startup_loop].
  assert (E1 : read_exact 4 (p ++ rest) = Ok (take 4 p, drop 4 p ++ rest)).
  { apply read_exact_Ok; [lia|]. unfold str_len. rewrite app_assoc, take_drop, length_take. split; [done|lia]. }
  rewrite E1. cbn [fst snd]. rewrite Hhd.
  rewrite (proj2 (Z.leb_le 8 _)) by lia. rewrite (proj2 (Z.leb_le _ POSTGRES_STARTUP_MAX_BYTES)) by lia.
  cbn [negb andb].
  assert (E2 : read_exact (Z.of_nat (length p) - 4) (drop 4 p ++ rest) = Ok (drop 4 p, rest)).
  { apply read_exact_Ok; [lia|]. unfold str_len. rewrite length_drop. split; [done|lia]. }
  rewrite E2. cbn [fst snd]. unfold packet_code. rewrite take_drop, drop_drop. done.
Qed.

(** Conversely, a round that does not fail has read a whole packet. *)
Lemma read_round_inv stream fuel n s :
  read_startup_loop (S fuel) stream n = Ok s -> exists p rest, stream = p ++ rest /\ framed p.
Proof.
  cbn [read_startup_loop].
  destruct (read_exact 4 stream) as [[hd tl]|] eqn:E1; [|done]. cbn [fst snd].
  apply read_exact_Ok in E1 as [-> Hhd]; [|lia].
  destruct (negb _) eqn:Hlen; [done|]. apply negb_false_iff, andb_true_iff in Hlen as [H1%Z.leb_le H2%Z.leb_le].
  destruct (read_exact _ tl) as [[body rest]|] eqn:E2; [|done]. intros _.
  apply read_exact_Ok in E2 as [-> Hb]; [|lia].
  exists (hd ++ body), rest. rewrite app_assoc. split; [done|].
  unfold framed, str_len in *. rewrite length_app.
  replace (take 4 (hd ++ body)) with hd by (rewrite take_app_length'; [done|lia]). lia.
Qed.

Lemma code_test p :
  (packet_code p =? POSTGRES_SSL_REQUEST_CODE) || (packet_code p =? POSTGRES_GSSENC_REQUEST_CODE) = true <->
  packet_code p = POSTGRES_SSL_REQUEST_CODE \/ packet_code p = POSTGRES_GSSENC_REQUEST_CODE.
Proof. by rewrite orb_true_iff, !Z.eqb_eq. Qed.

Lemma read_loop_sound fuel : forall stream n s,
  read_startup_loop fuel stream n = Ok s ->
  exists reqs, Forall encryption_request reqs /\ sr_refusals s = (n + length reqs)%nat /\
    stream = concat reqs ++ sr_prelude s ++ sr_rest s /\ startup_packet (sr_prelude s) /\
    parse_postgres_startup_parameters (drop 8 (sr_prelude s)) = Ok (sr_startup s).
Proof.
  induction fuel as [|fuel IH]; [done|]. intros stream n s H.
  destruct (read_round_inv _ _ _ _ H) as (p & rest & -> & Hp). rewrite read_round in H by done.
  destruct (_ || _) eqn:Hc.
  - apply code_test in Hc. destruct (IH _ _ _ H) as (reqs & Hf & Hn & -> & Hs).
    exists (p :: reqs). cbn. rewrite <-app_assoc. split; [by constructor|]. split; [lia|done].
  - destruct (parse_postgres_startup_parameters _) as [x|] eqn:E; [|done]. simplify_eq.
    exists []. cbn. split; [done|]. split; [lia|]. split; [done|]. split; [|done].
    split; [done|]. apply orb_false_iff in Hc. by rewrite !Z.eqb_neq in Hc.
Qed.

Lemma read_loop_complete reqs : forall fuel n p rest,
  Forall encryption_request reqs -> (length (concat reqs) < fuel)%nat -> startup_packet p ->
  read_startup_loop fuel (concat reqs ++ p ++ rest) n =
    (let? startup := parse_postgres_startup_parameters (drop 8 p) in
     Ok {| sr_startup := startup; sr_prelude := p; sr_refusals := (n + length reqs)%nat; sr_rest := rest |}).
Proof.
  induction reqs as [|q reqs IH]; intros [|fuel] n p rest Hf Hfuel Hp; cbn [concat] in *; try (cbn in *; lia).
  - destruct Hp as (Hfr & H1 & H2). cbn [app]. rewrite read_round by done.
    apply Z.eqb_neq in H1, H2. rewrite H1, H2. by rewrite Nat.add_0_r.
  - apply Forall_cons in Hf as [[Hq Hc] Hf]. rewrite <-app_assoc, read_round by done.
    rewrite (proj2 (code_test q) Hc). rewrite length_app in Hfuel. destruct Hq as [Hq _]. unfold str_len in Hq.
    rewrite IH by (try done; lia). cbn [length]. by rewrite Nat.add_succ_comm.
Qed.

(** The start-up exchange succeeds exactly on the streams it should: any
    number of encryption requests, each answered once, then one well-framed
    start-up packet whose parameters parse. The packet is kept byte for byte
    for the upstream and nothing after it is consumed; the loop always ends,
    since every round takes a whole packet off the stream. *)
Theorem read_startup_exact stream s :
  read_postgres_startup_packet stream = Ok s <->
  exists reqs, Forall encryption_request reqs /\ sr_refusals s = length reqs /\
    stream = concat reqs ++ sr_prelude s ++ sr_rest s /\ startup_packet (sr_prelude s) /\
    parse_postgres_startup_parameters (drop 8 (sr_prelude s)) = Ok (sr_startup s).
Proof.
  split.
  - apply read_loop_sound.
  - intros (reqs & Hf & Hn & -> & Hp & Hparse). unfold read_postgres_startup_packet.
    rewrite read_loop_complete, Hparse; [|done|rewrite length_app; lia|done].
    cbn [Nat.add]. rewrite <-Hn. by destruct s.
Qed.

(** *** Parameters *)

Definition encode_param (kv : rstr * rstr) : rstr := fst kv ++ (NUL :: (snd kv ++ [NUL])).
Definition encode_params (l : list (rstr * rstr)) : rstr := flat_map encode_param l ++ [NUL].
Definition param_ok (s : rstr) : Prop := s <> [] /\ (NUL ∉ s) /\ valid_utf8 s = true.
Definition params_map (l : list (rstr * rstr)) (m : gmap rstr rstr) : gmap rstr rstr :=
  foldl (fun m kv => <[fst kv := snd kv]> m) m l.

Lemma param_ok_nonempty s : param_ok s -> is_empty s = false.
Proof. destruct s; [by intros []|done]. Qed.

Lemma startup_pairs_encode l : forall m,
  Forall (fun kv => param_ok (fst kv) /\ param_ok (snd kv)) l ->
  startup_pairs (filter (fun part => is_empty part = false) (split NUL (encode_params l))) m = Ok (params_map l m).
Proof.
  unfold encode_params. induction l as [|[k v] l IH]; intros m Hl; [done|].
  apply Forall_cons in Hl as [[Hk Hv] Hl]. cbn [fst snd flat_map] in *. unfold encode_param at 1. cbn [fst snd].
  rewrite <-!app_assoc, <-app_comm_cons, <-!app_assoc. cbn [app].
  rewrite split_app_sep by apply Hk. rewrite split_app_sep by apply Hv.
  rewrite !filter_cons_True by by apply param_ok_nonempty.
  cbn [startup_pairs]. destruct Hk as (_ & _ & ->), Hv as (_ & _ & ->). cbn [negb].
  rewrite IH by done. done.
Qed.

(** Parsing undoes the protocol's encoding of the start-up parameters: a
    sequence of non-empty UTF-8 names and values, each ended by a zero byte and
    the sequence by one more, is read back with the last value of a repeated
    name, and the user and database are the parameters of that name. *)
Theorem startup_params_roundtrip l :
  Forall (fun kv => param_ok (fst kv) /\ param_ok (snd kv)) l ->
  parse_postgres_startup_parameters (encode_params l) =
  Ok {| pg_user := params_map l ∅ !! lit "user"; pg_database := params_map l ∅ !! lit "database";
        pg_parameters := params_map l ∅ |}.
Proof.
  intros Hl. unfold parse_postgres_startup_parameters. by rewrite startup_pairs_encode.
Qed.
Definition demo_params : list (rstr * rstr) :=
  [(lit "user", lit "ann"); (lit "database", lit "shop"); (lit "user", lit "bob")].
Lemma startup_params_roundtrip_witness :
  parse_postgres_startup_parameters (encode_params demo_params) =
  Ok {| pg_user := Some (lit "bob"); pg_database := Some (lit "shop");
        pg_parameters := params_map demo_params ∅ |}.
Proof.
  apply (startup_params_roundtrip demo_params).
  repeat first [apply Forall_nil_2 | apply Forall_cons_2 | split];
    first [discriminate | reflexivity | by_decide].
Defined.

(** An empty value is legal in the protocol and shifts every later pair: the
    database named here is read as the name of a parameter. *)
Example startup_empty_value_shifts :
  match parse_postgres_startup_parameters
          (encode_params [(lit "options", []); (lit "database", lit "shop")]) with
  | Ok s => bool_decide (pg_database s = None /\ pg_parameters s !! lit "options" = Some (lit "database"))
  | Err _ => false
  end = true.
Proof. vm_compute. reflexivity. Qed.

(** ** Which connections reach a database *)

Lemma require_token_Ok tok s :
  require_database_proxy_token tok s = Ok tt ->
  exists token v, tok = Some token /\ pg_parameters s !! lit "pxxl_proxy_token" = Some v /\
    trim v = token /\ token <> [].
Proof.
  unfold require_database_proxy_token. destruct tok as [token|]; [|done].
  destruct (pg_parameters s !! _) as [v|]; [|done].
  destruct (is_empty (trim v)) eqn:He; [done|]. destruct (trim v =s? token) eqn:Ht; [|done].
  apply seqb_true in Ht. intros _. exists token, v. repeat split; try done. by intros ->; rewrite Ht in He.
Qed.

(** A PostgreSQL client is connected only after it presented the configured
    proxy token in its start-up packet. The upstream is then the one stored for
    the database (or user) it named or, failing that, the only route of the
    type, and the upstream is sent exactly the bytes of the start-up packet. *)
Theorem database_connection_authorised tok stream ops u prelude :
  let r := foldl db_step DatabaseRouteRegistry_default ops in
  let M := foldl spec_step ∅ ops in
  choose_database tok (lit "postgres") stream r = Ok (u, prelude) ->
  exists s token v,
    read_postgres_startup_packet stream = Ok s /\ prelude = sr_prelude s /\
    tok = Some token /\ pg_parameters (sr_startup s) !! lit "pxxl_proxy_token" = Some v /\
    trim v = token /\ token <> [] /\
    exists k route, M !! (lit "postgres", k) = Some route /\ u = upstream_of route /\
      ((exists key, route_key (sr_startup s) = Some key /\ k = normalize_route_key key) \/
       forall k', is_Some (M !! (lit "postgres", k')) -> k' = k).
Proof.
  intros r M. unfold choose_database. change (lit "postgres" =s? lit "postgres") with true. cbn [orb].
  destruct (read_postgres_startup_packet stream) as [s|] eqn:Hs; [|done].
  destruct (require_database_proxy_token tok _) as [[]|] eqn:Htok; [|done]. cbn [fst snd].
  apply require_token_Ok in Htok as (token & v & Htok). intros Hu. pose proof (db_run_repr ops) as HR.
  exists s, token, v.
  assert (Hu' : prelude = sr_prelude s) by (repeat case_match; by simplify_eq).
  split; [done|]. split; [done|]. destruct Htok as (? & ? & ? & ?). do 4 (split; [done|]).
  destruct (match route_key (sr_startup s) with Some key => db_resolve r (lit "postgres") key | None => None end)
    as [u'|] eqn:E.
  - simplify_eq. destruct (route_key (sr_startup s)) as [key|] eqn:Hkey; [|done].
    unfold db_resolve in E. rewrite (repr_routes _ _ HR) in E. apply fmap_Some in E as (route & HM & ->).
    exists (normalize_route_key key), route. split; [exact HM|]. split; [done|]. left. by exists key.
  - destruct (db_resolve_only_route r (lit "postgres")) as [u'|] eqn:E'; [|done]. simplify_eq.
    apply (db_only_route_spec _ _ HR) in E' as (k & route & HM & <- & Honly).
    exists k, route. split; [exact HM|]. split; [done|]. right. exact Honly.
Qed.

Definition be32 (n : Z) : rstr := map byte_of [n / 16777216 mod 256; n / 65536 mod 256; n / 256 mod 256; n mod 256].
Definition demo_stream : rstr :=
  let body := encode_params [(lit "user", lit "ann"); (lit "database", lit "SHOP");
                             (lit "pxxl_proxy_token", lit "secret")] in
  be32 8 ++ be32 POSTGRES_SSL_REQUEST_CODE ++ be32 (8 + str_len body) ++ be32 196608 ++ body ++ lit "query".
Lemma database_connection_authorised_witness :
  choose_database (Some (lit "secret")) (lit "postgres") demo_stream
    (foldl db_step DatabaseRouteRegistry_default [DbUpsert (demo_route 7000 "10.0.0.1:5432")]) =
    Ok (lit "10.0.0.1:5432", take (length demo_stream - 5 - 8) (drop 8 demo_stream)) /\
  exists s token v,
    read_postgres_startup_packet demo_stream = Ok s /\
    take (length demo_stream - 5 - 8) (drop 8 demo_stream) = sr_prelude s /\
    Some (lit "secret") = Some token /\ pg_parameters (sr_startup s) !! lit "pxxl_proxy_token" = Some v /\
    trim v = token /\ token <> [] /\
    exists k route, foldl spec_step ∅ [DbUpsert (demo_route 7000 "10.0.0.1:5432")] !! (lit "postgres", k) = Some route /\
      lit "10.0.0.1:5432" = upstream_of route /\
      ((exists key, route_key (sr_startup s) = Some key /\ k = normalize_route_key key) \/
       forall k', is_Some (foldl spec_step ∅ [DbUpsert (demo_route 7000 "10.0.0.1:5432")] !! (lit "postgres", k')) -> k' = k).
Proof.
  split; [vm_compute; reflexivity|].
  apply (database_connection_authorised (Some (lit "secret")) demo_stream
           [DbUpsert (demo_route 7000 "10.0.0.1:5432")]).
  vm_compute. reflexivity.
Defined.
