(* ===== verification/DockerDiscovery.v ===== *)
(** The [docker-discovery] crate: routes from the labels of containers, their
    grouping under the quotas, the answer of the container engine's socket with
    its chunked bodies, and a polling round.  The JSON decoder is a parameter;
    the socket is the bytes it delivers. *)
From stdpp Require Import options.
From S2P Require Import Prelude RustStr RustNum RustNet CommonTypes CommonPath CommonValidate RouteRegistry.

Local Open Scope Z_scope.

Definition DOCKER_API_RESPONSE_LIMIT_BYTES : Z := 5 * 1024 * 1024.

Inductive ContainerProvider := Docker | Podman.
Definition provider_label (p : ContainerProvider) : rstr :=
  match p with Docker => lit "docker" | Podman => lit "podman" end.
Definition route_source (p : ContainerProvider) : RouteSource :=
  match p with Docker => CommonTypes.Docker | Podman => CommonTypes.Podman end.

Record DockerPort := { dk_private_port : Z; dk_public_port : option Z }.
Record DockerContainerSummary := {
  dk_names : list rstr;
  dk_labels : gmap rstr rstr;
  dk_ports : list DockerPort;
}.
Record DockerRouteTarget := { dt_domain : rstr; dt_path : rstr; dt_upstream : Upstream }.

Definition primary_name (c : DockerContainerSummary) : rstr :=
  match head (dk_names c) with
  | Some name => let name := trim_start_matches "/"%char name in
                 if is_empty name then lit "localhost" else name
  | None => lit "localhost"
  end.
Definition published_port_for (c : DockerContainerSummary) (private_port : Z) : option Z :=
  match List.find (fun p => (dk_private_port p =? private_port) && bool_decide (is_Some (dk_public_port p)))
          (dk_ports c) with
  | Some p => dk_public_port p
  | None => None
  end.

(** ** Labels *)

Record LabelRouteConfig := {
  lc_domains : list rstr;
  lc_path : rstr;
  lc_scheme : rstr;
  lc_host : option rstr;
  lc_port : Z;
}.
Definition label_domains (label : rstr) : list rstr :=
  filter (fun v => is_empty v = false) (map trim (split ","%char label)).
Definition label_route_config (labels : gmap rstr rstr) : option LabelRouteConfig :=
  let enabled := match labels !! lit "pxxl.enable" with
                 | Some value => eq_ignore_ascii_case value (lit "true")
                 | None => false
                 end in
  if negb enabled then None
  else match (match labels !! lit "pxxl.domains" with
              | Some v => Some v
              | None => labels !! lit "pxxl.domain"
              end) with
  | None => None
  | Some domain_label =>
    let domains := label_domains domain_label in
    if is_empty domains then None
    else match labels !! lit "pxxl.port" with
    | None => None
    | Some port_label =>
      match parse_uint 65535 port_label with
      | None => None
      | Some port => Some {|
          lc_domains := domains;
          lc_path := default (lit "/") (labels !! lit "pxxl.path");
          lc_scheme := default (lit "http") (labels !! lit "pxxl.scheme");
          lc_host := labels !! lit "pxxl.host";
          lc_port := port |}
      end
    end
  end.

Definition target_url (scheme host : rstr) (port : Z) : rstr :=
  scheme ++ lit "://" ++ host ++ lit ":" ++ to_dec port.
Definition route_targets_from_label_config (config : LabelRouteConfig) (host : rstr) (port : Z)
  : list DockerRouteTarget :=
  map (fun domain => {|
    dt_domain := normalize_domain domain;
    dt_path := normalize_path_prefix (lc_path config);
    dt_upstream := Upstream_new (target_url (lc_scheme config) host port) |}) (lc_domains config).
Definition route_targets_from_labels (labels : gmap rstr rstr) (container_name : rstr) : list DockerRouteTarget :=
  match label_route_config labels with
  | None => []
  | Some config => route_targets_from_label_config config (default container_name (lc_host config)) (lc_port config)
  end.
Definition route_targets_from_container (c : DockerContainerSummary) (container_name : rstr)
    (published_port_host : option rstr) : list DockerRouteTarget :=
  match label_route_config (dk_labels c) with
  | None => []
  | Some config =>
    let '(host, port) :=
      match lc_host config with
      | Some host => (host, lc_port config)
      | None => match published_port_host with
                | Some host => (host, default (lc_port config) (published_port_for c (lc_port config)))
                | None => (container_name, lc_port config)
                end
      end in
    route_targets_from_label_config config host port
  end.

(** ** Grouping of the targets *)

Definition container_route_id (p : ContainerProvider) (domain : rstr) (path : option rstr) : rstr :=
  match path with
  | Some path => provider_label p ++ lit "-" ++ domain ++ lit "-" ++ replace_char "/"%char (lit "_") path
  | None => provider_label p ++ lit "-" ++ domain
  end.

Abbreviation groups := (gmap rstr (gmap rstr (list Upstream))).
Definition push_upstream (u : Upstream) (upstreams : list Upstream) : list Upstream :=
  if MAX_UPSTREAMS_PER_ROUTE <=? Z.of_nat (length upstreams) then upstreams
  else if existsb (fun existing => u_url existing =s? u_url u) upstreams then upstreams
  else upstreams ++ [u].
Definition group_step (grouped : groups) (t : DockerRouteTarget) : groups :=
  if negb (bool_decide (is_Some (grouped !! dt_domain t))) && (MAX_ROUTES_PER_SOURCE <=? Z.of_nat (size grouped))
  then grouped
  else
    let paths := default ∅ (grouped !! dt_domain t) in
    if negb (bool_decide (is_Some (paths !! dt_path t))) && (MAX_PATHS_PER_ROUTE <=? Z.of_nat (size paths))
    then <[dt_domain t := paths]> grouped
    else <[dt_domain t := <[dt_path t := push_upstream (dt_upstream t) (default [] (paths !! dt_path t))]> paths]> grouped.
Definition group_targets (targets : list DockerRouteTarget) : groups := foldl group_step ∅ targets.

Definition url_le (a b : Upstream) : Prop := str_le (u_url a) (u_url b).
#[export] Instance url_le_dec : RelDecision url_le.
Proof. intros a b. unfold url_le. apply _. Defined.
Definition group_paths (paths : gmap rstr (list Upstream)) : list PathRoute :=
  map (fun kv => PathRoute_new (fst kv) (merge_sort url_le (snd kv))) (btree_to_list paths).

Section routes.
Context {NL : IpNetLib} {UL : UrlLib}.
(** The process environment, and the clock: when the route of a domain is made. *)
Context (env : rstr -> option rstr) (clock : rstr -> Z).

(** [with_id] replaces the identifier that [Route::new] generates. *)
Definition group_route (p : ContainerProvider) (domain : rstr) (paths : gmap rstr (list Upstream)) : Route :=
  with_id (container_route_id p domain None)
    (Route_new [] (clock domain) domain (group_paths paths) (route_source p)).
Definition keep_valid (route : Route) : option Route :=
  if is_ok (validate_for_dynamic_control_plane env route) then Some route else None.
Definition routes_from_targets (targets : list DockerRouteTarget) (p : ContainerProvider) : list Route :=
  omap (fun kv => keep_valid (group_route p (fst kv) (snd kv))) (btree_to_list (group_targets targets)).

Definition route_from_target (t : DockerRouteTarget) (p : ContainerProvider) : result rstr Route :=
  let id := container_route_id p (dt_domain t) (Some (dt_path t)) in
  let route := with_id id (Route_new [] (clock (dt_domain t)) (dt_domain t)
                 [PathRoute_new (dt_path t) [dt_upstream t]] (route_source p)) in
  do? map_err (app (lit "invalid container route: ")) (validate_for_dynamic_control_plane env route) in
  Ok route.
Definition route_from_labels (labels : gmap rstr rstr) (container_name : rstr) : option Route :=
  match head (route_targets_from_labels labels container_name) with
  | Some target => ok (route_from_target target Docker)
  | None => None
  end.
End routes.

(** ** The answer of the engine *)

(** How the decoding stops without a result: with an error that is returned, or with
    a panic, which is not an error for the caller: it ends the task.  Integer
    additions wrap around, as in the release build. *)
Inductive docker_error := Bail (message : rstr) | Panic | OutOfFuel.

(** [bytes.windows(n).position(|w| w == p)] for a pattern of length [n] > 0. *)
Fixpoint position_of (p s : rstr) : option nat :=
  if starts_with p s then Some O
  else match s with [] => None | _ :: s' => S <$> position_of p s' end.
Definition CRLF : rstr := [CR; LF].
Definition find_crlf (bytes : rstr) : option nat := position_of CRLF bytes.

Definition has_header_value (headers header_name expected_value : rstr) : bool :=
  existsb (fun line =>
    match split_once ":"%char line with
    | None => false
    | Some (name, value) =>
      eq_ignore_ascii_case (trim name) header_name &&
      existsb (fun part => eq_ignore_ascii_case (trim part) expected_value) (split ","%char value)
    end) (lines headers).

(** The size on a chunk line, extensions dropped. *)
Definition chunk_size (size_line : rstr) : result docker_error Z :=
  let size_hex := trim (default [] (head (split ";"%char size_line))) in
  ok_or (Bail (lit "invalid chunk size " ++ size_hex)) (from_str_radix 16 U64_MAX size_hex).

(** [body[from..to]]: a start after the end, or an end after the slice, panics. *)
Definition slice (body : rstr) (from to : Z) : result docker_error rstr :=
  if (to <? from) || (Z.of_nat (length body) <? to) then Err Panic
  else Ok (take (Z.to_nat (to - from)) (drop (Z.to_nat from) body)).

(** The bytes of a chunk of [size] > 0 bytes at [cursor]. *)
Definition chunk_data (body : rstr) (cursor size : Z) (decoded : rstr) : result docker_error rstr :=
  let end_ := wrap64 (cursor + size) in
  if Z.of_nat (length body) <? wrap64 (end_ + 2) then
    Err (Bail (lit "invalid chunked body: chunk exceeded response length"))
  else if DOCKER_API_RESPONSE_LIMIT_BYTES <? wrap64 (Z.of_nat (length decoded) + size) then
    Err (Bail (lit "decoded Docker API response exceeded 5242880 bytes"))
  else slice body cursor end_.
(** The loop. Every round takes a size line off the body, so its length is
    enough fuel. *)
Fixpoint decode_chunks (fuel : nat) (body : rstr) (cursor : Z) (decoded : rstr) : result docker_error rstr :=
  match fuel with
  | O => Err OutOfFuel
  | S fuel' =>
    let? rest := slice body cursor (Z.of_nat (length body)) in
    let? offset := ok_or (Bail (lit "invalid chunked body: missing chunk size")) (find_crlf rest) in
    let line_end := wrap64 (Z.of_nat offset + cursor) in
    let? size_line := slice body cursor line_end in
    if negb (valid_utf8 size_line) then Err (Bail (lit "invalid chunked body: chunk size was not UTF-8"))
    else
      let? size := chunk_size size_line in
      let cursor := wrap64 (line_end + 2) in
      if size =? 0 then Ok decoded
      else
        let? data := chunk_data body cursor size decoded in
        decode_chunks fuel' body (wrap64 (wrap64 (cursor + size) + 2)) (decoded ++ data)
  end.
Definition decode_chunked_body (body : rstr) : result docker_error rstr :=
  decode_chunks (S (length body)) body 0 [].

Definition parse_http_response_body (response : rstr) : result docker_error rstr :=
  let? split := ok_or (Bail (lit "missing HTTP header separator")) (position_of (CRLF ++ CRLF) response) in
  let headers := take split response in
  if negb (valid_utf8 headers) then Err (Bail (lit "Docker response headers were not UTF-8"))
  else
    let body := drop (split + 4) response in
    let status_line := default [] (head (lines headers)) in
    if negb (contains (lit " 200 ") status_line) then
      Err (Bail (lit "Docker API returned non-200 response: " ++ status_line))
    else if has_header_value headers (lit "transfer-encoding") (lit "chunked") then decode_chunked_body body
    else Ok body.

(** The reads of [docker_get], each of at most 8192 bytes, until the end. *)
Fixpoint read_response (reads : list rstr) (response : rstr) : result docker_error rstr :=
  match reads with
  | [] => Ok response
  | chunk :: reads' =>
    if is_empty chunk then Ok response
    else if DOCKER_API_RESPONSE_LIMIT_BYTES <? Z.of_nat (length response + length chunk) then
      Err (Bail (lit "Docker API response exceeded 5242880 bytes"))
    else read_response reads' (response ++ chunk)
  end.
Definition docker_get (reads : list rstr) : result docker_error rstr :=
  let? response := read_response reads [] in parse_http_response_body response.

(** ** A polling round *)

Record DockerDiscovery := {
  dd_provider : ContainerProvider;
  dd_published_port_host : option rstr;
}.
(** [serde_json::from_slice::<Vec<DockerContainerSummary>>] *)
Class ContainersJson := { containers_from_slice : rstr -> option (list DockerContainerSummary) }.

Section discovery.
Context {NL : IpNetLib} {UL : UrlLib} {CJ : ContainersJson}.
Context (env : rstr -> option rstr) (clock : rstr -> Z).

Definition container_targets (d : DockerDiscovery) (containers : list DockerContainerSummary) : list DockerRouteTarget :=
  flat_map (fun c => route_targets_from_container c (primary_name c) (dd_published_port_host d)) containers.
Definition discover_once (d : DockerDiscovery) (reads : list rstr) : result docker_error (list Route) :=
  let? body := docker_get reads in
  let? containers := ok_or (Bail (lit "failed to parse Docker containers JSON")) (containers_from_slice body) in
  Ok (routes_from_targets env clock (container_targets d containers) (dd_provider d)).

(** A tick of [run_docker_polling]: a failed discovery leaves the routes. *)
Definition poll_tick (d : DockerDiscovery) (reads : list rstr) (e : EdgeState) : EdgeState :=
  match discover_once d reads with
  | Ok routes => es_replace_routes_from_source (route_source (dd_provider d)) routes e
  | Err _ => e
  end.
End discovery.

(** ** Properties of the grouping *)

Definition domains_of (ts : list DockerRouteTarget) : gset rstr := list_to_set (dt_domain <$> ts).
Definition paths_of (d : rstr) (ts : list DockerRouteTarget) : gset rstr :=
  list_to_set (dt_path <$> filter (fun t => dt_domain t = d) ts).
Definition urls_of (d p : rstr) (ts : list DockerRouteTarget) : gset rstr :=
  list_to_set ((fun t => u_url (dt_upstream t)) <$> filter (fun t => dt_domain t = d /\ dt_path t = p) ts).

Lemma elem_domains_of ts d : d ∈ domains_of ts <-> exists t, t ∈ ts /\ dt_domain t = d.
Proof. unfold domains_of. set_solver. Qed.
Lemma elem_paths_of d ts p : p ∈ paths_of d ts <-> exists t, t ∈ ts /\ dt_domain t = d /\ dt_path t = p.
Proof.
  unfold paths_of. rewrite elem_of_list_to_set, list_elem_of_fmap. setoid_rewrite list_elem_of_filter. naive_solver.
Qed.
Lemma elem_urls_of d p ts u :
  u ∈ urls_of d p ts <-> exists t, t ∈ ts /\ dt_domain t = d /\ dt_path t = p /\ u_url (dt_upstream t) = u.
Proof.
  unfold urls_of. rewrite elem_of_list_to_set, list_elem_of_fmap. setoid_rewrite list_elem_of_filter. naive_solver.
Qed.

(** A turn of the loop, seen from the maps it changes. *)
Definition path_step (paths : gmap rstr (list Upstream)) (t : DockerRouteTarget) : gmap rstr (list Upstream) :=
  if negb (bool_decide (is_Some (paths !! dt_path t))) && (MAX_PATHS_PER_ROUTE <=? Z.of_nat (size paths))
  then paths
  else <[dt_path t := push_upstream (dt_upstream t) (default [] (paths !! dt_path t))]> paths.
Definition domain_full (g : groups) (t : DockerRouteTarget) : bool :=
  negb (bool_decide (is_Some (g !! dt_domain t))) && (MAX_ROUTES_PER_SOURCE <=? Z.of_nat (size g)).
Lemma group_step_eq g t :
  group_step g t =
  if domain_full g t then g else <[dt_domain t := path_step (default ∅ (g !! dt_domain t)) t]> g.
Proof. unfold group_step, path_step, domain_full. repeat case_match; done. Qed.

(** Inserting under a quota: the size grows only below the bound. *)
Lemma insert_quota {V} (m : gmap rstr V) (k : rstr) (v : V) (max : Z) :
  negb (bool_decide (is_Some (m !! k))) && (max <=? Z.of_nat (size m)) = false ->
  Z.of_nat (size m) <= max -> Z.of_nat (size (<[k := v]> m)) <= max.
Proof.
  intros Hq Hle. rewrite map_size_insert. destruct (m !! k) as [x|]; [done|].
  rewrite bool_decide_false in Hq by (by intros []). cbn [negb andb] in Hq. apply Z.leb_gt in Hq. cbn. lia.
Qed.
(** A key refused for the quota, while all keys are among [s]: [s] is larger. *)
Lemma quota_exceeded {V} (m : gmap rstr V) (k : rstr) (max : Z) (s : gset rstr) :
  negb (bool_decide (is_Some (m !! k))) && (max <=? Z.of_nat (size m)) = true ->
  dom m ⊆ s -> k ∈ s -> max < Z.of_nat (size s).
Proof.
  intros [Hk Hs]%andb_true_iff Hdom Hin. apply negb_true_iff, bool_decide_eq_false in Hk. apply Z.leb_le in Hs.
  assert (Hsub : {[k]} ∪ dom m ⊆ s) by set_solver. apply subseteq_size in Hsub.
  rewrite size_union, size_singleton, size_dom in Hsub; [lia|]. rewrite <-elem_of_dom in Hk. set_solver.
Qed.

Definition upstreams_ok (d p : rstr) (ts : list DockerRouteTarget) (ups : list Upstream) : Prop :=
  (1 <= length ups <= 128)%nat /\ NoDup (u_url <$> ups) /\
  forall u, u ∈ ups -> exists t, t ∈ ts /\ dt_domain t = d /\ dt_path t = p /\ dt_upstream t = u.
Definition paths_ok (d : rstr) (ts : list DockerRouteTarget) (paths : gmap rstr (list Upstream)) : Prop :=
  (size paths <= 64)%nat /\ map_Forall (fun p ups => upstreams_ok d p ts ups) paths.
Definition groups_ok (ts : list DockerRouteTarget) (g : groups) : Prop :=
  Z.of_nat (size g) <= MAX_ROUTES_PER_SOURCE /\ dom g ⊆ domains_of ts /\
  map_Forall (fun d paths => paths_ok d ts paths) g.

Lemma upstreams_ok_mono d p ts t ups : upstreams_ok d p ts ups -> upstreams_ok d p (ts ++ [t]) ups.
Proof. intros (H1 & H2 & H3). split; [done|]. split; [done|]. intros u (x & Hx & ?)%H3. exists x. set_solver. Qed.
Lemma paths_ok_mono d ts t paths : paths_ok d ts paths -> paths_ok d (ts ++ [t]) paths.
Proof. intros [H1 H2]. split; [done|]. intros p ups Hp. by apply upstreams_ok_mono, H2. Qed.

Lemma push_upstream_cases u ups :
  push_upstream u ups = ups /\ (128 <= length ups \/ u_url u ∈ u_url <$> ups)%nat \/
  push_upstream u ups = ups ++ [u] /\ (length ups < 128)%nat /\ u_url u ∉ u_url <$> ups.
Proof.
  unfold push_upstream, MAX_UPSTREAMS_PER_ROUTE. destruct (Z.leb_spec 128 (Z.of_nat (length ups))); [left; split; [done|lia]|].
  destruct (existsb _ ups) eqn:E.
  - left. split; [done|]. right. apply existsb_exists in E as (x & Hx & Heq%seqb_true).
    rewrite <-Heq. apply list_elem_of_fmap_2. by apply list_elem_of_In.
  - right. split; [done|]. split; [lia|]. intros (x & Heq & Hx)%list_elem_of_fmap.
    assert (existsb (fun e => u_url e =s? u_url u) ups = true); [|congruence].
    apply existsb_exists. exists x. split; [by apply list_elem_of_In|]. by apply seqb_true.
Qed.

Lemma push_upstream_ok ts t ups :
  ups = [] \/ upstreams_ok (dt_domain t) (dt_path t) ts ups ->
  upstreams_ok (dt_domain t) (dt_path t) (ts ++ [t]) (push_upstream (dt_upstream t) ups).
Proof.
  intros Hups. assert (Hold : NoDup (u_url <$> ups) /\ forall u, u ∈ ups ->
    exists t', t' ∈ ts ++ [t] /\ dt_domain t' = dt_domain t /\ dt_path t' = dt_path t /\ dt_upstream t' = u).
  { destruct Hups as [->|H]; [split; [constructor | set_solver]|].
    by destruct (upstreams_ok_mono _ _ _ t _ H) as (_ & ? & ?). }
  destruct Hold as [Hnd Hin], (push_upstream_cases (dt_upstream t) ups) as [[-> Hc]|(-> & Hlen & Hnew)].
  - destruct Hups as [->|H]; [|by apply upstreams_ok_mono]. exfalso. cbn in Hc. destruct Hc; [lia | set_solver].
  - split; [rewrite length_app; cbn; lia|]. split.
    + rewrite fmap_app. apply NoDup_app. split; [done|]. split; [|cbn; apply NoDup_singleton]. set_solver.
    + intros u [Hu|Hu%list_elem_of_singleton]%elem_of_app; [by apply Hin|]. subst u. exists t. set_solver.
Qed.

Lemma path_step_ok ts t paths :
  paths_ok (dt_domain t) ts paths -> paths_ok (dt_domain t) (ts ++ [t]) (path_step paths t).
Proof.
  intros Hp. pose proof (paths_ok_mono _ _ t _ Hp) as Hm. unfold path_step.
  destruct (_ && _) eqn:Hq; [done|]. split.
  - apply Nat2Z.inj_le. apply (insert_quota _ _ _ 64 Hq). destruct Hp. lia.
  - apply map_Forall_insert_2; [|apply Hm]. apply push_upstream_ok.
    destruct (paths !! dt_path t) as [ups|] eqn:E; [right|by left]. cbn. by apply Hp.
Qed.

Lemma group_step_ok ts t g : groups_ok ts g -> groups_ok (ts ++ [t]) (group_step g t).
Proof.
  intros (Hs & Hd & Hp). rewrite group_step_eq.
  assert (Hd' : domains_of (ts ++ [t]) = domains_of ts ∪ {[dt_domain t]}).
  { unfold domains_of. rewrite fmap_app, list_to_set_app_L. cbn. set_solver. }
  assert (Hp' : map_Forall (fun d paths => paths_ok d (ts ++ [t]) paths) g)
    by (intros d paths Hg; by apply paths_ok_mono, Hp).
  unfold groups_ok. rewrite Hd'. destruct (domain_full g t) eqn:Hq; [split; [done|]; set_solver|].
  split; [by apply insert_quota|]. split; [rewrite dom_insert; set_solver|].
  apply map_Forall_insert_2; [|done]. apply path_step_ok.
  destruct (g !! dt_domain t) as [paths|] eqn:E; cbn; [by apply Hp|].
  split; [rewrite map_size_empty; lia | apply map_Forall_empty].
Qed.

Lemma group_targets_ok ts : groups_ok ts (group_targets ts).
Proof.
  unfold group_targets. induction ts as [|t ts IH] using rev_ind.
  - cbn [foldl]. split; [by rewrite map_size_empty|]. split; [by rewrite dom_empty | apply map_Forall_empty].
  - rewrite foldl_snoc. by apply group_step_ok.
Qed.

(** Targets within the quotas. *)
Definition within_quotas (ts : list DockerRouteTarget) : Prop :=
  Z.of_nat (size (domains_of ts)) <= MAX_ROUTES_PER_SOURCE /\
  (forall d, Z.of_nat (size (paths_of d ts)) <= MAX_PATHS_PER_ROUTE) /\
  (forall d p, Z.of_nat (size (urls_of d p ts)) <= MAX_UPSTREAMS_PER_ROUTE).

Definition upstreams_at (g : groups) (d p : rstr) : list Upstream := default [] (default ∅ (g !! d) !! p).
Definition target_served (g : groups) (t : DockerRouteTarget) : Prop :=
  u_url (dt_upstream t) ∈ u_url <$> upstreams_at g (dt_domain t) (dt_path t).

Lemma push_upstream_keeps u ups x : x ∈ u_url <$> ups -> x ∈ u_url <$> push_upstream u ups.
Proof.
  destruct (push_upstream_cases u ups) as [[-> _]|[-> _]]; [done|]. rewrite fmap_app. set_solver.
Qed.

Lemma group_step_keeps g t d p x :
  x ∈ u_url <$> upstreams_at g d p -> x ∈ u_url <$> upstreams_at (group_step g t) d p.
Proof.
  rewrite group_step_eq. unfold upstreams_at. destruct (domain_full g t); [done|].
  destruct (decide (d = dt_domain t)) as [->|]; [|by rewrite lookup_insert_ne by done].
  rewrite lookup_insert_eq. cbn [default from_option id]. unfold path_step. destruct (_ && _); [done|].
  destruct (decide (p = dt_path t)) as [->|]; [|by rewrite lookup_insert_ne by done].
  rewrite lookup_insert_eq. cbn [default from_option id]. apply push_upstream_keeps.
Qed.

Lemma group_step_serves all ts t g :
  within_quotas all -> (forall x, x ∈ ts ++ [t] -> x ∈ all) -> groups_ok ts g -> target_served (group_step g t) t.
Proof.
  intros (Qd & Qp & Qu) Hall (Hs & Hd & Hp). rewrite group_step_eq. unfold target_served, upstreams_at.
  assert (Ht : t ∈ all) by (apply Hall; set_solver).
  destruct (domain_full g t) eqn:Hfull.
  { exfalso. apply (quota_exceeded _ _ _ (domains_of all)) in Hfull; [lia| |].
    - intros d Hg. apply Hd, elem_domains_of in Hg as (x & ? & ?). apply elem_domains_of. exists x. set_solver.
    - apply elem_domains_of. by exists t. }
  rewrite lookup_insert_eq. cbn [default from_option id]. unfold path_step.
  assert (Hpaths : map_Forall (fun p ups => upstreams_ok (dt_domain t) p ts ups) (default ∅ (g !! dt_domain t))).
  { destruct (g !! dt_domain t) as [m|] eqn:E; [by apply (Hp _ _ E) | apply map_Forall_empty]. }
  set (paths := default ∅ (g !! dt_domain t)) in *. clearbody paths.
  destruct (_ && _) eqn:Hq.
  { exfalso. apply (quota_exceeded _ _ _ (paths_of (dt_domain t) all)) in Hq; [specialize (Qp (dt_domain t)); lia| |].
    - intros p (ups & Hups)%elem_of_dom. destruct (Hpaths _ _ Hups) as (Hlen & _ & Hin).
      destruct ups as [|u ups]; [cbn in Hlen; lia|]. destruct (Hin u) as (x & Hx & ? & ? & _); [left|].
      apply elem_paths_of. exists x. set_solver.
    - apply elem_paths_of. by exists t. }
  rewrite lookup_insert_eq. cbn [default from_option id].
  destruct (push_upstream_cases (dt_upstream t) (default [] (paths !! dt_path t))) as [[-> Hc]|(-> & _)];
    [|rewrite fmap_app; set_solver].
  destruct (decide (u_url (dt_upstream t) ∈ u_url <$> default [] (paths !! dt_path t))) as [|Hnew]; [done|].
  destruct Hc as [Hc|]; [|done]. exfalso.
  destruct (paths !! dt_path t) as [ups|] eqn:E; [|cbn in Hc; lia]. cbn [default from_option id] in *.
  destruct (Hpaths _ _ E) as (_ & Hnd & Hin).
  assert (Hsub : list_to_set (u_url (dt_upstream t) :: (u_url <$> ups)) ⊆ urls_of (dt_domain t) (dt_path t) all).
  { intros x Hx. rewrite elem_of_list_to_set in Hx. apply elem_urls_of. apply elem_of_cons in Hx as [->|Hx]; [by exists t|].
    apply list_elem_of_fmap in Hx as (u & -> & Hu). destruct (Hin u Hu) as (y & Hy & ? & ? & <-).
    exists y. split; [apply Hall; set_solver|done]. }
  apply subseteq_size in Hsub. rewrite size_list_to_set in Hsub by (by constructor).
  cbn [length] in Hsub. rewrite length_fmap in Hsub.
  specialize (Qu (dt_domain t) (dt_path t)). unfold MAX_UPSTREAMS_PER_ROUTE in *. lia.
Qed.

Lemma group_targets_complete ts :
  within_quotas ts -> forall t, t ∈ ts -> target_served (group_targets ts) t.
Proof.
  intros Hq. assert (H : forall pre, (forall x, x ∈ pre -> x ∈ ts) -> forall t, t ∈ pre -> target_served (group_targets pre) t);
    [|by apply H].
  intros pre. unfold group_targets. induction pre as [|t pre IH] using rev_ind; [set_solver|].
  intros Hin x Hx. rewrite foldl_snoc. apply elem_of_app in Hx as [Hx|Hx%list_elem_of_singleton].
  - apply group_step_keeps, IH; [set_solver|done].
  - subst x. eapply group_step_serves; [exact Hq|exact Hin|apply group_targets_ok].
Qed.

(** ** The routes of a discovery *)

Lemma group_paths_elem paths pr :
  pr ∈ group_paths paths <->
  exists p ups, paths !! p = Some ups /\ pr = PathRoute_new p (merge_sort url_le ups).
Proof.
  unfold group_paths. rewrite list_elem_of_fmap. split.
  - intros ([p ups] & -> & H%btree_to_list_elem). by exists p, ups.
  - intros (p & ups & H & ->). exists (p, ups). split; [done|]. by apply btree_to_list_elem.
Qed.

Section discovered.
Context {NL : IpNetLib} {UL : UrlLib}.
Context (env : rstr -> option rstr) (clock : rstr -> Z).

Lemma routes_from_targets_elem ts p r :
  r ∈ routes_from_targets env clock ts p <->
  exists d paths, group_targets ts !! d = Some paths /\ r = group_route clock p d paths /\
    validate_for_dynamic_control_plane env r = Ok tt.
Proof.
  unfold routes_from_targets, keep_valid. rewrite list_elem_of_omap. split.
  - intros ([d paths] & H%btree_to_list_elem & Hk). cbn [fst snd] in Hk.
    destruct (validate_for_dynamic_control_plane env _) as [[]|] eqn:E; [|done]. cbn in Hk. simplify_eq. by exists d, paths.
  - intros (d & paths & H & -> & Hv). exists (d, paths). split; [by apply btree_to_list_elem|]. cbn [fst snd].
    by rewrite Hv.
Qed.

Lemma routes_from_targets_ids ts p :
  r_id <$> routes_from_targets env clock ts p
    `sublist_of` ((fun d => container_route_id p d None) <$> (fst <$> btree_to_list (group_targets ts))).
Proof.
  unfold routes_from_targets. induction (btree_to_list (group_targets ts)) as [|[d paths] l IH]; [done|].
  cbn [omap list_omap fst snd fmap list_fmap]. unfold keep_valid at 1.
  destruct (is_ok _); cbn [fmap list_fmap]; [by apply sublist_skip | by apply sublist_cons].
Qed.

(** The routes of a discovery keep every quota and every validation: at most
    100000 routes with distinct identifiers, each of the provider's source and
    accepted for the dynamic control plane, and each upstream of each path
    comes from a container's target of that domain and path, no URL twice. *)
Theorem container_routes_sound ts p :
  let routes := routes_from_targets env clock ts p in
  Z.of_nat (length routes) <= MAX_ROUTES_PER_SOURCE /\ NoDup (r_id <$> routes) /\
  forall r, r ∈ routes ->
    r_source r = route_source p /\ validate_for_dynamic_control_plane env r = Ok tt /\
          (length (r_paths r) <= 64)%nat /\
          forall pr, pr ∈ r_paths r ->
      (length (pr_upstreams pr) <= 128)%nat /\ NoDup (u_url <$> pr_upstreams pr) /\
          forall u, u ∈ pr_upstreams pr ->
        exists t, t ∈ ts /\ normalize_domain (dt_domain t) = r_domain r /\
          normalize_path_prefix (dt_path t) = pr_prefix pr /\ dt_upstream t = u.
Proof.
  destruct (group_targets_ok ts) as (Hs & _ & Hp). pose proof (routes_from_targets_ids ts p) as Hsub.
  intros routes. split; [|split].
  - apply sublist_length in Hsub. rewrite !length_fmap, btree_to_list_length in Hsub. fold routes in Hsub. lia.
  - eapply sublist_NoDup; [|exact Hsub]. apply NoDup_fmap_2; [|apply btree_to_list_keys].
    intros d d' H. unfold container_route_id in H. by repeat apply app_inv_head in H.
  - intros r (d & paths & Hg & -> & Hv)%routes_from_targets_elem. split; [done|]. split; [done|].
    destruct (Hp _ _ Hg) as [Hsize Hups]. cbn [r_paths with_id Route_new group_route].
    destruct (is_empty (group_paths paths)) eqn:He.
    { split; [cbn; lia|]. intros pr Hpr%list_elem_of_singleton. subst pr. cbn. split; [lia|]. split; [constructor|set_solver]. }
    split. { unfold group_paths. rewrite length_map, btree_to_list_length. done. }
    intros pr (q & ups & Hq & ->)%group_paths_elem. cbn [pr_upstreams pr_prefix PathRoute_new].
    destruct (Hups _ _ Hq) as (Hlen & Hnd & Hin). rewrite merge_sort_Permutation.
    split; [lia|]. split; [done|]. intros u Hu. rewrite merge_sort_Permutation in Hu.
    destruct (Hin u Hu) as (t & Ht & <- & <- & <-). by exists t.
Qed.

(** No container is lost below the quotas. When the targets name at most
    100000 domains, 64 paths each and 128 URLs per path, the URL of every
    target is among the upstreams of its path in the route of its domain, and
    that route is dropped only when it fails its validation. *)
Theorem container_targets_served ts p t :
  within_quotas ts -> t ∈ ts ->
  exists r pr, pr ∈ r_paths r /\ r_domain r = normalize_domain (dt_domain t) /\
          pr_prefix pr = normalize_path_prefix (dt_path t) /\ u_url (dt_upstream t) ∈ u_url <$> pr_upstreams pr /\
          (r ∈ routes_from_targets env clock ts p <-> validate_for_dynamic_control_plane env r = Ok tt).
Proof.
  intros Hq Ht. pose proof (group_targets_complete ts Hq t Ht) as Hserved.
  unfold target_served, upstreams_at in Hserved.
  destruct (group_targets ts !! dt_domain t) as [paths|] eqn:Hd; [|cbn in Hserved; set_solver].
  cbn [default from_option id] in Hserved.
  destruct (paths !! dt_path t) as [ups|] eqn:Hp; [|cbn in Hserved; set_solver].
  cbn [default from_option id] in Hserved.
  assert (Hpr : PathRoute_new (dt_path t) (merge_sort url_le ups) ∈ group_paths paths)
    by (apply group_paths_elem; eauto).
  exists (group_route clock p (dt_domain t) paths), (PathRoute_new (dt_path t) (merge_sort url_le ups)).
  split. { cbn [r_paths with_id Route_new group_route]. by destruct (group_paths paths); [set_solver|]. }
  do 2 (split; [done|]). split; [cbn [pr_upstreams PathRoute_new]; by rewrite merge_sort_Permutation|].
  rewrite routes_from_targets_elem. split; [by intros (? & ? & ? & ? & ?)|]. intros Hv. by exists (dt_domain t), paths.
Qed.
End discovered.

Definition demo_labels (domains : string) : gmap rstr rstr :=
  list_to_map [(lit "pxxl.enable", lit "TRUE"); (lit "pxxl.domains", lit domains);
               (lit "pxxl.port", lit "3000"); (lit "pxxl.path", lit "/api")].
Definition demo_containers : list DockerContainerSummary :=
  [ {| dk_names := [lit "/web"]; dk_labels := demo_labels "app.example.com, www.example.com"; dk_ports := [] |};
    {| dk_names := [lit "/web2"]; dk_labels := demo_labels "App.example.com"; dk_ports := [] |} ].
Definition demo_discovery : DockerDiscovery := {| dd_provider := Docker; dd_published_port_host := None |}.
Definition demo_targets : list DockerRouteTarget := container_targets demo_discovery demo_containers.
Example demo_targets_value :
  map (fun t => (dt_domain t, dt_path t, u_url (dt_upstream t))) demo_targets =
  [(lit "app.example.com", lit "/api", lit "http://web:3000");
   (lit "www.example.com", lit "/api", lit "http://web:3000");
   (lit "app.example.com", lit "/api", lit "http://web2:3000")].
Proof. vm_compute. reflexivity. Qed.

Lemma within_quotas_small ts : (length ts <= 64)%nat -> within_quotas ts.
Proof.
  intros H. assert (Hs : forall (l : list rstr), (size (list_to_set l : gset rstr) <= length l)%nat).
  { induction l as [|x l IH]; cbn [list_to_set length]; [by rewrite size_empty|].
    pose proof (size_union_alt {[x]} (list_to_set l : gset rstr)) as E. rewrite size_singleton in E.
    assert (size (list_to_set l ∖ {[x]} : gset rstr) <= size (list_to_set l : gset rstr))%nat by (apply subseteq_size; set_solver).
    lia. }
  unfold within_quotas, domains_of, paths_of, urls_of, MAX_ROUTES_PER_SOURCE, MAX_PATHS_PER_ROUTE, MAX_UPSTREAMS_PER_ROUTE.
  repeat split; intros; (eapply Z.le_trans; [apply Nat2Z.inj_le, Hs|]); rewrite length_fmap;
    [lia | |]; (eapply Z.le_trans; [apply Nat2Z.inj_le, length_filter|]; lia).
Qed.
Definition demo_target : DockerRouteTarget :=
  {| dt_domain := lit "www.example.com"; dt_path := lit "/api"; dt_upstream := Upstream_new (lit "http://web:3000") |}.
Lemma container_targets_served_witness : exists r pr,
  pr ∈ r_paths r /\ r_domain r = lit "www.example.com" /\ pr_prefix pr = lit "/api" /\
  lit "http://web:3000" ∈ u_url <$> pr_upstreams pr /\
  (r ∈ @routes_from_targets CidrLib SimpleUrlLib allow_private (fun _ => 0) demo_targets Docker <->
   @validate_for_dynamic_control_plane CidrLib SimpleUrlLib allow_private r = Ok tt).
Proof.
  apply (container_targets_served allow_private (fun _ => 0) demo_targets Docker demo_target).
  - apply within_quotas_small. vm_compute. lia.
  - apply list_elem_of_In. vm_compute. right. left. reflexivity.
Defined.

(** ** Chunked bodies *)

Lemma position_of_Some p s n :
  position_of p s = Some n -> exists x r, s = x ++ p ++ r /\ length x = n.
Proof.
  revert n. induction s as [|b s IH]; intros n; cbn [position_of].
  - destruct (starts_with p []) eqn:E; [|done]. intros [= <-].
    apply starts_with_spec in E as [r ->]. by exists [], r.
  - destruct (starts_with p (b :: s)) eqn:E.
    + intros [= <-]. apply starts_with_spec in E as [r ->]. by exists [], r.
    + destruct (position_of p s) as [m|] eqn:Ep; [|done]. intros [= <-].
      destruct (IH m eq_refl) as (x & r & -> & <-). by exists (b :: x), r.
Qed.

Lemma parse_digits_range r max s : forall a v,
  0 <= r -> 0 <= a <= max -> parse_digits r max a s = Some v -> 0 <= v <= max.
Proof.
  induction s as [|b s IH]; intros a v Hr Ha; cbn [parse_digits]; [by intros [= <-]|].
  destruct (digit_value b) as [d|] eqn:Ed; [|done]. destruct (_ && _) eqn:E; [|done].
  apply andb_true_iff in E as [E1%Z.ltb_lt E2%Z.leb_le].
  apply IH; [done|]. assert (0 <= d); [|nia].
  unfold digit_value, in_range in Ed. repeat case_match; bools; simplify_eq; lia.
Qed.
Lemma chunk_size_range line n : chunk_size line = Ok n -> 0 <= n <= U64_MAX.
Proof.
  unfold chunk_size. destruct (from_str_radix _ _ _) as [v|] eqn:E; [|done]. intros [= <-].
  unfold from_str_radix in E. repeat case_match; try done;
    (eapply parse_digits_range in E; [exact E|lia|unfold U64_MAX; lia]).
Qed.

Lemma slice_Ok (x y z : rstr) from to :
  from = str_len x -> to = str_len x + str_len y -> slice (x ++ y ++ z) from to = Ok y.
Proof.
  intros -> ->. unfold slice, str_len. rewrite !length_app.
  destruct (Z.ltb_spec (Z.of_nat (length x) + Z.of_nat (length y)) (Z.of_nat (length x))); [lia|].
  destruct (Z.ltb_spec (Z.of_nat (length x + (length y + length z))) (Z.of_nat (length x) + Z.of_nat (length y))); [lia|].
  cbn [orb]. rewrite Nat2Z.id, drop_app_length. f_equal.
  rewrite Z.add_simpl_l, Nat2Z.id. apply take_app_length.
Qed.

Lemma wrap64_id z : 0 <= z < 2 ^ 64 -> wrap64 z = z.
Proof. apply Z.mod_small. Qed.

(** What a chunked body is: size lines, each followed by as many bytes and two
    more, up to a line of size zero; the decoded bytes stay within the limit. *)
Inductive chunked : rstr -> rstr -> rstr -> Prop :=
| chunked_last acc line rest :
    find_crlf (line ++ CRLF ++ rest) = Some (length line) -> valid_utf8 line = true -> chunk_size line = Ok 0 ->
    chunked acc (line ++ CRLF ++ rest) acc
| chunked_more acc line data e rest d :
    find_crlf (line ++ CRLF ++ data ++ e ++ rest) = Some (length line) -> valid_utf8 line = true ->
    chunk_size line = Ok (str_len data) -> data <> [] -> length e = 2%nat ->
    str_len acc + str_len data <= DOCKER_API_RESPONSE_LIMIT_BYTES ->
    chunked (acc ++ data) rest d ->
    chunked acc (line ++ CRLF ++ data ++ e ++ rest) d.

(** When the decoding panics: after chunks as above, some bytes of which are decoded,
    comes a size with which their number reaches the end of the machine word, and the
    chunk's end wraps around to before its start. *)
Inductive overflowing : rstr -> rstr -> Prop :=
| overflow_here acc line tail size :
    find_crlf (line ++ CRLF ++ tail) = Some (length line) -> valid_utf8 line = true -> chunk_size line = Ok size ->
    2 ^ 64 <= str_len acc + size -> size + 2 - 2 ^ 64 <= str_len tail ->
    overflowing acc (line ++ CRLF ++ tail)
| overflow_later acc line data e rest :
    find_crlf (line ++ CRLF ++ data ++ e ++ rest) = Some (length line) -> valid_utf8 line = true ->
    chunk_size line = Ok (str_len data) -> data <> [] -> length e = 2%nat ->
    str_len acc + str_len data <= DOCKER_API_RESPONSE_LIMIT_BYTES ->
    overflowing (acc ++ data) rest ->
    overflowing acc (line ++ CRLF ++ data ++ e ++ rest).

(** A round of the loop up to the size of the chunk. *)
Lemma decode_round pre line tail fuel acc :
  let body := pre ++ line ++ CRLF ++ tail in
  str_len body < 2 ^ 63 -> find_crlf (line ++ CRLF ++ tail) = Some (length line) ->
  decode_chunks (S fuel) body (str_len pre) acc =
  if negb (valid_utf8 line) then Err (Bail (lit "invalid chunked body: chunk size was not UTF-8"))
  else
    let? size := chunk_size line in
    if size =? 0 then Ok acc
    else
      let? data := chunk_data body (str_len pre + str_len line + 2) size acc in
      decode_chunks fuel body (wrap64 (wrap64 (str_len pre + str_len line + 2 + size) + 2)) (acc ++ data).
Proof.
  intros body Hlen Hfind. cbn [decode_chunks].
  assert (Hsum : str_len body = str_len pre + str_len line + 2 + str_len tail).
  { unfold body, str_len, CRLF. rewrite !length_app. cbn [length]. lia. }
  pose proof (Zle_0_nat (length pre)). pose proof (Zle_0_nat (length line)). pose proof (Zle_0_nat (length tail)).
  fold (str_len body). unfold str_len in Hsum, Hlen.
  replace (slice body (str_len pre) (str_len body)) with (Ok (E := docker_error) (line ++ CRLF ++ tail)).
  2:{ symmetry. rewrite <-(app_nil_r body) at 1. unfold body. rewrite <-app_assoc.
      apply slice_Ok; [done|]. unfold str_len. rewrite !length_app. cbn [length]. lia. }
  rewrite Hfind. cbn [ok_or]. rewrite (wrap64_id (_ + _)) by (unfold str_len in *; lia).
  assert (Hslice : slice body (str_len pre) (Z.of_nat (length line) + str_len pre) = Ok line).
  { unfold body. apply slice_Ok; [done|]. unfold str_len. lia. }
  rewrite Hslice.
  replace (Z.of_nat (length line) + str_len pre + 2) with (str_len pre + str_len line + 2) by (unfold str_len; lia).
  rewrite (wrap64_id (str_len pre + str_len line + 2)) by (unfold str_len in *; lia). done.
Qed.

(** A chunk that fits is cut out; the two bytes after it are skipped unread. *)
Lemma chunk_data_fits pre data e rest acc :
  let body := pre ++ data ++ e ++ rest in
  str_len body < 2 ^ 63 -> length e = 2%nat -> str_len acc <= str_len pre ->
  chunk_data body (str_len pre) (str_len data) acc =
  if DOCKER_API_RESPONSE_LIMIT_BYTES <? str_len acc + str_len data
  then Err (Bail (lit "decoded Docker API response exceeded 5242880 bytes")) else Ok data.
Proof.
  intros body Hlen He Hacc. unfold chunk_data.
  assert (Hsum : str_len body = str_len pre + str_len data + 2 + str_len rest).
  { unfold body, str_len. rewrite !length_app, He. lia. }
  fold (str_len body) (str_len acc). assert (forall s, 0 <= str_len s) as Hpos by (intros s; unfold str_len; lia).
  pose proof (Hpos pre). pose proof (Hpos data). pose proof (Hpos rest). pose proof (Hpos acc).
  rewrite (wrap64_id (str_len pre + str_len data)) by lia. rewrite !wrap64_id by lia.
  rewrite (proj2 (Z.ltb_ge _ _)) by lia.
  destruct (DOCKER_API_RESPONSE_LIMIT_BYTES <? _); [done|]. unfold body. by apply slice_Ok.
Qed.

(** A chunk that does not fit is refused or panics, whatever wraps around. *)
Lemma chunk_data_overruns body cursor size acc :
  str_len body < 2 ^ 63 -> 0 <= cursor <= str_len body -> 0 < size <= U64_MAX -> str_len acc <= cursor ->
  str_len body < cursor + size + 2 ->
  exists e, chunk_data body cursor size acc = Err e /\ e <> OutOfFuel /\
    (e = Panic -> 2 ^ 64 <= str_len acc + size /\ cursor + size + 2 - 2 ^ 64 <= str_len body).
Proof.
  unfold U64_MAX, chunk_data. intros Hlen Hc Hs Hacc Hover. fold (str_len body) (str_len acc).
  assert (0 <= str_len acc) by (unfold str_len; lia).
  destruct (Z.ltb_spec (str_len body) (wrap64 (wrap64 (cursor + size) + 2))) as [|Hend]; [by eexists|].
  destruct (Z.ltb_spec DOCKER_API_RESPONSE_LIMIT_BYTES (wrap64 (str_len acc + size))) as [|Hlim]; [by eexists|].
  destruct (decide (cursor + size < 2 ^ 64)) as [Hw|Hw].
  - exfalso. rewrite (wrap64_id (cursor + size)) in Hend by lia.
    rewrite (wrap64_id (str_len acc + size)) in Hlim by lia. unfold DOCKER_API_RESPONSE_LIMIT_BYTES in Hlim.
    destruct (decide (cursor + size + 2 < 2 ^ 64)); [rewrite wrap64_id in Hend by lia; lia | lia].
  - assert (wrap64 (cursor + size) = cursor + size - 2 ^ 64) as Hwrap.
    { unfold wrap64. symmetry. apply (Z.mod_unique_pos _ _ 1); lia. }
    rewrite Hwrap in *. unfold slice. rewrite (proj2 (Z.ltb_lt _ cursor)) by lia. eexists. split; [done|]. split; [done|]. intros _.
    rewrite wrap64_id in Hend by lia. split; [|lia]. destruct (decide (2 ^ 64 <= str_len acc + size)) as [|Hlow]; [done|].
    rewrite wrap64_id in Hlim by lia. unfold DOCKER_API_RESPONSE_LIMIT_BYTES in Hlim. lia.
Qed.
(** A size that wraps around both the end and the decoded length panics. *)
Lemma chunk_data_panics body cursor size acc :
  str_len body < 2 ^ 63 -> 0 <= cursor <= str_len body -> 0 < size <= U64_MAX -> str_len acc <= cursor ->
  str_len acc <= DOCKER_API_RESPONSE_LIMIT_BYTES -> 2 ^ 64 <= str_len acc + size -> cursor + size + 2 - 2 ^ 64 <= str_len body ->
  chunk_data body cursor size acc = Err Panic.
Proof.
  unfold U64_MAX, chunk_data. intros Hlen Hc Hs Hacc Hlim Hw Hfit. fold (str_len body) (str_len acc).
  assert (forall z, 2 ^ 64 <= z < 2 * 2 ^ 64 -> wrap64 z = z - 2 ^ 64) as Hwrap.
  { intros z Hz. unfold wrap64. symmetry. apply (Z.mod_unique_pos _ _ 1); lia. }
  rewrite !(Hwrap (_ + size)) by lia. rewrite wrap64_id by lia. rewrite !(proj2 (Z.ltb_ge _ _)) by lia.
  unfold slice. by rewrite (proj2 (Z.ltb_lt _ cursor)) by lia.
Qed.

Lemma split_chunk (tail : rstr) (size : Z) :
  0 < size -> size + 2 <= str_len tail ->
  exists data e rest, tail = data ++ e ++ rest /\ str_len data = size /\ length e = 2%nat.
Proof.
  unfold str_len. intros Hs Ht.
  exists (take (Z.to_nat size) tail), (take 2 (drop (Z.to_nat size) tail)), (drop 2 (drop (Z.to_nat size) tail)).
  rewrite (take_drop 2), take_drop, !length_take, length_drop. split; [done|lia].
Qed.

(** The round at the head of the rest of the body, in all its outcomes. *)
Lemma decode_cases fuel pre rest acc :
  str_len (pre ++ rest) < 2 ^ 63 -> str_len acc <= str_len pre ->
  (exists e, decode_chunks (S fuel) (pre ++ rest) (str_len pre) acc = Err e /\ e <> OutOfFuel /\ (e = Panic -> overflowing acc rest)) \/
  (chunked acc rest acc /\ decode_chunks (S fuel) (pre ++ rest) (str_len pre) acc = Ok acc) \/
  (exists line data e rest', rest = line ++ CRLF ++ data ++ e ++ rest' /\
     (forall d, chunked (acc ++ data) rest' d -> chunked acc rest d) /\
     (overflowing (acc ++ data) rest' -> overflowing acc rest) /\
     length e = 2%nat /\
     decode_chunks (S fuel) (pre ++ rest) (str_len pre) acc =
     decode_chunks fuel ((pre ++ line ++ CRLF ++ data ++ e) ++ rest')
       (str_len (pre ++ line ++ CRLF ++ data ++ e)) (acc ++ data)).
Proof.
  intros Hlen Hacc. destruct (find_crlf rest) as [n|] eqn:Hf.
  2:{ left. eexists. split; [|shelve]. cbn [decode_chunks].
      rewrite <-(app_nil_r (pre ++ rest)) at 1. rewrite <-app_assoc, slice_Ok.
      - rewrite Hf. cbn [ok_or]. reflexivity.
      - done.
      - unfold str_len. rewrite length_app. lia.
      Unshelve. by split. }
  destruct (position_of_Some _ _ _ Hf) as (line & tail & -> & <-).
  rewrite decode_round by done. destruct (valid_utf8 line) eqn:Hu; cbn [negb]; [|left; by eexists].
  destruct (chunk_size line) as [size|e] eqn:Hs.
  2:{ left. exists e. split; [done|]. unfold chunk_size in Hs. destruct (from_str_radix _ _ _); cbn in Hs; simplify_eq. by split. }
  pose proof (chunk_size_range _ _ Hs) as Hrange. destruct (Z.eqb_spec size 0) as [->|Hne].
  { right. left. split; [by constructor|done]. }
  assert (Hsum : str_len (pre ++ line ++ CRLF ++ tail) = str_len pre + str_len line + 2 + str_len tail).
  { unfold str_len, CRLF. rewrite !length_app. cbn [length]. lia. }
  assert (forall s, 0 <= str_len s) as Hpos by (intros s; unfold str_len; lia).
  pose proof (Hpos pre). pose proof (Hpos line). pose proof (Hpos tail).
  destruct (decide (size + 2 <= str_len tail)) as [Hfit|Hover].
  2:{ left. destruct (chunk_data_overruns (pre ++ line ++ CRLF ++ tail) (str_len pre + str_len line + 2) size acc)
        as (e & -> & He & Hp); [lia..|]. exists e. split; [done|]. split; [done|]. intros [Hw Hl]%Hp.
      apply (overflow_here _ _ _ size); try done. lia. }
  destruct (split_chunk tail size) as (data & e & rest' & -> & Hd & He); [lia|done|].
  set (head := pre ++ line ++ CRLF).
  assert (Hhead : str_len head = str_len pre + str_len line + 2).
  { unfold head, str_len, CRLF. rewrite !length_app. cbn [length]. lia. }
  assert (Happ : forall r, pre ++ line ++ CRLF ++ r = head ++ r) by (intros; unfold head; by rewrite <-!app_assoc).
  rewrite !Happ, <-Hhead, <-Hd in *. rewrite chunk_data_fits by (try done; lia).
  destruct (Z.ltb_spec DOCKER_API_RESPONSE_LIMIT_BYTES (str_len acc + str_len data)); [left; by eexists|].
  right. right. exists line, data, e, rest'. split; [done|]. split.
  { intros d Hch. apply chunked_more; try done; [by intros ->; apply Hne]. }
  split.
  { intros Hch. apply overflow_later; try done; [by intros ->; apply Hne]. }
  split; [done|]. rewrite Happ.
  assert (Hnext : str_len (head ++ data ++ e) = str_len head + str_len data + 2).
  { unfold str_len. rewrite !length_app, He. lia. }
  assert (Htot : str_len (head ++ data ++ e ++ rest') = str_len (head ++ data ++ e) + str_len rest').
  { unfold str_len. rewrite !length_app. lia. }
  pose proof (Hpos rest'). pose proof (Hpos data).
  rewrite <-!app_assoc, Hnext. f_equal. rewrite !wrap64_id by (rewrite ?wrap64_id; lia). done.
Qed.

(** Linear arithmetic on the lengths of concatenations. *)
Ltac str_lens :=
  unfold str_len, CRLF in *; repeat (rewrite length_app in *; cbn [length] in * ); lia.

Lemma decode_chunks_spec fuel : forall pre rest acc,
  str_len (pre ++ rest) < 2 ^ 63 -> str_len acc <= str_len pre -> (length rest < fuel)%nat ->
  decode_chunks fuel (pre ++ rest) (str_len pre) acc <> Err OutOfFuel /\
  (forall d, decode_chunks fuel (pre ++ rest) (str_len pre) acc = Ok d -> chunked acc rest d) /\
  (decode_chunks fuel (pre ++ rest) (str_len pre) acc = Err Panic -> overflowing acc rest).
Proof.
  induction fuel as [|fuel IH]; intros pre rest acc Hlen Hacc Hfuel; [lia|].
  destruct (decode_cases fuel pre rest acc Hlen Hacc)
    as [(e & -> & He & Hp)|[[Hch ->]|(line & data & e & rest' & -> & Hch & Hov & He & ->)]].
  - split; [congruence|]. split; [done|]. intros [= ->]. by apply Hp.
  - split; [done|]. split; [|done]. by intros d [= <-].
  - destruct (IH (pre ++ line ++ CRLF ++ data ++ e) rest' (acc ++ data)) as (H1 & H2 & H3); [str_lens..|].
    split; [exact H1|]. split; [|by intros ?%H3%Hov]. intros d Hd. by apply Hch, H2.
Qed.

(** A chunk that fits is taken, and the loop goes on after it. *)
Lemma decode_chunk_taken fuel pre line data e rest acc :
  str_len (pre ++ line ++ CRLF ++ data ++ e ++ rest) < 2 ^ 63 -> str_len acc <= str_len pre ->
  find_crlf (line ++ CRLF ++ data ++ e ++ rest) = Some (length line) -> valid_utf8 line = true ->
  chunk_size line = Ok (str_len data) -> data <> [] -> length e = 2%nat -> str_len acc + str_len data <= DOCKER_API_RESPONSE_LIMIT_BYTES ->
  decode_chunks (S fuel) (pre ++ line ++ CRLF ++ data ++ e ++ rest) (str_len pre) acc =
  decode_chunks fuel ((pre ++ line ++ CRLF ++ data ++ e) ++ rest) (str_len (pre ++ line ++ CRLF ++ data ++ e)) (acc ++ data).
Proof.
  intros Hlen Hacc Hf Hu Hs Hne He Hlim. rewrite decode_round by done. rewrite Hu, Hs. cbn [negb].
  destruct (Z.eqb_spec (str_len data) 0) as [E|_]; [destruct data; [done | by unfold str_len in E; cbn in E; lia]|].
  set (head := pre ++ line ++ CRLF).
  assert (Hhead : str_len head = str_len pre + str_len line + 2).
  { unfold head, str_len, CRLF. rewrite !length_app. cbn [length]. lia. }
  assert (Happ : forall r, pre ++ line ++ CRLF ++ r = head ++ r) by (intros; unfold head; by rewrite <-!app_assoc).
  assert (forall s, 0 <= str_len s) as Hpos by (intros s; unfold str_len; lia).
  pose proof (Hpos pre). pose proof (Hpos line). pose proof (Hpos rest). pose proof (Hpos data).
  assert (Hnext : str_len (head ++ data ++ e) = str_len head + str_len data + 2).
  { unfold str_len. rewrite !length_app, He. lia. }
  assert (Htot : str_len (head ++ data ++ e ++ rest) = str_len (head ++ data ++ e) + str_len rest).
  { unfold str_len. rewrite !length_app. lia. }
  rewrite !Happ in *. rewrite <-Hhead. rewrite chunk_data_fits by (try done; lia).
  rewrite (proj2 (Z.ltb_ge _ _)) by done.
  rewrite !wrap64_id by (rewrite ?wrap64_id; lia).
  rewrite <-Hnext. by rewrite <-!app_assoc.
Qed.
Lemma decode_chunks_complete acc rest d :
  chunked acc rest d -> forall fuel pre,
  str_len (pre ++ rest) < 2 ^ 63 -> str_len acc <= str_len pre -> (length rest < fuel)%nat ->
  decode_chunks fuel (pre ++ rest) (str_len pre) acc = Ok d.
Proof.
  induction 1 as [acc line rest Hf Hu Hs|acc line data e rest d Hf Hu Hs Hne He Hlim Hch IH];
    intros [|fuel] pre Hlen Hacc Hfuel; try lia.
  - rewrite decode_round by done. by rewrite Hu, Hs.
  - rewrite decode_chunk_taken by done. apply IH; str_lens.
Qed.
Lemma decode_chunks_panics acc rest :
  overflowing acc rest -> forall fuel pre,
  str_len (pre ++ rest) < 2 ^ 63 -> str_len acc <= str_len pre -> str_len acc <= DOCKER_API_RESPONSE_LIMIT_BYTES -> (length rest < fuel)%nat ->
  decode_chunks fuel (pre ++ rest) (str_len pre) acc = Err Panic.
Proof.
  induction 1 as [acc line tail size Hf Hu Hs Hw Ht|acc line data e rest Hf Hu Hs Hne He Hlim Hch IH];
    intros [|fuel] pre Hlen Hacc Hdec Hfuel; try lia.
  - rewrite decode_round by done. rewrite Hu, Hs. cbn [negb]. pose proof (chunk_size_range _ _ Hs) as Hrange.
    assert (size <> 0) as Hz by (unfold DOCKER_API_RESPONSE_LIMIT_BYTES in Hdec; lia). rewrite (proj2 (Z.eqb_neq _ _) Hz).
    rewrite chunk_data_panics; [done|done|str_lens|lia|str_lens|done|done|str_lens].
  - rewrite decode_chunk_taken by done. apply IH; [str_lens..|unfold str_len in *; rewrite length_app; lia|str_lens].
Qed.

(** C36: Decoding a chunked body is exact: it returns [d] exactly when the body
    is a sequence of chunks within the limit that spell [d], closed by a chunk of
    size zero; it panics exactly when, after chunks with at least one byte, comes a
    size with which the number of decoded bytes would reach 2^64, unless it is the
    largest size and the body ends with its line; and every other body, with sizes up
    to the largest machine word, extensions and truncated bodies included, is an
    error. The loop always ends. *)
Theorem decode_chunked_exact body d :
  str_len body < 2 ^ 63 ->
  (decode_chunked_body body = Ok d <-> chunked [] body d) /\
  (decode_chunked_body body = Err Panic <-> overflowing [] body) /\
  ((exists d', decode_chunked_body body = Ok d') \/ decode_chunked_body body = Err Panic \/ exists message, decode_chunked_body body = Err (Bail message)).
Proof.
  intros Hlen. unfold decode_chunked_body.
  destruct (decode_chunks_spec (S (length body)) [] body []) as (H1 & H2 & H3); [done|done|lia|].
  split; [split; [apply H2|]|split; [split; [apply H3|]|]].
  - intros Hch. apply (decode_chunks_complete [] body d Hch _ []); [done|done|lia].
  - intros Hch. apply (decode_chunks_panics [] body Hch _ []); [done|done|done|lia].
  - change (str_len []) with 0 in H1. cbn [app] in H1. destruct (decode_chunks _ body 0 []) as [d'|[message| |]]; eauto; done.
Qed.
Definition demo_body : rstr := lit "4;ext=1" ++ CRLF ++ lit "Wiki" ++ CRLF ++ lit "5" ++ CRLF ++ lit "pedia" ++ CRLF ++ lit "0" ++ CRLF ++ CRLF.
Definition panic_body : rstr := lit "1" ++ CRLF ++ lit "a" ++ CRLF ++ lit "ffffffffffffffff" ++ CRLF ++ lit "b" ++ CRLF.
Lemma decode_chunked_exact_witness : chunked [] demo_body (lit "Wikipedia") /\ overflowing [] panic_body.
Proof. split; [apply (decode_chunked_exact demo_body (lit "Wikipedia"))|apply (decode_chunked_exact panic_body [])]; vm_compute; reflexivity. Defined.

(** A chunk whose size makes the cursor wrap around is not refused but
    panics, once some bytes have been decoded: the overflow check on the
    decoded length wraps around as well. *)
Theorem decode_chunked_panics :
  decode_chunked_body panic_body = Err Panic.
Proof. vm_compute. reflexivity. Qed.

(** *** Encoding and decoding *)

Definition encode_chunk (data : rstr) : rstr := to_hex (str_len data) ++ CRLF ++ data ++ CRLF.
Definition encode_chunked (chunks : list rstr) : rstr := flat_map encode_chunk chunks ++ lit "0" ++ CRLF ++ CRLF.

Lemma find_crlf_line x r : CR ∉ x -> find_crlf (x ++ CRLF ++ r) = Some (length x).
Proof.
  unfold find_crlf. induction x as [|b x IH]; intros Hx; [done|]. cbn [app position_of length].
  assert (starts_with CRLF (b :: x ++ CRLF ++ r) = false) as ->.
  { destruct (starts_with _ _) eqn:E; [|done]. apply starts_with_spec in E as [y Hy].
    injection Hy as -> _. set_solver. }
  by rewrite IH by set_solver.
Qed.

(** The characters of a hexadecimal number are visible and in no separator. *)
Lemma to_hex_chars n c :
  0 <= n <= U64_MAX -> c ∈ to_hex n -> visible c /\ c <> CR /\ c <> ";"%char.
Proof.
  intros Hn Hc. destruct (to_hex_roundtrip U64_MAX n Hn) as (_ & _ & Hf); [unfold U64_MAX in *; lia|].
  rewrite Forall_forall in Hf. destruct (Hf c Hc) as (d & Hd & ->).
  assert (H : Forall (fun k => let c := digit_char (Z.of_nat k) in (33 <=? bz c) && (bz c <=? 126) &&
                negb (beq c CR) && negb (beq c ";"%char) = true) (seq 0 16)) by (repeat constructor).
  rewrite Forall_forall in H. specialize (H (Z.to_nat d)). rewrite Z2Nat.id in H by lia.
  specialize (H ltac:(apply elem_of_seq; lia)). cbn zeta in H.
  rewrite !andb_true_iff, !negb_true_iff, !beq_false, !Z.leb_le in H. unfold visible. tauto.
Qed.


Lemma to_hex_line n :
  0 <= n <= U64_MAX ->
  (CR ∉ to_hex n) /\ valid_utf8 (to_hex n) = true /\ chunk_size (to_hex n) = Ok n.
Proof.
  intros Hn. assert (Hvis : Forall visible (to_hex n)) by (apply Forall_forall; intros c Hc; by apply (to_hex_chars n)).
  split; [intros Hc; by apply (to_hex_chars n) in Hc as (_ & ? & _)|]. split; [by apply visible_utf8|].
  unfold chunk_size. rewrite split_no_sep_single by (intros Hc; by apply (to_hex_chars n) in Hc as (_ & _ & ?)).
  cbn [head default from_option id]. rewrite trim_visible by done.
  destruct (to_hex_roundtrip U64_MAX n Hn) as [-> _]; [unfold U64_MAX in *; lia|]. done.
Qed.

Lemma encode_chunked_ok chunks : forall acc,
  Forall (fun c => c <> []) chunks ->
  str_len acc + str_len (concat chunks) <= DOCKER_API_RESPONSE_LIMIT_BYTES ->
  chunked acc (encode_chunked chunks) (acc ++ concat chunks).
Proof.
  unfold encode_chunked. induction chunks as [|c chunks IH]; intros acc Hne Hlim.
  - cbn [flat_map concat app]. rewrite app_nil_r. by apply (chunked_last acc (lit "0") CRLF).
  - apply Forall_cons in Hne as [Hc Hne]. cbn [flat_map concat] in *. unfold encode_chunk.
    assert (Hlen : str_len (c ++ concat chunks) = str_len c + str_len (concat chunks))
      by (unfold str_len; rewrite length_app; lia).
    assert (0 <= str_len c <= U64_MAX) as Hr.
    { unfold DOCKER_API_RESPONSE_LIMIT_BYTES, U64_MAX, str_len in *. lia. }
    destruct (to_hex_line _ Hr) as (Hcr & Hu & Hs).
    rewrite <-!app_assoc. apply chunked_more; try done.
    + by apply find_crlf_line.
    + unfold str_len in *. lia.
    + rewrite (app_assoc acc c). apply IH; [done|]. unfold str_len in *. rewrite length_app. lia.
Qed.

Lemma response_parts h body :
  position_of (CRLF ++ CRLF) (h ++ (CRLF ++ CRLF) ++ body) = Some (length h) ->
  valid_utf8 h = true -> contains (lit " 200 ") (default [] (head (lines h))) = true ->
  parse_http_response_body (h ++ (CRLF ++ CRLF) ++ body) =
  if has_header_value h (lit "transfer-encoding") (lit "chunked") then decode_chunked_body body else Ok body.
Proof.
  intros Hpos Hu Hok. unfold parse_http_response_body. rewrite Hpos. cbn [ok_or].
  rewrite take_app_length, Hu. cbn [negb]. rewrite Hok. cbn [negb].
  rewrite drop_app_add. done.
Qed.

(** A successful answer with a chunked body gives back the bytes the engine
    split into chunks: for any header block with a 200 status line and
    [Transfer-Encoding: chunked], and any non-empty chunks of at most five
    mebibytes in all. *)
Theorem chunked_response_roundtrip h chunks :
  position_of (CRLF ++ CRLF) (h ++ (CRLF ++ CRLF) ++ encode_chunked chunks) = Some (length h) ->
  valid_utf8 h = true -> contains (lit " 200 ") (default [] (head (lines h))) = true ->
  has_header_value h (lit "transfer-encoding") (lit "chunked") = true ->
  Forall (fun c => c <> []) chunks -> str_len (concat chunks) <= DOCKER_API_RESPONSE_LIMIT_BYTES ->
  str_len (encode_chunked chunks) < 2 ^ 63 ->
  parse_http_response_body (h ++ (CRLF ++ CRLF) ++ encode_chunked chunks) = Ok (concat chunks).
Proof.
  intros Hpos Hu Hok Hte Hne Hlim Hlen. rewrite response_parts, Hte by done.
  unfold decode_chunked_body. apply (decode_chunks_complete [] _ _ (encode_chunked_ok chunks [] Hne Hlim) _ []);
    [done|done|lia].
Qed.
Definition demo_headers : rstr := lit "HTTP/1.1 200 OK" ++ CRLF ++ lit "transfer-ENCODING: gzip, Chunked".
Lemma chunked_response_roundtrip_witness :
  parse_http_response_body (demo_headers ++ (CRLF ++ CRLF) ++ encode_chunked [lit "[]"; lit "more"]) = Ok (lit "[]more").
Proof.
  apply (chunked_response_roundtrip demo_headers [lit "[]"; lit "more"]);
    first [by repeat constructor | vm_compute; reflexivity | vm_compute; discriminate].
Defined.


(** ** Polling *)

Section polling.
Context {NL : IpNetLib} {UL : UrlLib} {CJ : ContainersJson}.
Context (env : rstr -> option rstr) (clock : rstr -> Z) (d : DockerDiscovery).
Let source := route_source (dd_provider d).

(** Between polls: a well-formed table, the routes of the other sources as they
    were, and only validated container routes. *)
Record polled (others : list Route) (e : EdgeState) : Prop := {
  po_wf : table_wf (es_routes e);
  po_others : filter (fun r => r_source r <> source) (snapshot (es_routes e)) = others;
  po_valid : forall r, r ∈ snapshot (es_routes e) -> r_source r = source ->
    validate_for_dynamic_control_plane env r = Ok tt;
}.

Lemma discovered_valid reads routes :
  discover_once env clock d reads = Ok routes ->
  Forall (fun r => r_source r = source /\ validate_for_dynamic_control_plane env r = Ok tt) routes.
Proof.
  unfold discover_once. destruct (docker_get reads) as [body|]; [|done].
  destruct (containers_from_slice body) as [cs|]; [|done]. cbn [ok_or]. intros [= <-].
  apply Forall_forall. intros r (dom & paths & _ & -> & Hv)%routes_from_targets_elem. done.
Qed.

Lemma poll_tick_polled others reads e :
  polled others e -> polled others (poll_tick env clock d reads e).
Proof.
  intros [Hwf Ho Hv]. unfold poll_tick. destruct (discover_once env clock d reads) as [routes|] eqn:E; [|done].
  apply discovered_valid in E. assert (Hs : Forall (fun r => r_source r = source) routes)
    by (eapply Forall_impl; [exact E|]; by intros r []).
  assert (Hin : forall r, r ∈ dedupe_routes routes -> r ∈ routes).
  { intros r Hr%dedupe_elem. by apply last_Some_elem_of, list_elem_of_filter in Hr as [_ ?]. }
  rewrite Forall_forall in E.
  pose proof (replace_source_snapshot _ routes _ Hwf Hs) as Hsnap.
  split; cbn [es_routes es_replace_routes_from_source with_routes]; fold source.
  - eapply registry_step_wf; [exact Hwf|apply rs_replace_source].
  - rewrite Hsnap, filter_app. rewrite list_filter_filter_l by done. rewrite Ho.
    rewrite (filter_none _ (dedupe_routes routes)); [apply app_nil_r|].
    intros r Hr%Hin Hne. by apply Hne, E.
  - intros r. rewrite Hsnap. intros [[Hne _]%list_elem_of_filter|Hr%Hin]%elem_of_app Hr'; [done|]. by apply E.
Qed.

(** Polling is safe against whatever the engine's socket delivers. After any
    number of rounds, each with any answer, failed ones included, the routes
    of every other source are what they were, in their order, and every route
    of the provider in the table passed the control-plane validation. *)
Theorem polling_safe others e ticks :
  polled others e -> polled others (foldl (fun e reads => poll_tick env clock d reads e) e ticks).
Proof. revert e. induction ticks as [|reads ticks IH]; intros e He; [done|]. by apply IH, poll_tick_polled. Qed.
End polling.

(** A decoder that knows one answer. *)
#[local] Instance DemoJson : ContainersJson :=
  {| containers_from_slice body := if body =s? lit "[web]" then Some demo_containers else None |}.
Definition demo_answer : rstr := lit "HTTP/1.1 200 OK" ++ CRLF ++ CRLF ++ lit "[web]".
Definition demo_ticks : list (list rstr) := [[lit "HTTP/1.1 500 no" ++ CRLF ++ CRLF]; [demo_answer]].
Definition demo_edge : EdgeState := EdgeState_new (@Registry_new CidrLib [example_route]).
(** The second round finds both domains of the two containers. *)
Example polling_finds :
  length (snapshot (es_routes (foldl (fun e reads => @poll_tick CidrLib SimpleUrlLib DemoJson allow_private
    (fun _ => 0) demo_discovery reads e) demo_edge demo_ticks))) = 3%nat.
Proof. vm_compute. reflexivity. Qed.
Lemma polling_safe_witness :
  @polled CidrLib SimpleUrlLib allow_private demo_discovery [example_route]
    (foldl (fun e reads => @poll_tick CidrLib SimpleUrlLib DemoJson allow_private (fun _ => 0) demo_discovery reads e)
       demo_edge demo_ticks).
Proof.
  apply (@polling_safe CidrLib SimpleUrlLib DemoJson allow_private (fun _ => 0) demo_discovery [example_route] demo_edge demo_ticks).
  assert (Hsnap : snapshot (es_routes demo_edge) = [example_route]).
  { unfold demo_edge, Registry_new. cbn [es_routes EdgeState_new]. apply dedupe_id. by apply NoDup_singleton. }
  split.
  - apply RouteTable_new_wf.
  - rewrite Hsnap. done.
  - rewrite Hsnap. intros r Hr%list_elem_of_singleton Hs. by subst r.
Defined.
