(* ===== verification/Geo.v ===== *)
(** The [geo] crate: the location of an address from MaxMind databases, from a
    table of networks, or from the built-in private ranges.  The [maxminddb]
    crate is a parameter; the file system is a predicate and a read function. *)
From stdpp Require Import options.
From S2P Require Import Prelude RustStr RustNum RustNet CommonTypes.

Local Open Scope Z_scope.

(** What the source reads of the [maxminddb] crate: a reader opened from a file,
    its three lookups, and the fields of their records. *)
Class MmdbLib := {
  Reader : Type;
  open_readfile : rstr -> result rstr Reader;
  CityRecord : Type;
  CountryRecord : Type;
  AsnRecord : Type;
  lookup_city : Reader -> IpAddr -> option CityRecord;
  lookup_country : Reader -> IpAddr -> option CountryRecord;
  lookup_asn : Reader -> IpAddr -> option AsnRecord;
  city_iso_code : CityRecord -> option rstr;
  city_country_names : CityRecord -> option (gmap rstr rstr);
  city_continent_code : CityRecord -> option rstr;
  city_continent_names : CityRecord -> option (gmap rstr rstr);
  (** the names of the first subdivision *)
  city_subdivision_names : CityRecord -> option (gmap rstr rstr);
  city_city_names : CityRecord -> option (gmap rstr rstr);
  country_iso_code : CountryRecord -> option rstr;
  country_country_names : CountryRecord -> option (gmap rstr rstr);
  country_continent_code : CountryRecord -> option rstr;
  country_continent_names : CountryRecord -> option (gmap rstr rstr);
  asn_number : AsnRecord -> option Z;
  asn_organization : AsnRecord -> option rstr;
}.

Definition empty_to_none (value : option rstr) : option rstr :=
  match value with Some v => if is_empty (trim v) then None else Some v | None => None end.

(** The English name, or the first name in the order of the languages. *)
Definition localized_name (names : option (gmap rstr rstr)) : option rstr :=
  match names with
  | Some names => match names !! lit "en" with
                  | Some name => Some name
                  | None => head (snd <$> btree_to_list names)
                  end
  | None => None
  end.

Section geo.
Context {NL : IpNetLib} {ML : MmdbLib}.

Record GeoIpRecord := { gr_network : IpNet; gr_location : GeoLocation }.
Record MmdbDatabases := { mm_city : option Reader; mm_country : option Reader; mm_asn : option Reader }.
Record GeoIpResolver := {
  ge_records : list GeoIpRecord;
  ge_mmdb : option MmdbDatabases;
  ge_enabled : bool;
}.

(** ** Built-in networks: an invalid one panics *)

Definition builtin_location (country_code country_name continent_code continent_name : string) : GeoLocation := {|
  gl_country_code := Some (lit country_code); gl_country_name := Some (lit country_name);
  gl_continent_code := Some (lit continent_code); gl_continent_name := Some (lit continent_name);
  gl_region := None; gl_city := None; gl_source := lit "builtin" |}.
Definition builtin (network : result rstr IpNet) (cc cn tc tn : string) : result rstr GeoIpRecord :=
  let? network := network in
  Ok {| gr_network := network; gr_location := builtin_location cc cn tc tn |}.
Definition builtin_v4 (network len : Z) : string -> string -> string -> string -> result rstr GeoIpRecord :=
  builtin (ipv4net_new network len).
Definition builtin_v6 (network len : Z) : string -> string -> string -> string -> result rstr GeoIpRecord :=
  builtin (ipv6net_new network len).
Definition builtin_records : result rstr (list GeoIpRecord) :=
  collect_results (fun r => r)
    [ builtin_v4 (v4 127 0 0 1) 8 "LO" "Local" "LOCAL" "Local";
      builtin_v6 1 128 "LO" "Local" "LOCAL" "Local";
      builtin_v4 (v4 10 0 0 0) 8 "PR" "Private" "PRIVATE" "Private";
      builtin_v4 (v4 172 16 0 0) 12 "PR" "Private" "PRIVATE" "Private";
      builtin_v4 (v4 192 168 0 0) 16 "PR" "Private" "PRIVATE" "Private";
      builtin_v4 (v4 100 64 0 0) 10 "PR" "Private" "PRIVATE" "Private";
      builtin_v6 (v6 [64512; 0; 0; 0; 0; 0; 0; 0]) 7 "PR" "Private" "PRIVATE" "Private";
      builtin_v6 (v6 [65152; 0; 0; 0; 0; 0; 0; 0]) 10 "PR" "Private" "PRIVATE" "Private" ].

(** ** The table of networks *)

Definition row_location (fields : list rstr) : GeoLocation := {|
  gl_country_code := to_ascii_uppercase <$> empty_to_none (fields !! 1%nat);
  gl_country_name := empty_to_none (fields !! 2%nat);
  gl_continent_code := to_ascii_uppercase <$> empty_to_none (fields !! 3%nat);
  gl_continent_name := empty_to_none (fields !! 4%nat);
  gl_region := empty_to_none (fields !! 5%nat);
  gl_city := empty_to_none (fields !! 6%nat);
  gl_source := lit "offline" |}.
Definition short_row_error (line_index : nat) : rstr :=
  lit "GeoIP row " ++ to_dec (Z.of_nat line_index + 1)
  ++ lit " needs at least cidr,country_code,country_name,continent_code".
Definition invalid_cidr_error (line_index : nat) : rstr :=
  lit "invalid GeoIP CIDR on row " ++ to_dec (Z.of_nat line_index + 1).
(** A line: nothing for a blank line, a comment or the heading. *)
Definition parse_row (line_index : nat) (line : rstr) : result rstr (option GeoIpRecord) :=
  let line := trim line in
  if is_empty line || starts_with (lit "#") line then Ok None
  else
    let fields := map trim (split ","%char line) in
    if (line_index =? 0)%nat && match head fields with
                              | Some field => eq_ignore_ascii_case field (lit "cidr")
                              | None => false
                              end then Ok None
    else if (length fields <? 4)%nat then Err (short_row_error line_index)
    else
      let? network := map_err (fun _ => invalid_cidr_error line_index) (net_from_str (default [] (fields !! 0%nat))) in
      Ok (Some {| gr_network := network; gr_location := row_location fields |}).
Fixpoint parse_rows (line_index : nat) (l : list rstr) : result rstr (list GeoIpRecord) :=
  match l with
  | [] => Ok []
  | line :: l' =>
    let? record := parse_row line_index line in
    let? records := parse_rows (S line_index) l' in
    Ok (match record with Some r => r :: records | None => records end)
  end.
Definition parse_database (content : rstr) : result rstr (list GeoIpRecord) := parse_rows 0 (lines content).

(** ** MaxMind databases *)

Definition lookup_asn_summary (reader : option Reader) (ip : IpAddr) : option rstr :=
  match reader with
  | None => None
  | Some reader =>
    match lookup_asn reader ip with
    | None => None
    | Some asn =>
      match asn_number asn with
      | None => None
      | Some number => Some (lit "asn" ++ to_dec number ++ lit ":" ++ default (lit "unknown") (asn_organization asn))
      end
    end
  end.
Definition with_asn (source : rstr) (asn : option Reader) (ip : IpAddr) : rstr :=
  match lookup_asn_summary asn ip with
  | Some summary => source ++ lit ":" ++ summary
  | None => source
  end.
Definition location_from_city (city : CityRecord) (asn : option Reader) (ip : IpAddr) : GeoLocation := {|
  gl_country_code := to_ascii_uppercase <$> city_iso_code city;
  gl_country_name := localized_name (city_country_names city);
  gl_continent_code := to_ascii_uppercase <$> city_continent_code city;
  gl_continent_name := localized_name (city_continent_names city);
  gl_region := localized_name (city_subdivision_names city);
  gl_city := localized_name (city_city_names city);
  gl_source := with_asn (lit "mmdb_city") asn ip |}.
Definition location_from_country (country : CountryRecord) (asn : option Reader) (ip : IpAddr) : GeoLocation := {|
  gl_country_code := to_ascii_uppercase <$> country_iso_code country;
  gl_country_name := localized_name (country_country_names country);
  gl_continent_code := to_ascii_uppercase <$> country_continent_code country;
  gl_continent_name := localized_name (country_continent_names country);
  gl_region := None;
  gl_city := None;
  gl_source := with_asn (lit "mmdb_country") asn ip |}.

Definition is_some {A} (o : option A) : bool := match o with Some _ => true | None => false end.
Definition city_answer (m : MmdbDatabases) (ip : IpAddr) : option GeoLocation :=
  match mm_city m with
  | None => None
  | Some reader =>
    match lookup_city reader ip with
    | None => None
    | Some city =>
      let location := location_from_city city (mm_asn m) ip in
      if is_some (gl_country_code location) || is_some (gl_continent_code location) || is_some (gl_city location)
      then Some location else None
    end
  end.
Definition country_answer (m : MmdbDatabases) (ip : IpAddr) : option GeoLocation :=
  match mm_country m with
  | None => None
  | Some reader =>
    match lookup_country reader ip with
    | None => None
    | Some country =>
      let location := location_from_country country (mm_asn m) ip in
      if is_some (gl_country_code location) || is_some (gl_continent_code location) then Some location else None
    end
  end.
Definition lookup_mmdb (r : GeoIpResolver) (ip : IpAddr) : option GeoLocation :=
  match ge_mmdb r with
  | None => None
  | Some m => match city_answer m ip with Some location => Some location | None => country_answer m ip end
  end.

Definition lookup_records (records : list GeoIpRecord) (ip : IpAddr) : option GeoIpRecord :=
  max_by_key (fun r => net_prefix_len (gr_network r)) (filter (fun r => net_contains (gr_network r) ip = true) records).
Definition geo_lookup (r : GeoIpResolver) (ip : IpAddr) : GeoLocation :=
  if negb (ge_enabled r) then GeoLocation_unknown
  else match lookup_mmdb r ip with
  | Some location => location
  | None => match lookup_records (ge_records r) ip with
            | Some record => gr_location record
            | None => GeoLocation_unknown
            end
  end.

(** ** Loading *)

Section loading.
(** Which files exist, and their text. *)
Context (exists_ : rstr -> bool) (read_to_string : rstr -> result rstr rstr).

(** [Path::parent] with [Path::join], and [Path::extension], for a path that
    does not end in a separator. *)
Definition sibling (path name : rstr) : rstr :=
  match rsplit_once "/"%char path with
  | Some (dir, _) => dir ++ lit "/" ++ name
  | None => name
  end.
Definition file_name (path : rstr) : rstr :=
  match rsplit_once "/"%char path with Some (_, name) => name | None => path end.
Definition has_extension (ext path : rstr) : bool :=
  match rsplit_once "."%char (file_name path) with
  | Some (stem, e) => negb (is_empty stem) && (e =s? ext)
  | None => false
  end.

Definition pick_existing (path : rstr) (candidates : list rstr) : option rstr :=
  if exists_ path then Some path
  else List.find exists_ (map (sibling path) candidates).
Definition load_mmdb_reader (path : option rstr) (label : rstr) : result rstr (option Reader) :=
  match path with
  | None => Ok None
  | Some path => let? reader := map_err (fun _ => lit "opening " ++ label ++ lit " MMDB " ++ path) (open_readfile path) in
                 Ok (Some reader)
  end.
Definition load_mmdb_databases (path : rstr) : result rstr MmdbDatabases :=
  let? city := load_mmdb_reader
    (pick_existing path (lits ["GeoLite2-City.mmdb"; "GeoIP2-City.mmdb"])) (lit "city") in
  let? country := load_mmdb_reader
    (pick_existing path (lits ["GeoLite2-Country.mmdb"; "GeoIP2-Country.mmdb"])) (lit "country") in
  let? asn := load_mmdb_reader
    (pick_existing path (lits ["GeoLite2-ASN.mmdb"; "GeoIP2-ISP.mmdb"; "GeoIP2-ASN.mmdb"])) (lit "asn") in
  Ok {| mm_city := city; mm_country := country; mm_asn := asn |}.

Definition GeoIpResolver_disabled : GeoIpResolver := {| ge_records := []; ge_mmdb := None; ge_enabled := false |}.
Definition GeoIpResolver_default : result rstr GeoIpResolver :=
  let? records := builtin_records in Ok {| ge_records := records; ge_mmdb := None; ge_enabled := true |}.
Definition load_from_path (enabled : bool) (path : rstr) : result rstr GeoIpResolver :=
  if negb enabled then Ok GeoIpResolver_disabled
  else
    let? records := builtin_records in
    let? mmdb := if has_extension (lit "mmdb") path
                 then let? m := load_mmdb_databases path in Ok (Some m) else Ok None in
    let? records :=
      if exists_ path && negb (is_some mmdb) then
        let? content := map_err (fun _ => lit "reading GeoIP database " ++ path) (read_to_string path) in
        let? more := parse_database content in
        Ok (records ++ more)
      else Ok records in
    Ok {| ge_records := records; ge_mmdb := mmdb; ge_enabled := true |}.
End loading.
End geo.

(** ** Properties *)

Section lookups.
Context {NL : IpNetLib} {ML : MmdbLib}.

(** Without a MaxMind answer, an address is located by the most specific of
    the networks that hold it and, among networks of that length, by the one
    listed last, so a row of the table overrides a built-in range; an
    address in no network is unknown. *)
Theorem geo_lookup_longest r ip :
  ge_enabled r = true -> lookup_mmdb r ip = None ->
  let holding := filter (fun x => net_contains (gr_network x) ip = true) (ge_records r) in
  (holding = [] /\ geo_lookup r ip = GeoLocation_unknown) \/
  exists record pre post, holding = pre ++ record :: post /\ geo_lookup r ip = gr_location record /\
    Forall (fun x => net_prefix_len (gr_network x) <= net_prefix_len (gr_network record)) pre /\
    Forall (fun x => net_prefix_len (gr_network x) < net_prefix_len (gr_network record)) post.
Proof.
  intros Hen Hmm holding. unfold geo_lookup, lookup_records. rewrite Hen, Hmm. cbn [negb]. fold holding.
  destruct (max_by_key _ holding) as [record|] eqn:E.
  - right. apply max_by_key_last in E as (pre & post & -> & Hpre & Hpost). by exists record, pre, post.
  - left. by apply max_by_key_None in E.
Qed.

(** A configured MaxMind file hides its siblings: when the configured path
    exists, the city, the country and the network-operator database are all read
    from that one file, whatever other databases lie in its directory. *)
Theorem geo_siblings_ignored exists_ path m :
  exists_ path = true -> load_mmdb_databases exists_ path = Ok m ->
  exists reader, open_readfile path = Ok reader /\
    mm_city m = Some reader /\ mm_country m = Some reader /\ mm_asn m = Some reader.
Proof.
  intros Hex. unfold load_mmdb_databases, pick_existing. rewrite Hex. cbn [load_mmdb_reader].
  destruct (open_readfile path) as [reader|e]; [|done]. cbn [map_err]. intros [= <-]. by exists reader.
Qed.
End lookups.

(** *** The built-in ranges *)

(** The networks of the IPv4 ranges the resolver knows. *)
Definition v4_local (x : Z) : bool := Z.shiftr x 24 =? 127.
Definition v4_private_range (x : Z) : bool :=
  (Z.shiftr x 24 =? 10) || (Z.shiftr x 20 =? 2753) || (Z.shiftr x 16 =? 49320) || (Z.shiftr x 22 =? 401).
Definition v6_private_range (x : Z) : bool := (Z.shiftr x 121 =? 126) || (Z.shiftr x 118 =? 1018).
Definition LOCAL : GeoLocation := builtin_location "LO" "Local" "LOCAL" "Local".
Definition PRIVATE : GeoLocation := builtin_location "PR" "Private" "PRIVATE" "Private".
Definition builtin_answer (ip : IpAddr) : GeoLocation :=
  match ip with
  | V4 x => if v4_local x then LOCAL else if v4_private_range x then PRIVATE else GeoLocation_unknown
  | V6 x => if x =? 1 then LOCAL else if v6_private_range x then PRIVATE else GeoLocation_unknown
  end.

(** A wider network holds what a narrower one does. *)
Lemma shiftr_wider x k d k' v v' :
  0 <= k -> 0 <= d -> k + d = k' -> Z.shiftr v d = v' -> Z.shiftr x k = v -> Z.shiftr x k' = v'.
Proof. intros Hk Hd <- <- <-. by rewrite Z.shiftr_shiftr. Qed.

Lemma v4_local_disjoint x : v4_local x = true -> v4_private_range x = false.
Proof.
  unfold v4_local, v4_private_range. rewrite Z.eqb_eq. intros H.
  destruct (Z.eqb_spec (Z.shiftr x 24) 10); [lia|].
  destruct (Z.eqb_spec (Z.shiftr x 20) 2753) as [E|]; [apply (shiftr_wider _ _ 4 24 _ 172) in E; [lia|done..]|].
  destruct (Z.eqb_spec (Z.shiftr x 16) 49320) as [E|]; [apply (shiftr_wider _ _ 8 24 _ 192) in E; [lia|done..]|].
  destruct (Z.eqb_spec (Z.shiftr x 22) 401) as [E|]; [apply (shiftr_wider _ _ 2 24 _ 100) in E; [lia|done..]|].
  done.
Qed.

Section builtins.
Context {NL : IpNetLib} {ML : MmdbLib} {Laws : IpNetLaws NL}.

Definition location_of (records : list GeoIpRecord) (ip : IpAddr) : GeoLocation :=
  match lookup_records records ip with Some record => gr_location record | None => GeoLocation_unknown end.
Definition holds (ip : IpAddr) (r : GeoIpRecord) : bool := net_contains (gr_network r) ip.

(** Networks that share a location: the answer is whether one holds the address. *)
Lemma location_uniform records ip loc :
  Forall (fun r => holds ip r = true -> gr_location r = loc) records ->
  location_of records ip = if existsb (holds ip) records then loc else GeoLocation_unknown.
Proof.
  intros Hall. unfold location_of, lookup_records. destruct (max_by_key _ _) as [r|] eqn:E.
  - apply max_by_key_Some in E as [Hr _]. apply list_elem_of_filter in Hr as [Hc Hr].
    rewrite Forall_forall in Hall. rewrite (Hall r Hr Hc).
    assert (existsb (holds ip) records = true) as ->; [|done].
    apply existsb_exists. exists r. split; [by apply list_elem_of_In|done].
  - apply max_by_key_None in E. destruct (existsb (holds ip) records) eqn:Ex; [|done].
    apply existsb_exists in Ex as (r & Hr & Hc). apply list_elem_of_In in Hr.
    exfalso. assert (r ∈ filter (fun x => net_contains (gr_network x) ip = true) records)
      by (by apply list_elem_of_filter). rewrite E in *. set_solver.
Qed.

(** Two groups of networks that share no address. *)
Lemma location_groups locals privates ip :
  Forall (fun r => gr_location r = LOCAL) locals -> Forall (fun r => gr_location r = PRIVATE) privates ->
  (existsb (holds ip) locals = true -> existsb (holds ip) privates = false) ->
  location_of (locals ++ privates) ip =
  if existsb (holds ip) locals then LOCAL else if existsb (holds ip) privates then PRIVATE else GeoLocation_unknown.
Proof.
  intros Hl Hp Hd. rewrite Forall_forall in Hl, Hp.
  assert (Hnone : forall l r, existsb (holds ip) l = false -> r ∈ l -> holds ip r <> true).
  { intros l r He Hr Hc. assert (existsb (holds ip) l = true); [|congruence].
    apply existsb_exists. exists r. split; [by apply list_elem_of_In|done]. }
  destruct (existsb (holds ip) locals) eqn:El.
  - rewrite (location_uniform _ _ LOCAL).
    + by rewrite existsb_app, El.
    + apply Forall_forall. intros r [Hr|Hr]%elem_of_app Hc; [by apply Hl|].
      by destruct (Hnone privates r (Hd eq_refl) Hr).
  - rewrite (location_uniform _ _ PRIVATE).
    + by rewrite existsb_app, El.
    + apply Forall_forall. intros r [Hr|Hr]%elem_of_app Hc; [|by apply Hp]. by destruct (Hnone locals r El Hr).
Qed.

(** The built-in networks are well formed, so building the resolver never
    panics, and without a database it knows exactly the loopback and private
    ranges of IPv4 and IPv6: every other address is unknown. *)
Theorem geo_builtin_exact :
  exists r, GeoIpResolver_default = Ok r /\ forall ip, geo_lookup r ip = builtin_answer ip.
Proof using Laws.
  destruct (ipv4net_new_ok (v4 127 0 0 1) 8) as (n1 & E1 & _ & A1 & B1); [lia|].
  destruct (ipv6net_new_ok 1 128) as (n2 & E2 & _ & A2 & B2); [lia|].
  destruct (ipv4net_new_ok (v4 10 0 0 0) 8) as (n3 & E3 & _ & A3 & B3); [lia|].
  destruct (ipv4net_new_ok (v4 172 16 0 0) 12) as (n4 & E4 & _ & A4 & B4); [lia|].
  destruct (ipv4net_new_ok (v4 192 168 0 0) 16) as (n5 & E5 & _ & A5 & B5); [lia|].
  destruct (ipv4net_new_ok (v4 100 64 0 0) 10) as (n6 & E6 & _ & A6 & B6); [lia|].
  destruct (ipv6net_new_ok (v6 [64512; 0; 0; 0; 0; 0; 0; 0]) 7) as (n7 & E7 & _ & A7 & B7); [lia|].
  destruct (ipv6net_new_ok (v6 [65152; 0; 0; 0; 0; 0; 0; 0]) 10) as (n8 & E8 & _ & A8 & B8); [lia|].
  unfold GeoIpResolver_default, builtin_records, collect_results, builtin_v4, builtin_v6, builtin.
  rewrite E1, E2, E3, E4, E5, E6, E7, E8. eexists. split; [reflexivity|]. intros ip.
  set (rec n loc := {| gr_network := n; gr_location := loc |}).
  change (location_of ([rec n1 LOCAL; rec n2 LOCAL] ++
    [rec n3 PRIVATE; rec n4 PRIVATE; rec n5 PRIVATE; rec n6 PRIVATE; rec n7 PRIVATE; rec n8 PRIVATE]) ip = builtin_answer ip).
  assert (Hl : existsb (holds ip) [rec n1 LOCAL; rec n2 LOCAL] = match ip with V4 x => v4_local x | V6 x => x =? 1 end).
  { unfold existsb, holds, rec, gr_network. destruct ip as [x|x].
    - rewrite A1, B2. by rewrite !orb_false_r.
    - rewrite B1, A2. change (128 - 128) with 0. rewrite !Z.shiftr_0_r. by rewrite orb_false_r. }
  assert (Hp : existsb (holds ip) [rec n3 PRIVATE; rec n4 PRIVATE; rec n5 PRIVATE; rec n6 PRIVATE; rec n7 PRIVATE; rec n8 PRIVATE]
               = match ip with V4 x => v4_private_range x | V6 x => v6_private_range x end).
  { unfold existsb, holds, rec, gr_network. destruct ip as [x|x].
    - rewrite A3, A4, A5, A6, B7, B8, !orb_false_r, !orb_assoc. done.
    - rewrite B3, B4, B5, B6, A7, A8, orb_false_r. done. }
  rewrite location_groups, Hl, Hp; [by destruct ip|by repeat constructor..|].
  rewrite Hl, Hp. destruct ip as [x|x]; [apply v4_local_disjoint|]. rewrite Z.eqb_eq. by intros ->.
Qed.
End builtins.

(** *** Instances *)

(** A database that only says which file it was opened from. *)
Definition PathMmdb : MmdbLib := {|
  Reader := rstr; open_readfile := Ok;
  CityRecord := rstr; CountryRecord := rstr; AsnRecord := rstr;
  lookup_city := fun r _ => if contains (lit "City") r then Some r else None;
  lookup_country := fun r _ => if contains (lit "Country") r then Some r else None;
  lookup_asn := fun r _ => if contains (lit "ASN") r then Some r else None;
  city_iso_code := fun _ => Some (lit "ng"); city_country_names := fun _ => None;
  city_continent_code := fun _ => None; city_continent_names := fun _ => None;
  city_subdivision_names := fun _ => None; city_city_names := fun _ => None;
  country_iso_code := fun _ => None; country_country_names := fun _ => None;
  country_continent_code := fun _ => None; country_continent_names := fun _ => None;
  asn_number := fun _ => Some 64500; asn_organization := fun _ => Some (lit "Example Hosting") |}.

Definition demo_csv : rstr :=
  lit "CIDR,country_code,country_name,continent_code" ++ [LF] ++ lit "# comment" ++ [LF]
  ++ lit "10.1.0.0/16, ng ,Nigeria,af" ++ [CR; LF] ++ lit "10.0.0.0/8,us,United States,na".
Definition demo_path : rstr := lit "config/geoip/geoip.csv".
Definition demo_resolver : result rstr (@GeoIpResolver CidrLib PathMmdb) :=
  @load_from_path CidrLib PathMmdb (fun p => p =s? demo_path) (fun _ => Ok demo_csv) true demo_path.
Example demo_resolver_answers :
  match demo_resolver with
  | Ok r => map (fun ip => gl_country_code (geo_lookup r ip)) [V4 (v4 10 1 2 3); V4 (v4 10 2 2 3); V4 (v4 127 0 0 1); V4 (v4 8 8 8 8)]
  | Err _ => []
  end = [Some (lit "NG"); Some (lit "US"); Some (lit "LO"); None].
Proof. vm_compute. reflexivity. Qed.

Definition demo_records : @GeoIpResolver CidrLib PathMmdb :=
  match demo_resolver with Ok r => r | Err _ => GeoIpResolver_disabled end.
Lemma geo_lookup_longest_witness :
  let holding := filter (fun x => @net_contains CidrLib (gr_network x) (V4 (v4 10 1 2 3)) = true) (ge_records demo_records) in
  (holding = [] /\ geo_lookup demo_records (V4 (v4 10 1 2 3)) = GeoLocation_unknown) \/
  exists record pre post, holding = pre ++ record :: post /\
    geo_lookup demo_records (V4 (v4 10 1 2 3)) = gr_location record /\
    Forall (fun x => @net_prefix_len CidrLib (gr_network x) <= @net_prefix_len CidrLib (gr_network record)) pre /\
    Forall (fun x => @net_prefix_len CidrLib (gr_network x) < @net_prefix_len CidrLib (gr_network record)) post.
Proof. apply (@geo_lookup_longest CidrLib PathMmdb demo_records (V4 (v4 10 1 2 3))); vm_compute; reflexivity. Defined.

Lemma geo_builtin_exact_witness :
  exists r, @GeoIpResolver_default CidrLib PathMmdb = Ok r /\ forall ip, geo_lookup r ip = builtin_answer ip.
Proof. apply (@geo_builtin_exact CidrLib PathMmdb CidrLaws). Defined.

(** Both databases are present; with the city file configured, the operator of
    the network is not found. *)
Definition city_path : rstr := lit "geoip/GeoLite2-City.mmdb".
Definition both_exist (p : rstr) : bool := (p =s? city_path) || (p =s? lit "geoip/GeoLite2-ASN.mmdb").
Lemma geo_siblings_ignored_witness :
  exists m, @load_mmdb_databases PathMmdb both_exist city_path = Ok m /\ both_exist (lit "geoip/GeoLite2-ASN.mmdb") = true /\
  exists reader, @open_readfile PathMmdb city_path = Ok reader /\
    mm_city m = Some reader /\ mm_country m = Some reader /\ mm_asn m = Some reader.
Proof.
  eexists. split; [reflexivity|]. split; [reflexivity|].
  apply (@geo_siblings_ignored PathMmdb both_exist city_path); reflexivity.
Defined.
Example asn_missed :
  match @load_from_path CidrLib PathMmdb both_exist (fun _ => Err []) true city_path with
  | Ok r => gl_source (geo_lookup r (V4 (v4 8 8 8 8)))
  | Err _ => []
  end = lit "mmdb_city".
Proof. vm_compute. reflexivity. Qed.
