(* ===== verification/HttpForward.v ===== *)
(** What the [http-proxy] crate sends on: the network check of an upstream, the
    request as the upstream gets it, bodies under a limit, content types, cache
    headers and compression of the response.  The [Uri] of the [http] crate, name
    resolution and the gzip encoder are parameters. *)
From stdpp Require Import options.
From S2P Require Import Prelude RustStr RustNum RustNet CommonTypes CommonPath CommonValidate HttpLimits HttpMiddleware HttpHeaders HttpPolicy.

Local Open Scope Z_scope.

(** ** The network of an upstream *)

Section network.
Context {UL : UrlLib} (env : rstr -> option rstr).
(** [lookup_host] within its two seconds: [None] for an error or a timeout. *)
Context (lookup_host : rstr -> Z -> option (list IpAddr)).

Definition reserved_host_gateway (host : rstr) : bool :=
  (host =s? lit "host.docker.internal") || (host =s? lit "gateway.docker.internal").
Definition env_flag (name : string) : bool :=
  match env (lit name) with
  | Some value => existsb (seq_eqb (to_ascii_lowercase value)) (lits ["1"; "true"; "yes"; "on"])
  | None => false
  end.
Definition host_gateway_upstreams_allowed : bool := env_flag "PXXL_ALLOW_HOST_GATEWAY_UPSTREAMS".
Definition http_private_upstreams_allowed : bool := env_flag "PXXL_ALLOW_PRIVATE_UPSTREAMS".

Definition network_host (host : rstr) : rstr := to_ascii_lowercase (trim_end_matches "."%char host).
Definition runtime_upstream_network_allowed (raw : rstr) : bool :=
  match url_parse raw with
  | Err _ => false
  | Ok parsed =>
    match url_host_str parsed with
    | None => false
    | Some host =>
      let host := network_host host in
      if reserved_host_gateway host then host_gateway_upstreams_allowed
      else if http_private_upstreams_allowed then true
      else match parse_ip host with
      | Some ip => ip_allowed_for_upstream ip
      | None =>
        match url_port_or_known_default parsed with
        | None => false
        | Some port =>
          match lookup_host host port with
          | Some addresses => forallb ip_allowed_for_upstream addresses
          | None => true
          end
        end
      end
    end
  end.
Definition ensure_runtime_upstream_allowed (source : RouteSource) (raw : rstr) : result PxxlError unit :=
  if negb (bool_decide (source = Api)) then Ok tt
  else if runtime_upstream_network_allowed raw then Ok tt
  else Err (InvalidUpstream raw).

(** [Upstream::authority] *)
Definition authority (u : Upstream) : result PxxlError rstr :=
  match url_parse (u_url u) with
  | Err _ => Err (InvalidUpstream (u_url u))
  | Ok parsed =>
    match url_host_str parsed with
    | Some host => Ok match url_port parsed with
                      | Some port => host ++ lit ":" ++ to_dec port
                      | None => host
                      end
    | None => Err (InvalidUpstream (u_url u))
    end
  end.
End network.

(** ** Targets *)

Section uris.
(** [str::parse::<Uri>] and [Uri::path_and_query]. *)
Context {Uri : Type} (uri_parse : rstr -> option Uri) (path_and_query : Uri -> option rstr).

Definition build_upstream_uri (u : Upstream) (original : Uri) : result PxxlError Uri :=
  let target := trim_end_matches "/"%char (u_url u) ++ default (lit "/") (path_and_query original) in
  ok_or (InvalidUpstream (u_url u)) (uri_parse target).
Definition canonical_forward_uri (canonical_path : rstr) (query : option rstr) : result PxxlError Uri :=
  let pq := match query with
            | Some query => if is_empty query then canonical_path else canonical_path ++ lit "?" ++ query
            | None => canonical_path
            end in
  ok_or (InvalidPath canonical_path) (uri_parse pq).
End uris.

(** ** Bodies *)

Inductive BufferError := TooLarge | BodyError (message : rstr).
(** A frame of the body: data, trailers, or a read error. *)
Inductive frame := Data (bytes : rstr) | Trailers | FrameError (message : rstr).
Fixpoint collect_frames (frames : list frame) (max_bytes : Z) (collected : rstr) : result BufferError rstr :=
  match frames with
  | [] => Ok collected
  | FrameError message :: _ => Err (BodyError message)
  | Trailers :: frames' => collect_frames frames' max_bytes collected
  | Data data :: frames' =>
    if max_bytes <? wrap64 (str_len collected + str_len data) then Err TooLarge
    else collect_frames frames' max_bytes (collected ++ data)
  end.
Definition collect_body_with_limit (frames : list frame) (max_bytes : Z) : result BufferError rstr :=
  collect_frames frames max_bytes [].

(** ** The request as the upstream gets it *)

Section request.
Context {NL : IpNetLib} {UL : UrlLib} {HL : HeaderLib}.

Record ForwardContext := {
  fc_matched : RouteMatch;
  fc_upstream : Upstream;
  fc_scheme : RequestScheme;
  fc_remote_ip : option IpAddr;
  fc_client_cert_pem : option rstr;
  fc_middleware : EffectiveMiddleware;
}.

Definition set_host (c : ForwardContext) (h : HeaderMap) : result PxxlError HeaderMap :=
  if dr_preserve_host_header (r_rules (m_route (fc_matched c))) then Ok h
  else
    let? auth := authority (fc_upstream c) in
    let? value := ok_or (InvalidUpstream (u_url (fc_upstream c))) (value_from_str auth) in
    Ok (insert_header (lit "host") value h).
Definition set_forwarded (c : ForwardContext) (h : HeaderMap) : result PxxlError HeaderMap :=
  let? domain := ok_or InvalidHost (value_from_str (r_domain (m_route (fc_matched c)))) in
  let h := insert_header (lit "x-forwarded-host") domain h in
  let h := insert_header (lit "x-forwarded-proto") (scheme_as_str (fc_scheme c)) h in
  Ok match fc_remote_ip c with
     | Some ip => match value_from_str (ip_to_string ip) with
                  | Some value => insert_header (lit "x-forwarded-for") value h
                  | None => h
                  end
     | None => h
     end.
Definition set_client_cert (c : ForwardContext) (h : HeaderMap) : HeaderMap :=
  let config := em_client_cert_forwarding (fc_middleware c) in
  if cf_enabled config then
    match fc_client_cert_pem c, name_from_bytes (cf_header_name config) with
    | Some cert, Some name => match value_from_str cert with
                              | Some value => insert_header name value h
                              | None => h
                              end
    | _, _ => h
    end
  else h.
(** The headers of [to_request]: those of the client, stripped, with the length
    of the buffered body. *)
Definition buffered_headers (h : HeaderMap) (body : rstr) : HeaderMap :=
  let h := strip_forwarded_request_headers h in
  match value_from_str (to_dec (str_len body)) with
  | Some length => insert_header (lit "content-length") length h
  | None => h
  end.
Definition streaming_headers (h : HeaderMap) : HeaderMap :=
  let websocket_upgrade := is_websocket_upgrade h in
  let h := strip_forwarded_request_headers h in
  if websocket_upgrade then preserve_websocket_upgrade_headers h else h.
Definition upstream_headers (c : ForwardContext) (h : HeaderMap) : result PxxlError HeaderMap :=
  let? h := set_host c h in
  let? h := set_forwarded c h in
  Ok (set_client_cert c h).
Definition forward_buffered_headers (c : ForwardContext) (h : HeaderMap) (body : rstr) : result PxxlError HeaderMap :=
  upstream_headers c (buffered_headers h body).
Definition forward_streaming_headers (c : ForwardContext) (h : HeaderMap) : result PxxlError HeaderMap :=
  upstream_headers c (streaming_headers h).
End request.

(** ** Content types *)

Definition detect_by_path (lower : rstr) : option rstr :=
  if ends_with (lit ".json") lower then Some (lit "application/json")
  else if ends_with (lit ".html") lower || ends_with (lit ".htm") lower then Some (lit "text/html; charset=utf-8")
  else if ends_with (lit ".css") lower then Some (lit "text/css; charset=utf-8")
  else if ends_with (lit ".js") lower || ends_with (lit ".mjs") lower then Some (lit "application/javascript")
  else if ends_with (lit ".svg") lower then Some (lit "image/svg+xml")
  else if ends_with (lit ".txt") lower then Some (lit "text/plain; charset=utf-8")
  else None.
Fixpoint skip_while (f : ascii -> bool) (s : rstr) : rstr :=
  match s with [] => [] | b :: s' => if f b then skip_while f s' else s end.
Definition detect_by_body (body : rstr) : option rstr :=
  let trimmed := take 16 (skip_while is_ascii_whitespace body) in
  if match head trimmed with Some b => beq b (chr "{") || beq b (chr "[") | None => false end
  then Some (lit "application/json")
  else if starts_with (lit "<!doctype") trimmed || starts_with (lit "<html") trimmed
  then Some (lit "text/html; charset=utf-8")
  else None.
Definition detect_content_type (path : rstr) (body : option rstr) : option rstr :=
  match detect_by_path (to_ascii_lowercase path) with
  | Some t => Some t
  | None => match body with Some body => detect_by_body body | None => None end
  end.

(** ** Caching *)

Definition STATIC_PREFIXES : list rstr := lits ["/assets/"; "/fonts/"; "/generated/website-assets/"; "/_build/"].
Definition STATIC_SUFFIXES : list rstr := lits
  [".avif"; ".webp"; ".png"; ".jpg"; ".jpeg"; ".svg"; ".gif"; ".ico"; ".css"; ".js"; ".mjs"; ".woff"; ".woff2";
   ".ttf"; ".otf"; ".wasm"; ".map"].
Definition is_static_asset_path (path : rstr) : bool :=
  let lower := to_ascii_lowercase (path_without_query path) in
  existsb (fun p => starts_with p lower) STATIC_PREFIXES || existsb (fun p => ends_with p lower) STATIC_SUFFIXES.
Definition is_html_document_path (path : rstr) : bool :=
  let clean := path_without_query path in
  (clean =s? lit "/") || ends_with (lit ".html") clean
  || (negb (starts_with (lit "/api/") clean) && negb (contains_char (chr ".") clean)).

Section response.
Context {HL : HeaderLib}.
(** [gzip_bytes]: the encoder of the [flate2] crate. *)
Context (gzip_bytes : rstr -> option rstr).

Definition contains_key (h : HeaderMap) (n : rstr) : bool := negb (is_empty (get_all h n)).
Definition apply_request_content_type_detection (path : rstr) (body : option rstr) (h : HeaderMap) : HeaderMap :=
  if contains_key h (lit "content-type") then h
  else match detect_content_type path body with
  | Some t => insert_header (lit "content-type") t h
  | None => h
  end.
Definition apply_default_cache_headers (path : rstr) (h : HeaderMap) : HeaderMap :=
  if is_static_asset_path path then
    insert_header (lit "expires") (lit "Thu, 31 Dec 2037 23:55:55 GMT")
      (insert_header (lit "cache-control") (lit "public, max-age=31536000, immutable") h)
  else if is_html_document_path path then insert_header (lit "cache-control") (lit "no-cache") h
  else h.
Definition attach_request_id_header (request_id : rstr) (h : HeaderMap) : HeaderMap :=
  match value_from_str request_id with
  | Some value => insert_header (lit "x-request-id") value h
  | None => h
  end.
(** [trace_id] and [span_id] are the generated identifiers. *)
Definition ensure_trace_headers (trace_id span_id request_id : rstr) (h : HeaderMap) : HeaderMap :=
  let h := if contains_key h (lit "traceparent") then h
           else match value_from_str (lit "00-" ++ trace_id ++ lit "-" ++ span_id ++ lit "-01") with
                | Some value => insert_header (lit "traceparent") value h
                | None => h
                end in
  attach_request_id_header request_id h.

(** ** Compression *)

Record BufferedResponse := { bf_status : Z; bf_headers : HeaderMap; bf_body : rstr }.

Definition response_is_compressible (h : HeaderMap) (config : CompressionConfig) : bool :=
  match get_str h (lit "content-type") with
  | None => true
  | Some t =>
    if negb (is_empty (cc_content_types config)) then existsb (content_type_matches t) (cc_content_types config)
    else starts_with (lit "text/") t || content_type_matches t (lit "application/json")
         || content_type_matches t (lit "application/javascript") || content_type_matches t (lit "image/svg+xml")
  end.
Definition accepts_gzip (value : option rstr) : bool :=
  match value with
  | Some value => match to_str value with
                  | Some value => existsb (fun part => starts_with (lit "gzip") (trim part)) (split (chr ",") value)
                  | None => false
                  end
  | None => false
  end.
Definition autodetect (m : EffectiveMiddleware) (r : BufferedResponse) : BufferedResponse :=
  if ct_enabled (em_content_type_autodetect m) && negb (contains_key (bf_headers r) (lit "content-type")) then
    match detect_content_type [] (Some (bf_body r)) with
    | Some t => {| bf_status := bf_status r; bf_headers := insert_header (lit "content-type") t (bf_headers r);
                   bf_body := bf_body r |}
    | None => r
    end
  else r.
Definition apply_response_middleware (m : EffectiveMiddleware) (accepts : bool) (r : BufferedResponse) : BufferedResponse :=
  let r := autodetect m r in
  let config := em_compression m in
  if negb (cc_enabled config) || negb accepts || (str_len (bf_body r) <? cc_min_bytes config)
     || contains_key (bf_headers r) (lit "content-encoding") || negb (response_is_compressible (bf_headers r) config)
  then r
  else match gzip_bytes (bf_body r) with
  | Some body => {|
      bf_status := bf_status r;
      bf_headers := insert_header (lit "vary") (lit "accept-encoding")
                      (remove (lit "content-length") (insert_header (lit "content-encoding") (lit "gzip") (bf_headers r)));
      bf_body := body |}
  | None => r
  end.
End response.

(** ** The network check *)

(** The network check of an upstream, exactly: the gateway of the host needs
    its own permission; any other upstream passes with the general permission,
    with an allowed literal address, or when all its resolved addresses are
    allowed. A name that does not resolve in time passes as well. *)
Theorem network_check_exact {UL : UrlLib} env lookup_host raw :
  runtime_upstream_network_allowed env lookup_host raw = true <->
  exists parsed host, url_parse raw = Ok parsed /\ url_host_str parsed = Some host /\
    let h := network_host host in
    if reserved_host_gateway h then host_gateway_upstreams_allowed env = true
    else http_private_upstreams_allowed env = true \/
      (exists ip, parse_ip h = Some ip /\ ip_allowed_for_upstream ip = true) \/
      (parse_ip h = None /\ exists port, url_port_or_known_default parsed = Some port /\
         (lookup_host h port = None \/
          exists l, lookup_host h port = Some l /\ Forall (fun ip => ip_allowed_for_upstream ip = true) l)).
Proof.
  unfold runtime_upstream_network_allowed. destruct (url_parse raw) as [parsed|]; [|naive_solver].
  destruct (url_host_str parsed) as [host|] eqn:Hh.
  2:{ split; [done|]. intros (? & ? & [= <-] & ? & _). congruence. }
  transitivity (let h := network_host host in
    if reserved_host_gateway h then host_gateway_upstreams_allowed env = true
    else http_private_upstreams_allowed env = true \/
      (exists ip, parse_ip h = Some ip /\ ip_allowed_for_upstream ip = true) \/
      (parse_ip h = None /\ exists port, url_port_or_known_default parsed = Some port /\
         (lookup_host h port = None \/
          exists l, lookup_host h port = Some l /\ Forall (fun ip => ip_allowed_for_upstream ip = true) l)));
    [|split; [intros; by exists parsed, host | intros (p & h' & [= <-] & Hh' & H); by simplify_eq]].
  cbn zeta. destruct (reserved_host_gateway _); [done|]. destruct (http_private_upstreams_allowed env); [naive_solver|].
  destruct (parse_ip (network_host host)) as [ip|]; [naive_solver|].
  destruct (url_port_or_known_default parsed) as [port|]; [|split; [done|]; intros [|[[? []]|(_ & ? & ? & _)]]; done].
  destruct (lookup_host (network_host host) port) as [l|] eqn:El.
  - rewrite forallb_forall, <-List.Forall_forall. split.
    + intros Hl. right. right. split; [done|]. exists port. split; [done|]. right. by exists l.
    + intros [|[[? []]|(_ & ? & [= <-] & [E|(l' & E & Hl)])]]; [done|done|congruence|]. by simplify_eq.
  - split; [|done]. intros _. right. right. split; [done|]. exists port. auto.
Qed.

(** The bracketed form of an IPv6 literal is neither an address nor resolvable,
    so the loopback address passes. *)
Definition BracketUrlLib : UrlLib := {|
  Url := rstr; url_parse := Ok; url_scheme := fun _ => lit "http"; url_username := fun _ => [];
  url_password := fun _ => None; url_fragment := fun _ => None; url_host_str := fun _ => Some (lit "[::1]");
  url_port := fun _ => Some 8080; url_port_or_known_default := fun _ => Some 8080 |}.
Example ipv6_loopback_passes :
  @ensure_runtime_upstream_allowed BracketUrlLib (fun _ => None) (fun _ _ => None) Api (lit "http://[::1]:8080") = Ok tt.
Proof. reflexivity. Qed.

(** ** Bodies under a limit *)

Definition frame_data (f : frame) : rstr := match f with Data b => b | _ => [] end.
Definition is_frame_error (f : frame) : bool := match f with FrameError _ => true | _ => false end.

Lemma collect_frames_spec frames max : forall collected b,
  str_len collected + str_len (flat_map frame_data frames) < 2 ^ 64 -> str_len collected <= max ->
  collect_frames frames max collected = Ok b <->
  existsb is_frame_error frames = false /\ b = collected ++ flat_map frame_data frames /\ str_len b <= max.
Proof.
  assert (Happ : forall x y, str_len (x ++ y) = str_len x + str_len y) by (intros; unfold str_len; rewrite length_app; lia).
  assert (Hpos : forall x, 0 <= str_len x) by (intros; unfold str_len; lia).
  induction frames as [|[data| |message] frames IH]; intros collected b Hlen Hmax;
    cbn [collect_frames existsb is_frame_error flat_map frame_data orb] in *.
  - rewrite app_nil_r. naive_solver.
  - rewrite Happ in Hlen. pose proof (Hpos data). pose proof (Hpos collected). pose proof (Hpos (flat_map frame_data frames)).
    rewrite wrap64_small by (unfold is_u64, U64_MAX; lia).
    destruct (Z.ltb_spec max (str_len collected + str_len data)).
    + split; [done|]. intros (_ & -> & Hb). rewrite !Happ in Hb. lia.
    + rewrite IH by (rewrite Happ; lia). by rewrite app_assoc.
  - by apply IH.
  - naive_solver.
Qed.

(** A collected body is complete and within its limit: collecting returns a
    body exactly when no frame failed and the data together fits, and then it
    returns the data of all frames in order. *)
Theorem body_limit_exact frames max b :
  0 <= max -> str_len (flat_map frame_data frames) < 2 ^ 64 ->
  collect_body_with_limit frames max = Ok b <->
  existsb is_frame_error frames = false /\ b = flat_map frame_data frames /\ str_len b <= max.
Proof. intros Hmax Hlen. by apply (collect_frames_spec frames max [] b). Qed.
Lemma body_limit_exact_witness :
  existsb is_frame_error [Data (lit "ab"); Trailers; Data (lit "c")] = false /\
  lit "abc" = flat_map frame_data [Data (lit "ab"); Trailers; Data (lit "c")] /\ str_len (lit "abc") <= 3.
Proof. apply (body_limit_exact [Data (lit "ab"); Trailers; Data (lit "c")] 3 (lit "abc")); [lia|vm_compute; reflexivity..]. Defined.

(** ** The headers an upstream receives *)

(** The values [insert] is given are taken over when the library accepts them. *)
Definition accepted (o : option rstr) : list rstr := match o with Some v => [v] | None => [] end.
(** The headers the proxy writes itself. *)
Definition OWN_HEADERS : list rstr :=
  lits ["host"; "x-forwarded-host"; "x-forwarded-proto"; "x-forwarded-for"; "content-length"].

Section upstream_spec.
Context {NL : IpNetLib} {UL : UrlLib} {HL : HeaderLib} {Laws : HeaderLaws HL}.

Lemma get_insert_eq n v h : get_all (insert_header n v h) n = [v].
Proof using Laws. by rewrite get_all_insert, seqb_refl. Qed.
Lemma get_insert_ne n n' v h : n <> n' -> get_all (insert_header n v h) n' = get_all h n'.
Proof using Laws. intros Hne. by rewrite get_all_insert, (proj2 (seqb_false n n')). Qed.

(** What one step writes and what it leaves. *)
Lemma set_host_get (c : ForwardContext) h h' :
  set_host c h = Ok h' ->
  (if dr_preserve_host_header (r_rules (m_route (fc_matched c))) then get_all h' (lit "host") = get_all h (lit "host")
   else exists auth, authority (fc_upstream c) = Ok auth /\ get_all h' (lit "host") = accepted (value_from_str auth)) /\
  forall n, n <> lit "host" -> get_all h' n = get_all h n.
Proof using Laws.
  unfold set_host. destruct (dr_preserve_host_header _); [by intros [= <-]|].
  destruct (authority (fc_upstream c)) as [auth|]; [|done].
  destruct (value_from_str auth) as [v|] eqn:Ev; [|done]. cbn [ok_or]. intros [= <-]. split.
  - exists auth. rewrite Ev. split; [done|]. apply get_insert_eq.
  - intros n Hn. by apply get_insert_ne.
Qed.

Lemma set_forwarded_get (c : ForwardContext) h h' :
  set_forwarded c h = Ok h' ->
  get_all h' (lit "x-forwarded-host") = accepted (value_from_str (r_domain (m_route (fc_matched c)))) /\
  get_all h' (lit "x-forwarded-proto") = [scheme_as_str (fc_scheme c)] /\
  get_all h' (lit "x-forwarded-for") =
    match fc_remote_ip c with
    | Some ip => match value_from_str (ip_to_string ip) with Some v => [v] | None => get_all h (lit "x-forwarded-for") end
    | None => get_all h (lit "x-forwarded-for")
    end /\
  forall n, n ∉ lits ["x-forwarded-host"; "x-forwarded-proto"; "x-forwarded-for"] -> get_all h' n = get_all h n.
Proof using Laws.
  unfold set_forwarded. destruct (value_from_str (r_domain _)) as [vd|]; [|done]. cbn [ok_or].
  set (h1 := insert_header (lit "x-forwarded-proto") _ _).
  assert (H1 : forall n, n ∉ lits ["x-forwarded-host"; "x-forwarded-proto"; "x-forwarded-for"] -> get_all h1 n = get_all h n).
  { intros n Hn. unfold h1. rewrite !get_insert_ne; [done|intros <-; apply Hn; by_decide..]. }
  assert (Hh : get_all h1 (lit "x-forwarded-host") = [vd]).
  { unfold h1. rewrite get_insert_ne by by_decide. apply get_insert_eq. }
  assert (Hp : get_all h1 (lit "x-forwarded-proto") = [scheme_as_str (fc_scheme c)]) by apply get_insert_eq.
  assert (Hf : get_all h1 (lit "x-forwarded-for") = get_all h (lit "x-forwarded-for")).
  { unfold h1. by rewrite !get_insert_ne by by_decide. }
  intros [= <-]. destruct (fc_remote_ip c) as [ip|]; [|by rewrite Hh, Hp, Hf].
  destruct (value_from_str (ip_to_string ip)) as [v|]; [|by rewrite Hh, Hp, Hf].
  rewrite !(get_insert_ne (lit "x-forwarded-for")) by by_decide. rewrite Hh, Hp, get_insert_eq.
  do 3 (split; [done|]). intros n Hn. rewrite get_insert_ne; [by apply H1|]. intros <-. apply Hn. by_decide.
Qed.

Lemma buffered_headers_get h body n :
  n <> lit "content-length" ->
  get_all (buffered_headers h body) n =
  if bool_decide (n ∈ FORWARDED_REQUEST_HEADERS ++ declared_hop_by_hop h) then [] else get_all h n.
Proof using Laws.
  intros Hn. unfold buffered_headers. rewrite <-strip_get.
  destruct (value_from_str (to_dec (str_len body))); [|done]. rewrite get_insert_ne; [done|congruence].
Qed.

(** The two ways a request goes on: with a body held in memory, or streamed. *)
Inductive forward_mode := Buffered (body : rstr) | Streamed.
Definition forward_headers (c : ForwardContext) (p : forward_mode) (h : HeaderMap) : result PxxlError HeaderMap :=
  match p with Buffered body => forward_buffered_headers c h body | Streamed => forward_streaming_headers c h end.
(** The client's header, unless it is hop-by-hop, is declared as such, or is one the
    proxy speaks for. *)
Definition passed_on (h : HeaderMap) (n : rstr) : list rstr :=
  if bool_decide (n ∈ FORWARDED_REQUEST_HEADERS ++ declared_hop_by_hop h) then [] else get_all h n.
(** The certificate of the client, under the name the operator chose. *)
Definition cert_header (c : ForwardContext) : option (rstr * rstr) :=
  let config := em_client_cert_forwarding (fc_middleware c) in
  match (if cf_enabled config then fc_client_cert_pem c else None), name_from_bytes (cf_header_name config) with
  | Some cert, Some name => match value_from_str cert with Some v => Some (name, v) | None => None end
  | _, _ => None
  end.
(** What the upstream has to get under a name. *)
Definition expected_header (c : ForwardContext) (p : forward_mode) (h : HeaderMap) (n : rstr) : list rstr :=
  if bool_decide ((fst <$> cert_header c) = Some n) then accepted (snd <$> cert_header c)
  else if bool_decide (n = lit "x-forwarded-for") then
    match fc_remote_ip c with Some ip => accepted (value_from_str (ip_to_string ip)) | None => [] end
  else if bool_decide (n = lit "x-forwarded-proto") then [scheme_as_str (fc_scheme c)]
  else if bool_decide (n = lit "x-forwarded-host") then accepted (value_from_str (r_domain (m_route (fc_matched c))))
  else if bool_decide (n = lit "host") then
    if dr_preserve_host_header (r_rules (m_route (fc_matched c))) then []
    else match authority (fc_upstream c) with Ok auth => accepted (value_from_str auth) | Err _ => [] end
  else
    match p with
    | Buffered body =>
      match (if bool_decide (n = lit "content-length") then value_from_str (to_dec (str_len body)) else None) with
      | Some length => [length]
      | None => passed_on h n
      end
    | Streamed =>
      if is_websocket_upgrade h && bool_decide (n = lit "upgrade") then [lit "websocket"]
      else if is_websocket_upgrade h && bool_decide (n = lit "connection") then [lit "Upgrade"]
      else passed_on h n
    end.

(** The headers before the proxy's own are set. *)
Lemma buffered_headers_all h body n : get_all (buffered_headers h body) n =
  match (if bool_decide (n = lit "content-length") then value_from_str (to_dec (str_len body)) else None) with Some length => [length] | None => passed_on h n end.
Proof using Laws.
  unfold buffered_headers, passed_on. rewrite <- strip_get. destruct (value_from_str (to_dec (str_len body))) as [v|]; case_bool_decide as En; try done.
  - subst n. apply get_insert_eq.
  - apply get_insert_ne. congruence.
Qed.
Lemma streaming_headers_all h n : get_all (streaming_headers h) n =
  (if is_websocket_upgrade h && bool_decide (n = lit "upgrade") then [lit "websocket"]
   else if is_websocket_upgrade h && bool_decide (n = lit "connection") then [lit "Upgrade"] else passed_on h n).
Proof using Laws.
  unfold streaming_headers, passed_on. rewrite <- strip_get. destruct (is_websocket_upgrade h); [|done]. unfold preserve_websocket_upgrade_headers. cbn [andb].
  case_bool_decide as Eu; [subst n; apply get_insert_eq|]. rewrite get_insert_ne by congruence.
  case_bool_decide as Ec; [subst n; apply get_insert_eq|]. apply get_insert_ne. congruence.
Qed.
Lemma set_client_cert_get c h n : get_all (set_client_cert c h) n =
  if bool_decide ((fst <$> cert_header c) = Some n) then accepted (snd <$> cert_header c) else get_all h n.
Proof using Laws.
  unfold set_client_cert, cert_header. destruct (cf_enabled _); [|by rewrite bool_decide_false].
  destruct (fc_client_cert_pem c) as [cert|]; [|by rewrite bool_decide_false].
  destruct (name_from_bytes _) as [name|]; [|by rewrite bool_decide_false]. destruct (value_from_str cert) as [v|]; [|by rewrite bool_decide_false].
  cbn [fmap option_fmap option_map fst snd accepted]. case_bool_decide as En; [injection En as ->; apply get_insert_eq|]. apply get_insert_ne. congruence.
Qed.


(** With certificate forwarding enabled, a client that presents no certificate
    chooses the certificate header itself: the header of that name it sent
    reaches the upstream unchanged. *)
Theorem client_cert_forgeable (c : ForwardContext) h body h' name :
  cf_enabled (em_client_cert_forwarding (fc_middleware c)) = true ->
  name_from_bytes (cf_header_name (em_client_cert_forwarding (fc_middleware c))) = Some name ->
  fc_client_cert_pem c = None -> name ∉ OWN_HEADERS -> name ∉ FORWARDED_REQUEST_HEADERS -> name ∉ declared_hop_by_hop h ->
  forward_buffered_headers c h body = Ok h' -> get_all h' name = get_all h name.
Proof using Laws.
  intros Hen Hname Hpem Hown Hfwd Hdecl. unfold forward_buffered_headers, upstream_headers.
  destruct (set_host c (buffered_headers h body)) as [h1|] eqn:E1; [|done]. apply set_host_get in E1 as [_ Hrest1].
  destruct (set_forwarded c h1) as [h2|] eqn:E2; [|done]. apply set_forwarded_get in E2 as (_ & _ & _ & Hrest2).
  unfold set_client_cert. rewrite Hen, Hpem. intros [= <-].
  assert (Hin : forall x, x ∈ OWN_HEADERS -> name <> x) by (intros x Hx ->; done).
  rewrite Hrest2, Hrest1, buffered_headers_get; try (apply Hin; by_decide).
  - rewrite bool_decide_false; [done|]. rewrite elem_of_app. tauto.
  - intros Hx. apply Hown. unfold OWN_HEADERS, lits in *. cbn [map] in *. rewrite !elem_of_cons in *. tauto.
Qed.
End upstream_spec.

Definition demo_forward : @ForwardContext CidrLib := {|
  fc_matched := {| m_route := example_route; m_path := PathRoute_new (lit "/api") [] |};
  fc_upstream := Upstream_new (lit "http://10.0.0.9:3000");
  fc_scheme := Https; fc_remote_ip := Some (V4 (v4 203 0 113 7)); fc_client_cert_pem := None;
  fc_middleware := middleware_of_rules (@DomainRules_default CidrLib) |}.
Definition demo_request : list (rstr * rstr) :=
  [(lit "host", lit "evil.test"); (lit "x-forwarded-for", lit "1.2.3.4"); (lit "accept", lit "*/*");
   (lit "connection", lit "x-secret"); (lit "x-secret", lit "1")].
Definition demo_forwarded : list (rstr * rstr) :=
  match @forward_buffered_headers CidrLib SimpleUrlLib AssocHeaders demo_forward demo_request (lit "body") with
  | Ok h => h
  | Err _ => []
  end.
(** The whole request: the client's address and host are replaced, the header it
    declared as hop-by-hop is gone. *)
Example demo_forwarded_value :
  demo_forwarded = [(lit "accept", lit "*/*"); (lit "content-length", lit "4"); (lit "host", lit "10.0.0.9:3000");
    (lit "x-forwarded-host", lit "example.com"); (lit "x-forwarded-proto", lit "https");
    (lit "x-forwarded-for", lit "203.0.113.7")].
Proof. vm_compute. reflexivity. Qed.

Definition cert_middleware : EffectiveMiddleware :=
  apply_middleware
    {| md_chain := []; md_basic_auth := None; md_digest_auth := None; md_forward_auth := None;
       md_request_buffering := None; md_response_buffering := None; md_compression := None;
       md_content_type_autodetect := None; md_retry := None; md_circuit_breaker := None; md_in_flight_limit := None;
       md_pass_tls_client_cert := Some {| cf_enabled := true; cf_header_name := default_client_cert_header |} |}
    (middleware_of_rules (@DomainRules_default CidrLib)).
Definition cert_forward : @ForwardContext CidrLib := {|
  fc_matched := fc_matched demo_forward; fc_upstream := fc_upstream demo_forward; fc_scheme := Https;
  fc_remote_ip := None; fc_client_cert_pem := None; fc_middleware := cert_middleware |}.
Definition forged_request : list (rstr * rstr) := [(default_client_cert_header, lit "CN=admin")].
Lemma client_cert_forgeable_witness :
  exists h', @forward_buffered_headers CidrLib SimpleUrlLib AssocHeaders cert_forward forged_request [] = Ok h' /\
    @get_all AssocHeaders h' default_client_cert_header = [lit "CN=admin"].
Proof.
  eexists. split; [vm_compute; reflexivity|].
  etransitivity;
    [eapply (@client_cert_forgeable CidrLib SimpleUrlLib AssocHeaders AssocHeaders_laws cert_forward forged_request []);
       first [reflexivity | by_decide | vm_compute; reflexivity]
    |vm_compute; reflexivity].
Defined.

(** ** Compression *)

Section compression_spec.
Context {HL : HeaderLib} {Laws : HeaderLaws HL} (gzip_bytes : rstr -> option rstr).

(** Compression is all or nothing. The response is either what the content
    type detection left, or its body is the encoder's and its headers say so: one
    content encoding, no length of the old body, every header but the three
    rewritten ones as before. It is compressed only if the route enables it, the
    client accepts it, the body is long enough, and it was not encoded yet. *)
Theorem compression_exact m accepts r :
  let r1 := autodetect m r in
  let r2 := apply_response_middleware gzip_bytes m accepts r in
  r2 = r1 \/
  (cc_enabled (em_compression m) = true /\ accepts = true /\ cc_min_bytes (em_compression m) <= str_len (bf_body r1) /\
   get_all (bf_headers r1) (lit "content-encoding") = [] /\
   response_is_compressible (bf_headers r1) (em_compression m) = true /\
   gzip_bytes (bf_body r1) = Some (bf_body r2) /\ bf_status r2 = bf_status r1 /\
   get_all (bf_headers r2) (lit "content-encoding") = [lit "gzip"] /\
   get_all (bf_headers r2) (lit "content-length") = [] /\
   get_all (bf_headers r2) (lit "vary") = [lit "accept-encoding"] /\
   forall n, n ∉ lits ["content-encoding"; "content-length"; "vary"] ->
     get_all (bf_headers r2) n = get_all (bf_headers r1) n).
Proof using Laws.
  intros r1 r2. unfold r2, apply_response_middleware. fold r1.
  destruct (_ || _) eqn:Hg; [by left|]. destruct (gzip_bytes (bf_body r1)) as [body|] eqn:Hz; [|by left]. right.
  rewrite !orb_false_iff, !negb_false_iff in Hg. destruct Hg as [[[[H1 H2] H3%Z.ltb_ge] H4] H5].
  cbn [bf_status bf_headers bf_body].
  do 3 (split; [done|]). split; [unfold contains_key in H4; by destruct (get_all (bf_headers r1) (lit "content-encoding"))|].
  do 3 (split; [done|]).
  rewrite !(get_insert_ne (lit "vary")), !get_all_remove, get_insert_eq by by_decide.
  change (lit "content-length" =s? lit "content-encoding") with false. rewrite seqb_refl, get_insert_eq.
  do 3 (split; [done|]). intros n Hn.
  assert (Hne : forall x, x ∈ lits ["content-encoding"; "content-length"; "vary"] -> x <> n) by (intros x Hx ->; done).
  rewrite get_insert_ne by (apply Hne; by_decide).
  rewrite get_all_remove, (proj2 (seqb_false _ _)) by (apply Hne; by_decide).
  apply get_insert_ne, Hne. by_decide.
Qed.
End compression_spec.

Definition gzip_middleware : EffectiveMiddleware :=
  apply_middleware
    {| md_chain := []; md_basic_auth := None; md_digest_auth := None; md_forward_auth := None;
       md_request_buffering := None; md_response_buffering := None;
       md_compression := Some {| cc_enabled := true; cc_min_bytes := 4; cc_content_types := [] |};
       md_content_type_autodetect := Some {| ct_enabled := true |}; md_retry := None; md_circuit_breaker := None;
       md_in_flight_limit := None; md_pass_tls_client_cert := None |}
    (middleware_of_rules (@DomainRules_default CidrLib)).
Definition demo_response : @BufferedResponse AssocHeaders :=
  @Build_BufferedResponse AssocHeaders 200
    [(lit "vary", lit "origin"); (lit "content-length", lit "8")] (lit " [1,2,3]").
(** An encoder for the example. *)
Definition demo_gzip (b : rstr) : option rstr := Some (lit "gz:" ++ b).
Lemma compression_exact_witness :
  let r := @apply_response_middleware AssocHeaders demo_gzip gzip_middleware true demo_response in
  @get_all AssocHeaders (bf_headers r) (lit "content-encoding") = [lit "gzip"] /\
  @get_all AssocHeaders (bf_headers r) (lit "content-length") = [] /\
  @get_all AssocHeaders (bf_headers r) (lit "vary") = [lit "accept-encoding"].
Proof.
  destruct (@compression_exact AssocHeaders AssocHeaders_laws demo_gzip gzip_middleware true demo_response)
    as [E|(_ & _ & _ & _ & _ & _ & _ & H1 & H2 & H3 & _)]; [|by split].
  exfalso. apply (f_equal bf_body) in E. vm_compute in E. discriminate E.
Defined.
(** A client that refuses gzip is taken to accept it. *)
Example gzip_refusal_ignored : @accepts_gzip AssocHeaders (Some (lit "br, gzip;q=0")) = true.
Proof. vm_compute. reflexivity. Qed.
