(* ===== verification/HttpPipeline.v ===== *)
(** [ProxyServer::handle] of the [http-proxy] crate: the life of a request from
    its arrival to its answer, over the components of the other files.  A stage
    either answers the request or passes on a value; both change the state of the
    server.  What the outside answers (clocks, the upstream, the bandwidth and
    diagnostics services, files, name resolution) is a record of readings. *)
From stdpp Require Import options.
From S2P Require Import Prelude RustStr RustNum RustNet CommonTypes CommonPath CommonValidate LoadBalancer Ddos AdaptiveBlocker RouteRegistry Stats HttpLimits HttpMiddleware HttpHeaders HttpSelect HttpAuth HttpPolicy HttpPages HttpForward Geo.

Local Open Scope Z_scope.

Section pipeline.
Context {NL : IpNetLib} {UL : UrlLib} {HL : HeaderLib} {ML : MmdbLib} {CL : CryptoLib} {LL : Log2Lib}
  {DH : DefaultHasher} {SC : SnapshotCodec}.

(** The [Uri] of the [http] crate. *)
Context {Uri : Type} (uri_parse : rstr -> option Uri) (uri_path : Uri -> rstr) (uri_query : Uri -> option rstr)
  (uri_path_and_query : Uri -> option rstr) (uri_authority : Uri -> option rstr) (uri_to_string : Uri -> rstr).

Record Request := {
  in_method : rstr;
  in_uri : Uri;
  in_headers : HeaderMap;
  in_body : list frame;
}.
(** A body held in memory, a stream cut after [max] bytes, and the two ways of an
    upgraded connection. *)
Inductive Body := Full (bytes : rstr) | Limited (frames : list frame) (max : Z) | Tunnel.
Record Response := { re_status : Z; re_headers : HeaderMap; re_body : Body }.
Record BufferedRequest := { br_method : rstr; br_uri : Uri; br_headers : HeaderMap; br_body : rstr }.
(** A request as it leaves for an upstream. *)
Record Sent := { se_method : rstr; se_uri : Uri; se_headers : HeaderMap; se_body : Body }.
(** A mirror task that [tokio::spawn] started. *)
Record MirrorTask := { mt_request : BufferedRequest; mt_matched : RouteMatch; mt_upstream : Upstream; mt_domain : rstr }.

(** *** The server *)

Record Config := {
  cg_error_pages : ErrorPageRenderer;
  cg_geoip : GeoIpResolver;
  cg_trusted_client_ip : list IpNet;
  cg_digest_secret : rstr;
  cg_env : rstr -> option rstr;
  cg_canonical_reason : Z -> option rstr;
  cg_default_template : rstr;
  cg_gzip : rstr -> option rstr;
}.
Record Server := {
  sv_health : Passive.PassiveHealth;
  sv_security : SecurityEngine;
  sv_load_balancer : LoadBalancer;
  sv_stats : DomainStatsRegistry;
  sv_policy : PolicyState;
  sv_breakers : Circuit.Breakers;
  sv_in_flight : gmap rstr Z;
  sv_replays : gmap rstr Z;
  sv_mirrors : list MirrorTask;
}.
Definition sv_routes (s : Server) : RouteTable := es_routes (Passive.ps_state (sv_health s)).

(** What an upstream answers: a response with the frames of its body, or an
    error with its chain of causes. *)
Record Answer := { an_status : Z; an_headers : HeaderMap; an_body : list frame }.
Record World := {
  w_request_id : rstr;
  w_trace_id : rstr;
  w_span_id : rstr;
  w_timestamp_unix_ms : Z;
  w_now_secs : Z;
  w_security : Readings;
  w_observe : Readings;
  w_spool_ok : bool;
  w_now_policy : Z;
  w_now_digest_ms : Z;
  w_now_digest : Z;
  w_now_select : Z;
  w_now_result : Z;
  w_elapsed_ms : Z;
  w_elapsed_us : Z;
  w_acme_root : rstr;
  w_read_file : rstr -> option rstr;
  (** the bandwidth service: absent, or what it answers; an error is [None] *)
  w_bandwidth : option (option bool);
  w_monthly_used : option Z;
  w_forward_auth : list (rstr * rstr) -> option Z;
  w_diagnostic : option rstr;
  (** name resolution for the authentication service (0), for each attempt, and, under
      any number, for a mirror task *)
  w_lookup_host : nat -> rstr -> Z -> option (list IpAddr);
  w_spurious : list bool;
  (** what the upstream answers to each attempt *)
  w_send : nat -> Sent -> Answer + list error_link;
}.

(** The answer to the client, and the requests sent to an upstream before it, with
    the number of the attempt. *)
Record Outcome := { oc_response : Response; oc_sent : list (nat * Upstream * Sent) }.

Definition act (A : Type) : Type := Server -> Server * (Outcome + A).
Definition ret {A} (a : A) : act A := fun s => (s, inr a).
Definition bind {A B} (m : act A) (k : A -> act B) : act B :=
  fun s => match m s with (s, inr a) => k a s | (s, inl o) => (s, inl o) end.
Notation "'let!' x ':=' e 'in' k" := (bind e (fun x => k)) (at level 10, x name, e at level 100, k at level 200).
Notation "'do!' e 'in' k" := (bind e (fun _ => k)) (at level 10, e at level 100, k at level 200).

Section handle.
Context (g : Config) (w : World).

(** *** Answers *)

Definition headers_of (l : list (rstr * rstr)) : HeaderMap :=
  foldl (fun h kv => insert_header (fst kv) (snd kv) h) empty_headers l.
Definition response_of (p : page_response) : Response :=
  {| re_status := ps_status p; re_headers := headers_of (ps_headers p); re_body := Full (ps_body p) |}.
Definition on_headers (f : HeaderMap -> HeaderMap) (r : Response) : Response :=
  {| re_status := re_status r; re_headers := f (re_headers r); re_body := re_body r |}.
(** [if let Ok(value) = HeaderValue::from_str(&v) { insert }] *)
Definition insert_text (name : string) (v : rstr) (h : HeaderMap) : HeaderMap :=
  match value_from_str v with Some v => insert_header (lit name) v h | None => h end.
(** [finish_response!] *)
Definition finish_with {A} (sent : list (nat * Upstream * Sent)) (r : Response) : act A :=
  fun s => (s, inl {| oc_response := on_headers (attach_request_id_header (w_request_id w)) r; oc_sent := sent |}).
Definition finish {A} (r : Response) : act A := finish_with [] r.

Definition error_response (status : Z) (message : string) (domain path : rstr) : Response :=
  response_of (page_for (cg_canonical_reason g) (cg_default_template g) (cg_error_pages g) status (lit message)
                 domain path (w_request_id w) (w_elapsed_ms w)).
Definition diagnostic_response (status : Z) (reason : ProxyErrorReason) (domain : rstr) : Response :=
  response_of (diagnostic_error_response (cg_canonical_reason g) (cg_default_template g) (cg_error_pages g)
                 (w_diagnostic w) status reason domain (w_request_id w) (w_elapsed_ms w)).

(** *** Observation *)

Definition observation (cx : ProxyRequestContext) (status : Z) (upstream : option rstr) (sent received : Z)
  : RequestObservation := {|
  ob_request_id := px_request_id cx; ob_domain := px_domain cx; ob_method := px_method cx; ob_path := px_path cx;
  ob_status := status; ob_latency_ms := wrap64 (w_elapsed_ms w); ob_upstream := upstream;
  ob_remote_ip := px_remote_ip cx; ob_location := px_location cx;
  ob_timestamp_unix_ms := px_timestamp_unix_ms cx; ob_bytes_sent := sent; ob_bytes_received := received |}.
Definition set_stats (st : DomainStatsRegistry) (se : SecurityEngine) (s : Server) : Server := {|
  sv_health := sv_health s; sv_security := se; sv_load_balancer := sv_load_balancer s; sv_stats := st;
  sv_policy := sv_policy s; sv_breakers := sv_breakers s; sv_in_flight := sv_in_flight s; sv_replays := sv_replays s; sv_mirrors := sv_mirrors s |}.
Definition observe_request (cx : ProxyRequestContext) (status : Z) (upstream : option rstr) (sent received : Z) : act unit :=
  fun s =>
    let st := stats_record (w_spool_ok w) (observation cx status upstream sent received) (sv_stats s) in
    let se := match px_remote_ip cx with
              | Some ip => fst (record_request {| ev_ip := ip; ev_domain := px_domain cx; ev_path := px_path cx;
                                  ev_status := status; ev_timestamp_unix_ms := px_timestamp_unix_ms cx |}
                                  (w_observe w) (sv_security s))
              | None => sv_security s
              end in
    (set_stats st se s, inr tt).
(** An observation without an upstream, then the answer. *)
Definition refuse {A} (cx : ProxyRequestContext) (status : Z) (r : Response) : act A :=
  do! observe_request cx status None 0 0 in finish r.

(** *** Path and host *)

Definition request_context (domain path : rstr) (remote_ip : option IpAddr) (scheme : RequestScheme)
    (location : GeoLocation) (method : rstr) : ProxyRequestContext := {|
  px_request_id := w_request_id w; px_domain := domain; px_method := method; px_path := path;
  px_remote_ip := remote_ip; px_scheme := scheme; px_location := location;
  px_timestamp_unix_ms := w_timestamp_unix_ms w |}.
Definition accept_path (req : Request) (remote_ip : option IpAddr) (scheme : RequestScheme) : act rstr :=
  match canonicalize_request_path (uri_path (in_uri req)) with
  | Ok path => ret path
  | Err _ =>
    let raw_path := default (lit "/") (uri_path_and_query (in_uri req)) in
    refuse (request_context (lit "unknown") raw_path remote_ip scheme GeoLocation_unknown (in_method req)) 400
      (error_response 400 "invalid request path" (lit "unknown") raw_path)
  end.
Definition request_host (req : Request) : option rstr :=
  match get_str (in_headers req) (lit "host") with
  | Some host => Some host
  | None => uri_authority (in_uri req)
  end.
Definition accept_host (req : Request) (path : rstr) (remote_ip : option IpAddr) (scheme : RequestScheme)
    (location : GeoLocation) : act rstr :=
  match request_host req with
  | Some host => ret host
  | None =>
    refuse (request_context (lit "unknown") path remote_ip scheme location (in_method req)) 400
      (error_response 400 "missing host header" (lit "unknown") path)
  end.
Definition acme_stage (cx : ProxyRequestContext) : act unit :=
  match serve_acme_http01_challenge (w_acme_root w) (w_read_file w) (px_path cx) with
  | Some page => refuse cx (ps_status page) (response_of page)
  | None => ret tt
  end.

(** *** Security *)

Definition set_security (se : SecurityEngine) (s : Server) : Server := set_stats (sv_stats s) se s.
Definition retry_after_text (nanos : Z) : rstr := to_dec (Z.max (as_secs nanos) 1).
Definition security_stage (cx : ProxyRequestContext) : act unit :=
  match px_remote_ip cx with
  | None => ret tt
  | Some ip => fun s =>
    let '(se, decision) := security_check (px_domain cx) ip (w_security w) (sv_security s) in
    let s := set_security se s in
    match decision with
    | Allowed => (s, inr tt)
    | Blocked _ => refuse cx 403 (error_response 403 "request blocked" (px_domain cx) (px_path cx)) s
    | RateLimited retry_after =>
      refuse cx 429 (on_headers (insert_text "retry-after" (retry_after_text retry_after))
                       (error_response 429 "rate limited" (px_domain cx) (px_path cx))) s
    end
  end.

(** *** Route, redirect and policy *)

Definition route_stage (cx : ProxyRequestContext) (host : rstr) : act RouteMatch :=
  fun s => match find (sv_routes s) host (px_path cx) with
  | Some matched => (s, inr matched)
  | None => refuse cx 404 (diagnostic_response 404 RouteNotRegistered (px_domain cx)) s
  end.
Definition redirects_www (domain : rstr) (route : Route) : bool :=
  dr_redirect_www_to_apex (r_rules route) && dr_www_alias (r_rules route)
  && negb (domain =s? r_domain route)
  && match strip_prefix (lit "www.") domain with Some base => base =s? r_domain route | None => false end.
Definition www_location (cx : ProxyRequestContext) (route : Route) (query : option rstr) : rstr :=
  let scheme := if dr_redirect_http_to_https (r_rules route) || dr_require_https (r_rules route) then lit "https"
                else scheme_as_str (px_scheme cx) in
  scheme ++ lit "://" ++ r_domain route ++ px_path cx
  ++ match query with Some q => lit "?" ++ q | None => [] end.
Definition www_stage (cx : ProxyRequestContext) (matched : RouteMatch) (query : option rstr) : act unit :=
  if redirects_www (px_domain cx) (m_route matched) then
    refuse cx 308 (on_headers (insert_text "location" (www_location cx (m_route matched) query))
                     (response_of (response_with_body 308 "text/plain; charset=utf-8" [])))
  else ret tt.

Definition set_policy (p : PolicyState) (s : Server) : Server := {|
  sv_health := sv_health s; sv_security := sv_security s; sv_load_balancer := sv_load_balancer s; sv_stats := sv_stats s;
  sv_policy := p; sv_breakers := sv_breakers s; sv_in_flight := sv_in_flight s; sv_replays := sv_replays s; sv_mirrors := sv_mirrors s |}.
Definition policy_request (req : Request) : PolicyRequest := {|
  rq_method := in_method req; rq_uri := uri_to_string (in_uri req); rq_path := uri_path (in_uri req);
  rq_query := uri_query (in_uri req); rq_headers := in_headers req |}.
Definition rejection_response (cx : ProxyRequestContext) (rules : DomainRules) (origin : option rstr)
    (rejection : PolicyRejection) : Response :=
  let r := if pr_status rejection =? 204 then response_of (response_with_body 204 "text/plain; charset=utf-8" [])
           else response_of (page_for (cg_canonical_reason g) (cg_default_template g) (cg_error_pages g)
                  (pr_status rejection) (pr_message rejection) (px_domain cx) (px_path cx) (w_request_id w) (w_elapsed_ms w)) in
  let r := match pr_location rejection with Some l => on_headers (insert_text "location" l) r | None => r end in
  let r := match pr_retry_after rejection with
           | Some d => on_headers (insert_text "retry-after" (retry_after_text d)) r
           | None => r
           end in
  on_headers (fun h => apply_response_rules h rules origin) r.
Definition policy_stage (req : Request) (cx : ProxyRequestContext) (matched : RouteMatch) (origin : option rstr) : act unit :=
  fun s =>
    let rules := r_rules (m_route matched) in
    let '(p, rejected) := evaluate (policy_request req) rules cx (w_now_policy w) (sv_policy s) in
    let s := set_policy p s in
    match rejected with
    | Some rejection => refuse cx (pr_status rejection) (rejection_response cx rules origin rejection) s
    | None => (s, inr tt)
    end.

(** *** Bandwidth and authentication *)

Definition bandwidth_stage (cx : ProxyRequestContext) (rules : DomainRules) : act unit :=
  match dr_bandwidth_limit rules with
  | Some limit =>
    if bl_enabled limit then
      match w_bandwidth w with
      | Some answer =>
        if default true answer then ret tt
        else
          let limit_bytes := match bl_max_bytes_per_month limit with
                             | Some m => m
                             | None => default 0 (bl_max_bytes_per_day limit)
                             end in
          let status := default 429 (status_from_u16 (default 509 (bl_exceeded_status_code limit))) in
          refuse cx status (response_of (bandwidth_exceeded_response (cg_canonical_reason g) (cg_error_pages g) (w_now_secs w) {|
            bw_status := status; bw_domain := px_domain cx; bw_path := px_path cx; bw_request_id := w_request_id w;
            bw_processing_time_ms := w_elapsed_ms w; bw_bytes_used := default 0 (w_monthly_used w);
            bw_bytes_limit := limit_bytes; bw_reset_day := bl_reset_day_of_month limit |}))
      | None => ret tt
      end
    else ret tt
  | None => ret tt
  end.

(** Whether the route consumed the [Authorization] header. *)
Definition basic_stage (req : Request) (cx : ProxyRequestContext) (m : EffectiveMiddleware) : act bool :=
  match em_basic_auth m with
  | None => ret false
  | Some config =>
    match evaluate_basic_auth (in_headers req) config with
    | Some challenge =>
      refuse cx 401 (on_headers (insert_text "www-authenticate" challenge)
                       (error_response 401 "authentication required" (px_domain cx) (px_path cx)))
    | None => ret (ba_enabled config)
    end
  end.
Definition set_replays (m : gmap rstr Z) (s : Server) : Server := {|
  sv_health := sv_health s; sv_security := sv_security s; sv_load_balancer := sv_load_balancer s; sv_stats := sv_stats s;
  sv_policy := sv_policy s; sv_breakers := sv_breakers s; sv_in_flight := sv_in_flight s; sv_replays := m; sv_mirrors := sv_mirrors s |}.
Definition digest_stage (req : Request) (cx : ProxyRequestContext) (m : EffectiveMiddleware) : act bool :=
  match em_digest_auth m with
  | None => ret false
  | Some config => fun s =>
    let '(replays, challenged) :=
      evaluate_digest_auth (in_headers req) (in_method req) (uri_query (in_uri req)) (px_path cx) config
        (cg_digest_secret g) (w_now_digest_ms w) (w_now_digest w) (sv_replays s) in
    let s := set_replays replays s in
    match challenged with
    | Some challenge =>
      refuse cx 401 (on_headers (insert_text "www-authenticate" challenge)
                       (error_response 401 "digest authentication required" (px_domain cx) (px_path cx))) s
    | None => (s, inr (da_enabled config))
    end
  end.
(** The headers of the authentication request. *)
Definition forward_auth_headers (h : HeaderMap) (config : ForwardAuthConfig) : list (rstr * rstr) :=
  omap (fun header =>
    match name_from_bytes header with
    | None => None
    | Some name =>
      match get h name with
      | Some value => Some (name, value)
      | None => if eq_ignore_ascii_case name (lit "x-forwarded-host")
                then (fun value => (name, value)) <$> get h (lit "host") else None
      end
    end) (fa_request_headers config).
Definition is_success (status : Z) : bool := (200 <=? status) && (status <=? 299).
Definition run_forward_auth (req : Request) (config : ForwardAuthConfig) (source : RouteSource) : result PxxlError bool :=
  if negb (fa_enabled config) then Ok true
  else
    do? ensure_runtime_upstream_allowed (cg_env g) (w_lookup_host w 0) source (fa_url config) in
    match w_forward_auth w (forward_auth_headers (in_headers req) config) with
    | Some status => Ok (is_success status)
    | None => Err (InvalidUpstream (fa_url config))
    end.
Definition forward_auth_stage (req : Request) (cx : ProxyRequestContext) (m : EffectiveMiddleware) (source : RouteSource) : act unit :=
  match em_forward_auth m with
  | None => ret tt
  | Some config =>
    match run_forward_auth req config source with
    | Ok true => ret tt
    | Ok false => refuse cx 401 (error_response 401 "forward auth denied the request" (px_domain cx) (px_path cx))
    | Err _ => refuse cx 502 (error_response 502 "forward auth request failed" (px_domain cx) (px_path cx))
    end
  end.

(** *** The request that goes on *)

Definition rewrite_request (req : Request) (path : rstr) (rules : DomainRules) (m : EffectiveMiddleware)
    (consumed : bool) : Request :=
  let h := if consumed then remove (lit "authorization") (in_headers req) else in_headers req in
  let uri := match canonical_forward_uri uri_parse path (uri_query (in_uri req)) with
             | Ok uri => uri
             | Err _ => in_uri req
             end in
  let h := apply_request_rules h rules in
  let h := if ct_enabled (em_content_type_autodetect m)
           then apply_request_content_type_detection (uri_path uri) None h else h in
  {| in_method := in_method req; in_uri := uri; in_headers := h; in_body := in_body req |}.

(** *** The upstream *)

Definition set_selection (lb : LoadBalancer) (b : Circuit.Breakers) (s : Server) : Server := {|
  sv_health := sv_health s; sv_security := sv_security s; sv_load_balancer := lb; sv_stats := sv_stats s;
  sv_policy := sv_policy s; sv_breakers := b; sv_in_flight := sv_in_flight s; sv_replays := sv_replays s;
  sv_mirrors := sv_mirrors s |}.
Definition set_slots (m : gmap rstr Z) (s : Server) : Server := {|
  sv_health := sv_health s; sv_security := sv_security s; sv_load_balancer := sv_load_balancer s; sv_stats := sv_stats s;
  sv_policy := sv_policy s; sv_breakers := sv_breakers s; sv_in_flight := m; sv_replays := sv_replays s;
  sv_mirrors := sv_mirrors s |}.
Definition set_health (h : Passive.PassiveHealth) (s : Server) : Server := {|
  sv_health := h; sv_security := sv_security s; sv_load_balancer := sv_load_balancer s; sv_stats := sv_stats s;
  sv_policy := sv_policy s; sv_breakers := sv_breakers s; sv_in_flight := sv_in_flight s; sv_replays := sv_replays s;
  sv_mirrors := sv_mirrors s |}.
Definition set_mirrors (l : list MirrorTask) (s : Server) : Server := {|
  sv_health := sv_health s; sv_security := sv_security s; sv_load_balancer := sv_load_balancer s; sv_stats := sv_stats s;
  sv_policy := sv_policy s; sv_breakers := sv_breakers s; sv_in_flight := sv_in_flight s; sv_replays := sv_replays s;
  sv_mirrors := l |}.

Definition base_route_key (matched : RouteMatch) : rstr := r_id (m_route matched) ++ lit ":" ++ pr_prefix (m_path matched).
(** The key of the route in the load balancer and the pool. *)
Definition pool_stage (cx : ProxyRequestContext) (matched : RouteMatch) : act (rstr * list Upstream) :=
  fun s =>
    let '(lb, (suffix, upstreams)) := select_upstream_pool (base_route_key matched) matched (px_location cx) (sv_load_balancer s) in
    (set_selection lb (sv_breakers s) s, inr (base_route_key matched ++ suffix, upstreams)).
Definition upstream_stage (cx : ProxyRequestContext) (matched : RouteMatch) (m : EffectiveMiddleware) (h : HeaderMap)
    (pool : rstr * list Upstream) : act Upstream :=
  fun s =>
    let '(route_key, upstreams) := pool in
    let '(lb, b, chosen) := select_available_upstream route_key matched upstreams (px_remote_ip cx) h m
                              (w_now_select w) (sv_load_balancer s) (sv_breakers s) in
    let s := set_selection lb b s in
    match chosen with
    | Some upstream => (s, inr upstream)
    | None =>
      (do! observe_request cx 503 None 0 0 in fun s =>
         let '(b, reason) := route_unavailable_reason matched upstreams (w_now_select w) (sv_breakers s) in
         finish (diagnostic_response 503 reason (px_domain cx)) (set_selection (sv_load_balancer s) b s)) s
    end.
(** The slot of the in-flight limit, then [begin_request]. *)
Definition slot_stage (cx : ProxyRequestContext) (matched : RouteMatch) (m : EffectiveMiddleware) (route_key : rstr)
    (upstream : Upstream) : act (option rstr) :=
  fun s =>
    let '(slots, acquired) := InFlight.try_acquire_in_flight (em_in_flight_limit m) matched upstream (w_spurious w) (sv_in_flight s) in
    let s := set_slots slots s in
    match acquired with
    | Err _ => refuse cx 429 (error_response 429 "too many in-flight requests" (px_domain cx) (px_path cx)) s
    | Ok key => (set_selection (begin_request route_key (u_url upstream) (sv_load_balancer s)) (sv_breakers s) s, inr key)
    end.

(** The slot, the gauge of the load balancer, the health of the upstream and its
    circuit after the upstream answered or failed. *)
Definition settle (cx : ProxyRequestContext) (matched : RouteMatch) (m : EffectiveMiddleware) (route_key : rstr)
    (upstream : Upstream) (key : option rstr) (status : Z) (error : bool) : act unit :=
  fun s =>
    let s := set_slots (InFlight.release_in_flight key (sv_in_flight s)) s in
    let s := set_selection (end_request route_key (u_url upstream) (wrap64 (w_elapsed_us w)) (sv_load_balancer s)) (sv_breakers s) s in
    let s := set_health (Passive.record_passive_health (em_passive_health m) (px_domain cx) (pr_prefix (m_path matched))
                           (u_url upstream) status error (w_now_result w) (sv_health s)) s in
    let b := Circuit.record_circuit_result (em_circuit_breaker m) (breaker_key matched upstream) status error
               (w_now_result w) (sv_breakers s) in
    (set_selection (sv_load_balancer s) b s, inr tt).

(** *** Forwarding *)

Definition forward_context (cx : ProxyRequestContext) (matched : RouteMatch) (m : EffectiveMiddleware) (upstream : Upstream)
    (client_cert_pem : option rstr) : ForwardContext := {|
  fc_matched := matched; fc_upstream := upstream; fc_scheme := px_scheme cx; fc_remote_ip := px_remote_ip cx;
  fc_client_cert_pem := client_cert_pem; fc_middleware := m |}.
(** [forward_buffered] up to the call of the client. *)
Definition prepare_buffered (c : ForwardContext) (r : BufferedRequest) (attempt : nat) : result PxxlError Sent :=
  do? ensure_runtime_upstream_allowed (cg_env g) (w_lookup_host w attempt) (r_source (m_route (fc_matched c)))
        (u_url (fc_upstream c)) in
  let? uri := build_upstream_uri uri_parse uri_path_and_query (fc_upstream c) (br_uri r) in
  let? h := forward_buffered_headers c (br_headers r) (br_body r) in
  Ok {| se_method := br_method r; se_uri := uri; se_headers := h; se_body := Full (br_body r) |}.
Definition forward_buffered (c : ForwardContext) (r : BufferedRequest) (attempt : nat) : result PxxlError BufferedResponse :=
  let? sent := prepare_buffered c r attempt in
  match w_send w attempt sent with
  | inr chain => Err (classify_upstream_client_error chain (u_url (fc_upstream c)))
  | inl a =>
    match collect_body_with_limit (an_body a) (bc_max_response_bytes (em_response_buffering (fc_middleware c))) with
    | Ok body => Ok {| bf_status := an_status a; bf_headers := an_headers a; bf_body := body |}
    | Err _ => Err (InvalidUpstream (u_url (fc_upstream c)))
    end
  end.
Definition sent_in {A} (o : result A Sent) (attempt : nat) (upstream : Upstream) : list (nat * Upstream * Sent) :=
  match o with Ok sent => [(attempt, upstream, sent)] | Err _ => [] end.
(** The answer of the last attempt and the requests that left. *)
Definition forward_retrying (c : ForwardContext) (r : BufferedRequest)
  : result PxxlError BufferedResponse * list (nat * Upstream * Sent) :=
  let '(answer, attempts) := forward_with_retry bf_status (em_retry (fc_middleware c)) (u_url (fc_upstream c)) (forward_buffered c r) in
  (answer, flat_map (fun n => sent_in (prepare_buffered c r n) n (fc_upstream c)) (seq 1 attempts)).

(** [forward_streaming] up to the call of the client. *)
Definition prepare_streaming (c : ForwardContext) (req : Request) (max_request_bytes : Z) : result PxxlError Sent :=
  do? ensure_runtime_upstream_allowed (cg_env g) (w_lookup_host w 1) (r_source (m_route (fc_matched c)))
        (u_url (fc_upstream c)) in
  let? uri := build_upstream_uri uri_parse uri_path_and_query (fc_upstream c) (in_uri req) in
  let? h := forward_streaming_headers c (in_headers req) in
  Ok {| se_method := in_method req; se_uri := uri; se_headers := h; se_body := Limited (in_body req) max_request_bytes |}.
Definition switching_protocols (req : Request) (status : Z) : bool := is_websocket_upgrade (in_headers req) && (status =? 101).
Definition forward_streaming (c : ForwardContext) (req : Request) (max_request_bytes : Z) : result PxxlError Response :=
  let? sent := prepare_streaming c req max_request_bytes in
  match w_send w 1 sent with
  | inr chain => Err (classify_upstream_client_error chain (u_url (fc_upstream c)))
  | inl a =>
    if switching_protocols req (an_status a)
    then Ok {| re_status := an_status a; re_headers := an_headers a; re_body := Tunnel |}
    else Ok {| re_status := an_status a; re_headers := strip_hop_by_hop_response_headers (an_headers a);
               re_body := Limited (an_body a) (bc_max_response_bytes (em_response_buffering (fc_middleware c))) |}
  end.

(** What both branches do with an upstream that failed. *)
Definition failed_stage (cx : ProxyRequestContext) (matched : RouteMatch) (m : EffectiveMiddleware) (route_key : rstr)
    (upstream : Upstream) (key : option rstr) (error : PxxlError) (sent : list (nat * Upstream * Sent)) : act Empty_set :=
  do! settle cx matched m route_key upstream key 502 true in
  do! observe_request cx 502 (Some (u_url upstream)) 0 0 in
  finish_with sent (diagnostic_response 502 (upstream_failure_reason error) (px_domain cx)).

Definition streaming_response (cx : ProxyRequestContext) (req : Request) (matched : RouteMatch) (m : EffectiveMiddleware)
    (upstream : Upstream) (origin : option rstr) (r : Response) : Response :=
  let h := apply_response_rules (re_headers r) (r_rules (m_route matched)) origin in
  let h := apply_default_cache_headers (px_path cx) h in
  let h := apply_sticky_cookie h (em_sticky_sessions m) upstream in
  let h := if switching_protocols req (re_status r) then h else strip_hop_by_hop_response_headers h in
  {| re_status := re_status r; re_headers := h; re_body := re_body r |}.
(** The branch up to the call of the upstream, and what goes on from there with the
    traced request, the key of the route, the upstream and the slot. *)
Definition streaming_with {A : Type} (cx : ProxyRequestContext) (req : Request) (matched : RouteMatch) (m : EffectiveMiddleware)
    (await : Request -> rstr -> Upstream -> option rstr -> act A) : act A :=
  let req := {| in_method := in_method req; in_uri := in_uri req; in_body := in_body req;
    in_headers := ensure_trace_headers (w_trace_id w) (w_span_id w) (w_request_id w) (in_headers req) |} in
  let! pool := pool_stage cx matched in
  let! upstream := upstream_stage cx matched m (in_headers req) pool in
  let! key := slot_stage cx matched m (fst pool) upstream in
  await req (fst pool) upstream key.
Definition streaming_branch (cx : ProxyRequestContext) (req : Request) (matched : RouteMatch) (m : EffectiveMiddleware)
    (client_cert_pem origin : option rstr) : act Empty_set :=
  streaming_with cx req matched m (fun req route_key upstream key =>
  let c := forward_context cx matched m upstream client_cert_pem in
  let limit := request_body_limit (r_rules (m_route matched)) m in
  let sent := sent_in (prepare_streaming c req limit) 1 upstream in
  match forward_streaming c req limit with
  | Ok r =>
    do! settle cx matched m route_key upstream key (re_status r) false in
    let r := streaming_response cx req matched m upstream origin r in
    do! observe_request cx (re_status r) (Some (u_url upstream)) (default 0 (content_length (in_headers req)))
          (default 0 (content_length (re_headers r))) in
    finish_with sent r
  | Err error => failed_stage cx matched m route_key upstream key error sent
  end).

Definition buffer_stage (cx : ProxyRequestContext) (req : Request) (m : EffectiveMiddleware) (max_bytes : Z) : act BufferedRequest :=
  match collect_body_with_limit (in_body req) max_bytes with
  | Ok body =>
    let h := ensure_trace_headers (w_trace_id w) (w_span_id w) (w_request_id w) (in_headers req) in
    let h := if ct_enabled (em_content_type_autodetect m)
             then apply_request_content_type_detection (uri_path (in_uri req)) (Some body) h else h in
    ret {| br_method := in_method req; br_uri := in_uri req; br_headers := h; br_body := body |}
  | Err TooLarge => refuse cx 413 (error_response 413 "request body is too large" (px_domain cx) (px_path cx))
  | Err (BodyError _) => refuse cx 400 (error_response 400 "failed to read request body" (px_domain cx) (px_path cx))
  end.
(** One task for each healthy mirror that the sampling keeps. *)
Definition mirror_request (r : BufferedRequest) (matched : RouteMatch) (mirror : TrafficMirrorConfig) (domain : rstr) : act unit :=
  fun s =>
    if negb (tm_enabled mirror) || is_empty (tm_upstreams mirror) || (tm_percent mirror =? 0) then (s, inr tt)
    else
      let tasks := omap (fun u =>
        if u_healthy u && mirror_should_run domain (uri_to_string (br_uri r)) (u_url u) (tm_percent mirror)
        then Some {| mt_request := r; mt_matched := matched; mt_upstream := u; mt_domain := domain |} else None)
        (tm_upstreams mirror) in
      (set_mirrors (sv_mirrors s ++ tasks) s, inr tt).
(** What a mirror task sends: the middleware of the path and the client's address
    and certificate are not passed on. *)
Definition mirror_sends (t : MirrorTask) (lookup : nat) : result PxxlError Sent :=
  prepare_buffered {| fc_matched := mt_matched t; fc_upstream := mt_upstream t; fc_scheme := Http; fc_remote_ip := None;
    fc_client_cert_pem := None; fc_middleware := from_rules (r_rules (m_route (mt_matched t))) [] |} (mt_request t) lookup.

Definition buffered_answer (cx : ProxyRequestContext) (matched : RouteMatch) (m : EffectiveMiddleware) (upstream : Upstream)
    (origin accept_encoding : option rstr) (r : BufferedResponse) : BufferedResponse :=
  let h := apply_response_rules (bf_headers r) (r_rules (m_route matched)) origin in
  let h := apply_default_cache_headers (px_path cx) h in
  let r := apply_response_middleware (cg_gzip g) m (accepts_gzip accept_encoding)
             {| bf_status := bf_status r; bf_headers := h; bf_body := bf_body r |} in
  {| bf_status := bf_status r; bf_headers := apply_sticky_cookie (bf_headers r) (em_sticky_sessions m) upstream;
     bf_body := bf_body r |}.
Definition into_response (r : BufferedResponse) : Response := {|
  re_status := bf_status r; re_headers := strip_hop_by_hop_response_headers (bf_headers r); re_body := Full (bf_body r) |}.
Definition buffered_with {A : Type} (cx : ProxyRequestContext) (req : Request) (matched : RouteMatch) (m : EffectiveMiddleware)
    (await : BufferedRequest -> rstr -> Upstream -> option rstr -> act A) : act A :=
  let! r := buffer_stage cx req m (request_body_limit (r_rules (m_route matched)) m) in
  let! pool := pool_stage cx matched in
  do! mirror_request r matched (em_traffic_mirroring m) (px_domain cx) in
  let! upstream := upstream_stage cx matched m (br_headers r) pool in
  let! key := slot_stage cx matched m (fst pool) upstream in
  await r (fst pool) upstream key.
Definition buffered_branch (cx : ProxyRequestContext) (req : Request) (matched : RouteMatch) (m : EffectiveMiddleware)
    (client_cert_pem origin accept_encoding : option rstr) : act Empty_set :=
  buffered_with cx req matched m (fun r route_key upstream key =>
  let '(answer, sent) := forward_retrying (forward_context cx matched m upstream client_cert_pem) r in
  match answer with
  | Ok a =>
    do! settle cx matched m route_key upstream key (bf_status a) false in
    let a := buffered_answer cx matched m upstream origin accept_encoding a in
    do! observe_request cx (bf_status a) (Some (u_url upstream)) (str_len (br_body r)) (str_len (bf_body a)) in
    finish_with sent (into_response a)
  | Err error => failed_stage cx matched m route_key upstream key error sent
  end).

(** *** The handler *)

(** The stages up to the choice of a branch. *)
Definition forward_stage_with {A : Type} (cx : ProxyRequestContext) (req : Request) (matched : RouteMatch)
    (buffered streaming : Request -> EffectiveMiddleware -> option rstr -> option rstr -> act A) : act A :=
  let rules := r_rules (m_route matched) in
  let origin := get (in_headers req) (lit "origin") in
  let accept_encoding := get (in_headers req) (lit "accept-encoding") in
  do! policy_stage req cx matched origin in
  let m := from_rules rules (pr_middlewares (m_path matched)) in
  do! bandwidth_stage cx rules in
  let! basic := basic_stage req cx m in
  let! digest := digest_stage req cx m in
  do! forward_auth_stage req cx m (r_source (m_route matched)) in
  let req := rewrite_request req (px_path cx) rules m (basic || digest) in
  if requires_buffered_forwarding m (is_some (dr_max_body_bytes rules))
  then buffered req m origin accept_encoding else streaming req m origin accept_encoding.
Definition handle_stages_with {A : Type} (req : Request) (peer_ip : option IpAddr) (scheme : RequestScheme)
    (forward : ProxyRequestContext -> RouteMatch -> act A) : act A :=
  let remote_ip := resolve_effective_client_ip (in_headers req) peer_ip (cg_trusted_client_ip g) in
  let! path := accept_path req remote_ip scheme in
  let location := match remote_ip with Some ip => geo_lookup (cg_geoip g) ip | None => GeoLocation_unknown end in
  let! host := accept_host req path remote_ip scheme location in
  let cx := request_context (normalize_domain host) path remote_ip scheme location (in_method req) in
  do! acme_stage cx in
  do! security_stage cx in
  let! matched := route_stage cx host in
  do! www_stage cx matched (uri_query (in_uri req)) in
  forward cx matched.

(** The handler that runs to its end: every path of it ends in an answer, so its
    stages pass nothing on. *)
Definition forward_stage (cx : ProxyRequestContext) (req : Request) (matched : RouteMatch) (client_cert_pem : option rstr)
  : act Empty_set :=
  forward_stage_with cx req matched
    (fun req m origin accept_encoding => buffered_branch cx req matched m client_cert_pem origin accept_encoding)
    (fun req m origin _ => streaming_branch cx req matched m client_cert_pem origin).
Definition handle_stages (req : Request) (peer_ip : option IpAddr) (scheme : RequestScheme) (client_cert_pem : option rstr)
  : act Empty_set :=
  handle_stages_with req peer_ip scheme (fun cx matched => forward_stage cx req matched client_cert_pem).
Definition handle (req : Request) (peer_ip : option IpAddr) (scheme : RequestScheme) (client_cert_pem : option rstr)
    (s : Server) : Server * Outcome :=
  match handle_stages req peer_ip scheme client_cert_pem s with
  | (s, inl o) => (s, o)
  | (_, inr e) => match e with end
  end.
(** The handler up to the point where it waits for the upstream ([forward_streaming]
    and [forward_with_retry], both awaited): an answer before that, or the key of the
    slot it holds.  The future of a request whose client goes away is dropped while it
    waits, and this state is what it leaves. *)
Definition handle_waiting (req : Request) (peer_ip : option IpAddr) (scheme : RequestScheme) : act (option rstr) :=
  handle_stages_with req peer_ip scheme (fun cx matched =>
    forward_stage_with cx req matched
      (fun req m _ _ => buffered_with cx req matched m (fun _ _ _ key => ret key))
      (fun req m _ _ => streaming_with cx req matched m (fun _ _ _ key => ret key))).

(** *** What the stages promise *)

(** [spec m P Q]: an answer of [m] satisfies [P], a value passed on [Q], both of
    the state before and after. *)
Definition post {A} (P : Server -> Outcome -> Prop) (Q : Server -> A -> Prop) (r : Server * (Outcome + A)) : Prop :=
  match r with (s, inl o) => P s o | (s, inr a) => Q s a end.
Definition spec {A} (m : act A) (P : Server -> Server -> Outcome -> Prop) (Q : Server -> Server -> A -> Prop) : Prop :=
  forall s, post (P s) (Q s) (m s).

Lemma post_bind {A B} (m : act A) (k : A -> act B) s P Q R :
  post P Q (m s) -> (forall s1 a, Q s1 a -> post P R (k a s1)) -> post P R (bind m k s).
Proof. unfold bind, post. destruct (m s) as [s1 [o|a]]; [done|]. intros Hq Hk. by apply Hk. Qed.
Lemma post_spec {A} (m : act A) P Q s : spec m P Q -> post (P s) (Q s) (m s).
Proof. intros H. apply H. Qed.
Lemma spec_ret {A} (a : A) P (Q : Server -> Server -> A -> Prop) : (forall s, Q s s a) -> spec (ret a) P Q.
Proof. intros H s. apply H. Qed.

(** The response carries the identifier of the request, when it is a header value. *)
Definition identified (o : Outcome) : Prop :=
  forall v, value_from_str (w_request_id w) = Some v -> get_all (re_headers (oc_response o)) (lit "x-request-id") = [v].
(** The request was recorded once, with the status of its answer. *)
Definition observed (s s' : Server) (o : Outcome) : Prop :=
  exists ob, sv_stats s' = stats_record (w_spool_ok w) ob (sv_stats s) /\ ob_status ob = re_status (oc_response o) /\
    ob_request_id ob = w_request_id w.
Definition slots (s : Server) (k : rstr) : Z := default 0 (sv_in_flight s !! k).
Definition slots_same (s s' : Server) : Prop := forall k, slots s' k = slots s k.
Definition slots_nonneg (s : Server) : Prop := forall k, 0 <= slots s k.
Record answered (s s' : Server) (o : Outcome) : Prop := {
  aw_observed : observed s s' o;
  aw_identified : identified o;
  aw_slots : slots_nonneg s -> slots_same s s';
}.
(** An answer without the upstream, and without a mirrored copy. *)
Definition refused (s s' : Server) (o : Outcome) : Prop := answered s s' o /\ oc_sent o = [] /\ sv_mirrors s' = sv_mirrors s.
(** No observation and no slot yet. *)
Definition uncounted (s s' : Server) : Prop := sv_stats s' = sv_stats s /\ sv_in_flight s' = sv_in_flight s.
Definition kept (s s' : Server) : Prop := uncounted s s' /\ sv_mirrors s' = sv_mirrors s.

Lemma identified_finish `{!HeaderLaws HL} sent r :
  identified {| oc_response := on_headers (attach_request_id_header (w_request_id w)) r; oc_sent := sent |}.
Proof.
  intros v Hv. cbn [oc_response on_headers re_headers]. unfold attach_request_id_header. rewrite Hv.
  by rewrite get_all_insert, seqb_refl.
Qed.
Lemma observe_answered `{!HeaderLaws HL} {A} cx status up sent_b recv_b sent r l s0 s Q :
  px_request_id cx = w_request_id w -> re_status r = status ->
  sv_stats s = sv_stats s0 -> (slots_nonneg s0 -> slots_same s0 s) -> sv_mirrors s = l ->
  post (fun s' o => answered s0 s' o /\ oc_sent o = sent /\ sv_mirrors s' = l) Q
    ((do! observe_request cx status up sent_b recv_b in @finish_with A sent r) s).
Proof.
  intros Hid Hst Hs Hk Hl. unfold bind, observe_request, finish_with, post. split; [|by split]. split.
  - eexists. cbn [set_stats sv_stats]. rewrite Hs. by repeat split.
  - apply identified_finish.
  - exact Hk.
Qed.

Section accounted.
Context `{!HeaderLaws HL}.

Lemma error_response_status status message domain path : re_status (error_response status message domain path) = status.
Proof. unfold error_response, page_for. by destruct (negb _). Qed.
Lemma diagnostic_response_status status reason domain : re_status (diagnostic_response status reason domain) = status.
Proof. unfold diagnostic_response, diagnostic_error_response, response_with_reason_code. by destruct (negb _). Qed.
Lemma rejection_response_status cx rules origin rj : re_status (rejection_response cx rules origin rj) = pr_status rj.
Proof.
  unfold rejection_response, page_for. destruct (pr_status rj =? 204) eqn:E; [apply Z.eqb_eq in E; rewrite E|];
    destruct (pr_location rj), (pr_retry_after rj); try done; by destruct (negb _).
Qed.

Lemma refuse_refused {A} cx status r s0 s (Q : Server -> A -> Prop) :
  px_request_id cx = w_request_id w -> re_status r = status -> kept s0 s ->
  post (refused s0) Q (refuse cx status r s).
Proof.
  intros Hid Hst [[Hs Hk] Hm]. apply observe_answered; [done..| |done]. intros _ k. unfold slots. by rewrite Hk.
Qed.

(** A stage that answers without the upstream, or goes on without an observation
    or a slot. *)
Definition gate {A} (m : act A) : Prop := spec m refused (fun s s' _ => kept s s').

Lemma answered_kept s s1 s2 o : uncounted s s1 -> answered s1 s2 o -> answered s s2 o.
Proof.
  intros [Hs Hk] [(ob & He & Hob) Hi Hsl]. split; [|done|].
  - exists ob. by rewrite He, Hs.
  - unfold slots_nonneg, slots_same, slots in *. rewrite Hk in Hsl. exact Hsl.
Qed.

Lemma gate_ret {A} (a : A) : gate (ret a).
Proof. by apply spec_ret. Qed.
Lemma gate_refuse {A} cx status r :
  px_request_id cx = w_request_id w -> re_status r = status -> gate (@refuse A cx status r).
Proof. intros ? ? s. by apply refuse_refused. Qed.

(** The rest of the handler, as far as it goes: its answers have the right account from
    the state it starts in, and what it passes on satisfies [Q]. *)
Definition settles {A : Type} (Q : Server -> Server -> A -> Prop) (m : act A) : Prop := spec m answered Q.
(** What is not counted yet may come before. *)
Definition extends {A : Type} (Q : Server -> Server -> A -> Prop) : Prop :=
  forall s s1 s2 a, uncounted s s1 -> Q s1 s2 a -> Q s s2 a.
Lemma settles_after {A B} (Q : Server -> Server -> B -> Prop) (m : act A) k : extends Q ->
  spec m answered (fun s s' _ => uncounted s s') -> (forall a, settles Q (k a)) -> settles Q (bind m k).
Proof.
  intros HQ Hm Hk s. apply (post_bind _ _ _ _ (fun s' _ => uncounted s s')); [exact (Hm s)|].
  intros s1 a H1. specialize (Hk a s1). destruct (k a s1) as [s2 [o|b]]; [by apply (answered_kept _ s1)|by apply (HQ _ s1)].
Qed.
Lemma settles_bind {A B} (Q : Server -> Server -> B -> Prop) (m : act A) k : extends Q ->
  gate m -> (forall a, settles Q (k a)) -> settles Q (bind m k).
Proof.
  intros HQ Hm. apply settles_after; [done|]. intros s. specialize (Hm s). destruct (m s) as [s1 [o|a]]; apply Hm.
Qed.

(** One step of a stage: a refusal whose status is that of its page, or a value. *)
Ltac gate_step :=
  first
    [ apply gate_ret
    | apply gate_refuse; [done|];
      first [ apply error_response_status | apply diagnostic_response_status | apply rejection_response_status | done ]
    | apply refuse_refused; [done| |by repeat split];
      first [ apply error_response_status | apply diagnostic_response_status | apply rejection_response_status | done ]
    | by repeat split ].

Lemma accept_path_gate req ip sch : gate (accept_path req ip sch).
Proof. unfold accept_path. destruct (canonicalize_request_path _); gate_step. Qed.
Lemma accept_host_gate req path ip sch loc : gate (accept_host req path ip sch loc).
Proof. unfold accept_host. destruct (request_host req); gate_step. Qed.

Section gates.
Context (cx : ProxyRequestContext) (Hcx : px_request_id cx = w_request_id w).

Lemma acme_gate : gate (acme_stage cx).
Proof. unfold acme_stage. destruct (serve_acme_http01_challenge _ _ _); gate_step. Qed.
Lemma security_gate : gate (security_stage cx).
Proof.
  unfold security_stage. destruct (px_remote_ip cx); [|gate_step]. intros s.
  destruct (security_check _ _ _ _) as [se []]; gate_step.
Qed.
Lemma route_gate host : gate (route_stage cx host).
Proof. unfold route_stage. intros s. destruct (find _ _ _); gate_step. Qed.
Lemma www_gate matched query : gate (www_stage cx matched query).
Proof. unfold www_stage. destruct (redirects_www _ _); gate_step. Qed.
Lemma policy_gate req matched origin : gate (policy_stage req cx matched origin).
Proof. unfold policy_stage. intros s. destruct (evaluate _ _ _ _ _) as [p [r|]]; gate_step. Qed.
Lemma bandwidth_gate rules : gate (bandwidth_stage cx rules).
Proof.
  unfold bandwidth_stage. destruct (dr_bandwidth_limit rules) as [l|]; [|gate_step].
  destruct (bl_enabled l), (w_bandwidth w) as [a|]; try gate_step. destruct (default true a); gate_step.
Qed.
Lemma basic_gate req m : gate (basic_stage req cx m).
Proof.
  unfold basic_stage. destruct (em_basic_auth m) as [c|]; [|gate_step].
  destruct (evaluate_basic_auth _ _); gate_step.
Qed.
Lemma digest_gate req m : gate (digest_stage req cx m).
Proof.
  unfold digest_stage. destruct (em_digest_auth m) as [c|]; [|gate_step]. intros s.
  destruct (evaluate_digest_auth _ _ _ _ _ _ _ _ _) as [r [ch|]]; gate_step.
Qed.
Lemma forward_auth_gate req m source : gate (forward_auth_stage req cx m source).
Proof.
  unfold forward_auth_stage. destruct (em_forward_auth m) as [c|]; [|gate_step].
  destruct (run_forward_auth _ _ _) as [[]|]; gate_step.
Qed.
Lemma pool_gate matched : gate (pool_stage cx matched).
Proof. unfold pool_stage. intros s. destruct (select_upstream_pool _ _ _ _) as [lb [suffix ups]]. gate_step. Qed.
Lemma upstream_gate matched m h pool : gate (upstream_stage cx matched m h pool).
Proof.
  unfold upstream_stage. intros s. destruct pool as [rk ups].
  destruct (select_available_upstream _ _ _ _ _ _ _ _ _) as [[lb b] [u|]]; [gate_step|].
  unfold bind, observe_request. cbn [sv_breakers set_stats set_selection].
  destruct (route_unavailable_reason _ _ _ _) as [b' reason]. unfold finish, finish_with, post.
  split; [|by split]. split; [|apply identified_finish|done].
  eexists. split; [done|]. split; [|done]. cbn [oc_response on_headers re_status]. by rewrite diagnostic_response_status.
Qed.
Lemma buffer_gate req m max : gate (buffer_stage cx req m max).
Proof. unfold buffer_stage. destruct (collect_body_with_limit _ _) as [b|[|]]; gate_step. Qed.
Lemma mirror_uncounted r matched mirror domain :
  spec (mirror_request r matched mirror domain) answered (fun s s' _ => uncounted s s').
Proof. unfold mirror_request. intros s. by destruct (_ || _). Qed.
End gates.

(** *** The slot *)

Lemma acquire_release (limit : InFlightLimitConfig) (matched : RouteMatch) (u : Upstream) (spurious : list bool) (m : gmap rstr Z) (key : option rstr) (m' : gmap rstr Z) :
  (forall k, 0 <= default 0 (m !! k)) ->
  InFlight.try_acquire_in_flight limit matched u spurious m = (m', Ok key) ->
  forall k, default 0 (InFlight.release_in_flight key m' !! k) = default 0 (m !! k).
Proof.
  intros Hm. unfold InFlight.try_acquire_in_flight. destruct (negb _); [by intros [= <- <-]|].
  destruct (if_max limit) as [max|]; [|by intros [= <- <-]].
  destruct (InFlight.in_flight_key _ _ _) as [ik scope]. rewrite InFlight.acquire_loop_spec.
  destruct (max <=? _); [done|]. intros [= <- <-] k. cbn [InFlight.release_in_flight]. rewrite lookup_insert_eq.
  unfold InFlight.release_counter, saturating_sub. rewrite insert_insert_eq. specialize (Hm ik).
  destruct (decide (k = ik)) as [->|Hne]; [rewrite lookup_insert_eq; cbn; lia|by rewrite lookup_insert_ne].
Qed.
Lemma refused_slots (limit : InFlightLimitConfig) (matched : RouteMatch) (u : Upstream) (spurious : list bool) (m : gmap rstr Z) (scope : rstr) (m' : gmap rstr Z) :
  InFlight.try_acquire_in_flight limit matched u spurious m = (m', Err scope) ->
  forall k, default 0 (m' !! k) = default 0 (m !! k).
Proof.
  unfold InFlight.try_acquire_in_flight. destruct (negb _); [done|]. destruct (if_max limit) as [max|]; [|done].
  destruct (InFlight.in_flight_key _ _ _) as [ik sc]. rewrite InFlight.acquire_loop_spec.
  destruct (max <=? _); [|done]. intros [= <- <-] k.
  destruct (decide (k = ik)) as [->|Hne]; [by rewrite lookup_insert_eq|by rewrite lookup_insert_ne].
Qed.

Lemma acquired_slots (limit : InFlightLimitConfig) (matched : RouteMatch) (u : Upstream) (spurious : list bool) (m : gmap rstr Z) (key : option rstr) (m' : gmap rstr Z) :
  InFlight.try_acquire_in_flight limit matched u spurious m = (m', Ok key) ->
  forall k, default 0 (m' !! k) = default 0 (m !! k) + (if decide (key = Some k) then 1 else 0).
Proof.
  unfold InFlight.try_acquire_in_flight. destruct (negb _); [intros [= <- <-] k; case_decide; [done|lia]|].
  destruct (if_max limit) as [max|]; [|intros [= <- <-] k; case_decide; [done|lia]].
  destruct (InFlight.in_flight_key _ _ _) as [ik scope]. rewrite InFlight.acquire_loop_spec.
  destruct (max <=? _); [done|]. intros [= <- <-] k. case_decide as Hk; simplify_eq.
  - by rewrite lookup_insert_eq.
  - rewrite lookup_insert_ne by congruence. lia.
Qed.
(** A request with its slot: nothing is recorded yet, its counter is one up, and
    the release takes the counters back. *)
Record holding (key : option rstr) (s s' : Server) : Prop := {
  ho_stats : sv_stats s' = sv_stats s;
  ho_slots k : slots s' k = slots s k + (if decide (key = Some k) then 1 else 0);
  ho_release : slots_nonneg s -> forall k, default 0 (InFlight.release_in_flight key (sv_in_flight s') !! k) = slots s k;
}.
Lemma holding_extends {A} (f : A -> option rstr) : extends (fun s s' a => holding (f a) s s').
Proof.
  intros s s1 s2 a [Hs Hk] [H1 H2 H3]. split; [congruence|..]; unfold slots_nonneg, slots in *; rewrite <- Hk; auto.
Qed.
Lemma ended_extends : extends (fun (_ _ : Server) (_ : Empty_set) => False).
Proof. by intros ? ? ? []. Qed.

(** What follows a slot: [settle], an observation with the status of the answer,
    and the answer. *)
Lemma settle_answered {A} cx matched m rk u key status error up a b sent r s0 s1 :
  px_request_id cx = w_request_id w -> re_status r = status -> holding key s0 s1 ->
  post (fun s' o => answered s0 s' o /\ oc_sent o = sent /\ sv_mirrors s' = sv_mirrors s1) (fun _ _ => False)
    ((do! settle cx matched m rk u key status error in do! observe_request cx status up a b in @finish_with A sent r) s1).
Proof. intros Hcx Hst [Hs _ Hk]. by apply observe_answered. Qed.

(** The account of a request that gets its slot and goes on with it. *)
Lemma slot_settles {A} (Q : Server -> Server -> A -> Prop) cx matched m rk u k :
  px_request_id cx = w_request_id w ->
  (forall key s0 s1, holding key s0 s1 -> post (answered s0) (Q s0) (k key s1)) ->
  settles Q (bind (slot_stage cx matched m rk u) k).
Proof.
  intros Hcx Hk s. unfold bind, slot_stage.
  destruct (InFlight.try_acquire_in_flight _ _ _ _ _) as [m' [key|scope]] eqn:E.
  - apply Hk. split; [done|intros n; eapply acquired_slots, E|]. intros Hs n. eapply acquire_release; [exact Hs|exact E].
  - unfold refuse, finish, finish_with, bind, observe_request, post. split; [|apply identified_finish|].
    + eexists. split; [done|]. split; [|done]. cbn [oc_response on_headers re_status]. by rewrite error_response_status.
    + intros _ n. eapply refused_slots, E.
Qed.

Lemma post_mono {A} (P P' : Server -> Outcome -> Prop) (Q Q' : Server -> A -> Prop) r :
  post P Q r -> (forall s o, P s o -> P' s o) -> (forall s a, Q s a -> Q' s a) -> post P' Q' r.
Proof. destruct r as [s [o|a]]; cbn [post]; auto. Qed.

Section branches.
Context (cx : ProxyRequestContext) (Hcx : px_request_id cx = w_request_id w).

Lemma failed_answered matched m rk u key error sent s0 s1 : holding key s0 s1 ->
  post (answered s0) (fun _ _ => False) (failed_stage cx matched m rk u key error sent s1).
Proof.
  intros Hh. eapply post_mono; [apply settle_answered; [done|apply diagnostic_response_status|exact Hh]|by intros ? ? []|done].
Qed.
Lemma streaming_with_settles {A} (Q : Server -> Server -> A -> Prop) req matched m await : extends Q ->
  (forall req rk u key s0 s1, holding key s0 s1 -> post (answered s0) (Q s0) (await req rk u key s1)) ->
  settles Q (streaming_with cx req matched m await).
Proof.
  intros HQ Hk. unfold streaming_with. apply settles_bind; [done|by apply pool_gate|]. intros pool.
  apply settles_bind; [done|by apply upstream_gate|]. intros u. apply slot_settles; [done|]. intros key. apply Hk.
Qed.
Lemma streaming_settles req matched m cert origin : settles (fun _ _ _ => False) (streaming_branch cx req matched m cert origin).
Proof.
  apply streaming_with_settles; [apply ended_extends|]. intros req' rk u key s0 s1 Hh. cbv zeta.
  destruct (forward_streaming _ _ _) as [r|e]; [|by apply failed_answered].
  eapply post_mono; [by apply settle_answered|by intros ? ? []|done].
Qed.
Lemma apply_response_middleware_status m acc r : bf_status (apply_response_middleware (cg_gzip g) m acc r) = bf_status r.
Proof.
  unfold apply_response_middleware. assert (bf_status (autodetect m r) = bf_status r) as Ha.
  { unfold autodetect. destruct (_ && _); [|done]. by destruct (detect_content_type _ _). }
  destruct (_ || _); [done|]. by destruct (cg_gzip g _).
Qed.
Lemma buffered_with_settles {A} (Q : Server -> Server -> A -> Prop) req matched m await : extends Q ->
  (forall r rk u key s0 s1, holding key s0 s1 -> post (answered s0) (Q s0) (await r rk u key s1)) ->
  settles Q (buffered_with cx req matched m await).
Proof.
  intros HQ Hk. unfold buffered_with. apply settles_bind; [done|by apply buffer_gate|]. intros r.
  apply settles_bind; [done|by apply pool_gate|]. intros pool. apply settles_after; [done|apply mirror_uncounted|]. intros _.
  apply settles_bind; [done|by apply upstream_gate|]. intros u. apply slot_settles; [done|]. intros key. apply Hk.
Qed.
Lemma buffered_settles req matched m cert origin enc : settles (fun _ _ _ => False) (buffered_branch cx req matched m cert origin enc).
Proof.
  apply buffered_with_settles; [apply ended_extends|]. intros r rk u key s0 s1 Hh. cbv beta.
  destruct (forward_retrying _ _) as [[a|e] sent]; [|by apply failed_answered].
  assert (bf_status (buffered_answer cx matched m u origin enc a) = bf_status a) as Hst
    by (unfold buffered_answer; cbn [bf_status]; by rewrite apply_response_middleware_status).
  cbv zeta. rewrite Hst. eapply post_mono; [by apply settle_answered|by intros ? ? []|done].
Qed.
Lemma forward_with_settles {A} (Q : Server -> Server -> A -> Prop) req matched buffered streaming : extends Q ->
  (forall req m origin enc, settles Q (buffered req m origin enc)) -> (forall req m origin enc, settles Q (streaming req m origin enc)) ->
  settles Q (forward_stage_with cx req matched buffered streaming).
Proof.
  intros HQ Hb Hs. unfold forward_stage_with. apply settles_bind; [done|by apply policy_gate|]. intros _.
  apply settles_bind; [done|by apply bandwidth_gate|]. intros _. apply settles_bind; [done|by apply basic_gate|]. intros basic.
  apply settles_bind; [done|by apply digest_gate|]. intros digest. apply settles_bind; [done|by apply forward_auth_gate|]. intros _.
  destruct (requires_buffered_forwarding _ _); [apply Hb|apply Hs].
Qed.
End branches.

Lemma handle_with_settles {A} (Q : Server -> Server -> A -> Prop) req ip sch forward : extends Q ->
  (forall cx matched, px_request_id cx = w_request_id w -> settles Q (forward cx matched)) ->
  settles Q (handle_stages_with req ip sch forward).
Proof.
  intros HQ Hf. unfold handle_stages_with. apply settles_bind; [done|apply accept_path_gate|]. intros path.
  apply settles_bind; [done|apply accept_host_gate|]. intros host. apply settles_bind; [done|by apply acme_gate|]. intros _.
  apply settles_bind; [done|by apply security_gate|]. intros _. apply settles_bind; [done|by apply route_gate|]. intros matched.
  apply settles_bind; [done|by apply www_gate|]. intros _. by apply Hf.
Qed.
Lemma handle_answered req ip sch cert s s' o : handle req ip sch cert s = (s', o) -> answered s s' o.
Proof.
  unfold handle. assert (settles (fun _ _ _ => False) (handle_stages req ip sch cert)) as H.
  { apply handle_with_settles; [apply ended_extends|]. intros cx matched Hcx.
    apply forward_with_settles; [done|apply ended_extends|..]; intros; [by apply buffered_settles|by apply streaming_settles]. }
  specialize (H s). destruct (handle_stages _ _ _ _ s) as [s1 [o1|e]]; [by intros [= <- <-]|destruct e].
Qed.
Lemma waiting_holds req ip sch : settles (fun s s' key => holding key s s') (handle_waiting req ip sch).
Proof.
  pose proof (holding_extends (fun key : option rstr => key)) as HQ. apply handle_with_settles; [done|]. intros cx matched Hcx.
  apply forward_with_settles; [done..|intros; by apply buffered_with_settles|intros; by apply streaming_with_settles].
Qed.

(** C2: Every request is answered and accounted for: whatever path it takes through
    the handler (a refusal at any stage, an upstream that fails, an answer that is
    streamed or buffered), it is recorded in the statistics exactly once, with the
    status its client gets and its own identifier, and the answer carries that
    identifier in [x-request-id] when it is a header value. *)
Theorem handle_observed_once req ip sch cert s :
  let '(s', o) := handle req ip sch cert s in
  (exists ob, sv_stats s' = stats_record (w_spool_ok w) ob (sv_stats s) /\ ob_status ob = re_status (oc_response o) /\
     ob_request_id ob = w_request_id w) /\
  (forall v, value_from_str (w_request_id w) = Some v -> get_all (re_headers (oc_response o)) (lit "x-request-id") = [v]).
Proof.
  destruct (handle req ip sch cert s) as [s' o] eqn:E. apply handle_answered in E as [Ho Hi _]. by split.
Qed.

(** C4: The slots of the in-flight limits are balanced as long as handlers are not
    dropped, and exactly one is lost when a handler that holds one is. From any
    state whose counters are not negative: when the handler runs to its end, the
    counters of every key are those before it, whether the request was refused
    before, at or after the acquisition, and whether the upstream answered or failed.
    A handler that is dropped while it waits for the upstream (the client closes the
    connection) leaves the counter of its slot's key one above what it was, if the
    route has a limit, and every other counter as it was; a request that is answered
    before it waits leaves all of them. *)
Theorem handle_slots_balanced req ip sch cert s (k : rstr) :
  (forall n : rstr, 0 <= default 0 (sv_in_flight s !! n)) ->
  default 0 (sv_in_flight (fst (handle req ip sch cert s)) !! k) = default 0 (sv_in_flight s !! k) /\
  match handle_waiting req ip sch s with
  | (s', inr key) => default 0 (sv_in_flight s' !! k) = default 0 (sv_in_flight s !! k) + (if decide (key = Some k) then 1 else 0)
  | (s', inl _) => default 0 (sv_in_flight s' !! k) = default 0 (sv_in_flight s !! k)
  end.
Proof.
  intros Hn. split.
  - destruct (handle req ip sch cert s) as [s' o] eqn:E. apply handle_answered in E as [_ _ Hs]. by apply Hs.
  - pose proof (waiting_holds req ip sch s) as H. destruct (handle_waiting req ip sch s) as [s' [o|key]]; [by apply H|apply H].
Qed.

(** *** What a request passed before it left *)

(** The values of the handler, from the request and its host and path. *)
Definition client_ip (req : Request) (ip : option IpAddr) : option IpAddr :=
  resolve_effective_client_ip (in_headers req) ip (cg_trusted_client_ip g).
Definition client_location (req : Request) (ip : option IpAddr) : GeoLocation :=
  match client_ip req ip with Some ip => geo_lookup (cg_geoip g) ip | None => GeoLocation_unknown end.
Definition context_of (req : Request) (ip : option IpAddr) (sch : RequestScheme) (host path : rstr) : ProxyRequestContext :=
  request_context (normalize_domain host) path (client_ip req ip) sch (client_location req ip) (in_method req).
Definition middleware_of (matched : RouteMatch) : EffectiveMiddleware :=
  from_rules (r_rules (m_route matched)) (pr_middlewares (m_path matched)).

Record admitted (req : Request) (cx : ProxyRequestContext) (s : Server) (matched : RouteMatch) : Prop := {
  ad_challenge : serve_acme_http01_challenge (w_acme_root w) (w_read_file w) (px_path cx) = None;
  ad_security : forall ip, px_remote_ip cx = Some ip ->
    snd (security_check (px_domain cx) ip (w_security w) (sv_security s)) = Allowed;
  ad_www : redirects_www (px_domain cx) (m_route matched) = false;
  ad_permitted : permitted (policy_request req) (r_rules (m_route matched)) cx;
  ad_policy : snd (evaluate (policy_request req) (r_rules (m_route matched)) cx (w_now_policy w) (sv_policy s)) = None;
  ad_bandwidth : forall limit, dr_bandwidth_limit (r_rules (m_route matched)) = Some limit -> bl_enabled limit = true ->
    w_bandwidth w <> Some (Some false);
  ad_basic : forall c, em_basic_auth (middleware_of matched) = Some c -> ba_enabled c = true ->
    basic_authorized (in_headers req) c = true;
  ad_digest : forall c, em_digest_auth (middleware_of matched) = Some c ->
    snd (evaluate_digest_auth (in_headers req) (in_method req) (uri_query (in_uri req)) (px_path cx) c
      (cg_digest_secret g) (w_now_digest_ms w) (w_now_digest w) (sv_replays s)) = None;
  ad_forward_auth : forall c, em_forward_auth (middleware_of matched) = Some c ->
    run_forward_auth req c (r_source (m_route matched)) = Ok true;
}.

(** What leaves for upstreams: the requests of the attempts, and what the mirror tasks
    send that the handler starts. *)
Definition departures (s s' : Server) (o : Outcome) (F : nat -> Upstream -> Sent -> Prop) (T : MirrorTask -> nat -> Sent -> Prop) : Prop :=
  (forall n u sent, (n, u, sent) ∈ oc_sent o -> F n u sent) /\
  exists tasks, sv_mirrors s' = sv_mirrors s ++ tasks /\ forall t n sent, t ∈ tasks -> mirror_sends t n = Ok sent -> T t n sent.

Lemma no_departures s s' o F T : oc_sent o = [] -> sv_mirrors s' = sv_mirrors s -> departures s s' o F T.
Proof.
  intros Ho Hm. split; [rewrite Ho; by intros ? ? ? ?%elem_of_nil|]. exists []. rewrite app_nil_r. split; [done|]. by intros ? ? ? ?%elem_of_nil.
Qed.
Lemma departures_mono s s' o F T (F' : nat -> Upstream -> Sent -> Prop) (T' : MirrorTask -> nat -> Sent -> Prop) : departures s s' o F T ->
  (forall n u sent, F n u sent -> F' n u sent) -> (forall t n sent, T t n sent -> T' t n sent) -> departures s s' o F' T'.
Proof. intros (HF & tasks & Hm & HT) H1 H2. split; [eauto|]. exists tasks. eauto. Qed.
(** A stage that is no gate passed adds nothing. *)
Lemma gate_departs {A} (m : act A) k s s' o F T :
  gate m -> bind m k s = (s', inl o : Outcome + Empty_set) ->
  (forall s1 a, m s = (s1, inr a) -> k a s1 = (s', inl o) -> departures s1 s' o F T) -> departures s s' o F T.
Proof.
  intros Hg Hb Hk. specialize (Hg s). unfold bind in Hb. destruct (m s) as [s1 [o1|a]].
  - injection Hb as -> ->. destruct Hg as (_ & Ho & Hm). by apply no_departures.
  - destruct Hg as [_ Hm]. specialize (Hk s1 a eq_refl Hb). unfold departures. by rewrite <- Hm.
Qed.

Section passed.
Context (cx : ProxyRequestContext).

Lemma security_passed s s1 a : security_stage cx s = (s1, inr a) -> (exists se, s1 = set_security se s) /\
  forall ip, px_remote_ip cx = Some ip -> snd (security_check (px_domain cx) ip (w_security w) (sv_security s)) = Allowed.
Proof.
  unfold security_stage. destruct (px_remote_ip cx) as [ip|].
  - destruct (security_check _ _ _ _) as [se []] eqn:E; [|done..]. intros [= <- <-].
    split; [by exists se|]. intros ip' [= <-]. by rewrite E.
  - intros [= <- _]. split; [|done]. exists (sv_security s). by destruct s.
Qed.
Lemma policy_passed req matched origin s s1 a : policy_stage req cx matched origin s = (s1, inr a) ->
  (exists p, s1 = set_policy p s) /\
  snd (evaluate (policy_request req) (r_rules (m_route matched)) cx (w_now_policy w) (sv_policy s)) = None.
Proof.
  unfold policy_stage. destruct (evaluate _ _ _ _ _) as [p [r|]]; [done|]. intros [= <- _]. split; [by exists p|done].
Qed.
Lemma bandwidth_passed rules s s1 a : bandwidth_stage cx rules s = (s1, inr a) -> s1 = s /\
  forall limit, dr_bandwidth_limit rules = Some limit -> bl_enabled limit = true -> w_bandwidth w <> Some (Some false).
Proof.
  unfold bandwidth_stage. destruct (dr_bandwidth_limit rules) as [l|]; [|by intros [= <- _]].
  destruct (bl_enabled l) eqn:El; [|intros [= <- _]; split; [done|intros ? [= <-]; congruence]].
  destruct (w_bandwidth w) as [[[]|]|]; [intros [= <- _]|done|intros [= <- _]..]; by split.
Qed.
Lemma basic_passed req m s s1 a : basic_stage req cx m s = (s1, inr a) -> s1 = s /\
  forall c, em_basic_auth m = Some c -> ba_enabled c = true -> basic_authorized (in_headers req) c = true /\ a = true.
Proof.
  unfold basic_stage. destruct (em_basic_auth m) as [c|]; [|by intros [= <- _]]. unfold evaluate_basic_auth.
  destruct (ba_enabled c) eqn:E, (basic_authorized _ c) eqn:Ea; cbn [negb]; try done;
    intros [= <- <-]; (split; [done|]); intros ? [= <-] ?; first [by rewrite Ea | congruence].
Qed.
Lemma digest_passed req m s s1 a : digest_stage req cx m s = (s1, inr a) -> (exists r, s1 = set_replays r s) /\
  forall c, em_digest_auth m = Some c ->
    snd (evaluate_digest_auth (in_headers req) (in_method req) (uri_query (in_uri req)) (px_path cx) c
      (cg_digest_secret g) (w_now_digest_ms w) (w_now_digest w) (sv_replays s)) = None /\ a = da_enabled c.
Proof.
  unfold digest_stage. destruct (em_digest_auth m) as [c|].
  - destruct (evaluate_digest_auth _ _ _ _ _ _ _ _ _) as [r [ch|]] eqn:E; [done|]. intros [= <- <-].
    split; [by exists r|]. intros ? [= <-]. by rewrite E.
  - intros [= <- _]. split; [|done]. exists (sv_replays s). by destruct s.
Qed.
Lemma forward_auth_passed req m source s s1 a : forward_auth_stage req cx m source s = (s1, inr a) -> s1 = s /\
  forall c, em_forward_auth m = Some c -> run_forward_auth req c source = Ok true.
Proof.
  unfold forward_auth_stage. destruct (em_forward_auth m) as [c|]; [|by intros [= <- _]].
  destruct (run_forward_auth req c source) as [[]|] eqn:E; [|done..]. intros [= <- _]. split; [done|]. by intros ? [= <-].
Qed.
Lemma pool_passed matched s s1 a : pool_stage cx matched s = (s1, inr a) ->
  let pool := select_upstream_pool (base_route_key matched) matched (px_location cx) (sv_load_balancer s) in
  s1 = set_selection (fst pool) (sv_breakers s) s /\ snd a = snd (snd pool).
Proof.
  unfold pool_stage. destruct (select_upstream_pool _ _ _ _) as [lb [suffix ups]]. by intros [= <- <-].
Qed.
Lemma mirror_passed r matched mirror domain s s1 a :
  mirror_request r matched mirror domain s = (s1, inr a) ->
  exists tasks, s1 = set_mirrors (sv_mirrors s ++ tasks) s /\ forall t, t ∈ tasks ->
    tm_enabled mirror = true /\ (mt_upstream t ∈ tm_upstreams mirror) /\ u_healthy (mt_upstream t) = true /\ mt_request t = r /\ mt_matched t = matched.
Proof.
  unfold mirror_request. destruct (_ || _) eqn:E; intros [= <- _].
  - exists []. rewrite app_nil_r. split; [by destruct s|]. by intros ? ?%elem_of_nil.
  - eexists. split; [done|]. intros t (u & Hu & Ht)%list_elem_of_omap. bools. destruct (u_healthy u) eqn:Eh; [|done].
    destruct (mirror_should_run _ _ _ _); [|done]. injection Ht as <-. repeat split; try done; apply E.
Qed.
Lemma upstream_passed matched m h pool s s1 u : upstream_stage cx matched m h pool s = (s1, inr u) ->
  u ∈ snd pool /\ available matched (sv_breakers s) (w_now_select w) u.
Proof.
  unfold upstream_stage. destruct pool as [rk ups].
  pose proof (available_upstream_spec rk matched ups (px_remote_ip cx) h m (w_now_select w) (sv_load_balancer s) (sv_breakers s)) as H.
  destruct (select_available_upstream _ _ _ _ _ _ _ _ _) as [[lb b] [v|]]; cbn [snd] in *.
  - intros [= _ <-]. split; apply H.
  - unfold bind, observe_request. cbn. by destruct (route_unavailable_reason _ _ _ _).
Qed.
Lemma buffer_passed req m max s s1 r : buffer_stage cx req m max s = (s1, inr r) -> s1 = s /\ br_uri r = in_uri req /\
  let h := ensure_trace_headers (w_trace_id w) (w_span_id w) (w_request_id w) (in_headers req) in
  br_headers r = h \/ br_headers r = apply_request_content_type_detection (uri_path (in_uri req)) (Some (br_body r)) h.
Proof.
  unfold buffer_stage. destruct (collect_body_with_limit _ _) as [b|[|]]; [|done..]. intros [= <- <-].
  split; [done|]. split; [done|]. cbn. destruct (ct_enabled _); auto.
Qed.

(** After the stages above the only requests that leave are those [prepare_..] made. *)
Lemma failed_sent matched m rk u key e sent s s' o :
  failed_stage cx matched m rk u key e sent s = (s', inl o : Outcome + Empty_set) -> oc_sent o = sent /\ sv_mirrors s' = sv_mirrors s.
Proof. unfold failed_stage, settle, observe_request, finish_with, bind. by intros [= <- <-]. Qed.
Lemma slot_departs matched m rk u k s s' o F T :
  bind (slot_stage cx matched m rk u) k s = (s', inl o : Outcome + Empty_set) ->
  (forall s1 key, k key s1 = (s', inl o) -> departures s1 s' o F T) -> departures s s' o F T.
Proof.
  unfold bind, slot_stage. destruct (InFlight.try_acquire_in_flight _ _ _ _ _) as [m' [key|scope]].
  - intros H Hk. exact (Hk _ _ H).
  - unfold refuse, finish, finish_with, bind, observe_request. intros [= <- <-] _. by apply no_departures.
Qed.
(** The last step sends [sent] and mirrors nothing. *)
Lemma sent_departs s s' o l F T : oc_sent o = l /\ sv_mirrors s' = sv_mirrors s ->
  (forall n u sent, (n, u, sent) ∈ l -> F n u sent) -> departures s s' o F T.
Proof.
  intros [<- Hm] H. split; [done|]. exists []. rewrite app_nil_r. split; [done|]. by intros ? ? ? ?%elem_of_nil.
Qed.
Lemma sent_in_spec {E} (p : result E Sent) n u x : x ∈ sent_in p n u -> exists sent, p = Ok sent /\ x = (n, u, sent).
Proof. destruct p as [sent|]; cbn; [|by intros ?%elem_of_nil]. intros ->%list_elem_of_singleton. by exists sent. Qed.
End passed.

(** The upstream that gets a request: it is of the pool and available, the network
    check of this attempt let it pass, and the target is the client's path on it. *)
Record sent_to (cx : ProxyRequestContext) (s : Server) (matched : RouteMatch) (uri : Uri) (n : nat) (u : Upstream) (sent : Sent)
  : Prop := {
  st_pool : u ∈ snd (snd (select_upstream_pool (base_route_key matched) matched (px_location cx) (sv_load_balancer s)));
  st_available : available matched (sv_breakers s) (w_now_select w) u;
  st_network : ensure_runtime_upstream_allowed (cg_env g) (w_lookup_host w n) (r_source (m_route matched)) (u_url u) = Ok tt;
  st_uri : build_upstream_uri uri_parse uri_path_and_query u uri = Ok (se_uri sent);
}.

(** A mirrored copy: the route mirrors its traffic to this upstream, which is healthy,
    the network check of the task let it pass, and the target is the same. *)
Record mirrored_to (matched : RouteMatch) (uri : Uri) (t : MirrorTask) (n : nat) (sent : Sent) : Prop := {
  mi_enabled : tm_enabled (em_traffic_mirroring (middleware_of matched)) = true;
  mi_upstream : mt_upstream t ∈ tm_upstreams (em_traffic_mirroring (middleware_of matched));
  mi_healthy : u_healthy (mt_upstream t) = true;
  mi_network : ensure_runtime_upstream_allowed (cg_env g) (w_lookup_host w n) (r_source (m_route matched)) (u_url (mt_upstream t)) = Ok tt;
  mi_uri : build_upstream_uri uri_parse uri_path_and_query (mt_upstream t) uri = Ok (se_uri sent);
}.

(** *** Credentials for the edge *)

Definition without (n : rstr) (h : HeaderMap) : Prop := get_all h n = [].

Lemma without_insert n name v h : name <> n -> without n h -> without n (insert_header name v h).
Proof. intros Hne H. unfold without. by rewrite get_insert_ne. Qed.
Lemma without_remove n name h : without n h -> without n (remove name h).
Proof. unfold without. rewrite get_all_remove. by destruct (name =s? n). Qed.
Lemma without_remove_names n names : forall h, without n h -> without n (remove_names names h).
Proof. unfold remove_names. induction names as [|m names IH]; intros h H; [done|]. cbn. by apply IH, without_remove. Qed.
Lemma without_strip n h : without n h -> without n (strip_forwarded_request_headers h).
Proof.
  intros H. unfold strip_forwarded_request_headers. rewrite remove_tokens_names. by apply without_remove_names, without_remove_names.
Qed.
Lemma without_content_type n path body h :
  n <> lit "content-type" -> without n h -> without n (apply_request_content_type_detection path body h).
Proof.
  intros Hne H. unfold apply_request_content_type_detection. destruct (contains_key _ _); [done|].
  destruct (detect_content_type _ _); [|done]. by apply without_insert.
Qed.
Lemma without_set_headers n l : (forall k v, (k, v) ∈ l -> name_from_bytes k <> Some n) ->
  forall h, without n h -> without n (foldl set_header h l).
Proof.
  induction l as [|[k v] l IH]; intros Hl h H; [done|]. cbn [foldl]. apply IH; [intros k' v' ?; eapply Hl; by right|].
  assert (name_from_bytes k <> Some n) as Hk by (apply (Hl k v); by left).
  unfold set_header. cbn [fst snd]. destruct (name_from_bytes k) as [name|]; [|done].
  destruct (value_from_str v); [|done]. apply without_insert; congruence.
Qed.

Definition AUTHORIZATION : rstr := lit "authorization".
(** The header is not among those the handler sends when it was not there before;
    the name of the certificate header is up to the operator. *)
Definition withheld (c : ForwardContext) (h h' : HeaderMap) : Prop :=
  (fc_client_cert_pem c <> None -> cf_enabled (em_client_cert_forwarding (fc_middleware c)) = true ->
   name_from_bytes (cf_header_name (em_client_cert_forwarding (fc_middleware c))) <> Some AUTHORIZATION) ->
  without AUTHORIZATION h -> without AUTHORIZATION h'.

Lemma without_trace h :
  without AUTHORIZATION h -> without AUTHORIZATION (ensure_trace_headers (w_trace_id w) (w_span_id w) (w_request_id w) h).
Proof.
  intros H. unfold ensure_trace_headers, attach_request_id_header.
  destruct (contains_key _ _); [|destruct (value_from_str (_ ++ _))]; destruct (value_from_str (w_request_id w)); try done;
    repeat (apply without_insert; [by_decide|]); done.
Qed.
Lemma upstream_withheld c h h' : upstream_headers c h = Ok h' -> withheld c h h'.
Proof.
  intros E Hc H. unfold upstream_headers in E. destruct (set_host c h) as [h1|] eqn:E1; [|done].
  assert (without AUTHORIZATION h1) as H1.
  { unfold set_host in E1. destruct (dr_preserve_host_header _); [congruence|].
    destruct (authority _) as [a|]; [|done]. cbn in E1. destruct (value_from_str a); [|done]. injection E1 as <-.
    apply without_insert; [by_decide|done]. }
  cbn in E. destruct (set_forwarded c h1) as [h2|] eqn:E2; [|done].
  assert (without AUTHORIZATION h2) as H2.
  { unfold set_forwarded in E2. destruct (value_from_str (r_domain _)); [|done]. injection E2 as <-.
    destruct (fc_remote_ip c) as [ip|]; [destruct (value_from_str (ip_to_string ip))|];
      repeat (apply without_insert; [by_decide|]); done. }
  cbn in E. injection E as <-. unfold set_client_cert. destruct (cf_enabled _); [|done].
  destruct (fc_client_cert_pem c) as [cert|] eqn:Ep, (name_from_bytes _) as [name|]; try done.
  destruct (value_from_str cert); [|done]. apply without_insert; [|done]. intros ->. by apply Hc.
Qed.
Lemma buffered_withheld c h body h' : forward_buffered_headers c h body = Ok h' -> withheld c h h'.
Proof.
  intros E Hc H. eapply upstream_withheld; [exact E|exact Hc|]. unfold buffered_headers.
  destruct (value_from_str _); [apply without_insert; [by_decide|]|]; by apply without_strip.
Qed.
Lemma streaming_withheld c h h' : forward_streaming_headers c h = Ok h' -> withheld c h h'.
Proof.
  intros E Hc H. eapply upstream_withheld; [exact E|exact Hc|]. unfold streaming_headers, preserve_websocket_upgrade_headers.
  destruct (is_websocket_upgrade h); repeat (apply without_insert; [by_decide|]); by apply without_strip.
Qed.

Lemma prepare_buffered_spec c r n sent : prepare_buffered c r n = Ok sent ->
  ensure_runtime_upstream_allowed (cg_env g) (w_lookup_host w n) (r_source (m_route (fc_matched c))) (u_url (fc_upstream c)) = Ok tt /\
  build_upstream_uri uri_parse uri_path_and_query (fc_upstream c) (br_uri r) = Ok (se_uri sent) /\
  forward_buffered_headers c (br_headers r) (br_body r) = Ok (se_headers sent).
Proof.
  unfold prepare_buffered. destruct (ensure_runtime_upstream_allowed _ _ _ _) as [[]|]; [|done].
  destruct (build_upstream_uri _ _ _ _) as [uri|]; [|done]. destruct (forward_buffered_headers _ _ _) as [h|]; [|done].
  cbn. by intros [= <-].
Qed.
Lemma prepare_streaming_spec c req max sent : prepare_streaming c req max = Ok sent ->
  ensure_runtime_upstream_allowed (cg_env g) (w_lookup_host w 1) (r_source (m_route (fc_matched c))) (u_url (fc_upstream c)) = Ok tt /\
  build_upstream_uri uri_parse uri_path_and_query (fc_upstream c) (in_uri req) = Ok (se_uri sent) /\
  forward_streaming_headers c (in_headers req) = Ok (se_headers sent).
Proof.
  unfold prepare_streaming. destruct (ensure_runtime_upstream_allowed _ _ _ _) as [[]|]; [|done].
  destruct (build_upstream_uri _ _ _ _) as [uri|]; [|done]. destruct (forward_streaming_headers _ _) as [h|]; [|done].
  cbn. by intros [= <-].
Qed.

Lemma streaming_departs cx req matched m cert origin s s' o :
  px_request_id cx = w_request_id w -> streaming_branch cx req matched m cert origin s = (s', inl o) ->
  departures s s' o (fun n u sent => sent_to cx s matched (in_uri req) n u sent /\
    withheld (forward_context cx matched m u cert) (in_headers req) (se_headers sent)) (fun _ _ _ => False).
Proof.
  intros Hcx H. eapply gate_departs in H; [exact H|by apply pool_gate|]. clear H. intros s1 pool [-> Hp]%pool_passed H.
  eapply gate_departs in H; [exact H|by apply upstream_gate|]. clear H. intros s2 v [Hin Hav]%upstream_passed H.
  eapply slot_departs in H; [exact H|]. clear H. intros s3 key H. cbv zeta in H. eapply sent_departs.
  - destruct (forward_streaming _ _ _) as [r|e]; [|by eapply failed_sent].
    unfold bind, settle, observe_request, finish_with in H. injection H as <- <-. done.
  - intros n u sent (sent' & Hs & [= -> -> ->])%sent_in_spec. apply prepare_streaming_spec in Hs as (Hn & Huri & Hh).
    rewrite Hp in Hin. split; [by split|]. apply streaming_withheld in Hh. intros Hc Hw. by apply Hh, without_trace.
Qed.

(** The body of the buffered branch after the mirroring. *)
Lemma retried_sent c r n u sent : (n, u, sent) ∈ snd (forward_retrying c r) ->
  u = fc_upstream c /\ prepare_buffered c r n = Ok sent.
Proof.
  unfold forward_retrying. destruct (forward_with_retry _ _ _ _) as [a attempts]. cbn [snd]. intros Hs.
  apply list_elem_of_In, in_flat_map in Hs as (k & _ & Hs%list_elem_of_In). by apply sent_in_spec in Hs as (sent' & Hs & [= -> -> ->]).
Qed.
Lemma mirror_sends_spec t n sent : mirror_sends t n = Ok sent ->
  ensure_runtime_upstream_allowed (cg_env g) (w_lookup_host w n) (r_source (m_route (mt_matched t))) (u_url (mt_upstream t)) = Ok tt /\
  build_upstream_uri uri_parse uri_path_and_query (mt_upstream t) (br_uri (mt_request t)) = Ok (se_uri sent) /\
  (without AUTHORIZATION (br_headers (mt_request t)) -> without AUTHORIZATION (se_headers sent)).
Proof.
  intros (Hn & Hu & Hh)%prepare_buffered_spec. do 2 (split; [done|]). apply buffered_withheld in Hh. intros Hw. by apply Hh.
Qed.
Lemma mirror_departs r matched mirror domain k s s' o F T :
  bind (mirror_request r matched mirror domain) k s = (s', inl o : Outcome + Empty_set) ->
  (forall s1, (exists l, s1 = set_mirrors l s) -> k tt s1 = (s', inl o) -> departures s1 s' o F T) ->
  (forall t n sent, tm_enabled mirror = true -> mt_upstream t ∈ tm_upstreams mirror -> u_healthy (mt_upstream t) = true ->
    mt_request t = r -> mt_matched t = matched -> mirror_sends t n = Ok sent -> T t n sent) -> departures s s' o F T.
Proof.
  intros H Hk HT. unfold bind in H. destruct (mirror_request r matched mirror domain s) as [s1 [o1|[]]] eqn:E.
  - unfold mirror_request in E. by destruct (_ || _).
  - apply mirror_passed in E as (tasks & -> & Ht). destruct (Hk _ ltac:(by eexists) H) as (HF & l & Hl & HT').
    split; [done|]. exists (tasks ++ l). rewrite app_assoc. split; [exact Hl|].
    intros t n sent [Hin|Hin]%elem_of_app Hs; [|by eapply HT']. destruct (Ht t Hin) as (? & ? & ? & ? & ?). by apply HT.
Qed.

Lemma buffered_departs cx req matched cert origin enc s s' o :
  px_request_id cx = w_request_id w -> buffered_branch cx req matched (middleware_of matched) cert origin enc s = (s', inl o) ->
  departures s s' o (fun n u sent => sent_to cx s matched (in_uri req) n u sent /\
    withheld (forward_context cx matched (middleware_of matched) u cert) (in_headers req) (se_headers sent))
    (fun t n sent => mirrored_to matched (in_uri req) t n sent /\
      (without AUTHORIZATION (in_headers req) -> without AUTHORIZATION (se_headers sent))).
Proof.
  intros Hcx H. eapply gate_departs in H; [exact H|by apply buffer_gate|]. clear H. intros s1 r (-> & Hr & Hbh)%buffer_passed H.
  assert (without AUTHORIZATION (in_headers req) -> without AUTHORIZATION (br_headers r)) as Hw.
  { intros Hw. destruct Hbh as [->| ->]; [|apply without_content_type; [by_decide|]]; by apply without_trace. }
  eapply gate_departs in H; [exact H|by apply pool_gate|]. clear H. intros s1 pool [-> Hp]%pool_passed H.
  eapply mirror_departs in H; [exact H|..]; clear H.
  - intros s1 [l ->] H. eapply gate_departs in H; [exact H|by apply upstream_gate|]. clear H. intros s2 v [Hin Hav]%upstream_passed H.
    eapply slot_departs in H; [exact H|]. clear H. intros s3 key H. cbv beta in H.
    apply (sent_departs _ _ _ (snd (forward_retrying (forward_context cx matched (middleware_of matched) v cert) r))).
    + destruct (forward_retrying _ _) as [[a|e] l']; [|by eapply failed_sent].
      unfold bind, settle, observe_request, finish_with in H. injection H as <- <-. done.
    + intros n u sent [-> (Hn & Huri & Hh)%prepare_buffered_spec]%retried_sent.
      rewrite Hp in Hin. rewrite Hr in Huri. split; [by split|]. apply buffered_withheld in Hh. intros Hc Hh'. by apply Hh, Hw.
  - intros t n sent Hen Hu Hhe Ht Hm (Hn & Huri & Hh)%mirror_sends_spec. rewrite Ht, Hm in *. rewrite Hr in Huri.
    split; [by split|]. intros Hh'. by apply Hh, Hw.
Qed.

(** What a request passed by the time it is forwarded or mirrored. *)
Record forwarding (cx : ProxyRequestContext) (req : Request) (matched : RouteMatch) (s : Server) (basic digest : bool) : Prop := {
  fw_policy : snd (evaluate (policy_request req) (r_rules (m_route matched)) cx (w_now_policy w) (sv_policy s)) = None;
  fw_bandwidth limit : dr_bandwidth_limit (r_rules (m_route matched)) = Some limit -> bl_enabled limit = true ->
    w_bandwidth w <> Some (Some false);
  fw_basic c : em_basic_auth (middleware_of matched) = Some c -> ba_enabled c = true ->
    basic_authorized (in_headers req) c = true /\ basic = true;
  fw_digest c : em_digest_auth (middleware_of matched) = Some c ->
    snd (evaluate_digest_auth (in_headers req) (in_method req) (uri_query (in_uri req)) (px_path cx) c
      (cg_digest_secret g) (w_now_digest_ms w) (w_now_digest w) (sv_replays s)) = None /\ digest = da_enabled c;
  fw_forward_auth c : em_forward_auth (middleware_of matched) = Some c -> run_forward_auth req c (r_source (m_route matched)) = Ok true;
}.
Lemma forward_departs cx req matched cert s s' o F T :
  px_request_id cx = w_request_id w -> forward_stage cx req matched cert s = (s', inl o) ->
  (forall s1 p r basic digest, s1 = set_replays r (set_policy p s) -> forwarding cx req matched s basic digest ->
    let req' := rewrite_request req (px_path cx) (r_rules (m_route matched)) (middleware_of matched) (basic || digest) in
    (exists origin enc, buffered_branch cx req' matched (middleware_of matched) cert origin enc s1 = (s', inl o)) \/
    (exists origin, streaming_branch cx req' matched (middleware_of matched) cert origin s1 = (s', inl o)) ->
    departures s1 s' o F T) -> departures s s' o F T.
Proof.
  intros Hcx H HF. unfold forward_stage, forward_stage_with in H. fold (middleware_of matched) in H.
  eapply gate_departs in H; [exact H|by apply policy_gate|]. clear H. intros s1 [] [[p ->] Hp]%policy_passed H.
  eapply gate_departs in H; [exact H|by apply bandwidth_gate|]. clear H. intros s1 [] [-> Hb]%bandwidth_passed H.
  eapply gate_departs in H; [exact H|by apply basic_gate|]. clear H. intros s1 basic [-> Hba]%basic_passed H.
  eapply gate_departs in H; [exact H|by apply digest_gate|]. clear H. intros s1 digest [[r ->] Hd]%digest_passed H.
  eapply gate_departs in H; [exact H|by apply forward_auth_gate|]. clear H. intros s1 [] [-> Hf]%forward_auth_passed H.
  apply (HF _ p r basic digest); [done|by split|]. cbv zeta in *.
  destruct (requires_buffered_forwarding _ _); [left|right]; by repeat eexists.
Qed.

(** The request as it goes on: the canonical path with the client's query. *)
Definition forward_uri (req : Request) (path : rstr) : Uri :=
  match canonical_forward_uri uri_parse path (uri_query (in_uri req)) with Ok uri => uri | Err _ => in_uri req end.

Lemma handle_departs req ip sch cert s s' o F T :
  handle req ip sch cert s = (s', o) ->
  (forall path host matched se, canonicalize_request_path (uri_path (in_uri req)) = Ok path -> request_host req = Some host ->
    find (sv_routes s) host path = Some matched ->
    let cx := context_of req ip sch host path in
    serve_acme_http01_challenge (w_acme_root w) (w_read_file w) (px_path cx) = None ->
    (forall ip, px_remote_ip cx = Some ip -> snd (security_check (px_domain cx) ip (w_security w) (sv_security s)) = Allowed) ->
    redirects_www (px_domain cx) (m_route matched) = false ->
    forward_stage cx req matched cert (set_security se s) = (s', inl o) -> departures (set_security se s) s' o F T) ->
  departures s s' o F T.
Proof.
  unfold handle. destruct (handle_stages _ _ _ _ s) as [s1 [o1|e]] eqn:H; [|destruct e]. intros [= <- <-] HF.
  unfold handle_stages, handle_stages_with in H.
  eapply gate_departs in H; [exact H|by apply accept_path_gate|]. clear H. intros s2 path Hs H.
  unfold accept_path in Hs. destruct (canonicalize_request_path _) as [path'|] eqn:Ep; [|done]. injection Hs as <- <-.
  eapply gate_departs in H; [exact H|by apply accept_host_gate|]. clear H. intros s2 host Hs H.
  unfold accept_host in Hs. destruct (request_host req) as [host'|] eqn:Eh; [|done]. injection Hs as <- <-.
  eapply gate_departs in H; [exact H|by apply acme_gate|]. clear H. intros s2 [] Hs H. unfold acme_stage in Hs.
  destruct (serve_acme_http01_challenge _ _ _) eqn:Ea; [done|]. injection Hs as <-.
  eapply gate_departs in H; [exact H|by apply security_gate|]. clear H. intros s2 [] [[se ->] Hsec]%security_passed H.
  eapply gate_departs in H; [exact H|by apply route_gate|]. clear H. intros s2 matched Hs H. unfold route_stage in Hs.
  destruct (find _ _ _) as [matched'|] eqn:Ef; [|done]. injection Hs as <- <-.
  eapply gate_departs in H; [exact H|by apply www_gate|]. clear H. intros s2 [] Hs H. unfold www_stage in Hs.
  destruct (redirects_www _ _) eqn:Ew; [done|]. injection Hs as <-.
  by apply (HF path' host' matched' se).
Qed.


Lemma rewrite_withholds req path rules m :
  (forall k v, dr_add_request_headers rules !! k = Some v -> name_from_bytes k <> Some AUTHORIZATION) ->
  without AUTHORIZATION (in_headers (rewrite_request req path rules m true)).
Proof.
  intros Hk. unfold rewrite_request. cbn [in_headers].
  assert (without AUTHORIZATION (apply_request_rules (remove (lit "authorization") (in_headers req)) rules)) as H.
  { unfold apply_request_rules. apply without_set_headers.
    - intros k v Hkv. apply (Hk k v). by apply elem_of_map_to_list.
    - rewrite remove_tokens_names. apply without_remove_names. unfold without. by rewrite get_all_remove. }
  destruct (ct_enabled _); [|done]. apply without_content_type; [by_decide|done].
Qed.

Lemma forward_auth_named h c n v : (n, v) ∈ forward_auth_headers h c ->
  exists header, header ∈ fa_request_headers c /\ name_from_bytes header = Some n.
Proof.
  unfold forward_auth_headers. intros (header & Hin & Hh)%list_elem_of_omap. exists header. split; [done|].
  destruct (name_from_bytes header) as [name|]; [|done]. destruct (get h name); [congruence|].
  destruct (eq_ignore_ascii_case _ _); [|done]. destruct (get h _); simplify_eq/=. done.
Qed.

End accounted.

(** *** Failures behind an alias *)

Lemma route_health_other (u : RouteUpstreamHealth) (t : RouteTable) :
  table_wf t -> (forall r, r ∈ snapshot t -> r_domain r <> normalize_domain (uh_domain u)) ->
  snapshot (set_route_upstream_health u t) = snapshot t.
Proof.
  intros Hwf Hr. unfold set_route_upstream_health. destruct (negb _); [done|]. simpl.
  assert (apply_route_health u (snapshot t) = snapshot t) as E.
  { change (apply_route_health u (snapshot t)) with (map (route_health_fun u) (snapshot t)).
    induction (snapshot t) as [|r l IH]; [done|]. cbn [map]. rewrite IH by (intros r' ?; apply Hr; by right). f_equal.
    unfold route_health_fun. rewrite (proj2 (seqb_false _ _)); [done|]. apply Hr. by left. }
  rewrite E. apply dedupe_id, Hwf.
Qed.

(** Failures are counted under the name in the request, but the route table knows
    routes by their own domain: where no route has the name of the request (the
    [www] alias of a route, for one), no number of failures takes the upstream out
    of the rotation. *)
Theorem alias_failures_ignored cx matched m rk u key status error s :
  table_wf (sv_routes s) ->
  (forall r, r ∈ snapshot (sv_routes s) -> r_domain r <> normalize_domain (px_domain cx)) ->
  snapshot (sv_routes (fst (settle cx matched m rk u key status error s))) = snapshot (sv_routes s).
Proof.
  intros Hwf Hr. unfold settle, sv_routes. cbn [fst sv_health set_selection set_health].
  unfold Passive.record_passive_health. destruct (negb _); [done|]. destruct (Passive.passive_failed _ _ _); [|done].
  destruct (_ <=? _); [|done]. cbn [Passive.ps_state]. by apply route_health_other.
Qed.
End handle.
End pipeline.

(** ** An example: a route with basic authentication, a limit of one request in
    flight and passive health checks, reached under its name and under [www]. *)
Module Demo.

Definition auth_middleware : MiddlewareDefinition :=
  {| md_chain := []; md_digest_auth := None; md_forward_auth := None; md_request_buffering := None;
     md_response_buffering := None; md_compression := None; md_content_type_autodetect := None; md_retry := None;
     md_circuit_breaker := None; md_in_flight_limit := None; md_pass_tls_client_cert := None;
     md_basic_auth := Some {| ba_enabled := true; ba_realm := lit "edge"; ba_users := {[lit "u" := lit "p"]} |} |}.
Definition demo_rules (mirror : TrafficMirrorConfig) : @DomainRules CidrLib := {|
  dr_www_alias := true; dr_redirect_www_to_apex := false; dr_allow_websocket := true; dr_require_https := false;
  dr_redirect_http_to_https := false; dr_allowed_methods := []; dr_blocked_methods := [];
  dr_allowed_headers := []; dr_blocked_headers := []; dr_required_headers := []; dr_strip_request_headers := [];
  dr_add_request_headers := ∅; dr_response_headers := ∅; dr_ip_allowlist := []; dr_ip_blocklist := [];
  dr_country_allowlist := []; dr_country_blocklist := []; dr_continent_allowlist := [];
  dr_continent_blocklist := []; dr_location_routes := []; dr_traffic_splits := [];
  dr_waf := DomainWafRules_default; dr_rate_limit := None; dr_max_body_bytes := None; dr_max_uri_length := None;
  dr_allowed_content_types := []; dr_maintenance_mode := false; dr_maintenance_status_code := None;
  dr_preserve_host_header := false; dr_add_security_headers := false; dr_cors_allowed_origins := [];
  dr_cors_allow_credentials := false; dr_cors_allowed_methods := []; dr_cors_allowed_headers := [];
  dr_cors_preflight_enabled := true; dr_middlewares := {[lit "auth" := auth_middleware]};
  dr_middleware_chains := ∅; dr_request_buffering := BufferingConfig_default;
  dr_response_buffering := BufferingConfig_default; dr_compression := CompressionConfig_default;
  dr_content_type_autodetect := ContentTypeAutoDetectConfig_default; dr_retry := RetryConfig_default;
  dr_circuit_breaker := CircuitBreakerConfig_default;
  dr_in_flight_limit := {| if_enabled := true; if_max := Some 1; if_scope := ScopeRoute |};
  dr_sticky_sessions := StickySessionConfig_default;
  dr_passive_health := {| ph_enabled := true; ph_failure_threshold := 1; ph_recovery_seconds := 30; ph_failure_statuses := [] |};
  dr_traffic_mirroring := mirror;
  dr_client_cert_forwarding := ClientCertForwardingConfig_default; dr_services := ∅;
  dr_upstream_transport := UpstreamTransport_default; dr_tls_options := RouterTlsOptions_default;
  dr_acme := AcmeConfig_default; dr_tcp := TcpRoutingConfig_default; dr_udp := UdpRoutingConfig_default;
  dr_http3 := Http3Config_default; dr_bandwidth_limit := None; dr_proxy_mode := Direct |}.
Definition demo_upstream : Upstream := Upstream_new (lit "http://93.184.216.34:80").
Definition mirror_upstream : Upstream := Upstream_new (lit "http://93.184.216.35:80").
Definition mirrors_all : TrafficMirrorConfig := {| tm_enabled := true; tm_percent := 100; tm_upstreams := [mirror_upstream] |}.
Definition demo_route (mirror : TrafficMirrorConfig) : @Route CidrLib :=
  r_with_rules (demo_rules mirror) (@Route_new CidrLib (lit "id") 0 (lit "example.com")
    [{| pr_prefix := lit "/"; pr_upstreams := [demo_upstream]; pr_middlewares := [lit "auth"] |}] Api).

(** A [Uri] is its path and query. *)
Definition uri_parts (u : rstr) : option (rstr * rstr) := split_once (chr "?") u.
Definition demo_path (u : rstr) : rstr := match uri_parts u with Some (p, _) => p | None => u end.
Definition demo_query (u : rstr) : option rstr := snd <$> uri_parts u.

Definition demo_config : @Config CidrLib PathMmdb := {|
  cg_error_pages := ErrorPageRenderer_disabled;
  cg_geoip := GeoIpResolver_disabled; cg_trusted_client_ip := []; cg_digest_secret := []; cg_env := fun _ => None;
  cg_canonical_reason := fun _ => None; cg_default_template := []; cg_gzip := fun _ => None |}.
Definition demo_engine : @SecurityEngine CidrLib PlainCodec := {|
  se_blacklist := Blacklist.new;
  se_rate_limiter := Limiter.RateLimiter_new {| Limiter.rc_requests_per_second := 5; Limiter.rc_burst := 5 |} 0;
  se_adaptive_blocker := @AdaptiveBlocker_new CidrLib PlainCodec strict_config None None (rd_at 0) |}.
Definition demo_server (mirror : TrafficMirrorConfig) : @Server CidrLib AssocHeaders PlainCodec rstr := {|
  sv_health := {| Passive.ps_failures := ∅; Passive.ps_state := EdgeState_new (Registry_new [demo_route mirror]);
                  Passive.ps_recoveries := [] |};
  sv_security := demo_engine; sv_load_balancer := LoadBalancer_new; sv_stats := StatsRegistry_new None false;
  sv_policy := {| po_rates := ∅; po_bots := ∅ |}; sv_breakers := ∅; sv_in_flight := ∅; sv_replays := ∅; sv_mirrors := [] |}.
Definition demo_world (send : nat -> @Sent AssocHeaders rstr -> @Answer AssocHeaders + list error_link)
  : @World AssocHeaders rstr := {|
  w_request_id := lit "req-1"; w_trace_id := lit "t"; w_span_id := lit "s"; w_timestamp_unix_ms := 1; w_now_secs := 1;
  w_security := rd_at 1; w_observe := rd_at 2; w_spool_ok := true; w_now_policy := 1; w_now_digest_ms := 1;
  w_now_digest := 1; w_now_select := 1; w_now_result := 2; w_elapsed_ms := 1; w_elapsed_us := 1; w_acme_root := [];
  w_read_file := fun _ => None; w_bandwidth := None; w_monthly_used := None; w_forward_auth := fun _ => None;
  w_diagnostic := None; w_lookup_host := fun _ _ _ => None; w_spurious := []; w_send := send |}.
Definition answers_ok (n : nat) (r : @Sent AssocHeaders rstr) : @Answer AssocHeaders + list error_link :=
  inl {| an_status := 200; an_headers := [] : @HeaderMap AssocHeaders; an_body := [Data (lit "hi")] |}.
Definition refuses (n : nat) (r : @Sent AssocHeaders rstr) : @Answer AssocHeaders + list error_link :=
  inr [(Some KindRefused, lit "connection refused")].
Definition demo_request (host : string) : @Request AssocHeaders rstr := {|
  in_method := lit "GET"; in_uri := lit "/a/../b?x=1";
  in_headers := ([(lit "host", lit host); (lit "authorization", lit "Basic u:p")] : @HeaderMap AssocHeaders); in_body := [] |}.
Definition handle_on (mirror : TrafficMirrorConfig) (host : string) (send : nat -> @Sent AssocHeaders rstr -> @Answer AssocHeaders + list error_link)
  : @Server CidrLib AssocHeaders PlainCodec rstr * @Outcome AssocHeaders rstr :=
  @handle CidrLib SimpleUrlLib AssocHeaders PathMmdb SumCrypto CoarseLog2 PolyHasher PlainCodec rstr Some demo_path demo_query
    Some (fun _ => None) (fun u => u) demo_config (demo_world send) (demo_request host) (Some (V4 3405803783)) Http None (demo_server mirror).
Definition demo_handle := handle_on TrafficMirrorConfig_default.

Definition forwarded (o : @Outcome AssocHeaders rstr) : list (Upstream * rstr * rstr) :=
  map (fun x => (snd (fst x), se_method (snd x), se_uri (snd x))) (oc_sent o).
(** The credentials let the request pass, and the target is canonical. *)
Example demo_forwarded :
  let '(s, o) := demo_handle "example.com" answers_ok in
  re_status (oc_response o) = 200 /\ re_body (oc_response o) = Limited [Data (lit "hi")] default_response_buffer_bytes /\
  forwarded o = [(demo_upstream, lit "GET", lit "http://93.184.216.34:80/b?x=1")] /\ sv_in_flight s !! lit "id:/" = Some 0.
Proof. vm_compute. repeat split. Qed.

Definition healthy_after (host : string) : list bool :=
  flat_map (fun r => flat_map (fun p => map u_healthy (pr_upstreams p)) (r_paths r)) (snapshot (sv_routes (fst (demo_handle host refuses)))).
(** The same failure takes the upstream out under the route's name, and not under its alias. *)
Example alias_keeps_upstream :
  re_status (oc_response (snd (demo_handle "example.com" refuses))) = 502 /\ healthy_after "example.com" = [false] /\
  re_status (oc_response (snd (demo_handle "www.example.com" refuses))) = 502 /\ healthy_after "www.example.com" = [true].
Proof. vm_compute. repeat split. Qed.

(** The route with a mirror: the same request, and a copy of it. *)
Definition mirrored := handle_on mirrors_all "example.com" answers_ok.
Definition first_sent (o : @Outcome AssocHeaders rstr) : @Sent AssocHeaders rstr :=
  match oc_sent o with
  | (_, _, sent) :: _ => sent
  | [] => {| se_method := []; se_uri := []; se_headers := ([] : @HeaderMap AssocHeaders); se_body := Tunnel |}
  end.
Definition demo_sent : @Sent AssocHeaders rstr := first_sent (snd mirrored).
Lemma first_sent_in (o : @Outcome AssocHeaders rstr) n u : map fst (oc_sent o) = [(n, u)] -> (n, u, first_sent o) ∈ oc_sent o.
Proof.
  unfold first_sent. destruct (oc_sent o) as [|[[n' u'] sent] l]; [done|]. intros [= <- <- _]. by left.
Qed.
Lemma demo_sent_in : (1%nat, demo_upstream, demo_sent) ∈ oc_sent (snd mirrored).
Proof. apply first_sent_in. vm_compute. reflexivity. Qed.
Definition copies : list (Upstream * result PxxlError rstr) :=
  map (fun t => (mt_upstream t, match @mirror_sends CidrLib SimpleUrlLib AssocHeaders PathMmdb rstr Some Some demo_config (demo_world answers_ok) t 1 with
                                | Ok sent => Ok (se_uri sent) | Err e => Err e end)) (sv_mirrors (fst mirrored)).
Example demo_mirrored : copies = [(mirror_upstream, Ok (lit "http://93.184.216.35:80/b?x=1"))].
Proof. vm_compute. reflexivity. Qed.
Lemma mirrored_once : map mt_upstream (sv_mirrors (fst mirrored)) = [mirror_upstream].
Proof. vm_compute. reflexivity. Qed.
Definition demo_matched : @RouteMatch CidrLib :=
  default {| m_route := demo_route mirrors_all; m_path := PathRoute_new [] [] |} (find (sv_routes (demo_server mirrors_all)) (lit "example.com") (lit "/b")).



Lemma handle_observed_once_witness :
  exists ob, sv_stats (fst (demo_handle "example.com" refuses)) = stats_record true ob (sv_stats (demo_server TrafficMirrorConfig_default)) /\ ob_status ob = 502.
Proof.
  pose proof (@handle_observed_once CidrLib SimpleUrlLib AssocHeaders PathMmdb SumCrypto CoarseLog2 PolyHasher PlainCodec rstr Some
    demo_path demo_query Some (fun _ => None) (fun u => u) demo_config (demo_world refuses) _ (demo_request "example.com")
    (Some (V4 3405803783)) Http None (demo_server TrafficMirrorConfig_default)) as H. fold (handle_on TrafficMirrorConfig_default "example.com" refuses) in H.
  fold (demo_handle "example.com" refuses) in H.
  assert (re_status (oc_response (snd (demo_handle "example.com" refuses))) = 502) as Hst by (vm_compute; reflexivity).
  destruct (demo_handle "example.com" refuses) as [s o]. destruct H as [(ob & Hs & Hob & _) _].
  exists ob. split; [exact Hs|]. rewrite Hob. exact Hst.
Defined.
Definition demo_waiting : @Server CidrLib AssocHeaders PlainCodec rstr * (@Outcome AssocHeaders rstr + option rstr) :=
  @handle_waiting CidrLib SimpleUrlLib AssocHeaders PathMmdb SumCrypto CoarseLog2 PolyHasher PlainCodec rstr Some demo_path demo_query
    Some (fun _ => None) (fun u => u) demo_config (demo_world refuses) (demo_request "example.com") (Some (V4 3405803783)) Http (demo_server TrafficMirrorConfig_default).
Lemma handle_slots_balanced_witness :
  default 0 (sv_in_flight (fst (demo_handle "example.com" refuses)) !! lit "id:/") = 0 /\
  default 0 (sv_in_flight (fst demo_waiting) !! lit "id:/") = 1.
Proof.
  destruct (@handle_slots_balanced CidrLib SimpleUrlLib AssocHeaders PathMmdb SumCrypto CoarseLog2 PolyHasher PlainCodec rstr Some
    demo_path demo_query Some (fun _ => None) (fun u => u) demo_config (demo_world refuses) _ (demo_request "example.com")
    (Some (V4 3405803783)) Http None (demo_server TrafficMirrorConfig_default) (lit "id:/")) as [H1 H2].
  - intros n. cbn [sv_in_flight demo_server]. rewrite lookup_empty. reflexivity.
  - split; [exact H1|]. fold demo_waiting in H2.
    assert (match snd demo_waiting with inr key => key | inl _ => None end = Some (lit "id:/")) as Hk by (vm_compute; reflexivity).
    destruct demo_waiting as [s' [o|key]]; cbn [fst snd] in *; [discriminate Hk|]. rewrite Hk in H2. etransitivity; [exact H2|]. vm_compute. reflexivity.
Defined.
End Demo.
