(* ===== verification/Redis.v ===== *)
(** Talking to a Redis server: actions on the part of its data a client uses, where
    every command may fail to arrive or lose its reply, and the rules for invariants
    that hold whatever becomes of the commands. *)
From stdpp Require Import options.
From S2P Require Import Prelude RustStr.

(** What becomes of a command: it is answered, it does not reach the server, or its
    reply is lost after it took effect.  No further entry: it is answered. *)
Inductive reply := Answered | NotSent | ReplyLost.

(** An action on data [S] with errors [E]. *)
Definition action (S E A : Type) : Type := oracle S reply E A.

Section action.
Context {S E : Type}.

Definition run_command (error : E) {A} (f : S -> S * A) : action S E A :=
  fun '(s, replies) =>
    match replies with
    | NotSent :: rest => ((s, rest), Err error)
    | ReplyLost :: rest => ((fst (f s), rest), Err error)
    | _ => let '(s, a) := f s in ((s, tail replies), Ok a)
    end.

(** Whatever the fate of its commands, [m] keeps [J], and a value it returns
    satisfies [Q]. *)
Definition keeps {A} (J : S -> Prop) (m : action S E A) (Q : A -> Prop) : Prop :=
  forall st, J (fst st) -> J (fst (fst (m st))) /\ forall a, snd (m st) = Ok a -> Q a.

Lemma keeps_ret {A} J (a : A) (Q : A -> Prop) : Q a -> keeps J (rret a) Q.
Proof. intros H st HJ. split; [done|]. by intros ? [= <-]. Qed.
Lemma keeps_fail {A} J e (Q : A -> Prop) : keeps J (rfail e) Q.
Proof. by intros st HJ. Qed.
Lemma keeps_bind {A B} J (m : action S E A) (k : A -> action S E B) P Q :
  keeps J m P -> (forall a, P a -> keeps J (k a) Q) -> keeps J (rbind m k) Q.
Proof.
  intros Hm Hk st HJ. unfold rbind. specialize (Hm st HJ). destruct (m st) as [st1 [a|e]]; destruct Hm as [H1 H2]; [|done].
  apply Hk; [by apply H2|done].
Qed.
Lemma keeps_command {A} (J : S -> Prop) (error : E) (f : S -> S * A) (Q : A -> Prop) :
  (forall s, J s -> J (fst (f s)) /\ Q (snd (f s))) -> keeps J (run_command error f) Q.
Proof.
  intros Hf [s rs] HJ. cbn in HJ. specialize (Hf s HJ). unfold run_command.
  destruct rs as [|[] rs]; destruct (f s) as [s' a]; cbn in *; (split; [apply Hf || done|]); try done; by intros ? [= <-]; apply Hf.
Qed.
End action.
