(* ===== verification/RouteStore.v ===== *)
(** Where the routes of the admin API are kept: the Redis hash of the [redis-sync]
    crate ([RedisRouteStore]) and the snapshot file of the [api] crate.  The text form
    of [serde_json] is a parameter. *)
From stdpp Require Import options.
From S2P Require Import Prelude RustStr RustNum RustNet CommonTypes CommonPath CommonValidate RouteRegistry Redis.

Local Open Scope Z_scope.

(** [serde_json] on routes. *)
Class RouteCodec {NL : IpNetLib} := {
  encode_route : Route -> option rstr;
  decode_route : rstr -> option Route;
  encode_routes : list Route -> option rstr;
  decode_routes : rstr -> option (list Route);
}.
(** What was written reads back as it was; a list has brackets at least. *)
Class RouteCodecLaws {NL : IpNetLib} (RC : RouteCodec) : Prop := {
  decode_encode_route : forall r p, encode_route r = Some p -> decode_route p = Some r;
  decode_encode_routes : forall l p, encode_routes l = Some p -> decode_routes p = Some l;
  encode_routes_nonempty : forall l, encode_routes l <> Some [];
}.

(** ** The Redis hash *)

Section store.
Context {NL : IpNetLib} {UL : UrlLib} {RC : RouteCodec} (env : rstr -> option rstr).

Inductive RouteStoreError :=
| RouteRedisError
| RouteJsonError
| InvalidRoute (domain reason : rstr).
Definition route_action (A : Type) : Type := action (gmap rstr rstr) RouteStoreError A.
Definition route_command {A} (f : gmap rstr rstr -> gmap rstr rstr * A) : route_action A := run_command RouteRedisError f.
Definition route_connect : route_action unit := route_command (fun h => (h, tt)).

(** [route.source = Api; route.domain = normalize_domain(&route.domain)] *)
Definition persisted (r : Route) : Route := r_with_source_domain Api (normalize_domain (r_domain r)) r.
(** The closure of [load_routes]. *)
Definition route_of_value (value : rstr) : result RouteStoreError Route :=
  match decode_route value with
  | None => Err RouteJsonError
  | Some route =>
    let route := persisted route in
    match validate_for_dynamic_control_plane env route with
    | Ok _ => Ok route
    | Err reason => Err (InvalidRoute (r_domain route) reason)
    end
  end.
Definition load_routes : route_action (list Route) :=
  do* route_connect in
  let* values := route_command (fun h => (h, snd <$> map_to_list h)) in
  match collect_results route_of_value (take (Z.to_nat MAX_ROUTES_PER_SOURCE) values) with
  | Ok routes => rret routes
  | Err e => rfail e
  end.
Definition upsert_route (route : Route) : route_action unit :=
  do* route_connect in
  let persisted := persisted route in
  match validate_for_dynamic_control_plane env persisted with
  | Err reason => rfail (InvalidRoute (r_domain persisted) reason)
  | Ok _ =>
    match encode_route persisted with
    | None => rfail RouteJsonError
    | Some payload => route_command (fun h => (<[r_domain persisted := payload]> h, tt))
    end
  end.
Definition delete_domain (domain : rstr) : route_action bool :=
  do* route_connect in
  let key := normalize_domain domain in
  let* removed := route_command (fun h => (delete key h, match h !! key with Some _ => 1 | None => 0 end)) in
  rret (0 <? removed).

(** *** The hash as a table of routes *)

Context {Laws : RouteCodecLaws RC}.

Definition stored (h : gmap rstr rstr) : gmap rstr Route := omap decode_route h.
(** Every field holds a valid route of the API with that domain. *)
Definition routes_ok (h : gmap rstr rstr) : Prop :=
  forall domain p, h !! domain = Some p ->
    exists r, decode_route p = Some r /\ r_domain r = domain /\ r_source r = Api /\ validate_for_dynamic_control_plane env r = Ok tt.

Lemma validate_normalized domain : validate_domain_name domain = Ok tt -> validate_domain_name (normalize_domain domain) = Ok tt.
Proof.
  intros H. apply validate_domain_name_ok in H as H'. apply validate_domain_name_ok.
  assert (normalize_domain (normalize_domain domain) = normalize_domain domain) as ->; [|done].
  rewrite normalize_valid by apply H'. apply to_ascii_lowercase_idem.
Qed.
(** A valid route stays valid when its domain is normalised once more. *)
Lemma persisted_valid r : validate_for_dynamic_control_plane env r = Ok tt -> validate_for_dynamic_control_plane env (persisted r) = Ok tt.
Proof.
  unfold validate_for_dynamic_control_plane, validate_for_runtime. intros H. do_steps H. do_steps Hstep.
  change (all_upstreams (persisted r)) with (all_upstreams r). change (r_rules (persisted r)) with (r_rules r).
  change (r_paths (persisted r)) with (r_paths r). change (r_domain (persisted r)) with (normalize_domain (r_domain r)).
  rewrite validate_normalized by done. rewrite Hstep2, Hstep3, Hstep4, Hstep, Hstep0. done.
Qed.

Lemma values_of_omap {A B} (f : A -> option B) (m : gmap rstr A) : snd <$> map_to_list (omap f m) ≡ₚ omap f (snd <$> map_to_list m).
Proof.
  induction m as [|k x m Hk IH] using map_ind; [by rewrite omap_empty, !map_to_list_empty|].
  rewrite map_to_list_insert by done. rewrite fmap_cons. cbn [snd omap list_omap]. destruct (f x) as [y|] eqn:E.
  - rewrite omap_insert_Some with (y := y) by done. rewrite map_to_list_insert by (by rewrite lookup_omap, Hk).
    rewrite fmap_cons. cbn [snd]. by rewrite IH.
  - rewrite omap_insert_None by done. rewrite delete_id by (by rewrite lookup_omap, Hk). done.
Qed.
Lemma values_ok l : Forall (fun p => exists r, decode_route p = Some r /\ validate_for_dynamic_control_plane env r = Ok tt) l ->
  collect_results route_of_value l = Ok (persisted <$> omap decode_route l).
Proof.
  induction 1 as [|p l (r & Hd & Hv) _ IH]; [done|]. cbn [collect_results]. unfold route_of_value at 1. cbn [omap list_omap]. rewrite Hd.
  by rewrite persisted_valid, IH by done.
Qed.
Lemma routes_ok_values h : routes_ok h ->
  Forall (fun p => exists r, decode_route p = Some r /\ validate_for_dynamic_control_plane env r = Ok tt) (snd <$> map_to_list h).
Proof.
  intros Hh. apply Forall_forall. intros p ([k q] & -> & Hin%elem_of_map_to_list)%list_elem_of_fmap.
  destruct (Hh _ _ Hin) as (r & Hd & _ & _ & Hv). eauto.
Qed.
Lemma routes_ok_insert h r p : routes_ok h -> encode_route (persisted r) = Some p -> validate_for_dynamic_control_plane env (persisted r) = Ok tt ->
  routes_ok (<[normalize_domain (r_domain r) := p]> h).
Proof using Laws.
  intros Hh He Hv d q. destruct (decide (d = normalize_domain (r_domain r))) as [->|Hne].
  - rewrite lookup_insert_eq. intros [= <-]. exists (persisted r). split; [by apply decode_encode_route|done].
  - rewrite lookup_insert_ne by done. apply Hh.
Qed.
Lemma routes_ok_delete h d : routes_ok h -> routes_ok (delete d h).
Proof. intros Hh d' p [_ ?]%lookup_delete_Some. by apply Hh. Qed.

Inductive route_op := RouteLoad | RouteUpsert (r : Route) | RouteDelete (domain : rstr).
Inductive route_answer := RoutesLoaded (l : list Route) | RouteUpserted | RouteDeleted (deleted : bool).
Definition run_route_op (op : route_op) : route_action route_answer :=
  match op with
  | RouteLoad => let* l := load_routes in rret (RoutesLoaded l)
  | RouteUpsert r => do* upsert_route r in rret RouteUpserted
  | RouteDelete d => let* b := delete_domain d in rret (RouteDeleted b)
  end.
(** What the operations mean on a table from domains to routes. *)
Inductive route_spec (M : gmap rstr Route) : route_op -> gmap rstr Route -> result RouteStoreError route_answer -> Prop :=
| rs_load l :
    l ≡ₚ persisted <$> (snd <$> map_to_list M) -> route_spec M RouteLoad M (Ok (RoutesLoaded (take (Z.to_nat MAX_ROUTES_PER_SOURCE) l)))
| rs_upsert r :
    validate_for_dynamic_control_plane env (persisted r) = Ok tt -> encode_route (persisted r) <> None ->
    route_spec M (RouteUpsert r) (<[normalize_domain (r_domain r) := persisted r]> M) (Ok RouteUpserted)
| rs_invalid r reason :
    validate_for_dynamic_control_plane env (persisted r) = Err reason ->
    route_spec M (RouteUpsert r) M (Err (InvalidRoute (normalize_domain (r_domain r)) reason))
| rs_unwritten r :
    validate_for_dynamic_control_plane env (persisted r) = Ok tt -> encode_route (persisted r) = None ->
    route_spec M (RouteUpsert r) M (Err RouteJsonError)
| rs_delete d :
    route_spec M (RouteDelete d) (delete (normalize_domain d) M) (Ok (RouteDeleted (bool_decide (is_Some (M !! normalize_domain d))))).
Lemma omap_take {A B} (f : A -> option B) n l : Forall (fun x => is_Some (f x)) l -> omap f (take n l) = take n (omap f l).
Proof.
  intros H. revert n. induction H as [|x l [y Hy] _ IH]; intros [|n]; [done..|]. cbn [take omap list_omap]. rewrite Hy. cbn [take]. by rewrite IH.
Qed.

(** C12: With a server that answers every command, the Redis hash is a table from
    domains to valid routes: an upsert puts the normalised route under its domain, or
    refuses one that is invalid or has no text and changes nothing; a delete removes
    the domain and says whether it was there; and a load returns the routes of the
    table in some order, all of them as long as they are within the quota of a
    source, and otherwise as many of them as the quota allows. *)
Theorem route_store_refines op h :
  routes_ok h ->
  exists h' a, run_route_op op (h, []) = ((h', []), a) /\ routes_ok h' /\ route_spec (stored h) op (stored h') a.
Proof using Laws.
  intros Hh. destruct op as [|r|d];
    unfold run_route_op, load_routes, upsert_route, delete_domain, rbind, route_connect, route_command, run_command; cbn [tail fst snd].
  - pose proof (routes_ok_values _ Hh) as Hv. rewrite values_ok by (by apply Forall_take).
    rewrite omap_take by (eapply Forall_impl; [exact Hv|]; intros p (x & Hx & _); by exists x). rewrite fmap_take.
    eexists h, _. split; [done|]. split; [done|]. constructor. apply fmap_Permutation. symmetry. apply values_of_omap.
  - destruct (validate_for_dynamic_control_plane env (persisted r)) as [[]|reason] eqn:Ev.
    + destruct (encode_route (persisted r)) as [p|] eqn:Ee; [|eexists h, _; split; [done|]; split; [done|]; by constructor].
      eexists _, _. split; [done|]. split; [by apply routes_ok_insert|].
      change (r_domain (persisted r)) with (normalize_domain (r_domain r)). unfold stored.
      rewrite omap_insert_Some with (y := persisted r) by (by apply decode_encode_route). constructor; [done|congruence].
    + eexists h, _. split; [done|]. split; [done|]. by constructor.
  - eexists _, _. split; [done|]. split; [by apply routes_ok_delete|]. unfold stored. rewrite omap_delete.
    set (k := normalize_domain d). replace (0 <? _) with (bool_decide (is_Some (omap decode_route h !! k))); [constructor|].
    rewrite lookup_omap. destruct (h !! k) as [p|] eqn:E; cbn; [|done].
    destruct (Hh _ _ E) as (r & -> & _). done.
Qed.

(** Loading is all or nothing: the routes are returned exactly when each of the
    first hundred thousand payloads reads as a route that passes the checks of the
    control plane; otherwise the load is an error, whatever else is stored. *)
Theorem load_all_or_nothing h :
  is_ok (snd (load_routes (h, []))) = true <->
  Forall (fun p => exists r, decode_route p = Some r /\ validate_for_dynamic_control_plane env (persisted r) = Ok tt)
    (take (Z.to_nat MAX_ROUTES_PER_SOURCE) (snd <$> map_to_list h)).
Proof.
  unfold load_routes, rbind, route_connect, route_command, run_command. cbn [tail fst snd].
  generalize (take (Z.to_nat MAX_ROUTES_PER_SOURCE) (snd <$> map_to_list h)). intros l.
  transitivity (exists ys, collect_results route_of_value l = Ok ys).
  { destruct (collect_results _ _); cbn; naive_solver. }
  setoid_rewrite collect_results_ok. split.
  - intros [ys Hys]. induction Hys as [|p y l ys Hp _ IH]; constructor; [|done].
    unfold route_of_value in Hp. destruct (decode_route p) as [r|]; [|done]. exists r. split; [done|].
    by destruct (validate_for_dynamic_control_plane _ _) as [[]|].
  - induction 1 as [|p l (r & Hd & Hv) _ [ys IH]]; [by exists []|]. exists (persisted r :: ys). constructor; [|done].
    unfold route_of_value. by rewrite Hd, Hv.
Qed.

(** Whatever becomes of the commands, the hash keeps holding valid routes only. *)
Lemma route_store_keeps op : keeps routes_ok (run_route_op op) (fun _ => True).
Proof using Laws.
  assert (keeps routes_ok route_connect (fun _ => True)) as Hc by by apply keeps_command.
  destruct op as [|r|d]; cbn [run_route_op]; (eapply (keeps_bind _ _ _ (fun _ => True)); [|intros ? _; by apply keeps_ret]);
    (eapply keeps_bind; [exact Hc|intros _ _]); cbv zeta beta.
  - eapply (keeps_bind _ _ _ (fun _ => True)); [by apply keeps_command|]. intros values _.
    destruct (collect_results _ _); [by apply keeps_ret|apply keeps_fail].
  - destruct (validate_for_dynamic_control_plane _ _) as [[]|] eqn:Ev; [|apply keeps_fail].
    destruct (encode_route _) as [p|] eqn:Ee; [|apply keeps_fail].
    apply keeps_command. intros h Hh. split; [|done]. cbn [fst]. by apply routes_ok_insert.
  - eapply (keeps_bind _ _ _ (fun _ => True)); [|intros n _; by apply keeps_ret].
    apply keeps_command. intros h Hh. split; [|done]. by apply routes_ok_delete.
Qed.
End store.

(** ** The snapshot file *)

Section snapshot.
Context {NL : IpNetLib} {RC : RouteCodec}.

Definition route_le (a b : Route) : Prop :=
  r_domain a <> r_domain b /\ str_le (r_domain a) (r_domain b) \/ r_domain a = r_domain b /\ str_le (r_id a) (r_id b).
#[export] Instance route_le_dec : RelDecision route_le.
Proof. intros a b. unfold route_le. apply _. Defined.
Definition api_routes_snapshot (es : EdgeState) : list Route :=
  merge_sort route_le (filter (fun route => r_source route = Api) (snapshot (es_routes es))).

(** The directory of the snapshot: what the two names stand for, and the bytes of
    the files.  A name is moved by [rename]; an open file stays the same one. *)
Record Files := {
  fl_main : option nat;
  fl_temp : option nat;
  fl_data : gmap nat rstr;
  fl_next : nat;
}.
(** [write] opens the temporary name, which empties or creates the file, *)
Definition open_temp (f : Files) : Files * nat :=
  match fl_temp f with
  | Some n => ({| fl_main := fl_main f; fl_temp := Some n; fl_data := <[n := []]> (fl_data f); fl_next := fl_next f |}, n)
  | None => ({| fl_main := fl_main f; fl_temp := Some (fl_next f); fl_data := <[fl_next f := []]> (fl_data f); fl_next := S (fl_next f) |},
             fl_next f)
  end.
(** and writes at its own position in the file it opened. *)
Definition write_at (n at_ : nat) (bytes : rstr) (f : Files) : Files :=
  let old := default [] (fl_data f !! n) in
  {| fl_main := fl_main f; fl_temp := fl_temp f;
     fl_data := <[n := take at_ old ++ bytes ++ drop (at_ + length bytes) old]> (fl_data f); fl_next := fl_next f |}.
Definition rename_temp (f : Files) : Files * bool :=
  match fl_temp f with
  | Some n => ({| fl_main := Some n; fl_temp := None; fl_data := fl_data f; fl_next := fl_next f |}, true)
  | None => (f, false)
  end.
(** How far a save gets: [Torn n] writes [n] bytes and stops. *)
Inductive save_fate := SavedAll | DirFailed | Torn (n : nat) | RenameFailed.
Definition save_bytes (fate : save_fate) (bytes : rstr) (f : Files) : Files * bool :=
  match fate with
  | DirFailed => (f, false)
  | Torn n => let '(f, file) := open_temp f in (write_at file 0 (take n bytes) f, false)
  | RenameFailed => let '(f, file) := open_temp f in (write_at file 0 bytes f, false)
  | SavedAll => let '(f, file) := open_temp f in rename_temp (write_at file 0 bytes f)
  end.
(** [save_http_routes_to_file]: the text is made after the directory, before the
    file is opened. *)
Definition save_http_routes (fate : save_fate) (routes : list Route) (f : Files) : Files * bool :=
  match encode_routes routes with
  | None => (f, false)
  | Some bytes => save_bytes fate bytes f
  end.
Definition content (f : Files) : option rstr := match fl_main f with Some n => fl_data f !! n | None => None end.

(** [load_http_routes_from_file]: [None] for any of its errors. *)
Definition load_http_routes (f : Files) : option (list Route) :=
  match content f with
  | None => None
  | Some bytes =>
    if is_empty bytes then Some []
    else
      match decode_routes bytes with
      | None => None
      | Some routes =>
        Some (take (Z.to_nat MAX_ROUTES_PER_SOURCE) (filter (fun route => is_empty (r_domain route) = false) (map persisted routes)))
      end
  end.

(** *** One save after the other *)

Record files_ok (f : Files) : Prop := {
  fk_apart : forall n, fl_main f = Some n -> fl_temp f <> Some n;
  fk_main : forall n, fl_main f = Some n -> (n < fl_next f)%nat;
  fk_temp : forall n, fl_temp f = Some n -> (n < fl_next f)%nat;
}.
Lemma opened f f' n : files_ok f -> open_temp f = (f', n) ->
  fl_main f' = fl_main f /\ fl_temp f' = Some n /\ fl_data f' = <[n := []]> (fl_data f) /\ fl_main f <> Some n /\
  (forall k, fl_main f = Some k -> (k < fl_next f')%nat) /\ (n < fl_next f')%nat.
Proof.
  intros [H1 H2 H3]. unfold open_temp. destruct (fl_temp f) as [k|] eqn:E; intros [= <- <-]; cbn.
  - split_and!; try done; [intros Hm; by apply (H1 k Hm)|by apply H3].
  - split_and!; try done; [|intros k ?%H2; lia|lia]. intros ?%H2. lia.
Qed.
Lemma open_write_content f f' n bytes : files_ok f -> open_temp f = (f', n) ->
  content (write_at n 0 bytes f') = content f /\ files_ok (write_at n 0 bytes f') /\
  fl_temp (write_at n 0 bytes f') = Some n /\ fl_data (write_at n 0 bytes f') !! n = Some bytes.
Proof.
  intros Hf Ho. destruct (opened _ _ _ Hf Ho) as (Hm & Ht & Hd & Hne & Hk & Hn). unfold content. cbn [write_at fl_main fl_temp fl_data].
  rewrite Hm, Ht, Hd. split_and!; [| |done|].
  - destruct (fl_main f) as [k|]; [|done]. rewrite !lookup_insert_ne by congruence. done.
  - split; cbn; rewrite ?Hm, ?Ht; [congruence|by apply Hk|]. by intros ? [= <-].
  - rewrite lookup_insert_eq. cbn. rewrite lookup_insert_eq. cbn [default from_option id]. by rewrite drop_nil, app_nil_r.
Qed.
Lemma save_bytes_content fate bytes f : files_ok f ->
  files_ok (fst (save_bytes fate bytes f)) /\
  content (fst (save_bytes fate bytes f)) = match fate with SavedAll => Some bytes | _ => content f end /\
  snd (save_bytes fate bytes f) = match fate with SavedAll => true | _ => false end.
Proof.
  intros Hf. destruct fate as [| |n|]; cbn [save_bytes]; [|done|..]; destruct (open_temp f) as [f' k] eqn:Eo.
  - destruct (open_write_content _ _ _ bytes Hf Eo) as (_ & [_ _ Hlt] & Ht & Hd). unfold rename_temp. rewrite Ht. cbn [fst snd].
    split; [|by unfold content; cbn]. split; cbn; [done| |done]. intros ? [= <-]. by apply Hlt.
  - by destruct (open_write_content _ _ _ (take n bytes) Hf Eo) as (? & ? & _).
  - by destruct (open_write_content _ _ _ bytes Hf Eo) as (? & ? & _).
Qed.

Definition run_saves (saves : list (save_fate * list Route)) (f : Files) : Files :=
  foldl (fun f s => fst (save_http_routes (fst s) (snd s) f)) f saves.
(** The text of the last save that got through. *)
Definition last_saved (saves : list (save_fate * list Route)) (before : option rstr) : option rstr :=
  foldl (fun c s => match fst s, encode_routes (snd s) with SavedAll, Some bytes => Some bytes | _, _ => c end) before saves.

Lemma save_http_content fate routes f : files_ok f ->
  files_ok (fst (save_http_routes fate routes f)) /\
  content (fst (save_http_routes fate routes f)) =
    match fate, encode_routes routes with SavedAll, Some bytes => Some bytes | _, _ => content f end.
Proof.
  intros Hf. unfold save_http_routes. destruct (encode_routes routes) as [bytes|]; [|by destruct fate].
  destruct (save_bytes_content fate bytes f Hf) as (Hf' & Hc & _). split; [done|]. rewrite Hc. by destruct fate.
Qed.

(** C13: As long as saves follow one another, the snapshot file is never torn: after
    any number of them, each of which may fail at any point, the file holds the
    whole text of the last one that reported success, or what it held before. *)
Theorem snapshot_file_whole saves f :
  files_ok f -> content (run_saves saves f) = last_saved saves (content f) /\ files_ok (run_saves saves f).
Proof.
  revert f. induction saves as [|[fate routes] saves IH]; intros f Hf; [done|].
  destruct (save_http_content fate routes f Hf) as [Hf' Hc]. destruct (IH _ Hf') as [IH1 IH2]. split; [|done].
  change (run_saves ((fate, routes) :: saves) f) with (run_saves saves (fst (save_http_routes fate routes f))).
  by rewrite IH1, Hc.
Qed.

Context {Laws : RouteCodecLaws RC}.

Lemma persisted_id (r : Route) : r_source r = Api -> normalize_domain (r_domain r) = r_domain r -> persisted r = r.
Proof. destruct r. cbn. intros -> Hd. unfold persisted, r_with_source_domain. cbn in *. by rewrite Hd. Qed.

(** The snapshot reads back: loading the file a successful save of the API's
    routes wrote gives these routes in their order, when their domains are normal,
    not empty, and within the quota. *)
Theorem route_snapshot_roundtrip routes f :
  files_ok f -> snd (save_http_routes SavedAll routes f) = true ->
  Forall (fun r => r_source r = Api /\ normalize_domain (r_domain r) = r_domain r /\ r_domain r <> []) routes ->
  Z.of_nat (length routes) <= MAX_ROUTES_PER_SOURCE ->
  load_http_routes (fst (save_http_routes SavedAll routes f)) = Some routes.
Proof using Laws.
  intros Hf Hs Hall Hlen. unfold save_http_routes in *. destruct (encode_routes routes) as [bytes|] eqn:E; [|done].
  destruct (save_bytes_content SavedAll bytes f Hf) as (_ & Hc & _). unfold load_http_routes. rewrite Hc.
  destruct bytes as [|b bytes]; [by apply encode_routes_nonempty in E|]. cbn [is_empty]. rewrite (decode_encode_routes _ _ E).
  assert (map persisted routes = routes) as ->.
  { clear - Hall. induction Hall as [|r l (H1 & H2 & _) _ IH]; [done|]. cbn. by rewrite persisted_id, IH. }
  rewrite take_ge.
  - f_equal. clear - Hall. induction Hall as [|r l (_ & _ & Hd) _ IH]; [done|].
    rewrite filter_cons_True by (by destruct (r_domain r)). by rewrite IH.
  - etransitivity; [apply length_filter|]. lia.
Qed.
End snapshot.

(** ** Witnesses and examples *)

Module RouteDemo.
Definition up : Upstream := Upstream_new (lit "http://93.184.216.34:8080").
Definition route : @Route CidrLib := with_id (lit "api-example.com")
  (Route_new (lit "id") 0 (lit "Example.com") [PathRoute_new (lit "/") [up]] Api).
Definition no_env : rstr -> option rstr := fun _ => None.
(** A text form of this one route and of lists of it. *)
#[export] Instance OneCodec : @RouteCodec CidrLib := {|
  encode_route r := if decide (r = route) then Some (lit "r") else None;
  decode_route p := if p =s? lit "r" then Some route else None;
  encode_routes l := if forallb (fun r => bool_decide (r = route)) l then Some (chr "[" :: map (fun _ => chr "r") l) else None;
  decode_routes p := match p with _ :: rest => Some (map (fun _ => route) rest) | [] => None end |}.
#[export] Instance OneCodec_laws : @RouteCodecLaws CidrLib OneCodec.
Proof.
  split.
  - intros r p. cbn. destruct (decide (r = route)) as [->|]; [|done]. by intros [= <-].
  - intros l p. cbn. destruct (forallb _ l) eqn:E; [|done]. intros [= <-]. cbn. f_equal. rewrite map_map.
    apply Is_true_eq_left, forallb_True in E. induction E as [|r l Hr _ IH]; [done|]. cbn. f_equal; [|done]. by apply bool_decide_unpack in Hr.
  - intros l. cbn. by destruct (forallb _ l).
Qed.
Lemma route_persisted : persisted route = route.
Proof. reflexivity. Qed.
Lemma route_store_refines_witness :
  exists h' a, @run_route_op CidrLib SimpleUrlLib OneCodec no_env (RouteUpsert route) (∅, []) = ((h', []), a) /\
    @routes_ok CidrLib SimpleUrlLib OneCodec no_env h' /\
    @route_spec CidrLib SimpleUrlLib OneCodec no_env (@stored CidrLib OneCodec ∅) (RouteUpsert route) (@stored CidrLib OneCodec h') a.
Proof.
  apply (@route_store_refines CidrLib SimpleUrlLib OneCodec no_env OneCodec_laws).
  intros d p. by rewrite lookup_empty.
Defined.
(** One payload that does not read makes the whole load fail. *)
Example one_bad_payload :
  is_ok (snd (@load_routes CidrLib SimpleUrlLib OneCodec no_env ({[ lit "example.com" := lit "r"; lit "old.example.com" := lit "?" ]}, []))) = false.
Proof. vm_compute. reflexivity. Qed.

Definition empty_dir : Files := {| fl_main := None; fl_temp := None; fl_data := ∅; fl_next := 0 |}.
Lemma empty_dir_ok : files_ok empty_dir.
Proof. split; done. Qed.
Lemma snapshot_file_whole_witness :
  content (@run_saves CidrLib OneCodec [(SavedAll, [route]); (Torn 1, [route; route]); (RenameFailed, [])] empty_dir) = Some (lit "[r").
Proof.
  pose proof (@snapshot_file_whole CidrLib OneCodec [(SavedAll, [route]); (Torn 1, [route; route]); (RenameFailed, [])] empty_dir empty_dir_ok) as [H _].
  rewrite H. vm_compute. reflexivity.
Defined.
Lemma route_snapshot_roundtrip_witness :
  @load_http_routes CidrLib OneCodec (fst (@save_http_routes CidrLib OneCodec SavedAll [route] empty_dir)) = Some [route].
Proof.
  apply (@route_snapshot_roundtrip CidrLib OneCodec OneCodec_laws [route] empty_dir).
  - apply empty_dir_ok.
  - vm_compute. reflexivity.
  - repeat constructor. discriminate.
  - vm_compute. discriminate.
Defined.
(** Two saves in the background at once: both open the same temporary name, the
    shorter text overwrites the start of the longer one, and the first rename
    installs the mixture; the second finds no file. *)
Example parallel_saves_tear :
  let '(f, a) := open_temp empty_dir in
  let '(f, b) := open_temp f in
  let f := write_at a 0 (lit "[old,old,old]") f in
  let f := write_at b 0 (lit "[new]") f in
  let '(f, renamed_a) := rename_temp f in
  let '(f, renamed_b) := rename_temp f in
  (content f, renamed_a, renamed_b) = (Some (lit "[new]old,old]"), true, false).
Proof. reflexivity. Qed.
End RouteDemo.
