(* ===== verification/RedisTokens.v ===== *)
(** The token store of the [redis-sync] crate: admin tokens in a Redis hash, with a
    second hash from the digest of a token to its identifier.  The store is a
    program over Redis commands, each of which may fail on its way there or back. *)
From stdpp Require Import options.
From S2P Require Import Prelude RustStr RustNum HttpAuth Redis.

Local Open Scope Z_scope.

(** ** Digests and hexadecimal *)

(** The digest of the [sha2] crate: 32 bytes. *)
Class DigestLib := { sha256 : rstr -> rstr }.
Class DigestLaws (DL : DigestLib) : Prop := { sha256_length : forall s, length (sha256 s) = 32%nat }.

(** [HEX[(byte >> 4)]] and [HEX[(byte & 0x0f)]] *)
Definition hex_byte (b : ascii) : rstr := [digit_char (Z.shiftr (bz b) 4); digit_char (Z.land (bz b) 15)].
Definition to_hex_bytes (bytes : rstr) : rstr := flat_map hex_byte bytes.

(** The part both crates share, and the default of this one. *)
Definition normalized_scopes (scopes : list rstr) : list rstr :=
  dedup (sort_strings (filter (fun scope => is_empty scope = false) (map (fun scope => to_ascii_lowercase (trim scope)) scopes))).
Definition default_admin_scopes : list rstr := [lit "admin"].
Definition store_normalize_scopes (scopes : list rstr) : list rstr :=
  let scopes := normalized_scopes scopes in
  if is_empty scopes then default_admin_scopes else scopes.

(** ** Records *)

Record AdminTokenRecord := {
  tr_id : rstr;
  tr_name : rstr;
  tr_token_hash : rstr;
  tr_scopes : list rstr;
  tr_created_at_unix_ms : Z;
  tr_last_used_unix_ms : option Z;
  tr_enabled : bool;
}.
Record AdminTokenView := {
  tv_id : rstr;
  tv_name : rstr;
  tv_scopes : list rstr;
  tv_created_at_unix_ms : Z;
  tv_last_used_unix_ms : option Z;
  tv_enabled : bool;
}.
Record CreatedAdminToken := { ct_record : AdminTokenView; ct_token : rstr }.
#[export] Instance AdminTokenRecord_eq_dec : EqDecision AdminTokenRecord.
Proof. solve_decision. Defined.
#[export] Instance AdminTokenView_eq_dec : EqDecision AdminTokenView.
Proof. solve_decision. Defined.

(** [From<AdminTokenRecord> for AdminTokenView] *)
Definition view_of (r : AdminTokenRecord) : AdminTokenView := {|
  tv_id := tr_id r; tv_name := tr_name r; tv_scopes := store_normalize_scopes (tr_scopes r);
  tv_created_at_unix_ms := tr_created_at_unix_ms r; tv_last_used_unix_ms := tr_last_used_unix_ms r;
  tv_enabled := tr_enabled r |}.

(** [serde_json] on token records. *)
Class TokenCodec := {
  encode_token : AdminTokenRecord -> option rstr;
  decode_token : rstr -> option AdminTokenRecord;
}.
(** A record of strings, numbers and flags can be written, and reads back as it was. *)
Class TokenCodecLaws (TC : TokenCodec) : Prop := {
  encode_token_total : forall r, encode_token r <> None;
  decode_encode_token : forall r p, encode_token r = Some p -> decode_token p = Some r;
}.

(** ** Redis *)

(** The two hashes the store uses. *)
Record Hashes := { hs_tokens : gmap rstr rstr; hs_index : gmap rstr rstr }.
Definition set_tokens (m : gmap rstr rstr) (s : Hashes) : Hashes := {| hs_tokens := m; hs_index := hs_index s |}.
Definition set_index (m : gmap rstr rstr) (s : Hashes) : Hashes := {| hs_tokens := hs_tokens s; hs_index := m |}.

Inductive StoreError := RedisError | JsonError.

Definition redis (A : Type) : Type := action Hashes StoreError A.
Definition command {A} (f : Hashes -> Hashes * A) : redis A := run_command RedisError f.
(** [Client::open(..)?] and [get_multiplexed_async_connection().await?] *)
Definition connect : redis unit := command (fun s => (s, tt)).
Definition count {A} (m : gmap rstr A) (k : rstr) : Z := match m !! k with Some _ => 1 | None => 0 end.
Definition hset_token (id payload : rstr) : redis unit := command (fun s => (set_tokens (<[id := payload]> (hs_tokens s)) s, tt)).
Definition hset_index (digest id : rstr) : redis unit := command (fun s => (set_index (<[digest := id]> (hs_index s)) s, tt)).
Definition hget_token (id : rstr) : redis (option rstr) := command (fun s => (s, hs_tokens s !! id)).
Definition hget_index (digest : rstr) : redis (option rstr) := command (fun s => (s, hs_index s !! digest)).
Definition hdel_token (id : rstr) : redis Z :=
  command (fun s => (set_tokens (delete id (hs_tokens s)) s, count (hs_tokens s) id)).
Definition hdel_index (digest : rstr) : redis Z :=
  command (fun s => (set_index (delete digest (hs_index s)) s, count (hs_index s) digest)).
(** The order of the values is that of the server. *)
Definition hvals_tokens : redis (list rstr) := command (fun s => (s, snd <$> map_to_list (hs_tokens s))).

(** ** The store *)

Section store.
Context {DL : DigestLib} {TC : TokenCodec}.

Definition hash_token (token : rstr) : rstr := to_hex_bytes (sha256 token).
Definition to_json (r : AdminTokenRecord) : redis rstr :=
  match encode_token r with Some p => rret p | None => rfail JsonError end.
Definition from_json (p : rstr) : redis AdminTokenRecord :=
  match decode_token p with Some r => rret r | None => rfail JsonError end.

(** The identifiers are fresh ones of the [uuid] crate. *)
Record uuids := { uu_id : rstr; uu_first : rstr; uu_second : rstr }.
Definition raw_token (u : uuids) : rstr := lit "pxxl_" ++ uu_first u ++ lit "_" ++ uu_second u.
Definition new_record (u : uuids) (name : rstr) (scopes : list rstr) (now : Z) : AdminTokenRecord := {|
  tr_id := uu_id u; tr_name := name; tr_token_hash := hash_token (raw_token u);
  tr_scopes := store_normalize_scopes scopes; tr_created_at_unix_ms := now; tr_last_used_unix_ms := None; tr_enabled := true |}.
Definition create_token_with_scopes (u : uuids) (name : rstr) (scopes : list rstr) (now : Z) : redis CreatedAdminToken :=
  let record := new_record u name scopes now in
  do* connect in
  let* payload := to_json record in
  do* hset_token (uu_id u) payload in
  do* hset_index (tr_token_hash record) (tr_id record) in
  rret {| ct_record := view_of record; ct_token := raw_token u |}.

(** [collect::<Result<Vec<_>, _>>()?] *)
Definition views_of_values (values : list rstr) : redis (list AdminTokenView) :=
  match collect_results (fun p => match decode_token p with Some r => Ok (view_of r) | None => Err JsonError end) values with
  | Ok l => rret l
  | Err e => rfail e
  end.
(** [left.name.cmp(&right.name).then(left.id.cmp(&right.id))] *)
Definition view_le (a b : AdminTokenView) : Prop :=
  if tv_name a =s? tv_name b then str_le (tv_id a) (tv_id b) else str_le (tv_name a) (tv_name b).
#[export] Instance view_le_dec : RelDecision view_le.
Proof. intros a b. unfold view_le. destruct (_ =s? _); apply _. Defined.
Definition list_tokens : redis (list AdminTokenView) :=
  do* connect in
  let* values := hvals_tokens in
  let* records := views_of_values values in
  rret (merge_sort view_le records).

Definition revoke_token (id : rstr) : redis bool :=
  do* connect in
  let* existing := hget_token id in
  do* (match existing with
       | Some existing => let* record := from_json existing in do* hdel_index (tr_token_hash record) in rret tt
       | None => rret tt
       end) in
  let* removed := hdel_token id in
  rret (0 <? removed).

Fixpoint revoke_loop (name : rstr) (values : list rstr) (removed : Z) : redis Z :=
  match values with
  | [] => rret removed
  | value :: rest =>
    let* record := from_json value in
    if negb (tr_name record =s? name) then revoke_loop name rest removed
    else
      do* hdel_index (tr_token_hash record) in
      let* deleted := hdel_token (tr_id record) in
      revoke_loop name rest (removed + deleted)
  end.
Definition revoke_tokens_by_name (name : rstr) : redis Z :=
  do* connect in
  let* values := hvals_tokens in
  revoke_loop name values 0.

Definition touched (r : AdminTokenRecord) (now : Z) : AdminTokenRecord := {|
  tr_id := tr_id r; tr_name := tr_name r; tr_token_hash := tr_token_hash r; tr_scopes := tr_scopes r;
  tr_created_at_unix_ms := tr_created_at_unix_ms r; tr_last_used_unix_ms := Some now; tr_enabled := tr_enabled r |}.
Definition verify_token (token : rstr) (now : Z) : redis (option AdminTokenView) :=
  let token_hash := hash_token token in
  do* connect in
  let* id := hget_index token_hash in
  match id with
  | None => rret None
  | Some id =>
    let* value := hget_token id in
    match value with
    | None => do* hdel_index token_hash in rret None
    | Some value =>
      let* record := from_json value in
      if tr_enabled record && constant_time_str_eq (tr_token_hash record) token_hash then
        let record := touched record now in
        let* payload := to_json record in
        do* hset_token (tr_id record) payload in
        rret (Some (view_of record))
      else rret None
    end
  end.
End store.

(** ** The abstract store *)

(** A finite map from identifiers to records, and what each operation does to it. *)
Inductive token_op :=
| OpCreate (u : uuids) (name : rstr) (scopes : list rstr) (now : Z)
| OpList
| OpRevoke (id : rstr)
| OpRevokeByName (name : rstr)
| OpVerify (token : rstr) (now : Z).
Inductive token_answer :=
| Created (c : CreatedAdminToken)
| Listed (l : list AdminTokenView)
| Revoked (deleted : bool)
| RevokedCount (n : Z)
| Verified (o : option AdminTokenView).

Section refinement.
Context {DL : DigestLib} {TC : TokenCodec} {CLaws : TokenCodecLaws TC}.

Definition answer {A} (f : A -> token_answer) (m : redis A) : redis token_answer := let* a := m in rret (f a).
Definition run_op (op : token_op) : redis token_answer :=
  match op with
  | OpCreate u name scopes now => answer Created (create_token_with_scopes u name scopes now)
  | OpList => answer Listed list_tokens
  | OpRevoke id => answer Revoked (revoke_token id)
  | OpRevokeByName name => answer RevokedCount (revoke_tokens_by_name name)
  | OpVerify token now => answer Verified (verify_token token now)
  end.

Definition owns (r : AdminTokenRecord) (token : rstr) : Prop := tr_enabled r = true /\ tr_token_hash r = hash_token token.
Inductive spec_step (m : gmap rstr AdminTokenRecord) : token_op -> gmap rstr AdminTokenRecord -> token_answer -> Prop :=
| spec_create u name scopes now :
    spec_step m (OpCreate u name scopes now) (<[uu_id u := new_record u name scopes now]> m)
      (Created {| ct_record := view_of (new_record u name scopes now); ct_token := raw_token u |})
| spec_list l :
    l ≡ₚ (view_of ∘ snd <$> map_to_list m) -> StronglySorted view_le l -> spec_step m OpList m (Listed l)
| spec_revoke id :
    spec_step m (OpRevoke id) (delete id m) (Revoked (bool_decide (is_Some (m !! id))))
| spec_revoke_name name :
    spec_step m (OpRevokeByName name) (filter (fun kr => tr_name (snd kr) <> name) m)
      (RevokedCount (Z.of_nat (length (filter (fun kr => tr_name (snd kr) = name) (map_to_list m)))))
| spec_verify_some token now id r :
    m !! id = Some r -> owns r token ->
    spec_step m (OpVerify token now) (<[id := touched r now]> m) (Verified (Some (view_of (touched r now))))
| spec_verify_none token now :
    (forall id r, m !! id = Some r -> ~ owns r token) -> spec_step m (OpVerify token now) m (Verified None).

(** The identifiers of a creation are new: no record has the identifier, and none
    the digest of the token. *)
Definition fresh_op (m : gmap rstr AdminTokenRecord) (op : token_op) : Prop :=
  match op with
  | OpCreate u _ _ _ => m !! uu_id u = None /\ forall id r, m !! id = Some r -> tr_token_hash r <> hash_token (raw_token u)
  | _ => True
  end.

(** ** Refinement *)

Definition abs (s : Hashes) : gmap rstr AdminTokenRecord := omap decode_token (hs_tokens s).
Record store_ok (s : Hashes) : Prop := {
  so_decodes : forall id p, hs_tokens s !! id = Some p -> exists r, decode_token p = Some r /\ tr_id r = id;
  so_indexed : forall id r, abs s !! id = Some r -> hs_index s !! tr_token_hash r = Some id;
}.

Lemma abs_lookup s id : abs s !! id = hs_tokens s !! id ≫= decode_token.
Proof. apply lookup_omap. Qed.
Lemma abs_insert s id p r : decode_token p = Some r -> abs (set_tokens (<[id := p]> (hs_tokens s)) s) = <[id := r]> (abs s).
Proof. intros H. unfold abs. cbn. by rewrite omap_insert_Some with (y := r). Qed.
Lemma abs_delete s id : abs (set_tokens (delete id (hs_tokens s)) s) = delete id (abs s).
Proof. unfold abs. cbn. apply omap_delete. Qed.
Lemma abs_id s id r : store_ok s -> abs s !! id = Some r -> tr_id r = id.
Proof.
  intros Hs. rewrite abs_lookup. destruct (hs_tokens s !! id) as [p|] eqn:E; [|done]. cbn. intros Hr.
  destruct (so_decodes s Hs _ _ E) as (r' & ? & ?). congruence.
Qed.
(** Two records never have the same digest. *)
Lemma abs_hash_inj s id1 id2 r1 r2 : store_ok s -> abs s !! id1 = Some r1 -> abs s !! id2 = Some r2 ->
  tr_token_hash r1 = tr_token_hash r2 -> id1 = id2.
Proof. intros Hs H1 H2 E. apply (so_indexed s Hs) in H1, H2. congruence. Qed.

Lemma store_ok_touch s id r now p : store_ok s -> abs s !! id = Some r -> encode_token (touched r now) = Some p ->
  store_ok (set_tokens (<[id := p]> (hs_tokens s)) s).
Proof using CLaws.
  intros Hs Hr Hp. assert (decode_token p = Some (touched r now)) as Hd by by apply decode_encode_token. split.
  - intros id' p'. cbn. destruct (decide (id' = id)) as [->|Hne].
    + rewrite lookup_insert_eq. intros [= <-]. exists (touched r now). split; [done|]. cbn. by apply (abs_id s).
    + rewrite lookup_insert_ne by done. apply Hs.
  - intros id' r'. rewrite (abs_insert _ _ _ _ Hd). cbn. destruct (decide (id' = id)) as [->|Hne].
    + rewrite lookup_insert_eq. intros [= <-]. by apply (so_indexed s Hs id r).
    + rewrite lookup_insert_ne by done. apply Hs.
Qed.
(** Deleting the record and the entry of its digest. *)
Lemma store_ok_delete s id r : store_ok s -> abs s !! id = Some r ->
  store_ok {| hs_tokens := delete id (hs_tokens s); hs_index := delete (tr_token_hash r) (hs_index s) |}.
Proof.
  intros Hs Hr. split.
  - intros id' p. cbn. intros [_ ?]%lookup_delete_Some. by apply Hs.
  - intros id' r'. change (abs _) with (abs (set_tokens (delete id (hs_tokens s)) s)). rewrite abs_delete. cbn.
    intros [Hne Hr']%lookup_delete_Some. rewrite lookup_delete_ne by (intros E; apply Hne; by eapply (abs_hash_inj s)).
    by apply Hs.
Qed.
Lemma store_ok_index_drop s digest : store_ok s -> (forall id r, abs s !! id = Some r -> tr_token_hash r <> digest) ->
  store_ok (set_index (delete digest (hs_index s)) s).
Proof.
  intros Hs Hd. split; [apply Hs|]. intros id r Hr. cbn. rewrite lookup_delete_ne by (intros E; by apply (Hd id r)). by apply Hs.
Qed.

(** *** The operations, with every command answered *)

Lemma to_json_ok r : exists p, encode_token r = Some p /\ decode_token p = Some r /\ forall st, to_json r st = (st, Ok p).
Proof using CLaws.
  destruct (encode_token r) as [p|] eqn:E; [|by destruct (encode_token_total r)].
  exists p. split; [done|]. split; [by apply decode_encode_token|]. intros st. unfold to_json. by rewrite E.
Qed.

Definition refines (op : token_op) (s : Hashes) : Prop :=
  exists s' a, run_op op (s, []) = ((s', []), Ok a) /\ store_ok s' /\ spec_step (abs s) op (abs s') a.

Lemma create_refines u name scopes now s :
  store_ok s -> fresh_op (abs s) (OpCreate u name scopes now) -> refines (OpCreate u name scopes now) s.
Proof using CLaws.
  intros Hs [Hid Hhash]. destruct (to_json_ok (new_record u name scopes now)) as (p & Hp & Hd & Hj).
  eexists _, _. split; [|split].
  - unfold run_op, answer, create_token_with_scopes, rbind, connect, command, run_command. cbn [tail fst snd].
    rewrite Hj. cbn. reflexivity.
  - split.
    + intros id q. cbn. destruct (decide (id = uu_id u)) as [->|Hne].
      * rewrite lookup_insert_eq. intros [= <-]. by eexists.
      * rewrite lookup_insert_ne by done. apply Hs.
    + intros id r. change (abs _) with (abs (set_tokens (<[uu_id u := p]> (hs_tokens s)) s)).
      rewrite (abs_insert _ _ _ _ Hd). cbn [hs_index set_index]. destruct (decide (id = uu_id u)) as [->|Hne].
      * rewrite lookup_insert_eq. intros [= <-]. by rewrite lookup_insert_eq.
      * rewrite lookup_insert_ne by done. intros Hr. rewrite lookup_insert_ne by (intros E; by apply (Hhash id r)). by apply Hs.
  - change (abs _) with (abs (set_tokens (<[uu_id u := p]> (hs_tokens s)) s)) at 2.
    rewrite (abs_insert _ _ _ _ Hd). constructor.
Qed.

Lemma verify_refines token now s : store_ok s -> refines (OpVerify token now) s.
Proof using CLaws.
  intros Hs. unfold refines, run_op, answer, verify_token, rbind, connect, hget_index, hget_token, command, run_command. cbn [tail fst snd].
  destruct (hs_index s !! hash_token token) as [id|] eqn:Ei.
  - cbn. destruct (hs_tokens s !! id) as [p|] eqn:Et; cbn.
    + destruct (so_decodes s Hs _ _ Et) as (r & Hr & Hrid).
      assert (abs s !! id = Some r) as Ha by (rewrite abs_lookup, Et; done).
      unfold from_json. rewrite Hr. cbn [rret]. destruct (tr_enabled r && constant_time_str_eq _ _) eqn:E.
      * apply andb_true_iff in E as [Hen Hh%constant_time_str_eq_spec].
        destruct (to_json_ok (touched r now)) as (q & Hq & Hd & Hj). rewrite Hj. cbn. rewrite Hrid.
        eexists _, _. split; [done|]. split; [by eapply store_ok_touch|]. rewrite (abs_insert _ _ _ _ Hd).
        by econstructor.
      * eexists s, _. split; [done|]. split; [done|]. constructor. intros id' r' Hr' [Hen Hh].
        assert (id' = id) as -> by (apply (so_indexed s Hs) in Hr'; congruence).
        assert (r' = r) as -> by congruence. rewrite Hen, (proj2 (constant_time_str_eq_spec _ _) Hh) in E. done.
    + assert (forall id' r', abs s !! id' = Some r' -> tr_token_hash r' <> hash_token token) as Hno.
      { intros id' r' Hr' E. pose proof (so_indexed s Hs _ _ Hr') as Hi. rewrite E, Ei in Hi. injection Hi as <-.
        by rewrite abs_lookup, Et in Hr'. }
      eexists _, _. split; [done|]. split; [by apply store_ok_index_drop|].
      change (abs (set_index _ s)) with (abs s). constructor. intros id' r' Hr' [_ Hh]. by eapply Hno.
  - cbn. eexists s, _. split; [done|]. split; [done|]. constructor. intros id r Hr [_ Hh].
    apply (so_indexed s Hs) in Hr. congruence.
Qed.

Lemma revoke_refines id s : store_ok s -> refines (OpRevoke id) s.
Proof.
  intros Hs. unfold refines, run_op, answer, revoke_token, rbind, connect, hget_token, command, run_command. cbn [tail fst snd].
  destruct (hs_tokens s !! id) as [p|] eqn:Et; cbn.
  - destruct (so_decodes s Hs _ _ Et) as (r & Hr & Hrid). unfold from_json. rewrite Hr. cbn. unfold count. cbn. rewrite Et.
    assert (abs s !! id = Some r) as Ha by (rewrite abs_lookup, Et; done).
    eexists _, _. split; [done|]. split; [by apply store_ok_delete|].
    change (abs _) with (abs (set_tokens (delete id (hs_tokens s)) s)) at 2. rewrite abs_delete.
    replace (0 <? 1) with (bool_decide (is_Some (abs s !! id))) by (by rewrite Ha). constructor.
  - unfold count. rewrite Et. assert (abs s !! id = None) as Ha by (rewrite abs_lookup, Et; done).
    eexists _, _. split; [done|]. rewrite delete_id by done.
    assert (set_tokens (hs_tokens s) s = s) as -> by (by destruct s). split; [done|].
    pose proof (spec_revoke (abs s) id) as H. rewrite delete_id, Ha in H by done. exact H.
Qed.

(** *** Listing and revoking by name *)

#[local] Instance view_le_trans : Transitive view_le.
Proof.
  intros a b c. unfold view_le.
  destruct (tv_name a =s? tv_name b) eqn:E1, (tv_name b =s? tv_name c) eqn:E2, (tv_name a =s? tv_name c) eqn:E3;
    rewrite ?seqb_true, ?seqb_false in *; try congruence; intros H1 H2.
  - by transitivity (tv_id b).
  - exfalso. rewrite <- E3 in H2. apply E1. by apply (anti_symm str_le).
  - by transitivity (tv_name b).
Qed.
#[local] Instance view_le_total : Total view_le.
Proof.
  intros a b. unfold view_le. destruct (tv_name a =s? tv_name b) eqn:E1, (tv_name b =s? tv_name a) eqn:E2;
    rewrite ?seqb_true, ?seqb_false in *; try congruence; apply (total str_le).
Qed.

Definition blank_record : AdminTokenRecord := {|
  tr_id := []; tr_name := []; tr_token_hash := []; tr_scopes := []; tr_created_at_unix_ms := 0; tr_last_used_unix_ms := None;
  tr_enabled := false |}.
Definition decoded (p : rstr) : AdminTokenRecord := default blank_record (decode_token p).
Lemma abs_decoded s : store_ok s -> abs s = decoded <$> hs_tokens s.
Proof.
  intros Hs. apply map_eq. intros id. rewrite abs_lookup, lookup_fmap. destruct (hs_tokens s !! id) as [p|] eqn:E; [|done].
  destruct (so_decodes s Hs _ _ E) as (r & Hr & _). cbn. unfold decoded. by rewrite Hr.
Qed.
Lemma decode_decoded s id p : store_ok s -> hs_tokens s !! id = Some p -> decode_token p = Some (decoded p) /\ tr_id (decoded p) = id.
Proof. intros Hs E. destruct (so_decodes s Hs _ _ E) as (r & Hr & <-). unfold decoded. by rewrite Hr. Qed.
Lemma abs_to_list s : store_ok s -> map_to_list (abs s) ≡ₚ prod_map id decoded <$> map_to_list (hs_tokens s).
Proof. intros Hs. by rewrite abs_decoded, map_to_list_fmap. Qed.

Lemma views_ok l : (forall p, p ∈ l -> decode_token p = Some (decoded p)) ->
  forall st, views_of_values l st = (st, Ok (view_of ∘ decoded <$> l)).
Proof.
  intros Hl st. unfold views_of_values.
  assert (collect_results (fun p => match decode_token p with Some r => Ok (view_of r) | None => Err JsonError end) l
          = Ok (view_of ∘ decoded <$> l)) as ->; [|done].
  induction l as [|p l IH]; [done|]. cbn. rewrite (Hl p) by (by left). rewrite IH; [done|]. intros q Hq. apply Hl. by right.
Qed.
Lemma list_refines s : store_ok s -> refines OpList s.
Proof.
  intros Hs. unfold refines, run_op, answer, list_tokens, rbind, connect, hvals_tokens, command, run_command. cbn [tail fst snd].
  rewrite views_ok.
  - eexists _, _. split; [done|]. split; [done|]. constructor.
    + rewrite merge_sort_Permutation. rewrite (abs_to_list s Hs), <- !list_fmap_compose. done.
    + apply (StronglySorted_merge_sort _).
  - intros p ([id q] & -> & Hq%elem_of_map_to_list)%list_elem_of_fmap. by apply (decode_decoded s id).
Qed.

Lemma length_filter_map {A B} (P : B -> Prop) `{!forall x, Decision (P x)} (f : A -> B) l :
  length (filter P (f <$> l)) = length (filter (fun x => P (f x)) l).
Proof.
  induction l as [|x l IH]; [done|]. rewrite fmap_cons.
  destruct (decide (P (f x))); [rewrite !filter_cons_True by done|rewrite !filter_cons_False by done]; cbn; by rewrite ?IH.
Qed.

Definition named (name : rstr) (l : list (rstr * rstr)) : list (rstr * rstr) := filter (fun kp => tr_name (decoded (snd kp)) = name) l.
#[local] Arguments named : simpl never.
Lemma revoke_loop_ok name l : forall s n,
  store_ok s -> NoDup (fst <$> l) -> (forall id p, (id, p) ∈ l -> hs_tokens s !! id = Some p) ->
  exists s', revoke_loop name (snd <$> l) n (s, []) = ((s', []), Ok (n + Z.of_nat (length (named name l)))) /\ store_ok s' /\
    forall id, hs_tokens s' !! id = if bool_decide (id ∈ fst <$> named name l) then None else hs_tokens s !! id.
Proof.
  induction l as [|[id p] l IH]; intros s n Hs Hnd Hl.
  { exists s. cbn. rewrite Z.add_0_r. split; [done|]. split; [done|]. intros id. by rewrite bool_decide_eq_false_2 by set_solver. }
  cbn [fmap list_fmap fst snd] in *. apply NoDup_cons in Hnd as [Hid Hnd].
  assert (hs_tokens s !! id = Some p) as Ht by (apply Hl; by left).
  destruct (decode_decoded s id p Hs Ht) as [Hd Hdid]. cbn [revoke_loop]. unfold rbind at 1, from_json. rewrite Hd. cbn [rret].
  destruct (tr_name (decoded p) =s? name) eqn:E.
  - apply seqb_true in E. cbn. unfold count. cbn. rewrite Hdid, Ht.
    set (s1 := {| hs_tokens := delete id (hs_tokens s); hs_index := delete (tr_token_hash (decoded p)) (hs_index s) |}).
    assert (store_ok s1) as Hs1 by (apply store_ok_delete; [done|]; by rewrite abs_lookup, Ht).
    destruct (IH s1 (n + 1) Hs1 Hnd) as (s' & Hrun & Hs' & Hlook).
    + intros id' p' Hin. cbn. rewrite lookup_delete_ne; [apply Hl; by right|]. intros <-. apply Hid.
      apply list_elem_of_fmap. by exists (id, p').
    + exists s'. unfold named in *. rewrite filter_cons_True by done. cbn [length fmap list_fmap fst]. split; [|split; [done|]].
      * replace (n + Z.of_nat (S _)) with (n + 1 + Z.of_nat (length (filter (fun kp => tr_name (decoded (snd kp)) = name) l))) by lia.
        exact Hrun.
      * intros id'. rewrite Hlook. cbn. destruct (decide (id' = id)) as [->|Hne].
        -- rewrite lookup_delete_eq. rewrite (bool_decide_eq_true_2 (id ∈ id :: _)) by (by left). by destruct (bool_decide _).
        -- rewrite lookup_delete_ne by done.
           by rewrite (bool_decide_ext (id' ∈ id :: _) (id' ∈ fst <$> filter (fun kp => tr_name (decoded (snd kp)) = name) l)) by set_solver.
  - apply seqb_false in E. cbn [negb]. destruct (IH s n Hs Hnd) as (s' & Hrun & Hs' & Hlook); [intros id' p' ?; apply Hl; by right|].
    exists s'. unfold named. rewrite filter_cons_False by done. done.
Qed.
Lemma revoke_name_refines name s : store_ok s -> refines (OpRevokeByName name) s.
Proof.
  intros Hs. destruct (revoke_loop_ok name (map_to_list (hs_tokens s)) s 0 Hs) as (s' & Hrun & Hs' & Hlook).
  - apply NoDup_fst_map_to_list.
  - intros id p. apply elem_of_map_to_list.
  - unfold refines, run_op, answer, revoke_tokens_by_name, rbind, connect, hvals_tokens, command, run_command. cbn [tail fst snd].
    rewrite Hrun. eexists s', _. split; [done|]. split; [done|].
    replace (abs s') with (filter (fun kr : rstr * AdminTokenRecord => tr_name (snd kr) <> name) (abs s)).
    + replace (0 + _) with (Z.of_nat (length (filter (fun kr : rstr * AdminTokenRecord => tr_name (snd kr) = name) (map_to_list (abs s)))));
        [constructor|].
      rewrite (abs_to_list s Hs), length_filter_map. done.
    + apply map_eq. intros id. rewrite (abs_lookup s'), Hlook. rewrite map_lookup_filter, abs_lookup.
      destruct (hs_tokens s !! id) as [p|] eqn:Ht; cbn.
      * destruct (decode_decoded s id p Hs Ht) as [Hd _]. rewrite Hd. cbn.
        destruct (decide (tr_name (decoded p) = name)) as [Hn|Hn].
        -- rewrite bool_decide_eq_true_2; [by rewrite option_guard_False by tauto|].
           apply list_elem_of_fmap. exists (id, p). split; [done|]. apply list_elem_of_filter. by rewrite elem_of_map_to_list.
        -- rewrite bool_decide_eq_false_2; [by rewrite option_guard_True by done; cbn; rewrite Hd|].
           intros ([id' p'] & -> & [Hn' Hin%elem_of_map_to_list]%list_elem_of_filter)%list_elem_of_fmap. cbn in *. congruence.
      * by destruct (bool_decide _).
Qed.

(** C7: As long as Redis answers every command, the token store refines a finite map
    from identifiers to records.  From a consistent store, with identifiers that are
    new where a token is created, and with no command that fails or loses its reply,
    an operation ends without an error in a consistent store, and its answer and
    effect are those of the map (what a failing command leaves behind, a creation that
    stops half way for one, is not part of this claim): creation adds the record; listing gives exactly the
    records, sorted; revocation by identifier or by name removes exactly those; and
    a token is accepted exactly when an enabled record has its digest, in which case
    only the time of its last use changes. *)
Theorem token_store_refines op s :
  store_ok s -> fresh_op (abs s) op ->
  exists s' a, run_op op (s, []) = ((s', []), Ok a) /\ store_ok s' /\ spec_step (abs s) op (abs s') a.
Proof using CLaws.
  intros Hs Hf. destruct op; [by apply create_refines|by apply list_refines|by apply revoke_refines|
    by apply revoke_name_refines|by apply verify_refines].
Qed.

(** *** Revocation under failing commands *)

(** The identifier is gone, and records stand under their own identifier. *)
Definition gone (id : rstr) (s : Hashes) : Prop :=
  hs_tokens s !! id = None /\
  forall k p, hs_tokens s !! k = Some p -> exists r, decode_token p = Some r /\ tr_id r = k.
Definition creates (op : token_op) (id : rstr) : Prop := match op with OpCreate u _ _ _ => uu_id u = id | _ => False end.
Definition verified_as (id : rstr) (a : token_answer) : Prop := match a with Verified (Some v) => tv_id v = id | _ => False end.

Section gone.
Context (id : rstr).
Lemma keeps_connect : keeps (gone id) connect (fun _ => True).
Proof. by apply keeps_command. Qed.
Lemma keeps_hvals : keeps (gone id) hvals_tokens (fun _ => True).
Proof. by apply keeps_command. Qed.
Lemma keeps_hdel_token k : keeps (gone id) (hdel_token k) (fun _ => True).
Proof.
  apply keeps_command. intros s [H1 H2]. split; [|done]. split; cbn.
  - apply lookup_delete_None. by right.
  - intros k' p [_ ?]%lookup_delete_Some. by apply H2.
Qed.
Lemma keeps_hdel_index d : keeps (gone id) (hdel_index d) (fun _ => True).
Proof. by apply keeps_command. Qed.
Lemma keeps_hset_index d k : keeps (gone id) (hset_index d k) (fun _ => True).
Proof. by apply keeps_command. Qed.
Lemma keeps_hget_index d : keeps (gone id) (hget_index d) (fun _ => True).
Proof. by apply keeps_command. Qed.
Lemma keeps_hget_token k :
  keeps (gone id) (hget_token k) (fun o => forall p, o = Some p -> k <> id /\ exists r, decode_token p = Some r /\ tr_id r = k).
Proof.
  apply keeps_command. intros s HJ. split; [done|]. cbn. intros p Hp. destruct HJ as [H1 H2]. split; [congruence|by apply H2].
Qed.
Lemma keeps_hset_token k p r : k <> id -> decode_token p = Some r -> tr_id r = k -> keeps (gone id) (hset_token k p) (fun _ => True).
Proof.
  intros Hk Hd Hr. apply keeps_command. intros s [H1 H2]. split; [|done]. split; cbn.
  - by rewrite lookup_insert_ne.
  - intros k' p'. destruct (decide (k' = k)) as [->|Hne]; [rewrite lookup_insert_eq; intros [= <-]; eauto|].
    rewrite lookup_insert_ne by done. apply H2.
Qed.
Lemma keeps_to_json r : keeps (gone id) (to_json r) (fun p => decode_token p = Some r).
Proof using CLaws. destruct (to_json_ok r) as (p & _ & Hd & Hj). intros st HJ. rewrite Hj. split; [done|]. by intros ? [= <-]. Qed.
Lemma keeps_from_json p : keeps (gone id) (from_json p) (fun r => decode_token p = Some r).
Proof. unfold from_json. destruct (decode_token p); [by apply keeps_ret|apply keeps_fail]. Qed.
Hint Resolve keeps_connect keeps_hvals keeps_hdel_token keeps_hdel_index keeps_hset_index keeps_hget_index
  keeps_hget_token keeps_to_json keeps_from_json keeps_fail : core.

Lemma keeps_revoke_loop name l : forall n, keeps (gone id) (revoke_loop name l n) (fun _ => True).
Proof.
  induction l as [|v l IH]; intros n; cbn [revoke_loop]; [by apply keeps_ret|].
  eapply keeps_bind; [done|]. intros r _. destruct (negb _); [done|].
  eapply keeps_bind; [done|]. intros _ _. by eapply keeps_bind.
Qed.
Lemma keeps_revoke k : keeps (gone id) (revoke_token k) (fun _ => True).
Proof.
  unfold revoke_token. eapply keeps_bind; [done|]. intros _ _. eapply keeps_bind; [done|]. intros existing _.
  eapply (keeps_bind _ _ _ (fun _ => True)).
  - destruct existing as [p|]; [|by apply keeps_ret]. eapply keeps_bind; [done|]. intros r _.
    eapply keeps_bind; [done|]. intros _ _. by apply keeps_ret.
  - intros _ _. eapply keeps_bind; [done|]. intros n _. by apply keeps_ret.
Qed.
Lemma keeps_verify token now : keeps (gone id) (verify_token token now) (fun o => forall v, o = Some v -> tv_id v <> id).
Proof using CLaws.
  unfold verify_token. eapply keeps_bind; [done|]. intros _ _. eapply keeps_bind; [done|]. intros [k|] _; [|by apply keeps_ret].
  eapply keeps_bind; [done|]. intros [p|] Hp; cbv beta in Hp.
  - destruct (Hp p eq_refl) as [Hk (r & Hd & Hr)]. eapply keeps_bind; [done|]. intros r' Hd'. assert (r' = r) as -> by congruence.
    destruct (_ && _); [|by apply keeps_ret]. eapply keeps_bind; [done|]. intros q Hq. cbv beta in Hq.
    eapply keeps_bind; [eapply keeps_hset_token; [|exact Hq|done]; cbn; congruence|]. intros _ _. apply keeps_ret.
    intros v [= <-]. cbn. congruence.
  - eapply keeps_bind; [done|]. intros _ _. by apply keeps_ret.
Qed.
Lemma keeps_op op : ~ creates op id -> keeps (gone id) (run_op op) (fun a => ~ verified_as id a).
Proof using CLaws.
  intros Hc. destruct op as [u name scopes now| |k|name|token now]; unfold run_op, answer.
  - eapply keeps_bind with (P := fun _ => True); [|intros a _; apply keeps_ret; exact (fun H => H)]. unfold create_token_with_scopes.
    eapply keeps_bind; [done|]. intros _ _. eapply keeps_bind; [done|]. intros p Hp.
    eapply keeps_bind; [eapply keeps_hset_token; [exact Hc|exact Hp|done]|]. intros _ _. eapply keeps_bind; [done|]. intros _ _. by apply keeps_ret.
  - eapply keeps_bind with (P := fun _ => True); [|intros a _; apply keeps_ret; exact (fun H => H)]. unfold list_tokens.
    eapply keeps_bind; [done|]. intros _ _. eapply keeps_bind; [done|]. intros l _.
    eapply keeps_bind with (P := fun _ => True); [|intros a _; by apply keeps_ret].
    unfold views_of_values. destruct (collect_results _ l); [by apply keeps_ret|done].
  - eapply keeps_bind; [apply keeps_revoke|]. intros a _. apply keeps_ret. exact (fun H => H).
  - eapply keeps_bind with (P := fun _ => True); [|intros a _; apply keeps_ret; exact (fun H => H)]. unfold revoke_tokens_by_name.
    eapply keeps_bind; [done|]. intros _ _. eapply keeps_bind; [done|]. intros l _. apply keeps_revoke_loop.
  - eapply keeps_bind; [apply keeps_verify|]. intros [v|] Hv; apply keeps_ret; [by apply Hv|exact (fun H => H)].
Qed.
End gone.

(** Operations in a row, each with what becomes of its commands. *)
Fixpoint run_ops (ops : list (token_op * list reply)) (s : Hashes) : Hashes * list (result StoreError token_answer) :=
  match ops with
  | [] => (s, [])
  | (op, replies) :: rest =>
    let '((s, _), a) := run_op op (s, replies) in
    let '(s, answers) := run_ops rest s in (s, a :: answers)
  end.

Lemma revoke_gone id s replies st b :
  (forall k p, hs_tokens s !! k = Some p -> exists r, decode_token p = Some r /\ tr_id r = k) ->
  revoke_token id (s, replies) = (st, Ok b) -> gone id (fst st).
Proof.
  intros Hs. unfold revoke_token, rbind at 1. destruct (connect (s, replies)) as [[s1 rs1] [[]|]] eqn:E1; [|done].
  assert (hs_tokens s1 = hs_tokens s) as H1 by (unfold connect, command, run_command in E1; destruct replies as [|[] ?]; by injection E1 as <-).
  unfold rbind at 1. destruct (hget_token id (s1, rs1)) as [[s2 rs2] [existing|]] eqn:E2; [|done].
  assert (hs_tokens s2 = hs_tokens s1) as H2 by (unfold hget_token, command, run_command in E2; destruct rs1 as [|[] ?]; by injection E2 as <-).
  unfold rbind at 1. set (drop := match existing with Some _ => _ | None => _ end).
  destruct (drop (s2, rs2)) as [[s3 rs3] [[]|]] eqn:E3; [|done].
  assert (hs_tokens s3 = hs_tokens s2) as H3.
  { unfold drop in E3. destruct existing as [p|]; [|by injection E3 as <-]. unfold from_json, rbind in E3.
    destruct (decode_token p) as [r|]; [|done]. cbn in E3. unfold hdel_index, command, run_command in E3.
    destruct rs2 as [|[] ?]; try done; by injection E3 as <-. }
  unfold rbind, hdel_token, command, run_command. rewrite H1 in H2. rewrite H2 in H3.
  destruct rs3 as [|[] ?]; try done; intros [= <- _]; (split; cbn; rewrite H3; [by rewrite lookup_delete_eq|]);
    intros k p [_ ?]%lookup_delete_Some; by apply Hs.
Qed.

(** A revoked token stays revoked.  Once the revocation of an identifier was
    answered, no later sequence of operations that does not create the identifier
    anew (and identifiers are fresh UUIDs) ever accepts a token of it, whatever
    commands and replies are lost on the way, before, during or after the
    revocation. *)
Theorem revoked_stays_revoked id s replies st b ops :
  (forall k p, hs_tokens s !! k = Some p -> exists r, decode_token p = Some r /\ tr_id r = k) ->
  revoke_token id (s, replies) = (st, Ok b) ->
  (forall op rs, (op, rs) ∈ ops -> ~ creates op id) ->
  forall a, Ok a ∈ snd (run_ops ops (fst st)) -> ~ verified_as id a.
Proof using CLaws.
  intros Hs Hr Hops. apply revoke_gone in Hr; [|done]. revert Hr. generalize (fst st). clear st s Hs.
  induction ops as [|[op rs] ops IH]; intros s Hg a; cbn [run_ops]; [by intros ?%elem_of_nil|].
  destruct (keeps_op id op (Hops op rs ltac:(by left)) (s, rs) Hg) as [H1 H2].
  destruct (run_op op (s, rs)) as [[s1 rs1] a1]. cbn [fst snd] in *.
  specialize (IH ltac:(intros ? ? ?; eapply Hops; by right) s1 H1). destruct (run_ops ops s1) as [s2 answers]. cbn [snd].
  intros [Ha|Ha]%elem_of_cons; [by apply H2|by apply IH].
Qed.
End refinement.

(** ** Instances and examples *)

(** Not a digest, but of the right length. *)
Definition SumDigest : DigestLib := {|
  sha256 s := let h := foldl (fun a b => (a * 31 + bz b) mod 2 ^ 64) 7 s in
              map (fun i => byte_of (Z.shiftr h (Z.of_nat i) mod 256)) (seq 0 32) |}.
#[export] Instance SumDigest_laws : DigestLaws SumDigest.
Proof. split. intros s. cbn [sha256 SumDigest]. by rewrite length_map, length_seq. Qed.

(** A text form through a numbering of the records. *)
Definition record_tuple (r : AdminTokenRecord) : rstr * rstr * rstr * list rstr * Z * option Z * bool :=
  (tr_id r, tr_name r, tr_token_hash r, tr_scopes r, tr_created_at_unix_ms r, tr_last_used_unix_ms r, tr_enabled r).
Definition tuple_record (t : rstr * rstr * rstr * list rstr * Z * option Z * bool) : AdminTokenRecord :=
  let '(id, name, digest, scopes, created, used, enabled) := t in
  {| tr_id := id; tr_name := name; tr_token_hash := digest; tr_scopes := scopes; tr_created_at_unix_ms := created;
     tr_last_used_unix_ms := used; tr_enabled := enabled |}.
#[export] Instance AdminTokenRecord_countable : Countable AdminTokenRecord.
Proof. refine (inj_countable' record_tuple tuple_record _). by intros []. Defined.
Definition BitCodec : TokenCodec := {|
  encode_token r := Some (bits_of (encode r));
  decode_token s := decode (of_bits s) |}.
#[export] Instance BitCodec_laws : TokenCodecLaws BitCodec.
Proof. split; [done|]. intros r p [= <-]. cbn. by rewrite of_bits_of, decode_encode. Qed.

Definition no_hashes : Hashes := {| hs_tokens := ∅; hs_index := ∅ |}.
Definition demo_uuids : uuids := {| uu_id := lit "1"; uu_first := lit "a"; uu_second := lit "b" |}.
Lemma no_hashes_ok {TC : TokenCodec} : store_ok no_hashes.
Proof. split; intros id r; [|rewrite abs_lookup]; cbn [hs_tokens no_hashes]; by rewrite lookup_empty. Qed.
Definition demo_store : Hashes :=
  fst (fst (@run_op SumDigest BitCodec (OpCreate demo_uuids (lit "ops") [lit " Routes:Read "; lit "routes:read"] 5) (no_hashes, []))).

Example demo_verified :
  let '(_, a) := @verify_token SumDigest BitCodec (lit "pxxl_a_b") 9 (demo_store, []) in
  match a with Ok (Some v) => (tv_name v, tv_scopes v, tv_last_used_unix_ms v) = (lit "ops", [lit "routes:read"], Some 9) | _ => False end.
Proof. vm_compute. reflexivity. Qed.

(** A stored record without scopes is one of an administrator. *)
Example empty_scopes_are_admin : store_normalize_scopes [lit " "; []] = [lit "admin"].
Proof. reflexivity. Qed.

Lemma token_store_refines_witness :
  exists s' a, @run_op SumDigest BitCodec (OpCreate demo_uuids (lit "ops") [] 5) (no_hashes, []) = ((s', []), Ok a) /\
    @store_ok BitCodec s' /\ @spec_step SumDigest (@abs BitCodec no_hashes) (OpCreate demo_uuids (lit "ops") [] 5) (@abs BitCodec s') a.
Proof.
  apply (@token_store_refines SumDigest BitCodec BitCodec_laws (OpCreate demo_uuids (lit "ops") [] 5) no_hashes).
  - apply no_hashes_ok.
  - split; [|intros id r]; rewrite abs_lookup; cbn [hs_tokens no_hashes]; by rewrite lookup_empty.
Defined.

Lemma demo_store_ok : @store_ok BitCodec demo_store.
Proof.
  destruct (@create_refines SumDigest BitCodec BitCodec_laws demo_uuids (lit "ops") [lit " Routes:Read "; lit "routes:read"] 5
    no_hashes no_hashes_ok) as (s' & a & Hrun & Hok & _).
  - split; [|intros id r]; rewrite abs_lookup; cbn [hs_tokens no_hashes]; by rewrite lookup_empty.
  - unfold demo_store. by rewrite Hrun.
Qed.
(** The reply to the last command is lost: the caller is told of an error, and the
    token is gone all the same. *)
Example revoke_reply_lost :
  let '((s, _), a) := @revoke_token BitCodec (lit "1") (demo_store, [Answered; Answered; Answered; ReplyLost]) in
  (a, snd (@verify_token SumDigest BitCodec (lit "pxxl_a_b") 9 (s, []))) = (Err RedisError, Ok None).
Proof. vm_compute. reflexivity. Qed.

Definition demo_revoked : (Hashes * list reply) * result StoreError bool := @revoke_token BitCodec (lit "1") (demo_store, []).
Definition demo_after : list (token_op * list reply) := [(OpVerify (lit "pxxl_a_b") 9, []); (OpList, [NotSent])].
Lemma revoked_stays_revoked_witness :
  snd demo_revoked = Ok true /\
  (Ok (Verified None) ∈ snd (@run_ops SumDigest BitCodec demo_after (fst (fst demo_revoked))) -> ~ verified_as (lit "1") (Verified None)).
Proof.
  assert (snd demo_revoked = Ok true) as E by (vm_compute; reflexivity). split; [exact E|].
  apply (@revoked_stays_revoked SumDigest BitCodec BitCodec_laws (lit "1") demo_store [] (fst demo_revoked) true demo_after).
  - apply (so_decodes _ demo_store_ok).
  - fold demo_revoked. rewrite <- E. apply surjective_pairing.
  - assert (Forall (fun x => ~ creates (fst x) (lit "1")) demo_after) as Hall by (repeat constructor; exact (fun H => H)).
    rewrite Forall_forall in Hall. intros op rs Hin. exact (Hall _ Hin).
Defined.
