(* ===== verification/AdminAuth.v ===== *)
(** Authentication of the admin API ([api/src/lib.rs]): scopes, bearer and bootstrap
    tokens, the login account with its PBKDF2 password hash, and the limit on failed
    logins, over the token store of [RedisTokens]. *)
From stdpp Require Import options.
From S2P Require Import Prelude RustStr RustNum RustNet HttpHeaders HttpForward HttpAuth Redis RedisTokens.

Local Open Scope Z_scope.

Definition ADMIN_BODY_LIMIT_BYTES : Z := 1024 * 1024.
Definition ADMIN_TOKEN_NAME_MAX_BYTES : Z := 128.
Definition SCOPE_ADMIN : rstr := lit "admin".
Definition SCOPE_ROUTES_READ : rstr := lit "routes:read".
Definition SCOPE_ROUTES_WRITE : rstr := lit "routes:write".
Definition SCOPE_TOKENS_READ : rstr := lit "tokens:read".
Definition SCOPE_TOKENS_WRITE : rstr := lit "tokens:write".
Definition SCOPE_ANALYTICS_READ : rstr := lit "analytics:read".
Definition ADMIN_LOGIN_MAX_ATTEMPTS : Z := 5.
Definition ADMIN_LOGIN_WINDOW : Z := from_secs (10 * 60).

(** ** Scopes *)

Record AdminPrincipal := { ap_scopes : list rstr }.
Definition AdminPrincipal_admin : AdminPrincipal := {| ap_scopes := [SCOPE_ADMIN] |}.
(** [normalize_scopes] of this crate: without the default of the store. *)
Definition normalize_scopes (scopes : list rstr) : list rstr := normalized_scopes scopes.
Definition AdminPrincipal_new (scopes : list rstr) : AdminPrincipal := {| ap_scopes := normalize_scopes scopes |}.
Definition has_scope (p : AdminPrincipal) (scope : rstr) : bool :=
  existsb (fun value => (value =s? SCOPE_ADMIN) || (value =s? scope)) (ap_scopes p).
(** An answer: its status and the text of its error. *)
Definition refusal : Type := Z * rstr.
Definition require_scope (p : AdminPrincipal) (scope : rstr) : option refusal :=
  if has_scope p scope then None else Some (403, lit "missing required scope: " ++ scope).

Definition SUPPORTED_SCOPES : list rstr :=
  [SCOPE_ADMIN; SCOPE_ROUTES_READ; SCOPE_ROUTES_WRITE; SCOPE_TOKENS_READ; SCOPE_TOKENS_WRITE; SCOPE_ANALYTICS_READ].
Definition validate_token_scopes (scopes : list rstr) : result rstr (list rstr) :=
  let scopes := normalize_scopes scopes in
  if is_empty scopes then Err (lit "at least one token scope is required")
  else
    do? for_each (fun scope => if existsb (seq_eqb scope) SUPPORTED_SCOPES then Ok tt
                               else Err (lit "unsupported token scope: " ++ scope)) scopes in
    Ok scopes.

(** ** Passwords *)

Definition is_ascii_control (b : ascii) : bool := (bz b <? 32) || (bz b =? 127).
Definition normalize_login_email (email : rstr) : option rstr :=
  let email := to_ascii_lowercase (trim email) in
  if (str_len email <=? 254) && contains_char (chr "@") email && negb (starts_with (lit "@") email)
     && negb (ends_with (lit "@") email) && negb (existsb is_ascii_control email) && negb (existsb is_ascii_whitespace email)
  then Some email else None.

Definition hex_nibble (b : ascii) : option Z :=
  if in_range 48 57 b then Some (bz b - 48)
  else if in_range 97 102 b then Some (bz b - 97 + 10)
  else if in_range 65 70 b then Some (bz b - 65 + 10)
  else None.
Fixpoint decode_pairs (s : rstr) : result rstr rstr :=
  match s with
  | h :: l :: rest =>
    let? high := ok_or (lit "hex value contains invalid characters") (hex_nibble h) in
    let? low := ok_or (lit "hex value contains invalid characters") (hex_nibble l) in
    let? bytes := decode_pairs rest in
    Ok (byte_of (Z.lor (Z.shiftl high 4) low) :: bytes)
  | _ => Ok []
  end.
Definition decode_hex (value : rstr) : result rstr rstr :=
  if negb (str_len value mod 2 =? 0) then Err (lit "hex value must have an even length") else decode_pairs value.

Definition xor_byte (a b : ascii) : ascii := byte_of (Z.lxor (bz a) (bz b)).
Definition xor_bytes : rstr -> rstr -> rstr := zip_with xor_byte.
Definition be32 (n : Z) : rstr := map (fun k => byte_of (Z.land (Z.shiftr n k) 255)) [24; 16; 8; 0].

Section digest.
Context {DL : DigestLib}.

(** [constant_time_eq] of this crate compares digests. *)
Definition digest_eq (left right : rstr) : bool :=
  foldl (fun acc lr => Z.lor acc (Z.lxor (bz (fst lr)) (bz (snd lr)))) 0 (zip (sha256 left) (sha256 right)) =? 0.

Definition BLOCK_SIZE : nat := 64.
Definition hmac_sha256 (key data : rstr) : rstr :=
  let key := if (BLOCK_SIZE <? length key)%nat then sha256 key else key in
  let normalized_key := key ++ replicate (BLOCK_SIZE - length key) (byte_of 0) in
  let outer := xor_bytes (replicate BLOCK_SIZE (byte_of 92)) normalized_key in
  let inner := xor_bytes (replicate BLOCK_SIZE (byte_of 54)) normalized_key in
  sha256 (outer ++ sha256 (inner ++ data)).

(** [for _ in 1..iterations] *)
Fixpoint pbkdf2_rounds (rounds : nat) (password previous block : rstr) : rstr :=
  match rounds with
  | O => block
  | S rounds' =>
    let previous := hmac_sha256 password previous in
    pbkdf2_rounds rounds' password previous (xor_bytes block previous)
  end.
Definition pbkdf2_block (password salt : rstr) (iterations block_index : Z) : rstr :=
  let previous := hmac_sha256 password (salt ++ be32 block_index) in
  pbkdf2_rounds (Z.to_nat (iterations - 1)) password previous previous.
(** [while output.len() < output_len]: a block is not empty, so at most
    [output_len] rounds. *)
Fixpoint pbkdf2_loop (fuel : nat) (password salt : rstr) (iterations : Z) (output_len : nat) (block_index : Z) (output : rstr) : rstr :=
  match fuel with
  | O => output
  | S fuel' =>
    if (length output <? output_len)%nat
    then pbkdf2_loop fuel' password salt iterations output_len (Z.min (block_index + 1) U32_MAX)
           (output ++ pbkdf2_block password salt iterations block_index)
    else output
  end.
Definition pbkdf2_sha256 (password salt : rstr) (iterations : Z) (output_len : nat) : rstr :=
  take output_len (pbkdf2_loop output_len password salt iterations output_len 1 []).

Record PasswordHashSpec := { ph_iterations : Z; ph_salt : rstr; ph_hash : rstr }.
Definition PasswordHashSpec_parse (encoded : rstr) : result rstr PasswordHashSpec :=
  match split (chr ":") encoded with
  | [scheme; iterations; salt; hash] =>
    if negb (scheme =s? lit "pbkdf2-sha256")
    then Err (lit "admin password hash must use pbkdf2-sha256:<iterations>:<salt>:<hash>")
    else
      let? iterations := ok_or (lit "admin password hash iterations must be a positive integer") (parse_uint U32_MAX iterations) in
      if negb ((10000 <=? iterations) && (iterations <=? 1000000))
      then Err (lit "admin password hash iterations must be between 10000 and 1000000")
      else if (str_len salt <? 16) || negb (forallb is_ascii_hexdigit salt)
      then Err (lit "admin password hash salt must be at least 16 hex characters")
      else
        let? hash := decode_hex hash in
        if negb (str_len hash =? 32) then Err (lit "admin password hash must be a 32-byte SHA-256 derived key")
        else Ok {| ph_iterations := iterations; ph_salt := salt; ph_hash := hash |}
  | _ => Err (lit "admin password hash must use pbkdf2-sha256:<iterations>:<salt>:<hash>")
  end.
Definition PasswordHashSpec_verify (p : PasswordHashSpec) (password : rstr) : bool :=
  digest_eq (pbkdf2_sha256 password (ph_salt p) (ph_iterations p) (length (ph_hash p))) (ph_hash p).

Record AdminLoginAccount := { al_email : rstr; al_password_hash : PasswordHashSpec }.
Definition AdminLoginAccount_new (email password_hash : rstr) : result rstr AdminLoginAccount :=
  let? email := ok_or (lit "admin email must be a valid email-like value") (normalize_login_email email) in
  let? spec := PasswordHashSpec_parse password_hash in
  Ok {| al_email := email; al_password_hash := spec |}.
Definition token_name (a : AdminLoginAccount) : rstr := lit "account:" ++ al_email a.
Definition AdminLoginAccount_verify (a : AdminLoginAccount) (email password : rstr) : bool :=
  match normalize_login_email email with
  | None => false
  | Some email => if negb (digest_eq email (al_email a)) then false else PasswordHashSpec_verify (al_password_hash a) password
  end.
End digest.

(** ** Authorization *)

Section auth.
Context {NL : IpNetLib} {HL : HeaderLib} {DL : DigestLib} {TC : TokenCodec}.

Record AdminApiAuth := {
  au_enabled : bool;
  au_bootstrap_token : option rstr;
  au_bootstrap_token_permanent : bool;
  au_ip_allowlist : list IpNet;
  (** whether a store is configured; its hashes are the state below *)
  au_token_store : bool;
  au_login_account : option AdminLoginAccount;
}.
Definition AdminApiAuth_disabled : AdminApiAuth := {|
  au_enabled := false; au_bootstrap_token := None; au_bootstrap_token_permanent := false; au_ip_allowlist := [];
  au_token_store := false; au_login_account := None |}.

Record AdminRequest := {
  aq_method : rstr;
  aq_path : rstr;
  aq_query : rstr;
  aq_headers : HeaderMap;
  aq_body : list frame;
}.
Definition is_public_admin_path (method path : rstr) : bool :=
  ((method =s? lit "GET") && ((path =s? lit "/healthz") || (path =s? lit "/readyz")))
  || ((method =s? lit "POST") && (path =s? lit "/v1/auth/login")).
Definition bearer_token (h : HeaderMap) : option rstr :=
  match get_str h (lit "authorization") with
  | None => None
  | Some value =>
    match strip_prefix (lit "Bearer ") value with
    | None => None
    | Some token => let token := trim token in if is_empty token then None else Some token
    end
  end.

Definition store_state : Type := Hashes * list reply.
Definition ip_refused (a : AdminApiAuth) (ip : IpAddr) : bool :=
  negb (is_empty (au_ip_allowlist a)) && negb (existsb (fun network => net_contains network ip) (au_ip_allowlist a)).
Definition is_bootstrap (a : AdminApiAuth) (token : rstr) : bool :=
  match au_bootstrap_token a with Some bootstrap => digest_eq bootstrap token | None => false end.
Definition authorize (a : AdminApiAuth) (req : AdminRequest) (remote_ip : IpAddr) (now : Z) (st : store_state)
  : store_state * result refusal AdminPrincipal :=
  if ip_refused a remote_ip then (st, Err (403, lit "admin api ip is not allowed"))
  else if is_public_admin_path (aq_method req) (aq_path req) then (st, Ok AdminPrincipal_admin)
  else if negb (au_enabled a) then (st, Err (503, lit "admin auth is disabled"))
  else
    match bearer_token (aq_headers req) with
    | None => (st, Err (401, lit "missing bearer token"))
    | Some token =>
      if is_bootstrap a token then
        if au_bootstrap_token_permanent a then (st, Ok AdminPrincipal_admin)
        else if negb (au_token_store a) then (st, Err (503, lit "admin token store is not configured"))
        else
          match list_tokens st with
          | (st, Ok tokens) => if is_empty tokens then (st, Ok AdminPrincipal_admin)
                               else (st, Err (401, lit "bootstrap token expired after first admin token"))
          | (st, Err _) => (st, Err (502, lit "authentication backend unavailable"))
          end
      else if au_token_store a then
        match verify_token token now st with
        | (st, Ok (Some view)) => (st, Ok (AdminPrincipal_new (tv_scopes view)))
        | (st, Ok None) => (st, Err (401, lit "invalid bearer token"))
        | (st, Err _) => (st, Err (502, lit "authentication backend unavailable"))
        end
      else (st, Err (503, lit "admin token store is not configured"))
    end.

(** [MetricsAuth::authorize]: the status and text of a refusal. *)
Definition metrics_authorize (expected : option rstr) (h : HeaderMap) : option refusal :=
  match expected with
  | None => None
  | Some expected =>
    match bearer_token h with
    | None => Some (401, lit "missing bearer token")
    | Some token => if digest_eq expected token then None else Some (401, lit "invalid bearer token")
    end
  end.

(** ** Failed logins *)

Record LoginAttemptWindow := { lw_failures : Z; lw_expires_at : Z }.
Abbreviation Attempts := (gmap rstr LoginAttemptWindow).
Definition live_attempts (now : Z) (m : Attempts) : Attempts := filter (fun kw => now < lw_expires_at (snd kw)) m.
Definition login_attempts_exceeded (remote_ip : IpAddr) (now : Z) (m : Attempts) : Attempts * bool :=
  let m := live_attempts now m in
  (m, match m !! ip_to_string remote_ip with
      | Some window => ADMIN_LOGIN_MAX_ATTEMPTS <=? lw_failures window
      | None => false
      end).
Definition record_failed_login_attempt (remote_ip : IpAddr) (now : Z) (m : Attempts) : Attempts :=
  let key := ip_to_string remote_ip in
  let m := live_attempts now m in
  let window := default {| lw_failures := 0; lw_expires_at := now + ADMIN_LOGIN_WINDOW |} (m !! key) in
  let window := if lw_expires_at window <=? now then {| lw_failures := 0; lw_expires_at := now + ADMIN_LOGIN_WINDOW |} else window in
  <[key := {| lw_failures := lw_failures window + 1; lw_expires_at := lw_expires_at window |}]> m.
Definition clear_login_attempts (remote_ip : IpAddr) (m : Attempts) : Attempts := delete (ip_to_string remote_ip) m.

(** ** The handlers of logins and tokens *)

Record LoginBody := { lb_email : rstr; lb_password : rstr }.
Record TokenCreateBody := { tb_name : rstr; tb_scopes : list rstr }.
(** [serde_json::from_slice]: the body, or the text of the error. *)
Context (login_from_slice : rstr -> result rstr LoginBody) (token_from_slice : rstr -> result rstr TokenCreateBody).

Inductive auth_answer :=
| AuthError (r : refusal)
| LoggedIn (account : rstr) (c : CreatedAdminToken)
| TokenCreated (c : CreatedAdminToken)
| TokenList (l : list AdminTokenView)
| TokenDeleted (deleted : bool) (id : rstr).

Definition body_error (e : BufferError) : refusal :=
  match e with TooLarge => (413, lit "request body is too large") | BodyError message => (400, message) end.
(** [collect_admin_body] and [from_slice]. *)
Definition parse_body {A} (from_slice : rstr -> result rstr A) (frames : list frame) : result refusal A :=
  match collect_body_with_limit frames ADMIN_BODY_LIMIT_BYTES with
  | Err e => Err (body_error e)
  | Ok collected => match from_slice collected with Ok body => Ok body | Err message => Err (400, message) end
  end.
(** What the outside gives to one call: clocks, fresh identifiers, the text of a
    store error. *)
Record AuthReadings := {
  rd_check : Z;
  rd_fail : Z;
  rd_unix_ms : Z;
  rd_uuids : uuids;
  rd_store_error : rstr;
}.

Definition login (a : AdminApiAuth) (req : AdminRequest) (remote_ip : IpAddr) (rd : AuthReadings) (m : Attempts) (st : store_state)
  : Attempts * store_state * auth_answer :=
  match au_login_account a with
  | None => (m, st, AuthError (404, lit "initial admin account is not configured"))
  | Some account =>
    if negb (au_token_store a) then (m, st, AuthError (503, lit "admin token store is not configured"))
    else
      let '(m, exceeded) := login_attempts_exceeded remote_ip (rd_check rd) m in
      if exceeded then (m, st, AuthError (429, lit "too many failed login attempts"))
      else
        match parse_body login_from_slice (aq_body req) with
        | Err r => (m, st, AuthError r)
        | Ok body =>
          if negb (AdminLoginAccount_verify account (lb_email body) (lb_password body)) then
            (record_failed_login_attempt remote_ip (rd_fail rd) m, st, AuthError (401, lit "invalid email or password"))
          else
            let m := clear_login_attempts remote_ip m in
            match revoke_tokens_by_name (token_name account) st with
            | (st, Err _) => (m, st, AuthError (502, lit "failed to rotate previous login token: " ++ rd_store_error rd))
            | (st, Ok _) =>
              match create_token_with_scopes (rd_uuids rd) (token_name account) [SCOPE_ADMIN] (rd_unix_ms rd) st with
              | (st, Ok created) => (m, st, LoggedIn (al_email account) created)
              | (st, Err _) => (m, st, AuthError (502, lit "failed to create login token: " ++ rd_store_error rd))
              end
            end
        end
  end.

Definition create_auth_token (a : AdminApiAuth) (req : AdminRequest) (rd : AuthReadings) (st : store_state) : store_state * auth_answer :=
  match parse_body token_from_slice (aq_body req) with
  | Err r => (st, AuthError r)
  | Ok body =>
    if ADMIN_TOKEN_NAME_MAX_BYTES <? str_len (tb_name body) then (st, AuthError (400, lit "token name is too long"))
    else if negb (au_token_store a) then (st, AuthError (503, lit "admin token store is not configured"))
    else
      match validate_token_scopes (tb_scopes body) with
      | Err message => (st, AuthError (400, message))
      | Ok scopes =>
        match create_token_with_scopes (rd_uuids rd) (tb_name body) scopes (rd_unix_ms rd) st with
        | (st, Ok created) => (st, TokenCreated created)
        | (st, Err _) => (st, AuthError (502, lit "failed to create admin token: " ++ rd_store_error rd))
        end
      end
  end.
Definition list_auth_tokens (a : AdminApiAuth) (rd : AuthReadings) (st : store_state) : store_state * auth_answer :=
  if negb (au_token_store a) then (st, AuthError (503, lit "admin token store is not configured"))
  else match list_tokens st with
  | (st, Ok tokens) => (st, TokenList tokens)
  | (st, Err _) => (st, AuthError (502, lit "failed to list admin tokens: " ++ rd_store_error rd))
  end.
(** [trim_start_matches] of a string removes it as often as it is there. *)
Fixpoint trim_prefixes (fuel : nat) (p s : rstr) : rstr :=
  match fuel with
  | O => s
  | S fuel' => match strip_prefix p s with Some rest => trim_prefixes fuel' p rest | None => s end
  end.
Definition trim_start_str (p : string) (s : rstr) : rstr := trim_prefixes (length s) (lit p) s.
Definition revoke_auth_token (a : AdminApiAuth) (path : rstr) (rd : AuthReadings) (st : store_state) : store_state * auth_answer :=
  let id := trim_matches (chr "/") (trim_start_str "/v1/auth/tokens/" path) in
  if is_empty id then (st, AuthError (400, lit "missing token id"))
  else if negb (au_token_store a) then (st, AuthError (503, lit "admin token store is not configured"))
  else match revoke_token id st with
  | (st, Ok deleted) => (st, TokenDeleted deleted id)
  | (st, Err _) => (st, AuthError (502, lit "failed to revoke admin token: " ++ rd_store_error rd))
  end.

(** ** Theorems *)

Context {DLaws : DigestLaws DL} {CLaws : TokenCodecLaws TC}.

Lemma digest_eq_spec l r : digest_eq l r = true <-> sha256 l = sha256 r.
Proof using DLaws.
  rewrite <- constant_time_str_eq_spec. unfold digest_eq, constant_time_str_eq. by rewrite !sha256_length.
Qed.

(** *** Who is let in *)

Lemma answer_ok {A} (f : A -> token_answer) (m : redis A) st st' a :
  answer f m st = (st', Ok a) -> exists x, m st = (st', Ok x) /\ a = f x.
Proof. unfold answer, rbind. destruct (m st) as [st1 [x|e]]; [|done]. intros [= <- <-]. eauto. Qed.
Lemma verify_cases token now s : store_ok s -> exists s' o, verify_token token now (s, []) = ((s', []), Ok o) /\
  match o with
  | Some view => exists id r, abs s !! id = Some r /\ owns r token /\ view = view_of (touched r now)
  | None => forall id r, abs s !! id = Some r -> ~ owns r token
  end.
Proof using CLaws.
  intros Hs. destruct (verify_refines token now s Hs) as (s' & a & Hrun & _ & Hspec).
  apply answer_ok in Hrun as (o & Hv & ->). exists s', o. split; [done|]. inversion Hspec; subst; eauto.
Qed.
Lemma list_cases s : store_ok s -> exists s' l, list_tokens (s, []) = ((s', []), Ok l) /\ (l = [] <-> abs s = ∅).
Proof using CLaws DL.
  intros Hs. destruct (list_refines s Hs) as (s' & a & Hrun & _ & Hspec). apply answer_ok in Hrun as (l & Hl & ->).
  exists s', l. split; [done|]. inversion Hspec as [|l' Hperm _ | | | |]; subst. rewrite <- map_to_list_empty_iff.
  split; [intros ->|intros E; rewrite E in Hperm]; [|by apply Permutation_nil_r in Hperm].
  apply Permutation_nil_l in Hperm. by eapply fmap_nil_inv.
Qed.

Definition bootstraps (a : AdminApiAuth) (token : rstr) : Prop :=
  exists b, au_bootstrap_token a = Some b /\ sha256 b = sha256 token.
Lemma is_bootstrap_spec a token : is_bootstrap a token = true <-> bootstraps a token.
Proof using DLaws.
  unfold is_bootstrap, bootstraps. destruct (au_bootstrap_token a) as [b|].
  - rewrite digest_eq_spec. split; [by eauto|]. by intros (? & [= <-] & ?).
  - split; [done|]. by intros (? & ? & _).
Qed.

(** C6: Who the admin API lets in, when the token store is consistent and every
    command to it is answered: a caller inside the address allowlist (if there is
    one) who asks for a public path, or, with authentication enabled, who presents a
    bearer token that is either the bootstrap token, while it is permanent or a
    configured store has no token at this moment (none was created yet, or all were
    revoked again), or another token that belongs to an enabled record of a
    configured store; and the principal has the scopes of an administrator in the
    first two cases and those of the record in the last.  Everyone else is refused. *)
Theorem authorize_exact a req ip now s p :
  store_ok s ->
  snd (authorize a req ip now (s, [])) = Ok p <->
  ip_refused a ip = false /\
  ((is_public_admin_path (aq_method req) (aq_path req) = true /\ p = AdminPrincipal_admin) \/
   (is_public_admin_path (aq_method req) (aq_path req) = false /\ au_enabled a = true /\
    exists token, bearer_token (aq_headers req) = Some token /\
      ((bootstraps a token /\ (au_bootstrap_token_permanent a = true \/ (au_token_store a = true /\ abs s = ∅)) /\
        p = AdminPrincipal_admin) \/
       (~ bootstraps a token /\ au_token_store a = true /\
        exists id r, abs s !! id = Some r /\ owns r token /\ p = AdminPrincipal_new (store_normalize_scopes (tr_scopes r)))))).
Proof using CLaws DLaws.
  intros Hs. unfold authorize. destruct (ip_refused a ip); [split; [done|by intros [? _]]|].
  destruct (is_public_admin_path _ _).
  { cbn. split; [intros [= <-]; auto|]. intros [_ [[_ ->]|[? _]]]; done. }
  destruct (au_enabled a); cbn [negb]; [|split; [done|intros [_ [[? _]|(_ & ? & _)]]; done]].
  destruct (bearer_token (aq_headers req)) as [token|]; [|split; [done|intros [_ [[? _]|(_ & _ & ? & ? & _)]]; done]].
  destruct (is_bootstrap a token) eqn:Eb.
  - apply is_bootstrap_spec in Eb. transitivity
      ((au_bootstrap_token_permanent a = true \/ (au_token_store a = true /\ abs s = ∅)) /\ p = AdminPrincipal_admin).
    + destruct (au_bootstrap_token_permanent a); cbn [snd].
      { split; [intros [= <-]; auto|]. by intros [_ ->]. }
      destruct (au_token_store a); cbn [negb]; [|split; [done|by intros [[?|[? _]] _]]].
      destruct (list_cases s Hs) as (s' & l & -> & Hl). destruct l as [|v l]; cbn [is_empty snd].
      * split; [intros [= <-]|by intros [_ ->]]. split; [|done]. right. split; [done|]. by apply Hl.
      * split; [done|]. intros [[?|[_ He]] _]; [done|]. by apply Hl in He.
    + split; [intros [H ->]; split; [done|]; right; eauto 10|].
      intros [_ [[? _]|(_ & _ & t & [= <-] & [H|[H _]])]]; [done|by destruct H as (_ & ? & ->)|done].
  - assert (~ bootstraps a token) as Hnb by (intros H%is_bootstrap_spec; congruence). transitivity
      (au_token_store a = true /\ exists id r, abs s !! id = Some r /\ owns r token /\ p = AdminPrincipal_new (store_normalize_scopes (tr_scopes r))).
    + destruct (au_token_store a); [|split; [done|by intros [? _]]].
      destruct (verify_cases token now s Hs) as (s' & [v|] & -> & Ho); cbn [snd].
      * destruct Ho as (id & r & Hr & How & ->). cbn. split.
        -- intros [= <-]. eauto 10.
        -- intros [_ (id' & r' & Hr' & How' & ->)]. assert (id' = id) as -> by (eapply (abs_hash_inj s); [done..|]; destruct How, How'; congruence).
           by replace r' with r by congruence.
      * split; [done|]. intros [_ (id & r & Hr & How & _)]. by destruct (Ho id r Hr).
    + split; [intros [H1 H2]; split; [done|]; right; eauto 10|].
      intros [_ [[? _]|(_ & _ & t & [= <-] & [[H _]|(_ & ? & H)])]]; done.
Qed.

(** *** Guessing passwords *)

Record try_login := { ty_ip : IpAddr; ty_request : AdminRequest; ty_readings : AuthReadings }.
Definition tested (ans : auth_answer) : bool := match ans with AuthError (status, _) => status =? 401 | _ => false end.
(** How many passwords the addresses written [key] had tested and refused. *)
Fixpoint guesses (a : AdminApiAuth) (key : rstr) (tries : list try_login) (m : Attempts) (st : store_state) : Z :=
  match tries with
  | [] => 0
  | t :: rest =>
    let '(m, st, ans) := login a (ty_request t) (ty_ip t) (ty_readings t) m st in
    (if (ip_to_string (ty_ip t) =s? key) && tested ans then 1 else 0) + guesses a key rest m st
  end.
(** The clock does not run backwards, and the next login comes after the last. *)
Fixpoint in_order (t : Z) (tries : list try_login) : Prop :=
  match tries with
  | [] => True
  | x :: rest => t <= rd_check (ty_readings x) /\ rd_check (ty_readings x) <= rd_fail (ty_readings x) /\ in_order (rd_fail (ty_readings x)) rest
  end.
Definition last_time (t : Z) (tries : list try_login) : Z := foldl (fun _ x => rd_fail (ty_readings x)) t tries.
(** The password is wrong. *)
Definition guessing (a : AdminApiAuth) (x : try_login) : Prop :=
  forall account body, au_login_account a = Some account -> parse_body login_from_slice (aq_body (ty_request x)) = Ok body ->
    AdminLoginAccount_verify account (lb_email body) (lb_password body) = false.

Section bound.
Context (key : rstr) (t0 : Z).

(** [q] windows are over; each saw at most five tests. *)
Definition windows (n t : Z) (m : Attempts) : Prop :=
  exists q, 0 <= q /\ t0 + q * ADMIN_LOGIN_WINDOW <= t /\
    match m !! key with
    | None => n <= 5 * q
    | Some w => 0 <= lw_failures w <= 5 /\ n <= 5 * q + lw_failures w /\ t0 + (q + 1) * ADMIN_LOGIN_WINDOW <= lw_expires_at w
    end.

Lemma live_lookup (now : Z) (m : Attempts) : live_attempts now m !! key =
  match m !! key with Some w => if now <? lw_expires_at w then Some w else None | None => None end.
Proof.
  unfold live_attempts. rewrite map_lookup_filter. destruct (m !! key) as [w|]; [|done]. cbn.
  destruct (Z.ltb_spec now (lw_expires_at w)); [by rewrite option_guard_True|by rewrite option_guard_False by (cbn; lia)].
Qed.
Lemma window_positive : 0 < ADMIN_LOGIN_WINDOW.
Proof. done. Qed.
Lemma windows_live (n t now : Z) (m : Attempts) : t <= now -> windows n t m -> windows n now (live_attempts now m).
Proof.
  intros Ht (q & Hq & Hqt & Hw). unfold windows. rewrite live_lookup. pose proof window_positive. revert Hw. destruct (m !! key) as [w|]; intros Hw; [|exists q; lia].
  destruct (Z.ltb_spec now (lw_expires_at w)); [exists q; lia|exists (q + 1); lia].
Qed.
Lemma windows_frame (n t : Z) (m m' : Attempts) : m' !! key = m !! key -> windows n t m -> windows n t m'.
Proof. unfold windows. by intros ->. Qed.
Lemma windows_later (n t t' : Z) (m : Attempts) : t <= t' -> windows n t m -> windows n t' m.
Proof. intros Ht (q & Hq & Hqt & Hw). exists q. split; [done|]. split; [lia|done]. Qed.
Lemma windows_record (n t now : Z) (m : Attempts) (ip : IpAddr) :
  ip_to_string ip = key -> t <= now -> windows n t m ->
  (forall w, m !! key = Some w -> lw_failures w < 5) -> windows (n + 1) now (record_failed_login_attempt ip now m).
Proof.
  intros Hk Ht Hw Hlt. apply (windows_live _ _ now) in Hw; [|done]. unfold windows, record_failed_login_attempt in *. rewrite Hk.
  rewrite lookup_insert_eq. rewrite live_lookup in *. pose proof window_positive. destruct Hw as (q & Hq & Hqt & Hw).
  revert Hlt Hw. destruct (m !! key) as [w|]; intros Hlt Hw; [specialize (Hlt w eq_refl)|];
    [destruct (Z.ltb_spec now (lw_expires_at w))|]; cbn in *.
  - rewrite (proj2 (Z.leb_gt (lw_expires_at w) now)) by lia. exists q. lia.
  - rewrite (proj2 (Z.leb_gt (now + ADMIN_LOGIN_WINDOW) now)) by lia. cbn. exists q. lia.
  - rewrite (proj2 (Z.leb_gt (now + ADMIN_LOGIN_WINDOW) now)) by lia. cbn. exists q. lia.
Qed.
Lemma windows_record_other (n t now : Z) (m : Attempts) (ip : IpAddr) :
  ip_to_string ip <> key -> t <= now -> windows n t m -> windows n now (record_failed_login_attempt ip now m).
Proof.
  intros Hk Ht Hw. apply (windows_live _ _ now) in Hw; [|done]. eapply windows_frame; [|exact Hw].
  unfold record_failed_login_attempt. by rewrite lookup_insert_ne.
Qed.

Definition counted (x : try_login) (ans : auth_answer) : Z := if (ip_to_string (ty_ip x) =s? key) && tested ans then 1 else 0.
Lemma counted_other (x : try_login) (ans : auth_answer) : ip_to_string (ty_ip x) <> key -> counted x ans = 0.
Proof. intros H. unfold counted. by rewrite (proj2 (seqb_false _ _) H). Qed.
Lemma parse_body_status {A} (f : rstr -> result rstr A) frames r : parse_body f frames = Err r -> tested (AuthError r) = false.
Proof.
  unfold parse_body. destruct (collect_body_with_limit _ _) as [c|[|e]]; [|by intros [= <-]..].
  destruct (f c); [done|]. by intros [= <-].
Qed.
(** One login keeps the account of the windows. *)
Lemma login_windows (a : AdminApiAuth) (x : try_login) (m : Attempts) (st : store_state) (n t : Z) m' st' ans :
  (ip_to_string (ty_ip x) = key -> guessing a x) ->
  t <= rd_check (ty_readings x) -> rd_check (ty_readings x) <= rd_fail (ty_readings x) ->
  login a (ty_request x) (ty_ip x) (ty_readings x) m st = (m', st', ans) ->
  windows n t m -> windows (n + counted x ans) (rd_fail (ty_readings x)) m'.
Proof.
  intros Hg Ht1 Ht2 Hl Hw. unfold login in Hl.
  assert (forall r, tested (AuthError r) = false -> counted x (AuthError r) = 0) as H0.
  { intros r Hr. unfold counted. by rewrite Hr, andb_false_r. }
  destruct (au_login_account a) as [account|] eqn:Ea; [|injection Hl as <- <- <-; rewrite H0, Z.add_0_r by done; eapply windows_later; [|done]; lia].
  destruct (au_token_store a); cbn [negb] in Hl; [|injection Hl as <- <- <-; rewrite H0, Z.add_0_r by done; eapply windows_later; [|done]; lia].
  apply (windows_live _ _ (rd_check (ty_readings x))) in Hw; [|done].
  destruct (login_attempts_exceeded _ _ m) as [m1 exceeded] eqn:Ex. unfold login_attempts_exceeded in Ex. injection Ex as <- Ex.
  assert (windows n (rd_fail (ty_readings x)) (live_attempts (rd_check (ty_readings x)) m)) as Hw' by (by eapply windows_later).
  destruct exceeded; [injection Hl as <- <- <-; by rewrite H0, Z.add_0_r|].
  destruct (parse_body _ _) as [body|r] eqn:Ep; [|injection Hl as <- <- <-; apply parse_body_status in Ep; by rewrite H0, Z.add_0_r].
  destruct (AdminLoginAccount_verify _ _ _) eqn:Ev; cbn [negb] in Hl.
  - assert (ip_to_string (ty_ip x) <> key) as Hk by (intros Hk; specialize (Hg Hk _ _ Ea Ep); congruence).
    assert (windows n (rd_fail (ty_readings x)) (clear_login_attempts (ty_ip x) (live_attempts (rd_check (ty_readings x)) m))) as Hc.
    { eapply windows_frame; [|exact Hw']. unfold clear_login_attempts. by rewrite lookup_delete_ne. }
    rewrite counted_other, Z.add_0_r by done.
    destruct (revoke_tokens_by_name _ st) as [st1 [|]]; [destruct (create_token_with_scopes _ _ _ _ st1) as [st2 [|]]|]; injection Hl as <- <- <-; auto.
  - injection Hl as <- <- <-. destruct (decide (ip_to_string (ty_ip x) = key)) as [Hk|Hk].
    + unfold counted. rewrite (proj2 (seqb_true _ _) Hk). cbn. eapply windows_record; [done|exact Ht2|done|].
      intros w Hwin. rewrite Hk, Hwin in Ex. unfold ADMIN_LOGIN_MAX_ATTEMPTS in Ex. apply Z.leb_gt in Ex. lia.
    + rewrite counted_other, Z.add_0_r by done. by eapply windows_record_other; [..|exact Hw].
Qed.
Lemma guesses_windows (a : AdminApiAuth) (tries : list try_login) : forall (m : Attempts) (st : store_state) (n t : Z),
  (forall x, x ∈ tries -> ip_to_string (ty_ip x) = key -> guessing a x) -> in_order t tries -> windows n t m ->
  exists m', windows (n + guesses a key tries m st) (last_time t tries) m'.
Proof.
  induction tries as [|x tries IH]; intros m st n t Hg Ho Hw; cbn [guesses].
  { exists m. by rewrite Z.add_0_r. }
  destruct Ho as (Ht1 & Ht2 & Ho). destruct (login a _ _ _ m st) as [[m1 st1] ans] eqn:El.
  rewrite Z.add_assoc. apply (IH m1 st1 _ (rd_fail (ty_readings x))); [|done|].
  - intros y Hy. apply Hg. by right.
  - eapply login_windows; [|done..]. apply Hg. left.
Qed.
Lemma windows_bound (n t : Z) (m : Attempts) : windows n t m -> n <= 5 * (1 + (t - t0) / ADMIN_LOGIN_WINDOW).
Proof.
  intros (q & Hq & Hqt & Hw). assert (q <= (t - t0) / ADMIN_LOGIN_WINDOW) by (apply Z.div_le_lower_bound; [done|lia]).
  destruct (m !! key) as [w|]; lia.
Qed.
End bound.

(** While five failures of an address are on record and their window is not over, the
    password is not looked at: a login is answered 429 whatever its body and the
    account's password are, and the token store is left alone. *)
Lemma locked_out (a : AdminApiAuth) (req : AdminRequest) (ip : IpAddr) (rd : AuthReadings) (m : Attempts) (st : store_state) (w : LoginAttemptWindow) :
  au_login_account a <> None -> au_token_store a = true ->
  m !! ip_to_string ip = Some w -> 5 <= lw_failures w -> rd_check rd < lw_expires_at w ->
  login a req ip rd m st = (live_attempts (rd_check rd) m, st, AuthError (429, lit "too many failed login attempts")).
Proof.
  intros Ha Hst Hm Hw Ht. unfold login, login_attempts_exceeded. destruct (au_login_account a); [|done]. rewrite Hst. cbn [negb].
  rewrite live_lookup, Hm, (proj2 (Z.ltb_lt _ _)) by done. unfold ADMIN_LOGIN_MAX_ATTEMPTS. by rewrite (proj2 (Z.leb_le _ _)).
Qed.

(** C10: Guesses are bounded.  Let logins of all addresses follow each other (each
    ends before the next begins, and the clock does not run backwards).  An address
    that had no failed login on record at time [t0] and keeps presenting wrong
    passwords gets at most five of them tested per started window of ten minutes.
    And while five failures of an address are on record and their window is not
    over, a login from it is answered 429 whatever it presents, the right password
    included, and whatever the password of the account is; the token store is not
    touched. *)
Theorem login_guess_bound (a : AdminApiAuth) (key : rstr) (tries : list try_login) (m : Attempts) (st : store_state) (t0 : Z) :
  m !! key = None -> in_order t0 tries -> (forall x, x ∈ tries -> ip_to_string (ty_ip x) = key -> guessing a x) ->
  guesses a key tries m st <= 5 * (1 + (last_time t0 tries - t0) / ADMIN_LOGIN_WINDOW) /\
  forall x m st w, au_login_account a <> None -> au_token_store a = true ->
    m !! ip_to_string (ty_ip x) = Some w -> 5 <= lw_failures w -> rd_check (ty_readings x) < lw_expires_at w ->
    login a (ty_request x) (ty_ip x) (ty_readings x) m st =
      (live_attempts (rd_check (ty_readings x)) m, st, AuthError (429, lit "too many failed login attempts")).
Proof.
  intros Hm Ho Hg. split; [|intros; by eapply locked_out]. destruct (guesses_windows key t0 a tries m st 0 t0 Hg Ho) as [m' Hw].
  { exists 0. rewrite Hm. lia. }
  by apply windows_bound in Hw.
Qed.

(** No window outlasts the last login by more than its length. *)
Definition expiring (t : Z) (m : Attempts) : Prop := forall k w, m !! k = Some w -> lw_expires_at w <= t + ADMIN_LOGIN_WINDOW.
Lemma expiring_later (t t' : Z) (m : Attempts) : t <= t' -> expiring t m -> expiring t' m.
Proof. intros Ht H k w Hk. specialize (H k w Hk). lia. Qed.
Lemma expiring_live (t now : Z) (m : Attempts) : expiring t m -> expiring t (live_attempts now m).
Proof. intros H k w. unfold live_attempts. intros [Hk _]%map_lookup_filter_Some. by apply (H k). Qed.
Lemma expiring_delete (t : Z) (ip : IpAddr) (m : Attempts) : expiring t m -> expiring t (clear_login_attempts ip m).
Proof. intros H k w. unfold clear_login_attempts. intros [_ Hk]%lookup_delete_Some. by apply (H k). Qed.
Lemma expiring_record (t now : Z) (ip : IpAddr) (m : Attempts) : t <= now -> expiring t m -> expiring now (record_failed_login_attempt ip now m).
Proof.
  intros Ht H. apply (expiring_later _ now) in H; [|done]. apply (expiring_live _ now) in H. unfold record_failed_login_attempt.
  intros k w. destruct (decide (k = ip_to_string ip)) as [->|Hne]; [|rewrite lookup_insert_ne by done; apply H].
  rewrite lookup_insert_eq. intros [= <-]. cbn [lw_expires_at].
  destruct (live_attempts now m !! ip_to_string ip) as [w|] eqn:E; cbn.
  - specialize (H _ _ E). destruct (lw_expires_at w <=? now); cbn; lia.
  - destruct (_ <=? _); cbn; lia.
Qed.
Lemma login_expiring (a : AdminApiAuth) (req : AdminRequest) (ip : IpAddr) (rd : AuthReadings) (m : Attempts) (st : store_state) (t : Z) :
  t <= rd_check rd -> rd_check rd <= rd_fail rd -> expiring t m -> expiring (rd_fail rd) (fst (fst (login a req ip rd m st))).
Proof.
  intros H1 H2 Hm. assert (expiring (rd_fail rd) m) as Hm' by (eapply expiring_later; [|done]; lia).
  unfold login. destruct (au_login_account a); [|done]. destruct (negb _); [done|]. cbn [login_attempts_exceeded].
  assert (expiring (rd_fail rd) (live_attempts (rd_check rd) m)) as Hl by by apply expiring_live.
  destruct (match live_attempts _ m !! _ with Some _ => _ | None => _ end); [done|]. destruct (parse_body _ _); [|done].
  destruct (negb _); [apply (expiring_record (rd_fail rd)); (done || lia)|]. apply (expiring_delete _ ip) in Hl.
  destruct (revoke_tokens_by_name _ st) as [st1 [|]]; [|done]. by destruct (create_token_with_scopes _ _ _ _ st1) as [st2 [|]].
Qed.
(** The failures on record after some logins. *)
Fixpoint after_logins (a : AdminApiAuth) (tries : list try_login) (m : Attempts) (st : store_state) : Attempts :=
  match tries with
  | [] => m
  | x :: rest => let '(m, st, _) := login a (ty_request x) (ty_ip x) (ty_readings x) m st in after_logins a rest m st
  end.
Lemma after_logins_expiring (a : AdminApiAuth) (tries : list try_login) : forall (m : Attempts) (st : store_state) (t : Z),
  in_order t tries -> expiring t m -> expiring (last_time t tries) (after_logins a tries m st).
Proof.
  induction tries as [|x tries IH]; intros m st t Ho Hm; [done|]. destruct Ho as (H1 & H2 & Ho). cbn [after_logins].
  pose proof (login_expiring a (ty_request x) (ty_ip x) (ty_readings x) m st t H1 H2 Hm) as Hm'.
  destruct (login _ _ _ _ m st) as [[m1 st1] ans]. by apply (IH m1 st1 (rd_fail (ty_readings x))).
Qed.
(** A lock-out ends: whatever logins came before, ten minutes after the last of
    them no address is refused for its failures any more, so the account's password
    is looked at again. *)
Theorem lockout_ends (a : AdminApiAuth) (tries : list try_login) (st : store_state) (t0 now : Z) (ip : IpAddr) :
  in_order t0 tries -> last_time t0 tries + ADMIN_LOGIN_WINDOW <= now ->
  snd (login_attempts_exceeded ip now (after_logins a tries ∅ st)) = false.
Proof.
  intros Ho Hnow. assert (expiring (last_time t0 tries) (after_logins a tries ∅ st)) as He.
  { apply after_logins_expiring; [done|]. intros k w. by rewrite lookup_empty. }
  unfold login_attempts_exceeded. cbn [snd]. destruct (live_attempts now _ !! ip_to_string ip) as [w|] eqn:E; [|done].
  apply map_lookup_filter_Some in E as [E Hlive]. cbn in Hlive. specialize (He _ _ E). lia.
Qed.

(** *** A login *)

Definition admits (a : AdminApiAuth) (req : AdminRequest) (ip : IpAddr) (rd : AuthReadings) (m : Attempts) (account : AdminLoginAccount) : Prop :=
  au_login_account a = Some account /\ au_token_store a = true /\ snd (login_attempts_exceeded ip (rd_check rd) m) = false /\
  exists body, parse_body login_from_slice (aq_body req) = Ok body /\ AdminLoginAccount_verify account (lb_email body) (lb_password body) = true.

(** With a consistent store that answers and identifiers no record has, a login is
    accepted exactly for the configured account with its password and an address
    that is not locked out.  It then replaces every earlier token of the account by
    one new administrator's token, keeps all other tokens, and forgets the failures
    of the address; a refused login leaves the tokens as they were. *)
Theorem login_rotates a req ip rd m s m' st' ans :
  store_ok s ->
  (forall account, fresh_op (abs s) (OpCreate (rd_uuids rd) (token_name account) [SCOPE_ADMIN] (rd_unix_ms rd))) ->
  login a req ip rd m (s, []) = (m', st', ans) ->
  (exists account s' created, admits a req ip rd m account /\ st' = (s', []) /\ store_ok s' /\ ans = LoggedIn (al_email account) created /\
     m' = clear_login_attempts ip (live_attempts (rd_check rd) m) /\
     abs s' = <[uu_id (rd_uuids rd) := new_record (rd_uuids rd) (token_name account) [SCOPE_ADMIN] (rd_unix_ms rd)]>
                (filter (fun kr => tr_name (snd kr) <> token_name account) (abs s)) /\
     ct_token created = raw_token (rd_uuids rd)) \/
  ((forall account, ~ admits a req ip rd m account) /\ st' = (s, []) /\ exists r, ans = AuthError r).
Proof using CLaws.
  intros Hs Hf. unfold login, admits. destruct (au_login_account a) as [account|].
  2:{ intros [= <- <- <-]. right. split; [by intros ? [? _]|eauto]. }
  destruct (au_token_store a); cbn [negb].
  2:{ intros [= <- <- <-]. right. split; [by intros ? (_ & ? & _)|eauto]. }
  unfold login_attempts_exceeded. cbn [snd]. destruct (match live_attempts _ m !! _ with Some _ => _ | None => _ end).
  { intros [= <- <- <-]. right. split; [by intros ? (_ & _ & ? & _)|eauto]. }
  destruct (parse_body _ _) as [body|r].
  2:{ intros [= <- <- <-]. right. split; [by intros ? (_ & _ & _ & ? & ? & _)|eauto]. }
  destruct (AdminLoginAccount_verify account _ _) eqn:Ev; cbn [negb].
  2:{ intros [= <- <- <-]. right. split; [|eauto]. intros ? ([= <-] & _ & _ & ? & [= <-] & ?). congruence. }
  destruct (revoke_name_refines (token_name account) s Hs) as (s1 & ans1 & Hrun & Hs1 & Hspec).
  apply answer_ok in Hrun as (n & -> & ->). inversion Hspec as [| | | ? Ename Hm1 Ecount | |].
  destruct (create_refines (rd_uuids rd) (token_name account) [SCOPE_ADMIN] (rd_unix_ms rd) s1 Hs1) as (s2 & ans2 & Hrun & Hs2 & Hspec2).
  { destruct (Hf account) as [Hid Hh]. rewrite <- Hm1. split.
    - apply map_lookup_filter_None. by left.
    - intros id r' [Hr' _]%map_lookup_filter_Some. by apply (Hh id). }
  apply answer_ok in Hrun as (created & -> & ->). intros [= <- <- <-]. left. exists account, s2, created.
  inversion Hspec2. subst. rewrite Hm1. split_and!; eauto.
Qed.

(** *** Key derivation *)

(** HMAC as RFC 2104 writes it: the key is hashed when it is longer than a block and
    filled with zeros up to 64 octets; each octet is combined with 0x36 inside and
    0x5c outside. *)
Definition octet (s : rstr) (i : nat) : Z := match s !! i with Some b => bz b | None => 0 end.
Definition pad (key : rstr) (c : Z) : rstr := map (fun i => byte_of (Z.lxor (octet key i) c)) (seq 0 64).
Definition rfc2104_hmac (key text : rstr) : rstr :=
  let key := if decide (length key <= 64)%nat then key else sha256 key in
  sha256 (pad key 0x5c ++ sha256 (pad key 0x36 ++ text)).
(** The four octets of a number, the most significant first. *)
Definition rfc8018_int (i : Z) : rstr := map byte_of [i / 2 ^ 24 mod 256; i / 2 ^ 16 mod 256; i / 2 ^ 8 mod 256; i mod 256].
Definition xor_text (a b : rstr) : rstr := map (fun xy => byte_of (Z.lxor (bz (fst xy)) (bz (snd xy)))) (zip a b).
(** PBKDF2 as RFC 8018 writes it: the [k]-th iterate, the block as the exclusive or
    of the iterates, and the key as a prefix of the blocks. *)
Fixpoint iterate_prf (password first : rstr) (k : nat) : rstr :=
  match k with O => first | S k' => rfc2104_hmac password (iterate_prf password first k') end.
Definition spec_block (password salt : rstr) (iterations : nat) (i : nat) : rstr :=
  let first := rfc2104_hmac password (salt ++ rfc8018_int (Z.of_nat i)) in
  foldl (fun acc k => xor_text acc (iterate_prf password first k)) first (seq 1 (iterations - 1)).
Definition pbkdf2_spec (password salt : rstr) (iterations output_len : nat) : rstr :=
  take output_len (concat (map (spec_block password salt iterations) (seq 1 ((output_len + 31) / 32)))).

Lemma be32_int n : be32 n = rfc8018_int n.
Proof.
  unfold be32, rfc8018_int. cbn [map]. change 255 with (Z.ones 8). rewrite !Z.land_ones, !Z.shiftr_div_pow2 by lia.
  change (2 ^ 0) with 1. by rewrite Z.div_1_r.
Qed.
Lemma xor_text_bytes a b : xor_bytes a b = xor_text a b.
Proof. unfold xor_bytes, xor_text. revert b. induction a as [|x a IH]; intros [|y b]; [done..|]. cbn. by rewrite IH. Qed.
Lemma pad_spec (key : rstr) (c : ascii) : (length key <= BLOCK_SIZE)%nat ->
  xor_bytes (replicate BLOCK_SIZE c) (key ++ replicate (BLOCK_SIZE - length key) (byte_of 0)) = pad key (bz c).
Proof.
  intros Hk. apply list_eq. intros i. unfold xor_bytes, pad. rewrite lookup_zip_with, list_lookup_fmap.
  destruct (decide (i < BLOCK_SIZE)%nat) as [Hi|Hi].
  - rewrite lookup_replicate_2 by done. rewrite lookup_seq_lt by done. cbn [mbind option_bind fmap option_fmap option_map Nat.add].
    unfold octet. destruct (key !! i) as [b|] eqn:E.
    + rewrite (lookup_app_l_Some _ _ _ _ E). cbn. unfold xor_byte. by rewrite Z.lxor_comm.
    + apply lookup_ge_None in E. rewrite lookup_app_r by done. rewrite lookup_replicate_2 by lia. cbn. unfold xor_byte. by rewrite Z.lxor_comm.
  - rewrite (lookup_ge_None_2 (replicate BLOCK_SIZE c)) by (rewrite length_replicate; lia). rewrite lookup_seq_ge by (unfold BLOCK_SIZE in Hi; lia). done.
Qed.
Lemma hmac_rfc2104 key data : hmac_sha256 key data = rfc2104_hmac key data.
Proof using DLaws.
  unfold hmac_sha256, rfc2104_hmac. destruct (Nat.ltb_spec BLOCK_SIZE (length key)) as [H|H].
  - rewrite decide_False by (unfold BLOCK_SIZE in H; lia). rewrite !pad_spec; [done|rewrite sha256_length; unfold BLOCK_SIZE; lia..].
  - rewrite decide_True by done. by rewrite !pad_spec.
Qed.
Lemma hmac_length key data : length (rfc2104_hmac key data) = 32%nat.
Proof using DLaws. unfold rfc2104_hmac. apply sha256_length. Qed.
Lemma rounds_iterate password first rounds : forall k block,
  pbkdf2_rounds rounds password (iterate_prf password first k) block =
  foldl (fun acc j => xor_text acc (iterate_prf password first j)) block (seq (S k) rounds).
Proof using DLaws.
  induction rounds as [|rounds IH]; intros k block; [done|]. cbn [pbkdf2_rounds seq foldl]. rewrite hmac_rfc2104, xor_text_bytes.
  change (rfc2104_hmac password (iterate_prf password first k)) with (iterate_prf password first (S k)). by rewrite IH.
Qed.
Lemma block_spec password salt (iterations i : nat) :
  pbkdf2_block password salt (Z.of_nat iterations) (Z.of_nat i) = spec_block password salt iterations i.
Proof using DLaws.
  unfold pbkdf2_block, spec_block. rewrite be32_int, hmac_rfc2104. set (first := rfc2104_hmac password (salt ++ rfc8018_int (Z.of_nat i))).
  change (pbkdf2_rounds _ password first first) with (pbkdf2_rounds (Z.to_nat (Z.of_nat iterations - 1)) password (iterate_prf password first 0) first).
  rewrite rounds_iterate. do 2 f_equal. lia.
Qed.
Lemma xor_fold_length (f : nat -> rstr) n l block : (forall k, length (f k) = n) -> length block = n ->
  length (foldl (fun acc k => xor_text acc (f k)) block l) = n.
Proof.
  intros Hf. revert block. induction l as [|k l IH]; intros block Hb; [done|]. cbn [foldl]. apply IH.
  unfold xor_text. rewrite length_map, length_zip_with, Hf, Hb. lia.
Qed.
Lemma block_length password salt iterations i : length (spec_block password salt iterations i) = 32%nat.
Proof using DLaws.
  unfold spec_block. apply xor_fold_length; [|apply hmac_length]. intros [|k]; apply hmac_length.
Qed.
Lemma blocks_length password salt iterations l : length (concat (map (spec_block password salt iterations) l)) = (32 * length l)%nat.
Proof using DLaws. induction l as [|i l IH]; [done|]. cbn [map concat]. rewrite length_app, block_length, IH. cbn. lia. Qed.

Lemma blocks_needed (n i : nat) : (n <= 32 * i)%nat -> (32 * i < n + 32)%nat -> ((n + 31) / 32 = i)%nat.
Proof. intros H1 H2. symmetry. apply (Nat.div_unique _ _ _ (n + 31 - 32 * i)); lia. Qed.
(** The loop appends blocks until the key is long enough. *)
Lemma loop_blocks password salt (iterations n : nat) fuel : forall i,
  Z.of_nat n <= 32 * U32_MAX -> (n <= fuel + 32 * i)%nat -> (32 * i < n + 32)%nat ->
  pbkdf2_loop fuel password salt (Z.of_nat iterations) n (Z.min (Z.of_nat (S i)) U32_MAX) (concat (map (spec_block password salt iterations) (seq 1 i)))
  = concat (map (spec_block password salt iterations) (seq 1 ((n + 31) / 32))).
Proof using DLaws.
  induction fuel as [|fuel IH]; intros i Hn Hf Hi.
  { cbn [pbkdf2_loop]. by rewrite (blocks_needed n i) by lia. }
  cbn [pbkdf2_loop]. rewrite blocks_length, length_seq.
  destruct (Nat.ltb_spec (32 * i) n) as [Hlt|Hge].
  - rewrite (Z.min_l (Z.of_nat (S i))) by lia. replace (Z.of_nat (S i) + 1) with (Z.of_nat (S (S i))) by lia.
    rewrite block_spec. replace (_ ++ spec_block _ _ _ _) with (concat (map (spec_block password salt iterations) (seq 1 (S i)))); [apply IH; lia|].
    rewrite seq_S, map_app, concat_app. cbn [map concat]. by rewrite app_nil_r.
  - by rewrite (blocks_needed n i) by lia.
Qed.

(** C14: The key derivation of the login is PBKDF2 as RFC 8018 defines it, with HMAC
    as RFC 2104 defines it (its pads, the hashing of long keys) over the hash function
    and the four-octet block index with its most significant octet first; the key has
    the length asked for, for every length whose blocks that index can count.  The
    hash function, SHA-256 in the program, is a parameter with digests of 32 octets. *)
Theorem pbkdf2_rfc8018 password salt (iterations output_len : nat) :
  Z.of_nat output_len <= 32 * U32_MAX ->
  pbkdf2_sha256 password salt (Z.of_nat iterations) output_len = pbkdf2_spec password salt iterations output_len /\
  length (pbkdf2_sha256 password salt (Z.of_nat iterations) output_len) = output_len.
Proof using DLaws.
  intros Hn. unfold pbkdf2_sha256, pbkdf2_spec. change 1 with (Z.min (Z.of_nat 1) U32_MAX).
  change (@nil ascii) with (concat (map (spec_block password salt iterations) (seq 1 0))).
  rewrite loop_blocks by lia. split; [done|]. rewrite length_take, blocks_length, length_seq.
  pose proof (Nat.div_mod (output_len + 31) 32 ltac:(lia)). pose proof (Nat.mod_upper_bound (output_len + 31) 32 ltac:(lia)). lia.
Qed.

(** *** Tokens that are created *)

Lemma normalized_scopes_elem x scopes : x ∈ normalized_scopes scopes -> exists y, y ∈ scopes /\ x = to_ascii_lowercase (trim y) /\ is_empty x = false.
Proof.
  unfold normalized_scopes, sort_strings. intros H.
  assert (x ∈ merge_sort str_le (filter (fun scope => is_empty scope = false) (map (fun scope => to_ascii_lowercase (trim scope)) scopes))) as H'.
  { destruct (merge_sort _ _) as [|y l]; [done|]. apply elem_of_cons in H as [->|H]; [left|right; by eapply dedup_after_subset]. }
  rewrite merge_sort_Permutation in H'. apply list_elem_of_filter in H' as [He (y & -> & Hy)%list_elem_of_fmap]. eauto.
Qed.
Lemma supported_normal x : x ∈ SUPPORTED_SCOPES -> to_ascii_lowercase (trim x) = x.
Proof. intros H. unfold SUPPORTED_SCOPES in H. repeat (apply elem_of_cons in H as [->|H]; [reflexivity|]). by apply not_elem_of_nil in H. Qed.
Lemma store_normalize_supported scopes x : Forall (fun y => y ∈ SUPPORTED_SCOPES) scopes -> x ∈ store_normalize_scopes scopes -> x ∈ SUPPORTED_SCOPES.
Proof.
  intros Hall. unfold store_normalize_scopes. destruct (is_empty (normalized_scopes scopes)).
  - intros ->%list_elem_of_singleton. left.
  - intros (y & Hy & -> & _)%normalized_scopes_elem. rewrite Forall_forall in Hall. rewrite supported_normal; auto.
Qed.
Lemma store_normalize_nonempty scopes : store_normalize_scopes scopes <> [].
Proof. unfold store_normalize_scopes. by destruct (normalized_scopes scopes). Qed.
Lemma validate_token_scopes_ok scopes l : validate_token_scopes scopes = Ok l -> l <> [] /\ Forall (fun y => y ∈ SUPPORTED_SCOPES) l.
Proof.
  unfold validate_token_scopes. destruct (normalize_scopes scopes) as [|x l'] eqn:En; [done|]. cbn [is_empty].
  destruct (for_each _ _) as [[]|] eqn:Ef; [|done]. intros [= <-]. split; [done|].
  apply for_each_ok in Ef. eapply Forall_impl; [exact Ef|]. intros y. cbn beta.
  destruct (existsb _ _) eqn:Ee; [|done]. intros _. apply existsb_exists in Ee as (z & Hz & ->%seqb_true). by apply list_elem_of_In.
Qed.
Lemma create_record u name scopes now st st' c : create_token_with_scopes u name scopes now st = (st', Ok c) ->
  ct_record c = view_of (new_record u name scopes now).
Proof.
  unfold create_token_with_scopes, rbind. intros H.
  repeat (match type of H with context [match ?m with (_, _) => _ end] => destruct m as [? [?|?]]; [|done] end).
  injection H as _ <-. reflexivity.
Qed.

(** A token the admin API hands out has at least one scope and only scopes the
    API checks for: a request without scopes, or with an unknown one, creates
    nothing, whatever the store does. *)
Theorem created_scopes_supported a req rd st st' c :
  create_auth_token a req rd st = (st', TokenCreated c) ->
  tv_scopes (ct_record c) <> [] /\ forall scope, scope ∈ tv_scopes (ct_record c) -> scope ∈ SUPPORTED_SCOPES.
Proof.
  unfold create_auth_token. destruct (parse_body _ _) as [body|]; [|done]. destruct (_ <? _); [done|].
  destruct (negb _); [done|]. destruct (validate_token_scopes _) as [scopes|] eqn:Ev; [|done].
  destruct (create_token_with_scopes _ _ _ _ st) as [st1 [c1|]] eqn:Ec; [|done]. intros [= <- <-].
  apply validate_token_scopes_ok in Ev as [_ Hall]. rewrite (create_record _ _ _ _ _ _ _ Ec). cbn.
  split; [apply store_normalize_nonempty|]. intros scope. apply store_normalize_supported, Forall_forall.
  intros x. by apply store_normalize_supported.
Qed.
End auth.

(** *** Hexadecimal text *)

Lemma hex_nibble_digit d : 0 <= d < 16 -> hex_nibble (digit_char d) = Some d.
Proof.
  intros Hd. assert (Forall (fun n => hex_nibble (digit_char (Z.of_nat n)) = Some (Z.of_nat n)) (seq 0 16)) as H.
  { repeat constructor. }
  rewrite Forall_forall in H. specialize (H (Z.to_nat d)). rewrite Z2Nat.id in H by lia. apply H, elem_of_seq. lia.
Qed.
Lemma decode_hex_byte b : Z.lor (Z.shiftl (Z.shiftr (bz b) 4) 4) (Z.land (bz b) 15) = bz b.
Proof.
  apply Z.bits_inj'. intros n Hn. rewrite Z.lor_spec, Z.land_spec. change 15 with (Z.ones 4).
  destruct (Z.ltb_spec n 4).
  - rewrite Z.shiftl_spec_low, Z.ones_spec_low by lia. by rewrite andb_true_r.
  - rewrite Z.shiftl_spec, Z.shiftr_spec, Z.ones_spec_high by lia. rewrite andb_false_r, orb_false_r. f_equal. lia.
Qed.

(** What one crate writes in hexadecimal the other reads back: [decode_hex] of the
    text [to_hex] makes of some bytes is these bytes. *)
Theorem hex_roundtrip bytes : decode_hex (to_hex_bytes bytes) = Ok bytes.
Proof.
  unfold decode_hex. assert (str_len (to_hex_bytes bytes) = 2 * str_len bytes) as ->.
  { induction bytes as [|b bytes IH]; [done|]. unfold to_hex_bytes, str_len in *. cbn [flat_map hex_byte app length]. cbn [length]. lia. }
  rewrite Z.mul_comm, Z.mod_mul by lia. cbn [Z.eqb negb].
  induction bytes as [|b bytes IH]; [done|]. cbn [to_hex_bytes flat_map hex_byte app decode_pairs]. fold (to_hex_bytes bytes).
  pose proof (bz_range b). rewrite !hex_nibble_digit.
  - cbn [ok_or]. rewrite IH, decode_hex_byte, byte_of_bz. reflexivity.
  - change 15 with (Z.ones 4). rewrite Z.land_ones by lia. apply Z.mod_pos_bound. lia.
  - rewrite Z.shiftr_div_pow2 by lia. split; [apply Z.div_pos; lia|apply Z.div_lt_upper_bound; lia].
Qed.

(** ** Witnesses and examples *)

Module Demo.
Definition bootstrap : rstr := lit "first-key".
Definition account : AdminLoginAccount := {|
  al_email := lit "ops@example.com";
  al_password_hash := {| ph_iterations := 2; ph_salt := lit "00112233445566aa";
                         ph_hash := @pbkdf2_sha256 SumDigest (lit "hunter2") (lit "00112233445566aa") 2 32 |} |}.
Definition auth : @AdminApiAuth CidrLib := {|
  au_enabled := true; au_bootstrap_token := Some bootstrap; au_bootstrap_token_permanent := false; au_ip_allowlist := [];
  au_token_store := true; au_login_account := Some account |}.
Definition with_bearer (token : rstr) : @HeaderMap AssocHeaders := [(lit "authorization", lit "Bearer " ++ token)].
Definition request (method path : string) (token body : rstr) : @AdminRequest AssocHeaders := {|
  aq_method := lit method; aq_path := lit path; aq_query := []; aq_headers := with_bearer token; aq_body := [Data body] |}.
Definition caller : IpAddr := V4 3405803785.
(** A body is an address and a password, or a name and a scope, with a bar between. *)
Definition login_body (s : rstr) : result rstr LoginBody :=
  match split_once (chr "|") s with
  | Some (email, password) => Ok {| lb_email := email; lb_password := password |}
  | None => Err (lit "expected value")
  end.
Definition token_body (s : rstr) : result rstr TokenCreateBody :=
  match split_once (chr "|") s with
  | Some (name, scope) => Ok {| tb_name := name; tb_scopes := [scope] |}
  | None => Err (lit "expected value")
  end.
Definition readings (now : Z) : AuthReadings := {|
  rd_check := now; rd_fail := now + 1; rd_unix_ms := now; rd_uuids := demo_uuids; rd_store_error := lit "refused" |}.

Lemma authorize_exact_witness :
  snd (@authorize CidrLib AssocHeaders SumDigest BitCodec auth (request "GET" "/v1/domains" bootstrap []) caller 5 (no_hashes, [])) =
    Ok AdminPrincipal_admin /\ @store_ok BitCodec no_hashes.
Proof.
  split; [|apply no_hashes_ok].
  apply (@authorize_exact CidrLib AssocHeaders SumDigest BitCodec SumDigest_laws BitCodec_laws); [apply no_hashes_ok|].
  split; [reflexivity|]. right. split; [reflexivity|]. split; [reflexivity|]. exists bootstrap. split; [reflexivity|]. left.
  split; [by exists bootstrap|]. split; [right; by split|reflexivity].
Defined.
(** The first token ends the bootstrap token: its scopes count from then on. *)
Example bootstrap_expires :
  (snd (@authorize CidrLib AssocHeaders SumDigest BitCodec auth (request "GET" "/v1/domains" bootstrap []) caller 5 (demo_store, [])),
   snd (@authorize CidrLib AssocHeaders SumDigest BitCodec auth (request "GET" "/v1/domains" (lit "pxxl_a_b") []) caller 5 (demo_store, []))) =
  (Err (401, lit "bootstrap token expired after first admin token"), Ok {| ap_scopes := [SCOPE_ROUTES_READ] |}).
Proof. vm_compute. reflexivity. Qed.
(** A creation whose second command fails: the caller has no token, the record is
    listed but its token finds nothing, and the bootstrap token is spent. *)
Example half_created_token_locks_out :
  let '(st, ans) := @create_auth_token CidrLib AssocHeaders SumDigest BitCodec token_body auth
     (request "POST" "/v1/auth/tokens" bootstrap (lit "ops|admin")) (readings 5) (no_hashes, [Answered; Answered; NotSent]) in
  (ans,
   snd (@authorize CidrLib AssocHeaders SumDigest BitCodec auth (request "GET" "/v1/domains" (raw_token demo_uuids) []) caller 6 (fst st, [])),
   snd (@authorize CidrLib AssocHeaders SumDigest BitCodec auth (request "GET" "/v1/domains" bootstrap []) caller 7 (fst st, []))) =
  (AuthError (502, lit "failed to create admin token: refused"), Err (401, lit "invalid bearer token"),
   Err (401, lit "bootstrap token expired after first admin token")).
Proof. vm_compute. reflexivity. Qed.

Definition guess (now : Z) : @try_login AssocHeaders :=
  {| ty_ip := caller; ty_request := request "POST" "/v1/auth/login" [] (lit "ops@example.com|letmein"); ty_readings := readings now |}.
Lemma login_guess_bound_witness :
  @guesses CidrLib AssocHeaders SumDigest BitCodec login_body auth (ip_to_string caller) (map guess [1; 3; 5; 7; 9; 11; 13]) ∅ (no_hashes, []) <=
  5 * (1 + (last_time 0 (map guess [1; 3; 5; 7; 9; 11; 13]) - 0) / ADMIN_LOGIN_WINDOW).
Proof.
  eapply (@login_guess_bound CidrLib AssocHeaders SumDigest BitCodec login_body auth (ip_to_string caller)).
  - reflexivity.
  - cbn. lia.
  - intros x Hx _. apply list_elem_of_fmap in Hx as (now & -> & _). intros acc body [= <-] [= <-]. vm_compute. reflexivity.
Defined.
(** Five of the seven are tested. *)
Example guesses_of_seven :
  @guesses CidrLib AssocHeaders SumDigest BitCodec login_body auth (ip_to_string caller) (map guess [1; 3; 5; 7; 9; 11; 13]) ∅ (no_hashes, []) = 5.
Proof. vm_compute. reflexivity. Qed.
(** After ten minutes the eighth guess is tested. *)
Lemma lockout_ends_witness :
  snd (login_attempts_exceeded caller (14 + ADMIN_LOGIN_WINDOW)
    (@after_logins CidrLib AssocHeaders SumDigest BitCodec login_body auth (map guess [1; 3; 5; 7; 9; 11; 13]) ∅ (no_hashes, []))) = false.
Proof.
  apply (@lockout_ends CidrLib AssocHeaders SumDigest BitCodec login_body auth (map guess [1; 3; 5; 7; 9; 11; 13]) (no_hashes, []) 0).
  - cbn. lia.
  - vm_compute. discriminate.
Defined.
(** The bound is one of logins that follow each other: a login checks its address
    before its body arrives and records the failure at its end, after a sleep, so
    all requests that are open at the same time pass the check. *)
Example parallel_logins_all_pass :
  forallb (fun now => negb (snd (login_attempts_exceeded caller now ∅))) (seqZ 0 100) = true /\
  lw_failures <$> foldl (fun m now => record_failed_login_attempt caller now m) ∅ (seqZ 100 100) !! ip_to_string caller = Some 100.
Proof. split; vm_compute; reflexivity. Qed.

Definition good_login : @AdminRequest AssocHeaders := request "POST" "/v1/auth/login" [] (lit " OPS@example.com|hunter2").
Lemma login_rotates_witness : exists s' created,
  snd (fst (@login CidrLib AssocHeaders SumDigest BitCodec login_body auth good_login caller (readings 5) ∅ (no_hashes, []))) = (s', []) /\
  @store_ok BitCodec s' /\
  snd (@login CidrLib AssocHeaders SumDigest BitCodec login_body auth good_login caller (readings 5) ∅ (no_hashes, [])) = LoggedIn (lit "ops@example.com") created.
Proof.
  destruct (@login CidrLib AssocHeaders SumDigest BitCodec login_body auth good_login caller (readings 5) ∅ (no_hashes, [])) as [[m' st'] ans] eqn:E.
  assert (@admits CidrLib AssocHeaders SumDigest login_body auth good_login caller (readings 5) ∅ account) as Ha.
  { split; [reflexivity|]. split; [reflexivity|]. split; [reflexivity|].
    exists {| lb_email := lit " OPS@example.com"; lb_password := lit "hunter2" |}. split; [reflexivity|]. vm_compute. reflexivity. }
  destruct (@login_rotates CidrLib AssocHeaders SumDigest BitCodec login_body BitCodec_laws auth good_login caller (readings 5) ∅ no_hashes m' st' ans)
    as [(acc & s' & created & Hacc & -> & Hs' & -> & _)|[Hno _]].
  - apply no_hashes_ok.
  - intros acc. split; [|intros id r]; rewrite abs_lookup; cbn [hs_tokens no_hashes]; by rewrite lookup_empty.
  - exact E.
  - exists s', created. destruct Hacc as [[= <-] _]. split; [reflexivity|]. split; [exact Hs'|reflexivity].
  - destruct (Hno account Ha).
Defined.

Lemma pbkdf2_rfc8018_witness :
  length (@pbkdf2_sha256 SumDigest (lit "hunter2") (lit "salt") (Z.of_nat 3) 40) = 40%nat.
Proof. apply (@pbkdf2_rfc8018 SumDigest SumDigest_laws (lit "hunter2") (lit "salt") 3 40). reflexivity || (vm_compute; discriminate). Defined.

Definition create_answer (scopes : string) : store_state * auth_answer :=
  @create_auth_token CidrLib AssocHeaders SumDigest BitCodec token_body auth
    (request "POST" "/v1/auth/tokens" bootstrap (lit "ops|" ++ lit scopes)) (readings 5) (no_hashes, []).
Lemma created_scopes_supported_witness : exists c, snd (create_answer " Routes:Write ") = TokenCreated c /\
  forall scope, scope ∈ tv_scopes (ct_record c) -> scope ∈ SUPPORTED_SCOPES.
Proof.
  destruct (create_answer " Routes:Write ") as [st' ans] eqn:E.
  assert (exists c, ans = TokenCreated c) as [c ->].
  { assert (match snd (create_answer " Routes:Write ") with TokenCreated _ => True | _ => False end) as H by (vm_compute; exact I).
    rewrite E in H. destruct ans; try destruct H. eauto. }
  exists c. split; [reflexivity|].
  apply (@created_scopes_supported CidrLib AssocHeaders SumDigest BitCodec token_body auth
    (request "POST" "/v1/auth/tokens" bootstrap (lit "ops|" ++ lit " Routes:Write ")) (readings 5) (no_hashes, []) st' c). exact E.
Defined.
Example refused_scopes :
  (snd (create_answer "  "), snd (create_answer "root")) =
  (AuthError (400, lit "at least one token scope is required"), AuthError (400, lit "unsupported token scope: root")).
Proof. reflexivity. Qed.
End Demo.
