(* ===== verification/AdminRoutes.v ===== *)
(** Routes as the admin API takes and shows them ([api/src/lib.rs]): the bodies of its
    requests and the routes they become, the network check of upstreams, the removal
    of secrets from answers, and the queries. *)
From stdpp Require Import options.
From S2P Require Import Prelude RustStr RustNum RustNet CommonTypes CommonPath CommonValidate HttpForward RedisTokens AdminAuth.

Local Open Scope Z_scope.

Section rules.
Context {NL : IpNetLib}.

(** Assignments to the fields of the rules this crate changes. *)
Definition dr_with_edits (www_alias allow_websocket : bool) (add_request_headers response_headers : gmap rstr rstr)
    (middlewares : gmap rstr MiddlewareDefinition) (d : DomainRules) : DomainRules := {|
  dr_www_alias := www_alias; dr_redirect_www_to_apex := dr_redirect_www_to_apex d; dr_allow_websocket := allow_websocket; dr_require_https
  := dr_require_https d; dr_redirect_http_to_https := dr_redirect_http_to_https d; dr_allowed_methods := dr_allowed_methods d;
  dr_blocked_methods := dr_blocked_methods d; dr_allowed_headers := dr_allowed_headers d; dr_blocked_headers := dr_blocked_headers d;
  dr_required_headers := dr_required_headers d; dr_strip_request_headers := dr_strip_request_headers d; dr_add_request_headers :=
  add_request_headers; dr_response_headers := response_headers; dr_ip_allowlist := dr_ip_allowlist d; dr_ip_blocklist := dr_ip_blocklist d;
  dr_country_allowlist := dr_country_allowlist d; dr_country_blocklist := dr_country_blocklist d; dr_continent_allowlist :=
  dr_continent_allowlist d; dr_continent_blocklist := dr_continent_blocklist d; dr_location_routes := dr_location_routes d;
  dr_traffic_splits := dr_traffic_splits d; dr_waf := dr_waf d; dr_rate_limit := dr_rate_limit d; dr_max_body_bytes := dr_max_body_bytes d;
  dr_max_uri_length := dr_max_uri_length d; dr_allowed_content_types := dr_allowed_content_types d; dr_maintenance_mode :=
  dr_maintenance_mode d; dr_maintenance_status_code := dr_maintenance_status_code d; dr_preserve_host_header := dr_preserve_host_header d;
  dr_add_security_headers := dr_add_security_headers d; dr_cors_allowed_origins := dr_cors_allowed_origins d; dr_cors_allow_credentials :=
  dr_cors_allow_credentials d; dr_cors_allowed_methods := dr_cors_allowed_methods d; dr_cors_allowed_headers := dr_cors_allowed_headers d;
  dr_cors_preflight_enabled := dr_cors_preflight_enabled d; dr_middlewares := middlewares; dr_middleware_chains := dr_middleware_chains d;
  dr_request_buffering := dr_request_buffering d; dr_response_buffering := dr_response_buffering d; dr_compression := dr_compression d;
  dr_content_type_autodetect := dr_content_type_autodetect d; dr_retry := dr_retry d; dr_circuit_breaker := dr_circuit_breaker d;
  dr_in_flight_limit := dr_in_flight_limit d; dr_sticky_sessions := dr_sticky_sessions d; dr_passive_health := dr_passive_health d;
  dr_traffic_mirroring := dr_traffic_mirroring d; dr_client_cert_forwarding := dr_client_cert_forwarding d; dr_services := dr_services d;
  dr_upstream_transport := dr_upstream_transport d; dr_tls_options := dr_tls_options d; dr_acme := dr_acme d; dr_tcp := dr_tcp d; dr_udp :=
  dr_udp d; dr_http3 := dr_http3 d; dr_bandwidth_limit := dr_bandwidth_limit d; dr_proxy_mode := dr_proxy_mode d |}.

(** ** Secrets *)

Definition REDACTED : rstr := lit "[redacted]".
Definition SENSITIVE_HEADERS : list rstr := lits ["authorization"; "proxy-authorization"; "cookie"; "set-cookie"; "x-api-key"].
Definition sensitive_header_name (name : rstr) : bool := existsb (seq_eqb (to_ascii_lowercase name)) SENSITIVE_HEADERS.
Definition redact_values (m : gmap rstr rstr) : gmap rstr rstr := (fun _ => REDACTED) <$> m.
Definition redact_middleware (m : MiddlewareDefinition) : MiddlewareDefinition := {|
  md_chain := md_chain m;
  md_basic_auth := (fun c => {| ba_enabled := ba_enabled c; ba_realm := ba_realm c; ba_users := redact_values (ba_users c) |}) <$> md_basic_auth m;
  md_digest_auth := (fun c => {| da_enabled := da_enabled c; da_realm := da_realm c; da_users := redact_values (da_users c) |}) <$> md_digest_auth m;
  md_forward_auth := md_forward_auth m; md_request_buffering := md_request_buffering m; md_response_buffering := md_response_buffering m;
  md_compression := md_compression m; md_content_type_autodetect := md_content_type_autodetect m; md_retry := md_retry m;
  md_circuit_breaker := md_circuit_breaker m; md_in_flight_limit := md_in_flight_limit m;
  md_pass_tls_client_cert := md_pass_tls_client_cert m |}.
Definition redact_rules (d : DomainRules) : DomainRules :=
  dr_with_edits (dr_www_alias d) (dr_allow_websocket d) (redact_values (dr_add_request_headers d))
    (map_imap (fun name value => Some (if sensitive_header_name name then REDACTED else value)) (dr_response_headers d))
    (redact_middleware <$> dr_middlewares d) d.
Definition redact_route (r : Route) : Route := r_with_rules (redact_rules (r_rules r)) r.
Definition redact_routes (l : list Route) : list Route := map redact_route l.

(** ** Bodies *)

Record UpstreamBody := { ub_url : rstr; ub_weight : Z; ub_backup : bool; ub_transport : UpstreamTransport }.
Record PathBody := { pb_prefix : rstr; pb_upstreams : list UpstreamBody; pb_middlewares : list rstr }.
Record DomainRouteBody := {
  db_domain : rstr;
  db_id : option rstr;
  db_path : option rstr;
  db_tls : option bool;
  db_algorithm : LoadBalancingAlgorithm;
  db_upstreams : list UpstreamBody;
  db_paths : list PathBody;
  db_rules : DomainRules;
}.
Record InternalRouteBody := {
  ib_host : option rstr;
  ib_domain : option rstr;
  ib_path : option rstr;
  ib_project_id : option rstr;
  ib_deployment_id : option rstr;
  ib_container_id : option rstr;
  ib_upstream : option rstr;
  ib_upstream_url : option rstr;
  ib_upstream_host : option rstr;
  ib_upstream_port : option Z;
  ib_route_version : option Z;
  ib_status : option rstr;
  ib_tls : option bool;
  ib_rules : DomainRules;
}.
Definition root_path : rstr := lit "/".
Definition into_upstream (b : UpstreamBody) : Upstream := {|
  u_url := ub_url b; u_weight := Z.max (ub_weight b) 1; u_healthy := true; u_backup := ub_backup b; u_transport := ub_transport b |}.
Definition into_path (b : PathBody) : result rstr PathRoute :=
  if is_empty (pb_upstreams b) then Err (lit "each path needs at least one upstream")
  else Ok {| pr_prefix := normalize_path_prefix (pb_prefix b); pr_upstreams := map into_upstream (pb_upstreams b);
             pr_middlewares := pb_middlewares b |}.

(** The clock in milliseconds and the identifier of [Route::new]. *)
Record RouteReadings := { rr_uuid : rstr; rr_now : Z }.

Section into_route.
Context {UL : UrlLib} (env : rstr -> option rstr).

(** [route.id = ..; route.tls = ..; route.algorithm = ..; route.rules = ..] *)
Definition r_with_body (id : rstr) (tls : bool) (algorithm : LoadBalancingAlgorithm) (rules : DomainRules) (r : Route) : Route := {|
  r_id := id; r_domain := r_domain r; r_paths := r_paths r; r_tls := tls; r_algorithm := algorithm; r_rules := rules;
  r_source := r_source r; r_route_version := r_route_version r; r_created_at := r_created_at r; r_updated_at := r_updated_at r |}.
Definition domain_into_route (rd : RouteReadings) (b : DomainRouteBody) : result rstr Route :=
  let domain := normalize_domain (db_domain b) in
  if is_empty domain then Err (lit "domain is required")
  else
    let? paths :=
      (if is_empty (db_paths b) then
         if is_empty (db_upstreams b) then Err (lit "at least one upstream is required")
         else Ok [{| pr_prefix := normalize_path_prefix (default root_path (db_path b));
                     pr_upstreams := map into_upstream (db_upstreams b); pr_middlewares := [] |}]
       else collect_results into_path (db_paths b)) in
    let route := Route_new (rr_uuid rd) (rr_now rd) domain paths Api in
    let route := r_with_body (default (lit "api-" ++ domain) (db_id b)) (default true (db_tls b)) (db_algorithm b) (db_rules b) route in
    do? validate_for_dynamic_control_plane env route in
    Ok route.

Definition non_blank_text (o : option rstr) : option rstr :=
  match o with Some value => if is_empty (trim value) then None else Some value | None => None end.
Definition or_else {A} (a b : option A) : option A := match a with Some x => Some x | None => b end.
Definition host_port_url (b : InternalRouteBody) : option rstr :=
  match ib_upstream_host b, ib_upstream_port b with
  | Some host, Some port =>
    let host := trim host in
    if is_empty host || (port =? 0) then None else Some (lit "http://" ++ host ++ lit ":" ++ to_dec port)
  | _, _ => None
  end.
Definition internal_upstream_url (b : InternalRouteBody) : option rstr :=
  match or_else (ib_upstream b) (ib_upstream_url b) with
  | None => host_port_url b
  | Some value =>
    let upstream := trim value in
    if is_empty upstream then host_port_url b
    else if starts_with (lit "http://") upstream || starts_with (lit "https://") upstream then Some upstream
    else Some (lit "http://" ++ upstream)
  end.
Definition insert_some (name : string) (value : option rstr) (m : gmap rstr rstr) : gmap rstr rstr :=
  match value with Some v => <[lit name := v]> m | None => m end.
(** [unix_now_u64]: the version of a body without one. *)
Definition unix_now_u64 (rd : RouteReadings) : Z := Z.min (rr_now rd) U64_MAX.
Definition internal_rules (b : InternalRouteBody) : DomainRules :=
  let headers := dr_add_request_headers (ib_rules b) in
  let headers := insert_some "x-pxxl-project-id" (non_blank_text (ib_project_id b)) headers in
  let headers := insert_some "x-pxxl-deployment-id" (non_blank_text (ib_deployment_id b)) headers in
  let headers := insert_some "x-pxxl-container-id" (non_blank_text (ib_container_id b)) headers in
  let headers := insert_some "x-pxxl-route-status" (non_blank_text (ib_status b)) headers in
  dr_with_edits true true headers (dr_response_headers (ib_rules b)) (dr_middlewares (ib_rules b)) (ib_rules b).
Definition internal_into_route (rd : RouteReadings) (fallback_host : rstr) (b : InternalRouteBody) : result rstr Route :=
  let domain := normalize_domain (default fallback_host (or_else (ib_host b) (ib_domain b))) in
  if is_empty domain then Err (lit "host is required")
  else
    let? upstream_url := ok_or (lit "upstream or upstreamHost/upstreamPort is required for route update") (internal_upstream_url b) in
    let route := Route_new (rr_uuid rd) (rr_now rd) domain [PathRoute_new (default root_path (ib_path b)) [Upstream_new upstream_url]] Api in
    let route := {|
      r_id := lit "runtime-" ++ domain; r_domain := r_domain route; r_paths := r_paths route; r_tls := default true (ib_tls b);
      r_algorithm := r_algorithm route; r_rules := internal_rules b; r_source := r_source route;
      r_route_version := default (unix_now_u64 rd) (ib_route_version b); r_created_at := r_created_at route; r_updated_at := r_updated_at route |} in
    do? validate_for_dynamic_control_plane env route in
    Ok route.
End into_route.

(** ** The network of upstreams *)

Section network.
Context {UL : UrlLib} (env : rstr -> option rstr) (lookup_host : rstr -> Z -> option (list IpAddr)).

Definition unsafe_address (addresses : list IpAddr) : option IpAddr :=
  List.find (fun ip => negb (ip_allowed_for_upstream ip)) addresses.
Definition validate_api_upstream_network_safety (raw : rstr) : result rstr unit :=
  match url_parse raw with
  | Err error => Err (lit "invalid upstream URL: " ++ error)
  | Ok parsed =>
    match url_host_str parsed with
    | None => Err (lit "upstream URL needs a host")
    | Some host =>
      let host := to_ascii_lowercase (trim_end_matches "."%char host) in
      if reserved_host_gateway host then
        if host_gateway_upstreams_allowed env then Ok tt
        else Err (lit "reserved host-gateway upstream is not allowed: " ++ host)
      else if http_private_upstreams_allowed env then Ok tt
      else
        match parse_ip host with
        | Some ip => if negb (ip_allowed_for_upstream ip) then Err (lit "unsafe upstream IP is not allowed") else Ok tt
        | None =>
          match url_port_or_known_default parsed with
          | None => Err (lit "upstream URL needs a port or known scheme default")
          | Some port =>
            match lookup_host host port with
            | Some addresses =>
              match unsafe_address addresses with
              | Some ip => Err (lit "upstream host resolves to unsafe IP: " ++ ip_to_string ip)
              | None => Ok tt
              end
            | None => Ok tt
            end
          end
        end
    end
  end.
Definition check_upstreams (l : list Upstream) : result rstr unit :=
  for_each (fun u => validate_api_upstream_network_safety (u_url u)) l.
Definition check_forward_auth (m : MiddlewareDefinition) : result rstr unit :=
  match md_forward_auth m with
  | Some fa => if fa_enabled fa then validate_api_upstream_network_safety (fa_url fa) else Ok tt
  | None => Ok tt
  end.
Definition validate_api_route_network_safety (r : Route) : result rstr unit :=
  do? for_each (fun p => check_upstreams (pr_upstreams p)) (r_paths r) in
  do? for_each (fun l => check_upstreams (lr_upstreams l)) (dr_location_routes (r_rules r)) in
  do? for_each (fun s => check_upstreams (ts_upstreams s)) (dr_traffic_splits (r_rules r)) in
  do? check_upstreams (tm_upstreams (dr_traffic_mirroring (r_rules r))) in
  for_each check_forward_auth (snd <$> map_to_list (dr_middlewares (r_rules r))).

(** The check of the API and the one of the proxy decide alike. *)
Lemma network_checks_agree raw : is_ok (validate_api_upstream_network_safety raw) = runtime_upstream_network_allowed env lookup_host raw.
Proof.
  unfold validate_api_upstream_network_safety, runtime_upstream_network_allowed, network_host.
  destruct (url_parse raw) as [parsed|]; [|done]. destruct (url_host_str parsed) as [host|]; [|done]. cbv zeta.
  destruct (reserved_host_gateway _); [by destruct (host_gateway_upstreams_allowed env)|].
  destruct (http_private_upstreams_allowed env); [done|]. destruct (parse_ip _) as [ip|]; [by destruct (ip_allowed_for_upstream ip)|].
  destruct (url_port_or_known_default parsed) as [port|]; [|done]. destruct (lookup_host _ port) as [l|]; [|done].
  unfold unsafe_address. induction l as [|ip l IH]; [done|]. cbn [List.find forallb]. by destruct (ip_allowed_for_upstream ip).
Qed.
Lemma check_upstreams_ok l : check_upstreams l = Ok tt -> Forall (fun u => runtime_upstream_network_allowed env lookup_host (u_url u) = true) l.
Proof.
  intros H. apply for_each_ok in H. eapply Forall_impl; [exact H|]. intros u Hu. rewrite <- network_checks_agree. by rewrite Hu.
Qed.

(** What the API lets in the proxy lets through: when a route passes the network
    check of the API, then every upstream of it, in paths, locations, splits and
    mirrors, is one the proxy forwards to, as long as names resolve as they did. *)
Theorem accepted_upstreams_forwardable r u :
  r_source r = Api -> validate_api_route_network_safety r = Ok tt -> u ∈ all_upstreams r ->
  ensure_runtime_upstream_allowed env lookup_host (r_source r) (u_url u) = Ok tt.
Proof.
  intros Hsrc H Hu. unfold ensure_runtime_upstream_allowed. rewrite Hsrc, bool_decide_eq_true_2 by done. cbn [negb].
  assert (runtime_upstream_network_allowed env lookup_host (u_url u) = true) as ->; [|done].
  unfold validate_api_route_network_safety in H. do_steps H.
  assert (forall {A} (f : A -> list Upstream) l, for_each (fun x => check_upstreams (f x)) l = Ok tt ->
    Forall (fun u => runtime_upstream_network_allowed env lookup_host (u_url u) = true) (flat_map f l)) as Hflat.
  { intros A f l Hl. apply for_each_ok in Hl. apply Forall_flat_map. eapply Forall_impl; [exact Hl|]. intros x Hx. by apply check_upstreams_ok. }
  apply Hflat in Hstep, Hstep0, Hstep1. apply check_upstreams_ok in Hstep2.
  assert (Forall (fun u => runtime_upstream_network_allowed env lookup_host (u_url u) = true) (all_upstreams r)) as Hall.
  { unfold all_upstreams. rewrite !Forall_app. done. }
  rewrite Forall_forall in Hall. by apply Hall.
Qed.
End network.

(** ** Queries *)

Definition ANALYTICS_RECENT_LIMIT_MAX : Z := 5000.
Definition query_limit (query : rstr) (default_limit max : Z) : Z :=
  let found := find_map (fun part =>
    match split_once (chr "=") part with
    | Some (key, value) => if key =s? lit "limit" then parse_uint U64_MAX value else None
    | None => None
    end) (split (chr "&") query) in
  Z.min (Z.max (default default_limit found) 1) max.
(** [form_urlencoded::parse] of the [url] crate. *)
Definition query_value (form_parse : rstr -> list (rstr * rstr)) (query name : rstr) : option rstr :=
  find_map (fun kv => if (fst kv =s? name) && negb (is_empty (snd kv)) then Some (snd kv) else None) (form_parse query).
Definition query_domains (form_parse : rstr -> list (rstr * rstr)) (query : rstr) : list rstr :=
  match query_value form_parse query (lit "domains") with
  | None => []
  | Some raw =>
    dedup (sort_strings (filter (fun domain => is_empty domain = false)
      (map (fun domain => to_ascii_lowercase (trim_end_matches "."%char (trim domain))) (split (chr ",") raw))))
  end.
Lemma query_limit_bounds query default_limit max : 1 <= max -> 1 <= query_limit query default_limit max <= max.
Proof. unfold query_limit. lia. Qed.

(** *** What redaction hides *)

(** Two tables with the same names and, where a value is shown, the same value. *)
Definition same_shown (shown : rstr -> bool) (m1 m2 : gmap rstr rstr) : Prop :=
  forall name, match m1 !! name, m2 !! name with
               | Some v1, Some v2 => shown name = true -> v1 = v2
               | None, None => True
               | _, _ => False
               end.
Definition users_of (m : MiddlewareDefinition) : option (gmap rstr rstr) * option (gmap rstr rstr) :=
  (ba_users <$> md_basic_auth m, da_users <$> md_digest_auth m).
Definition no_users (m : MiddlewareDefinition) : MiddlewareDefinition := {|
  md_chain := md_chain m;
  md_basic_auth := (fun c => {| ba_enabled := ba_enabled c; ba_realm := ba_realm c; ba_users := ∅ |}) <$> md_basic_auth m;
  md_digest_auth := (fun c => {| da_enabled := da_enabled c; da_realm := da_realm c; da_users := ∅ |}) <$> md_digest_auth m;
  md_forward_auth := md_forward_auth m; md_request_buffering := md_request_buffering m; md_response_buffering := md_response_buffering m;
  md_compression := md_compression m; md_content_type_autodetect := md_content_type_autodetect m; md_retry := md_retry m;
  md_circuit_breaker := md_circuit_breaker m; md_in_flight_limit := md_in_flight_limit m;
  md_pass_tls_client_cert := md_pass_tls_client_cert m |}.
Definition same_users (a b : option (gmap rstr rstr)) : Prop :=
  match a, b with
  | Some m1, Some m2 => same_shown (fun _ => false) m1 m2
  | None, None => True
  | _, _ => False
  end.
(** Equal but for the passwords of the users. *)
Record same_middleware (m1 m2 : MiddlewareDefinition) : Prop := {
  sm_rest : no_users m1 = no_users m2;
  sm_basic : same_users (fst (users_of m1)) (fst (users_of m2));
  sm_digest : same_users (snd (users_of m1)) (snd (users_of m2));
}.
(** Equal but for added request headers, sensitive response headers and passwords. *)
Record same_but_secrets (r1 r2 : Route) : Prop := {
  sb_route : r_with_rules (dr_with_edits true true ∅ ∅ ∅ (r_rules r1)) r1 = r_with_rules (dr_with_edits true true ∅ ∅ ∅ (r_rules r2)) r2;
  sb_alias : dr_www_alias (r_rules r1) = dr_www_alias (r_rules r2);
  sb_websocket : dr_allow_websocket (r_rules r1) = dr_allow_websocket (r_rules r2);
  sb_added : same_shown (fun _ => false) (dr_add_request_headers (r_rules r1)) (dr_add_request_headers (r_rules r2));
  sb_response : same_shown (fun name => negb (sensitive_header_name name)) (dr_response_headers (r_rules r1)) (dr_response_headers (r_rules r2));
  sb_middlewares : forall name, match dr_middlewares (r_rules r1) !! name, dr_middlewares (r_rules r2) !! name with
                                | Some m1, Some m2 => same_middleware m1 m2
                                | None, None => True
                                | _, _ => False
                                end;
}.

Lemma redact_values_same m1 m2 : same_shown (fun _ => false) m1 m2 -> redact_values m1 = redact_values m2.
Proof.
  intros H. apply map_eq. intros name. unfold redact_values. rewrite !lookup_fmap. specialize (H name).
  by destruct (m1 !! name), (m2 !! name).
Qed.
Lemma redact_middleware_same m1 m2 : same_middleware m1 m2 -> redact_middleware m1 = redact_middleware m2.
Proof.
  intros [Hr Hb Hd]. destruct m1 as [? b1 d1], m2 as [? b2 d2]. unfold redact_middleware, no_users in *. cbn -[redact_values] in *.
  destruct b1 as [[]|], b2 as [[]|], d1 as [[]|], d2 as [[]|]; try done; cbn -[redact_values] in *; injection Hr; intros; subst;
    try rewrite (redact_values_same _ _ Hb); try rewrite (redact_values_same _ _ Hd); done.
Qed.
Lemma redact_rules_same (d1 d2 : DomainRules) :
  dr_with_edits true true ∅ ∅ ∅ d1 = dr_with_edits true true ∅ ∅ ∅ d2 ->
  forall a w h p m, dr_with_edits a w h p m d1 = dr_with_edits a w h p m d2.
Proof. intros H a w h p m. exact (f_equal (fun d => dr_with_edits a w h p m d) H). Qed.

(** An answer of the admin API says nothing about a secret: two routes that agree
    but for the values of added request headers, of sensitive response headers and
    of the users of basic and digest authentication are shown alike. *)
Theorem redact_hides r1 r2 : same_but_secrets r1 r2 -> redact_route r1 = redact_route r2.
Proof.
  intros [Hr Ha Hw Hadd Hresp Hmw]. unfold redact_route, redact_rules. rewrite Ha, Hw, (redact_values_same _ _ Hadd).
  replace (map_imap _ (dr_response_headers (r_rules r1))) with
    (map_imap (fun name value => Some (if sensitive_header_name name then REDACTED else value)) (dr_response_headers (r_rules r2))).
  - replace (redact_middleware <$> dr_middlewares (r_rules r1)) with (redact_middleware <$> dr_middlewares (r_rules r2)).
    + rewrite (redact_rules_same _ _ (f_equal r_rules Hr)).
      exact (f_equal (r_with_rules (dr_with_edits _ _ _ _ _ (r_rules r2))) Hr).
    + apply map_eq. intros name. rewrite !lookup_fmap. specialize (Hmw name).
      destruct (dr_middlewares (r_rules r1) !! name), (dr_middlewares (r_rules r2) !! name); try done. cbn. f_equal.
      symmetry. by apply redact_middleware_same.
  - apply map_eq. intros name. rewrite !map_lookup_imap. specialize (Hresp name).
    destruct (dr_response_headers (r_rules r1) !! name), (dr_response_headers (r_rules r2) !! name); try done.
    cbn -[sensitive_header_name REDACTED] in *. destruct (sensitive_header_name name); [done|]. by rewrite Hresp.
Qed.
End rules.

Module RoutesDemo.
Definition up : Upstream := Upstream_new (lit "http://93.184.216.34:8080").
Definition rules (key : string) : @DomainRules CidrLib :=
  dr_with_edits true true {[ lit "x-api-key" := lit key ]} {[ lit "Set-Cookie" := lit key; lit "x-frame-options" := lit "DENY" ]}
    {[ lit "auth" := {| md_chain := []; md_basic_auth := Some {| ba_enabled := true; ba_realm := lit "Pxxl"; ba_users := {[ lit "ops" := lit key ]} |};
                        md_digest_auth := None; md_forward_auth := None; md_request_buffering := None; md_response_buffering := None;
                        md_compression := None; md_content_type_autodetect := None; md_retry := None; md_circuit_breaker := None;
                        md_in_flight_limit := None; md_pass_tls_client_cert := None |} ]} DomainRules_default.
Definition route (key : string) : @Route CidrLib :=
  r_with_rules (rules key) (Route_new (lit "id") 0 (lit "Example.com") [PathRoute_new (lit "/") [up]] Api).
Lemma same_shown_singleton shown (k : rstr) v1 v2 : (shown k = true -> v1 = v2) -> same_shown shown {[ k := v1 ]} {[ k := v2 ]}.
Proof.
  intros H name. destruct (decide (k = name)) as [<-|Hne]; [by rewrite !lookup_singleton_eq|by rewrite !lookup_singleton_ne].
Qed.
Lemma redact_hides_witness : redact_route (route "one") = redact_route (route "two").
Proof.
  apply (@redact_hides CidrLib (route "one") (route "two")). split.
  - reflexivity.
  - reflexivity.
  - reflexivity.
  - apply same_shown_singleton. done.
  - cbn [r_rules route r_with_rules rules dr_with_edits dr_response_headers]. intros name.
    destruct (decide (name = lit "Set-Cookie")) as [->|H1]; [rewrite !lookup_insert_eq; discriminate|].
    rewrite !lookup_insert_ne by (intros E; exact (H1 (eq_sym E))).
    destruct (decide (lit "x-frame-options" = name)) as [<-|H2]; [rewrite !lookup_singleton_eq|rewrite !lookup_singleton_ne by exact H2]; reflexivity.
  - cbn [r_rules route r_with_rules rules dr_with_edits dr_middlewares]. intros name.
    destruct (decide (lit "auth" = name)) as [<-|H2]; [rewrite !lookup_singleton_eq|rewrite !lookup_singleton_ne by exact H2; exact I].
    split; [reflexivity| |exact I]. apply same_shown_singleton. done.
Defined.
Definition no_env : rstr -> option rstr := fun _ => None.
Definition no_dns : rstr -> Z -> option (list IpAddr) := fun _ _ => None.
Lemma accepted_upstreams_forwardable_witness :
  @ensure_runtime_upstream_allowed SimpleUrlLib no_env no_dns (r_source (route "one")) (u_url up) = Ok tt.
Proof.
  apply (@accepted_upstreams_forwardable CidrLib SimpleUrlLib no_env no_dns (route "one") up).
  - reflexivity.
  - vm_compute. reflexivity.
  - apply list_elem_of_In. left. reflexivity.
Defined.
(** Not every check agrees on all names: a name that does not resolve is accepted. *)
Example unresolved_name_accepted :
  @validate_api_upstream_network_safety SimpleUrlLib no_env no_dns (lit "http://later.example.com") = Ok tt /\
  @validate_api_upstream_network_safety SimpleUrlLib no_env (fun _ _ => Some [V4 2130706433]) (lit "http://later.example.com") =
    Err (lit "upstream host resolves to unsafe IP: 127.0.0.1").
Proof. split; vm_compute; reflexivity. Qed.
End RoutesDemo.
