(* ===== verification/AdminApi.v ===== *)
(** The admin API ([ApiServer::handle] of [api/src/lib.rs]): which endpoint a request
    reaches, the scope it needs, and what the endpoints do to the routes, the
    database routes, the blacklist and the adaptive blocker.  Certificates are
    answered elsewhere; the analytics database and [serde_json] are parameters. *)
From stdpp Require Import options.
From S2P Require Import Prelude RustStr RustNum RustNet CommonTypes CommonPath CommonValidate Ddos AdaptiveBlocker RouteRegistry Stats HttpHeaders HttpForward DatabaseProxy Redis RouteStore RedisTokens AdminAuth AdminRoutes.

Local Open Scope Z_scope.

(** ** Endpoints *)

Inductive endpoint :=
| Healthz | Readyz | ListRoutes | ListDomains | CreateDomain | RouteSnapshot | Reconcile
| PutInternal | GetInternal | DeleteInternal
| Login | CreateToken | ListTokens | RevokeToken
| StatsDomains | AnalyticsRoutes | AnalyticsVisits | AnalyticsLogs
| DomainStats | DomainVisits | DomainLogs | DomainCert | CertResync | DomainCertPublic | GetDomain | DeleteDomain
| Upstreams | AutoBlocks | Watchlist | Unblock | Unwatch
| ListDatabase | UpsertDatabase | DomainBandwidth | BandwidthHistory | BandwidthRealtime | DeleteDatabase
| Certs | CertsPublic | AddBlacklist | RemoveBlacklist | NotFound.
#[export] Instance endpoint_eq_dec : EqDecision endpoint.
Proof. solve_decision. Defined.

(** An arm of the [match]: its method, its test of the path, its endpoint. *)
Definition exactly (p : string) (path : rstr) : bool := path =s? lit p.
Definition under (p : string) (path : rstr) : bool := starts_with (lit p) path.
Definition between (p s : string) (path : rstr) : bool := starts_with (lit p) path && ends_with (lit s) path.
Definition arm : Type := string * (rstr -> bool) * endpoint.
Definition arms_routes : list arm := [
  ("GET", exactly "/healthz", Healthz);
  ("GET", exactly "/readyz", Readyz);
  ("GET", exactly "/v1/routes", ListRoutes);
  ("GET", exactly "/v1/domains", ListDomains);
  ("POST", exactly "/v1/domains", CreateDomain);
  ("GET", fun path => exactly "/internal/routes/snapshot" path || exactly "/internal/route-snapshot" path, RouteSnapshot);
  ("POST", fun path => exactly "/internal/routes/reconcile" path || exactly "/internal/route-reconcile" path, Reconcile);
  ("PUT", under "/internal/routes/", PutInternal);
  ("GET", under "/internal/routes/", GetInternal);
  ("DELETE", under "/internal/routes/", DeleteInternal)]%string.
Definition arms_auth : list arm := [
  ("POST", exactly "/v1/auth/login", Login);
  ("POST", exactly "/v1/auth/tokens", CreateToken);
  ("GET", exactly "/v1/auth/tokens", ListTokens);
  ("DELETE", under "/v1/auth/tokens/", RevokeToken)]%string.
Definition arms_stats : list arm := [
  ("GET", exactly "/v1/stats/domains", StatsDomains);
  ("GET", exactly "/v1/analytics/routes", AnalyticsRoutes);
  ("GET", exactly "/v1/analytics/visits", AnalyticsVisits);
  ("GET", exactly "/v1/analytics/logs", AnalyticsLogs);
  ("GET", between "/v1/domains/" "/stats", DomainStats);
  ("GET", between "/v1/domains/" "/visits", DomainVisits);
  ("GET", between "/v1/domains/" "/logs", DomainLogs)]%string.
Definition arms_domains : list arm := [
  ("GET", between "/v1/domains/" "/cert", DomainCert);
  ("POST", between "/v1/domains/" "/cert/resync", CertResync);
  ("GET", between "/v1/domains/" "/cert/public", DomainCertPublic);
  ("GET", under "/v1/domains/", GetDomain);
  ("DELETE", under "/v1/domains/", DeleteDomain)]%string.
Definition arms_rest : list arm := [
  ("GET", exactly "/v1/upstreams", Upstreams);
  ("GET", exactly "/v1/security/auto-blocks", AutoBlocks);
  ("GET", exactly "/v1/security/watchlist", Watchlist);
  ("DELETE", under "/v1/security/auto-blocks/", Unblock);
  ("DELETE", under "/v1/security/watchlist/", Unwatch);
  ("GET", exactly "/v1/database-routes", ListDatabase);
  ("POST", exactly "/v1/database-routes", UpsertDatabase);
  ("GET", between "/v1/domains/" "/bandwidth", DomainBandwidth);
  ("GET", between "/v1/domains/" "/bandwidth/history", BandwidthHistory);
  ("GET", between "/v1/domains/" "/bandwidth/realtime", BandwidthRealtime);
  ("DELETE", under "/v1/database-routes/", DeleteDatabase);
  ("GET", exactly "/v1/certs", Certs);
  ("GET", exactly "/v1/certs/public", CertsPublic);
  ("POST", under "/v1/blacklist/", AddBlacklist);
  ("DELETE", under "/v1/blacklist/", RemoveBlacklist)]%string.
Definition arms : list arm := arms_routes ++ arms_auth ++ arms_stats ++ arms_domains ++ arms_rest.
Fixpoint first_arm (l : list arm) (method path : rstr) : endpoint :=
  match l with
  | [] => NotFound
  | (m, test, e) :: l' => if (method =s? lit m) && test path then e else first_arm l' method path
  end.
Definition endpoint_of (method path : rstr) : endpoint := first_arm arms method path.

(** The scope the arm asks for, if it asks. *)
Definition required_scope (e : endpoint) : option rstr :=
  match e with
  | Healthz | Readyz | Login | Certs | NotFound => None
  | ListRoutes | ListDomains | RouteSnapshot | GetInternal | DomainCert | DomainCertPublic | GetDomain | Upstreams | AutoBlocks
  | Watchlist | ListDatabase | CertsPublic => Some SCOPE_ROUTES_READ
  | CreateDomain | Reconcile | PutInternal | DeleteInternal | CertResync | DeleteDomain | Unblock | Unwatch | UpsertDatabase
  | DeleteDatabase | AddBlacklist | RemoveBlacklist => Some SCOPE_ROUTES_WRITE
  | CreateToken | RevokeToken => Some SCOPE_TOKENS_WRITE
  | ListTokens => Some SCOPE_TOKENS_READ
  | StatsDomains | AnalyticsRoutes | AnalyticsVisits | AnalyticsLogs | DomainStats | DomainVisits | DomainLogs
  | DomainBandwidth | BandwidthHistory | BandwidthRealtime => Some SCOPE_ANALYTICS_READ
  end.

(** [trim_end_matches] of a string removes it as often as it is there. *)
Fixpoint trim_suffixes (fuel : nat) (s path : rstr) : rstr :=
  match fuel with
  | O => path
  | S fuel' => match strip_suffix s path with Some rest => trim_suffixes fuel' s rest | None => path end
  end.
Definition trim_end_str (s : string) (path : rstr) : rstr := trim_suffixes (length path) (lit s) path.
Definition path_arg (p : string) (path : rstr) : rstr := trim_matches (chr "/") (trim_start_str p path).
Definition path_arg_between (p s : string) (path : rstr) : rstr := trim_matches (chr "/") (trim_end_str s (trim_start_str p path)).

(** ** What the endpoints work on *)

Section api.
Context {NL : IpNetLib} {UL : UrlLib} {HL : HeaderLib} {DL : DigestLib} {TC : TokenCodec} {RC : RouteCodec} {SC : SnapshotCodec}.
Context (env : rstr -> option rstr) (lookup_host : rstr -> Z -> option (list IpAddr)).

(** What only a writer may change: the routes and gauges, the blacklist and the
    adaptive blocker, the database routes with their file and listeners, the Redis
    hash, the snapshot file, and the snapshots that background tasks still write. *)
Record Control := {
  ct_edge : EdgeState;
  ct_security : SecurityEngine;
  ct_database : option DatabaseRouteRegistry;
  ct_database_file : option (list DatabaseProxyRoute);
  ct_listeners : gset Z;
  ct_hash : gmap rstr rstr * list reply;
  ct_files : Files;
  ct_pending : list (list Route);
}.
Definition set_edge (x : EdgeState) (c : Control) : Control := {|
  ct_edge := x; ct_security := ct_security c; ct_database := ct_database c; ct_database_file := ct_database_file c;
  ct_listeners := ct_listeners c; ct_hash := ct_hash c; ct_files := ct_files c; ct_pending := ct_pending c |}.
Definition set_blacklist (x : Blacklist.BlacklistEngine) (c : Control) : Control := {|
  ct_edge := ct_edge c;
  ct_security := {| se_blacklist := x; se_rate_limiter := se_rate_limiter (ct_security c); se_adaptive_blocker := se_adaptive_blocker (ct_security c) |};
  ct_database := ct_database c; ct_database_file := ct_database_file c;
  ct_listeners := ct_listeners c; ct_hash := ct_hash c; ct_files := ct_files c; ct_pending := ct_pending c |}.
Definition set_blocker (x : AdaptiveBlocker) (c : Control) : Control := {|
  ct_edge := ct_edge c;
  ct_security := {| se_blacklist := se_blacklist (ct_security c); se_rate_limiter := se_rate_limiter (ct_security c); se_adaptive_blocker := x |};
  ct_database := ct_database c; ct_database_file := ct_database_file c;
  ct_listeners := ct_listeners c; ct_hash := ct_hash c; ct_files := ct_files c; ct_pending := ct_pending c |}.
Definition set_database (x : DatabaseRouteRegistry) (file : option (list DatabaseProxyRoute)) (ports : gset Z) (c : Control) : Control := {|
  ct_edge := ct_edge c; ct_security := ct_security c; ct_database := Some x; ct_database_file := file;
  ct_listeners := ports; ct_hash := ct_hash c; ct_files := ct_files c; ct_pending := ct_pending c |}.
Definition set_hash (x : gmap rstr rstr * list reply) (c : Control) : Control := {|
  ct_edge := ct_edge c; ct_security := ct_security c; ct_database := ct_database c; ct_database_file := ct_database_file c;
  ct_listeners := ct_listeners c; ct_hash := x; ct_files := ct_files c; ct_pending := ct_pending c |}.
Definition set_files (x : Files) (pending : list (list Route)) (c : Control) : Control := {|
  ct_edge := ct_edge c; ct_security := ct_security c; ct_database := ct_database c; ct_database_file := ct_database_file c;
  ct_listeners := ct_listeners c; ct_hash := ct_hash c; ct_files := x; ct_pending := pending |}.

(** The settings of the server. *)
Record ApiServer := {
  sv_auth : AdminApiAuth;
  sv_route_store : bool;
  sv_route_snapshot_path : bool;
  sv_database_routes_store_path : bool;
  (** the ports of [DatabasePortProxyManager] *)
  sv_database_ports : option (Z * Z);
}.
(** What the outside gives to one request. *)
Record ApiReadings := {
  ar_auth : AuthReadings;
  ar_route : RouteReadings;
  ar_security : Readings;
  ar_save : save_fate;
  ar_database_saved : bool;
  ar_store_error : rstr;
  ar_file_error : rstr;
}.

(** ** Answers *)

Record UpstreamView := {
  uv_route_id : rstr; uv_domain : rstr; uv_path : rstr; uv_url : rstr; uv_healthy : bool; uv_weight : Z;
}.
(** Rows come from the analytics database or from memory. *)
Inductive rows (Row A : Type) := FromDatabase (l : list Row) | FromMemory (l : list A).
Context {Row : Type}.
Inductive api_answer :=
| ApiError (r : refusal)
| HealthAnswer
| ReadyAnswer (routes : Z)
| RoutesAnswer (l : list Route)
| ReconciledAnswer (routes : Z)
| RouteAnswer (r : Route)
| UpsertAnswer (changed : bool) (r : Route)
| StaleAnswer (host : rstr) (current given : Z)
| DeletedAnswer (domain : rstr) (memory_deleted store_deleted : bool)
| AuthAnswer (a : auth_answer)
| StatsAnswer (l : rows Row DomainStatsSnapshot)
| VisitsAnswer (domain request_id : option rstr) (l : rows Row VisitSnapshot)
| DomainStatsAnswer (domain : rstr) (stats : option (Row + DomainStatsSnapshot))
| UpstreamsAnswer (l : list UpstreamView)
| BlocksAnswer (l : list AdaptiveBlockSnapshot)
| WatchlistAnswer (l : list SuspiciousIpWatchlistEntry)
| RemovedAnswer (ip : IpAddr) (removed : bool)
| DatabaseRoutesAnswer (l : list DatabaseProxyRoute)
| DatabaseUpserted (r : DatabaseProxyRoute)
| DatabaseDeleted (deleted : bool)
| BlacklistAnswer (added : bool) (domain_id : rstr) (ip : IpAddr)
| CertificateAnswer (e : endpoint).

(** [serde_json::from_slice] of the bodies. *)
Record DatabaseRouteBody := {
  bb_database_type : rstr; bb_key : rstr; bb_upstream : rstr; bb_route_host : option rstr; bb_public_port : option Z;
}.
Context (domain_from_slice : rstr -> result rstr DomainRouteBody) (internal_from_slice : rstr -> result rstr InternalRouteBody)
  (database_from_slice : rstr -> result rstr DatabaseRouteBody) (ip_from_slice : rstr -> result rstr IpAddr).

(** ** Keeping routes *)

Definition api_route_count (c : Control) : Z := Z.of_nat (length (api_routes_snapshot (ct_edge c))).
Definition store_error_text (rd : ApiReadings) (e : RouteStoreError) : rstr :=
  match e with InvalidRoute domain reason => lit "invalid route " ++ domain ++ lit ": " ++ reason | _ => ar_store_error rd end.
Definition persist_route_snapshot (sv : ApiServer) (rd : ApiReadings) (c : Control) : Control * result rstr unit :=
  if negb (sv_route_snapshot_path sv) then (c, Ok tt)
  else
    let '(files, saved) := save_http_routes (ar_save rd) (api_routes_snapshot (ct_edge c)) (ct_files c) in
    (set_files files (ct_pending c) c, if saved then Ok tt else Err (ar_file_error rd)).
(** The task is spawned: it writes some time later. *)
Definition persist_route_snapshot_background (sv : ApiServer) (c : Control) : Control :=
  if negb (sv_route_snapshot_path sv) then c
  else set_files (ct_files c) (ct_pending c ++ [api_routes_snapshot (ct_edge c)]) c.
(** The [i]-th of the tasks runs. *)
Definition run_background (i : nat) (fate : save_fate) (c : Control) : Control :=
  match ct_pending c !! i with
  | None => c
  | Some routes => set_files (fst (save_http_routes fate routes (ct_files c))) (delete i (ct_pending c)) c
  end.
Definition persist_route_stores (sv : ApiServer) (rd : ApiReadings) (route : Route) (c : Control) : Control * result rstr unit :=
  if sv_route_store sv then
    let '(hash, r) := upsert_route env route (ct_hash c) in
    let c := set_hash hash c in
    match r with
    | Err e => (c, Err (lit "failed to persist Redis route: " ++ store_error_text rd e))
    | Ok _ => (persist_route_snapshot_background sv c, Ok tt)
    end
  else (persist_route_snapshot_background sv c, Ok tt).

(** The end of [create_domain] and [upsert_internal_route]. *)
Definition store_route (sv : ApiServer) (rd : ApiReadings) (route : Route) (c : Control) : Control * api_answer :=
  let '(edge, changed) := es_upsert_api_route route (ct_edge c) in
  let c := set_edge edge c in
  if changed then
    match persist_route_stores sv rd route c with
    | (c, Err error) => (c, ApiError (502, error))
    | (c, Ok _) => (c, UpsertAnswer true (redact_route route))
    end
  else (c, UpsertAnswer false (redact_route route)).
Definition quota_error : rstr := lit "api route quota exceeded: max " ++ to_dec MAX_ROUTES_PER_SOURCE.
Definition create_domain (sv : ApiServer) (req : AdminRequest) (rd : ApiReadings) (c : Control) : Control * api_answer :=
  match parse_body domain_from_slice (aq_body req) with
  | Err r => (c, ApiError r)
  | Ok body =>
    match domain_into_route env (ar_route rd) body with
    | Err error => (c, ApiError (400, error))
    | Ok route =>
      match validate_api_route_network_safety env lookup_host route with
      | Err error => (c, ApiError (400, error))
      | Ok _ =>
        let existing_api_routes := filter (fun existing => r_source existing = Api) (snapshot (es_routes (ct_edge c))) in
        let route_exists := existsb (fun existing => r_domain existing =s? r_domain route) existing_api_routes in
        if negb route_exists && (MAX_ROUTES_PER_SOURCE <=? Z.of_nat (length existing_api_routes)) then (c, ApiError (413, quota_error))
        else store_route sv rd route c
      end
    end
  end.
(** The first part of [upsert_internal_route], on the routes at that time: the answer
    of a refused update, or the route.  The name lookups of its last check are waited
    for, so other requests may come between this part and the next. *)
Definition admit_internal_route (req : AdminRequest) (path : rstr) (rd : ApiReadings) (c : Control) : api_answer + Route :=
  let path_host := normalize_domain (path_arg "/internal/routes/" path) in
  if is_empty path_host then inl (ApiError (400, lit "missing host"))
  else
    match parse_body internal_from_slice (aq_body req) with
    | Err r => inl (ApiError r)
    | Ok body =>
      match internal_into_route env (ar_route rd) path_host body with
      | Err error => inl (ApiError (400, error))
      | Ok route =>
        if negb (r_domain route =s? path_host) then inl (ApiError (400, lit "route host does not match URL host"))
        else
          match find_domain (es_routes (ct_edge c)) (r_domain route) with
          | Some existing =>
            if bool_decide (r_source existing = Api) && (r_route_version route <? r_route_version existing)
            then inl (StaleAnswer (r_domain route) (r_route_version existing) (r_route_version route))
            else
              match validate_api_route_network_safety env lookup_host route with
              | Err error => inl (ApiError (400, error))
              | Ok _ => inr route
              end
          | None =>
            match validate_api_route_network_safety env lookup_host route with
            | Err error => inl (ApiError (400, error))
            | Ok _ => inr route
            end
          end
      end
    end.
(** The second part, on the routes it finds then. *)
Definition finish_internal_route (sv : ApiServer) (rd : ApiReadings) (admitted : api_answer + Route) (c : Control) : Control * api_answer :=
  match admitted with inl answer => (c, answer) | inr route => store_route sv rd route c end.
Definition upsert_internal_route (sv : ApiServer) (req : AdminRequest) (path : rstr) (rd : ApiReadings) (c : Control) : Control * api_answer :=
  finish_internal_route sv rd (admit_internal_route req path rd c) c.
(** [DELETE /v1/domains/..] and [delete_internal_route] do the same. *)
Definition delete_route (sv : ApiServer) (domain missing : rstr) (rd : ApiReadings) (c : Control) : Control * api_answer :=
  if is_empty domain then (c, ApiError (400, missing))
  else
    let '(edge, memory_deleted) := es_delete_api_domain domain (ct_edge c) in
    let c := set_edge edge c in
    let '(c, store_deleted) :=
      if sv_route_store sv then let '(hash, r) := delete_domain domain (ct_hash c) in (set_hash hash c, r) else (c, Ok false) in
    match store_deleted with
    | Err e => (c, ApiError (502, lit "failed to delete Redis route: " ++ store_error_text rd e))
    | Ok store_deleted =>
      match persist_route_snapshot sv rd c with
      | (c, Err error) => (c, ApiError (502, lit "failed to persist route snapshot: " ++ error))
      | (c, Ok _) => (c, DeletedAnswer domain memory_deleted store_deleted)
      end
    end.
Definition delete_internal_route (sv : ApiServer) (path : rstr) (rd : ApiReadings) (c : Control) : Control * api_answer :=
  delete_route sv (normalize_domain (path_arg "/internal/routes/" path)) (lit "missing host") rd c.
Definition delete_domain_endpoint (sv : ApiServer) (path : rstr) (rd : ApiReadings) (c : Control) : Control * api_answer :=
  delete_route sv (normalize_domain (path_arg "/v1/domains/" path)) (lit "missing domain") rd c.
Definition reconcile (sv : ApiServer) (rd : ApiReadings) (c : Control) : Control * api_answer :=
  match persist_route_snapshot sv rd c with
  | (c, Err error) => (c, ApiError (502, lit "route reconcile snapshot failed: " ++ error))
  | (c, Ok _) => (c, ReconciledAnswer (api_route_count c))
  end.

(** ** Database routes *)

Definition no_database : api_answer := ApiError (503, lit "database proxy is not configured").
(** [ensure_listener] *)
Definition ensure_listener (ports : option (Z * Z)) (public_port : option Z) (listeners : gset Z) : gset Z :=
  match ports, public_port with
  | Some (min_port, max_port), Some port =>
    if (port =? 0) || (port <? min_port) || (max_port <? port) then listeners else {[port]} ∪ listeners
  | _, _ => listeners
  end.
(** [persist_database_routes] *)
Definition saved_database (sv : ApiServer) (rd : ApiReadings) (registry : DatabaseRouteRegistry) (file : option (list DatabaseProxyRoute))
  : option (list DatabaseProxyRoute) * bool :=
  if negb (sv_database_routes_store_path sv) then (file, true)
  else if ar_database_saved rd then (Some (db_list registry), true) else (file, false).
Definition upsert_database_route (sv : ApiServer) (req : AdminRequest) (rd : ApiReadings) (c : Control) : Control * api_answer :=
  match ct_database c with
  | None => (c, no_database)
  | Some registry =>
    match parse_body database_from_slice (aq_body req) with
    | Err r => (c, ApiError r)
    | Ok body =>
      if is_empty (trim (bb_database_type body)) || is_empty (trim (bb_key body)) || is_empty (trim (bb_upstream body))
      then (c, ApiError (400, lit "database_type, key, and upstream are required"))
      else
        let route := {| dp_database_type := bb_database_type body; dp_key := bb_key body; dp_upstream := bb_upstream body;
                        dp_route_host := non_blank_text (bb_route_host body); dp_public_port := bb_public_port body |} in
        let registry := db_upsert route registry in
        let listeners := ensure_listener (sv_database_ports sv) (dp_public_port route) (ct_listeners c) in
        let '(file, saved) := saved_database sv rd registry (ct_database_file c) in
        (set_database registry file listeners c,
         if saved then DatabaseUpserted route
         else ApiError (500, lit "database route was updated in memory but could not be persisted"))
    end
  end.
Definition delete_database_route (sv : ApiServer) (path : rstr) (rd : ApiReadings) (c : Control) : Control * api_answer :=
  match ct_database c with
  | None => (c, no_database)
  | Some registry =>
    match split (chr "/") (trim_start_str "/v1/database-routes/" path) with
    | [database_type; key] =>
      if is_empty database_type || is_empty key then (c, ApiError (400, lit "expected /v1/database-routes/{type}/{key}"))
      else
        let '(registry, deleted) := db_delete database_type key registry in
        if deleted then
          let '(file, saved) := saved_database sv rd registry (ct_database_file c) in
          (set_database registry file (ct_listeners c) c,
           if saved then DatabaseDeleted true
           else ApiError (500, lit "database route was deleted in memory but could not be persisted"))
        else (set_database registry (ct_database_file c) (ct_listeners c) c, DatabaseDeleted false)
    | _ => (c, ApiError (400, lit "expected /v1/database-routes/{type}/{key}"))
    end
  end.

(** ** Blacklist and adaptive blocker *)

Definition add_blacklist (req : AdminRequest) (path : rstr) (c : Control) : Control * api_answer :=
  let domain_id := path_arg "/v1/blacklist/" path in
  if is_empty domain_id then (c, ApiError (400, lit "missing domain_id"))
  else
    match parse_body ip_from_slice (aq_body req) with
    | Err r => (c, ApiError r)
    | Ok ip => (set_blacklist (Blacklist.add domain_id ip (se_blacklist (ct_security c))) c, BlacklistAnswer true domain_id ip)
    end.
Definition remove_blacklist (path : rstr) (c : Control) : Control * api_answer :=
  match split (chr "/") (trim_start_str "/v1/blacklist/" path) with
  | [domain_id; ip_value] =>
    match parse_ip ip_value with
    | Some ip => (set_blacklist (Blacklist.remove domain_id ip (se_blacklist (ct_security c))) c, BlacklistAnswer false domain_id ip)
    | None => (c, ApiError (400, addr_parse_error))
    end
  | _ => (c, ApiError (400, lit "expected /v1/blacklist/{domain_id}/{ip}"))
  end.
Definition remove_watched (drop : IpAddr -> Readings -> AdaptiveBlocker -> AdaptiveBlocker * bool) (ip_value : rstr) (rd : ApiReadings)
    (c : Control) : Control * api_answer :=
  match parse_ip ip_value with
  | Some ip =>
    let '(blocker, removed) := drop ip (ar_security rd) (se_adaptive_blocker (ct_security c)) in
    (set_blocker blocker c, RemovedAnswer ip removed)
  | None => (c, ApiError (400, addr_parse_error))
  end.

(** ** Reading *)

Definition get_route (domain missing not_found : rstr) (api_only : bool) (c : Control) : api_answer :=
  if is_empty domain then ApiError (400, missing)
  else
    match find_domain (es_routes (ct_edge c)) domain with
    | Some route => if api_only && negb (bool_decide (r_source route = Api)) then ApiError (404, not_found) else RouteAnswer (redact_route route)
    | None => ApiError (404, not_found)
    end.
(** [GET /v1/domains/..] tests the text of the path before it normalises it. *)
Definition get_domain (path : rstr) (c : Control) : api_answer :=
  let domain := path_arg "/v1/domains/" path in
  if is_empty domain then ApiError (400, lit "missing domain")
  else
    match find_domain (es_routes (ct_edge c)) (normalize_domain domain) with
    | Some route => RouteAnswer (redact_route route)
    | None => ApiError (404, lit "domain not found")
    end.
Definition upstream_views (routes : list Route) : list UpstreamView :=
  flat_map (fun route => flat_map (fun path => map (fun upstream => {|
    uv_route_id := r_id route; uv_domain := r_domain route; uv_path := pr_prefix path;
    uv_url := u_url upstream; uv_healthy := u_healthy upstream; uv_weight := u_weight upstream |}) (pr_upstreams path)) (r_paths route)) routes.

(** The analytics database, when there is one: [None] is an error, after which the
    numbers of this process are used. *)
Inductive analytics_query :=
| QuerySnapshots (domains : list rstr) (limit : Z)
| QueryVisits (domain request_id : option rstr) (limit : Z)
| QueryDomain (domain : rstr).
Context (analytics : option (analytics_query -> option (list Row))) (form_parse : rstr -> list (rstr * rstr)).
Definition ask {A} (q : analytics_query) (memory : list A) : rows Row A :=
  match analytics with
  | Some run => match run q with Some l => FromDatabase _ _ l | None => FromMemory _ _ memory end
  | None => FromMemory _ _ memory
  end.
Definition stats_domains (query : rstr) (st : DomainStatsRegistry) : api_answer :=
  let requested := query_domains form_parse query in
  let memory := snapshots st in
  let memory := if is_empty requested then memory
                else filter (fun row => existsb (fun domain => eq_ignore_ascii_case domain (sn_domain row)) requested = true) memory in
  StatsAnswer (ask (QuerySnapshots requested 50000) memory).
Definition analytics_routes (st : DomainStatsRegistry) : api_answer := StatsAnswer (ask (QuerySnapshots [] 50000) (snapshots st)).
Definition recent_limit (query : rstr) : Z := query_limit query 50 ANALYTICS_RECENT_LIMIT_MAX.
Definition analytics_visits (query : rstr) (st : DomainStatsRegistry) : api_answer :=
  let limit := recent_limit query in
  VisitsAnswer None None (ask (QueryVisits None None limit) (recent_visits_all st (Z.to_nat limit))).
Definition analytics_logs (query : rstr) (st : DomainStatsRegistry) : api_answer :=
  let limit := recent_limit query in
  let request_id := query_value form_parse query (lit "request_id") in
  VisitsAnswer None request_id (ask (QueryVisits None request_id limit)
    match request_id with
    | Some id => recent_visits_by_request_id st id (Z.to_nat limit)
    | None => recent_visits_all st (Z.to_nat limit)
    end).
Definition missing_domain : api_answer := ApiError (400, lit "missing domain").
Definition domain_stats (path : rstr) (st : DomainStatsRegistry) : api_answer :=
  let domain := path_arg_between "/v1/domains/" "/stats" path in
  if is_empty domain then missing_domain
  else
    let normalized := normalize_domain domain in
    let memory := inr <$> snapshot_domain st normalized in
    DomainStatsAnswer normalized
      match analytics with
      | Some run => match run (QueryDomain normalized) with Some l => inl <$> head l | None => memory end
      | None => memory
      end.
Definition domain_visits (path query : rstr) (st : DomainStatsRegistry) : api_answer :=
  let domain := path_arg_between "/v1/domains/" "/visits" path in
  if is_empty domain then missing_domain
  else
    let normalized := normalize_domain domain in
    let limit := recent_limit query in
    VisitsAnswer (Some normalized) None (ask (QueryVisits (Some normalized) None limit) (recent_visits st normalized (Z.to_nat limit))).
Definition domain_logs (path query : rstr) (st : DomainStatsRegistry) : api_answer :=
  let domain := path_arg_between "/v1/domains/" "/logs" path in
  if is_empty domain then missing_domain
  else
    let normalized := normalize_domain domain in
    let limit := recent_limit query in
    let request_id := query_value form_parse query (lit "request_id") in
    VisitsAnswer (Some normalized) request_id (ask (QueryVisits (Some normalized) request_id limit)
      match request_id with
      | Some id => recent_visits_for_domain_by_request_id st normalized id (Z.to_nat limit)
      | None => recent_visits st normalized (Z.to_nat limit)
      end).

(** ** The server *)

Context (login_from_slice : rstr -> result rstr LoginBody) (token_from_slice : rstr -> result rstr TokenCreateBody).

Record ApiState := {
  as_control : Control;
  as_tokens : store_state;
  as_attempts : gmap rstr LoginAttemptWindow;
  as_stats : DomainStatsRegistry;
  (** the gauges [adaptive_active_blocks] and [adaptive_observed_ips] *)
  as_gauges : Z * Z;
}.
Definition set_control (x : Control) (s : ApiState) : ApiState := {|
  as_control := x; as_tokens := as_tokens s; as_attempts := as_attempts s; as_stats := as_stats s; as_gauges := as_gauges s |}.
Definition set_token_store (x : store_state) (s : ApiState) : ApiState := {|
  as_control := as_control s; as_tokens := x; as_attempts := as_attempts s; as_stats := as_stats s; as_gauges := as_gauges s |}.
Definition set_attempts (x : gmap rstr LoginAttemptWindow) (s : ApiState) : ApiState := {|
  as_control := as_control s; as_tokens := as_tokens s; as_attempts := x; as_stats := as_stats s; as_gauges := as_gauges s |}.
Definition set_gauges (x : Z * Z) (s : ApiState) : ApiState := {|
  as_control := as_control s; as_tokens := as_tokens s; as_attempts := as_attempts s; as_stats := as_stats s; as_gauges := x |}.

Definition on_control (f : Control -> Control * api_answer) (s : ApiState) : ApiState * api_answer :=
  let '(c, a) := f (as_control s) in (set_control c s, a).
Definition on_tokens (f : store_state -> store_state * auth_answer) (s : ApiState) : ApiState * api_answer :=
  let '(t, a) := f (as_tokens s) in (set_token_store t s, AuthAnswer a).
Definition blocker_of (s : ApiState) : AdaptiveBlocker := se_adaptive_blocker (ct_security (as_control s)).
Definition auto_blocks (rd : ApiReadings) (s : ApiState) : ApiState * api_answer :=
  let blocks := active_blocks (rd_now_ms (ar_security rd)) (blocker_of s) in
  (set_gauges (Z.of_nat (length blocks), Z.of_nat (size (ab_windows (blocker_of s)))) s, BlocksAnswer blocks).
Definition unblock_endpoint (path : rstr) (rd : ApiReadings) (s : ApiState) : ApiState * api_answer :=
  let '(s, a) := on_control (remove_watched unblock (path_arg "/v1/security/auto-blocks/" path) rd) s in
  match a with
  | RemovedAnswer _ _ => (set_gauges (Z.of_nat (size (ab_blocks (blocker_of s))), snd (as_gauges s)) s, a)
  | _ => (s, a)
  end.

(** What the arm does once its scope is there. *)
Definition serve (sv : ApiServer) (e : endpoint) (req : AdminRequest) (remote_ip : IpAddr) (rd : ApiReadings) (s : ApiState) : ApiState * api_answer :=
  let path := aq_path req in
  let query := aq_query req in
  let c := as_control s in
  match e with
  | Healthz => (s, HealthAnswer)
  | Readyz => (s, ReadyAnswer (Z.of_nat (length (snapshot (es_routes (ct_edge c))))))
  | ListRoutes | ListDomains => (s, RoutesAnswer (redact_routes (snapshot (es_routes (ct_edge c)))))
  | CreateDomain => on_control (create_domain sv req rd) s
  | RouteSnapshot => (s, RoutesAnswer (redact_routes (api_routes_snapshot (ct_edge c))))
  | Reconcile => on_control (reconcile sv rd) s
  | PutInternal => on_control (upsert_internal_route sv req path rd) s
  | GetInternal => (s, get_route (normalize_domain (path_arg "/internal/routes/" path)) (lit "missing host") (lit "route not found") true c)
  | DeleteInternal => on_control (delete_internal_route sv path rd) s
  | Login => let '(m, t, a) := login login_from_slice (sv_auth sv) req remote_ip (ar_auth rd) (as_attempts s) (as_tokens s) in
             (set_attempts m (set_token_store t s), AuthAnswer a)
  | CreateToken => on_tokens (create_auth_token token_from_slice (sv_auth sv) req (ar_auth rd)) s
  | ListTokens => on_tokens (list_auth_tokens (sv_auth sv) (ar_auth rd)) s
  | RevokeToken => on_tokens (revoke_auth_token (sv_auth sv) path (ar_auth rd)) s
  | StatsDomains => (s, stats_domains query (as_stats s))
  | AnalyticsRoutes => (s, analytics_routes (as_stats s))
  | AnalyticsVisits => (s, analytics_visits query (as_stats s))
  | AnalyticsLogs => (s, analytics_logs query (as_stats s))
  | DomainStats => (s, domain_stats path (as_stats s))
  | DomainVisits => (s, domain_visits path query (as_stats s))
  | DomainLogs => (s, domain_logs path query (as_stats s))
  | GetDomain => (s, get_domain path c)
  | DeleteDomain => on_control (delete_domain_endpoint sv path rd) s
  | Upstreams => (s, UpstreamsAnswer (upstream_views (snapshot (es_routes (ct_edge c)))))
  | AutoBlocks => auto_blocks rd s
  | Watchlist => (s, WatchlistAnswer (watchlist (rd_now_ms (ar_security rd)) (blocker_of s)))
  | Unblock => unblock_endpoint path rd s
  | Unwatch => on_control (remove_watched unwatch (path_arg "/v1/security/watchlist/" path) rd) s
  | ListDatabase => (s, match ct_database c with Some registry => DatabaseRoutesAnswer (db_list registry) | None => no_database end)
  | UpsertDatabase => on_control (upsert_database_route sv req rd) s
  | DeleteDatabase => on_control (delete_database_route sv path rd) s
  | AddBlacklist => on_control (add_blacklist req path) s
  | RemoveBlacklist => on_control (remove_blacklist path) s
  | DomainCert | CertResync | DomainCertPublic | Certs | CertsPublic | DomainBandwidth | BandwidthHistory | BandwidthRealtime =>
    (s, CertificateAnswer e)
  | NotFound => (s, ApiError (404, lit "not found"))
  end.

Definition declared_too_large (h : HeaderMap) : bool :=
  match get_str h (lit "content-length") with
  | Some value => match parse_uint U64_MAX value with Some length => ADMIN_BODY_LIMIT_BYTES <? length | None => false end
  | None => false
  end.
Definition handle (sv : ApiServer) (req : AdminRequest) (remote_ip : IpAddr) (rd : ApiReadings) (s : ApiState) : ApiState * api_answer :=
  if declared_too_large (aq_headers req) then (s, ApiError (413, lit "request body is too large"))
  else
    let '(t, principal) := authorize (sv_auth sv) req remote_ip (rd_unix_ms (ar_auth rd)) (as_tokens s) in
    let s := set_token_store t s in
    match principal with
    | Err r => (s, ApiError r)
    | Ok principal =>
      let e := endpoint_of (aq_method req) (aq_path req) in
      match (match required_scope e with Some scope => require_scope principal scope | None => None end) with
      | Some r => (s, ApiError r)
      | None => serve sv e req remote_ip rd s
      end
    end.

(** ** Theorems *)

(** *** Who changes what *)

Lemma on_tokens_control f s : as_control (fst (on_tokens f s)) = as_control s.
Proof. unfold on_tokens. by destruct (f (as_tokens s)). Qed.
Lemma serve_control sv e req ip rd s : required_scope e <> Some SCOPE_ROUTES_WRITE -> as_control (fst (serve sv e req ip rd s)) = as_control s.
Proof.
  intros He. destruct e; cbn [required_scope] in He; try (by destruct He); cbn [serve]; try done; try apply on_tokens_control.
  by destruct (login _ _ _ _ _ _ _) as [[? ?] ?].
Qed.
Lemma public_endpoint method path : is_public_admin_path method path = true -> required_scope (endpoint_of method path) = None.
Proof.
  unfold is_public_admin_path. rewrite orb_true_iff, !andb_true_iff, orb_true_iff, !seqb_true.
  intros [[-> [->| ->]]|[-> ->]]; reflexivity.
Qed.

(** C5: Whatever the token store answers, a request that changes the routes, the
    database routes, the blacklist, the adaptive blocker or what is kept of them was
    not one to a public path, and its caller was authorized with the scope
    [routes:write] (or [admin]). *)
Theorem change_needs_write_scope sv req ip rd s :
  as_control (fst (handle sv req ip rd s)) <> as_control s ->
  is_public_admin_path (aq_method req) (aq_path req) = false /\
  exists principal, snd (authorize (sv_auth sv) req ip (rd_unix_ms (ar_auth rd)) (as_tokens s)) = Ok principal /\
    has_scope principal SCOPE_ROUTES_WRITE = true.
Proof.
  unfold handle. destruct (declared_too_large _); [done|].
  destruct (authorize _ _ _ _ _) as [t [principal|r]]; [|done]. set (e := endpoint_of _ _).
  destruct (decide (required_scope e = Some SCOPE_ROUTES_WRITE)) as [He|He].
  - intros Hc. split.
    + destruct (is_public_admin_path _ _) eqn:Ep; [|done]. apply public_endpoint in Ep. unfold e in He. congruence.
    + exists principal. split; [done|]. rewrite He in Hc. unfold require_scope in Hc. by destruct (has_scope principal SCOPE_ROUTES_WRITE).
  - intros Hc. destruct Hc. destruct (match required_scope e with Some _ => _ | None => _ end); [done|]. by rewrite serve_control.
Qed.

(** *** Endpoints no request reaches *)

Definition arm_matches (method path : rstr) (a : arm) : bool := let '(m, test, _) := a in (method =s? lit m) && test path.
Lemma first_arm_spec l method path : first_arm l method path = NotFound \/
  exists a, a ∈ l /\ arm_matches method path a = true /\ snd a = first_arm l method path.
Proof.
  induction l as [|[[m test] e] l IH]; cbn [first_arm]; [by left|].
  destruct ((method =s? lit m) && test path) eqn:E.
  - right. exists (m, test, e). split; [left|]. done.
  - destruct IH as [IH|(a & Ha & Hm & He)]; [by left|]. right. exists a. split; [by right|done].
Qed.
Lemma first_arm_app l1 l2 a method path : a ∈ l1 -> arm_matches method path a = true -> first_arm (l1 ++ l2) method path = first_arm l1 method path.
Proof.
  induction l1 as [|[[m test] e] l1 IH]; [by intros ?%not_elem_of_nil|]. intros [->|Ha]%elem_of_cons Hm; cbn [first_arm app].
  - cbn in Hm. by rewrite Hm.
  - destruct (_ && _); [done|]. by apply IH.
Qed.
Definition BANDWIDTH : list endpoint := [DomainBandwidth; BandwidthHistory; BandwidthRealtime].
(** The three bandwidth endpoints are unreachable: every path they are meant for is
    taken by the earlier arm that shows a domain. *)
Theorem bandwidth_unreachable method path : endpoint_of method path ∉ BANDWIDTH.
Proof.
  unfold endpoint_of. destruct ((method =s? lit "GET") && under "/v1/domains/" path) eqn:E.
  - change arms with ((arms_routes ++ arms_auth ++ arms_stats ++ arms_domains) ++ arms_rest).
    rewrite (first_arm_app _ _ ("GET"%string, under "/v1/domains/", GetDomain)).
    2:{ apply list_elem_of_In. unfold arms_routes, arms_auth, arms_stats, arms_domains. cbn [app]. cbn. tauto. }
    2:{ exact E. }
    destruct (first_arm_spec (arms_routes ++ arms_auth ++ arms_stats ++ arms_domains) method path) as [->|(a & Ha & _ & <-)]; [set_solver|].
    assert (filter (fun a : arm => snd a ∈ BANDWIDTH) (arms_routes ++ arms_auth ++ arms_stats ++ arms_domains) = []) as Hnone by reflexivity.
    intros Hin. apply (not_elem_of_nil a). rewrite <- Hnone. by apply list_elem_of_filter.
  - destruct (first_arm_spec arms method path) as [->|(a & Ha & Hm & <-)]; [unfold BANDWIDTH; set_solver|].
    intros Hin. assert (a ∈ filter (fun a : arm => snd a ∈ BANDWIDTH) arms) as Hf by by apply list_elem_of_filter.
    change (filter _ arms) with [("GET", between "/v1/domains/" "/bandwidth", DomainBandwidth);
      ("GET", between "/v1/domains/" "/bandwidth/history", BandwidthHistory);
      ("GET", between "/v1/domains/" "/bandwidth/realtime", BandwidthRealtime)]%string in Hf.
    assert (arm_matches method path a = true -> (method =s? lit "GET") && under "/v1/domains/" path = true) as Hgo; [|rewrite Hgo in E; done].
    repeat (apply elem_of_cons in Hf as [->|Hf]; [cbn [arm_matches]; unfold between, under; rewrite !andb_true_iff; tauto|]).
    by apply not_elem_of_nil in Hf.
Qed.

(** *** Routes of the API stay valid *)

Context {RLaws : RouteCodecLaws RC}.

Definition valid_api (r : Route) : Prop := r_source r = Api -> validate_for_dynamic_control_plane env r = Ok tt.
(** A route of a snapshot: one of the API, and valid. *)
Definition kept_api (r : Route) : Prop := r_source r = Api /\ validate_for_dynamic_control_plane env r = Ok tt.
(** The snapshot file, if its text reads as routes, has only such routes. *)
Record file_ok (f : Files) : Prop := {
  fo_names : files_ok f;
  fo_routes : forall bytes routes, content f = Some bytes -> decode_routes bytes = Some routes -> Forall kept_api routes;
}.
(** The API routes in memory, in the hash, in the snapshot file and in the snapshots
    that background tasks have yet to write are valid. *)
Record control_ok (c : Control) : Prop := {
  co_routes : Forall valid_api (snapshot (es_routes (ct_edge c)));
  co_hash : routes_ok env (fst (ct_hash c));
  co_file : file_ok (ct_files c);
  co_pending : Forall (Forall kept_api) (ct_pending c);
}.
Lemma save_file_ok fate routes f : Forall kept_api routes -> file_ok f -> file_ok (fst (save_http_routes fate routes f)).
Proof using RLaws.
  intros Hr [Hf Hc]. destruct (save_http_content fate routes f Hf) as [Hf' Hc']. split; [done|]. rewrite Hc'.
  destruct fate; [|apply Hc..]. destruct (encode_routes routes) as [bytes|] eqn:E; [|apply Hc].
  intros ? ? [= <-]. rewrite (decode_encode_routes _ _ E). by intros [= <-].
Qed.

Lemma dedupe_subset l (x : Route) : x ∈ dedupe_routes l -> x ∈ l.
Proof. intros H%dedupe_elem. by apply last_Some_elem_of, list_elem_of_filter in H as [_ ?]. Qed.
Lemma dedupe_Forall (P : Route -> Prop) l : Forall P l -> Forall P (dedupe_routes l).
Proof. rewrite !Forall_forall. intros H x Hx. by apply H, dedupe_subset. Qed.
Lemma filter_Forall {A} (P Q : A -> Prop) `{!forall x, Decision (Q x)} l : Forall P l -> Forall P (filter Q l).
Proof. rewrite !Forall_forall. intros HP x [_ Hx]%list_elem_of_filter. by apply HP. Qed.
Lemma snapshot_valid es : Forall valid_api (snapshot (es_routes es)) -> Forall kept_api (api_routes_snapshot es).
Proof.
  unfold api_routes_snapshot. rewrite merge_sort_Permutation, !Forall_forall. intros H r [Hs Hr]%list_elem_of_filter. split; [done|by apply H].
Qed.
Lemma upsert_edge_valid r es : valid_api r -> Forall valid_api (snapshot (es_routes es)) ->
  Forall valid_api (snapshot (es_routes (fst (es_upsert_api_route r es)))).
Proof.
  intros Hr Hes. unfold es_upsert_api_route. destruct (existsb _ _) eqn:E; [done|]. cbn. unfold upsert_api_route. rewrite E. cbn.
  apply dedupe_Forall, Forall_app. split; [by apply filter_Forall|by repeat constructor].
Qed.
Lemma delete_edge_valid d es : Forall valid_api (snapshot (es_routes es)) ->
  Forall valid_api (snapshot (es_routes (fst (es_delete_api_domain d es)))).
Proof. intros Hes. unfold es_delete_api_domain, delete_api_domain. cbn. by apply dedupe_Forall, filter_Forall. Qed.

(** The parts of an invariant a setter does not touch. *)
Lemma set_edge_ok es c : Forall valid_api (snapshot (es_routes es)) -> control_ok c -> control_ok (set_edge es c).
Proof. intros ? [? ? ? ?]. by split. Qed.
Lemma set_files_ok f p c : file_ok f -> Forall (Forall kept_api) p -> control_ok c -> control_ok (set_files f p c).
Proof. intros ? ? [? ? ? ?]. by split. Qed.
Lemma set_hash_ok h c : routes_ok env (fst h) -> control_ok c -> control_ok (set_hash h c).
Proof. intros ? [? ? ? ?]. by split. Qed.
Lemma upsert_hash_ok r st : routes_ok env (fst st) -> routes_ok env (fst (fst (upsert_route env r st))).
Proof using RLaws.
  intros H. pose proof (route_store_keeps env (RouteUpsert r) st H) as [Hk _]. cbn [run_route_op] in Hk. unfold rbind at 1 in Hk.
  by destruct (upsert_route env r st) as [st' [|]].
Qed.
Lemma delete_hash_ok d st : routes_ok env (fst st) -> routes_ok env (fst (fst (delete_domain d st))).
Proof using RLaws.
  intros H. pose proof (route_store_keeps env (RouteDelete d) st H) as [Hk _]. cbn [run_route_op] in Hk. unfold rbind at 1 in Hk.
  by destruct (delete_domain d st) as [st' [|]].
Qed.
Lemma background_ok sv c : control_ok c -> control_ok (persist_route_snapshot_background sv c).
Proof.
  intros H. unfold persist_route_snapshot_background. destruct (negb _); [done|]. apply set_files_ok; [apply H| |done].
  apply Forall_app. split; [apply H|]. repeat constructor. apply snapshot_valid, H.
Qed.
Lemma persist_snapshot_ok sv rd c : control_ok c -> control_ok (fst (persist_route_snapshot sv rd c)).
Proof using RLaws.
  intros H. unfold persist_route_snapshot. destruct (negb _); [done|].
  pose proof (save_file_ok (ar_save rd) _ _ (snapshot_valid _ (co_routes c H)) (co_file c H)) as Hf.
  destruct (save_http_routes _ _ _). cbn [fst] in *. apply set_files_ok; [done|apply H|done].
Qed.
Lemma persist_stores_ok sv rd r c : control_ok c -> control_ok (fst (persist_route_stores sv rd r c)).
Proof using RLaws.
  intros H. unfold persist_route_stores. destruct (sv_route_store sv); [|by apply background_ok].
  pose proof (upsert_hash_ok r (ct_hash c) (co_hash c H)) as Hh. destruct (upsert_route env r (ct_hash c)) as [hash [u|e]]; cbn [fst] in *.
  - by apply background_ok, set_hash_ok.
  - by apply set_hash_ok.
Qed.
Lemma store_route_ok sv rd r c : valid_api r -> control_ok c -> control_ok (fst (store_route sv rd r c)).
Proof using RLaws.
  intros Hr H. unfold store_route. pose proof (upsert_edge_valid r (ct_edge c) Hr (co_routes c H)) as He.
  destruct (es_upsert_api_route r (ct_edge c)) as [edge []]; cbn [fst] in *; [|by apply set_edge_ok].
  pose proof (persist_stores_ok sv rd r (set_edge edge c) (set_edge_ok _ _ He H)) as Hp.
  by destruct (persist_route_stores sv rd r (set_edge edge c)) as [c' [|]].
Qed.
Lemma domain_into_route_valid rd b r : domain_into_route env rd b = Ok r -> valid_api r.
Proof.
  unfold domain_into_route. destruct (is_empty _); [done|]. destruct (if is_empty (db_paths b) then _ else _); [|done]. cbv zeta.
  destruct (validate_for_dynamic_control_plane env _) as [[]|] eqn:E; [|done]. by intros [= <-] _.
Qed.
Lemma internal_into_route_valid rd h b r : internal_into_route env rd h b = Ok r -> valid_api r /\ r_source r = Api.
Proof.
  unfold internal_into_route. destruct (is_empty _); [done|]. destruct (ok_or _ _); [|done]. cbv zeta.
  destruct (validate_for_dynamic_control_plane env _) as [[]|] eqn:E; [|done]. intros [= <-]. split; [by intros _|done].
Qed.
(** An admitted route is valid, and no API route of its domain had a later version
    when it was admitted. *)
Lemma admitted_route req path rd c r : admit_internal_route req path rd c = inr r ->
  valid_api r /\ r_source r = Api /\
  forall existing, find_domain (es_routes (ct_edge c)) (r_domain r) = Some existing -> r_source existing = Api ->
    r_route_version existing <= r_route_version r.
Proof.
  unfold admit_internal_route. destruct (is_empty _); [done|]. destruct (parse_body _ _); [|done].
  destruct (internal_into_route _ _ _ _) as [r'|] eqn:Er; [|done]. apply internal_into_route_valid in Er as [Hv Hs]. destruct (negb _); [done|].
  destruct (find_domain _ (r_domain r')) as [existing|] eqn:Ef.
  - destruct (_ && _) eqn:E; [done|]. destruct (validate_api_route_network_safety _ _ _); [|done]. intros [= <-]. split_and!; [done..|].
    rewrite Ef. intros ? [= <-] Hsrc. rewrite bool_decide_eq_true_2 in E by done. cbn in E. apply Z.ltb_ge in E. lia.
  - destruct (validate_api_route_network_safety _ _ _); [|done]. intros [= <-]. split_and!; [done..|]. by rewrite Ef.
Qed.
Lemma delete_route_ok sv d m rd c : control_ok c -> control_ok (fst (delete_route sv d m rd c)).
Proof using RLaws.
  intros H. unfold delete_route. destruct (is_empty d); [done|]. pose proof (delete_edge_valid d (ct_edge c) (co_routes c H)) as He.
  destruct (es_delete_api_domain d (ct_edge c)) as [edge deleted]. cbn [fst] in He. pose proof (set_edge_ok _ _ He H) as H1.
  pose proof (delete_hash_ok d (ct_hash (set_edge edge c)) (co_hash _ H1)) as Hh.
  destruct (sv_route_store sv).
  - destruct (delete_domain d _) as [hash [b|e]]; cbn [fst] in *; [|by apply set_hash_ok].
    pose proof (persist_snapshot_ok sv rd _ (set_hash_ok _ _ Hh H1)). by destruct (persist_route_snapshot sv rd _) as [c' [|]].
  - pose proof (persist_snapshot_ok sv rd _ H1). by destruct (persist_route_snapshot sv rd _) as [c' [|]].
Qed.
Lemma create_domain_ok sv req rd c : control_ok c -> control_ok (fst (create_domain sv req rd c)).
Proof using RLaws.
  intros H. unfold create_domain. destruct (parse_body _ _); [|done]. destruct (domain_into_route _ _ _) as [r|] eqn:Er; [|done].
  destruct (validate_api_route_network_safety _ _ _); [|done]. destruct (_ && _); [done|].
  apply store_route_ok; [|done]. by eapply domain_into_route_valid.
Qed.
Lemma upsert_internal_ok sv req path rd c : control_ok c -> control_ok (fst (upsert_internal_route sv req path rd c)).
Proof using RLaws.
  intros H. unfold upsert_internal_route. destruct (admit_internal_route _ _ _ _) as [a|r] eqn:E; [done|]. cbn [finish_internal_route].
  apply store_route_ok; [|done]. by eapply admitted_route.
Qed.
Lemma other_parts_ok c c' : ct_edge c' = ct_edge c -> ct_hash c' = ct_hash c -> ct_files c' = ct_files c -> ct_pending c' = ct_pending c ->
  control_ok c -> control_ok c'.
Proof. intros E1 E2 E3 E4 [? ? ? ?]. split; by rewrite ?E1, ?E2, ?E3, ?E4. Qed.
Lemma on_control_ok f s : (forall c, control_ok c -> control_ok (fst (f c))) -> control_ok (as_control s) -> control_ok (as_control (fst (on_control f s))).
Proof. intros Hf Hs. unfold on_control. specialize (Hf _ Hs). by destruct (f (as_control s)). Qed.
Lemma remove_watched_ok drop v rd c : control_ok c -> control_ok (fst (remove_watched drop v rd c)).
Proof. intros H. unfold remove_watched. destruct (parse_ip v); [|done]. destruct (drop _ _ _). by apply (other_parts_ok c). Qed.
Lemma serve_ok sv e req ip rd s : control_ok (as_control s) -> control_ok (as_control (fst (serve sv e req ip rd s))).
Proof using RLaws.
  intros Hs. destruct (decide (required_scope e = Some SCOPE_ROUTES_WRITE)) as [He|He]; [|by rewrite serve_control].
  destruct e; try (exfalso; vm_compute in He; discriminate He); cbn [serve]; try (apply on_control_ok; [|done]; intros c Hc).
  - by apply create_domain_ok.
  - unfold reconcile. pose proof (persist_snapshot_ok sv rd c Hc). by destruct (persist_route_snapshot sv rd c) as [c' [|]].
  - by apply upsert_internal_ok.
  - by apply delete_route_ok.
  - done.
  - by apply delete_route_ok.
  - unfold unblock_endpoint. pose proof (on_control_ok (remove_watched unblock (path_arg "/v1/security/auto-blocks/" (aq_path req)) rd) s
      (fun c Hc => remove_watched_ok _ _ _ c Hc) Hs) as H. destruct (on_control _ s) as [s' []]; exact H.
  - by apply remove_watched_ok.
  - unfold upsert_database_route. destruct (ct_database c); [|done]. destruct (parse_body _ _); [|done]. destruct (_ || _); [done|].
    destruct (saved_database _ _ _ _). by apply (other_parts_ok c).
  - unfold delete_database_route. destruct (ct_database c); [|done]. destruct (split _ _) as [|? [|? [|]]]; try done.
    destruct (_ || _); [done|]. destruct (db_delete _ _ _) as [? []]; [destruct (saved_database _ _ _ _)|]; by apply (other_parts_ok c).
  - unfold add_blacklist. destruct (is_empty _); [done|]. destruct (parse_body _ _); [|done]. by apply (other_parts_ok c).
  - unfold remove_blacklist. destruct (split _ _) as [|? [|? [|]]]; try done. destruct (parse_ip _); [|done]. by apply (other_parts_ok c).
Qed.

(** C8: No request to the admin API, and no background task, whatever the store and
    the file system do, brings an invalid route of the API into memory, into Redis or
    into a snapshot: the API's routes in memory and all routes of the hash keep
    passing the control plane's checks, and the snapshot file, when its text reads as
    routes, and the snapshots that background tasks have yet to write hold nothing but
    routes of the API that pass them.  Each save of the file ends before the next one
    begins. *)
Theorem api_routes_stay_valid sv req ip rd s i fate :
  control_ok (as_control s) ->
  control_ok (as_control (fst (handle sv req ip rd s))) /\ control_ok (run_background i fate (as_control s)).
Proof using RLaws.
  intros Hs. split.
  - unfold handle. destruct (declared_too_large _); [done|]. destruct (authorize _ _ _ _ _) as [t [principal|r]]; [|done].
    destruct (match required_scope _ with Some _ => _ | None => _ end); [done|]. by apply serve_ok.
  - unfold run_background. destruct (ct_pending _ !! i) as [routes|] eqn:E; [|done].
    apply set_files_ok; [|apply Forall_delete, Hs|done]. apply save_file_ok; [|apply Hs]. by eapply Forall_lookup_1; [apply Hs|].
Qed.

(** *** Versions *)

Lemma persist_stores_edge sv rd r c : ct_edge (fst (persist_route_stores sv rd r c)) = ct_edge c.
Proof.
  unfold persist_route_stores, persist_route_snapshot_background.
  destruct (sv_route_store sv); [|by destruct (negb _)]. destruct (upsert_route env r (ct_hash c)) as [h [|]]; [|done]. by destruct (negb _).
Qed.
Lemma store_route_edge sv rd r c : ct_edge (fst (store_route sv rd r c)) = fst (es_upsert_api_route r (ct_edge c)).
Proof.
  unfold store_route. destruct (es_upsert_api_route r (ct_edge c)) as [edge []]; [|done].
  pose proof (persist_stores_edge sv rd r (set_edge edge c)). by destruct (persist_route_stores _ _ _ _) as [c' [|]].
Qed.
Lemma upsert_edge_routes r es : es_routes (fst (es_upsert_api_route r es)) = upsert_api_route r (es_routes es).
Proof. unfold es_upsert_api_route, upsert_api_route. by destruct (existsb _ _). Qed.
Definition routes_in (c : Control) : list Route := snapshot (es_routes (ct_edge c)).
Definition held (c : Control) (domain : rstr) (v : Z) : Prop :=
  exists r, r ∈ routes_in c /\ r_source r = Api /\ r_domain r = domain /\ v <= r_route_version r.

(** An upsert whose version is not below the one of the domain keeps versions. *)
Lemma store_route_held sv rd r c r0 :
  table_wf (es_routes (ct_edge c)) -> r_source r = Api -> r0 ∈ routes_in c -> r_source r0 = Api ->
  (r_domain r = r_domain r0 -> r_route_version r0 <= r_route_version r) ->
  held (fst (store_route sv rd r c)) (r_domain r0) (r_route_version r0).
Proof.
  intros Hwf Hs Hin Hs0 Hv. unfold held, routes_in. rewrite store_route_edge, upsert_edge_routes.
  destruct (decide (r_domain r = r_domain r0)) as [Hd|Hd].
  - destruct (upsert_stored r _ Hwf Hs) as (r' & Hin' & Heq & _). exists r'.
    unfold api_routes_equivalent in Heq. rewrite !andb_true_iff, !bool_decide_eq_true, !seqb_true, Z.eqb_eq in Heq.
    destruct Heq as ((((((((? & _) & _) & Hdom) & _) & _) & _) & _) & Hver). split; [done|]. split; [done|]. split; [congruence|].
    rewrite Hver. by apply Hv.
  - exists r0. split; [|done]. destruct (upsert_delete_frame r [] (es_routes (ct_edge c)) Hwf) as [Hframe _]. specialize (Hframe Hs).
    assert (r0 ∈ filter (fun e => ~ (r_source e = Api /\ r_domain e = r_domain r)) (snapshot (upsert_api_route r (es_routes (ct_edge c))))) as Hf.
    { rewrite Hframe. apply list_elem_of_filter. split; [intros [_ ?]; congruence|done]. }
    by apply list_elem_of_filter in Hf as [_ ?].
Qed.

(** C9: A route update of the control plane does not take a domain back, unless it
    overlaps another update of that domain.  A [PUT /internal/routes/..] is admitted in
    one state and, after its name lookups, stored in another; whatever it was and
    however it ended, every domain with a name in normal form that had an API route
    when it was stored still has one, of the same version or a later one, provided that
    the route of the domain it updates is the one it was compared with.  In particular
    updates that follow one another never go back a version. *)
Theorem put_version_monotone sv req path rd c c' r0 :
  table_wf (es_routes (ct_edge c')) -> r0 ∈ routes_in c' -> r_source r0 = Api -> normalize_domain (r_domain r0) = r_domain r0 ->
  (forall r, admit_internal_route req path rd c = inr r ->
     find_domain (es_routes (ct_edge c')) (r_domain r) = find_domain (es_routes (ct_edge c)) (r_domain r)) ->
  held (fst (finish_internal_route sv rd (admit_internal_route req path rd c) c')) (r_domain r0) (r_route_version r0) /\
  (c' = c -> held (fst (upsert_internal_route sv req path rd c)) (r_domain r0) (r_route_version r0)).
Proof.
  intros Hwf Hin Hs Hn Hsame.
  assert (held (fst (finish_internal_route sv rd (admit_internal_route req path rd c) c')) (r_domain r0) (r_route_version r0)) as H.
  { destruct (admit_internal_route req path rd c) as [a|r] eqn:E; cbn [finish_internal_route fst]; [exists r0; split_and!; (done || lia)|].
    destruct (admitted_route _ _ _ _ _ E) as (_ & Hsr & Hstale). apply store_route_held; try done. intros Hd.
    apply Hstale; [|done]. rewrite <- (Hsame r) by done. rewrite Hd. by apply find_domain_api. }
  split; [done|]. by intros ->.
Qed.

(** *** A route that could not be kept *)

Lemma set_edge_same c : set_edge (ct_edge c) c = c.
Proof. by destruct c. Qed.
(** A failed write to the route store is not made good: when storing a route ends
    in an error, the route is served from memory, and sending it again is answered
    as unchanged, with nothing written. *)
Theorem failed_store_not_retried sv rd r c c' e :
  table_wf (es_routes (ct_edge c)) -> r_source r = Api -> store_route sv rd r c = (c', ApiError e) ->
  r ∈ routes_in c' /\
  forall rd' again, api_routes_equivalent r again = true -> store_route sv rd' again c' = (c', UpsertAnswer false (redact_route again)).
Proof.
  intros Hwf Hs Hst. assert (routes_in c' = snapshot (upsert_api_route r (es_routes (ct_edge c)))) as Hr.
  { unfold routes_in. replace c' with (fst (store_route sv rd r c)) by (by rewrite Hst). by rewrite store_route_edge, upsert_edge_routes. }
  destruct (upsert_stored r _ Hwf Hs) as (r' & Hin & _ & Hnew).
  assert (existsb (fun existing => api_routes_equivalent existing r) (snapshot (es_routes (ct_edge c))) = false) as Ex.
  { destruct (existsb _ _) eqn:Ex; [|done]. unfold store_route, es_upsert_api_route in Hst. rewrite Ex in Hst. done. }
  rewrite (Hnew Ex) in Hin. split; [by rewrite Hr|]. intros rd' again Heq.
  unfold store_route, es_upsert_api_route. fold (routes_in c').
  assert (existsb (fun existing => api_routes_equivalent existing again) (routes_in c') = true) as ->.
  { apply existsb_exists. exists r. split; [|done]. rewrite Hr. by apply list_elem_of_In. }
  by rewrite set_edge_same.
Qed.

(** *** The quota *)

Lemma domain_into_route_source rd b r : domain_into_route env rd b = Ok r -> r_source r = Api.
Proof.
  unfold domain_into_route. destruct (is_empty _); [done|]. destruct (if is_empty (db_paths b) then _ else _); [|done]. cbv zeta.
  destruct (validate_for_dynamic_control_plane env _); [|done]. by intros [= <-].
Qed.

Lemma upsert_count r t : table_wf t -> r_source r = Api ->
  (length (filter (fun x => r_source x = Api) (snapshot (upsert_api_route r t))) <=
   length (filter (fun x => r_source x = Api) (snapshot t)) +
     if existsb (fun x => r_domain x =s? r_domain r) (filter (fun x => r_source x = Api) (snapshot t)) then 0 else 1)%nat.
Proof.
  intros Hwf Hs. unfold upsert_api_route. destruct (existsb (fun e => api_routes_equivalent e r) (snapshot t)); [lia|].
  unfold snapshot. cbn [replace_all RouteTable_new rt_routes].
  set (P := fun e => ~ (r_source e = Api /\ r_domain e = r_domain r)). set (A := fun x : Route => r_source x = Api).
  rewrite dedupe_snoc_new, dedupe_id.
  - rewrite filter_app, length_app, filter_cons_True, filter_nil by done. cbn [length].
    replace (filter A (filter P (rt_routes t))) with (filter P (filter A (rt_routes t))) by (rewrite !list_filter_filter; apply list_filter_iff; tauto).
    destruct (existsb _ _) eqn:Ex.
    + apply existsb_exists in Ex as (x & Hx%list_elem_of_In & Hd%seqb_true).
      pose proof (length_filter_lt P (filter A (rt_routes t)) x Hx) as Hlt. apply list_elem_of_filter in Hx as [HA _].
      specialize (Hlt ltac:(unfold P; tauto)). lia.
    + pose proof (length_filter P (filter A (rt_routes t))). lia.
  - apply keys_filter_NoDup, Hwf.
  - intros (y & Hy & Hin)%list_elem_of_fmap. apply list_elem_of_filter in Hin as [Hn _]. apply Hn.
    pose proof (key_source _ _ Hy) as Hsrc. rewrite Hs in Hsrc. split; [done|].
    unfold dedupe_key in Hy. rewrite Hs, <- Hsrc in Hy. by apply app_inv_head in Hy.
Qed.
Definition api_count (c : Control) : Z := Z.of_nat (length (filter (fun x => r_source x = Api) (routes_in c))).
(** Creating domains never exceeds the quota: with at most a hundred thousand API
    routes before, there are at most as many after. *)
Theorem create_domain_quota sv req rd c :
  table_wf (es_routes (ct_edge c)) -> api_count c <= MAX_ROUTES_PER_SOURCE -> api_count (fst (create_domain sv req rd c)) <= MAX_ROUTES_PER_SOURCE.
Proof.
  intros Hwf Hq. unfold create_domain. destruct (parse_body _ _); [|done]. destruct (domain_into_route _ _ _) as [r|] eqn:Er; [|done].
  destruct (validate_api_route_network_safety _ _ _); [|done]. apply domain_into_route_source in Er.
  pose proof (upsert_count r _ Hwf Er) as Hc. destruct (_ && _) eqn:E; [done|].
  unfold api_count, routes_in in *. rewrite store_route_edge, upsert_edge_routes. 
  destruct (existsb _ _); [lia|]. cbn in E. apply Z.leb_gt in E. lia.
Qed.

(** *** Secrets in answers *)

Definition all_values (P : rstr -> rstr -> Prop) (m : gmap rstr rstr) : Prop := forall name v, m !! name = Some v -> P name v.
Definition hidden (_ v : rstr) : Prop := v = REDACTED.
(** Nothing secret is in the route. *)
Record shows_no_secret (r : Route) : Prop := {
  ns_added : all_values hidden (dr_add_request_headers (r_rules r));
  ns_response : all_values (fun name v => sensitive_header_name name = true -> v = REDACTED) (dr_response_headers (r_rules r));
  ns_basic : forall name m u, dr_middlewares (r_rules r) !! name = Some m -> md_basic_auth m = Some u -> all_values hidden (ba_users u);
  ns_digest : forall name m u, dr_middlewares (r_rules r) !! name = Some m -> md_digest_auth m = Some u -> all_values hidden (da_users u);
}.
Lemma redact_values_hidden m : all_values hidden (redact_values m).
Proof. intros name v. unfold redact_values. rewrite lookup_fmap. destruct (m !! name); [|done]. by intros [= <-]. Qed.
Lemma redact_no_secret r : shows_no_secret (redact_route r).
Proof.
  split; cbn [redact_route r_with_rules r_rules redact_rules dr_with_edits dr_add_request_headers dr_response_headers dr_middlewares].
  - apply redact_values_hidden.
  - intros name v. rewrite map_lookup_imap. destruct (dr_response_headers (r_rules r) !! name); [|done]. cbn -[sensitive_header_name REDACTED].
    intros [= <-] Hs. by rewrite Hs.
  - intros name m u. rewrite lookup_fmap. destruct (dr_middlewares (r_rules r) !! name) as [m0|]; [|done]. intros [= <-].
    cbn. destruct (md_basic_auth m0); [|done]. intros [= <-]. apply redact_values_hidden.
  - intros name m u. rewrite lookup_fmap. destruct (dr_middlewares (r_rules r) !! name) as [m0|]; [|done]. intros [= <-].
    cbn. destruct (md_digest_auth m0); [|done]. intros [= <-]. apply redact_values_hidden.
Qed.
Definition answer_routes (a : api_answer) : list Route :=
  match a with RoutesAnswer l => l | RouteAnswer r | UpsertAnswer _ r => [r] | _ => [] end.
Lemma one_route r : shows_no_secret r -> Forall shows_no_secret [r].
Proof. intros Hr. constructor; [done|constructor]. Qed.
Lemma store_route_answer sv rd r c : Forall shows_no_secret (answer_routes (snd (store_route sv rd r c))).
Proof.
  unfold store_route. destruct (es_upsert_api_route _ _) as [edge []].
  - destruct (persist_route_stores _ _ _ _) as [c' [|]]; [|constructor]. apply one_route, redact_no_secret.
  - apply one_route, redact_no_secret.
Qed.
Lemma redact_routes_no_secret l : Forall shows_no_secret (redact_routes l).
Proof. unfold redact_routes. apply Forall_fmap, Forall_true. intros r. apply redact_no_secret. Qed.
Lemma on_control_answer f s : (forall c, Forall shows_no_secret (answer_routes (snd (f c)))) -> Forall shows_no_secret (answer_routes (snd (on_control f s))).
Proof. intros Hf. unfold on_control. specialize (Hf (as_control s)). by destruct (f (as_control s)). Qed.
Lemma delete_route_answer sv d m rd c : answer_routes (snd (delete_route sv d m rd c)) = [].
Proof.
  unfold delete_route. destruct (is_empty d); [done|]. destruct (es_delete_api_domain _ _). destruct (sv_route_store sv); cbv zeta.
  - destruct (delete_domain _ _) as [? [?|?]]; [|done]. by destruct (persist_route_snapshot _ _ _) as [c' [|]].
  - by destruct (persist_route_snapshot _ _ _) as [c' [|]].
Qed.
Lemma remove_watched_answer drop v rd c : answer_routes (snd (remove_watched drop v rd c)) = [].
Proof. unfold remove_watched. destruct (parse_ip v); [|done]. by destruct (drop _ _ _). Qed.
Lemma serve_answer sv e req ip rd s : Forall shows_no_secret (answer_routes (snd (serve sv e req ip rd s))).
Proof.
  destruct e; cbn [serve]; try apply on_control_answer; try (by constructor); try (apply redact_routes_no_secret); try intros c;
    try (unfold on_tokens; case_match; by constructor).
  - unfold create_domain. repeat case_match; try (by constructor). apply store_route_answer.
  - unfold reconcile. repeat case_match; by constructor.
  - unfold upsert_internal_route, admit_internal_route. repeat case_match; cbn [finish_internal_route snd]; try (by constructor); apply store_route_answer.
  - unfold get_route. repeat case_match; try (by constructor). apply one_route, redact_no_secret.
  - unfold delete_internal_route. by rewrite delete_route_answer.
  - by destruct (login _ _ _ _ _ _ _) as [[? ?] ?].
  - unfold domain_stats. case_match; by constructor.
  - unfold domain_visits. case_match; by constructor.
  - unfold domain_logs. case_match; by constructor.
  - unfold get_domain. repeat case_match; try (by constructor). apply one_route, redact_no_secret.
  - unfold delete_domain_endpoint. by rewrite delete_route_answer.
  - unfold unblock_endpoint. pose proof (on_control_answer (remove_watched unblock (path_arg "/v1/security/auto-blocks/" (aq_path req)) rd) s) as H.
    destruct (on_control _ s) as [s' a]. cbn in H. specialize (H ltac:(intros c; by rewrite remove_watched_answer)).
    destruct a; exact H || by constructor.
  - by rewrite remove_watched_answer.
  - unfold upsert_database_route, saved_database. repeat case_match; by constructor.
  - unfold delete_database_route, saved_database. repeat case_match; by constructor.
  - unfold add_blacklist. repeat case_match; by constructor.
  - unfold remove_blacklist. repeat case_match; by constructor.
Qed.

(** C11: No route in any answer of the admin API shows a secret: the values of added
    request headers, of sensitive response headers and of the users of basic and
    digest authentication are replaced, on every path through every endpoint. *)
Theorem answers_show_no_secret sv req ip rd s r :
  r ∈ answer_routes (snd (handle sv req ip rd s)) -> shows_no_secret r.
Proof.
  assert (Forall shows_no_secret (answer_routes (snd (handle sv req ip rd s)))) as H; [|rewrite Forall_forall in H; apply H].
  unfold handle. destruct (declared_too_large _); [constructor|]. destruct (authorize _ _ _ _ _) as [t [principal|e]]; [|constructor].
  destruct (match required_scope _ with Some _ => _ | None => _ end); [constructor|]. apply serve_answer.
Qed.
End api.

(** ** Witnesses and examples *)

Module ApiDemo.
Import AdminAuth.Demo RouteDemo.
(** A body is a host, a version and an upstream, with bars between. *)
Definition internal_body (s : rstr) : result rstr (@InternalRouteBody CidrLib) :=
  match split (chr "|") s with
  | [host; version; upstream] => Ok {|
      ib_host := Some host; ib_domain := None; ib_path := None; ib_project_id := None; ib_deployment_id := None; ib_container_id := None;
      ib_upstream := Some upstream; ib_upstream_url := None; ib_upstream_host := None; ib_upstream_port := None;
      ib_route_version := parse_uint U64_MAX version; ib_status := None; ib_tls := None; ib_rules := DomainRules_default |}
  | _ => Err (lit "expected value")
  end.
Definition domain_body (s : rstr) : result rstr (@DomainRouteBody CidrLib) :=
  match split (chr "|") s with
  | [domain; url] => Ok {|
      db_domain := domain; db_id := None; db_path := None; db_tls := None; db_algorithm := RoundRobin;
      db_upstreams := [{| ub_url := url; ub_weight := 0; ub_backup := false; ub_transport := UpstreamTransport_default |}];
      db_paths := []; db_rules := DomainRules_default |}
  | _ => Err (lit "expected value")
  end.
Definition ip_body (s : rstr) : result rstr IpAddr := match parse_ip s with Some ip => Ok ip | None => Err (lit "expected ip") end.
Definition no_body (s : rstr) : result rstr DatabaseRouteBody := Err (lit "expected value").
Definition no_dns : rstr -> Z -> option (list IpAddr) := fun _ _ => None.
Definition no_form : rstr -> list (rstr * rstr) := fun _ => [].

Definition server : @ApiServer CidrLib := {|
  sv_auth := auth; sv_route_store := true; sv_route_snapshot_path := true; sv_database_routes_store_path := false; sv_database_ports := None |}.
Definition rd : ApiReadings := {|
  ar_auth := readings 5; ar_route := {| rr_uuid := lit "id"; rr_now := 5 |};
  ar_security := {| rd_instant := 0; rd_now_ms := 5; rd_io_ok := true |}; ar_save := SavedAll; ar_database_saved := true;
  ar_store_error := lit "down"; ar_file_error := lit "disk" |}.
Definition routed (r : @Route CidrLib) (version : Z) : @Route CidrLib := {|
  r_id := r_id r; r_domain := r_domain r; r_paths := r_paths r; r_tls := r_tls r; r_algorithm := r_algorithm r; r_rules := r_rules r;
  r_source := r_source r; r_route_version := version; r_created_at := r_created_at r; r_updated_at := r_updated_at r |}.
Definition aliased (r : @Route CidrLib) : @Route CidrLib := r_with_rules (dr_with_edits true true ∅ ∅ ∅ (r_rules r)) r.
Definition control (routes : list Route) (replies : list reply) : @Control CidrLib PlainCodec := {|
  ct_edge := EdgeState_new (RouteTable_new routes);
  ct_security := {| se_blacklist := Blacklist.new; se_rate_limiter := Limiter.RateLimiter_new Limiter.RateLimitConfig_default 0;
                    se_adaptive_blocker := example_blocker |};
  ct_database := None; ct_database_file := None; ct_listeners := ∅; ct_hash := (∅, replies); ct_files := empty_dir; ct_pending := [] |}.
Definition state (c : Control) : @ApiState CidrLib PlainCodec := {|
  as_control := c; as_tokens := (no_hashes, []); as_attempts := ∅; as_stats := StatsRegistry_new None false; as_gauges := (0, 0) |}.
Definition run (req : AdminRequest) (s : ApiState) : ApiState * @api_answer CidrLib unit :=
  @handle CidrLib SimpleUrlLib AssocHeaders SumDigest BitCodec OneCodec PlainCodec no_env no_dns unit domain_body internal_body no_body ip_body
    None no_form login_body token_body server req caller rd s.

Definition blacklisted (s : @ApiState CidrLib PlainCodec) (domain : string) : bool :=
  Blacklist.contains (se_blacklist (ct_security (as_control s))) (lit domain) caller.
Definition add_request : @AdminRequest AssocHeaders := request "POST" "/v1/blacklist/Example.com" bootstrap (lit "203.0.113.9").
Lemma change_needs_write_scope_witness :
  is_public_admin_path (aq_method add_request) (aq_path add_request) = false /\
  exists principal, snd (@authorize CidrLib AssocHeaders SumDigest BitCodec auth add_request caller 5 (no_hashes, [])) = Ok principal /\
    has_scope principal SCOPE_ROUTES_WRITE = true.
Proof.
  apply (@change_needs_write_scope CidrLib SimpleUrlLib AssocHeaders SumDigest BitCodec OneCodec PlainCodec no_env no_dns unit domain_body
    internal_body no_body ip_body None no_form login_body token_body server add_request caller rd (state (control [] []))).
  intros E. assert (blacklisted (fst (run add_request (state (control [] [])))) "Example.com" = false) as Hb.
  { unfold blacklisted, run. rewrite E. vm_compute. reflexivity. }
  assert (blacklisted (fst (run add_request (state (control [] [])))) "Example.com" = true) as Hb' by (vm_compute; reflexivity).
  congruence.
Defined.
(** The name is kept as it was written, but the proxy asks for normal names. *)
Example blacklist_is_case_sensitive :
  blacklisted (fst (run add_request (state (control [] [])))) "Example.com" = true /\
  blacklisted (fst (run add_request (state (control [] [])))) "example.com" = false.
Proof. split; vm_compute; reflexivity. Qed.

Lemma control_empty_ok replies : @control_ok CidrLib SimpleUrlLib OneCodec PlainCodec no_env (control [] replies).
Proof.
  split; [by repeat constructor|by intros d p; cbn; rewrite lookup_empty|split; [apply empty_dir_ok|done]|by repeat constructor].
Qed.
Lemma api_routes_stay_valid_witness :
  @control_ok CidrLib SimpleUrlLib OneCodec PlainCodec no_env (as_control (fst (run (request "POST" "/v1/domains" bootstrap (lit "example.com|http://10.0.0.1")) (state (control [] []))))).
Proof.
  apply (@api_routes_stay_valid CidrLib SimpleUrlLib AssocHeaders SumDigest BitCodec OneCodec PlainCodec no_env no_dns unit domain_body
    internal_body no_body ip_body None no_form login_body token_body OneCodec_laws server
    (request "POST" "/v1/domains" bootstrap (lit "example.com|http://10.0.0.1")) caller rd (state (control [] [])) 0 SavedAll).
  apply control_empty_ok.
Defined.

Definition put (path body : string) : @AdminRequest AssocHeaders := request "PUT" path bootstrap (lit body).
Definition put_result (path body : string) (c : Control) : Control * @api_answer CidrLib unit :=
  @upsert_internal_route CidrLib SimpleUrlLib AssocHeaders OneCodec PlainCodec no_env no_dns unit internal_body server (put path body) (lit path) rd c.
Definition versions (c : @Control CidrLib PlainCodec) : list Z := map r_route_version (routes_in c).
Definition status {Row} (a : @api_answer CidrLib Row) : Z :=
  match a with ApiError (s, _) => s | StaleAnswer _ _ _ => 409 | UpsertAnswer true _ => 201 | _ => 200 end.
Lemma put_version_monotone_witness :
  held (fst (put_result "/internal/routes/example.com" "example.com|4|93.184.216.34:80" (control [routed route 3] []))) (lit "example.com") 3.
Proof.
  apply (@put_version_monotone CidrLib SimpleUrlLib AssocHeaders OneCodec PlainCodec no_env no_dns unit internal_body server
    (put "/internal/routes/example.com" "example.com|4|93.184.216.34:80") (lit "/internal/routes/example.com") rd
    (control [routed route 3] []) (control [routed route 3] []) (routed route 3)).
  - apply RouteTable_new_wf.
  - left.
  - reflexivity.
  - vm_compute. reflexivity.
  - reflexivity.
  - reflexivity.
Defined.
(** Of two updates that overlap, the older one may be stored last: it was admitted
    while version 3 was there and is stored after version 5. *)
Example overlapping_update_goes_back :
  let before := control [routed route 3] [] in
  let older := @admit_internal_route CidrLib SimpleUrlLib AssocHeaders PlainCodec no_env no_dns unit internal_body
    (put "/internal/routes/example.com" "example.com|4|93.184.216.34:80") (lit "/internal/routes/example.com") rd before in
  let between := fst (put_result "/internal/routes/example.com" "example.com|5|93.184.216.35:80" before) in
  let after := fst (@finish_internal_route CidrLib SimpleUrlLib OneCodec PlainCodec no_env unit server rd older between) in
  (versions between, versions after) = ([5], [4]).
Proof. vm_compute. reflexivity. Qed.
Example put_accepts_and_refuses :
  let later := put_result "/internal/routes/example.com" "example.com|4|93.184.216.34:80" (control [routed route 3] []) in
  let earlier := put_result "/internal/routes/example.com" "example.com|2|93.184.216.34:80" (control [routed route 3] []) in
  (versions (fst later), versions (fst earlier), status (snd earlier)) = ([4], [3], 409).
Proof. vm_compute. reflexivity. Qed.
(** The version of another domain decides: [www.example.com] has no route, but its
    update is refused because [example.com] with the alias has a later version. *)
Example stale_because_of_alias :
  status (snd (put_result "/internal/routes/www.example.com" "www.example.com|2|93.184.216.34:80" (control [routed (aliased route) 3] []))) = 409 /\
  status (snd (put_result "/internal/routes/www.example.com" "www.example.com|2|93.184.216.34:80" (control [routed route 3] []))) <> 409.
Proof. split; vm_compute; [reflexivity|discriminate]. Qed.
Definition create (body : string) (c : Control) : Control * @api_answer CidrLib unit :=
  @create_domain CidrLib SimpleUrlLib AssocHeaders OneCodec PlainCodec no_env no_dns unit domain_body server
    (request "POST" "/v1/domains" bootstrap (lit body)) rd c.
(** Creating the domain takes its version back to zero. *)
Example create_resets_version : versions (fst (create "example.com|http://93.184.216.34:80" (control [routed route 3] []))) = [0].
Proof. vm_compute. reflexivity. Qed.

Definition store (c : Control) : Control * @api_answer CidrLib unit :=
  @store_route CidrLib SimpleUrlLib OneCodec PlainCodec no_env unit server rd route c.
Lemma store_fails : exists e, snd (store (control [] [NotSent])) = ApiError e.
Proof.
  assert (status (snd (store (control [] [NotSent]))) = 502) as H by (vm_compute; reflexivity).
  destruct (snd (store (control [] [NotSent]))) as [e| | | | | |[]| | | | | | | | | | | | | | |] eqn:E; try (by cbn in H). by exists e.
Qed.
Lemma failed_store_not_retried_witness :
  route ∈ routes_in (fst (store (control [] [NotSent]))) /\
  store (fst (store (control [] [NotSent]))) = (fst (store (control [] [NotSent])), UpsertAnswer false (redact_route route)).
Proof.
  destruct store_fails as [e He].
  destruct (@failed_store_not_retried CidrLib SimpleUrlLib OneCodec PlainCodec no_env unit server rd route (control [] [NotSent])
    (fst (store (control [] [NotSent]))) e) as [H1 H2].
  - apply RouteTable_new_wf.
  - reflexivity.
  - rewrite <- He. apply surjective_pairing.
  - split; [exact H1|]. apply H2. vm_compute. reflexivity.
Defined.
Lemma create_domain_quota_witness :
  api_count (fst (create "example.com|http://93.184.216.34:80" (control [] []))) <= MAX_ROUTES_PER_SOURCE.
Proof.
  apply (@create_domain_quota CidrLib SimpleUrlLib AssocHeaders OneCodec PlainCodec no_env no_dns unit domain_body server
    (request "POST" "/v1/domains" bootstrap (lit "example.com|http://93.184.216.34:80")) rd (control [] [])).
  - apply RouteTable_new_wf.
  - vm_compute. discriminate.
Defined.
Definition show_request : @AdminRequest AssocHeaders := request "GET" "/v1/domains/example.com" bootstrap [].
Lemma answers_show_no_secret_witness : shows_no_secret (redact_route route).
Proof.
  apply (@answers_show_no_secret CidrLib SimpleUrlLib AssocHeaders SumDigest BitCodec OneCodec PlainCodec no_env no_dns unit domain_body
    internal_body no_body ip_body None no_form login_body token_body server show_request caller rd (state (control [route] []))).
  assert (bool_decide (redact_route route ∈ answer_routes (snd (run show_request (state (control [route] []))))) = true) as E
    by (vm_compute; reflexivity).
  apply bool_decide_eq_true in E. exact E.
Defined.
(** The removal from Redis fails: the domain is gone from memory, but comes back
    with the next start. *)
Example failed_delete_diverges :
  let c := @delete_internal_route CidrLib OneCodec PlainCodec unit server (lit "/internal/routes/example.com") rd (control [routed route 3] [Answered; NotSent]) in
  (versions (fst c), status (snd c)) = ([], 502).
Proof. vm_compute. reflexivity. Qed.
End ApiDemo.
