(* ===== verification/HealthCheck.v ===== *)
(** The active health checks of the edge binary: the set of upstreams to ask, the
    request to one of them with the network check of dynamic upstreams, and the turn
    of [run_health_checks] that writes the answers into the route table. *)
From stdpp Require Import options sorting.
From S2P Require Import Prelude RustStr RustNum RustNet CommonTypes CommonPath CommonValidate RouteRegistry HttpHeaders HttpForward Config.

Local Open Scope Z_scope.
Local Open Scope rust_scope.

(** ** What is asked *)

Record UpstreamCheck := {
  ck_source : RouteSource;
  ck_domain : rstr;
  ck_path_prefix : rstr;
  ck_url : rstr;
}.
#[export] Instance UpstreamCheck_eq_dec : EqDecision UpstreamCheck.
Proof. solve_decision. Defined.

(** The derived order: source, domain, prefix, address. *)
Definition source_rank (s : RouteSource) : Z := match s with Static => 0 | Docker => 1 | Podman => 2 | Api => 3 end.
Definition then_le (a b : rstr) (k : bool) : bool := if a =s? b then k else str_leb a b.
Definition check_leb (a b : UpstreamCheck) : bool :=
  if source_rank (ck_source a) =? source_rank (ck_source b) then
    then_le (ck_domain a) (ck_domain b) (then_le (ck_path_prefix a) (ck_path_prefix b) (str_leb (ck_url a) (ck_url b)))
  else source_rank (ck_source a) <? source_rank (ck_source b).
Definition check_le (a b : UpstreamCheck) : Prop := check_leb a b = true.
#[export] Instance check_le_dec : RelDecision check_le.
Proof. intros a b. unfold check_le. apply _. Defined.

Section health.
Context {NL : IpNetLib} {UL : UrlLib} {HL : HeaderLib}.
Context (env : rstr -> option rstr).

Definition check_of (r : Route) (prefix : rstr) (u : Upstream) : UpstreamCheck := {|
  ck_source := r_source r; ck_domain := r_domain r; ck_path_prefix := prefix; ck_url := u_url u |}.
Definition route_checks (r : Route) : list UpstreamCheck :=
  flat_map (fun p => map (check_of r (pr_prefix p)) (pr_upstreams p)) (r_paths r)
  ++ flat_map (fun l => map (check_of r (lit "/")) (lr_upstreams l)) (dr_location_routes (r_rules r))
  ++ flat_map (fun s => map (check_of r (lit "/")) (ts_upstreams s)) (dr_traffic_splits (r_rules r)).
(** The members of the [BTreeSet], in its order. *)
Definition collect_upstream_checks (routes : list Route) : list UpstreamCheck :=
  merge_sort check_le (remove_dups (flat_map route_checks routes)).

(** ** One check *)

Definition main_reserved_host_gateway (host : rstr) : bool :=
  (host =s? lit "host.docker.internal") || (host =s? lit "gateway.docker.internal").
Definition main_flag (name : string) : bool :=
  match env (lit name) with Some value => existsb (seq_eqb (to_ascii_lowercase value)) TRUE_WORDS | None => false end.
Definition main_host_gateway_upstreams_allowed : bool := main_flag "PXXL_ALLOW_HOST_GATEWAY_UPSTREAMS".
Definition main_private_upstreams_allowed : bool := main_flag "PXXL_ALLOW_PRIVATE_UPSTREAMS".
(** [lookup_host] gives no addresses when the name does not resolve in time. *)
Definition dynamic_upstream_network_allowed (lookup_host : rstr -> Z -> option (list IpAddr)) (raw : rstr) : bool :=
  match url_parse raw with
  | Err _ => false
  | Ok parsed =>
    match url_host_str parsed with
    | None => false
    | Some host =>
      let host := to_ascii_lowercase (trim_end_matches "."%char host) in
      if main_reserved_host_gateway host then main_host_gateway_upstreams_allowed
      else if main_private_upstreams_allowed then true
      else
        match parse_ip host with
        | Some ip => ip_allowed_for_upstream ip
        | None =>
          match url_port_or_known_default parsed with
          | None => false
          | Some port =>
            match lookup_host host port with
            | Some addresses => forallb ip_allowed_for_upstream addresses
            | None => true
            end
          end
        end
    end
  end.

Context {Uri : Type} (uri_parse : rstr -> option Uri).
Definition build_health_uri (upstream health_path : rstr) : option Uri :=
  let health_path := if starts_with (lit "/") health_path then health_path else lit "/" ++ health_path in
  uri_parse (trim_end_matches slash upstream ++ health_path).
(** What the resolver and the client answer during one turn, in which every check is
    made once, so that each has answers of its own: the addresses of a name, and the
    status of an answer, or none for an error or the end of the time. *)
Context (lookup_host : UpstreamCheck -> rstr -> Z -> option (list IpAddr)) (request : UpstreamCheck -> Uri -> list (rstr * rstr) -> option Z).
Definition health_headers (domain : rstr) : option (list (rstr * rstr)) :=
  match value_from_str domain with
  | Some value => Some [(lit "host", value); (lit "x-forwarded-host", value); (lit "x-pxxl-health-check", lit "1")]
  | None => None
  end.
Definition check_upstream (upstream : UpstreamCheck) (health_path : rstr) : bool :=
  if bool_decide (ck_source upstream = Api) && negb (dynamic_upstream_network_allowed (lookup_host upstream) (ck_url upstream)) then false
  else
    match build_health_uri (ck_url upstream) health_path with
    | None => false
    | Some uri =>
      match health_headers (ck_domain upstream) with
      | None => false
      | Some headers => match request upstream uri headers with Some status => status <? 500 | None => false end
      end
    end.

(** ** One turn *)

Definition health_of (health_path : rstr) (c : UpstreamCheck) : RouteUpstreamHealth := {|
  uh_domain := ck_domain c; uh_path_prefix := ck_path_prefix c; uh_upstream_url := ck_url c; uh_healthy := check_upstream c health_path |}.
(** The routes are read at the start of a turn; the answers change the state at its
    end, which other tasks may have changed in the meantime. *)
Definition health_tick (health_path : rstr) (routes : list Route) (es : EdgeState) : EdgeState :=
  es_set_route_upstream_health_many (map (health_of health_path) (collect_upstream_checks routes)) es.
(** The times of the loop. *)
Definition health_interval (c : HealthCheckConfig) : Z := from_secs (Z.max (hc_interval_seconds c) 1).
Definition health_timeout (c : HealthCheckConfig) : Z := from_millis (Z.max (hc_timeout_ms c) 100).
End health.

(** ** Updates one after the other *)

Section updates.
Context {NL : IpNetLib}.

Lemma map_upstreams_ext fp gp f g (r : Route) :
  (forall p u, p ∈ r_paths r -> u ∈ pr_upstreams p -> fp (pr_prefix p) u = gp (pr_prefix p) u) ->
  (forall u, u ∈ flat_map lr_upstreams (dr_location_routes (r_rules r)) ++ flat_map ts_upstreams (dr_traffic_splits (r_rules r)) -> f u = g u) ->
  map_upstreams fp f r = map_upstreams gp g r.
Proof.
  intros Hp Hf. unfold map_upstreams. f_equal; [|f_equal]; [f_equal|].
  - apply map_ext_in. intros l Hl%list_elem_of_In. f_equal. apply map_ext_in. intros u Hu%list_elem_of_In. apply Hf, elem_of_app.
    left. apply list_elem_of_In, in_flat_map. exists l. by rewrite <- !list_elem_of_In.
  - apply map_ext_in. intros l Hl%list_elem_of_In. f_equal. apply map_ext_in. intros u Hu%list_elem_of_In. apply Hf, elem_of_app.
    right. apply list_elem_of_In, in_flat_map. exists l. by rewrite <- !list_elem_of_In.
  - apply map_ext_in. intros p Hp'%list_elem_of_In. f_equal. apply map_ext_in. intros u Hu%list_elem_of_In. by apply Hp.
Qed.
Lemma map_upstreams_comp fp gp f g (r : Route) :
  map_upstreams fp f (map_upstreams gp g r) = map_upstreams (fun p u => fp p (gp p u)) (fun u => f (g u)) r.
Proof.
  unfold map_upstreams. destruct r as [i d ps tls alg rules src v c u]. destruct rules.
  unfold r_with_rules, r_with_paths, dr_with_pools. cbn. rewrite !map_map. cbn. f_equal.
  - apply map_ext. intros p. by rewrite map_map.
  - f_equal; apply map_ext; intros []; unfold lr_with_upstreams, ts_with_upstreams; cbn; by rewrite map_map.
Qed.

Lemma mapped_elem fp f (r : Route) u : u ∈ pool_upstreams (map_upstreams fp f r) ->
  (exists p v, p ∈ r_paths r /\ v ∈ pr_upstreams p /\ u = fp (pr_prefix p) v) \/
  (exists v, v ∈ flat_map lr_upstreams (dr_location_routes (r_rules r)) ++ flat_map ts_upstreams (dr_traffic_splits (r_rules r)) /\ u = f v).
Proof.
  unfold pool_upstreams, map_upstreams. cbn [r_paths r_rules r_with_rules r_with_paths dr_location_routes dr_traffic_splits dr_with_pools].
  rewrite !elem_of_app, !list_elem_of_In, !in_flat_map.
  intros [(x & Hx & Hu)|[(x & Hx & Hu)|(x & Hx & Hu)]]; apply in_map_iff in Hx as (y & <- & Hy); cbn in Hu; apply in_map_iff in Hu as (v & <- & Hv).
  - left. exists y, v. by rewrite !list_elem_of_In.
  - right. exists v. split; [|done]. rewrite elem_of_app, !list_elem_of_In, !in_flat_map. eauto.
  - right. exists v. split; [|done]. rewrite elem_of_app, !list_elem_of_In, !in_flat_map. eauto.
Qed.

(** The last update that concerns an address decides. *)
Definition settle (hit : rstr -> RouteUpstreamHealth -> bool) (us : list RouteUpstreamHealth) (u : Upstream) : Upstream :=
  foldl (fun u x => if hit (u_url u) x then set_healthy (uh_healthy x) u else u) u us.
Definition pool_hit (r : Route) (url : rstr) (x : RouteUpstreamHealth) : bool :=
  update_applies x && (r_domain r =s? normalize_domain (uh_domain x)) && (url =s? uh_upstream_url x).
Definition path_hit (r : Route) (prefix url : rstr) (x : RouteUpstreamHealth) : bool :=
  pool_hit r url x && (prefix =s? uh_path_prefix x).
Lemma settle_url hit us u : u_url (settle hit us u) = u_url u.
Proof. induction us as [|x us IH] using rev_ind; [done|]. unfold settle in *. rewrite foldl_snoc. by destruct (hit _ x). Qed.
Lemma settle_snoc hit us x u :
  settle hit (us ++ [x]) u = if hit (u_url u) x then set_healthy (uh_healthy x) (settle hit us u) else settle hit us u.
Proof. unfold settle at 1. rewrite foldl_snoc. fold (settle hit us u). by rewrite settle_url. Qed.
Lemma settle_last {A} hit (f : A -> RouteUpstreamHealth) (l : list A) u :
  settle hit (map f l) u =
    match last (filter (fun x => hit (u_url u) (f x) = true) l) with Some x => set_healthy (uh_healthy (f x)) u | None => u end.
Proof.
  induction l as [|x l IH] using rev_ind; [done|]. rewrite map_app, filter_app. cbn [map]. rewrite settle_snoc, IH.
  destruct (hit (u_url u) (f x)) eqn:E.
  - rewrite filter_cons_True, filter_nil, last_snoc by done. destruct (last _); by destruct u.
  - by rewrite filter_cons_False, filter_nil, app_nil_r by congruence.
Qed.

Lemma updates_map us l :
  foldl (fun routes u => if update_applies u then apply_route_health u routes else routes) l us =
  map (fun r => map_upstreams (fun p => settle (path_hit r p) us) (settle (pool_hit r) us) r) l.
Proof.
  induction us as [|x us IH] using rev_ind.
  { cbn. symmetry. apply map_id_ext. intros r. by apply map_upstreams_id. }
  rewrite foldl_snoc, IH.
  assert (forall r : Route, (update_applies x && (r_domain r =s? normalize_domain (uh_domain x))) = false ->
    map_upstreams (fun p => settle (path_hit r p) us) (settle (pool_hit r) us) r =
    map_upstreams (fun p => settle (path_hit r p) (us ++ [x])) (settle (pool_hit r) (us ++ [x])) r) as Hmiss.
  { intros r Hr.
    assert (forall url, pool_hit r url x = false) as Hpool by (intros url; unfold pool_hit; by rewrite Hr).
    assert (forall p url, path_hit r p url x = false) as Hpath by (intros p url; unfold path_hit; by rewrite Hpool).
    apply map_upstreams_ext; intros; rewrite settle_snoc; (rewrite Hpath by done) || (rewrite Hpool by done); done. }
  destruct (update_applies x) eqn:Ea.
  - unfold apply_route_health. rewrite map_map. apply map_ext. intros r. cbn [map_upstreams r_domain r_with_rules r_with_paths].
    destruct (r_domain r =s? normalize_domain (uh_domain x)) eqn:Ed; [|by apply Hmiss].
    assert (forall url, pool_hit r url x = (url =s? uh_upstream_url x)) as Hpool by (intros url; unfold pool_hit; by rewrite Ea, Ed).
    rewrite map_upstreams_comp. apply map_upstreams_ext.
    + intros p u _ _. rewrite settle_snoc. unfold set_if_url. rewrite settle_url.
      assert (path_hit r (pr_prefix p) (u_url u) x = (u_url u =s? uh_upstream_url x) && (pr_prefix p =s? uh_path_prefix x)) as -> by (unfold path_hit; by rewrite Hpool).
      destruct (pr_prefix p =s? _); [by rewrite andb_true_r|by rewrite andb_false_r].
    + intros u _. rewrite settle_snoc, Hpool. unfold set_if_url. by rewrite settle_url.
  - apply map_ext. intros r. by apply Hmiss.
Qed.
Lemma many_snapshot us t :
  table_wf t ->
  snapshot (set_route_upstream_health_many us t) =
  map (fun r => map_upstreams (fun p => settle (path_hit r p) us) (settle (pool_hit r) us) r) (snapshot t).
Proof.
  intros Hwf. unfold set_route_upstream_health_many. destruct us as [|x us]; cbn [is_empty].
  { symmetry. apply map_id_ext. intros r. by apply map_upstreams_id. }
  cbn [snapshot replace_all RouteTable_new rt_routes]. rewrite updates_map. apply dedupe_id. rewrite keys_map by done. apply Hwf.
Qed.
End updates.

(** ** Theorems *)

Section theorems.
Context {NL : IpNetLib} {UL : UrlLib} {HL : HeaderLib}.
Context (env : rstr -> option rstr) {Uri : Type} (uri_parse : rstr -> option Uri).
Context (lookup_host : UpstreamCheck -> rstr -> Z -> option (list IpAddr)) (request : UpstreamCheck -> Uri -> list (rstr * rstr) -> option Z).
Abbreviation check := (check_upstream env uri_parse lookup_host request).
Abbreviation tick := (health_tick env uri_parse lookup_host request).

(** The network check of the health checks is the one of the proxy. *)
Lemma health_network_check_agrees lookup raw : dynamic_upstream_network_allowed env lookup raw = runtime_upstream_network_allowed env lookup raw.
Proof. reflexivity. Qed.
Lemma healthy_forwardable c path : check c path = true -> ensure_runtime_upstream_allowed env (lookup_host c) (ck_source c) (ck_url c) = Ok tt.
Proof.
  unfold check_upstream, ensure_runtime_upstream_allowed. rewrite health_network_check_agrees.
  destruct (bool_decide _); [|done]. cbn [andb negb]. by destruct (runtime_upstream_network_allowed _ _ _).
Qed.

Lemma checks_elem routes c : c ∈ collect_upstream_checks routes <-> exists r, r ∈ routes /\ c ∈ route_checks r.
Proof.
  unfold collect_upstream_checks. rewrite merge_sort_Permutation, elem_of_remove_dups.
  setoid_rewrite list_elem_of_In. rewrite in_flat_map. naive_solver.
Qed.
Lemma route_checks_elem r c : c ∈ route_checks r -> exists u p, u ∈ pool_upstreams r /\ c = check_of r p u.
Proof.
  unfold route_checks, pool_upstreams. rewrite !elem_of_app, !list_elem_of_In, !in_flat_map.
  intros [(p & Hp & Hc)|[(p & Hp & Hc)|(p & Hp & Hc)]]; apply in_map_iff in Hc as (u & <- & Hu); exists u; eexists; (split; [|done]);
    rewrite !elem_of_app, !list_elem_of_In, !in_flat_map; eauto 6.
Qed.
Lemma path_checked r p u : p ∈ r_paths r -> u ∈ pr_upstreams p -> check_of r (pr_prefix p) u ∈ route_checks r.
Proof.
  intros Hp Hu. unfold route_checks. rewrite !elem_of_app. left. apply list_elem_of_In, in_flat_map. exists p. rewrite <- list_elem_of_In.
  split; [done|]. apply in_map_iff. exists u. by rewrite <- list_elem_of_In.
Qed.
Lemma pool_checked r u :
  u ∈ flat_map lr_upstreams (dr_location_routes (r_rules r)) ++ flat_map ts_upstreams (dr_traffic_splits (r_rules r)) ->
  check_of r (lit "/") u ∈ route_checks r.
Proof.
  unfold route_checks. rewrite !elem_of_app, !list_elem_of_In, !in_flat_map. intros [(p & Hp & Hu)|(p & Hp & Hu)]; right; [left|right];
    exists p; (split; [done|]); apply in_map_iff; by exists u.
Qed.

(** The checks whose answers concern an address of the route [r]: those of its domain
    and the address, whatever source and path they come from; for an address of a path,
    those with its prefix. *)
Definition names (r : Route) (url : rstr) (c : UpstreamCheck) : Prop :=
  normalize_domain (ck_domain c) = r_domain r /\ r_domain r <> [] /\ ck_url c = url /\ trim url <> [].
Definition names_at (r : Route) (prefix url : rstr) (c : UpstreamCheck) : Prop := names r url c /\ ck_path_prefix c = prefix.
#[global] Instance names_dec r url c : Decision (names r url c).
Proof. unfold names. apply _. Defined.
#[global] Instance names_at_dec r prefix url c : Decision (names_at r prefix url c).
Proof. unfold names_at. apply _. Defined.
(** The last of some checks decides; without one the flag stays. *)
Definition judged (path : rstr) (checks : list UpstreamCheck) (u : Upstream) : Upstream :=
  match last checks with Some c => set_healthy (check c path) u | None => u end.

Lemma pool_hit_names path r url c : pool_hit r url (health_of env uri_parse lookup_host request path c) = true <-> names r url c.
Proof.
  unfold pool_hit, update_applies, names. cbn [health_of uh_domain uh_upstream_url]. rewrite negb_orb, !andb_true_iff, !negb_true_iff, !seqb_true.
  split.
  - intros [[[H1 H2] ->] ->]. split; [done|]. by destruct (normalize_domain _), (trim _).
  - intros (<- & H1 & <- & H2). by destruct (normalize_domain _), (trim _).
Qed.
Lemma settle_judged path hit (P : UpstreamCheck -> Prop) `{!forall c, Decision (P c)} checks u :
  (forall c, hit (u_url u) (health_of env uri_parse lookup_host request path c) = true <-> P c) ->
  settle hit (map (health_of env uri_parse lookup_host request path) checks) u = judged path (filter P checks) u.
Proof. intros Hhit. rewrite settle_last. unfold judged. by rewrite (list_filter_iff _ P) by done. Qed.

(** Routes the checks can name: normal domains and addresses that are not blank;
    and the routes of a domain come from one source. *)
Record checkable (routes : list Route) : Prop := {
  cb_routes : forall r, r ∈ routes -> normalize_domain (r_domain r) = r_domain r /\ r_domain r <> [] /\
                                      forall u, u ∈ pool_upstreams r -> trim (u_url u) <> [];
  cb_source : forall r1 r2, r1 ∈ routes -> r2 ∈ routes -> r_domain r1 = r_domain r2 -> r_source r1 = r_source r2;
}.
(** With one source for a domain, a check that names an address of a route is a check
    of that route's domain, address and source. *)
Lemma named_check routes r url c : checkable routes -> r ∈ routes -> c ∈ collect_upstream_checks routes -> names r url c ->
  ck_source c = r_source r /\ ck_domain c = r_domain r /\ ck_url c = url.
Proof.
  intros [Hr Hs] Hin Hc (Hd & _ & Hu & _). apply checks_elem in Hc as (r2 & Hr2 & Hc). apply route_checks_elem in Hc as (v & p & _ & ->).
  cbn [check_of ck_source ck_domain ck_url] in *. destruct (Hr r2 Hr2) as (Hn & _). rewrite Hn in Hd. split_and!; [by apply Hs|done|done].
Qed.
Lemma own_check routes r p u : checkable routes -> r ∈ routes -> u ∈ pool_upstreams r -> check_of r p u ∈ route_checks r ->
  check_of r p u ∈ filter (names_at r p (u_url u)) (collect_upstream_checks routes).
Proof.
  intros [Hr _] Hin Hu Hc. destruct (Hr r Hin) as (Hn & Hne & Ht). apply list_elem_of_filter. split; [|apply checks_elem; eauto].
  split; [|done]. split_and!; [done..|]. by apply Ht.
Qed.
Lemma pool_of_path (r : Route) (p : PathRoute) (u : Upstream) : p ∈ r_paths r -> u ∈ pr_upstreams p -> u ∈ pool_upstreams r.
Proof. intros Hp Hu. unfold pool_upstreams. apply elem_of_app. left. apply list_elem_of_In, in_flat_map. exists p. by rewrite <- !list_elem_of_In. Qed.
Lemma judged_own path routes r p u : checkable routes -> r ∈ routes -> p ∈ r_paths r -> u ∈ pr_upstreams p ->
  judged path (filter (names_at r (pr_prefix p) (u_url u)) (collect_upstream_checks routes)) u =
  set_healthy (check (check_of r (pr_prefix p) u) path) u.
Proof.
  intros Hc Hr Hp Hu. pose proof (own_check routes r (pr_prefix p) u Hc Hr (pool_of_path r p u Hp Hu) (path_checked r p u Hp Hu)) as Hown.
  unfold judged. destruct (last _) as [c|] eqn:E; [|apply last_None in E; rewrite E in Hown; by apply not_elem_of_nil in Hown].
  apply last_Some_elem_of, list_elem_of_filter in E as [[Hn Hpre] Hin].
  destruct (named_check routes r (u_url u) c Hc Hr Hin Hn) as (H1 & H2 & H3).
  replace c with (check_of r (pr_prefix p) u); [done|]. destruct c. cbn in *. by subst.
Qed.

Lemma tick_snapshot path routes es : table_wf (es_routes es) ->
  snapshot (es_routes (tick path routes es)) =
  map (fun r => map_upstreams (fun p u => judged path (filter (names_at r p (u_url u)) (collect_upstream_checks routes)) u)
                              (fun u => judged path (filter (names r (u_url u)) (collect_upstream_checks routes)) u) r) (snapshot (es_routes es)).
Proof.
  intros Hwf. cbn [health_tick es_set_route_upstream_health_many with_health es_routes]. rewrite many_snapshot by done. apply map_ext_in.
  intros r _. apply map_upstreams_ext.
  - intros p u _ _. apply settle_judged. intros c. unfold path_hit, names_at. rewrite andb_true_iff, pool_hit_names, seqb_true.
    cbn [health_of uh_path_prefix]. naive_solver.
  - intros u _. apply settle_judged. intros c. apply pool_hit_names.
Qed.
Lemma judged_network path routes r u checks : checkable routes -> r ∈ routes ->
  (forall c, c ∈ checks -> c ∈ collect_upstream_checks routes /\ names r (u_url u) c) -> checks <> [] -> u_healthy (judged path checks u) = true ->
  exists c, c ∈ collect_upstream_checks routes /\ ensure_runtime_upstream_allowed env (lookup_host c) (r_source r) (u_url u) = Ok tt.
Proof.
  intros Hc Hr Hall Hne. unfold judged. destruct (last checks) as [c|] eqn:E; [|by apply last_None in E].
  apply last_Some_elem_of in E. destruct (Hall c E) as [Hin Hn]. destruct (named_check routes r _ c Hc Hr Hin Hn) as (H1 & _ & H3).
  intros Hh. exists c. split; [done|]. rewrite <- H1, <- H3. by apply (healthy_forwardable c path).
Qed.
Lemma elem_nonempty {A} (x : A) l : x ∈ l -> l <> [].
Proof. intros H ->. by apply not_elem_of_nil in H. Qed.

End theorems.

(** ** Witnesses and examples *)

Module HealthDemo.
Definition no_env : rstr -> option rstr := fun _ => None.
(** One name resolves, to a private address. *)
Definition dns (_ : UpstreamCheck) (host : rstr) (_ : Z) : option (list IpAddr) := if host =s? lit "inner.example.com" then Some [V4 (v4 10 0 0 7)] else None.
Definition uri (s : rstr) : option rstr := Some s.
Definition answers (_ : UpstreamCheck) (u : rstr) (_ : list (rstr * rstr)) : option Z :=
  if u =s? lit "http://93.184.216.34:80/up" then Some 404 else if u =s? lit "http://93.184.216.35:80/up" then Some 503 else Some 200.
Definition route (source : RouteSource) (urls : list string) : @Route CidrLib :=
  Route_new (lit "id") 0 (lit "Example.com") [PathRoute_new (lit "/") (map (fun u => Upstream_new (lit u)) urls)] source.
Definition table (source : RouteSource) : @EdgeState CidrLib :=
  EdgeState_new (RouteTable_new [route source ["http://93.184.216.34:80/"; "http://93.184.216.35:80"; "http://inner.example.com:80"]]).
Definition after (source : RouteSource) : @EdgeState CidrLib :=
  @health_tick CidrLib SimpleUrlLib AssocHeaders no_env rstr uri dns answers (lit "up") (snapshot (es_routes (table source))) (table source).
Definition flags (es : @EdgeState CidrLib) : list bool := map u_healthy (flat_map pool_upstreams (snapshot (es_routes es))).
Lemma table_snapshot source : snapshot (es_routes (table source)) = [route source ["http://93.184.216.34:80/"; "http://93.184.216.35:80"; "http://inner.example.com:80"]].
Proof. unfold table, EdgeState_new. cbn [es_routes snapshot RouteTable_new rt_routes]. apply dedupe_id. repeat constructor. set_solver. Qed.
Lemma table_checkable source : checkable (snapshot (es_routes (table source))).
Proof.
  rewrite table_snapshot. split.
  - intros r ->%list_elem_of_singleton. split; [reflexivity|]. split; [discriminate|].
    intros u Hu. cbn in Hu. rewrite !elem_of_cons, elem_of_nil in Hu. destruct Hu as [->|[->|[->|[]]]]; discriminate.
  - intros r1 r2 ->%list_elem_of_singleton ->%list_elem_of_singleton. done.
Qed.
(** The same upstream in a file of static routes is. *)
Example static_is_asked : flags (after Static) = [true; false; true].
Proof. vm_compute. reflexivity. Qed.
(** With both at once, the check of the later source decides for both routes. *)
Example sources_share_health :
  let es := @EdgeState_new CidrLib (RouteTable_new [route Static ["http://inner.example.com:80"]; route Api ["http://inner.example.com:80"]]) in
  flags (@health_tick CidrLib SimpleUrlLib AssocHeaders no_env rstr uri dns answers (lit "up") (snapshot (es_routes es)) es) = [false; false].
Proof. vm_compute. reflexivity. Qed.
End HealthDemo.
