(* ===== verification/RuntimeEvents.v ===== *)
(** The runtime route events of the edge binary ([run_route_event_consumer],
    [apply_runtime_route_event]) and the routes it starts with ([main]): what reaches
    the route table, the Redis hash and the snapshot file. *)
From stdpp Require Import options.
From S2P Require Import Prelude RustStr RustNum RustNet CommonTypes CommonPath CommonValidate RouteRegistry AdaptiveBlocker HttpHeaders Redis RouteStore RedisTokens AdminAuth AdminRoutes AdminApi Config.

Local Open Scope Z_scope.
Local Open Scope rust_scope.

(** ** Events *)

Record RuntimeRouteEvent := {
  ev_event_type : rstr; ev_domain : rstr; ev_path : rstr; ev_upstream_url : rstr; ev_runtime_server_ip : rstr; ev_published_port : rstr;
  ev_project_id : rstr; ev_deployment_id : rstr; ev_container_id : rstr;
}.
(** The fields of a stream entry; [None] for a value that is not a string, which
    is left out.  Every other field is known to the struct or ignored. *)
Definition runtime_route_event_from_fields (fields : gmap rstr (option rstr)) : option RuntimeRouteEvent :=
  let json := omap (fun value => value) fields in
  let field (name : string) := default [] (json !! lit name) in
  Some {| ev_event_type := field "event_type"; ev_domain := field "domain"; ev_path := field "path"; ev_upstream_url := field "upstream_url";
          ev_runtime_server_ip := field "runtime_server_ip"; ev_published_port := field "published_port"; ev_project_id := field "project_id";
          ev_deployment_id := field "deployment_id"; ev_container_id := field "container_id" |}.
Definition runtime_route_upstream_url (event : RuntimeRouteEvent) : rstr :=
  let upstream_url := trim (ev_upstream_url event) in
  if negb (is_empty upstream_url) then upstream_url
  else
    let host := trim (ev_runtime_server_ip event) in
    let port := trim (ev_published_port event) in
    if is_empty host || is_empty port then [] else lit "http://" ++ host ++ lit ":" ++ port.
Definition EVENT_TYPES : list rstr := lits ["container.started"; "container.healthy"; "route.promote"].
Definition event_domain (event : RuntimeRouteEvent) : rstr := to_ascii_lowercase (trim_end_matches (chr ".") (trim (ev_domain event))).
Definition event_path (event : RuntimeRouteEvent) : rstr := if is_empty (trim (ev_path event)) then lit "/" else trim (ev_path event).

Section events.
Context {NL : IpNetLib} {UL : UrlLib} {RC : RouteCodec} {SC : SnapshotCodec}.
Context (env : rstr -> option rstr).

(** [Route::new(..).with_id(..)], [route.tls = true] *)
Definition event_route (rd : RouteReadings) (event : RuntimeRouteEvent) : Route :=
  with_id (lit "runtime-" ++ event_domain event)
    (Route_new (rr_uuid rd) (rr_now rd) (event_domain event)
       [PathRoute_new (event_path event) [Upstream_new (runtime_route_upstream_url event)]] Api).
Definition event_names_route (event : RuntimeRouteEvent) : bool :=
  existsb (seq_eqb (trim (ev_event_type event))) EVENT_TYPES && negb (is_empty (event_domain event))
  && negb (is_empty (runtime_route_upstream_url event)).
Inductive EventError := EventInvalid (domain reason : rstr) | EventStore (e : RouteStoreError) | EventSnapshot.
Definition apply_runtime_route_event (rd : RouteReadings) (fate : save_fate) (event : RuntimeRouteEvent) (c : Control)
  : Control * result EventError unit :=
  if negb (event_names_route event) then (c, Ok tt)
  else
    let route := event_route rd event in
    match validate_for_dynamic_control_plane env route with
    | Err reason => (c, Err (EventInvalid (event_domain event) reason))
    | Ok _ =>
      let '(edge, changed) := es_upsert_api_route route (ct_edge c) in
      let c := set_edge edge c in
      if negb changed then (c, Ok tt)
      else
        let '(hash, stored) := upsert_route env route (ct_hash c) in
        let c := set_hash hash c in
        match stored with
        | Err e => (c, Err (EventStore e))
        | Ok _ =>
          let '(files, saved) := save_http_routes fate (api_routes_snapshot (ct_edge c)) (ct_files c) in
          (set_files files (ct_pending c) c, if saved then Ok tt else Err EventSnapshot)
        end
    end.
(** The entries of one [XREAD]: every identifier is taken over as the last one,
    whatever became of its event. *)
Record entry := { en_id : rstr; en_fields : gmap rstr (option rstr); en_readings : RouteReadings; en_fate : save_fate }.
Definition consume_entry (st : rstr * Control) (e : entry) : rstr * Control :=
  (en_id e, match runtime_route_event_from_fields (en_fields e) with
            | Some event => fst (apply_runtime_route_event (en_readings e) (en_fate e) event (snd st))
            | None => snd st
            end).
Definition consume_reply (entries : list entry) (st : rstr * Control) : rstr * Control := foldl consume_entry st entries.

(** ** The start *)

(** The static routes, then those of the snapshot file, then those of Redis; a
    source that cannot be read gives none. *)
Definition initial_routes (static : list Route) (files : Files) (hash : gmap rstr rstr * list reply) : list Route :=
  static ++ default [] (load_http_routes files) ++ match snd (load_routes env hash) with Ok routes => routes | Err _ => [] end.
Definition start_edge (static : list Route) (files : Files) (hash : gmap rstr rstr * list reply) : EdgeState :=
  EdgeState_new (Registry_new (initial_routes static files hash)).
End events.

(** ** Theorems *)

Section theorems.
Context {NL : IpNetLib} {UL : UrlLib} {RC : RouteCodec} {SC : SnapshotCodec} {Laws : RouteCodecLaws RC}.
Context (env : rstr -> option rstr).

Lemma apply_event_ok rd fate event c : control_ok env c -> control_ok env (fst (apply_runtime_route_event env rd fate event c)).
Proof using Laws.
  intros H. unfold apply_runtime_route_event. destruct (negb _); [done|]. cbv zeta.
  destruct (validate_for_dynamic_control_plane env (event_route rd event)) as [[]|] eqn:Ev; [|done].
  assert (valid_api env (event_route rd event)) as Hv by (intros _; exact Ev).
  pose proof (upsert_edge_valid env _ _ Hv (co_routes env c H)) as He.
  destruct (es_upsert_api_route (event_route rd event) (ct_edge c)) as [edge changed]. cbn [fst] in He.
  pose proof (set_edge_ok env edge c He H) as H1. destruct (negb changed); [done|].
  pose proof (upsert_hash_ok env (event_route rd event) (ct_hash (set_edge edge c)) (co_hash env _ H1)) as Hh.
  destruct (upsert_route env _ _) as [hash [u|e]]; cbn [fst] in *; [|by apply set_hash_ok].
  pose proof (set_hash_ok env hash _ Hh H1) as H2.
  pose proof (save_file_ok env fate _ _ (snapshot_valid env _ (co_routes env _ H2)) (co_file env _ H2)) as Hf.
  destruct (save_http_routes _ _ _) as [files saved]. cbn [fst] in *. apply set_files_ok; [exact Hf|apply H2|done].
Qed.
(** Whatever is written to the event stream, and whatever the store and the file
    system do with it, the routes of the control plane in memory, in Redis and in
    the snapshots keep passing its checks. *)
Theorem events_keep_valid entries id c :
  control_ok env c -> control_ok env (snd (consume_reply env entries (id, c))).
Proof using Laws.
  unfold consume_reply. revert id c. induction entries as [|e entries IH]; intros id c H; [done|].
  cbn [foldl consume_entry runtime_route_event_from_fields snd]. by apply IH, apply_event_ok.
Qed.

Lemma event_edge rd fate event c :
  event_names_route event = true -> validate_for_dynamic_control_plane env (event_route rd event) = Ok tt ->
  es_routes (ct_edge (fst (apply_runtime_route_event env rd fate event c))) = upsert_api_route (event_route rd event) (es_routes (ct_edge c)).
Proof.
  intros He Hv. rewrite <- upsert_edge_routes. unfold apply_runtime_route_event. rewrite He, Hv. cbn [negb].
  destruct (es_upsert_api_route (event_route rd event) (ct_edge c)) as [edge [|]]; cbn [negb fst]; [|done].
  destruct (upsert_route env _ _) as [hash [u|e]]; [|done]. by destruct (save_http_routes _ _ _).
Qed.
Lemma api_unique t r1 r2 : table_wf t -> r1 ∈ rt_routes t -> r2 ∈ rt_routes t -> r_source r1 = Api -> r_source r2 = Api ->
  r_domain r1 = r_domain r2 -> r1 = r2.
Proof.
  intros [Hk _] [i Hi]%list_elem_of_lookup [j Hj]%list_elem_of_lookup H1 H2 Hd.
  assert (dedupe_key r1 = dedupe_key r2) as E by (unfold dedupe_key; by rewrite H1, H2, Hd).
  assert (i = j) as ->; [|congruence]. eapply (NoDup_lookup _ i j (dedupe_key r1) Hk); unfold keys; rewrite list_lookup_fmap.
  - by rewrite Hi.
  - by rewrite Hj, E.
Qed.
Lemma api_equivalent_fields (a b : Route) : api_routes_equivalent a b = true ->
  r_source a = Api /\ r_domain a = r_domain b /\ r_paths a = r_paths b /\ r_rules a = r_rules b /\ r_route_version a = r_route_version b.
Proof.
  unfold api_routes_equivalent. rewrite !andb_true_iff, !bool_decide_eq_true, !seqb_true, Z.eqb_eq. tauto.
Qed.

(** An event that names a route replaces what the control plane had stored for
    the domain: afterwards the domain has one route of the control plane, with the
    path and upstream of the event, version 0 and none of the rules (access lists,
    authentication, rate limits) the domain had before, even if writing it to the
    store or the file failed; every other route stays. *)
Theorem event_replaces_route rd fate event c :
  table_wf (es_routes (ct_edge c)) -> event_names_route event = true -> validate_for_dynamic_control_plane env (event_route rd event) = Ok tt ->
  let c' := fst (apply_runtime_route_event env rd fate event c) in
  let domain := normalize_domain (event_domain event) in
  (exists r, r ∈ routes_in c' /\ r_source r = Api /\ r_domain r = domain /\ r_rules r = DomainRules_default /\ r_route_version r = 0 /\
     r_paths r = [PathRoute_new (event_path event) [Upstream_new (runtime_route_upstream_url event)]] /\
     (forall r', r' ∈ routes_in c' -> r_source r' = Api -> r_domain r' = domain -> r' = r)) /\
  filter (fun r => ~ (r_source r = Api /\ r_domain r = domain)) (routes_in c') =
  filter (fun r => ~ (r_source r = Api /\ r_domain r = domain)) (routes_in c).
Proof.
  intros Hwf He Hv c' domain. unfold routes_in. subst c'. rewrite event_edge by done. split.
  - destruct (upsert_stored (event_route rd event) _ Hwf eq_refl) as (r & Hin & Heq & _). exists r.
    apply api_equivalent_fields in Heq as (Hs & Hd & Hp & Hr & Hver). split_and!; try done. intros r' Hin' Hs' Hd'.
    apply (api_unique (upsert_api_route (event_route rd event) (es_routes (ct_edge c)))); try done; [|by rewrite Hd, Hd'].
    eapply registry_step_wf; [exact Hwf|apply RouteRegistry.rs_upsert].
  - destruct (upsert_delete_frame (event_route rd event) [] _ Hwf) as [Hf _]. by apply Hf.
Qed.

(** *** The start *)

Lemma last_with_key_app k l1 l2 :
  last_with_key k (l1 ++ l2) = match last_with_key k l2 with Some x => Some x | None => last_with_key k l1 end.
Proof. unfold last_with_key. by rewrite filter_app, last_app. Qed.
Lemma last_with_key_none k (l : list Route) : (forall x, x ∈ l -> dedupe_key x <> k) -> last_with_key k l = None.
Proof. intros H. unfold last_with_key. by rewrite filter_none. Qed.
Lemma last_with_key_some k (l : list Route) x : last_with_key k l = Some x -> x ∈ l /\ dedupe_key x = k.
Proof. unfold last_with_key. intros [??]%last_Some_elem_of%list_elem_of_filter. done. Qed.
Lemma last_with_key_unique k (l : list Route) x :
  (forall a b, a ∈ l -> b ∈ l -> dedupe_key a = k -> dedupe_key b = k -> a = b) -> x ∈ l -> dedupe_key x = k -> last_with_key k l = Some x.
Proof.
  intros Hu Hx Hk. destruct (last_with_key k l) as [y|] eqn:E.
  - apply last_with_key_some in E as [??]. f_equal. by apply Hu.
  - exfalso. unfold last_with_key in E. apply last_None in E. assert (x ∈ filter (fun y => dedupe_key y = k) l) as H by by apply list_elem_of_filter.
    rewrite E in H. by apply elem_of_nil in H.
Qed.
Lemma api_key_iff (x y : Route) : r_source x = Api -> (dedupe_key y = dedupe_key x <-> r_source y = Api /\ r_domain y = r_domain x).
Proof.
  intros Hx. unfold dedupe_key. rewrite Hx. split; [|by intros [-> ->]].
  destruct (r_source y); intros H; try discriminate H. split; [done|]. by apply (app_inv_head (lit "api:")) in H.
Qed.

(** The hash was written by the edge: valid routes under their normal domains. *)
Definition hash_written (h : gmap rstr rstr) : Prop :=
  routes_ok env h /\ Z.of_nat (size h) <= MAX_ROUTES_PER_SOURCE /\ (forall d p, h !! d = Some p -> normalize_domain d = d).
Lemma load_written h : hash_written h ->
  exists l, snd (load_routes env (h, [])) = Ok l /\ (forall r, r ∈ l <-> stored h !! r_domain r = Some r /\ r_source r = Api).
Proof.
  intros (Hok & Hsize & Hnorm). unfold load_routes, rbind, route_connect, route_command, run_command. cbn [tail fst snd].
  rewrite take_ge by (rewrite length_fmap, length_map_to_list; lia). rewrite (values_ok env) by (by apply routes_ok_values).
  eexists. split; [reflexivity|]. intros r. rewrite list_elem_of_fmap. setoid_rewrite list_elem_of_omap. setoid_rewrite list_elem_of_fmap. split.
  - intros (r0 & -> & p & ([d q] & -> & Hin%elem_of_map_to_list) & Hd). cbn in Hd. destruct (Hok _ _ Hin) as (r1 & Hd1 & <- & Hs & _).
    rewrite Hd in Hd1. injection Hd1 as <-. rewrite persisted_id by (done || by apply (Hnorm _ q)). split; [|done].
    unfold stored. rewrite lookup_omap, Hin. done.
  - intros [Hst Hs]. unfold stored in Hst. rewrite lookup_omap in Hst. destruct (h !! r_domain r) as [p|] eqn:Ep; [|done]. cbn in Hst.
    exists r. split; [symmetry; apply persisted_id; [done|by apply (Hnorm _ p)]|]. exists p. split; [|done]. exists (r_domain r, p).
    split; [done|]. by apply elem_of_map_to_list.
Qed.
Lemma file_api files r : r ∈ default [] (load_http_routes files) -> r_source r = Api.
Proof.
  unfold load_http_routes. destruct (content files) as [bytes|]; [|by intros ?%elem_of_nil]. destruct (is_empty bytes); [by intros ?%elem_of_nil|].
  destruct (decode_routes bytes) as [routes|]; [|by intros ?%elem_of_nil]. cbn [default from_option id].
  intros (i & Hi%list_elem_of_lookup_2 & _)%elem_of_take. by apply list_elem_of_filter in Hi as [_ (r0 & -> & _)%list_elem_of_fmap].
Qed.

(** The edge starts with its static routes, and with one route of the control
    plane for a domain: the one of Redis, or else the last one of the snapshot
    file.  A domain that Redis does not hold but the file does is served again. *)
Theorem start_routes static files h r :
  hash_written h -> Forall (fun x => r_source x = Static) static ->
  r ∈ snapshot (es_routes (start_edge env static files (h, []))) <->
  match r_source r with
  | Api => match stored h !! r_domain r with
           | Some x => r = x
           | None => last_with_key (dedupe_key r) (default [] (load_http_routes files)) = Some r
           end
  | _ => last_with_key (dedupe_key r) static = Some r
  end.
Proof.
  intros Hh Hst. destruct (load_written h Hh) as (l & Hl & Hin). unfold start_edge, initial_routes. rewrite Hl.
  cbn [EdgeState_new es_routes snapshot Registry_new RouteTable_new rt_routes]. rewrite dedupe_elem, !last_with_key_app.
  rewrite Forall_forall in Hst. destruct (decide (r_source r = Api)) as [Hs|Hs].
  - rewrite Hs. assert (last_with_key (dedupe_key r) static = None) as ->.
    { apply last_with_key_none. intros x Hx Hk. apply api_key_iff in Hk as [Hk _]; [|done]. by rewrite (Hst x Hx) in Hk. }
    destruct (stored h !! r_domain r) as [x|] eqn:Ex.
    + assert (r_source x = Api /\ r_domain x = r_domain r) as [Hsx Hdx].
      { unfold stored in Ex. rewrite lookup_omap in Ex. destruct (h !! r_domain r) as [p|] eqn:Ep; [|done]. cbn in Ex.
        destruct (proj1 Hh _ _ Ep) as (x' & Hx' & ? & ? & _). rewrite Ex in Hx'. by injection Hx' as <-. }
      rewrite (last_with_key_unique (dedupe_key r) l x); [split; congruence| | |].
      * intros a b [Ha _]%Hin [Hb _]%Hin [_ Hka]%api_key_iff [_ Hkb]%api_key_iff; [|done..]. rewrite Hka in Ha. rewrite Hkb in Hb. congruence.
      * apply Hin. by rewrite Hdx.
      * by apply api_key_iff.
    + rewrite last_with_key_none.
      * destruct (last_with_key _ _); done.
      * intros x [Hx _]%Hin [_ Hk]%api_key_iff; [|done]. rewrite Hk in Hx. congruence.
  - assert (forall x, r_source x = Api -> dedupe_key x <> dedupe_key r) as Hne.
    { intros x Hx E. symmetry in E. apply api_key_iff in E as [? _]; done. }
    rewrite (last_with_key_none _ l) by (intros x [_ Hx]%Hin; by apply Hne).
    rewrite (last_with_key_none _ (default [] _)) by (intros x Hx%file_api; by apply Hne). by destruct (r_source r).
Qed.
End theorems.

(** ** Witnesses and examples *)

Module EventsDemo.
Definition no_env : rstr -> option rstr := fun _ => None.
Definition readings : RouteReadings := {| rr_uuid := lit "id"; rr_now := 9 |}.
Definition started (domain path url : string) : RuntimeRouteEvent := {|
  ev_event_type := lit " container.started"; ev_domain := lit domain; ev_path := lit path; ev_upstream_url := lit url; ev_runtime_server_ip := [];
  ev_published_port := []; ev_project_id := []; ev_deployment_id := []; ev_container_id := [] |}.
Definition fields (domain url : string) : gmap rstr (option rstr) :=
  {[ lit "event_type" := Some (lit "container.started"); lit "domain" := Some (lit domain); lit "upstream_url" := Some (lit url); lit "attempt" := None ]}.
Definition entry_of (id domain url : string) : entry := {|
  en_id := lit id; en_fields := fields domain url; en_readings := readings; en_fate := SavedAll |}.
Definition entries : list entry := [entry_of "1-0" "Example.com." "http://93.184.216.34:80"; entry_of "1-1" "b.example.com" "http://10.0.0.1:80"].
Definition apply (event : RuntimeRouteEvent) (c : Control) : Control * result EventError unit :=
  @apply_runtime_route_event CidrLib SimpleUrlLib RouteDemo.OneCodec PlainCodec no_env readings SavedAll event c.

Lemma events_keep_valid_witness :
  @control_ok CidrLib SimpleUrlLib RouteDemo.OneCodec PlainCodec no_env
    (snd (@consume_reply CidrLib SimpleUrlLib RouteDemo.OneCodec PlainCodec no_env entries (lit "$", ApiDemo.control [] []))) /\
  map r_domain (routes_in (snd (@consume_reply CidrLib SimpleUrlLib RouteDemo.OneCodec PlainCodec no_env entries (lit "$", ApiDemo.control [] [])))) = [lit "example.com"].
Proof.
  split; [|vm_compute; reflexivity].
  apply (@events_keep_valid CidrLib SimpleUrlLib RouteDemo.OneCodec PlainCodec RouteDemo.OneCodec_laws no_env entries (lit "$") (ApiDemo.control [] [])).
  apply ApiDemo.control_empty_ok.
Defined.

Definition guarded : @Route CidrLib := ApiDemo.routed (ApiDemo.aliased RouteDemo.route) 7.
Definition before : @Control CidrLib PlainCodec := ApiDemo.control [guarded] [].
Definition event : RuntimeRouteEvent := started "example.com" "" "http://93.184.216.35:80".
(** The route of version 7 with its rules is replaced. *)
Lemma event_replaces_route_witness :
  (exists r, r ∈ routes_in (fst (apply event before)) /\ r_source r = Api /\ r_domain r = lit "example.com" /\ r_rules r = DomainRules_default /\
     r_route_version r = 0) /\
  map (fun r => (dr_www_alias (r_rules r), r_route_version r)) (routes_in before) = [(true, 7)] /\
  map (fun r => (dr_www_alias (r_rules r), r_route_version r)) (routes_in (fst (apply event before))) = [(false, 0)].
Proof.
  split; [|split; vm_compute; reflexivity].
  destruct (@event_replaces_route CidrLib SimpleUrlLib RouteDemo.OneCodec PlainCodec no_env readings SavedAll event before) as [(r & H1 & H2 & H3 & H4 & H5 & _) _].
  - apply RouteTable_new_wf.
  - vm_compute. reflexivity.
  - vm_compute. reflexivity.
  - exists r. by split_and!.
Defined.

Definition hash : gmap rstr rstr := {[ lit "example.com" := lit "r" ]}.
Lemma hash_ok : @hash_written CidrLib SimpleUrlLib RouteDemo.OneCodec no_env hash.
Proof.
  unfold hash. split_and!.
  - intros d p [<- <-]%lookup_singleton_Some. exists RouteDemo.route. split; [reflexivity|]. split; [reflexivity|]. split; [reflexivity|].
    vm_compute. reflexivity.
  - rewrite map_size_singleton. vm_compute. discriminate.
  - intros d p [<- _]%lookup_singleton_Some. reflexivity.
Qed.
Lemma start_routes_witness :
  RouteDemo.route ∈ snapshot (es_routes (@start_edge CidrLib SimpleUrlLib RouteDemo.OneCodec no_env [] RouteDemo.empty_dir (hash, []))).
Proof.
  apply (@start_routes CidrLib SimpleUrlLib RouteDemo.OneCodec no_env [] RouteDemo.empty_dir hash RouteDemo.route).
  - apply hash_ok.
  - constructor.
  - reflexivity.
Defined.
(** A route that was deleted from Redis by another edge is still in the snapshot
    file of this one: it is served again after the next start. *)
Example deleted_route_returns :
  map r_domain (snapshot (es_routes (@start_edge CidrLib SimpleUrlLib RouteDemo.OneCodec no_env []
    (fst (@save_http_routes CidrLib RouteDemo.OneCodec SavedAll [RouteDemo.route] RouteDemo.empty_dir)) (∅, [])))) = [lit "example.com"].
Proof. vm_compute. reflexivity. Qed.
End EventsDemo.
