(* ===== verification/Tls.v ===== *)
(** The [tls] crate: the local certificate pair on disk ([LocalCertificateStore]), its
    creation, reuse and static override, and the resolver that picks a certificate
    by the name a client asks for.  [rcgen], the PEM reader and the key check of
    [rustls] are parameters. *)
From stdpp Require Import options.
From S2P Require Import Prelude RustStr RustNum Config RedisTokens AdminAuth.

Local Open Scope Z_scope.
Local Open Scope rust_scope.

(** ** Parameters *)

Class CertLib := {
  (** certificates, private keys, and [rustls::sign::CertifiedKey] *)
  Certs : Type;
  PrivateKey : Type;
  CertifiedKey : Type;
  (** [rcgen]: the certificate and the key of these names, from some randomness *)
  generate_pem : rstr -> list rstr -> option (rstr * rstr);
  (** [rustls_pemfile::certs], [private_key] (which may find none) *)
  pem_certs : rstr -> option Certs;
  pem_private_key : rstr -> option (option PrivateKey);
  (** [CertifiedKey::from_der] *)
  from_der : Certs -> PrivateKey -> option CertifiedKey;
  (** the subject alternative names of a certificate *)
  alt_names : CertifiedKey -> list rstr;
}.
(** What the documentation of these crates says: a generated pair reads back, its
    halves fit, and it has the names that were asked for. *)
Class CertLaws (CL : CertLib) : Prop := {
  generated_pair : forall random names cert key, generate_pem random names = Some (cert, key) ->
    exists certs k ck, pem_certs cert = Some certs /\ pem_private_key key = Some (Some k) /\ from_der certs k = Some ck /\ alt_names ck = names;
}.

(** ** Files *)

Inductive TlsError :=
| TlsCreateDir (path : rstr)
| TlsRead (path : rstr)
| TlsWrite (path : rstr)
| StaticOverrideIncomplete
| TlsGenerate
| TlsPem
| MissingPrivateKey
| TlsRustls.
(** The content of a file and the time it was last written, in milliseconds. *)
Abbreviation Disk := (gmap rstr (rstr * Z)).
(** What becomes of the next operation: [Partly n] writes [n] bytes and fails. *)
Inductive io_fate := Done | Failed | Partly (n : nat).
Definition io (A : Type) : Type := oracle Disk io_fate TlsError A.
(** An operation that fails with [error], or runs. *)
Definition io_op {A} (error : TlsError) (f : Disk -> Disk * result TlsError A) : io A := fun s =>
  match snd s with
  | Failed :: fates | Partly _ :: fates => ((fst s, fates), Err error)
  | fates => let '(d, r) := f (fst s) in ((d, tail fates), r)
  end.
Definition create_dir_all (dir : rstr) : io unit := io_op (TlsCreateDir dir) (fun d => (d, Ok tt)).
Definition read_file (path : rstr) : io rstr :=
  io_op (TlsRead path) (fun d => (d, match d !! path with Some (bytes, _) => Ok bytes | None => Err (TlsRead path) end)).
Definition write_file (now : Z) (path bytes : rstr) : io unit := fun s =>
  match snd s with
  | Failed :: fates => ((fst s, fates), Err (TlsWrite path))
  | Partly n :: fates => ((<[path := (take n bytes, now)]> (fst s), fates), Err (TlsWrite path))
  | fates => ((<[path := (bytes, now)]> (fst s), tail fates), Ok tt)
  end.
(** [set_private_key_permissions]: the mode is not kept, only its failure. *)
Definition set_private_key_permissions (path : rstr) : io unit := io_op (TlsWrite path) (fun d => (d, Ok tt)).

(** [Path::join] with a relative path *)
Definition join_path (dir name : rstr) : rstr :=
  if is_empty dir then name else if ends_with (lit "/") dir then dir ++ name else dir ++ lit "/" ++ name.

(** ** The store *)

Record CertificateBundle := { bu_cert_path : rstr; bu_key_path : rstr; bu_domains : list rstr }.

Definition cert_path (cert_dir : rstr) : rstr := join_path cert_dir (lit "local-dev-cert.pem").
Definition key_path (cert_dir : rstr) : rstr := join_path cert_dir (lit "local-dev-key.pem").
Definition domain_certs_dir (cert_dir : rstr) : rstr := join_path cert_dir (lit "domains").
(** One character for one character: the bytes that continue a character are left out. *)
Definition safe_domain_cert_name (domain : rstr) : rstr :=
  map (fun ch => if is_ascii_alphanumeric ch || beq ch (chr ".") || beq ch (chr "-") then ascii_lower ch else chr "_")
    (filter (fun ch => cont ch = false) domain).
Definition domain_cert_dir (cert_dir domain : rstr) : rstr := join_path (domain_certs_dir cert_dir) (safe_domain_cert_name domain).

Section store.
Context {CL : CertLib} (env : rstr -> option rstr) (cert_dir : rstr).

Definition add_default (sans : list rstr) (name : rstr) : list rstr := if existsb (seq_eqb name) sans then sans else sans ++ [name].
Definition certificate_names (domains : list rstr) : list rstr :=
  dedup (sort_strings (foldl add_default domains (lits ["localhost"; "pxxlhost"; "*.pxxlhost"]))).
Definition generate_certificate (random : rstr) (domains : list rstr) : io (rstr * rstr * list rstr) :=
  match generate_pem random (certificate_names domains) with
  | Some (cert_pem, key_pem) => rret (cert_pem, key_pem, certificate_names domains)
  | None => rfail TlsGenerate
  end.
Definition bundle (domains : list rstr) : CertificateBundle := {|
  bu_cert_path := cert_path cert_dir; bu_key_path := key_path cert_dir; bu_domains := domains |}.
(** Both files, the certificate first, and the mode of the key. *)
Definition write_pair (now : Z) (cert_pem key_pem : rstr) : io unit :=
  do* write_file now (cert_path cert_dir) cert_pem in
  do* write_file now (key_path cert_dir) key_pem in
  set_private_key_permissions (key_path cert_dir).
Definition copy_static_certificate_override (now : Z) (domains : list rstr) : io (option CertificateBundle) :=
  match trimmed_env env "PXXL_STATIC_LOCAL_CERT", trimmed_env env "PXXL_STATIC_LOCAL_KEY" with
  | Some source_cert, Some source_key =>
    let* cert_pem := read_file source_cert in
    let* key_pem := read_file source_key in
    do* write_pair now cert_pem key_pem in
    rret (Some (bundle domains))
  | None, None => rret None
  | _, _ => rfail StaticOverrideIncomplete
  end.
Definition create_pair (now : Z) (random : rstr) (domains : list rstr) : io CertificateBundle :=
  let* pair := generate_certificate random domains in
  let '(cert_pem, key_pem, sans) := pair in
  do* write_pair now cert_pem key_pem in
  rret (bundle sans).
Definition regenerate_certificate (now : Z) (random : rstr) (domains : list rstr) : io CertificateBundle :=
  do* create_dir_all cert_dir in
  let* static := copy_static_certificate_override now domains in
  match static with
  | Some bundle => rret bundle
  | None => create_pair now random domains
  end.
Definition MAX_CERT_AGE_MS : Z := 335 * 24 * 60 * 60 * 1000.
(** [Ok] of the age, or [None] when the file cannot be looked at; a time in the
    future counts as young. *)
Definition cert_age (now : Z) : io (option bool) := fun s =>
  match snd s with
  | Failed :: fates | Partly _ :: fates => ((fst s, fates), Ok None)
  | fates =>
    ((fst s, tail fates), Ok (match fst s !! cert_path cert_dir with
                              | Some (_, modified) => Some ((now <? modified) || (now - modified <? MAX_CERT_AGE_MS))
                              | None => None
                              end))
  end.
Definition ensure_certificate (now : Z) (random : rstr) (domains : list rstr) : io CertificateBundle :=
  do* create_dir_all cert_dir in
  let* static := copy_static_certificate_override now domains in
  match static with
  | Some bundle => rret bundle
  | None => fun s =>
    if bool_decide (is_Some (fst s !! cert_path cert_dir)) && bool_decide (is_Some (fst s !! key_path cert_dir)) then
      (let* young := cert_age now in
       match young with
       | Some true => rret (bundle domains)
       | _ => regenerate_certificate now random domains
       end) s
    else create_pair now random domains s
  end.

(** ** The certificates that are served *)

Definition load_certs (path : rstr) : io Certs :=
  let* bytes := read_file path in
  match pem_certs bytes with Some certs => rret certs | None => rfail TlsPem end.
Definition load_private_key (path : rstr) : io PrivateKey :=
  let* bytes := read_file path in
  match pem_private_key bytes with
  | Some (Some key) => rret key
  | Some None => rfail MissingPrivateKey
  | None => rfail TlsPem
  end.
Definition certified_key_from_paths (cert_path key_path : rstr) : io CertifiedKey :=
  let* certs := load_certs cert_path in
  let* key := load_private_key key_path in
  match from_der certs key with Some ck => rret ck | None => rfail TlsRustls end.

Record DomainCertificateResolver := { dr_fallback : CertifiedKey; dr_by_name : gmap rstr CertifiedKey }.
(** The directories below [dir] that hold files, in no order that is known. *)
Definition entry_dir (dir path : rstr) : option rstr :=
  match strip_prefix (join_path dir []) path with
  | Some rest => match split_once (chr "/") rest with Some (name, _) => Some name | None => None end
  | None => None
  end.
Definition read_dir (dir : rstr) (d : Disk) : list rstr := remove_dups (omap (entry_dir dir) (fst <$> map_to_list d)).
Definition complete_dir (dir : rstr) (d : Disk) (name : rstr) : bool :=
  valid_utf8 name && bool_decide (is_Some (d !! join_path (join_path dir name) (lit "fullchain.pem")))
  && bool_decide (is_Some (d !! join_path (join_path dir name) (lit "privkey.pem"))).
Fixpoint load_domains (dir : rstr) (names : list rstr) (by_name : gmap rstr CertifiedKey) : io (gmap rstr CertifiedKey) :=
  match names with
  | [] => rret by_name
  | name :: names => fun s =>
    if negb (complete_dir dir (fst s) name) then load_domains dir names by_name s
    else
      (let* key := certified_key_from_paths (join_path (join_path dir name) (lit "fullchain.pem")) (join_path (join_path dir name) (lit "privkey.pem")) in
       load_domains dir names (<[to_ascii_lowercase name := key]> by_name)) s
  end.
(** A directory that cannot be listed counts as empty. *)
Definition load_resolver (dir : rstr) (fallback : CertifiedKey) : io DomainCertificateResolver := fun s =>
  let names := match snd s with Failed :: _ | Partly _ :: _ => [] | _ => read_dir dir (fst s) end in
  (let* by_name := load_domains dir names ∅ in
   rret {| dr_fallback := fallback; dr_by_name := by_name |}) (fst s, tail (snd s)).
Definition resolve (r : DomainCertificateResolver) (server_name : option rstr) : option CertifiedKey :=
  match match server_name with Some name => dr_by_name r !! to_ascii_lowercase name | None => None end with
  | Some key => Some key
  | None => Some (dr_fallback r)
  end.
(** The configuration of a listener is its resolver; the protocols it offers are fixed. *)
Definition server_config_with_domain_certs (fallback : CertificateBundle) : io DomainCertificateResolver :=
  let* key := certified_key_from_paths (bu_cert_path fallback) (bu_key_path fallback) in
  load_resolver (domain_certs_dir cert_dir) key.
(** The start of the edge: the pair, then the listener. *)
Definition start_tls (now : Z) (random : rstr) (domains : list rstr) : io DomainCertificateResolver :=
  let* pair := ensure_certificate now random domains in
  server_config_with_domain_certs pair.
End store.


(** ** Theorems *)

Section theorems.
Context {CL : CertLib} (env : rstr -> option rstr) (cert_dir : rstr).

Lemma join_path_inj dir a b : join_path dir a = join_path dir b -> a = b.
Proof.
  unfold join_path. destruct (is_empty dir); [done|]. destruct (ends_with _ dir); intros H.
  - by apply app_inv_head in H.
  - apply app_inv_head in H. by injection H.
Qed.
Lemma cert_key_apart : cert_path cert_dir <> key_path cert_dir.
Proof. intros H%join_path_inj. discriminate H. Qed.

(** Reading a pair when the disk does not fail. *)
Definition pair_on (d : Disk) (c k : rstr) : result TlsError CertifiedKey := snd (certified_key_from_paths c k (d, [])).
Lemma pair_read d c k : certified_key_from_paths c k (d, []) = ((d, []), pair_on d c k).
Proof.
  unfold pair_on, certified_key_from_paths, load_certs, load_private_key, rbind, read_file, io_op. cbn [fst snd tail].
  destruct (d !! c) as [[cb ?]|]; [|done]. destruct (pem_certs cb); [|done]. cbn [rret fst snd tail].
  destruct (d !! k) as [[kb ?]|]; [|done]. destruct (pem_private_key kb) as [[key|]|]; [|done..]. cbn [rret]. by destruct (from_der _ _).
Qed.

Section resolver.
Context (dir : rstr) (d : Disk).
Definition domain_pair (name : rstr) : result TlsError CertifiedKey :=
  pair_on d (join_path (join_path dir name) (lit "fullchain.pem")) (join_path (join_path dir name) (lit "privkey.pem")).
(** The certificate for a name in lower case: that of a directory, or none. *)
Definition names_key (names : list rstr) (by_name : gmap rstr CertifiedKey) (sni : rstr) (k : CertifiedKey) : Prop :=
  (exists name, name ∈ names /\ complete_dir dir d name = true /\ to_ascii_lowercase name = sni /\ domain_pair name = Ok k) \/
  ((forall name, name ∈ names -> complete_dir dir d name = true -> to_ascii_lowercase name <> sni) /\ by_name !! sni = Some k).
Lemma load_domains_read names : forall by_name,
  exists r, load_domains dir names by_name (d, []) = ((d, []), r) /\
  (is_ok r = true <-> forall name, name ∈ names -> complete_dir dir d name = true -> is_ok (domain_pair name) = true) /\
  (forall m, r = Ok m -> forall sni k, m !! sni = Some k -> names_key names by_name sni k) /\
  (forall m, r = Ok m -> forall sni, m !! sni = None ->
     by_name !! sni = None /\ forall name, name ∈ names -> complete_dir dir d name = true -> to_ascii_lowercase name <> sni).
Proof.
  induction names as [|name names IH]; intros by_name; cbn [load_domains fst].
  { exists (Ok by_name). split_and!; [done|set_solver|intros ? [= <-] sni k Hk; right; set_solver|intros ? [= <-]; set_solver]. }
  destruct (complete_dir dir d name) eqn:Ec; cbn [negb].
  - unfold rbind. rewrite pair_read. change (pair_on d _ _) with (domain_pair name). destruct (domain_pair name) as [key|e] eqn:Ek.
    + destruct (IH (<[to_ascii_lowercase name := key]> by_name)) as (r & -> & Hok & Hm & Hn). exists r. split; [done|]. split_and!.
      * rewrite Hok. set_unfold. split; [intros H n [->|Hin]; [by rewrite Ek|by apply H]|intros H n Hin; by apply H; right].
      * intros m -> sni k Hk. destruct (Hm m eq_refl sni k Hk) as [(n & Hin & ? & ? & ?)|[Hnone Hb]]; [left; exists n; set_solver|].
        destruct (decide (to_ascii_lowercase name = sni)) as [E|E].
        -- rewrite <- E, lookup_insert_eq in Hb. injection Hb as <-. left. exists name. set_solver.
        -- rewrite lookup_insert_ne in Hb by done. right. set_solver.
      * intros m -> sni Hs. destruct (Hn m eq_refl sni Hs) as [[Hb Hne]%lookup_insert_None Hall]. split; [done|]. set_solver.
    + exists (Err e). split; [done|]. split_and!; [|done|done]. split; [done|]. intros H. specialize (H name). rewrite Ek in H. set_solver.
  - destruct (IH by_name) as (r & -> & Hok & Hm & Hn). exists r. split; [done|]. split_and!.
    + rewrite Hok. set_unfold. split; [intros H n [->|Hin]; [congruence|by apply H]|intros H n Hin; by apply H; right].
    + intros m -> sni k Hk. destruct (Hm m eq_refl sni k Hk) as [(n & ? & ? & ? & ?)|[Hnone Hb]]; [left; exists n; set_solver|].
      right. split; [|done]. intros n [->|Hin]%elem_of_cons ?; [congruence|by apply Hnone].
    + intros m -> sni Hs. destruct (Hn m eq_refl sni Hs) as [Hb Hall]. split; [done|]. intros n [->|Hin]%elem_of_cons ?; [congruence|by apply Hall].
Qed.
End resolver.

(** C17: The listener is configured exactly if the fallback pair and every complete
    pair of a domain directory can be used: one bad pair leaves no configuration.
    Then a client gets the certificate of a directory with the name it asks for,
    upper and lower case apart, and the fallback exactly if there is none. *)
Theorem server_config_exact (b : CertificateBundle) (d : Disk) :
  let dir := domain_certs_dir cert_dir in
  let served := snd (server_config_with_domain_certs cert_dir b (d, [])) in
  (is_ok served = true <-> is_ok (pair_on d (bu_cert_path b) (bu_key_path b)) = true /\
     forall name, name ∈ read_dir dir d -> complete_dir dir d name = true -> is_ok (domain_pair dir d name) = true) /\
  (forall r, served = Ok r ->
     forall sni, exists k, resolve r (Some sni) = Some k /\
       ((exists name, name ∈ read_dir dir d /\ complete_dir dir d name = true /\ to_ascii_lowercase name = to_ascii_lowercase sni /\ domain_pair dir d name = Ok k) \/
        ((forall name, name ∈ read_dir dir d -> complete_dir dir d name = true -> to_ascii_lowercase name <> to_ascii_lowercase sni) /\
         pair_on d (bu_cert_path b) (bu_key_path b) = Ok k))).
Proof.
  intros dir served. subst served. unfold server_config_with_domain_certs, rbind. rewrite pair_read.
  destruct (pair_on d (bu_cert_path b) (bu_key_path b)) as [fallback|e]; cbn [snd]; [|split; [cbn; naive_solver|done]].
  unfold load_resolver. cbn [fst snd tail]. unfold rbind. fold dir.
  destruct (load_domains_read dir d (read_dir dir d) ∅) as (r & -> & Hok & Hm & Hn). destruct r as [m|e]; cbn [rret snd].
  - split; [cbn in *; tauto|]. intros r [= <-] sni. unfold resolve. cbn [dr_by_name dr_fallback].
    destruct (m !! to_ascii_lowercase sni) as [k|] eqn:Ek.
    + exists k. split; [done|]. destruct (Hm m eq_refl _ _ Ek) as [?|[_ Hb]]; [by left|by rewrite lookup_empty in Hb].
    + exists fallback. split; [done|]. right. split; [|done]. by apply (Hn m eq_refl).
  - split; [cbn in *; tauto|done].
Qed.

(** A pair on disk that is younger than 335 days is used as it is: the names it
    is asked for are not compared with the ones it has, so what is served after a
    start does not depend on them, and nothing on the disk changes. *)
Theorem young_pair_reused now random domains d cert modified :
  trimmed_env env "PXXL_STATIC_LOCAL_CERT" = None -> trimmed_env env "PXXL_STATIC_LOCAL_KEY" = None ->
  d !! cert_path cert_dir = Some (cert, modified) -> is_Some (d !! key_path cert_dir) -> now - modified < MAX_CERT_AGE_MS ->
  ensure_certificate env cert_dir now random domains (d, []) = ((d, []), Ok (bundle cert_dir domains)) /\
  (forall domains', start_tls env cert_dir now random domains' (d, []) = start_tls env cert_dir now random domains (d, [])).
Proof.
  intros H1 H2 Hc Hk Ha.
  assert (forall domains, ensure_certificate env cert_dir now random domains (d, []) = ((d, []), Ok (bundle cert_dir domains))) as He.
  { intros ds. unfold ensure_certificate, copy_static_certificate_override, create_dir_all, io_op, rbind. cbn [fst snd tail].
    rewrite H1, H2. cbn [rret fst]. rewrite !bool_decide_eq_true_2 by (rewrite ?Hc; done). cbn [andb]. unfold cert_age. cbn [fst snd tail].
    rewrite Hc. destruct (Z.ltb_spec (now - modified) MAX_CERT_AGE_MS); [|lia]. by rewrite orb_true_r. }
  split; [apply He|]. intros ds. unfold start_tls, rbind. by rewrite !He.
Qed.

Context {Laws : CertLaws CL}.
Lemma add_default_elem sans name x : x ∈ add_default sans name <-> x ∈ sans \/ x = name.
Proof.
  unfold add_default. destruct (existsb _ sans) eqn:E; [|rewrite elem_of_app, list_elem_of_singleton; tauto].
  apply existsb_exists in E as (y & Hy%list_elem_of_In & ->%seqb_true). naive_solver.
Qed.
Lemma certificate_names_elem domains x : x ∈ certificate_names domains <-> x ∈ domains \/ x ∈ lits ["localhost"; "pxxlhost"; "*.pxxlhost"].
Proof.
  unfold certificate_names. rewrite dedup_elem. unfold sort_strings. rewrite merge_sort_Permutation.
  cbn [lits map foldl]. rewrite !add_default_elem, !elem_of_cons, elem_of_nil. tauto.
Qed.
(** A new local certificate has the names that were asked for and the three
    local ones, and no others; its pair is on the disk and can be served. *)
Theorem regenerated_pair_served now random domains d cert key :
  trimmed_env env "PXXL_STATIC_LOCAL_CERT" = None -> trimmed_env env "PXXL_STATIC_LOCAL_KEY" = None ->
  generate_pem random (certificate_names domains) = Some (cert, key) ->
  exists d' ck, regenerate_certificate env cert_dir now random domains (d, []) = ((d', []), Ok (bundle cert_dir (certificate_names domains))) /\
    pair_on d' (cert_path cert_dir) (key_path cert_dir) = Ok ck /\
    (forall x, x ∈ alt_names ck <-> x ∈ domains \/ x ∈ lits ["localhost"; "pxxlhost"; "*.pxxlhost"]) /\
    (forall path, path <> cert_path cert_dir -> path <> key_path cert_dir -> d' !! path = d !! path).
Proof using Laws.
  intros H1 H2 Hg. destruct (generated_pair _ _ _ _ Hg) as (certs & k & ck & Hc & Hk & Hf & Hn).
  exists (<[key_path cert_dir := (key, now)]> (<[cert_path cert_dir := (cert, now)]> d)), ck. split_and!.
  - unfold regenerate_certificate, copy_static_certificate_override, create_dir_all, io_op, rbind. cbn [fst snd tail].
    rewrite H1, H2. cbn [rret]. unfold create_pair, generate_certificate, write_pair, rbind. rewrite Hg. reflexivity.
  - pose proof cert_key_apart as Hne. unfold pair_on, certified_key_from_paths, load_certs, load_private_key, read_file, io_op, rbind. cbn [fst snd tail].
    rewrite lookup_insert_ne, lookup_insert_eq by done. rewrite Hc. cbn [rret fst snd tail]. rewrite lookup_insert_eq, Hk. cbn [rret]. by rewrite Hf.
  - intros x. rewrite Hn. apply certificate_names_elem.
  - intros path ??. by rewrite !lookup_insert_ne by done.
Qed.
End theorems.

(** ** Witnesses and examples *)

Module TlsDemo.
Definition no_env : rstr -> option rstr := fun _ => None.
(** A certificate is its serial number and its names, a key the serial number. *)
#[export] Instance PlainCerts : CertLib := {|
  Certs := rstr * list rstr; PrivateKey := rstr; CertifiedKey := list rstr;
  generate_pem random names := if is_empty random || is_empty names || existsb (contains_char (chr ",")) names || contains_char (chr ";") random then None
                               else Some (random ++ chr ";" :: join [chr ","] names, random);
  pem_certs bytes := match split_once (chr ";") bytes with Some (serial, names) => Some (serial, split (chr ",") names) | None => None end;
  pem_private_key bytes := if is_empty bytes then Some None else Some (Some bytes);
  from_der certs key := if fst certs =s? key then Some (snd certs) else None;
  alt_names ck := ck |}.
Definition dir : rstr := lit "/data/certs".
Definition names : list rstr := lits ["b.example.com"; "a.example.com"].
Definition first : Disk * list io_fate := fst (@regenerate_certificate PlainCerts no_env dir 0 (lit "k1") names (∅, [])).
Definition put (name file text : string) (d : Disk) : Disk :=
  <[join_path (join_path (domain_certs_dir dir) (lit name)) (lit file) := (lit text, 0)]> d.
Definition site (d : Disk) : Disk := put "Shop.example.com" "privkey.pem" "k7" (put "Shop.example.com" "fullchain.pem" "k7;shop.example.com" d).
Definition served (r : result TlsError (@DomainCertificateResolver PlainCerts)) (sni : string) : option (list rstr) :=
  match r with Ok r => resolve r (Some (lit sni)) | Err _ => None end.

Example first_files : fst first !! cert_path dir = Some (lit "k1;*.pxxlhost,a.example.com,b.example.com,localhost,pxxlhost", 0) /\ fst first !! key_path dir = Some (lit "k1", 0).
Proof. split_and!; vm_compute; reflexivity. Qed.
Lemma young_pair_reused_witness :
  @ensure_certificate PlainCerts no_env dir 5 (lit "k2") (lits ["c.example.com"]) first = (first, Ok (bundle dir (lits ["c.example.com"]))) /\
  served (snd (@start_tls PlainCerts no_env dir 5 (lit "k2") (lits ["c.example.com"]) first)) "c.example.com" =
    Some (lits ["*.pxxlhost"; "a.example.com"; "b.example.com"; "localhost"; "pxxlhost"]).
Proof.
  split; [|vm_compute; reflexivity]. change first with (fst first, @nil io_fate).
  apply (@young_pair_reused PlainCerts no_env dir 5 (lit "k2") (lits ["c.example.com"]) (fst first)
    (lit "k1;*.pxxlhost,a.example.com,b.example.com,localhost,pxxlhost") 0).
  - reflexivity.
  - reflexivity.
  - vm_compute. reflexivity.
  - vm_compute. eexists. reflexivity.
  - vm_compute. reflexivity.
Defined.
Example server_config_cases :
  let disk := site (fst first) in
  let b := bundle dir names in
  let run d := snd (@server_config_with_domain_certs PlainCerts dir b (d, [])) in
  served (run disk) "SHOP.example.com" = Some (lits ["shop.example.com"]) /\
  served (run disk) "a.example.com" = Some (lits ["*.pxxlhost"; "a.example.com"; "b.example.com"; "localhost"; "pxxlhost"]) /\
  is_ok (run (put "old.example.com" "privkey.pem" "k9" (put "old.example.com" "fullchain.pem" "k8;old.example.com" disk))) = false /\
  is_ok (run (put "old.example.com" "privkey.pem" "k9" disk)) = true.
Proof. split_and!; vm_compute; reflexivity. Qed.
(** The certificate of a wildcard domain is installed under a name no client asks for. *)
Example wildcard_never_served : safe_domain_cert_name (lit "*.example.com") = lit "_.example.com".
Proof. reflexivity. Qed.
(** When the key cannot be written the new certificate stays beside the old key; the
    pair is young, so the next start keeps it, and ends with an error. *)
Example torn_pair_stops_start :
  let torn := fst (fst (@regenerate_certificate PlainCerts no_env dir 5 (lit "k2") names (fst first, [Done; Done; Failed]))) in
  match snd (@start_tls PlainCerts no_env dir 9 (lit "k3") names (torn, [])) with Err TlsRustls => true | _ => false end = true.
Proof. vm_compute. reflexivity. Qed.

Lemma no_such_char c s : contains_char c s = false -> c ∉ s.
Proof.
  unfold contains_char. intros H Hc. assert (existsb (beq c) s = true) as E; [|congruence].
  apply existsb_exists. exists c. rewrite <- list_elem_of_In. by rewrite beq_refl.
Qed.
Lemma PlainCertsLaws : CertLaws PlainCerts.
Proof.
  split. intros random names cert key. cbn [generate_pem PlainCerts]. destruct (is_empty random) eqn:E0; [done|]. destruct (is_empty names) eqn:E3; [done|].
  destruct (existsb _ names) eqn:E1; [done|]. destruct (contains_char (chr ";") random) eqn:E2; [done|]. cbn [orb]. intros [= <- <-].
  exists (random, names), random, names. cbn [pem_certs pem_private_key from_der alt_names PlainCerts]. split_and!; [|by rewrite E0|by cbn [fst snd]; rewrite seqb_refl|done].
  match goal with |- context [split_once ?c ?t] => assert (split_once c t = Some (random, join [chr ","] names)) as -> end.
  { apply split_once_Some. split; [done|by apply no_such_char]. }
  rewrite split_join; [done|by destruct names|]. apply Forall_forall. intros n Hn. apply no_such_char.
  destruct (contains_char (chr ",") n) eqn:En; [|done]. assert (existsb (contains_char (chr ",")) names = true) as E; [|congruence].
  apply existsb_exists. exists n. by rewrite <- list_elem_of_In.
Qed.
Lemma regenerated_pair_served_witness :
  exists d' ck, @regenerate_certificate PlainCerts no_env dir 0 (lit "k1") names (∅, []) = ((d', []), Ok (bundle dir (certificate_names names))) /\
    @pair_on PlainCerts d' (cert_path dir) (key_path dir) = Ok ck /\ lit "a.example.com" ∈ alt_names ck.
Proof.
  destruct (@regenerated_pair_served PlainCerts no_env dir PlainCertsLaws 0 (lit "k1") names ∅
    (lit "k1;*.pxxlhost,a.example.com,b.example.com,localhost,pxxlhost") (lit "k1")) as (d' & ck & H1 & H2 & H3 & _).
  - reflexivity.
  - reflexivity.
  - vm_compute. reflexivity.
  - exists d', ck. split_and!; [done|done|]. apply H3. left. unfold names, lits. cbn [map]. set_solver.
Defined.
End TlsDemo.
