(* ===== verification/TlsReload.v ===== *)
(** The certificate reloader of the edge binary ([run_tls_reloader]) with the names it
    asks for ([certificate_domains]), the fingerprint of the certificate files and
    the status it reports.  What the certificate store answers is read from outside,
    so the theorems hold whatever it does. *)
From stdpp Require Import options sorting.
From S2P Require Import Prelude RustStr RustNum RustNet CommonTypes RouteRegistry RedisTokens AdminAuth Config Tls.

Local Open Scope Z_scope.
Local Open Scope rust_scope.

(** ** The names of the certificate *)

Definition safe_certificate_domain (domain : rstr) : bool :=
  negb (is_empty domain) && (str_len domain <=? 253) && negb (existsb (fun byte => (bz byte <=? 32) || (bz byte =? 127)) domain).
Definition MAX_CERT_DOMAINS : nat := 100.

Section domains.
Context {NL : IpNetLib}.
Definition route_names (r : Route) : list rstr :=
  (if safe_certificate_domain (r_domain r) then [r_domain r] else [])
  ++ (if route_allows_www_alias (r_domain r) (dr_www_alias (r_rules r)) then
        let alias := lit "www." ++ r_domain r in if safe_certificate_domain alias then [alias] else []
      else []).
Definition all_names (local : list rstr) (routes : list Route) : list rstr := local ++ flat_map route_names routes.
Definition certificate_domains (local_subject_alt_names : list rstr) (es : EdgeState) : list rstr :=
  take MAX_CERT_DOMAINS (dedup (sort_strings (all_names local_subject_alt_names (snapshot (es_routes es))))).
End domains.

(** ** The fingerprint *)

Definition file_fingerprint (d : Disk) (path : rstr) : list rstr :=
  match d !! path with
  | Some (bytes, modified) => [path ++ lit ":" ++ to_dec (str_len bytes) ++ lit ":" ++ to_dec modified]
  | None => []
  end.
Definition below (dir path : rstr) : bool := starts_with (join_path dir []) path.
(** All files below the directory: the order in which they are met is lost in the sort. *)
Definition collect_cert_dir_fingerprints (d : Disk) (dir : rstr) : list rstr :=
  flat_map (file_fingerprint d) (filter (fun path => below dir path = true) (fst <$> map_to_list d)).
Definition cert_fingerprint (cert_dir : rstr) (d : Disk) : rstr :=
  join (lit "|") (sort_strings (file_fingerprint d (cert_path cert_dir) ++ file_fingerprint d (key_path cert_dir)
                                ++ collect_cert_dir_fingerprints d (domain_certs_dir cert_dir))).

(** ** The status *)

Record TlsCertificateRuntimeSnapshot := {
  ts_last_attempt_unix_ms : option Z; ts_last_success_unix_ms : option Z; ts_last_error_unix_ms : option Z;
  ts_last_error : option rstr; ts_last_error_stage : option rstr; ts_last_domains : list rstr; ts_exhausted_domains : list rstr;
}.
Definition TlsStatus_default : TlsCertificateRuntimeSnapshot := {|
  ts_last_attempt_unix_ms := None; ts_last_success_unix_ms := None; ts_last_error_unix_ms := None; ts_last_error := None;
  ts_last_error_stage := None; ts_last_domains := []; ts_exhausted_domains := [] |}.
Definition mark_success (now : Z) (domains : list rstr) (s : TlsCertificateRuntimeSnapshot) : TlsCertificateRuntimeSnapshot := {|
  ts_last_attempt_unix_ms := Some now; ts_last_success_unix_ms := Some now; ts_last_error_unix_ms := ts_last_error_unix_ms s; ts_last_error := None;
  ts_last_error_stage := None; ts_last_domains := domains; ts_exhausted_domains := [] |}.
Definition mark_error (now : Z) (stage error : rstr) (domains : list rstr) (s : TlsCertificateRuntimeSnapshot) : TlsCertificateRuntimeSnapshot := {|
  ts_last_attempt_unix_ms := Some now; ts_last_success_unix_ms := ts_last_success_unix_ms s; ts_last_error_unix_ms := Some now;
  ts_last_error := Some error; ts_last_error_stage := Some stage; ts_last_domains := domains; ts_exhausted_domains := ts_exhausted_domains s |}.
Definition mark_exhausted (domains : list rstr) (s : TlsCertificateRuntimeSnapshot) : TlsCertificateRuntimeSnapshot := {|
  ts_last_attempt_unix_ms := ts_last_attempt_unix_ms s; ts_last_success_unix_ms := ts_last_success_unix_ms s;
  ts_last_error_unix_ms := ts_last_error_unix_ms s; ts_last_error := ts_last_error s; ts_last_error_stage := ts_last_error_stage s;
  ts_last_domains := ts_last_domains s; ts_exhausted_domains := domains |}.

(** ** One turn *)

Definition TLS_RELOAD_MAX_ATTEMPTS : Z := 10.

Section reloader.
(** the configuration of the listeners *)
Context {Cfg : Type}.

(** The variables of the loop, the configuration that is served, and the status. *)
Record Reloader := {
  rl_current_domains : list rstr;
  rl_pending_domains : option (list rstr);
  rl_exhausted_domains : option (list rstr);
  rl_attempts : Z;
  rl_fingerprint : rstr;
  rl_config : Cfg;
  rl_status : TlsCertificateRuntimeSnapshot;
}.
(** What a turn finds: the fingerprint, the configuration of the files as they are,
    the names of the routes, what comes of a new certificate for some names and of
    its configuration, and the fingerprint after it. *)
Record Turn := {
  tk_fingerprint : rstr;
  tk_reload : result rstr Cfg;
  tk_domains : list rstr;
  tk_regenerate : list rstr -> result rstr (result rstr Cfg);
  tk_fingerprint_after : rstr;
  tk_now : Z;
}.
Definition reload_files (t : Turn) (r : Reloader) : Reloader :=
  if tk_fingerprint t =s? rl_fingerprint r then r
  else
    match tk_reload t with
    | Ok config => {|
        rl_current_domains := rl_current_domains r; rl_pending_domains := rl_pending_domains r; rl_exhausted_domains := rl_exhausted_domains r;
        rl_attempts := rl_attempts r; rl_fingerprint := tk_fingerprint t; rl_config := config;
        rl_status := mark_success (tk_now t) (rl_current_domains r) (rl_status r) |}
    | Err error => {|
        rl_current_domains := rl_current_domains r; rl_pending_domains := rl_pending_domains r; rl_exhausted_domains := rl_exhausted_domains r;
        rl_attempts := rl_attempts r; rl_fingerprint := rl_fingerprint r; rl_config := rl_config r;
        rl_status := mark_error (tk_now t) (lit "file_reload") error (rl_current_domains r) (rl_status r) |}
    end.
Definition notice_domains (t : Turn) (r : Reloader) : Reloader :=
  if bool_decide (tk_domains t <> rl_current_domains r) && bool_decide (rl_pending_domains r <> Some (tk_domains t))
     && bool_decide (rl_exhausted_domains r <> Some (tk_domains t)) then {|
    rl_current_domains := rl_current_domains r; rl_pending_domains := Some (tk_domains t); rl_exhausted_domains := rl_exhausted_domains r;
    rl_attempts := 0; rl_fingerprint := rl_fingerprint r; rl_config := rl_config r; rl_status := rl_status r |}
  else r.
Definition failed_attempt (t : Turn) (stage error : rstr) (domains : list rstr) (r : Reloader) : Reloader := {|
  rl_current_domains := rl_current_domains r; rl_pending_domains := rl_pending_domains r; rl_exhausted_domains := rl_exhausted_domains r;
  rl_attempts := rl_attempts r + 1; rl_fingerprint := rl_fingerprint r; rl_config := rl_config r;
  rl_status := mark_error (tk_now t) stage error domains (rl_status r) |}.
(** The second component says whether a certificate was asked for. *)
Definition try_pending (t : Turn) (r : Reloader) : Reloader * bool :=
  match rl_pending_domains r with
  | None => (r, false)
  | Some domains =>
    if TLS_RELOAD_MAX_ATTEMPTS <=? rl_attempts r then ({|
      rl_current_domains := rl_current_domains r; rl_pending_domains := None; rl_exhausted_domains := Some domains;
      rl_attempts := rl_attempts r; rl_fingerprint := rl_fingerprint r; rl_config := rl_config r;
      rl_status := mark_exhausted domains (rl_status r) |}, false)
    else
      (match tk_regenerate t domains with
       | Ok (Ok config) => {|
           rl_current_domains := domains; rl_pending_domains := None; rl_exhausted_domains := None; rl_attempts := 0;
           rl_fingerprint := tk_fingerprint_after t; rl_config := config; rl_status := mark_success (tk_now t) domains (rl_status r) |}
       | Ok (Err error) => failed_attempt t (lit "server_config") error domains r
       | Err error => failed_attempt t (lit "regenerate") error domains r
       end, true)
  end.
Definition tls_turn (r : Reloader) (t : Turn) : Reloader * bool := try_pending t (notice_domains t (reload_files t r)).
(** The certificates asked for in a run of turns, and the state at its end. *)
Fixpoint tls_turns (r : Reloader) (l : list Turn) : Reloader * Z :=
  match l with
  | [] => (r, 0)
  | t :: l => let '(r, asked) := tls_turn r t in let '(r, n) := tls_turns r l in (r, n + if asked then 1 else 0)
  end.
End reloader.

(** ** The names *)

Lemma sorted_take n (l : list rstr) : StronglySorted str_le l -> StronglySorted str_le (take n l).
Proof.
  intros H. revert n. induction H as [|x l _ IH Hx]; intros [|n]; cbn; try constructor; [apply IH|]. by apply Forall_take.
Qed.

Section names.
Context {NL : IpNetLib}.
(** The names of the certificate are sorted, without repetition and at most a
    hundred; each is a local name or the name of a route (or its www alias), and
    when there are no more than a hundred different ones none is missing. *)
Theorem certificate_domains_exact local es :
  let names := all_names local (snapshot (es_routes es)) in
  let asked := certificate_domains local es in
  StronglySorted str_le asked /\ NoDup asked /\ (length asked <= 100)%nat /\ (forall x, x ∈ asked -> x ∈ names) /\
  ((length (remove_dups names) <= 100)%nat -> forall x, x ∈ names -> x ∈ asked).
Proof.
  intros names asked. subst asked. unfold certificate_domains. fold names.
  destruct (dedup_sorted (sort_strings names)) as [Hs Hn]; [apply (StronglySorted_merge_sort _)|].
  assert (forall x, x ∈ dedup (sort_strings names) <-> x ∈ names) as Hel.
  { intros x. rewrite dedup_elem. unfold sort_strings. by rewrite merge_sort_Permutation. }
  split_and!.
  - by apply sorted_take.
  - eapply sublist_NoDup; [exact Hn|apply sublist_take].
  - rewrite length_take. unfold MAX_CERT_DOMAINS. lia.
  - intros x (i & Hi%list_elem_of_lookup_2 & _)%elem_of_take. by apply Hel.
  - intros Hlen x Hx. rewrite take_ge; [by apply Hel|]. etransitivity; [|exact Hlen]. apply submseteq_length, NoDup_submseteq; [done|].
    intros y Hy%Hel. by apply elem_of_remove_dups.
Qed.
End names.

Section turns.
Context {Cfg : Type}.
Implicit Types (r : @Reloader Cfg) (t : @Turn Cfg) (d : list rstr).

Lemma reload_files_frame t r :
  rl_current_domains (reload_files t r) = rl_current_domains r /\ rl_pending_domains (reload_files t r) = rl_pending_domains r /\
  rl_exhausted_domains (reload_files t r) = rl_exhausted_domains r /\ rl_attempts (reload_files t r) = rl_attempts r.
Proof. unfold reload_files. destruct (_ =s? _); [done|]. by destruct (tk_reload t). Qed.

(** The variables that decide, and a turn on them. *)
Definition loop_state : Type := list rstr * option (list rstr) * option (list rstr) * Z.
Definition loop_of r : loop_state := (rl_current_domains r, rl_pending_domains r, rl_exhausted_domains r, rl_attempts r).
Definition notice_loop d (s : loop_state) : loop_state :=
  let '(current, pending, exhausted, attempts) := s in
  if decide (d <> current /\ pending <> Some d /\ exhausted <> Some d) then (current, Some d, exhausted, 0) else s.
Definition try_loop (succeeds : list rstr -> bool) (s : loop_state) : loop_state * bool :=
  let '(current, pending, exhausted, attempts) := s in
  match pending with
  | None => (s, false)
  | Some p =>
    if TLS_RELOAD_MAX_ATTEMPTS <=? attempts then ((current, None, Some p, attempts), false)
    else if succeeds p then ((p, None, None, 0), true)
    else ((current, Some p, exhausted, attempts + 1), true)
  end.
Definition succeeds t d : bool := match tk_regenerate t d with Ok (Ok _) => true | _ => false end.
Lemma turn_loop r t :
  loop_of (fst (tls_turn r t)) = fst (try_loop (succeeds t) (notice_loop (tk_domains t) (loop_of r))) /\
  snd (tls_turn r t) = snd (try_loop (succeeds t) (notice_loop (tk_domains t) (loop_of r))).
Proof.
  unfold tls_turn. destruct (reload_files_frame t r) as (H1 & H2 & H3 & H4). remember (reload_files t r) as r1 eqn:E. clear E.
  unfold loop_of at 2 3. rewrite <- H1, <- H2, <- H3, <- H4. clear H1 H2 H3 H4 r.
  assert (loop_of (notice_domains t r1) = notice_loop (tk_domains t) (loop_of r1)) as Hn.
  { unfold notice_domains, notice_loop, loop_of. destruct (decide _) as [(H1 & H2 & H3)|Hd].
    - by rewrite !bool_decide_eq_true_2 by done.
    - destruct (bool_decide (tk_domains t <> _)) eqn:E1, (bool_decide (rl_pending_domains r1 <> _)) eqn:E2, (bool_decide (rl_exhausted_domains r1 <> _)) eqn:E3; try done.
      apply bool_decide_eq_true in E1, E2, E3. by destruct Hd. }
  change (rl_current_domains r1, rl_pending_domains r1, rl_exhausted_domains r1, rl_attempts r1) with (loop_of r1). rewrite <- Hn.
  generalize (notice_domains t r1). clear. intros r. unfold try_pending, try_loop, loop_of, succeeds.
  destruct r as [cur [p|] ex at_ fp cfg st]; cbn; [|done].
  destruct (_ <=? _); [done|]. by destruct (tk_regenerate t p) as [[c|e]|e].
Qed.

(** How many certificates can still be asked for while the names stay [d] and no
    attempt succeeds: the rest of the attempts for the names at hand, and ten more
    if those are not [d]. *)
Definition budget d (s : loop_state) : Z :=
  let '(current, pending, exhausted, attempts) := notice_loop d s in
  match pending with
  | None => 0
  | Some p => Z.max 0 (TLS_RELOAD_MAX_ATTEMPTS - attempts) + if decide (p <> d /\ d <> current) then TLS_RELOAD_MAX_ATTEMPTS else 0
  end.
Lemma budget_spent b d s : (forall p, b p = false) ->
  budget d (fst (try_loop b (notice_loop d s))) + (if snd (try_loop b (notice_loop d s)) then 1 else 0) <= budget d s.
Proof.
  intros Hb. destruct s as [[[current pending] exhausted] attempts]. unfold budget at 2. 
  unfold notice_loop. destruct (decide (d <> current /\ pending <> Some d /\ exhausted <> Some d)) as [(H1 & H2 & H3)|Hd].
  - unfold try_loop, TLS_RELOAD_MAX_ATTEMPTS. rewrite Hb. cbn [fst snd Z.leb Z.compare]. unfold budget, notice_loop, TLS_RELOAD_MAX_ATTEMPTS.
    rewrite !decide_False by tauto. lia.
  - unfold try_loop. destruct pending as [p|].
    + rewrite Hb. unfold TLS_RELOAD_MAX_ATTEMPTS. destruct (Z.leb_spec 10 attempts); cbn [fst snd]; unfold budget, notice_loop, TLS_RELOAD_MAX_ATTEMPTS.
      * destruct (decide (d <> current /\ None <> Some d /\ Some p <> Some d)) as [(H1 & _ & H3)|Hn].
        -- repeat case_decide; try lia; exfalso; naive_solver.
        -- repeat case_decide; lia.
      * rewrite (decide_False (P := d <> current /\ Some p <> Some d /\ exhausted <> Some d)) by tauto. case_decide; lia.
    + cbn [fst snd]. unfold budget, notice_loop. rewrite decide_False by tauto. lia.
Qed.
Lemma budget_bound d s : snd s >= 0 -> 0 <= budget d s <= 20.
Proof.
  destruct s as [[[current pending] exhausted] attempts]. cbn [snd]. intros H. unfold budget, notice_loop, TLS_RELOAD_MAX_ATTEMPTS.
  case_decide; [rewrite decide_False by tauto; lia|]. destruct pending; [|lia]. case_decide; lia.
Qed.
Lemma try_nonneg b s : snd s >= 0 -> snd (fst (try_loop b s)) >= 0.
Proof.
  destruct s as [[[current pending] exhausted] attempts]. cbn [snd]. intros H. unfold try_loop. destruct pending; [|done].
  destruct (_ <=? _); [done|]. destruct (b _); cbn; lia.
Qed.
Lemma notice_nonneg d s : snd s >= 0 -> snd (notice_loop d s) >= 0.
Proof. destruct s as [[[current pending] exhausted] attempts]. cbn [snd]. intros H. unfold notice_loop. case_decide; cbn; lia. Qed.

(** The reloader does not try for ever: while the names stay the same and no
    attempt succeeds, it asks for at most twenty certificates, however long it
    runs. *)
Theorem reload_attempts_bounded d r l :
  0 <= rl_attempts r -> Forall (fun t => tk_domains t = d /\ forall p, succeeds t p = false) l -> 0 <= snd (tls_turns r l) <= 20.
Proof.
  intros H0 Hl. assert (0 <= snd (tls_turns r l) <= budget d (loop_of r)) as Hb.
  2:{ pose proof (budget_bound d (loop_of r)) as Hbb. unfold loop_of in Hbb. cbn [snd] in Hbb. fold (loop_of r) in Hbb. lia. }
  assert (snd (loop_of r) >= 0) as Hs by (cbn; lia). clear H0. revert r Hs. induction Hl as [|t l [Hd Hf] _ IH]; intros r Hs.
  { cbn. pose proof (budget_bound d (loop_of r) Hs). lia. }
  cbn [tls_turns]. destruct (turn_loop r t) as [Hlo Has]. destruct (tls_turn r t) as [r1 asked]. cbn [fst snd] in Hlo, Has.
  rewrite Hd in Hlo, Has. specialize (IH r1). rewrite Hlo in IH. specialize (IH ltac:(apply try_nonneg, notice_nonneg, Hs)).
  destruct (tls_turns r1 l) as [r2 n]. cbn [snd] in *. pose proof (budget_spent _ d (loop_of r) Hf) as Hsp. rewrite <- Has in Hsp. destruct asked; lia.
Qed.

(** Settled on [d]: nothing to do while the names stay. *)
Definition settled d (s : loop_state) : Prop := fst (fst (fst s)) = d /\ snd (fst (fst s)) = None.
Lemma settled_turn b d s : settled d s -> try_loop b (notice_loop d s) = (s, false).
Proof. destruct s as [[[current pending] exhausted] attempts]. intros [H1 H2]. cbn in H1, H2. subst. unfold notice_loop. by rewrite decide_False by tauto. Qed.
Lemma settled_turns d r l : settled d (loop_of r) -> Forall (fun t => tk_domains t = d) l ->
  settled d (loop_of (fst (tls_turns r l))) /\ snd (tls_turns r l) = 0.
Proof.
  intros Hs Hl. revert r Hs. induction Hl as [|t l Hd _ IH]; intros r Hs; [done|]. cbn [tls_turns].
  destruct (turn_loop r t) as [Hlo Has]. destruct (tls_turn r t) as [r1 asked]. cbn [fst snd] in Hlo, Has.
  rewrite Hd, settled_turn in Hlo, Has by done. cbn [fst snd] in Hlo, Has. rewrite Has. destruct (IH r1) as [IH1 IH2]; [by rewrite Hlo|].
  destruct (tls_turns r1 l) as [r2 n]. cbn [fst snd] in *. by rewrite IH2.
Qed.
(** The names [d] were given up. *)
Definition gave_up d (s : loop_state) : Prop := fst (fst (fst s)) <> d /\ snd (fst (fst s)) = None /\ snd (fst s) = Some d.
Lemma two_turns b d s : (forall p, b p = true) -> snd s < 10 -> ~ gave_up d s ->
  settled d (fst (try_loop b (notice_loop d s))) \/ exists p, fst (try_loop b (notice_loop d s)) = (p, None, None, 0).
Proof.
  intros Hb. destruct s as [[[current pending] exhausted] attempts]. unfold gave_up, settled. cbn [fst snd]. intros Ha Hg. unfold notice_loop.
  destruct (decide (d <> current /\ pending <> Some d /\ exhausted <> Some d)) as [Hd|Hd]; unfold try_loop, TLS_RELOAD_MAX_ATTEMPTS.
  - rewrite Hb. cbn. by left.
  - destruct pending as [p|]; [destruct (Z.leb_spec 10 attempts); [lia|]; rewrite Hb; cbn; right; by exists p|]. cbn. left. split; [|done].
    destruct (decide (current = d)); [done|]. destruct (decide (exhausted = Some d)); [naive_solver|]. destruct Hd. naive_solver.
Qed.
Lemma settles b1 b2 d s : (forall p, b1 p = true) -> (forall p, b2 p = true) -> snd s < 10 -> ~ gave_up d s ->
  settled d (fst (try_loop b2 (notice_loop d (fst (try_loop b1 (notice_loop d s)))))).
Proof.
  intros Hb1 Hb2 Ha Hg. destruct (two_turns b1 d s Hb1 Ha Hg) as [Hs|[p ->]]; [by rewrite settled_turn|].
  unfold notice_loop. destruct (decide (d <> p /\ None <> Some d /\ None <> Some d)) as [Hd|Hd].
  - unfold try_loop. rewrite Hb2. split; reflexivity.
  - cbn. split; [|done]. cbn. destruct (decide (p = d)); [done|]. destruct Hd. naive_solver.
Qed.
Lemma turns_app r l1 l2 : tls_turns r (l1 ++ l2) =
  (fst (tls_turns (fst (tls_turns r l1)) l2), snd (tls_turns r l1) + snd (tls_turns (fst (tls_turns r l1)) l2)).
Proof.
  revert r. induction l1 as [|t l1 IH]; intros r; cbn [app tls_turns fst snd]; [by destruct (tls_turns r l2)|].
  destruct (tls_turn r t) as [r1 asked]. rewrite IH. destruct (tls_turns r1 l1) as [r2 n]. cbn [fst snd].
  destruct (tls_turns r2 l2) as [r3 m]. cbn [fst snd]. f_equal. lia.
Qed.

(** What the served configuration is for. *)
Section served.
Context (built_for : Cfg -> list rstr -> Prop).

(** The store makes what it is asked for. *)
Definition faithful t : Prop := forall names config, tk_regenerate t names = Ok (Ok config) -> built_for config names.
(** The configuration is for the current names, or it was read from files that had
    changed under the reloader in one of the turns. *)
Definition serves (l : list (@Turn Cfg)) r : Prop :=
  built_for (rl_config r) (rl_current_domains r) \/ exists t, t ∈ l /\ tk_reload t = Ok (rl_config r).
Lemma serves_turn l t r : faithful t -> t ∈ l -> serves l r -> serves l (fst (tls_turn r t)).
Proof.
  intros Hf Ht Hr. unfold tls_turn.
  assert (serves l (reload_files t r)) as H1.
  { unfold reload_files. destruct (_ =s? _); [done|]. destruct (tk_reload t) as [c|] eqn:E; [|done]. right. by exists t. }
  assert (serves l (notice_domains t (reload_files t r))) as H2 by (unfold notice_domains; by destruct (_ && _ && _)).
  revert H2. generalize (notice_domains t (reload_files t r)). intros r2 H2. unfold try_pending.
  destruct (rl_pending_domains r2) as [p|]; [|done]. destruct (_ <=? _); [done|]. cbn [fst].
  destruct (tk_regenerate t p) as [[c|e]|e] eqn:E; [|done..]. left. by apply Hf.
Qed.
Lemma serves_turns l0 l r : Forall faithful l -> l ⊆ l0 -> serves l0 r -> serves l0 (fst (tls_turns r l)).
Proof.
  intros Hl. revert r. induction Hl as [|t l Hf _ IH]; intros r Hsub Hr; [done|]. cbn [tls_turns].
  pose proof (serves_turn l0 t r Hf ltac:(apply Hsub; left) Hr) as H1. destruct (tls_turn r t) as [r1 asked]. cbn [fst] in H1.
  specialize (IH r1 ltac:(intros x Hx; apply Hsub; by right) H1). by destruct (tls_turns r1 l).
Qed.

(** C18: The certificate that is served follows the names the reloader computes from
    the routes.  Take a state whose configuration is for its current names, in which
    the attempts for the names at hand are not used up and the new names have not been
    given up, and a store that makes what it is asked for: two turns in which it works
    are enough for the current names to be the new ones, and for the configuration that
    the listeners use to be one made for them (or else the one last read from
    certificate files that another hand had changed); and as long as the names stay no
    other certificate is asked for.  The names are those of [certificate_domains], at
    most a hundred.  That the first configuration is for the names it starts with is an
    assumption, which a restart with an older certificate on disk does not meet. *)
Theorem reload_converges d r t1 t2 l :
  rl_attempts r < TLS_RELOAD_MAX_ATTEMPTS -> ~ gave_up d (loop_of r) -> built_for (rl_config r) (rl_current_domains r) ->
  Forall faithful (t1 :: t2 :: l) -> Forall (fun t => tk_domains t = d) (t1 :: t2 :: l) ->
  (forall names, succeeds t1 names = true /\ succeeds t2 names = true) ->
  let r' := fst (tls_turns r (t1 :: t2 :: l)) in
  rl_current_domains r' = d /\ rl_pending_domains r' = None /\ snd (tls_turns r (t1 :: t2 :: l)) <= 2 /\
  (built_for (rl_config r') d \/ exists t, t ∈ t1 :: t2 :: l /\ tk_reload t = Ok (rl_config r')).
Proof.
  intros Ha Hg Hb Hf Hd Hs r'. pose proof (serves_turns (t1 :: t2 :: l) _ r Hf (reflexivity _) (or_introl Hb)) as Hserve.
  fold r' in Hserve. apply Forall_cons in Hd as [H1 [H2 Hl]%Forall_cons].
  assert (rl_current_domains r' = d /\ rl_pending_domains r' = None /\ snd (tls_turns r (t1 :: t2 :: l)) <= 2) as (Hc & Hp & Hn).
  { subst r'. change (t1 :: t2 :: l) with ([t1; t2] ++ l). rewrite turns_app. cbn [fst snd].
    assert (settled d (loop_of (fst (tls_turns r [t1; t2]))) /\ snd (tls_turns r [t1; t2]) <= 2) as [Hset Hn].
    { cbn [tls_turns]. destruct (turn_loop r t1) as [Hlo _]. destruct (tls_turn r t1) as [r1 a1]. cbn [fst] in Hlo.
      destruct (turn_loop r1 t2) as [Hlo2 _]. destruct (tls_turn r1 t2) as [r2 a2]. cbn [fst snd] in *. rewrite Hlo2, H2, Hlo, H1.
      split; [apply settles; [apply Hs|apply Hs|done|done]|destruct a1, a2; lia]. }
    destruct (settled_turns d _ l Hset Hl) as [[Hc Hp] Hz]. cbn in Hc, Hp. rewrite Hz. split_and!; [done|done|lia]. }
  split_and!; [done..|]. by rewrite <- Hc.
Qed.
End served.

(** Names that were given up are not tried again, however many turns follow and
    even if the store would succeed: the certificate keeps its old names until the
    names of the routes change. *)
Theorem given_up_for_good d r l :
  gave_up d (loop_of r) -> Forall (fun t => tk_domains t = d) l ->
  rl_current_domains (fst (tls_turns r l)) = rl_current_domains r /\ snd (tls_turns r l) = 0.
Proof.
  intros Hg Hl. revert r Hg. induction Hl as [|t l Hd _ IH]; intros r Hg; [done|]. cbn [tls_turns].
  destruct (turn_loop r t) as [Hlo Has]. destruct (tls_turn r t) as [r1 asked]. cbn [fst snd] in Hlo, Has. rewrite Hd in Hlo, Has.
  assert (forall b, try_loop b (notice_loop d (loop_of r)) = (loop_of r, false)) as Hst.
  { intros b. destruct Hg as (? & Hp & He). unfold loop_of in *. cbn in Hp, He. unfold notice_loop. rewrite decide_False by tauto. unfold try_loop. by rewrite Hp. }
  rewrite Hst in Hlo, Has. cbn [fst snd] in Hlo, Has. subst asked. destruct (IH r1) as [IH1 IH2]; [by rewrite Hlo|].
  destruct (tls_turns r1 l) as [r2 n]. cbn [fst snd] in *. rewrite IH2. split; [|done]. rewrite IH1. unfold loop_of in Hlo. congruence.
Qed.
End turns.

(** ** Witnesses and examples *)

Module ReloadDemo.
Definition names (l : list string) : list rstr := lits l.
Definition turn (domains : list string) (outcome : result rstr (result rstr Z)) : @Turn Z := {|
  tk_fingerprint := lit "f"; tk_reload := Ok 0; tk_domains := names domains; tk_regenerate := fun _ => outcome; tk_fingerprint_after := lit "f"; tk_now := 1 |}.
Definition start : @Reloader Z := {|
  rl_current_domains := names ["a.io"]; rl_pending_domains := None; rl_exhausted_domains := None; rl_attempts := 0; rl_fingerprint := lit "f";
  rl_config := 0; rl_status := TlsStatus_default |}.
Definition failing (n : nat) : list (@Turn Z) := repeat (turn ["a.io"; "b.io"] (Err (lit "disk full"))) n.
Lemma reload_attempts_bounded_witness : 0 <= snd (tls_turns start (failing 50)) <= 20 /\ snd (tls_turns start (failing 50)) = 10.
Proof.
  split; [|vm_compute; reflexivity]. apply (reload_attempts_bounded (names ["a.io"; "b.io"])); [vm_compute; discriminate|].
  apply Forall_forall. intros t Ht. apply list_elem_of_In in Ht. apply (repeat_spec 50) in Ht as ->. split; [reflexivity|intros p; reflexivity].
Defined.
(** A configuration is the number of names it is for. *)
Definition sized (names : list rstr) : Z := Z.of_nat (length names).
Definition making (domains : list string) : @Turn Z := {|
  tk_fingerprint := lit "f"; tk_reload := Ok 0; tk_domains := names domains; tk_regenerate := fun names => Ok (Ok (sized names));
  tk_fingerprint_after := lit "f"; tk_now := 1 |}.
Definition serving : @Reloader Z := {|
  rl_current_domains := names ["a.io"]; rl_pending_domains := Some (names []); rl_exhausted_domains := None; rl_attempts := 3;
  rl_fingerprint := lit "f"; rl_config := 1; rl_status := TlsStatus_default |}.
Lemma reload_converges_witness :
  rl_current_domains (fst (tls_turns serving [making ["a.io"; "b.io"]; making ["a.io"; "b.io"]])) = names ["a.io"; "b.io"] /\
  rl_config (fst (tls_turns serving [making ["a.io"; "b.io"]; making ["a.io"; "b.io"]])) = 2.
Proof.
  destruct (reload_converges (fun config names => config = sized names) (names ["a.io"; "b.io"]) serving (making ["a.io"; "b.io"])
    (making ["a.io"; "b.io"]) []) as (Hc & _ & _ & Hb).
  - reflexivity.
  - intros (_ & _ & H). discriminate H.
  - reflexivity.
  - repeat constructor; intros ds config [= <-]; reflexivity.
  - repeat constructor.
  - intros ds. split; reflexivity.
  - split; [exact Hc|]. destruct Hb as [Hb|(t & Ht & Hb)]; [exact Hb|]. vm_compute in Hb |- *. 
    rewrite !elem_of_cons, elem_of_nil in Ht. destruct Ht as [->|[->|[]]]; discriminate Hb.
Defined.
Definition exhausted : @Reloader Z := fst (tls_turns start (failing 11)).
Lemma given_up_for_good_witness :
  rl_current_domains (fst (tls_turns exhausted (repeat (turn ["a.io"; "b.io"] (Ok (Ok 7))) 5))) = rl_current_domains exhausted /\
  rl_current_domains exhausted = names ["a.io"].
Proof.
  split; [|vm_compute; reflexivity].
  apply (given_up_for_good (names ["a.io"; "b.io"]) exhausted (repeat (turn ["a.io"; "b.io"] (Ok (Ok 7))) 5)).
  - vm_compute. split_and!; [discriminate|reflexivity|reflexivity].
  - repeat constructor.
Defined.
(** A route that comes and goes while attempts fail: names that were given up are
    tried ten more times after the ones in between. *)
Example twenty_attempts :
  let gone := fst (tls_turns exhausted [turn ["c.io"] (Err (lit "disk full"))]) in
  snd (tls_turns gone (failing 50)) = 19.
Proof. vm_compute. reflexivity. Qed.
(** The fingerprint tells a changed file of a domain. *)
Example fingerprint_sees_domains :
  let d := fst TlsDemo.first in
  cert_fingerprint TlsDemo.dir d <> cert_fingerprint TlsDemo.dir (TlsDemo.site d).
Proof. vm_compute. discriminate. Qed.
(** With a hundred names before it, the name of a route is left out. *)
Example hundred_names :
  let local := map (fun i => lit "a" ++ to_dec (Z.of_nat i)) (seq 100 100) in
  let es := @EdgeState_new CidrLib (RouteTable_new [CommonValidate.Route_new (lit "id") 0 (lit "shop.io") [] Static]) in
  existsb (seq_eqb (lit "shop.io")) (certificate_domains local es) = false /\
  existsb (seq_eqb (lit "shop.io")) (certificate_domains (tail local) es) = true.
Proof. split; vm_compute; reflexivity. Qed.
End ReloadDemo.
