(* ===== verification/ClickHouseSql.v ===== *)
(** * ClickHouse statements ([storage/src/lib.rs])

    The texts of every statement and query the storage crate sends, with the values
    they carry, and what the server reads in them: a value that comes from a request
    is always one string literal of the statement, with that value, and changes
    nothing around it. *)
From S2P Require Import Prelude RustStr.
From stdpp Require Import options.

Local Open Scope Z_scope.

(** ** Values in statements *)

Definition QUOTE : ascii := chr "'".
Definition BACKSLASH : ascii := chr "\".
Definition clickhouse_string_literal (value : rstr) : rstr :=
  let escaped := replace_char QUOTE (lit "\'") (replace_char BACKSLASH (lit "\\") value) in
  [QUOTE] ++ escaped ++ [QUOTE].
Definition cleaned_domains (domains : list rstr) : list rstr :=
  dedup (sort_strings (filter (fun domain => is_empty domain = false)
    (map (fun domain => to_ascii_lowercase (trim_end_matches (chr ".") (trim domain))) domains))).
Definition literals (values : list rstr) : rstr := join (lit ",") (map clickhouse_string_literal values).
Definition clickhouse_domain_filter (domains : list rstr) : option rstr :=
  let cleaned := cleaned_domains domains in
  if is_empty cleaned then None else Some (lit "domain IN (" ++ literals cleaned ++ lit ")").

Definition CLICKHOUSE_ROLLUP_TOP_COUNTRIES_PER_DOMAIN : Z := 10.
Definition CLICKHOUSE_ROLLUP_TOP_CONTINENTS_PER_DOMAIN : Z := 8.
Definition CLICKHOUSE_ROLLUP_TOP_REGIONS_PER_DOMAIN : Z := 10.
Definition CLICKHOUSE_ROLLUP_TOP_CITIES_PER_DOMAIN : Z := 10.

(** ** The schema *)

Definition create_access_logs : rstr := lit "
CREATE TABLE IF NOT EXISTS pxxl_access_logs (
  request_id String,
  timestamp_unix_ms UInt64,
  domain String,
  method String,
  path String,
  status UInt16,
  latency_ms UInt64,
  upstream Nullable(String),
  remote_ip Nullable(String),
  country_code Nullable(String),
  country_name Nullable(String),
  continent_code Nullable(String),
  continent_name Nullable(String),
  region Nullable(String),
  city Nullable(String),
  geo_source String,
  bytes_sent UInt64,
  bytes_received UInt64
) ENGINE = MergeTree
PARTITION BY toYYYYMM(toDateTime(timestamp_unix_ms / 1000))
ORDER BY (domain, timestamp_unix_ms, request_id)
TTL toDateTime(timestamp_unix_ms / 1000) + INTERVAL 24 HOUR
".

Definition create_rollup_day : rstr := lit "
CREATE TABLE IF NOT EXISTS pxxl_access_rollup_day (
  day Date,
  domain String,
  country_code String,
  country_name String,
  continent_code String,
  continent_name String,
  region String,
  city String,
  status_class UInt16,
  requests SimpleAggregateFunction(sum, UInt64),
  blocked SimpleAggregateFunction(sum, UInt64),
  errors SimpleAggregateFunction(sum, UInt64),
  bytes_sent SimpleAggregateFunction(sum, UInt64),
  bytes_received SimpleAggregateFunction(sum, UInt64),
  latency_ms_sum SimpleAggregateFunction(sum, UInt64),
  unique_ips AggregateFunction(uniqCombined64, String)
) ENGINE = AggregatingMergeTree
PARTITION BY toYYYYMM(day)
ORDER BY (domain, day, country_code, continent_code, region, city, status_class)
".

Definition create_backfill_state : rstr := lit "
CREATE TABLE IF NOT EXISTS pxxl_access_rollup_backfill_state (
  day Date,
  completed_at DateTime
) ENGINE = ReplacingMergeTree(completed_at)
ORDER BY day
".

Definition create_rollup_hour : rstr := lit "
CREATE TABLE IF NOT EXISTS pxxl_access_rollup_hour (
  bucket DateTime,
  domain String,
  country_code String,
  country_name String,
  continent_code String,
  continent_name String,
  region String,
  city String,
  status_class UInt16,
  requests SimpleAggregateFunction(sum, UInt64),
  blocked SimpleAggregateFunction(sum, UInt64),
  errors SimpleAggregateFunction(sum, UInt64),
  bytes_sent SimpleAggregateFunction(sum, UInt64),
  bytes_received SimpleAggregateFunction(sum, UInt64),
  latency_ms_sum SimpleAggregateFunction(sum, UInt64),
  unique_ips AggregateFunction(uniqCombined64, String)
) ENGINE = AggregatingMergeTree
PARTITION BY toYYYYMM(bucket)
ORDER BY (domain, bucket, country_code, continent_code, region, city, status_class)
".

Definition create_rollup_hour_mv : rstr := lit "
CREATE MATERIALIZED VIEW IF NOT EXISTS pxxl_access_rollup_hour_mv
TO pxxl_access_rollup_hour AS
SELECT
  toStartOfHour(toDateTime(timestamp_unix_ms / 1000)) AS bucket,
  domain,
  ifNull(country_code, '') AS country_code,
  ifNull(country_name, '') AS country_name,
  ifNull(continent_code, '') AS continent_code,
  ifNull(continent_name, '') AS continent_name,
  ifNull(region, '') AS region,
  ifNull(city, '') AS city,
  toUInt16(intDiv(status, 100) * 100) AS status_class,
  count() AS requests,
  countIf(status >= 400) AS blocked,
  countIf(status >= 500) AS errors,
  sum(bytes_sent) AS bytes_sent,
  sum(bytes_received) AS bytes_received,
  sum(latency_ms) AS latency_ms_sum,
  uniqCombined64State(ifNull(remote_ip, '')) AS unique_ips
FROM pxxl_access_logs
GROUP BY
  bucket,
  domain,
  country_code,
  country_name,
  continent_code,
  continent_name,
  region,
  city,
  status_class
".

Definition create_rollup_day_mv : rstr := lit "
CREATE MATERIALIZED VIEW IF NOT EXISTS pxxl_access_rollup_day_mv
TO pxxl_access_rollup_day AS
SELECT
  toDate(toDateTime(timestamp_unix_ms / 1000)) AS day,
  domain,
  ifNull(country_code, '') AS country_code,
  ifNull(country_name, '') AS country_name,
  ifNull(continent_code, '') AS continent_code,
  ifNull(continent_name, '') AS continent_name,
  ifNull(region, '') AS region,
  ifNull(city, '') AS city,
  toUInt16(intDiv(status, 100) * 100) AS status_class,
  count() AS requests,
  countIf(status >= 400) AS blocked,
  countIf(status >= 500) AS errors,
  sum(bytes_sent) AS bytes_sent,
  sum(bytes_received) AS bytes_received,
  sum(latency_ms) AS latency_ms_sum,
  uniqCombined64State(ifNull(remote_ip, '')) AS unique_ips
FROM pxxl_access_logs
GROUP BY
  day,
  domain,
  country_code,
  country_name,
  continent_code,
  continent_name,
  region,
  city,
  status_class
".

(** The statements of [ensure_access_rollup_schema], in the order they are sent. *)
Definition ROLLUP_SCHEMA : list rstr :=
  [create_rollup_day; create_backfill_state] ++ lits [
  "ALTER TABLE pxxl_access_rollup_day ADD INDEX IF NOT EXISTS idx_rollup_day day TYPE minmax GRANULARITY 1";
  "ALTER TABLE pxxl_access_rollup_day ADD INDEX IF NOT EXISTS idx_rollup_domain domain TYPE set(100000) GRANULARITY 4"]
  ++ [create_rollup_hour] ++ lits [
  "ALTER TABLE pxxl_access_rollup_hour ADD INDEX IF NOT EXISTS idx_rollup_hour_bucket bucket TYPE minmax GRANULARITY 1";
  "ALTER TABLE pxxl_access_rollup_hour ADD INDEX IF NOT EXISTS idx_rollup_hour_domain domain TYPE set(100000) GRANULARITY 4"]
  ++ [create_rollup_hour_mv; create_rollup_day_mv].

(** and those of [ensure_schema] around them. *)
Definition SCHEMA : list rstr :=
  [create_access_logs] ++ ROLLUP_SCHEMA ++ lits [
  "ALTER TABLE pxxl_access_logs MODIFY TTL toDateTime(timestamp_unix_ms / 1000) + INTERVAL 24 HOUR";
  "ALTER TABLE pxxl_access_logs ADD COLUMN IF NOT EXISTS request_id String";
  "ALTER TABLE pxxl_access_logs ADD COLUMN IF NOT EXISTS bytes_sent UInt64 DEFAULT 0";
  "ALTER TABLE pxxl_access_logs ADD COLUMN IF NOT EXISTS bytes_received UInt64 DEFAULT 0";
  "ALTER TABLE pxxl_access_logs ADD INDEX IF NOT EXISTS idx_status status TYPE set(256) GRANULARITY 4";
  "ALTER TABLE pxxl_access_logs ADD INDEX IF NOT EXISTS idx_path path TYPE tokenbf_v1(32768, 3, 0) GRANULARITY 4";
  "ALTER TABLE pxxl_access_logs ADD INDEX IF NOT EXISTS idx_remote_ip remote_ip TYPE bloom_filter(0.01) GRANULARITY 4";
  "ALTER TABLE pxxl_access_logs ADD INDEX IF NOT EXISTS idx_country_code country_code TYPE set(512) GRANULARITY 4";
  "ALTER TABLE pxxl_access_logs ADD INDEX IF NOT EXISTS idx_request_id request_id TYPE bloom_filter(0.001) GRANULARITY 4";
  "ALTER TABLE pxxl_access_logs ADD INDEX IF NOT EXISTS idx_upstream upstream TYPE bloom_filter(0.01) GRANULARITY 4";
  "ALTER TABLE pxxl_access_logs ADD INDEX IF NOT EXISTS idx_city city TYPE set(4096) GRANULARITY 4"].

(** ** Queries *)

Definition domain_stats_query (domain_sql : rstr) : rstr := lit "
SELECT
    domain,
    count() AS requests_total,
    countIf(status >= 200 AND status < 300) AS responses_2xx,
    countIf(status >= 300 AND status < 400) AS responses_3xx,
    countIf(status >= 400 AND status < 500) AS responses_4xx,
    countIf(status >= 500) AS responses_5xx,
    if(count() = 0, 0, avg(latency_ms)) AS average_latency_ms,
    sum(bytes_sent) AS total_bytes_sent,
    sum(bytes_received) AS total_bytes_received,
    sum(bytes_sent + bytes_received) AS total_bandwidth,
    argMax(status, timestamp_unix_ms) AS last_status,
    max(timestamp_unix_ms) AS last_seen_unix_ms
FROM pxxl_access_logs
WHERE domain = " ++ domain_sql ++ lit "
GROUP BY domain
".

Definition stats_raw_query (raw_where : rstr) (limit : Z) : rstr := lit "
SELECT
    domain,
    count() AS requests_total,
    countIf(status >= 200 AND status < 300) AS responses_2xx,
    countIf(status >= 300 AND status < 400) AS responses_3xx,
    countIf(status >= 400 AND status < 500) AS responses_4xx,
    countIf(status >= 500) AS responses_5xx,
    if(count() = 0, 0, avg(latency_ms)) AS average_latency_ms,
    sum(bytes_sent) AS total_bytes_sent,
    sum(bytes_received) AS total_bytes_received,
    sum(bytes_sent + bytes_received) AS total_bandwidth,
    uniqExact(remote_ip) AS unique_ips,
    argMax(status, timestamp_unix_ms) AS last_status,
    max(timestamp_unix_ms) AS last_seen_unix_ms
FROM pxxl_access_logs
" ++ raw_where ++ lit "
GROUP BY domain
ORDER BY last_seen_unix_ms DESC
LIMIT " ++ to_dec limit ++ lit "
".

Definition stats_rollup_query (where_clause : rstr) (limit : Z) : rstr := lit "
SELECT
    domain,
    sum(requests) AS requests_total,
    sumIf(requests, status_class = 200) AS responses_2xx,
    sumIf(requests, status_class = 300) AS responses_3xx,
    sumIf(requests, status_class = 400) AS responses_4xx,
    sumIf(requests, status_class = 500) AS responses_5xx,
    if(sum(requests) = 0, 0, sum(latency_ms_sum) / sum(requests)) AS average_latency_ms,
    sum(bytes_sent) AS total_bytes_sent,
    sum(bytes_received) AS total_bytes_received,
    sum(bytes_sent + bytes_received) AS total_bandwidth,
    uniqCombined64Merge(unique_ips) AS unique_ips,
    toUInt16(argMax(status_class, day)) AS last_status,
    toUInt64(toUnixTimestamp(max(day)) * 1000) AS last_seen_unix_ms
FROM pxxl_access_rollup_day
WHERE " ++ where_clause ++ lit "
GROUP BY domain
ORDER BY requests_total DESC
LIMIT " ++ to_dec limit ++ lit "
".

Definition rollup_countries_query (domain_sql : rstr) (days : Z) : rstr := lit "
SELECT domain, code, name, count
FROM (
    SELECT
        domain,
        ifNull(nullIf(country_code, ''), 'XX') AS code,
        ifNull(nullIf(any(country_name), ''), if(code = 'XX', 'Unknown', code)) AS name,
        sum(requests) AS count
    FROM pxxl_access_rollup_day
    WHERE domain IN (" ++ domain_sql ++ lit ") AND day >= today() - INTERVAL " ++ to_dec days ++ lit " DAY
    GROUP BY domain, code
)
ORDER BY domain ASC, count DESC
LIMIT " ++ to_dec CLICKHOUSE_ROLLUP_TOP_COUNTRIES_PER_DOMAIN ++ lit " BY domain
".

Definition rollup_continents_query (domain_sql : rstr) (days : Z) : rstr := lit "
SELECT domain, code, name, count
FROM (
    SELECT
        domain,
        ifNull(nullIf(continent_code, ''), 'XX') AS code,
        ifNull(nullIf(any(continent_name), ''), if(code = 'XX', 'Unknown', code)) AS name,
        sum(requests) AS count
    FROM pxxl_access_rollup_day
    WHERE domain IN (" ++ domain_sql ++ lit ") AND day >= today() - INTERVAL " ++ to_dec days ++ lit " DAY
    GROUP BY domain, code
)
ORDER BY domain ASC, count DESC
LIMIT " ++ to_dec CLICKHOUSE_ROLLUP_TOP_CONTINENTS_PER_DOMAIN ++ lit " BY domain
".

Definition rollup_regions_query (domain_sql : rstr) (days : Z) : rstr := lit "
SELECT domain, name, count
FROM (
    SELECT
        domain,
        ifNull(nullIf(region, ''), 'Unknown') AS name,
        sum(requests) AS count
    FROM pxxl_access_rollup_day
    WHERE domain IN (" ++ domain_sql ++ lit ") AND day >= today() - INTERVAL " ++ to_dec days ++ lit " DAY
    GROUP BY domain, name
)
ORDER BY domain ASC, count DESC
LIMIT " ++ to_dec CLICKHOUSE_ROLLUP_TOP_REGIONS_PER_DOMAIN ++ lit " BY domain
".

Definition rollup_cities_query (domain_sql : rstr) (days : Z) : rstr := lit "
SELECT domain, name, country, count
FROM (
    SELECT
        domain,
        ifNull(nullIf(city, ''), 'Unknown') AS name,
        ifNull(nullIf(country_code, ''), 'XX') AS country,
        sum(requests) AS count
    FROM pxxl_access_rollup_day
    WHERE domain IN (" ++ domain_sql ++ lit ") AND day >= today() - INTERVAL " ++ to_dec days ++ lit " DAY
    GROUP BY domain, name, country
)
ORDER BY domain ASC, count DESC
LIMIT " ++ to_dec CLICKHOUSE_ROLLUP_TOP_CITIES_PER_DOMAIN ++ lit " BY domain
".

Definition top_countries_query (domain_sql : rstr) : rstr := lit "
SELECT
    ifNull(nullIf(country_code, ''), 'XX') AS code,
    ifNull(nullIf(argMax(country_name, timestamp_unix_ms), ''), if(code = 'XX', 'Unknown', code)) AS name,
    count() AS count
FROM pxxl_access_logs
WHERE domain = " ++ domain_sql ++ lit "
GROUP BY code
ORDER BY count DESC
LIMIT 80
".

Definition top_continents_query (domain_sql : rstr) : rstr := lit "
SELECT
    ifNull(nullIf(continent_code, ''), 'XX') AS code,
    ifNull(nullIf(argMax(continent_name, timestamp_unix_ms), ''), if(code = 'XX', 'Unknown', code)) AS name,
    count() AS count
FROM pxxl_access_logs
WHERE domain = " ++ domain_sql ++ lit "
GROUP BY code
ORDER BY count DESC
LIMIT 20
".

Definition top_paths_query (domain_sql : rstr) : rstr := lit "
SELECT path AS value, count() AS count
FROM pxxl_access_logs
WHERE domain = " ++ domain_sql ++ lit "
GROUP BY path
ORDER BY count DESC
LIMIT 50
".

Definition top_upstreams_query (domain_sql : rstr) : rstr := lit "
SELECT ifNull(upstream, 'unknown') AS value, count() AS count
FROM pxxl_access_logs
WHERE domain = " ++ domain_sql ++ lit "
GROUP BY value
ORDER BY count DESC
LIMIT 50
".

Definition recent_visits_query (where_clause : rstr) (limit : Z) : rstr := lit "
SELECT
    request_id,
    domain,
    method,
    path,
    status,
    latency_ms,
    upstream,
    remote_ip,
    country_code,
    country_name,
    continent_code,
    continent_name,
    region,
    city,
    geo_source,
    timestamp_unix_ms,
    bytes_sent,
    bytes_received
FROM pxxl_access_logs
" ++ where_clause ++ lit "
ORDER BY timestamp_unix_ms DESC
LIMIT " ++ to_dec limit ++ lit "
".

Definition backfill_range_query : rstr := lit "
SELECT
    count() AS raw_rows,
    min(toDate(toDateTime(timestamp_unix_ms / 1000))) AS min_day,
    max(toDate(toDateTime(timestamp_unix_ms / 1000))) AS max_day
FROM pxxl_access_logs
WHERE timestamp_unix_ms < toUnixTimestamp(today()) * 1000
".

Definition backfill_day_statement (day_sql : rstr) : rstr := lit "
INSERT INTO pxxl_access_rollup_day
SELECT
  toDate(toDateTime(timestamp_unix_ms / 1000)) AS day,
  domain,
  ifNull(country_code, '') AS country_code,
  ifNull(country_name, '') AS country_name,
  ifNull(continent_code, '') AS continent_code,
  ifNull(continent_name, '') AS continent_name,
  ifNull(region, '') AS region,
  ifNull(city, '') AS city,
  toUInt16(intDiv(status, 100) * 100) AS status_class,
  count() AS requests,
  countIf(status >= 400) AS blocked,
  countIf(status >= 500) AS errors,
  sum(bytes_sent) AS bytes_sent,
  sum(bytes_received) AS bytes_received,
  sum(latency_ms) AS latency_ms_sum,
  uniqCombined64State(ifNull(remote_ip, '')) AS unique_ips
FROM pxxl_access_logs
WHERE toDate(toDateTime(timestamp_unix_ms / 1000)) = toDate(" ++ day_sql ++ lit ")
GROUP BY
  day,
  domain,
  country_code,
  country_name,
  continent_code,
  continent_name,
  region,
  city,
  status_class
".

Definition backfilled_query (day_sql : rstr) : rstr := lit "
SELECT count() AS count
FROM pxxl_access_rollup_backfill_state FINAL
WHERE day = toDate(" ++ day_sql ++ lit ")
".

Definition rollup_rows_query (day_sql : rstr) : rstr := lit "
SELECT count() AS count
FROM pxxl_access_rollup_day
WHERE day = toDate(" ++ day_sql ++ lit ")
".

Definition mark_day_statement (day_sql : rstr) : rstr := lit "
INSERT INTO pxxl_access_rollup_backfill_state (day, completed_at)
VALUES (toDate(" ++ day_sql ++ lit "), now())
".

Definition bandwidth_usage_query (domain_sql : rstr) (start_timestamp end_timestamp : Z) : rstr := lit "
SELECT 
    domain,
    sum(bytes_sent) as bytes_sent,
    sum(bytes_received) as bytes_received,
    sum(bytes_sent + bytes_received) as total_bandwidth,
    count(*) as request_count
FROM pxxl_access_logs
WHERE domain = " ++ domain_sql ++ lit " 
  AND timestamp_unix_ms >= " ++ to_dec start_timestamp ++ lit "
  AND timestamp_unix_ms < " ++ to_dec end_timestamp ++ lit "
GROUP BY domain
".

Definition bandwidth_history_query (domain_sql : rstr) (months : Z) : rstr := lit "
SELECT 
    domain,
    formatDateTime(toStartOfMonth(toDateTime(timestamp_unix_ms / 1000)), '%Y-%m') as period,
    sum(bytes_sent) as bytes_sent,
    sum(bytes_received) as bytes_received,
    sum(bytes_sent + bytes_received) as total_bandwidth,
    count(*) as request_count
FROM pxxl_access_logs
WHERE domain = " ++ domain_sql ++ lit "
  AND timestamp_unix_ms >= toUnixTimestamp(now() - INTERVAL " ++ to_dec months ++ lit " MONTH) * 1000
GROUP BY domain, period
ORDER BY period DESC
".

Definition bandwidth_realtime_query (domain_sql : rstr) (hours : Z) : rstr := lit "
SELECT 
    domain,
    formatDateTime(toStartOfHour(toDateTime(timestamp_unix_ms / 1000)), '%Y-%m-%dT%H:00:00Z') as period,
    sum(bytes_sent) as bytes_sent,
    sum(bytes_received) as bytes_received,
    sum(bytes_sent + bytes_received) as total_bandwidth,
    count(*) as request_count
FROM pxxl_access_logs
WHERE domain = " ++ domain_sql ++ lit "
  AND timestamp_unix_ms >= toUnixTimestamp(now() - INTERVAL " ++ to_dec hours ++ lit " HOUR) * 1000
GROUP BY domain, period
ORDER BY period ASC
".

(** ** Clauses made of several values *)

Definition raw_where (domain_filter : option rstr) : rstr := match domain_filter with Some filter => lit "WHERE " ++ filter | None => [] end.
Definition rollup_where (domain_filter : option rstr) (days : Z) : rstr :=
  match domain_filter with
  | Some filter => lit "day >= today() - INTERVAL " ++ to_dec days ++ lit " DAY AND " ++ filter
  | None => lit "day >= today() - INTERVAL " ++ to_dec days ++ lit " DAY"
  end.
Definition visit_filters (domain request_id : option rstr) : list rstr :=
  match domain with Some domain => [lit "domain = " ++ clickhouse_string_literal domain] | None => [] end ++
  match request_id with Some request_id => [lit "request_id = " ++ clickhouse_string_literal request_id] | None => [] end.
Definition visits_where (domain request_id : option rstr) : rstr :=
  let filters := visit_filters domain request_id in
  if is_empty filters then [] else lit "WHERE " ++ join (lit " AND ") filters.

(** ** What the server reads

    The literals of the documented syntax: a quote opens one, a backslash escapes
    the next character, a doubled quote stands for a quote.  What an escaped
    character other than these two means is left open. *)

Inductive token := Code (b : ascii) | Str (value : rstr).
Section reading.
Context (escaped : ascii -> rstr).
Definition unescape (b : ascii) : rstr := if beq b QUOTE || beq b BACKSLASH then [b] else escaped b.
Fixpoint sql_tokens (inside : option rstr) (s : rstr) : option (list token) :=
  match s, inside with
  | [], None => Some []
  | [], Some _ => None
  | b :: s, None => if beq b QUOTE then sql_tokens (Some []) s else cons (Code b) <$> sql_tokens None s
  | b :: s, Some value =>
    if beq b BACKSLASH then match s with [] => None | c :: s => sql_tokens (Some (value ++ unescape c)) s end
    else if beq b QUOTE then
      match s with
      | c :: s' => if beq c QUOTE then sql_tokens (Some (value ++ [QUOTE])) s' else cons (Str value) <$> sql_tokens None s
      | [] => Some [Str value]
      end
    else sql_tokens (Some (value ++ [b])) s
  end.

(** Code text ends outside a literal, and not with a quote, so that what follows
    cannot continue its last literal. *)
Definition closed (s : rstr) : Prop := is_Some (sql_tokens None s) /\ last s <> Some QUOTE.
Definition codes (s : rstr) : list token := map Code s.
Definition text_tokens (s : rstr) : list token := default [] (sql_tokens None s).
Fixpoint separated (values : list rstr) : list token :=
  match values with
  | [] => []
  | [value] => [Str value]
  | value :: values => Str value :: Code (chr ",") :: separated values
  end.

Lemma last_cons_cons (b c : ascii) s : last (b :: c :: s) = last (c :: s).
Proof. done. Qed.
Lemma tokens_app b : forall n a inside ta,
  (length a <= n)%nat -> sql_tokens inside a = Some ta -> last a <> Some QUOTE -> sql_tokens inside (a ++ b) = app ta <$> sql_tokens None b.
Proof.
  induction n as [|n IH]; intros [|x a] inside ta Hn H Hl; cbn [length] in Hn; try lia.
  - destruct inside; [done|]. injection H as <-. cbn. by destruct (sql_tokens None b).
  - destruct inside; [done|]. injection H as <-. cbn. by destruct (sql_tokens None b).
  - assert (forall a', a = a' \/ (exists c, a = c :: a') -> a' = [] \/ last a' = last (x :: a)) as Hsub.
    { intros a' [->|[c ->]]; (destruct a' as [|c' a']; [by left|right; by rewrite ?last_cons_cons]). }
    assert (forall a' inside ta', a = a' \/ (exists c, a = c :: a') -> sql_tokens inside a' = Some ta' ->
      sql_tokens inside (a' ++ b) = app ta' <$> sql_tokens None b) as Hrec.
    { intros a' i ta' Ha Ht. apply IH; [destruct Ha as [->|[c ->]]; cbn [length] in Hn; lia|done|]. destruct (Hsub a' Ha) as [-> | ->]; [done|done]. }
    cbn [app sql_tokens] in H |- *. destruct inside as [v|].
    + destruct (beq x BACKSLASH).
      { destruct a as [|c a]; [done|]. cbn [app]. apply Hrec; [right; by exists c|done]. }
      destruct (beq x QUOTE) eqn:Eq; [|apply Hrec; [by left|done]].
      destruct a as [|c a]; [apply beq_true in Eq as ->; done|]. cbn [app]. destruct (beq c QUOTE).
      { apply Hrec; [right; by exists c|done]. }
      destruct (sql_tokens None (c :: a)) as [ta'|] eqn:Et; [|done]. injection H as <-. pose proof (Hrec (c :: a) None ta' ltac:(by left) Et) as Hr. cbn [app] in Hr. rewrite Hr.
      by destruct (sql_tokens None b).
    + destruct (beq x QUOTE); [apply Hrec; [by left|done]|].
      destruct (sql_tokens None a) as [ta'|] eqn:Et; [|done]. injection H as <-. rewrite (Hrec a None ta' ltac:(by left) Et).
      by destruct (sql_tokens None b).
Qed.
Lemma closed_app a b : closed a -> sql_tokens None (a ++ b) = app (text_tokens a) <$> sql_tokens None b.
Proof. intros [[ta Ht] Hl]. unfold text_tokens. rewrite Ht. by apply (tokens_app b (length a)). Qed.
Lemma closed_join a b : closed a -> closed b -> closed (a ++ b).
Proof.
  intros Ha [[tb Hb] Hl]. split; [rewrite closed_app, Hb by done; by eexists|].
  rewrite last_app. destruct b; [by destruct Ha|]. destruct (last _) eqn:E; [done|]. by apply last_None in E.
Qed.
Lemma plain_tokens s : QUOTE ∉ s -> sql_tokens None s = Some (codes s).
Proof.
  induction s as [|b s IH]; intros H; [done|]. cbn [sql_tokens codes map]. apply not_elem_of_cons in H as [Hb Hs].
  rewrite (proj2 (beq_false b QUOTE)) by congruence. by rewrite IH.
Qed.
Lemma plain_closed s : QUOTE ∉ s -> closed s.
Proof. intros H. split; [rewrite plain_tokens by done; by eexists|]. intros Hl. by apply H, last_Some_elem_of. Qed.

Definition escape (v : rstr) : rstr := replace_char QUOTE (lit "\'") (replace_char BACKSLASH (lit "\\") v).
Lemma escape_cons c v :
  escape (c :: v) = (if beq c BACKSLASH then [BACKSLASH; BACKSLASH] else if beq c QUOTE then [BACKSLASH; QUOTE] else [c]) ++ escape v.
Proof.
  unfold escape, replace_char. cbn [flat_map]. destruct (beq c BACKSLASH) eqn:E1; rewrite flat_map_app; [done|]. cbn [flat_map].
  by destruct (beq c QUOTE) eqn:E2.
Qed.
Lemma literal_inside v b : head b <> Some QUOTE -> forall acc,
  sql_tokens (Some acc) (escape v ++ QUOTE :: b) = cons (Str (acc ++ v)) <$> sql_tokens None b.
Proof.
  intros Hb. induction v as [|c v IH]; intros acc.
  - cbn [escape replace_char flat_map app sql_tokens]. change (beq QUOTE BACKSLASH) with false. rewrite beq_refl, app_nil_r.
    destruct b as [|c b]; [done|]. destruct (beq c QUOTE) eqn:E; [|done]. apply beq_true in E as ->. by destruct Hb.
  - rewrite escape_cons. destruct (beq c BACKSLASH) eqn:E1; [|destruct (beq c QUOTE) eqn:E2]; cbn [app sql_tokens].
    + apply beq_true in E1 as ->. rewrite beq_refl. change (unescape BACKSLASH) with [BACKSLASH]. by rewrite IH, <- app_assoc.
    + apply beq_true in E2 as ->. rewrite beq_refl. change (unescape QUOTE) with [QUOTE]. by rewrite IH, <- app_assoc.
    + by rewrite E1, E2, IH, <- app_assoc.
Qed.
(** A literal is read back as the value it was made of. *)
Lemma literal_tokens v b : head b <> Some QUOTE ->
  sql_tokens None (clickhouse_string_literal v ++ b) = cons (Str v) <$> sql_tokens None b.
Proof.
  intros Hb. unfold clickhouse_string_literal. cbn [app sql_tokens]. rewrite beq_refl, <- app_assoc. cbn [app]. by apply literal_inside.
Qed.
Lemma literals_tokens values b : values <> [] -> head b <> Some QUOTE ->
  sql_tokens None (literals values ++ b) = app (separated values) <$> sql_tokens None b.
Proof.
  intros Hv Hb. induction values as [|v [|w values] IH]; [done| |]; unfold literals in *; cbn [map separated].
  - cbn [join]. rewrite literal_tokens by done. by destruct (sql_tokens None b).
  - cbn [map] in IH. change (join ?sep (?x :: ?y :: ?l)) with (x ++ sep ++ join sep (y :: l)). rewrite <- !app_assoc, literal_tokens by done.
    rewrite (closed_app (lit ",")) by by (split; [eexists|]). rewrite IH by done.
    by destruct (sql_tokens None b).
Qed.
(** One list of values between two texts of code. *)
Lemma values_between a b values : closed a -> closed b -> head b <> Some QUOTE -> values <> [] ->
  sql_tokens None (a ++ literals values ++ b) = Some (text_tokens a ++ separated values ++ text_tokens b).
Proof. intros Ha [[tb Hb] _] Hh Hv. rewrite closed_app, literals_tokens by done. unfold text_tokens. by rewrite Hb. Qed.
End reading.

(** ** Theorems *)

Lemma to_dec_closed escaped n : closed escaped (to_dec n).
Proof. apply plain_closed, digits_plain; [done|apply not_elem_of_nil]. Qed.

(** The queries about one domain, as functions of its literal. *)
Definition domain_queries (start_timestamp end_timestamp months hours : Z) : list (rstr -> rstr) := [
  domain_stats_query; top_countries_query; top_continents_query; top_paths_query; top_upstreams_query;
  fun domain_sql => bandwidth_usage_query domain_sql start_timestamp end_timestamp;
  fun domain_sql => bandwidth_history_query domain_sql months; fun domain_sql => bandwidth_realtime_query domain_sql hours ].
(** Those about a list of domains, as functions of the literals, *)
Definition rollup_list_queries (days : Z) : list (rstr -> rstr) := [
  fun domain_sql => rollup_countries_query domain_sql days; fun domain_sql => rollup_continents_query domain_sql days;
  fun domain_sql => rollup_regions_query domain_sql days; fun domain_sql => rollup_cities_query domain_sql days ].
(** and as functions of the domain filter. *)
Definition filtered_queries (limit days : Z) : list (option rstr -> rstr) := [
  fun domain_filter => stats_raw_query (raw_where domain_filter) limit;
  fun domain_filter => stats_rollup_query (rollup_where domain_filter days) limit ].
Definition where_tokens (domain request_id : option rstr) : list token :=
  match domain, request_id with
  | None, None => []
  | Some domain, None => codes (lit "WHERE domain = ") ++ [Str domain]
  | None, Some request_id => codes (lit "WHERE request_id = ") ++ [Str request_id]
  | Some domain, Some request_id => codes (lit "WHERE domain = ") ++ [Str domain] ++ codes (lit " AND request_id = ") ++ [Str request_id]
  end.

Section injection.
Context (escaped : ascii -> rstr).
Abbreviation tokens := (sql_tokens escaped None).
Lemma closed_dec s : match tokens s with Some _ => negb (bool_decide (last s = Some QUOTE)) | None => false end = true -> closed escaped s.
Proof. unfold closed. destruct (tokens s); [|done]. intros H. split; [by eexists|]. by case_bool_decide. Qed.
Ltac code := repeat apply closed_join; first [apply to_dec_closed|apply closed_dec; vm_compute; reflexivity].
Lemma one_between a b : closed escaped a -> closed escaped b -> head b <> Some QUOTE ->
  forall v, tokens (a ++ clickhouse_string_literal v ++ b) = Some (text_tokens escaped a ++ Str v :: text_tokens escaped b).
Proof. intros Ha Hb Hh v. by apply (values_between escaped a b [v]). Qed.
Lemma list_between a b : closed escaped a -> closed escaped b -> head b <> Some QUOTE ->
  forall l, l <> [] -> tokens (a ++ literals l ++ b) = Some (text_tokens escaped a ++ separated l ++ text_tokens escaped b).
Proof. intros Ha Hb Hh l Hl. by apply values_between. Qed.
Lemma filter_between a b : closed escaped a -> closed escaped b ->
  forall domains f, clickhouse_domain_filter domains = Some f ->
  tokens (a ++ f ++ b) = Some (text_tokens escaped (a ++ lit "domain IN (") ++ separated (cleaned_domains domains) ++ text_tokens escaped (lit ")" ++ b)).
Proof.
  intros Ha Hb domains f. unfold clickhouse_domain_filter. destruct (cleaned_domains domains) as [|x l]; [done|]. cbn [is_empty]. intros Hf.
  assert (f = lit "domain IN (" ++ literals (x :: l) ++ lit ")") as -> by congruence.
  rewrite <- !app_assoc, (app_assoc a). apply values_between; [..|done]; [apply closed_join; [done|code]|apply closed_join; [code|done]|done].
Qed.
Lemma raw_between a x b : closed escaped a -> closed escaped x -> closed escaped b ->
  forall domains f, clickhouse_domain_filter domains = Some f ->
  tokens (a ++ (x ++ f) ++ b) = Some (text_tokens escaped ((a ++ x) ++ lit "domain IN (") ++ separated (cleaned_domains domains) ++ text_tokens escaped (lit ")" ++ b)).
Proof. intros Ha Hx Hb domains f Hf. rewrite <- app_assoc, (app_assoc a). apply filter_between; [by apply closed_join|done|done]. Qed.
Lemma rollup_between a x y z b : closed escaped a -> closed escaped x -> closed escaped y -> closed escaped z -> closed escaped b ->
  forall domains f, clickhouse_domain_filter domains = Some f ->
  tokens (a ++ (x ++ y ++ z ++ f) ++ b) =
  Some (text_tokens escaped ((a ++ x ++ y ++ z) ++ lit "domain IN (") ++ separated (cleaned_domains domains) ++ text_tokens escaped (lit ")" ++ b)).
Proof.
  intros Ha Hx Hy Hz Hb domains f Hf. rewrite (app_assoc y), (app_assoc x). apply (raw_between a (x ++ y ++ z)); [done| |done..].
  by repeat apply closed_join.
Qed.
Lemma where_between a b : closed escaped a -> closed escaped b -> head b <> Some QUOTE ->
  forall domain id, tokens (a ++ visits_where domain id ++ b) = Some (text_tokens escaped a ++ where_tokens domain id ++ text_tokens escaped b).
Proof.
  intros Ha [[tb Hb] Hl] Hh domain id. rewrite closed_app by done.
  assert (text_tokens escaped b = tb) as -> by (unfold text_tokens; by rewrite Hb).
  destruct domain as [d|], id as [i|]; unfold visits_where, visit_filters; cbn [app is_empty join where_tokens]; rewrite <- ?app_assoc.
  - rewrite !(closed_app _ (lit "WHERE ")), !(closed_app _ (lit "domain = ")) by code. rewrite literal_tokens by done.
    rewrite (closed_app _ (lit " AND ")), (closed_app _ (lit "request_id = ")), literal_tokens, Hb by first [done|code]. done.
  - rewrite (closed_app _ (lit "WHERE ")), (closed_app _ (lit "domain = ")), literal_tokens, Hb by first [done|code]. done.
  - rewrite (closed_app _ (lit "WHERE ")), (closed_app _ (lit "request_id = ")), literal_tokens, Hb by first [done|code]. done.
  - by rewrite Hb.
Qed.

(** C20: No value of a request changes a query: whatever the domain, the domains or
    the request identifier are, the server reads the same query with that value as
    one string literal in the place the query has for it. *)
Theorem queries_injection_free :
  (forall start_timestamp end_timestamp months hours q, q ∈ domain_queries start_timestamp end_timestamp months hours ->
     exists pre post, forall domain, tokens (q (clickhouse_string_literal domain)) = Some (pre ++ Str domain :: post)) /\
  (forall days q, q ∈ rollup_list_queries days ->
     exists pre post, forall domains, domains <> [] -> tokens (q (literals domains)) = Some (pre ++ separated domains ++ post)) /\
  (forall limit days q, q ∈ filtered_queries limit days ->
     exists pre post, forall domains f, clickhouse_domain_filter domains = Some f ->
       tokens (q (Some f)) = Some (pre ++ separated (cleaned_domains domains) ++ post)) /\
  (forall limit, exists pre post, forall domain id,
     tokens (recent_visits_query (visits_where domain id) limit) = Some (pre ++ where_tokens domain id ++ post)).
Proof.
  split_and!; intros *.
  - unfold domain_queries. intros Hq. rewrite !elem_of_cons, elem_of_nil in Hq. destruct_or! Hq; subst q; try done; eexists _, _; apply one_between; first [done|code].
  - unfold rollup_list_queries. intros Hq. rewrite !elem_of_cons, elem_of_nil in Hq. destruct_or! Hq; subst q; try done; eexists _, _; apply list_between; first [done|code].
  - unfold filtered_queries. intros Hq. rewrite !elem_of_cons, elem_of_nil in Hq. destruct_or! Hq; subst q; try done; eexists _, _; unfold stats_raw_query, stats_rollup_query, raw_where, rollup_where.
    + apply raw_between; code.
    + apply rollup_between; code.
  - eexists _, _. apply where_between; first [done|code].
Qed.
End injection.

(** ** Examples *)

Module SqlDemo.
Definition hostile : rstr := lit "x' OR 1=1 -- \".
Definition none (_ : ascii) : rstr := [].
Definition strings (l : option (list token)) : list rstr := omap (fun t => match t with Str v => Some v | Code _ => None end) (default [] l).
Example hostile_is_a_value :
  (strings (sql_tokens none None (top_paths_query (clickhouse_string_literal hostile))), bool_decide (is_Some (sql_tokens none None (top_paths_query (lit "'" ++ hostile ++ lit "'")))))
  = ([hostile], false).
Proof. by vm_compute. Qed.
(** An empty list of domains, or one of blanks and dots, is no filter: the query is
    about all domains. *)
Example no_domain_is_every_domain :
  (clickhouse_domain_filter [], clickhouse_domain_filter (lits [" "; "."]), clickhouse_domain_filter (lits ["B.io."; "a.io"; " b.io"]))
  = (None, None, Some (lit "domain IN ('a.io','b.io')")).
Proof. by vm_compute. Qed.
End SqlDemo.
