(* ===== verification/ClickHouse.v ===== *)
(** * The analytics database ([storage/src/lib.rs])

    The client of ClickHouse: its statements and queries with their time limit,
    statuses and limited bodies, the cache of query results, the rows it reads and
    what the readers make of them, and the backfill of the daily totals.  The server
    is the list of the statements it has executed and, for every exchange, what it
    answers; JSON and the parsing of floats are parameters. *)
From S2P Require Import Prelude RustStr RustNum RustNet CommonTypes Stats ClickHouseSql.
From stdpp Require Import options.

Local Open Scope Z_scope.

Definition CLICKHOUSE_ERROR_BODY_LIMIT_BYTES : Z := 16 * 1024.
Definition CLICKHOUSE_QUERY_BODY_LIMIT_BYTES : Z := 64 * 1024 * 1024.
Definition CLICKHOUSE_READ_CACHE_TTL_SECONDS : Z := 30.
Definition CLICKHOUSE_READ_CACHE_MAX_ENTRIES : nat := 256.
Definition CLICKHOUSE_ROLLUP_DEFAULT_DAYS : Z := 30.
Definition CLICKHOUSE_ROLLUP_LIST_DOMAIN_LIMIT : nat := 500.

(** ** JSON values *)

Inductive Number := PosInt (n : Z) | NegInt (n : Z) | Float (x : Z).
Inductive Value :=
| Null
| VBool (b : bool)
| VNumber (n : Number)
| VString (s : rstr)
| VArray (l : list Value)
| VObject (m : gmap rstr Value).
Abbreviation Object := (gmap rstr Value).

Definition get (key : rstr) (row : Value) : option Value := match row with VObject m => m !! key | _ => None end.
Definition as_str (v : Value) : option rstr := match v with VString s => Some s | _ => None end.
Definition as_u64 (v : Value) : option Z := match v with VNumber (PosInt n) => Some n | _ => None end.
Definition get_or_null (key : string) (row : Value) : Value := default Null (get (lit key) row).

(** [row_to_string]: [serde_json::to_string] of an access log row, [json_from_str]:
    [serde_json::from_str], [parse_f64]: [str::parse], whose inner [None] is a number
    that is not finite. *)
Record ClickHouseAccessLogRow := {
  al_request_id : rstr; al_timestamp_unix_ms : Z; al_domain : rstr; al_method : rstr; al_path : rstr; al_status : Z; al_latency_ms : Z;
  al_upstream : option rstr; al_remote_ip : option rstr; al_country_code : option rstr; al_country_name : option rstr;
  al_continent_code : option rstr; al_continent_name : option rstr; al_region : option rstr; al_city : option rstr; al_geo_source : rstr;
  al_bytes_sent : Z; al_bytes_received : Z }.
Definition access_log_row_from_observation (event : RequestObservation) : ClickHouseAccessLogRow := {|
  al_request_id := ob_request_id event; al_timestamp_unix_ms := ob_timestamp_unix_ms event; al_domain := ob_domain event;
  al_method := ob_method event; al_path := ob_path event; al_status := ob_status event; al_latency_ms := ob_latency_ms event;
  al_upstream := ob_upstream event; al_remote_ip := ip_to_string <$> ob_remote_ip event;
  al_country_code := gl_country_code (ob_location event); al_country_name := gl_country_name (ob_location event);
  al_continent_code := gl_continent_code (ob_location event); al_continent_name := gl_continent_name (ob_location event);
  al_region := gl_region (ob_location event); al_city := gl_city (ob_location event); al_geo_source := gl_source (ob_location event);
  al_bytes_sent := ob_bytes_sent event; al_bytes_received := ob_bytes_received event |}.
Class JsonLib := {
  json_from_str : rstr -> option Value;
  parse_f64 : rstr -> option (option Z);
  row_to_string : ClickHouseAccessLogRow -> option rstr;
}.
(** A JSON text ends with its value, so not with the mark of a cut body; the text of
    a row is one line. *)
Class JsonLaws (J : JsonLib) : Prop := {
  cut_not_json : forall s, json_from_str (s ++ lit "<truncated>") = None;
  row_text : forall row, exists s, row_to_string row = Some s /\ LF ∉ s;
}.

(** ** The cache of query results *)

Record QueryCacheEntry := { qe_created_at : Z; qe_rows : list Value }.
Record QueryCache := { qc_entries : gmap rstr QueryCacheEntry; qc_order : list rstr }.
Definition QueryCache_default : QueryCache := {| qc_entries := ∅; qc_order := [] |}.
Definition cache_get (now : Z) (key : rstr) (c : QueryCache) : QueryCache * option (list Value) :=
  match qc_entries c !! key with
  | None => (c, None)
  | Some entry =>
    if from_secs CLICKHOUSE_READ_CACHE_TTL_SECONDS <? Z.max (now - qe_created_at entry) 0
    then ({| qc_entries := delete key (qc_entries c); qc_order := qc_order c |}, None)
    else (c, Some (qe_rows entry))
  end.
(** The [while] loop takes one key of [order] in every round. *)
Fixpoint evict_oldest (entries : gmap rstr QueryCacheEntry) (order : list rstr) : QueryCache :=
  if (CLICKHOUSE_READ_CACHE_MAX_ENTRIES <? size entries)%nat then
    match order with
    | [] => {| qc_entries := entries; qc_order := [] |}
    | oldest :: order => evict_oldest (delete oldest entries) order
    end
  else {| qc_entries := entries; qc_order := order |}.
Definition cache_insert (now : Z) (key : rstr) (rows : list Value) (c : QueryCache) : QueryCache :=
  let order := if bool_decide (is_Some (qc_entries c !! key)) then qc_order c else qc_order c ++ [key] in
  evict_oldest (<[key := {| qe_created_at := now; qe_rows := rows |}]> (qc_entries c)) order.
Definition cache_clear (c : QueryCache) : QueryCache := QueryCache_default.

(** ** Exchanges with the server *)

Inductive frame := Data (bytes : rstr) | Trailers | Broken.
(** No answer within the five seconds, an error of the connection, or an answer. *)
Inductive answer := NoAnswer | ConnectionFailed | Response (status : Z) (frames : list frame).
(** Whether the server executed the statement is not known to the client. *)
Record exchange := { ex_started : Z; ex_executed : bool; ex_answer : answer; ex_finished : Z }.
Definition unreachable : exchange := {| ex_started := 0; ex_executed := false; ex_answer := ConnectionFailed; ex_finished := 0 |}.

Inductive ClickHouseError := TimedOut | RequestFailed | Returned (status : Z) (body : rstr) | NotJson | BadUrl.
Record Client := {
  (** what the server has executed, *)
  cl_log : list rstr;
  cl_read_cache : QueryCache }.
Definition ch (A : Type) : Type := oracle Client exchange ClickHouseError A.

Definition is_success (status : Z) : bool := (200 <=? status) && (status <? 300).
Fixpoint collect_frames (max_bytes : Z) (collected : rstr) (frames : list frame) : result ClickHouseError rstr :=
  match frames with
  | [] => Ok collected
  | Broken :: _ => Err RequestFailed
  | Trailers :: frames => collect_frames max_bytes collected frames
  | Data data :: frames =>
    if max_bytes <? str_len collected + str_len data then Ok (collected ++ lit "<truncated>") else collect_frames max_bytes (collected ++ data) frames
  end.
Definition collect_body_limited (frames : list frame) (max_bytes : Z) : result ClickHouseError rstr := collect_frames max_bytes [] frames.
Definition read_answer (a : answer) : result ClickHouseError rstr :=
  match a with
  | NoAnswer => Err TimedOut
  | ConnectionFailed => Err RequestFailed
  | Response status frames =>
    let? body := collect_body_limited frames (if is_success status then CLICKHOUSE_QUERY_BODY_LIMIT_BYTES else CLICKHOUSE_ERROR_BODY_LIMIT_BYTES) in
    if is_success status then Ok body else Err (Returned status (from_utf8_lossy body))
  end.
(** The request both calls make, with the same headers. *)
Definition post_body (sql : rstr) : ch rstr := fun '(c, exchanges) =>
  let x := default unreachable (head exchanges) in
  (({| cl_log := if ex_executed x then cl_log c ++ [sql] else cl_log c; cl_read_cache := cl_read_cache c |}, tail exchanges), read_answer (ex_answer x)).
Definition post_sql (sql : rstr) : ch unit := do* post_body sql in rret tt.
Fixpoint post_all (statements : list rstr) : ch unit :=
  match statements with
  | [] => rret tt
  | sql :: statements => do* post_sql sql in post_all statements
  end.
Definition ensure_schema : ch unit := post_all SCHEMA.
Definition clear_read_cache : ch unit := fun '(c, exchanges) =>
  (({| cl_log := cl_log c; cl_read_cache := cache_clear (cl_read_cache c) |}, exchanges), Ok tt).

Section client.
Context {J : JsonLib}.

Definition json_rows (body : rstr) : result ClickHouseError (list Value) :=
  collect_results (fun line => ok_or NotJson (json_from_str line)) (filter (fun line => is_empty (trim line) = false) (lines (from_utf8_lossy body))).
Definition query_json (sql : rstr) : ch (list Value) :=
  let* body := post_body (sql ++ lit " FORMAT JSONEachRow") in
  fun s => (s, json_rows body).
(** The clock is read with the lookup and with the insertion. *)
Definition query_json_cached (sql : rstr) : ch (list Value) := fun '(c, exchanges) =>
  let x := default unreachable (head exchanges) in
  let '(cache, hit) := cache_get (ex_started x) sql (cl_read_cache c) in
  let c := {| cl_log := cl_log c; cl_read_cache := cache |} in
  match hit with
  | Some rows => ((c, tail exchanges), Ok rows)
  | None =>
    (let* rows := query_json sql in
     fun '(c, exchanges) =>
       (({| cl_log := cl_log c; cl_read_cache := cache_insert (ex_finished x) sql rows (cl_read_cache c) |}, exchanges), Ok rows)) (c, exchanges)
  end.

Definition INSERT_ROWS : rstr :=
  lit "INSERT INTO pxxl_access_logs SETTINGS async_insert=0, wait_for_async_insert=1 FORMAT JSONEachRow" ++ [LF].
Definition insert_requests (events : list RequestObservation) : ch unit :=
  match collect_results (fun event => ok_or NotJson (row_to_string (access_log_row_from_observation event))) events with
  | Err e => rfail e
  | Ok rows =>
    if is_empty rows then rret tt
    else
      do* post_sql (INSERT_ROWS ++ join [LF] rows) in
      clear_read_cache
  end.
Definition insert_request (event : RequestObservation) : ch unit := insert_requests [event].
End client.

(** ** Rows *)

Section rows.
Context {J : JsonLib}.
Definition normalize_number_field (key : string) (object : Object) : Object :=
  match object !! lit key with
  | None => object
  | Some value =>
    match as_str value with
    | None => object
    | Some text =>
      match parse_uint U64_MAX text with
      | Some number => <[lit key := VNumber (PosInt number)]> object
      | None => match parse_f64 text with Some (Some x) => <[lit key := VNumber (Float x)]> object | _ => object end
      end
    end
  end.
Definition normalized_row_value (key : string) (row : Value) : Value :=
  match get (lit key) row with
  | None => Null
  | Some value =>
    match as_str value with
    | None => value
    | Some text =>
      match parse_uint U64_MAX text with
      | Some number => VNumber (PosInt number)
      | None => match parse_f64 text with Some (Some x) => VNumber (Float x) | _ => value end
      end
    end
  end.
Definition numeric_field (key : string) (row : Value) : Z :=
  match get (lit key) row with
  | None => 0
  | Some value => match as_u64 value with Some number => number | None => default 0 (as_str value ≫= parse_uint U64_MAX) end
  end.
Definition normalize_fields (keys : list string) (object : Object) : Object := foldl (fun object key => normalize_number_field key object) object keys.
Definition STATS_NUMBERS : list string :=
  ["requests_total"; "responses_2xx"; "responses_3xx"; "responses_4xx"; "responses_5xx"; "average_latency_ms"; "total_bytes_sent";
   "total_bytes_received"; "total_bandwidth"; "unique_ips"; "last_status"; "last_seen_unix_ms"].
Definition STATS_LISTS : list string := ["top_countries"; "top_continents"; "top_paths"; "top_upstreams"; "top_regions"; "top_cities"].
Definition or_insert_empty (object : Object) (key : string) : Object :=
  match object !! lit key with Some _ => object | None => <[lit key := VArray []]> object end.
Definition add_empty_stats_lists (value : Value) : Value :=
  match value with
  | VObject object => VObject (foldl or_insert_empty (normalize_fields STATS_NUMBERS object) STATS_LISTS)
  | _ => value
  end.
Definition stats_row_domain (row : Value) : option rstr :=
  match get (lit "domain") row ≫= as_str with Some value => if is_empty value then None else Some value | None => None end.
(** The lists of every domain, by their names. *)
Definition collect_row (key : string) (lists : gmap rstr Object) (row : Value) : gmap rstr Object :=
  match stats_row_domain row with
  | None => lists
  | Some domain =>
    let row := match row with VObject object => VObject (normalize_number_field "count" (delete (lit "domain") object)) | _ => row end in
    let domain_lists := default ∅ (lists !! domain) in
    let entry := default (VArray []) (domain_lists !! lit key) in
    let entry := match entry with VArray values => VArray (values ++ [row]) | _ => entry end in
    <[domain := <[lit key := entry]> domain_lists]> lists
  end.
Definition collect_domain_list (key : string) (rows : list Value) (lists : gmap rstr Object) : gmap rstr Object := foldl (collect_row key) lists rows.
Definition rollup_lists (top_countries top_continents top_regions top_cities : list Value) : gmap rstr Object :=
  collect_domain_list "top_cities" top_cities (collect_domain_list "top_regions" top_regions
    (collect_domain_list "top_continents" top_continents (collect_domain_list "top_countries" top_countries ∅))).
(** The first row of a domain takes its lists. *)
Fixpoint give_lists (lists : gmap rstr Object) (rows : list Value) : list Value :=
  match rows with
  | [] => []
  | row :: rows =>
    match stats_row_domain row, row with
    | Some domain, VObject object =>
      match lists !! domain with
      | Some domain_lists => VObject (domain_lists ∪ object) :: give_lists (delete domain lists) rows
      | None => row :: give_lists lists rows
      end
    | _, _ => row :: give_lists lists rows
    end
  end.
Definition normalize_bandwidth_row (row : Value) : Value :=
  match row with
  | VObject object => VObject (normalize_fields ["bytes_sent"; "bytes_received"; "total_bandwidth"; "request_count"] object)
  | _ => row
  end.
Definition object_of (fields : list (string * Value)) : Value := VObject (list_to_map (map (fun kv => (lit (fst kv), snd kv)) fields)).
Definition access_log_row_to_visit (row : Value) : Value :=
  let location := object_of [
    ("country_code", get_or_null "country_code" row); ("country_name", get_or_null "country_name" row);
    ("continent_code", get_or_null "continent_code" row); ("continent_name", get_or_null "continent_name" row);
    ("region", get_or_null "region" row); ("city", get_or_null "city" row);
    ("source", default (VString (lit "unknown")) (get (lit "geo_source") row)) ]%string in
  object_of [
    ("request_id", get_or_null "request_id" row); ("domain", get_or_null "domain" row); ("method", get_or_null "method" row);
    ("path", get_or_null "path" row); ("status", normalized_row_value "status" row); ("latency_ms", normalized_row_value "latency_ms" row);
    ("upstream", get_or_null "upstream" row); ("remote_ip", get_or_null "remote_ip" row); ("location", location);
    ("timestamp_unix_ms", normalized_row_value "timestamp_unix_ms" row); ("bytes_sent", normalized_row_value "bytes_sent" row);
    ("bytes_received", normalized_row_value "bytes_received" row) ]%string.

Record BandwidthUsage := {
  bw_domain : rstr; bw_period : rstr; bw_bytes_sent : Z; bw_bytes_received : Z; bw_total_bandwidth : Z; bw_request_count : Z }.
(** [serde_json::from_value]: a struct is read from an object with all its fields,
    or from an array of them in their order. *)
Definition usage_of (fields : list (option Value)) : option BandwidthUsage :=
  match fields with
  | [Some (VString domain); Some (VString period); Some sent; Some received; Some total; Some count] =>
    match as_u64 sent, as_u64 received, as_u64 total, as_u64 count with
    | Some sent, Some received, Some total, Some count => Some {|
        bw_domain := domain; bw_period := period; bw_bytes_sent := sent; bw_bytes_received := received; bw_total_bandwidth := total; bw_request_count := count |}
    | _, _, _, _ => None
    end
  | _ => None
  end.
Definition usage_from_value (row : Value) : option BandwidthUsage :=
  match row with
  | VObject _ => usage_of (map (fun key => get (lit key) row) ["domain"; "period"; "bytes_sent"; "bytes_received"; "total_bandwidth"; "request_count"])
  | VArray l => usage_of (map Some l)
  | _ => None
  end.
End rows.

(** ** Readers *)

(** Dates are numbers of days; [parse_date]: [NaiveDate::parse_from_str] with the
    format of a date, [show_date]: its [Display], [from_ymd_opt]: the date of a year,
    month and day. *)
Class ChronoLib := {
  parse_date : rstr -> option Z;
  show_date : Z -> rstr;
  from_ymd_opt : Z -> Z -> Z -> option Z;
}.

Section readers.
Context {J : JsonLib} {D : ChronoLib} (env : rstr -> option rstr).

Definition stats_rollup_days : Z :=
  match env (lit "PXXL_STATS_ROLLUP_DAYS") ≫= parse_uint U32_MAX with
  | Some days => if 0 <? days then days else CLICKHOUSE_ROLLUP_DEFAULT_DAYS
  | None => CLICKHOUSE_ROLLUP_DEFAULT_DAYS
  end.
Definition set_list (key : string) (rows : list Value) (object : Object) : Object := <[lit key := VArray rows]> object.
Definition add_domain_stats_lists (stats : Value) (domain : rstr) : ch Value :=
  match add_empty_stats_lists stats with
  | VObject object =>
    let domain_sql := clickhouse_string_literal domain in
    let* top_countries := query_json_cached (top_countries_query domain_sql) in
    let* top_continents := query_json_cached (top_continents_query domain_sql) in
    let* top_paths := query_json_cached (top_paths_query domain_sql) in
    let* top_upstreams := query_json_cached (top_upstreams_query domain_sql) in
    rret (VObject (set_list "top_upstreams" top_upstreams (set_list "top_paths" top_paths
           (set_list "top_continents" top_continents (set_list "top_countries" top_countries object)))))
  | stats => rret stats
  end.
(** [rows.pop()] takes the last row. *)
Definition get_domain_stats_snapshot (domain : rstr) : ch (option Value) :=
  let* rows := query_json_cached (domain_stats_query (clickhouse_string_literal domain)) in
  match last rows with
  | None => rret None
  | Some stats => let* stats := add_domain_stats_lists stats domain in rret (Some stats)
  end.
Definition add_rollup_stats_lists_bulk (stats_rows : list Value) (days : Z) : ch (list Value) :=
  let stats_rows := map add_empty_stats_lists stats_rows in
  let domains := take CLICKHOUSE_ROLLUP_LIST_DOMAIN_LIMIT (omap stats_row_domain stats_rows) in
  if is_empty domains then rret stats_rows
  else
    let domain_sql := literals domains in
    let* top_countries := query_json_cached (rollup_countries_query domain_sql days) in
    let* top_continents := query_json_cached (rollup_continents_query domain_sql days) in
    let* top_regions := query_json_cached (rollup_regions_query domain_sql days) in
    let* top_cities := query_json_cached (rollup_cities_query domain_sql days) in
    rret (give_lists (rollup_lists top_countries top_continents top_regions top_cities) stats_rows).
Definition get_domain_stats_snapshots_from_rollup (limit : Z) (domain_filter : option rstr) : ch (list Value) :=
  let days := stats_rollup_days in
  let* rows := query_json_cached (stats_rollup_query (rollup_where domain_filter days) limit) in
  if is_empty rows then rret rows else add_rollup_stats_lists_bulk rows days.
Definition clamp (lo hi x : Z) : Z := Z.min (Z.max x lo) hi.
Definition get_domain_stats_snapshots_filtered (limit : Z) (domains : option (list rstr)) : ch (list Value) := fun s =>
  let limit := clamp 1 50000 limit in
  let domain_filter := domains ≫= clickhouse_domain_filter in
  match get_domain_stats_snapshots_from_rollup limit domain_filter s with
  | (s, Ok (row :: rows)) => (s, Ok (row :: rows))
  | (s, _) =>
    (let* rows := query_json_cached (stats_raw_query (raw_where domain_filter) limit) in
     rret (map add_empty_stats_lists rows)) s
  end.
Definition get_domain_stats_snapshots (limit : Z) : ch (list Value) := get_domain_stats_snapshots_filtered limit None.
Definition get_domain_stats_snapshots_for_domains (domains : list rstr) (limit : Z) : ch (list Value) :=
  get_domain_stats_snapshots_filtered limit (Some domains).
Definition get_recent_visits (domain request_id : option rstr) (limit : Z) : ch (list Value) :=
  let limit := clamp 1 5000 limit in
  let* rows := query_json_cached (recent_visits_query (visits_where domain request_id) limit) in
  rret (map access_log_row_to_visit rows).

Definition parse_usage (row : Value) : result ClickHouseError BandwidthUsage := ok_or NotJson (usage_from_value (normalize_bandwidth_row row)).
Definition get_bandwidth_usage (domain : rstr) (start_timestamp end_timestamp : Z) : ch BandwidthUsage :=
  let* result := query_json_cached (bandwidth_usage_query (clickhouse_string_literal domain) start_timestamp end_timestamp) in
  fun s => (s,
    match result with
    | [] => Ok {| bw_domain := domain; bw_period := to_dec start_timestamp ++ lit "-" ++ to_dec end_timestamp; bw_bytes_sent := 0; bw_bytes_received := 0;
                  bw_total_bandwidth := 0; bw_request_count := 0 |}
    | row :: _ => parse_usage row
    end).
Definition get_bandwidth_history (domain : rstr) (months : Z) : ch (list BandwidthUsage) :=
  let* result := query_json_cached (bandwidth_history_query (clickhouse_string_literal domain) months) in
  fun s => (s, collect_results parse_usage result).
Definition get_bandwidth_realtime (domain : rstr) (hours : Z) : ch (list BandwidthUsage) :=
  let* result := query_json_cached (bandwidth_realtime_query (clickhouse_string_literal domain) hours) in
  fun s => (s, collect_results parse_usage result).

(** ** The backfill of the daily totals *)

Definition date_field (key : string) (row : Value) : option Z := (get (lit key) row ≫= as_str) ≫= parse_date.
Definition day_sql (day : Z) : rstr := clickhouse_string_literal (show_date day).
Definition count_positive (rows : list Value) : bool := match rows with row :: _ => 0 <? numeric_field "count" row | [] => false end.
Definition rollup_day_already_backfilled (day : Z) : ch bool :=
  let* rows := query_json (backfilled_query (day_sql day)) in rret (count_positive rows).
Definition rollup_day_has_rows (day : Z) : ch bool :=
  let* rows := query_json (rollup_rows_query (day_sql day)) in rret (count_positive rows).
Definition mark_rollup_day_backfilled (day : Z) : ch unit := post_sql (mark_day_statement (day_sql day)).
(** One round of the loop. *)
Definition backfill_day (day : Z) : ch unit :=
  let* done := rollup_day_already_backfilled day in
  if done : bool then rret tt
  else
    let* rows := rollup_day_has_rows day in
    if rows : bool then mark_rollup_day_backfilled day
    else
      do* post_sql (backfill_day_statement (day_sql day)) in
      do* mark_rollup_day_backfilled day in
      clear_read_cache.
(** [while day <= max_day]; every round takes one day. *)
Fixpoint backfill_from (fuel : nat) (day max_day : Z) : ch unit :=
  if max_day <? day then rret tt
  else
    match fuel with
    | O => rret tt
    | S fuel => do* backfill_day day in backfill_from fuel (day + 1) max_day
    end.
Definition backfill_access_rollup_days : ch unit :=
  let* range_rows := query_json backfill_range_query in
  match range_rows with
  | [] => rret tt
  | range :: _ =>
    if numeric_field "raw_rows" range =? 0 then rret tt
    else
      match date_field "min_day" range, date_field "max_day" range with
      | Some min_day, Some max_day =>
        if max_day <? min_day then rret tt else backfill_from (Z.to_nat (max_day - min_day + 1)) min_day max_day
      | _, _ => rret tt
      end
  end.
End readers.

(** ** The bandwidth quota *)

Record BandwidthQuota := {
  bq_domain : rstr; bq_current_month : rstr; bq_bytes_used : Z; bq_bytes_limit : option Z; bq_percentage_used : Z; bq_reset_date : rstr; bq_exceeded : bool }.
Section quota.
Context {D : ChronoLib}.
(** The date of the next reset; [None] is a panic of [unwrap]. *)
Definition next_reset (year month day reset_day : Z) : option Z :=
  let fallback := from_ymd_opt year month 1 in
  if reset_day <=? day then
    match (if month =? 12 then from_ymd_opt (year + 1) 1 reset_day else from_ymd_opt year (month + 1) reset_day) with Some date => Some date | None => fallback end
  else match from_ymd_opt year month reset_day with Some date => Some date | None => fallback end.
Definition percentage_used (bytes_used : Z) (bytes_limit : option Z) : Z :=
  match bytes_limit with
  | Some limit => if 0 <? limit then f64_mul (f64_div (f64_of_int bytes_used) (f64_of_int limit)) (f64_of_int 100) else 0
  | None => 0
  end.
Definition calculate_bandwidth_quota (now : Z * Z * Z) (bytes_used : Z) (bytes_limit : option Z) (reset_day : Z) : option BandwidthQuota :=
  let '(year, month, day) := now in
  match next_reset year month day reset_day with
  | None => None
  | Some next_reset => Some {|
      bq_domain := []; bq_current_month := to_dec year ++ lit "-" ++ zero_pad 2 (to_dec month); bq_bytes_used := bytes_used; bq_bytes_limit := bytes_limit;
      bq_percentage_used := percentage_used bytes_used bytes_limit; bq_reset_date := show_date next_reset ++ lit "T00:00:00Z";
      bq_exceeded := match bytes_limit with Some limit => limit <=? bytes_used | None => false end |}
  end.
End quota.

(** ** The endpoint *)

Record ClickHouseEndpoint := { ep_uri : rstr; ep_authorization : option rstr }.
Section endpoint.
(** [without_credentials]: the text of the URL after [set_username] and
    [set_password], [uri_parse]: [Uri], [base64]: the standard alphabet. *)
Context {UL : UrlLib} (without_credentials : Url -> rstr) (uri_parse : rstr -> option rstr) (base64 : rstr -> rstr).
Definition endpoint_parse (raw : rstr) : result ClickHouseError ClickHouseEndpoint :=
  match url_parse raw with
  | Err _ => Err BadUrl
  | Ok parsed =>
    let authorization :=
      if is_empty (url_username parsed) then None
      else Some (lit "Basic " ++ base64 (url_username parsed ++ lit ":" ++ default [] (url_password parsed))) in
    let? uri := ok_or BadUrl (uri_parse (without_credentials parsed)) in
    Ok {| ep_uri := uri; ep_authorization := authorization |}
  end.
End endpoint.

(** ** The cache: theorems *)

Inductive cache_op := Get (now : Z) (key : rstr) | Insert (now : Z) (key : rstr) (rows : list Value) | Clear.
Definition cache_step (c : QueryCache) (op : cache_op) : QueryCache :=
  match op with
  | Get now key => fst (cache_get now key c)
  | Insert now key rows => cache_insert now key rows c
  | Clear => cache_clear c
  end.
Definition cache_after (ops : list cache_op) : QueryCache := foldl cache_step QueryCache_default ops.
(** The reference: the last result stored for a query since the cache was cleared. *)
Definition stored_step (key : rstr) (stored : option (Z * list Value)) (op : cache_op) : option (Z * list Value) :=
  match op with
  | Get _ _ => stored
  | Insert now k rows => if k =s? key then Some (now, rows) else stored
  | Clear => None
  end.
Definition last_stored (key : rstr) (ops : list cache_op) : option (Z * list Value) := foldl (stored_step key) None ops.
Definition op_time (op : cache_op) : option Z := match op with Get now _ | Insert now _ _ => Some now | Clear => None end.
Definition fresh (now t : Z) : Prop := now - t <= from_secs CLICKHOUSE_READ_CACHE_TTL_SECONDS.
Definition inserted_keys (ops : list cache_op) : gset rstr := list_to_set (omap (fun op => match op with Insert _ key _ => Some key | _ => None end) ops).

Lemma evict_oldest_spec order : forall entries,
  (forall k, is_Some (entries !! k) -> k ∈ order) ->
  let c := evict_oldest entries order in
  (size (qc_entries c) <= CLICKHOUSE_READ_CACHE_MAX_ENTRIES)%nat /\ qc_entries c ⊆ entries /\ (forall k, is_Some (qc_entries c !! k) -> k ∈ qc_order c) /\
  ((size entries <= CLICKHOUSE_READ_CACHE_MAX_ENTRIES)%nat -> qc_entries c = entries).
Proof.
  induction order as [|oldest order IH]; intros entries Hk; cbn [evict_oldest].
  - assert (entries = ∅) as ->.
    { apply map_empty. intros k. destruct (entries !! k) eqn:E; [|done]. exfalso. by eapply elem_of_nil, Hk; rewrite E. }
    rewrite map_size_empty. change (CLICKHOUSE_READ_CACHE_MAX_ENTRIES <? 0)%nat with false. cbn [qc_entries qc_order].
    split_and!; [rewrite map_size_empty; lia|done| |done]. intros k [? Hx]. by rewrite lookup_empty in Hx.
  - destruct (Nat.ltb_spec CLICKHOUSE_READ_CACHE_MAX_ENTRIES (size entries)) as [Hlt|Hle]; [|by cbn].
    destruct (IH (delete oldest entries)) as (H1 & H2 & H3 & H4).
    { intros k [x Hx]. apply lookup_delete_Some in Hx as [Hne Hx]. destruct (proj1 (elem_of_cons _ _ _) (Hk k (mk_is_Some _ _ Hx))); [congruence|done]. }
    split_and!; [done| |done|lia]. etrans; [done|]. apply delete_subseteq.
Qed.

(** What the cache holds was stored since the last [clear]; its keys are queued. *)
Record cache_ok (ops : list cache_op) (c : QueryCache) : Prop := {
  co_size : (size (qc_entries c) <= CLICKHOUSE_READ_CACHE_MAX_ENTRIES)%nat;
  co_queued : forall k, is_Some (qc_entries c !! k) -> k ∈ qc_order c;
  co_stored : forall k e, qc_entries c !! k = Some e -> last_stored k ops = Some (qe_created_at e, qe_rows e);
}.
Lemma last_stored_snoc key ops op : last_stored key (ops ++ [op]) = stored_step key (last_stored key ops) op.
Proof. unfold last_stored. by rewrite foldl_app. Qed.
Lemma cache_get_entries now key c :
  qc_entries (fst (cache_get now key c)) = qc_entries c \/
  qc_entries (fst (cache_get now key c)) = delete key (qc_entries c) /\ exists e, qc_entries c !! key = Some e /\ ~ fresh now (qe_created_at e).
Proof.
  unfold cache_get, fresh. destruct (qc_entries c !! key) as [e|] eqn:E; [|by left]. case_match; [right|by left].
  split; [done|]. exists e. split; [done|]. assert (0 <= from_secs CLICKHOUSE_READ_CACHE_TTL_SECONDS) by by vm_compute. lia.
Qed.
Lemma cache_get_order now key c : qc_order (fst (cache_get now key c)) = qc_order c.
Proof. unfold cache_get. by repeat case_match. Qed.
Lemma cache_default_ok ops : cache_ok ops QueryCache_default.
Proof. split; cbn [qc_entries QueryCache_default]; [rewrite map_size_empty; lia|..]; intros k; rewrite lookup_empty; [by intros []|done]. Qed.
Lemma cache_step_ok ops c op : cache_ok ops c -> cache_ok (ops ++ [op]) (cache_step c op).
Proof.
  intros [Hs Hq Hst]. destruct op as [now key|now key rows|]; cbn [cache_step].
  - destruct (cache_get_entries now key c) as [He|[He _]]; split; rewrite ?cache_get_order, ?He; try setoid_rewrite last_stored_snoc; cbn [stored_step]; try done.
    + etrans; [apply map_subseteq_size, delete_subseteq|done].
    + intros k [x Hx]. apply lookup_delete_Some in Hx as [_ Hx]. by eapply Hq.
    + intros k e Hk. apply lookup_delete_Some in Hk as [_ Hk]. by apply Hst.
  - unfold cache_insert. set (order := if bool_decide _ then _ else _).
    destruct (evict_oldest_spec order (<[key:={| qe_created_at := now; qe_rows := rows |}]> (qc_entries c))) as (H1 & H2 & H3 & _).
    { intros k [x Hx]. unfold order. apply lookup_insert_Some in Hx as [[<- _]|[Hne Hx]].
      - case_bool_decide; [by apply Hq|]. apply elem_of_app. right. by left.
      - case_bool_decide; [|apply elem_of_app; left]; by eapply Hq. }
    split; [done|done|]. intros k e He. rewrite last_stored_snoc. cbn [stored_step]. eapply lookup_weaken in He; [|exact H2].
    apply lookup_insert_Some in He as [[<- <-]|[Hne He]]; [by rewrite seqb_refl|]. rewrite (proj2 (seqb_false key k)) by done. by apply Hst.
  - apply cache_default_ok.
Qed.
Lemma cache_after_ok ops : cache_ok ops (cache_after ops).
Proof.
  induction ops as [|op ops IH] using rev_ind; [apply cache_default_ok|].
  unfold cache_after. rewrite foldl_app. by apply cache_step_ok.
Qed.
Lemma inserted_snoc ops op :
  inserted_keys (ops ++ [op]) = inserted_keys ops ∪ match op with Insert _ key _ => {[key]} | _ => ∅ end.
Proof. unfold inserted_keys. rewrite omap_app, list_to_set_app_L. destruct op; cbn; set_solver. Qed.
Lemma stored_inserted key ops x : last_stored key ops = Some x -> key ∈ inserted_keys ops.
Proof.
  induction ops as [|op ops IH] using rev_ind; [done|]. rewrite last_stored_snoc, inserted_snoc. destruct op as [| now k rows|]; cbn [stored_step]; [set_solver| |done].
  destruct (k =s? key) eqn:E; [apply seqb_true in E as ->; set_solver|set_solver].
Qed.
(** As long as there are no more different queries than places nothing is evicted:
    a result that was stored is there or has been seen to be too old. *)
Definition cache_full (ops : list cache_op) (c : QueryCache) : Prop :=
  forall key t rows, last_stored key ops = Some (t, rows) ->
    qc_entries c !! key = Some {| qe_created_at := t; qe_rows := rows |} \/ exists now, now ∈ omap op_time ops /\ ~ fresh now t.
Lemma cache_step_full ops c op :
  cache_ok ops c -> (size (inserted_keys (ops ++ [op])) <= CLICKHOUSE_READ_CACHE_MAX_ENTRIES)%nat ->
  cache_full ops c -> cache_full (ops ++ [op]) (cache_step c op).
Proof.
  intros Hok Hsz Hc key t rows. rewrite last_stored_snoc, omap_app. destruct op as [now k|now k rs|]; cbn [stored_step cache_step]; [| |done].
  - intros H. destruct (Hc _ _ _ H) as [He|(n & Hn & Hf)]; [|right; exists n; set_solver].
    destruct (cache_get_entries now k c) as [->|[-> (e & Hk & Hf)]]; [by left|]. destruct (decide (k = key)) as [->|Hne].
    + rewrite Hk in He. injection He as ->. right. exists now. cbn. set_solver.
    + left. by rewrite lookup_delete_ne.
  - assert (qc_entries (cache_insert now k rs c) = <[k := {| qe_created_at := now; qe_rows := rs |}]> (qc_entries c)) as ->.
    { unfold cache_insert. apply evict_oldest_spec.
      - intros k' [x Hx]. apply lookup_insert_Some in Hx as [[<- _]|[Hne Hx]].
        + case_bool_decide; [by apply Hok|]. apply elem_of_app. right. by left.
        + case_bool_decide; [|apply elem_of_app; left]; by eapply Hok.
      - etrans; [|exact Hsz]. rewrite <- size_dom. apply subseteq_size. intros k'. rewrite elem_of_dom, inserted_snoc.
        intros [x Hx]. apply lookup_insert_Some in Hx as [[<- _]|[Hne Hx]]; [set_solver|]. apply elem_of_union_l. eapply stored_inserted, Hok, Hx. }
    destruct (k =s? key) eqn:E.
    + apply seqb_true in E as ->. intros [= <- <-]. left. apply lookup_insert_eq.
    + apply seqb_false in E. intros H. destruct (Hc _ _ _ H) as [He|(n & Hn & Hf)]; [left; by rewrite lookup_insert_ne|right; exists n; set_solver].
Qed.
Lemma cache_after_full ops :
  (size (inserted_keys ops) <= CLICKHOUSE_READ_CACHE_MAX_ENTRIES)%nat -> cache_full ops (cache_after ops).
Proof.
  induction ops as [|op ops IH] using rev_ind; [by intros _ key t rows|]. intros Hsz.
  assert (size (inserted_keys ops) <= CLICKHOUSE_READ_CACHE_MAX_ENTRIES)%nat as Hsz'.
  { etrans; [|exact Hsz]. apply subseteq_size. rewrite inserted_snoc. set_solver. }
  unfold cache_after. rewrite foldl_app. apply cache_step_full; [apply cache_after_ok|done|by apply IH].
Qed.

(** The cache of query results answers with the last result that was stored for
    the same query since it was cleared, never one older than thirty seconds, and
    holds at most 256 results, whatever it was used for.  As long as no more than 256
    different queries were stored it answers exactly when there is such a result. *)
Theorem query_cache_exact ops now key :
  let c := cache_after ops in
  (size (qc_entries c) <= 256)%nat /\
  (forall rows, snd (cache_get now key c) = Some rows -> exists t, last_stored key ops = Some (t, rows) /\ fresh now t) /\
  ((size (inserted_keys ops) <= 256)%nat -> Forall (fun t => t <= now) (omap op_time ops) ->
   forall rows, snd (cache_get now key c) = Some rows <-> exists t, last_stored key ops = Some (t, rows) /\ fresh now t).
Proof.
  intros c. destruct (cache_after_ok ops) as [Hs Hq Hst]. fold c in Hs, Hq, Hst.
  assert (0 <= from_secs CLICKHOUSE_READ_CACHE_TTL_SECONDS) as Httl by by vm_compute.
  assert (forall rows, snd (cache_get now key c) = Some rows -> exists t, last_stored key ops = Some (t, rows) /\ fresh now t) as Hsound.
  { unfold cache_get, fresh. intros rows. destruct (qc_entries c !! key) as [e|] eqn:E; [|done]. case_match; [done|]. cbn [snd]. intros [= <-].
    exists (qe_created_at e). split; [by apply Hst|lia]. }
  split_and!; [done|done|]. intros Hsz Ht rows. split; [apply Hsound|]. intros (t & Hl & Hf).
  destruct (cache_after_full ops Hsz _ _ _ Hl) as [He|(n & Hn & Hnf)].
  - unfold cache_get. fold c in He. rewrite He. cbn [qe_created_at qe_rows]. case_match; [unfold fresh in Hf; lia|done].
  - rewrite Forall_forall in Ht. specialize (Ht n Hn). unfold fresh in *. lia.
Qed.

(** ** The lists of the domains: theorems *)

Section lists.
Context {J : JsonLib}.
(** The rows of an answer that are about a domain, as they are listed. *)
Definition list_row (row : Value) : Value :=
  match row with VObject object => VObject (normalize_number_field "count" (delete (lit "domain") object)) | _ => row end.
Definition list_rows (domain : rstr) (answer : list Value) : list Value :=
  map list_row (filter (fun row => stats_row_domain row = Some domain) answer).
Definition list_of (lists : gmap rstr Object) (domain key : rstr) : option Value := lists !! domain ≫= fun m => m !! key.
Definition listed (old : option Value) (rows : list Value) : option Value :=
  if is_empty rows then old else Some (VArray (match old with Some (VArray l) => l | _ => [] end ++ rows)).
Definition no_other (v : option Value) : Prop := match v with None | Some (VArray _) => True | _ => False end.

Lemma list_rows_snoc domain answer row :
  list_rows domain (answer ++ [row]) = list_rows domain answer ++ (if bool_decide (stats_row_domain row = Some domain) then [list_row row] else []).
Proof. unfold list_rows. rewrite filter_app, map_app. f_equal. rewrite filter_cons, filter_nil. by repeat case_decide; case_bool_decide. Qed.
Lemma collect_list key rows lists domain k :
  no_other (list_of lists domain (lit key)) ->
  list_of (collect_domain_list key rows lists) domain k =
  if k =s? lit key then listed (list_of lists domain k) (list_rows domain rows) else list_of lists domain k.
Proof.
  intros Hn. unfold collect_domain_list. induction rows as [|row rows IH] using rev_ind; [cbn; by destruct (k =s? lit key)|].
  rewrite foldl_app, list_rows_snoc. cbn [foldl]. unfold collect_row at 1.
  destruct (stats_row_domain row) as [d|] eqn:Ed; [|by rewrite bool_decide_eq_false_2, app_nil_r].
  unfold list_of at 1. fold (list_row row). set (lists' := foldl _ _ rows) in *. destruct (decide (d = domain)) as [->|Hne].
  - rewrite lookup_insert_eq, bool_decide_eq_true_2 by done. cbn [option_bind mbind].
    assert (forall k, default ∅ (lists' !! domain) !! k = list_of lists' domain k) as Hd.
    { intros k'. unfold list_of. destruct (lists' !! domain); [done|]. cbn. by rewrite lookup_empty. }
    rewrite Hd. destruct (k =s? lit key) eqn:Ek.
    + apply seqb_true in Ek as ->. rewrite lookup_insert_eq. rewrite IH. clear IH Hd. destruct (list_of lists domain (lit key)) as [v|];
        [destruct v; try done|]; destruct (list_rows domain rows) as [|r rs]; cbn; try done; by rewrite <- ?app_assoc.
    + apply seqb_false in Ek. rewrite lookup_insert_ne by congruence. by rewrite Hd.
  - rewrite lookup_insert_ne, bool_decide_eq_false_2, app_nil_r by congruence. done.
Qed.
(** The answer a list is made of. *)
Definition own_answer (countries continents regions cities : list Value) (key : rstr) : list Value :=
  if key =s? lit "top_countries" then countries else if key =s? lit "top_continents" then continents
  else if key =s? lit "top_regions" then regions else if key =s? lit "top_cities" then cities else [].
Lemma rollup_lists_own countries continents regions cities domain key :
  list_of (rollup_lists countries continents regions cities) domain key = listed None (list_rows domain (own_answer countries continents regions cities key)).
Proof.
  assert (forall k, list_of ∅ domain k = None) as He by (intros; unfold list_of; by rewrite lookup_empty).
  unfold rollup_lists, own_answer. repeat (rewrite collect_list; rewrite ?He); try done.
  destruct (key =s? lit "top_countries") eqn:E1; [apply seqb_true in E1 as ->; done|].
  destruct (key =s? lit "top_continents") eqn:E2; [apply seqb_true in E2 as ->; done|].
  destruct (key =s? lit "top_regions") eqn:E3; [apply seqb_true in E3 as ->; done|].
  by destruct (key =s? lit "top_cities") eqn:E4.
Qed.

Lemma get_untouched_number key k object : k <> lit key -> normalize_number_field key object !! k = object !! k.
Proof. intros Hk. unfold normalize_number_field. repeat case_match; rewrite ?lookup_insert_ne by congruence; done. Qed.
Lemma get_untouched_numbers keys k : forall object, Forall (fun key => k <> lit key) keys -> normalize_fields keys object !! k = object !! k.
Proof.
  induction keys as [|key keys IH]; intros object H; [done|]. apply Forall_cons in H as [Hk H]. unfold normalize_fields in *. cbn [foldl].
  rewrite IH by done. by apply get_untouched_number.
Qed.
Lemma get_untouched_lists keys k : forall object, Forall (fun key => k <> lit key) keys -> foldl or_insert_empty object keys !! k = object !! k.
Proof.
  induction keys as [|key keys IH]; intros object H; [done|]. apply Forall_cons in H as [Hk H]. cbn [foldl]. rewrite IH by done.
  unfold or_insert_empty. case_match; [done|]. by rewrite lookup_insert_ne.
Qed.
Lemma get_list keys k : forall object, k ∈ keys -> is_Some (foldl or_insert_empty object keys !! lit k).
Proof.
  assert (forall keys object, is_Some (object !! lit k) -> is_Some (foldl or_insert_empty object keys !! lit k)) as Hkeep.
  { clear. induction keys as [|key keys IH]; intros object H; [done|]. cbn [foldl]. apply IH. unfold or_insert_empty. case_match; [done|].
    destruct (decide (lit key = lit k)) as [->|]; [rewrite lookup_insert_eq; by eexists|by rewrite lookup_insert_ne]. }
  induction keys as [|key keys IH]; intros object H; [by apply elem_of_nil in H|]. cbn [foldl]. apply elem_of_cons in H as [<-|H]; [|by apply IH].
  apply Hkeep. unfold or_insert_empty. case_match eqn:E; [rewrite E; by eexists|rewrite lookup_insert_eq; by eexists].
Qed.
Lemma row_domain_kept row : stats_row_domain (add_empty_stats_lists row) = stats_row_domain row.
Proof.
  destruct row; try done. unfold stats_row_domain. cbn [add_empty_stats_lists get].
  rewrite get_untouched_lists, get_untouched_numbers; [done|..]; repeat constructor; by vm_compute.
Qed.
Definition gives (lists : gmap rstr Object) (row row' : Value) : Prop :=
  match row with
  | VObject m => exists m', row' = VObject m' /\ forall key,
      m' !! key = match stats_row_domain row ≫= fun domain => list_of lists domain key with Some v => Some v | None => m !! key end
  | _ => row' = row
  end.
Lemma gives_none lists row : (forall key, stats_row_domain row ≫= (fun domain => list_of lists domain key) = None) -> gives lists row row.
Proof. intros H. destruct row; cbn [gives]; try done. eexists. split; [done|]. intros key. by rewrite H. Qed.
Lemma gives_delete d lists rows rows' : d ∉ omap stats_row_domain rows -> Forall2 (gives (delete d lists)) rows rows' -> Forall2 (gives lists) rows rows'.
Proof.
  intros Hd H. induction H as [|row row' rows rows' Hg H IH]; [done|]. cbn [omap list_omap] in Hd.
  assert (d ∉ omap stats_row_domain rows) as Hd' by (destruct (stats_row_domain row); set_solver). constructor; [|by apply IH].
  destruct row as [| | | | |m]; try done. destruct Hg as (m' & -> & Hg). exists m'. split; [done|]. intros key. rewrite Hg.
  destruct (stats_row_domain (VObject m)) as [d'|]; [|done]. cbn. unfold list_of. rewrite lookup_delete_ne; [done|set_solver].
Qed.
Lemma give_lists_own rows : forall lists, NoDup (omap stats_row_domain rows) -> Forall2 (gives lists) rows (give_lists lists rows).
Proof.
  induction rows as [|row rows IH]; intros lists Hnd; [done|]. cbn [give_lists]. cbn [omap list_omap] in Hnd.
  destruct (stats_row_domain row) as [d|] eqn:Ed; [|constructor; [apply gives_none; by rewrite Ed|by apply IH]].
  apply NoDup_cons in Hnd as [Hd Hnd]. destruct row as [| | | | |m]; try (constructor; [done|by apply IH]).
  destruct (lists !! d) as [own|] eqn:El.
  - constructor.
    + exists (own ∪ m). split; [done|]. intros key. rewrite Ed. cbn. unfold list_of. rewrite El. cbn. rewrite lookup_union. by destruct (own !! key), (m !! key).
    + apply (gives_delete d); [done|by apply IH].
  - constructor; [|by apply IH]. apply gives_none. intros key. rewrite Ed. cbn. unfold list_of. by rewrite El.
Qed.

Definition old_field (row : Value) (key : rstr) : option Value := get key (add_empty_stats_lists row).
(** Every row of the statistics gets the lists of its own domain and no other: a
    list has exactly the rows of its answer that are about the domain, in their
    order; a list without rows is empty, and everything else of the row stays. *)
Theorem rollup_lists_exact countries continents regions cities rows :
  NoDup (omap stats_row_domain rows) ->
  Forall2 (fun row row' =>
    match row with
    | VObject _ => exists m', row' = VObject m' /\ (forall key, key ∈ STATS_LISTS -> is_Some (m' !! lit key)) /\
        forall key, m' !! key =
          match stats_row_domain row with
          | Some domain => match list_rows domain (own_answer countries continents regions cities key) with [] => old_field row key | l => Some (VArray l) end
          | None => old_field row key
          end
    | _ => row' = row
    end) rows (give_lists (rollup_lists countries continents regions cities) (map add_empty_stats_lists rows)).
Proof.
  intros Hnd. assert (omap stats_row_domain (map add_empty_stats_lists rows) = omap stats_row_domain rows) as Hd.
  { clear. induction rows as [|row rows IH]; [done|]. cbn [map omap list_omap]. by rewrite row_domain_kept, IH. }
  pose proof (give_lists_own (map add_empty_stats_lists rows) (rollup_lists countries continents regions cities)) as Hg. rewrite Hd in Hg.
  specialize (Hg Hnd). apply (Forall2_fmap_l add_empty_stats_lists) in Hg. eapply Forall2_impl; [exact Hg|]. clear. intros row row' H. destruct row as [| | | | |m]; [exact H..|].
  destruct H as (m' & -> & Hk). exists m'.
  change (VObject (foldl or_insert_empty (normalize_fields STATS_NUMBERS m) STATS_LISTS)) with (add_empty_stats_lists (VObject m)) in Hk.
  assert (forall key, m' !! key =
          match stats_row_domain (VObject m) with
          | Some domain => match list_rows domain (own_answer countries continents regions cities key) with [] => old_field (VObject m) key | l => Some (VArray l) end
          | None => old_field (VObject m) key
          end) as Hkey.
  { intros key. rewrite Hk, row_domain_kept. unfold old_field. cbn [add_empty_stats_lists get]. generalize (foldl or_insert_empty (normalize_fields STATS_NUMBERS m) STATS_LISTS). intros old.
    destruct (stats_row_domain (VObject m)) as [d|]; [|reflexivity]. cbn [mbind option_bind]. rewrite rollup_lists_own. by destruct (list_rows d _). }
  split_and!; [reflexivity| |exact Hkey]. intros key Hin. rewrite Hkey. pose proof (get_list STATS_LISTS key (normalize_fields STATS_NUMBERS m) Hin) as Hs.
  destruct (stats_row_domain (VObject m)) as [d|]; [|exact Hs]. destruct (list_rows d _); [exact Hs|by eexists].
Qed.

(** ** Bandwidth: theorems *)

(** The bandwidth of a domain is shown only while there is none: the query selects
    no period, and a row without one is refused, so every domain with traffic in the
    time asked for ends in an error. *)
Theorem bandwidth_usage_needs_no_traffic domain start_timestamp end_timestamp s s' rows :
  query_json_cached (bandwidth_usage_query (clickhouse_string_literal domain) start_timestamp end_timestamp) s = (s', Ok rows) ->
  Forall (fun row => exists m, row = VObject m /\ m !! lit "period" = None) rows ->
  match snd (get_bandwidth_usage domain start_timestamp end_timestamp s) with
  | Ok usage => rows = [] /\ bw_domain usage = domain /\ bw_total_bandwidth usage = 0
  | Err e => rows <> [] /\ e = NotJson
  end.
Proof.
  intros Hq Hr. unfold get_bandwidth_usage, rbind. rewrite Hq. cbn [snd]. destruct rows as [|row rows]; [done|].
  apply Forall_cons in Hr as [(m & -> & Hm) _]. unfold parse_usage. cbn [normalize_bandwidth_row usage_from_value map get].
  assert (normalize_fields ["bytes_sent"; "bytes_received"; "total_bandwidth"; "request_count"] m !! lit "period" = None) as ->.
  { rewrite get_untouched_numbers; [done|]. repeat constructor; by vm_compute. }
  generalize (normalize_fields ["bytes_sent"; "bytes_received"; "total_bandwidth"; "request_count"] m). intros o. cbn [usage_of].
  destruct (o !! lit "domain") as [[]|]; cbn [ok_or]; (split; [intros [=]|reflexivity]).
Qed.
End lists.

(** The calendar: the days of a month follow each other, and the next month them. *)
Definition next_month (year month : Z) : Z * Z := if month =? 12 then (year + 1, 1) else (year, month + 1).
Class ChronoLaws (D : ChronoLib) : Prop := {
  month_days : forall year month, 1 <= month <= 12 -> exists first len, 28 <= len <= 31 /\
    (forall day, from_ymd_opt year month day = if bool_decide (1 <= day <= len) then Some (first + day - 1) else None) /\
    from_ymd_opt (fst (next_month year month)) (snd (next_month year month)) 1 = Some (first + len);
}.
(** The quota of a domain is exceeded exactly from its limit on, and for a reset
    day up to the 28th the date of the next reset is one of the next 31 days, with
    that day of the month.  A day that no month has makes it the first of the running
    month, which is not in the future. *)
Theorem bandwidth_quota_exact {D : ChronoLib} (L : ChronoLaws D) year month day today used limit reset_day :
  1 <= month <= 12 -> from_ymd_opt year month day = Some today ->
  exists quota date, calculate_bandwidth_quota (year, month, day) used limit reset_day = Some quota /\
    bq_reset_date quota = show_date date ++ lit "T00:00:00Z" /\ (bq_exceeded quota = true <-> exists l, limit = Some l /\ l <= used) /\
    (1 <= reset_day <= 28 -> today < date <= today + 31 /\
       (from_ymd_opt year month reset_day = Some date \/ from_ymd_opt (fst (next_month year month)) (snd (next_month year month)) reset_day = Some date)) /\
    (reset_day = 0 \/ 31 < reset_day -> date <= today).
Proof.
  intros Hm Ht. destruct (month_days year month Hm) as (first & len & Hlen & Hd & Hn).
  assert (1 <= snd (next_month year month) <= 12) as Hm2 by (unfold next_month; destruct (Z.eqb_spec month 12); cbn [snd]; lia).
  destruct (month_days (fst (next_month year month)) _ Hm2) as (first2 & len2 & Hlen2 & Hd2 & _). rewrite Hd2, bool_decide_eq_true_2 in Hn by lia. injection Hn as Hn.
  rewrite Hd in Ht. case_bool_decide as Hday; [injection Ht as <-|done].
  assert (exists date, next_reset year month day reset_day = Some date /\
    (1 <= reset_day <= 28 -> date = if reset_day <=? day then first2 + reset_day - 1 else first + reset_day - 1) /\ (reset_day = 0 \/ 31 < reset_day -> date = first))
    as (date & Hdate & Hin & Hout).
  { unfold next_reset. rewrite !Hd, (bool_decide_eq_true_2 (1 <= 1 <= len)) by lia.
    assert ((if month =? 12 then from_ymd_opt (year + 1) 1 reset_day else from_ymd_opt year (month + 1) reset_day) =
      from_ymd_opt (fst (next_month year month)) (snd (next_month year month)) reset_day) as -> by (unfold next_month; by destruct (month =? 12)).
    rewrite Hd2. repeat case_bool_decide; destruct (reset_day <=? day); eexists; (split; [reflexivity|split; intros; lia]). }
  unfold calculate_bandwidth_quota. rewrite Hdate. eexists _, date. split; [done|]. split; [done|]. cbn [bq_exceeded]. split_and!.
  - destruct limit as [l|]; [rewrite Z.leb_le; split; [by eexists|by intros (? & [= <-] & ?)]|]. split; [done|by intros (? & ? & _)].
  - intros Hr. rewrite (Hin Hr), Hd, Hd2, !bool_decide_eq_true_2 by lia. destruct (Z.leb_spec reset_day day); (split; [lia|auto]).
  - intros Hr. rewrite (Hout Hr). lia.
Qed.

(** ** The backfill: theorems *)

Section backfill.
Context {J : JsonLib} {D : ChronoLib}.
(** What a run may send for a day, in this order. *)
Definition day_statements (day : Z) : list rstr := [
  backfilled_query (day_sql day) ++ lit " FORMAT JSONEachRow"; rollup_rows_query (day_sql day) ++ lit " FORMAT JSONEachRow";
  backfill_day_statement (day_sql day); mark_day_statement (day_sql day) ].
(** The statements of [l], some of them perhaps not executed. *)
Definition sends {A} (m : ch A) (l : list rstr) : Prop :=
  forall s, exists sent, cl_log (fst (fst (m s))) = cl_log (fst s) ++ sent /\ sent `sublist_of` l.
Lemma sends_weaken {A} (m : ch A) l l' : sends m l -> l `sublist_of` l' -> sends m l'.
Proof. intros H Hl s. destruct (H s) as (sent & Hs & Hsub). exists sent. split; [done|]. by etrans. Qed.
Lemma sends_ret {A} (a : A) l : sends (rret a) l.
Proof. intros s. exists []. rewrite app_nil_r. split; [done|apply sublist_nil_l]. Qed.
Lemma sends_bind {A B} (m : ch A) (k : A -> ch B) l1 l2 : sends m l1 -> (forall a, sends (k a) l2) -> sends (rbind m k) (l1 ++ l2).
Proof.
  intros Hm Hk s. unfold rbind. destruct (Hm s) as (sent & Hs & Hsub). destruct (m s) as [s1 [a|e]]; cbn [fst] in Hs.
  - destruct (Hk a s1) as (sent2 & Hs2 & Hsub2). exists (sent ++ sent2). rewrite Hs2, Hs, app_assoc. split; [done|by apply sublist_app].
  - exists sent. split; [done|]. by apply sublist_inserts_r.
Qed.
Lemma sends_body sql : sends (post_body sql) [sql].
Proof.
  intros [c xs]. unfold post_body. cbn [fst cl_log]. destruct (ex_executed _); [by exists [sql]|]. exists []. rewrite app_nil_r.
  split; [done|apply sublist_nil_l].
Qed.
Lemma sends_post sql : sends (post_sql sql) [sql].
Proof. unfold post_sql. apply (sends_bind _ _ [sql] []); [apply sends_body|intros; apply sends_ret]. Qed.
Lemma sends_pure {A} (r : result ClickHouseError A) l : sends (fun s => (s, r)) l.
Proof. intros s. exists []. rewrite app_nil_r. split; [done|apply sublist_nil_l]. Qed.
Lemma sends_count sql : sends (let* rows := query_json sql in rret (count_positive rows)) [sql ++ lit " FORMAT JSONEachRow"].
Proof.
  apply (sends_bind _ _ [_] []); [|intros; apply sends_ret]. unfold query_json. apply (sends_bind _ _ [_] []); [apply sends_body|intros; apply sends_pure].
Qed.
Lemma sends_clear l : sends clear_read_cache l.
Proof. intros [c xs]. exists []. cbn. rewrite app_nil_r. split; [done|apply sublist_nil_l]. Qed.
Lemma sends_day day : sends (backfill_day day) (day_statements day).
Proof.
  unfold backfill_day, day_statements, rollup_day_already_backfilled, rollup_day_has_rows, mark_rollup_day_backfilled.
  apply (sends_bind _ _ [_]); [apply sends_count|]. intros [|]; [apply sends_ret|]. apply (sends_bind _ _ [_]); [apply sends_count|]. intros [|].
  - eapply sends_weaken; [apply sends_post|]. by repeat constructor.
  - apply (sends_bind _ _ [_]); [apply sends_post|]. intros _. apply (sends_bind _ _ [_] []); [apply sends_post|]. intros _. apply sends_clear.
Qed.

(** The backfill ends: the number of days is enough rounds.  In one run the server
    executes for every day at most one insertion of its totals and one mark, the mark
    last, and the days follow each other. *)
Theorem backfill_sends n day max_day :
  sends (backfill_from n day max_day) (flat_map day_statements (seqZ day (max_day - day + 1))) /\
  (forall s, (Z.to_nat (max_day - day + 1) <= n)%nat -> backfill_from n day max_day s = backfill_from (S n) day max_day s).
Proof.
  revert day. induction n as [|n IH]; intros day; cbn [backfill_from]; destruct (Z.ltb_spec max_day day) as [Hlt|Hge];
    try (split; [apply sends_ret|by intros]).
  - split; [apply sends_ret|]. intros s Hn. lia.
  - replace (max_day - day + 1) with (Z.succ (max_day - (day + 1) + 1)) by lia. destruct (IH (day + 1)) as [IH1 IH2]. split.
    + rewrite seqZ_cons by lia. cbn [flat_map]. rewrite Z.pred_succ. apply sends_bind; [apply sends_day|]. intros _. by replace (Z.succ day) with (day + 1) by lia.
    + intros s Hn. unfold rbind. destruct (backfill_day day s) as [s1 [|]]; [|done]. rewrite IH2 by lia. cbn [backfill_from].
      by destruct (max_day <? day + 1).
Qed.
End backfill.

(** ** Examples *)

Module StorageDemo.
(** A number is a value; the other rows have names. *)
Definition count_row (domain country : string) (count : string) : Value :=
  object_of [("domain", VString (lit domain)); ("code", VString (lit country)); ("count", VString (lit count))]%string.
Definition usage_row : Value :=
  object_of [("domain", VString (lit "a.io")); ("bytes_sent", VString (lit "7")); ("bytes_received", VString (lit "1")); ("total_bandwidth", VString (lit "8"));
             ("request_count", VString (lit "2"))]%string.
Definition yes_row : Value := object_of [("count", VString (lit "1"))]%string.
Definition no_row : Value := object_of [("count", VString (lit "0"))]%string.
#[export] Instance PlainJson : JsonLib := {|
  json_from_str s := if s =s? lit "usage" then Some usage_row else if s =s? lit "yes" then Some yes_row else if s =s? lit "no" then Some no_row
                     else (fun n => VNumber (PosInt n)) <$> parse_uint U64_MAX s;
  parse_f64 _ := None;
  row_to_string row := Some (filter (fun b => b <> LF) (al_request_id row)) |}.
Lemma ends_in_mark s t : last t <> Some (chr ">") -> (s ++ lit "<truncated>" =s? t) = false.
Proof. intros Ht. apply seqb_false. intros <-. apply Ht. by rewrite last_app. Qed.
Lemma mark_no_digits s : forall acc, parse_digits 10 U64_MAX acc (s ++ lit "<truncated>") = None.
Proof. induction s as [|b s IH]; intros acc; [done|]. cbn [app parse_digits]. by repeat case_match. Qed.
#[export] Instance PlainJsonLaws : JsonLaws PlainJson.
Proof.
  split.
  - intros s. cbn [json_from_str PlainJson]. rewrite !ends_in_mark by done. unfold parse_uint, from_str_radix.
    destruct s as [|b s]; [by vm_compute|]. cbn [app].
    pose proof (mark_no_digits s 0) as H1. pose proof (mark_no_digits (b :: s) 0) as H2. cbn [app] in H2.
    destruct (beq b _); [|by rewrite H2]. destruct (s ++ lit "<truncated>"); [done|by rewrite H1].
  - intros row. eexists. split; [done|]. intros H. by apply list_elem_of_filter in H as [H _].
Qed.

Definition answers (l : list string) : exchange := {|
  ex_started := 0; ex_executed := true; ex_answer := Response 200 [Data (join [LF] (lits l))]; ex_finished := 0 |}.
Definition new_client : Client := {| cl_log := []; cl_read_cache := QueryCache_default |}.

Definition rows : list Value := [object_of [("domain", VString (lit "a.io"))]%string; Null].
Lemma rollup_lists_exact_witness :
  length (give_lists (rollup_lists [count_row "a.io" "DE" "3"; count_row "b.io" "FR" "1"] [] [] []) (map add_empty_stats_lists rows)) = 2%nat.
Proof.
  rewrite <- (Forall2_length _ _ _ (rollup_lists_exact [count_row "a.io" "DE" "3"; count_row "b.io" "FR" "1"] [] [] [] rows
    ltac:(apply (bool_decide_unpack _); vm_compute; exact I))). reflexivity.
Defined.
(** A domain with traffic has no bandwidth to show. *)
Lemma bandwidth_usage_needs_no_traffic_witness :
  is_ok (snd (get_bandwidth_usage (lit "a.io") 0 9 (new_client, [answers ["usage"]]))) = false.
Proof.
  pose proof (bandwidth_usage_needs_no_traffic (lit "a.io") 0 9 (new_client, [answers ["usage"]]) _ [usage_row] eq_refl
    ltac:(repeat constructor; eexists; split; vm_compute; reflexivity)) as H. by destruct (snd _) as [u|e]; [destruct H|].
Defined.
Example usage_query_has_no_period :
  (contains (lit "period") (bandwidth_usage_query (lit "'a.io'") 0 9), contains (lit "period") (bandwidth_history_query (lit "'a.io'") 3)) = (false, true).
Proof. by vm_compute. Qed.
(** A result that is fetched again after it expired keeps its old place in the queue,
    so it is the first to go although it is the newest. *)
Definition other (i : nat) : cache_op := Insert (from_secs 40) (to_dec (Z.of_nat i)) [].
Definition refreshed : list cache_op :=
  [Insert 0 (lit "q") []] ++ map other (seq 0 255) ++ [Get (from_secs 40) (lit "q"); Insert (from_secs 40) (lit "q") []; other 255].
Example refreshed_result_evicted :
  (bool_decide (is_Some (qc_entries (cache_after refreshed) !! lit "q")), size (qc_entries (cache_after refreshed)), length (qc_order (cache_after refreshed))) = (false, 256%nat, 257%nat).
Proof. by vm_compute. Qed.
(** A day with any row in the daily table counts as filled: the rows the view added
    after it was created hide the ones before it. *)
#[export] Instance PlainDates : ChronoLib := {| parse_date := parse_uint 1000000; show_date := to_dec; from_ymd_opt y m d := if bool_decide (1 <= d <= 30) then Some (360 * y + 30 * m + d) else None |}.
Example partly_filled_day_skipped :
  (existsb (seq_eqb (backfill_day_statement (day_sql 5))) (cl_log (fst (fst (backfill_day 5 (new_client, [answers ["no"]; answers ["yes"]; answers []]))))),
   existsb (seq_eqb (mark_day_statement (day_sql 5))) (cl_log (fst (fst (backfill_day 5 (new_client, [answers ["no"]; answers ["yes"]; answers []]))))))
  = (false, true).
Proof. by vm_compute. Qed.
#[export] Instance PlainDatesLaws : ChronoLaws PlainDates.
Proof.
  split. intros year month Hm. exists (360 * year + 30 * month + 1), 30. split_and!; [lia|lia| |].
  - intros day. cbn [from_ymd_opt PlainDates]. case_bool_decide; [f_equal; lia|done].
  - cbn [from_ymd_opt PlainDates]. rewrite bool_decide_eq_true_2 by lia. f_equal. unfold next_month. destruct (Z.eqb_spec month 12); cbn [fst snd]; lia.
Qed.
Definition june_10 : Z := 360 * 2024 + 30 * 6 + 10.
Lemma bandwidth_quota_exact_witness :
  exists quota date, calculate_bandwidth_quota (2024, 6, 10) 5 (Some 5) 10 = Some quota /\ bq_reset_date quota = show_date date ++ lit "T00:00:00Z" /\
    june_10 < date /\ bq_exceeded quota = true.
Proof.
  destruct (bandwidth_quota_exact PlainDatesLaws 2024 6 10 june_10 5 (Some 5) 10 ltac:(lia) ltac:(vm_compute; reflexivity)) as (q & d & H1 & H2 & H3 & H4 & _).
  exists q, d. split_and!; [exact H1|exact H2|apply H4; lia|apply H3; exists 5; split; [reflexivity|lia]].
Defined.
(** A reset on the 31st is announced for the first of the running month. *)
Example reset_in_the_past : (next_reset 2024 6 10 31, next_reset 2024 6 10 0) = (Some (june_10 - 9), Some (june_10 - 9)).
Proof. by vm_compute. Qed.
End StorageDemo.
