(* ===== verification/AnalyticsWriter.v ===== *)
(** * The writer of request analytics ([storage/src/lib.rs], [core/src/lib.rs])

    The way of an observation from the queue of the statistics to the database: the
    writer's buffer, its batches with one repetition, the spool directory for batches
    the database did not take, the replay of that directory, and the overflow spool
    of the core crate, which keeps a file of the same directory open. *)
From S2P Require Import Prelude RustStr RustNum RustNet CommonTypes Stats ClickHouseSql ClickHouse.
From stdpp Require Import options.

Local Open Scope Z_scope.

Definition CLICKHOUSE_BATCH_MAX_EVENTS : nat := 250.
Definition CLICKHOUSE_SPOOL_REPLAY_MAX_FILES : nat := 16.

(** [serde_json] of an observation. *)
Class EventCodec := {
  event_to_string : RequestObservation -> option rstr;
  event_from_str : rstr -> option RequestObservation;
}.
(** The text of an observation is one line, is not blank, and is read back. *)
Class EventLaws (C : EventCodec) : Prop := {
  event_text : forall e, exists s, event_to_string e = Some s /\ (LF ∉ s) /\ (last s <> Some CR) /\ is_empty (trim s) = false /\ valid_utf8 s = true /\
    event_from_str s = Some e;
}.

(** ** The spool directory

    A file that is kept open is a name, until the name is removed or given to
    another file: then what is written reaches no file that has a name. *)
Inductive handle := NotOpen | Named (name : rstr) | Unlinked.
Record Spool := { sp_files : gmap rstr rstr; sp_handle : handle }.
Definition loses (name : rstr) (h : handle) : handle := match h with Named n => if n =s? name then Unlinked else h | _ => h end.
Definition remove_file (name : rstr) (sp : Spool) : Spool := {| sp_files := delete name (sp_files sp); sp_handle := loses name (sp_handle sp) |}.
Definition put_file (name text : rstr) (sp : Spool) : Spool := {| sp_files := <[name := text]> (sp_files sp); sp_handle := loses name (sp_handle sp) |}.
(** [Path::extension] *)
Definition extension (name : rstr) : option rstr :=
  match rsplit_once (chr ".") name with Some (stem, ext) => if is_empty stem then None else Some ext | None => None end.
Definition is_jsonl (name : rstr) : bool := bool_decide (extension name = Some (lit "jsonl")).

Section writer.
Context {J : JsonLib} {EC : EventCodec} (pid : Z).

(** ** The overflow spool of the core crate *)

Inductive append_fate := AppendedAll | DirNotCreated | NotOpened | AppendTorn (n : nat).
Record append_reading := { ar_fate : append_fate; ar_day : Z }.
Definition overflow_name (day : Z) : rstr := lit "analytics-overflow-" ++ to_dec pid ++ lit "-" ++ to_dec day ++ lit ".jsonl".
Definition write_open (text : rstr) (sp : Spool) : Spool :=
  match sp_handle sp with
  | Named name => {| sp_files := <[name := default [] (sp_files sp !! name) ++ text]> (sp_files sp); sp_handle := Named name |}
  | _ => sp
  end.
Definition open_overflow (r : append_reading) (sp : Spool) : Spool :=
  match sp_handle sp with
  | NotOpen => {| sp_files := <[overflow_name (ar_day r) := default [] (sp_files sp !! overflow_name (ar_day r))]> (sp_files sp);
                  sp_handle := Named (overflow_name (ar_day r)) |}
  | _ => sp
  end.
Definition append (r : append_reading) (event : RequestObservation) (sp : Spool) : Spool :=
  match ar_fate r, sp_handle sp with
  | DirNotCreated, _ | NotOpened, NotOpen => sp
  | fate, _ =>
    let sp := open_overflow r sp in
    match event_to_string event with
    | Some text => write_open (match fate with AppendTorn n => take n (text ++ [LF]) | _ => text ++ [LF] end) sp
    | None => sp
    end
  end.

(** ** Spooling a batch *)

Inductive spool_fate := SpooledAll | SpoolDirFailed | SpoolTorn (n : nat) | SpoolNotRenamed.
Fixpoint spool_payload (events : list RequestObservation) : option rstr :=
  match events with
  | [] => Some []
  | event :: events =>
    match event_to_string event, spool_payload events with Some text, Some rest => Some (text ++ [LF] ++ rest) | _, _ => None end
  end.
Definition spool_name (stamp : Z) : rstr := lit "analytics-" ++ to_dec stamp ++ lit "-" ++ to_dec pid ++ lit ".jsonl".
Definition spool_temp (stamp : Z) : rstr := spool_name stamp ++ lit ".tmp".
Definition spool_clickhouse_events (fate : spool_fate) (stamp : Z) (events : list RequestObservation) (sp : Spool) : Spool * bool :=
  match fate, spool_payload events with
  | SpoolDirFailed, _ | _, None => (sp, false)
  | SpoolTorn n, Some payload => (put_file (spool_temp stamp) (take n payload) sp, false)
  | SpoolNotRenamed, Some payload => (put_file (spool_temp stamp) payload sp, false)
  | SpooledAll, Some payload =>
    let sp := put_file (spool_temp stamp) payload sp in
    (put_file (spool_name stamp) payload {| sp_files := delete (spool_temp stamp) (sp_files sp); sp_handle := sp_handle sp |}, true)
  end.

(** ** The writer *)

Record Writer := { wr_client : Client; wr_buffer : list RequestObservation; wr_spool : Spool }.
Record flush_reading := { fl_first : exchange; fl_second : exchange; fl_fate : spool_fate; fl_stamp : Z }.
Definition insert_with (x : exchange) (events : list RequestObservation) (c : Client) : Client * bool :=
  let '((c, _), r) := insert_requests events (c, [x]) in (c, is_ok r).
Definition flush_clickhouse_events (f : flush_reading) (w : Writer) : Writer :=
  if is_empty (wr_buffer w) then w
  else
    let events := wr_buffer w in
    let '(c, taken) := insert_with (fl_first f) events (wr_client w) in
    if taken then {| wr_client := c; wr_buffer := []; wr_spool := wr_spool w |}
    else
      let '(c, taken) := insert_with (fl_second f) events c in
      {| wr_client := c; wr_buffer := [];
         wr_spool := if taken then wr_spool w else fst (spool_clickhouse_events (fl_fate f) (fl_stamp f) events (wr_spool w)) |}.
Definition push_event (f : flush_reading) (event : RequestObservation) (w : Writer) : Writer :=
  let w := {| wr_client := wr_client w; wr_buffer := wr_buffer w ++ [event]; wr_spool := wr_spool w |} in
  if (CLICKHOUSE_BATCH_MAX_EVENTS <=? length (wr_buffer w))%nat then flush_clickhouse_events f w else w.

(** ** The replay of the directory *)

(** What the core crate appends between the reading of a file and its removal is
    part of the reading. *)
Record replay_reading := { rf_read : bool; rf_meanwhile : list (append_reading * RequestObservation); rf_exchange : exchange; rf_removed : bool }.
Definition file_events (contents : rstr) : list RequestObservation :=
  omap event_from_str (filter (fun line => is_empty (trim line) = false) (lines contents)).
Definition append_all (l : list (append_reading * RequestObservation)) (sp : Spool) : Spool := foldl (fun sp a => append (fst a) (snd a) sp) sp l.
Definition remove_if (removed : bool) (name : rstr) (w : Writer) : Writer :=
  if removed then {| wr_client := wr_client w; wr_buffer := wr_buffer w; wr_spool := remove_file name (wr_spool w) |} else w.
(** The second component: go on with the next file. *)
Definition replay_file (r : replay_reading) (name : rstr) (w : Writer) : Writer * bool :=
  match sp_files (wr_spool w) !! name with
  | None => (w, true)
  | Some contents =>
    if negb (rf_read r && valid_utf8 contents) then (w, true)
    else
      let events := file_events contents in
      let w := {| wr_client := wr_client w; wr_buffer := wr_buffer w; wr_spool := append_all (rf_meanwhile r) (wr_spool w) |} in
      if is_empty events then (remove_if (rf_removed r) name w, true)
      else
        let '(c, taken) := insert_with (rf_exchange r) events (wr_client w) in
        let w := {| wr_client := c; wr_buffer := wr_buffer w; wr_spool := wr_spool w |} in
        if taken then (remove_if (rf_removed r) name w, true) else (w, false)
  end.
Fixpoint replay_files (reading : rstr -> replay_reading) (names : list rstr) (w : Writer) : Writer :=
  match names with
  | [] => w
  | name :: names => let '(w, go_on) := replay_file (reading name) name w in if go_on then replay_files reading names w else w
  end.
(** [seen]: the entries the listing of the directory yields before it ends or fails. *)
Definition spool_listing (seen : rstr -> bool) (sp : Spool) : list rstr :=
  take CLICKHOUSE_SPOOL_REPLAY_MAX_FILES
    (sort_strings (filter (fun name => seen name && is_jsonl name = true) (fst <$> map_to_list (sp_files sp)))).
Definition replay_clickhouse_spool (seen : rstr -> bool) (reading : rstr -> replay_reading) (w : Writer) : Writer :=
  replay_files reading (spool_listing seen (wr_spool w)) w.

(** ** The loop, with the queue it reads *)

(** Where the task is: in the loop; in the arm of the shutdown, where it empties the
    queue; or in the last flush, which it awaits before it drops the receiver. *)
Inductive phase := Running | Stopping | Finishing.
Record Analytics := { an_sink : Sink; an_writer : Writer; an_phase : phase }.
Inductive step :=
(** a request is recorded: the event is queued, or goes to the overflow spool *)
| Recorded (event : RequestObservation) (r : append_reading)
(** [recv], and [try_recv] in the shutdown *)
| Received (f : flush_reading)
| Ticked (seen : rstr -> bool) (reading : rstr -> replay_reading) (f : flush_reading)
| ShutDown
(** [try_recv] found nothing: the last flush *)
| LastFlush (f : flush_reading)
(** the task ends, and the receiver is dropped with what the queue has *)
| TaskEnds
(** all senders are gone *)
| SenderGone (f : flush_reading).
Definition on_writer (g : Writer -> Writer) (a : Analytics) : Analytics :=
  {| an_sink := an_sink a; an_writer := g (an_writer a); an_phase := an_phase a |}.
Definition set_phase (p : phase) (a : Analytics) : Analytics := {| an_sink := an_sink a; an_writer := an_writer a; an_phase := p |}.
Definition set_queue (queue : list RequestObservation) (closed : bool) (s : Sink) : Sink :=
  {| sk_queue := queue; sk_capacity := sk_capacity s; sk_closed := closed |}.
(** The receiver yields nothing only when the queue is empty; after the loop has
    ended the receiver is gone, so that the queue is closed.  Requests are recorded
    while the task waits for a flush, in any phase; the process may end at any point,
    which leaves the state reached by then without its memory. *)
Definition writer_step (s : step) (a : Analytics) : Analytics :=
  if sk_closed (an_sink a) then a
  else
    match s, an_phase a with
    | Recorded event r, _ =>
      match try_send event (an_sink a) with
      | Sent sink => {| an_sink := sink; an_writer := an_writer a; an_phase := an_phase a |}
      | Full => on_writer (fun w => {| wr_client := wr_client w; wr_buffer := wr_buffer w; wr_spool := append r event (wr_spool w) |}) a
      | Closed => a
      end
    | Received f, (Running | Stopping) =>
      match sk_queue (an_sink a) with
      | [] => a
      | event :: queue => {| an_sink := set_queue queue false (an_sink a); an_writer := push_event f event (an_writer a); an_phase := an_phase a |}
      end
    | Ticked seen reading f, Running => on_writer (fun w => flush_clickhouse_events f (replay_clickhouse_spool seen reading w)) a
    | ShutDown, Running => set_phase Stopping a
    | LastFlush f, Stopping =>
      match sk_queue (an_sink a) with [] => set_phase Finishing (on_writer (flush_clickhouse_events f) a) | _ => a end
    | TaskEnds, Finishing => {| an_sink := set_queue [] true (an_sink a); an_writer := an_writer a; an_phase := Finishing |}
    | SenderGone f, Running =>
      match sk_queue (an_sink a) with
      | [] => {| an_sink := set_queue [] true (an_sink a); an_writer := flush_clickhouse_events f (an_writer a); an_phase := Finishing |}
      | _ => a
      end
    | _, _ => a
    end.
Definition run_steps (steps : list step) (a : Analytics) : Analytics := foldl (fun a s => writer_step s a) a steps.
(** The schema is asked for first, and the loop runs whatever becomes of it. *)
Definition run_clickhouse_writer (setup : list exchange) (steps : list step) (a : Analytics) : Analytics :=
  run_steps steps (on_writer (fun w => {| wr_client := fst (fst (ensure_schema (wr_client w, setup))); wr_buffer := wr_buffer w; wr_spool := wr_spool w |}) a).
End writer.

(** ** Names and lines *)

Lemma extension_app p ext : chr "." ∉ ext -> p <> [] -> extension (p ++ chr "." :: ext) = Some ext.
Proof.
  intros He Hp. unfold extension, rsplit_once. rewrite reverse_app, reverse_cons, <- app_assoc.
  rewrite (proj2 (split_once_Some (chr ".") (reverse ext ++ [chr "."] ++ reverse p) (reverse ext) (reverse p))); [|split; [done|by rewrite elem_of_reverse]].
  rewrite !reverse_involutive. by destruct p.
Qed.
Lemma digits_nonempty fuel n : digits_fuel (S fuel) 10 n [] <> [].
Proof. cbn [digits_fuel]. destruct (n <? 10); [done|]. rewrite digits_fuel_app. by destruct (digits_fuel fuel _ _ []). Qed.
Lemma to_dec_first n : exists c s, to_dec n = c :: s /\ c <> chr "o".
Proof.
  assert (chr "o" ∉ to_dec n) as Ho by (apply digits_plain; [by intros d [= <-]|apply not_elem_of_nil]).
  destruct (to_dec n) as [|c s] eqn:E; [|exists c, s; split; [done|set_solver]].
  by apply (digits_nonempty 127) in E.
Qed.
Lemma strip_cr_id s : last s <> Some CR -> strip_cr s = s.
Proof.
  intros H. unfold strip_cr, strip_suffix. destruct (strip_prefix (reverse [CR]) (reverse s)) eqn:E; [|done].
  apply strip_prefix_Some in E. exfalso. apply H. apply (f_equal reverse) in E. rewrite reverse_involutive, reverse_app in E. rewrite E.
  by rewrite last_app.
Qed.
Lemma lines_cons text rest : LF ∉ text -> last text <> Some CR -> lines (text ++ LF :: rest) = text :: lines rest.
Proof.
  intros Hlf Hcr. unfold lines. rewrite split_app_sep by done. pose proof (split_nonempty LF rest). destruct (split LF rest) as [|p ps] eqn:E; [done|].
  change (removelast (text :: p :: ps)) with (text :: removelast (p :: ps)). change (List.last (text :: p :: ps) []) with (List.last (p :: ps) []).
  cbn [map]. by rewrite strip_cr_id.
Qed.

(** ** Where the events are *)

Section where_events.
Context {J : JsonLib} {EC : EventCodec} (pid : Z).
(** The line of an event in an insertion, and the lines of all the insertions the
    server has executed. *)
Definition row_line (event : RequestObservation) : rstr := default [] (row_to_string (access_log_row_from_observation event)).
Definition inserted_lines (sql : rstr) : list rstr := match strip_prefix INSERT_ROWS sql with Some rows => split LF rows | None => [] end.
Definition stored_lines (c : Client) : list rstr := flat_map inserted_lines (cl_log c).
(** The files the writer spooled, apart from those of the core crate. *)
Definition is_overflow (name : rstr) : bool := starts_with (lit "analytics-overflow-") name.
Definition is_batch (name : rstr) : bool := is_jsonl name && negb (is_overflow name).
Definition batch_list (l : list (rstr * rstr)) : list RequestObservation := flat_map (fun kv => if is_batch (fst kv) then file_events (snd kv) else []) l.
Definition batches (sp : Spool) : list RequestObservation := batch_list (map_to_list (sp_files sp)).
Definition writer_lines (w : Writer) : list rstr := stored_lines (wr_client w) ++ map row_line (wr_buffer w ++ batches (wr_spool w)).
(** A server that answers with success has executed the statement. *)
Definition honest (x : exchange) : Prop := match ex_answer x with Response status _ => is_success status = true -> ex_executed x = true | _ => True end.

Lemma spool_name_batch stamp : is_batch (spool_name pid stamp) = true /\ is_batch (spool_temp pid stamp) = false.
Proof.
  unfold is_batch, is_jsonl. split.
  - apply andb_true_intro. split.
    + apply bool_decide_eq_true_2. unfold spool_name. rewrite !app_assoc.
      apply (extension_app _ (lit "jsonl")); [by apply (bool_decide_unpack _)|]. rewrite <- !app_assoc. discriminate.
    + unfold is_overflow. destruct (starts_with _ _) eqn:E; [|done]. exfalso. apply starts_with_spec in E as [r E]. destruct (to_dec_first stamp) as (c & s & Hc & Hne).
      unfold spool_name in E. rewrite Hc in E. change (lit "analytics-overflow-") with (lit "analytics-" ++ lit "overflow-") in E.
      rewrite <- (app_assoc (lit "analytics-")) in E. apply (app_inv_head (lit "analytics-")) in E. by injection E.
  - assert (extension (spool_temp pid stamp) = Some (lit "tmp")) as ->; [|by rewrite bool_decide_eq_false_2].
    apply (extension_app _ (lit "tmp")); [by apply (bool_decide_unpack _)|]. discriminate.
Qed.
(** *** Batches in the directory *)

Lemma batches_put (name text : rstr) (files : gmap rstr rstr) : files !! name = None ->
  batch_list (map_to_list (<[name := text]> files)) ≡ₚ (if is_batch name then file_events text else []) ++ batch_list (map_to_list files).
Proof. intros H. unfold batch_list. by rewrite map_to_list_insert. Qed.
Lemma batches_delete (name text : rstr) (files : gmap rstr rstr) : files !! name = Some text ->
  batch_list (map_to_list files) ≡ₚ (if is_batch name then file_events text else []) ++ batch_list (map_to_list (delete name files)).
Proof. intros H. rewrite <- (insert_delete_id files name text H) at 1. apply batches_put. apply lookup_delete_eq. Qed.
Lemma batches_delete_other (name : rstr) (files : gmap rstr rstr) : is_batch name = false -> batch_list (map_to_list (delete name files)) ≡ₚ batch_list (map_to_list files).
Proof.
  intros Hb. destruct (files !! name) as [text|] eqn:E; [|by rewrite delete_id]. rewrite (batches_delete name text files E). by rewrite Hb.
Qed.
Lemma batches_other (name text : rstr) (files : gmap rstr rstr) : is_batch name = false -> batch_list (map_to_list (<[name := text]> files)) ≡ₚ batch_list (map_to_list files).
Proof.
  intros Hb. rewrite <- insert_delete_eq, batches_put, Hb by apply lookup_delete_eq. by apply batches_delete_other.
Qed.
Definition handle_ok (sp : Spool) : Prop := forall name, sp_handle sp = Named name -> is_overflow name = true.
Lemma loses_ok sp name sp' : handle_ok sp -> sp_handle sp' = loses name (sp_handle sp) -> handle_ok sp'.
Proof. intros H E n Hn. rewrite E in Hn. unfold loses in Hn. destruct (sp_handle sp) as [|m|] eqn:Eh; try done.
  destruct (m =s? name); [done|]. injection Hn as <-. by apply H.
Qed.
Lemma overflow_named day : is_overflow (overflow_name pid day) = true.
Proof. apply starts_with_spec. eexists. reflexivity. Qed.
Lemma overflow_not_batch name : is_overflow name = true -> is_batch name = false.
Proof. unfold is_batch. intros ->. by destruct (is_jsonl name). Qed.
(** What the core crate appends goes to its own file. *)
Record appended (sp sp' : Spool) : Prop := {
  ap_handle : handle_ok sp';
  ap_files : forall name, is_overflow name = false -> sp_files sp' !! name = sp_files sp !! name;
  ap_batches : batches sp' ≡ₚ batches sp;
}.
Lemma appended_insert sp name text h : handle_ok {| sp_files := sp_files sp; sp_handle := h |} -> is_overflow name = true ->
  appended sp {| sp_files := <[name := text]> (sp_files sp); sp_handle := h |}.
Proof.
  intros Hh Hn. split; [done| |].
  - intros n Hf. cbn [sp_files]. rewrite lookup_insert_ne; [done|]. congruence.
  - by apply batches_other, overflow_not_batch.
Qed.
Lemma appended_refl sp : handle_ok sp -> appended sp sp.
Proof. by split. Qed.
Lemma appended_trans sp1 sp2 sp3 : appended sp1 sp2 -> appended sp2 sp3 -> appended sp1 sp3.
Proof. intros [H1 H2 H3] [H4 H5 H6]. split; [done| |by rewrite H6]. intros n Hn. by rewrite H5, H2. Qed.
Lemma write_open_appended text sp : handle_ok sp -> appended sp (write_open text sp).
Proof.
  intros Hh. unfold write_open. destruct (sp_handle sp) as [|name|] eqn:E; [by apply appended_refl| |by apply appended_refl].
  apply appended_insert; [intros n [= <-]; by apply Hh|by apply Hh].
Qed.
Lemma open_appended r sp : handle_ok sp -> appended sp (open_overflow pid r sp).
Proof.
  intros Hh. unfold open_overflow. destruct (sp_handle sp) eqn:E; [|by apply appended_refl..].
  apply appended_insert; [intros n [= <-]|]; apply overflow_named.
Qed.
Lemma append_appended r e sp : handle_ok sp -> appended sp (append pid r e sp).
Proof.
  intros Hh. assert (forall f, appended sp (match event_to_string e with Some text => write_open (f text) (open_overflow pid r sp) | None => open_overflow pid r sp end)) as H.
  { intros f. destruct (event_to_string e); [|by apply open_appended]. eapply appended_trans; [by apply open_appended|]. apply write_open_appended, open_appended, Hh. }
  unfold append. destruct (ar_fate r); [apply (H (fun t => t ++ [LF]))|by apply appended_refl| |apply (H (fun t => take n (t ++ [LF])))].
  destruct (sp_handle sp); [by apply appended_refl|apply (H (fun t => t ++ [LF]))..].
Qed.
Lemma append_all_appended l : forall sp, handle_ok sp -> appended sp (append_all pid l sp).
Proof.
  unfold append_all. induction l as [|a l IH]; intros sp Hh; [by apply appended_refl|]. cbn [foldl]. eapply appended_trans; [by apply append_appended|].
  apply IH, append_appended, Hh.
Qed.
Lemma append_keeps r e sp name contents : sp_files sp !! name = Some contents -> exists contents', sp_files (append pid r e sp) !! name = Some contents'.
Proof.
  intros H. assert (forall sp k (v : rstr), is_Some (sp_files sp !! name) -> is_Some (<[k := v]> (sp_files sp) !! name)) as Hi.
  { intros sp0 k v Hs. destruct (decide (k = name)) as [->|]; [rewrite lookup_insert_eq; by eexists|by rewrite lookup_insert_ne]. }
  assert (forall sp, is_Some (sp_files sp !! name) -> is_Some (sp_files (open_overflow pid r sp) !! name)) as Ho.
  { intros sp0 Hs. unfold open_overflow. destruct (sp_handle sp0); [by apply Hi|done..]. }
  assert (forall text sp, is_Some (sp_files sp !! name) -> is_Some (sp_files (write_open text sp) !! name)) as Hw.
  { intros text sp0 Hs. unfold write_open. destruct (sp_handle sp0); [done|by apply Hi|done]. }
  assert (is_Some (sp_files sp !! name)) as Hs by by eexists.
  enough (is_Some (sp_files (append pid r e sp) !! name)) as [c ?] by by exists c.
  unfold append. repeat case_match; auto.
Qed.
Lemma append_all_keeps l : forall sp name contents, sp_files sp !! name = Some contents -> exists contents', sp_files (append_all pid l sp) !! name = Some contents'.
Proof.
  unfold append_all. induction l as [|a l IH]; intros sp name contents H; [by exists contents|]. cbn [foldl].
  destruct (append_keeps (fst a) (snd a) sp name contents H) as [c Hc]. by eapply IH.
Qed.
End where_events.

Section theorems.
Context {J : JsonLib} {EC : EventCodec} (pid : Z) (JL : JsonLaws J) (EL : EventLaws EC).

Lemma row_line_text event : row_to_string (access_log_row_from_observation event) = Some (row_line event) /\ LF ∉ row_line event.
Proof using JL. destruct (row_text (access_log_row_from_observation event)) as (s & Hs & Hlf). unfold row_line. by rewrite Hs. Qed.
Lemma rows_collected events :
  collect_results (fun event => ok_or NotJson (row_to_string (access_log_row_from_observation event))) events = Ok (map row_line events).
Proof using JL.
  apply collect_results_ok. induction events as [|e events IH]; constructor; [|done]. by rewrite (proj1 (row_line_text e)).
Qed.
Lemma payload_lines events : events <> [] -> inserted_lines (INSERT_ROWS ++ join [LF] (map row_line events)) = map row_line events.
Proof using JL.
  intros Hne. unfold inserted_lines. rewrite (proj2 (strip_prefix_Some INSERT_ROWS _ (join [LF] (map row_line events))) eq_refl).
  apply split_join; [by destruct events|]. apply Forall_fmap, Forall_forall. intros e _. apply row_line_text.
Qed.
(** An insertion adds its lines or nothing, and adds them when it is answered well. *)
Lemma insert_with_lines x events c c' taken : events <> [] -> honest x -> insert_with x events c = (c', taken) ->
  (stored_lines c' = stored_lines c /\ taken = false \/ stored_lines c' = stored_lines c ++ map row_line events).
Proof using JL.
  intros Hne Hx. unfold insert_with, insert_requests. rewrite rows_collected.
  assert (is_empty (map row_line events) = false) as -> by by destruct events.
  set (sql := INSERT_ROWS ++ join [LF] (map row_line events)).
  assert (forall c cache, stored_lines {| cl_log := cl_log c ++ [sql]; cl_read_cache := cache |} = stored_lines c ++ map row_line events) as Hl.
  { intros c0 cache. unfold stored_lines. cbn [cl_log]. rewrite flat_map_app. cbn [flat_map]. rewrite app_nil_r. f_equal. by apply payload_lines. }
  unfold post_sql, rbind, post_body, clear_read_cache, honest in *. cbn [head from_option tail]. unfold id.
  destruct (ex_answer x) as [| |status frames]; cbn [read_answer rret is_ok].
  - intros [= <- <-]. destruct (ex_executed x); [right; apply Hl|by left].
  - intros [= <- <-]. destruct (ex_executed x); [right; apply Hl|by left].
  - destruct (collect_body_limited _ _); [|intros [= <- <-]; destruct (ex_executed x); [right; apply Hl|by left]].
    destruct (is_success status); intros [= <- <-].
    + rewrite Hx by done. right. apply Hl.
    + destruct (ex_executed x); [right; apply Hl|by left].
Qed.
(** A batch is read back as it was written. *)
Lemma spool_payload_events events : exists payload, spool_payload events = Some payload /\ file_events payload = events.
Proof using EL.
  induction events as [|e events (rest & Hr & IH)]; [by exists []|]. destruct (event_text e) as (s & Hs & Hlf & Hcr & Hb & _ & Hf).
  cbn [spool_payload]. rewrite Hs, Hr. eexists. split; [done|]. unfold file_events in *. cbn [app]. rewrite lines_cons by done.
  rewrite filter_cons_True by done. cbn [omap list_omap]. by rewrite Hf, IH.
Qed.


(** *** No step loses a queued event *)

Definition flush_ok (f : flush_reading) (w : Writer) : Prop :=
  honest (fl_first f) /\ honest (fl_second f) /\ fl_fate f = SpooledAll /\ sp_files (wr_spool w) !! spool_name pid (fl_stamp f) = None.
Lemma spooled_batches stamp events sp : sp_files sp !! spool_name pid stamp = None ->
  batches (fst (spool_clickhouse_events pid SpooledAll stamp events sp)) ≡ₚ events ++ batches sp.
Proof using EL.
  intros Hn. destruct (spool_payload_events events) as (payload & Hp & Hf). unfold spool_clickhouse_events. rewrite Hp. cbn [fst].
  destruct (spool_name_batch pid stamp) as [Hb Ht]. unfold batches, put_file. cbn [sp_files]. rewrite delete_insert_eq.
  assert (spool_temp pid stamp <> spool_name pid stamp) as Hne by congruence.
  rewrite batches_put, Hb, Hf by by rewrite lookup_delete_ne. by rewrite batches_delete_other.
Qed.
Lemma spool_handle_ok fate stamp events sp : handle_ok sp -> handle_ok (fst (spool_clickhouse_events pid fate stamp events sp)).
Proof.
  intros H. unfold spool_clickhouse_events. assert (forall name text, handle_ok (put_file name text sp)) as Hp by (intros; by eapply loses_ok).
  destruct fate, (spool_payload events); cbn [fst]; try done; try apply Hp. by eapply loses_ok; [apply Hp|].
Qed.
Lemma flush_lines f w : flush_ok f w -> writer_lines w ⊆+ writer_lines (flush_clickhouse_events pid f w).
Proof using JL EL.
  intros (H1 & H2 & Hf & Hn). unfold flush_clickhouse_events. destruct (wr_buffer w) as [|e0 events0] eqn:Eb; cbn [is_empty]; [done|].
  rewrite <- Eb. assert (wr_buffer w <> []) as Hne by by rewrite Eb. clear Eb e0 events0. unfold writer_lines at 1.
  destruct (insert_with (fl_first f) (wr_buffer w) (wr_client w)) as [c1 taken1] eqn:E1.
  pose proof (insert_with_lines _ _ _ _ _ Hne H1 E1) as HL1. destruct taken1.
  - unfold writer_lines. cbn [wr_client wr_buffer wr_spool app]. destruct HL1 as [[_ ?]| ->]; [done|]. by rewrite map_app, <- app_assoc.
  - destruct (insert_with (fl_second f) (wr_buffer w) c1) as [c2 taken2] eqn:E2. pose proof (insert_with_lines _ _ _ _ _ Hne H2 E2) as HL2.
    assert (stored_lines (wr_client w) ⊆+ stored_lines c1) as Hs1 by (destruct HL1 as [[-> _]| ->]; [done|by apply submseteq_inserts_r]).
    unfold writer_lines. cbn [wr_client wr_buffer wr_spool app]. destruct taken2.
    + destruct HL2 as [[_ ?]| ->]; [done|]. rewrite map_app, <- app_assoc. by apply submseteq_app.
    + rewrite Hf, spooled_batches by done. apply submseteq_app; [|done]. etrans; [exact Hs1|]. destruct HL2 as [[-> _]| ->]; [done|by apply submseteq_inserts_r].
Qed.
Lemma flush_handle f w : handle_ok (wr_spool w) -> handle_ok (wr_spool (flush_clickhouse_events pid f w)).
Proof.
  intros H. unfold flush_clickhouse_events. repeat case_match; cbn [wr_spool]; try done. by apply spool_handle_ok.
Qed.
Lemma flush_buffer f w : wr_buffer (flush_clickhouse_events pid f w) = [].
Proof. unfold flush_clickhouse_events. destruct (wr_buffer w) eqn:E; cbn [is_empty]; [done|]. by repeat case_match. Qed.
Lemma push_lines f e w : flush_ok f w -> row_line e :: writer_lines w ⊆+ writer_lines (push_event pid f e w).
Proof using JL EL.
  intros Hf. set (w1 := {| wr_client := wr_client w; wr_buffer := wr_buffer w ++ [e]; wr_spool := wr_spool w |}).
  assert (row_line e :: writer_lines w ⊆+ writer_lines w1) as H1.
  { unfold writer_lines, w1. cbn [wr_client wr_buffer wr_spool]. rewrite !map_app. cbn [map]. rewrite <- app_assoc. cbn [app].
    rewrite (Permutation_middle (stored_lines (wr_client w)) _ (row_line e)). by rewrite (Permutation_middle (map row_line (wr_buffer w)) _ (row_line e)). }
  unfold push_event. fold w1. case_match; [|done]. etrans; [exact H1|]. by apply flush_lines.
Qed.
Lemma push_handle f e w : handle_ok (wr_spool w) -> handle_ok (wr_spool (push_event pid f e w)).
Proof. intros H. unfold push_event. case_match; [by apply flush_handle|done]. Qed.

(** Reading a file back: it is removed only when its events are stored. *)
Lemma remove_lines removed name w contents :
  sp_files (wr_spool w) !! name = Some contents -> (is_batch name = true -> map row_line (file_events contents) = []) ->
  writer_lines w ⊆+ writer_lines (remove_if removed name w).
Proof.
  intros Hn He. unfold remove_if. destruct removed; [|done]. unfold writer_lines, batches. cbn [wr_client wr_buffer wr_spool remove_file sp_files].
  rewrite (batches_delete name contents (sp_files (wr_spool w)) Hn). destruct (is_batch name); [|done]. specialize (He eq_refl). apply map_eq_nil in He. by rewrite He.
Qed.
Lemma replay_file_spec r name w : handle_ok (wr_spool w) -> honest (rf_exchange r) ->
  let w' := fst (replay_file pid r name w) in
  writer_lines w ⊆+ writer_lines w' /\ handle_ok (wr_spool w') /\ wr_buffer w' = wr_buffer w /\
  (forall n, is_overflow n = false -> sp_files (wr_spool w) !! n = None -> sp_files (wr_spool w') !! n = None).
Proof using JL.
  intros Hh Hx. unfold replay_file. destruct (sp_files (wr_spool w) !! name) as [contents|] eqn:En; [|done].
  destruct (negb _); [done|]. destruct (append_all_appended pid (rf_meanwhile r) (wr_spool w) Hh) as [Ah Af Ab].
  set (sp := append_all pid (rf_meanwhile r) (wr_spool w)) in *.
  assert (forall c, handle_ok (wr_spool (remove_if (rf_removed r) name {| wr_client := c; wr_buffer := wr_buffer w; wr_spool := sp |}))) as Hrm.
  { intros c. unfold remove_if. destruct (rf_removed r); [|done]. by eapply loses_ok. }
  assert (forall c n, is_overflow n = false -> sp_files (wr_spool w) !! n = None ->
    sp_files (wr_spool (remove_if (rf_removed r) name {| wr_client := c; wr_buffer := wr_buffer w; wr_spool := sp |})) !! n = None) as Hnone.
  { intros c n Hn1 Hn2. unfold remove_if. destruct (rf_removed r); cbn; [apply lookup_delete_None; right|]; by rewrite Af. }
  assert (exists contents', sp_files sp !! name = Some contents' /\ (is_batch name = true -> contents' = contents)) as (contents' & Hc & Hcb).
  { destruct (is_overflow name) eqn:Eo; [|exists contents; by rewrite Af]. destruct (append_all_keeps pid (rf_meanwhile r) (wr_spool w) name contents En) as [c' ?].
    exists c'. split; [done|]. by rewrite overflow_not_batch. }
  assert (writer_lines w ⊆+ writer_lines {| wr_client := wr_client w; wr_buffer := wr_buffer w; wr_spool := sp |}) as Hl.
  { unfold writer_lines. cbn [wr_client wr_buffer wr_spool]. by rewrite Ab. }
  destruct (file_events contents) as [|e0 events0] eqn:Ee; cbn [is_empty].
  - cbn [fst]. split_and!; [|done|unfold remove_if; by destruct (rf_removed r)|apply Hnone]. etrans; [exact Hl|]. eapply remove_lines; [done|]. intros Hb. by rewrite (Hcb Hb), Ee.
  - rewrite <- Ee. assert (file_events contents <> []) as Hne by by rewrite Ee. cbn [wr_client wr_buffer wr_spool].
    destruct (insert_with (rf_exchange r) (file_events contents) (wr_client w)) as [c taken] eqn:Ei. pose proof (insert_with_lines _ _ _ _ _ Hne Hx Ei) as HL.
    destruct taken; cbn [fst].
    + split_and!; [|done|unfold remove_if; by destruct (rf_removed r)|apply Hnone]. destruct HL as [[_ ?]|HL]; [done|]. etrans; [exact Hl|].
      unfold remove_if. destruct (rf_removed r); [|unfold writer_lines; cbn [wr_client]; rewrite HL; apply submseteq_app; [by apply submseteq_inserts_r|done]].
      unfold writer_lines, batches. cbn [wr_client wr_buffer wr_spool remove_file sp_files]. rewrite HL, (batches_delete name contents' (sp_files sp) Hc).
      rewrite !map_app. destruct (is_batch name) eqn:Eb; [rewrite (Hcb eq_refl)|cbn [app map]].
      * rewrite <- !app_assoc. apply submseteq_app; [done|]. by rewrite (Permutation_app_swap_app (map row_line (wr_buffer w))).
      * rewrite <- !app_assoc. apply submseteq_app; [done|]. by apply submseteq_inserts_l.
    + split_and!; [|done|done|intros n Hn1 Hn2; cbn; by rewrite Af]. etrans; [exact Hl|]. unfold writer_lines. cbn [wr_client wr_buffer wr_spool].
      apply submseteq_app; [|done]. destruct HL as [[-> _]| ->]; [done|by apply submseteq_inserts_r].
Qed.
Lemma replay_files_spec reading names : forall w, handle_ok (wr_spool w) -> (forall name, honest (rf_exchange (reading name))) ->
  let w' := replay_files pid reading names w in
  writer_lines w ⊆+ writer_lines w' /\ handle_ok (wr_spool w') /\ wr_buffer w' = wr_buffer w /\
  (forall n, is_overflow n = false -> sp_files (wr_spool w) !! n = None -> sp_files (wr_spool w') !! n = None).
Proof using JL.
  induction names as [|name names IH]; intros w Hh Hx; [done|]. cbn [replay_files]. pose proof (replay_file_spec (reading name) name w Hh (Hx name)) as H.
  destruct (replay_file pid (reading name) name w) as [w1 go_on]. cbn [fst] in H. destruct H as (H1 & H2 & H3 & H4). destruct go_on; [|done].
  destruct (IH w1 H2 Hx) as (I1 & I2 & I3 & I4). cbn zeta. split_and!; [by etrans|done|by rewrite I3|]. intros n Hn1 Hn2. apply I4, H4; done.
Qed.
(** The conditions on what happens in a step: a server that answers with success has
    executed the statement, and a batch that is spooled is written completely and
    under a new name.  The database may refuse anything. *)
Definition step_ok (s : step) (a : Analytics) : Prop :=
  match s with
  | Recorded _ _ | ShutDown | TaskEnds => True
  | Received f | LastFlush f | SenderGone f => flush_ok f (an_writer a)
  | Ticked seen reading f => (forall name, honest (rf_exchange (reading name))) /\ flush_ok f (an_writer a)
  end.
Fixpoint run_ok (steps : list step) (a : Analytics) : Prop :=
  match steps with [] => True | s :: steps => step_ok s a /\ run_ok steps (writer_step pid s a) end.
(** The events that found a place in the queue before the last flush began. *)
Definition accepted (s : step) (a : Analytics) : list RequestObservation :=
  match s, an_phase a with
  | Recorded event _, (Running | Stopping) => match try_send event (an_sink a) with Sent _ => [event] | _ => [] end
  | _, _ => []
  end.
Fixpoint accepted_all (steps : list step) (a : Analytics) : list RequestObservation :=
  match steps with [] => [] | s :: steps => accepted s a ++ accepted_all steps (writer_step pid s a) end.
(** The queue, as far as it will still be read. *)
Definition pending (a : Analytics) : list RequestObservation := match an_phase a with Finishing => [] | _ => sk_queue (an_sink a) end.
Definition all_lines (a : Analytics) : list rstr := map row_line (pending a) ++ writer_lines (an_writer a).
Definition emptied (a : Analytics) : Prop :=
  (sk_closed (an_sink a) = true -> an_phase a = Finishing) /\ (an_phase a = Finishing -> wr_buffer (an_writer a) = []).

(** What a step promises. *)
Definition keeps (new : list RequestObservation) (a a' : Analytics) : Prop :=
  map row_line new ++ all_lines a ⊆+ all_lines a' /\ handle_ok (wr_spool (an_writer a')) /\ emptied a'.
Lemma recorded_keeps event r a : handle_ok (wr_spool (an_writer a)) -> emptied a -> sk_closed (an_sink a) = false ->
  keeps (accepted (Recorded event r) a) a (writer_step pid (Recorded event r) a).
Proof.
  intros Hh He Ec. unfold writer_step, accepted, try_send. rewrite Ec. destruct (sk_capacity (an_sink a) <=? _).
  - destruct (append_appended pid r event (wr_spool (an_writer a)) Hh) as [Ah _ Ab]. split_and!; [|done|exact He].
    unfold all_lines, writer_lines, pending. cbn [an_sink an_writer an_phase on_writer wr_client wr_buffer wr_spool]. rewrite Ab. by destruct (an_phase a).
  - split_and!; [|done|split; cbn [an_sink an_phase sk_closed]; [done|apply He]]. unfold all_lines, pending. cbn [an_sink an_writer an_phase sk_queue].
    destruct (an_phase a); cbn [map app]; [rewrite map_app, <- app_assoc; cbn [map app]; by rewrite Permutation_middle..|done].
Qed.
Lemma received_keeps f a : handle_ok (wr_spool (an_writer a)) -> emptied a -> flush_ok f (an_writer a) -> sk_closed (an_sink a) = false ->
  keeps [] a (writer_step pid (Received f) a).
Proof using JL EL.
  intros Hh He Hf Ec. unfold writer_step. rewrite Ec. destruct (sk_queue (an_sink a)) as [|e queue] eqn:Eq; [by destruct (an_phase a)|].
  assert (forall p, p <> Finishing -> an_phase a = p ->
    keeps [] a {| an_sink := set_queue queue false (an_sink a); an_writer := push_event pid f e (an_writer a); an_phase := p |}) as H.
  { intros p Hp Ep. split_and!; [|by apply push_handle|split; cbn [an_sink an_phase set_queue sk_closed]; done].
    unfold all_lines, pending. cbn [an_sink an_writer an_phase set_queue sk_queue]. rewrite Ep, Eq.
    destruct p; [| |done]; cbn [map app]; rewrite Permutation_middle; (apply submseteq_app; [done|by apply push_lines]). }
  destruct (an_phase a) eqn:Ep; [by apply H..|done].
Qed.
Lemma ticked_keeps seen reading f a : handle_ok (wr_spool (an_writer a)) -> emptied a -> sk_closed (an_sink a) = false ->
  (forall name, honest (rf_exchange (reading name))) -> flush_ok f (an_writer a) -> keeps [] a (writer_step pid (Ticked seen reading f) a).
Proof using JL EL.
  intros Hh He Ec Hx (F1 & F2 & F3 & F4). unfold writer_step. rewrite Ec. destruct (an_phase a) eqn:Ep; [|done..].
  destruct (replay_files_spec reading (spool_listing seen (wr_spool (an_writer a))) (an_writer a) Hh Hx) as (H1 & H2 & H3 & H4).
  split_and!; [|by apply flush_handle|split; cbn [an_sink an_phase on_writer]; congruence].
  unfold all_lines, pending. cbn [an_sink an_writer an_phase on_writer map app]. apply submseteq_app; [done|].
  etrans; [exact H1|]. apply flush_lines. split_and!; try done. apply H4; [|done]. pose proof (proj1 (spool_name_batch pid (fl_stamp f))) as Hb. unfold is_batch in Hb.
  by apply andb_true_iff in Hb as [_ Hb%negb_true_iff].
Qed.
(** The last flush of either way out. *)
Lemma last_flush_keeps f a closed : handle_ok (wr_spool (an_writer a)) -> flush_ok f (an_writer a) -> sk_queue (an_sink a) = [] ->
  keeps [] a {| an_sink := set_queue [] closed (an_sink a); an_writer := flush_clickhouse_events pid f (an_writer a); an_phase := Finishing |}.
Proof using JL EL.
  intros Hh Hf Eq. split_and!; [|by apply flush_handle|split; [done|intros _; apply flush_buffer]].
  unfold all_lines, pending. rewrite Eq. cbn [an_writer an_phase map app]. destruct (an_phase a); by apply flush_lines.
Qed.
Lemma step_keeps s a : handle_ok (wr_spool (an_writer a)) -> emptied a -> step_ok s a -> keeps (accepted s a) a (writer_step pid s a).
Proof using JL EL.
  intros Hh He Hs. destruct (sk_closed (an_sink a)) eqn:Ec.
  { unfold writer_step, accepted, try_send. rewrite Ec. by destruct s, (an_phase a). }
  destruct s as [e r|f|seen reading f| |f| |f]; [by apply recorded_keeps|by apply received_keeps|by apply ticked_keeps; [..|apply Hs|apply Hs]|..];
    unfold writer_step, accepted; rewrite Ec; destruct (an_phase a) eqn:Ep; try done.
  - split_and!; [unfold all_lines, pending; by rewrite Ep|done|split; cbn; congruence].
  - destruct (sk_queue (an_sink a)) as [|e queue] eqn:Eq; [|done]. pose proof (last_flush_keeps f a false Hh Hs Eq) as H.
    unfold set_queue in H. destruct a as [[q cap cl] w ph]. cbn in *. by subst.
  - split_and!; [unfold all_lines, pending; by rewrite Ep|done|split; [done|intros _; by apply He]].
  - destruct (sk_queue (an_sink a)) as [|e queue] eqn:Eq; [|done]. by apply last_flush_keeps.
Qed.

(** C19: No event is lost that found a place in the queue before the writer's last
    flush began: whatever the database answers, takes or refuses, and whatever is
    recorded, replayed and removed meanwhile, each of them is afterwards in a
    statement the server executed, in the queue, in the buffer, or in a spooled
    batch; and after the task has ended, in a statement or a spooled batch. This is
    for a database that has executed the statements it reports as successful, and a
    spool directory in which every batch that goes there is written completely and
    under a new name. An event that is queued while the last flush is awaited is lost
    when the task drops its receiver, and so is what the queue and the buffer hold
    when the process ends before the task. *)
Theorem queued_events_kept steps a :
  handle_ok (wr_spool (an_writer a)) -> sk_closed (an_sink a) = false -> an_phase a = Running -> run_ok steps a ->
  let a' := run_steps pid steps a in
  map row_line (accepted_all steps a) ++ all_lines a ⊆+ all_lines a' /\
  (sk_closed (an_sink a') = true ->
   map row_line (accepted_all steps a) ⊆+ stored_lines (wr_client (an_writer a')) ++ map row_line (batches (wr_spool (an_writer a')))).
Proof using JL EL.
  intros Hh Hc Hp Hr. assert (emptied a) as He by (split; congruence). clear Hc Hp. cbn zeta.
  assert (map row_line (accepted_all steps a) ++ all_lines a ⊆+ all_lines (run_steps pid steps a) /\ emptied (run_steps pid steps a)) as [H1 H2].
  { revert a Hh He Hr. induction steps as [|s steps IH]; intros a Hh He Hr; [done|]. destruct Hr as [Hs Hr]. destruct (step_keeps s a Hh He Hs) as (H1 & H2 & H3).
    destruct (IH _ H2 H3 Hr) as [I1 I2]. split; [|done]. cbn [accepted_all run_steps foldl]. etrans; [|exact I1]. rewrite map_app, <- app_assoc.
    rewrite (Permutation_app_swap_app (map row_line (accepted s a))). by apply submseteq_app. }
  split; [done|]. intros Hcl. destruct H2 as [Hf Hb]. specialize (Hf Hcl). specialize (Hb Hf).
  etrans; [by apply (submseteq_inserts_r (all_lines a))|]. etrans; [exact H1|]. unfold all_lines, writer_lines, pending. by rewrite Hf, Hb.
Qed.

(** *** The spool drains *)

Definition good_exchange (x : exchange) : Prop := ex_executed x = true /\ exists status, is_success status = true /\ ex_answer x = Response status [].
Definition good_reading (r : replay_reading) : Prop := rf_read r = true /\ rf_meanwhile r = [] /\ good_exchange (rf_exchange r) /\ rf_removed r = true.
(** A turn in which the database and the directory work. *)
Definition good_tick (s : step) : Prop :=
  match s with
  | Ticked seen reading f => (forall name, seen name = true /\ good_reading (reading name)) /\ good_exchange (fl_first f)
  | _ => False
  end.
Definition jsonl_names (sp : Spool) : list rstr := filter (fun name => is_jsonl name = true) (fst <$> map_to_list (sp_files sp)).
Definition readable (sp : Spool) : Prop := forall name contents, sp_files sp !! name = Some contents -> valid_utf8 contents = true.

Lemma good_honest x : good_exchange x -> honest x.
Proof. intros [H (status & _ & E)]. unfold honest. by rewrite E. Qed.
Lemma insert_good x events c : good_exchange x -> snd (insert_with x events c) = true.
Proof using JL.
  intros [Hx (status & Hs & Ha)]. unfold insert_with, insert_requests. rewrite rows_collected. destruct (is_empty _); [done|].
  unfold post_sql, rbind, post_body, clear_read_cache. cbn [head from_option tail]. unfold id. rewrite Ha. cbn [read_answer]. by rewrite Hs.
Qed.
Lemma replay_good r name w : good_reading r -> readable (wr_spool w) ->
  exists w', replay_file pid r name w = (w', true) /\ sp_files (wr_spool w') = delete name (sp_files (wr_spool w)).
Proof using JL.
  intros (R1 & R2 & R3 & R4) Hv. unfold replay_file. destruct (sp_files (wr_spool w) !! name) as [contents|] eqn:En; [|exists w; by rewrite delete_id].
  rewrite R1, (Hv _ _ En), R2. cbn [negb andb]. unfold append_all. cbn [foldl]. unfold remove_if. rewrite R4.
  destruct (is_empty (file_events contents)); [by eexists|]. pose proof (insert_good (rf_exchange r) (file_events contents) (wr_client w) R3) as Hi.
  cbn [wr_client wr_buffer wr_spool]. destruct (insert_with _ _ _) as [c taken]. cbn [snd] in Hi. subst taken. by eexists.
Qed.
Lemma replay_all_good reading names : forall w, (forall name, good_reading (reading name)) -> readable (wr_spool w) ->
  forall n, sp_files (wr_spool (replay_files pid reading names w)) !! n = if bool_decide (n ∈ names) then None else sp_files (wr_spool w) !! n.
Proof using JL EL.
  induction names as [|name names IH]; intros w Hr Hv n; [done|]. cbn [replay_files]. destruct (replay_good (reading name) name w (Hr name) Hv) as (w1 & -> & Hf).
  rewrite IH; [|done|]. 2: { intros m c. rewrite Hf. intros [_ Hc]%lookup_delete_Some. by eapply Hv. }
  rewrite Hf. destruct (decide (n = name)) as [->|Hne].
  - rewrite lookup_delete_eq, (bool_decide_eq_true_2 (name ∈ name :: names)) by set_solver. by case_bool_decide.
  - rewrite lookup_delete_ne by done. repeat case_bool_decide; set_solver.
Qed.
Lemma flush_good f w : good_exchange (fl_first f) -> wr_spool (flush_clickhouse_events pid f w) = wr_spool w.
Proof using JL.
  intros Hf. unfold flush_clickhouse_events. destruct (is_empty (wr_buffer w)); [done|]. pose proof (insert_good (fl_first f) (wr_buffer w) (wr_client w) Hf) as Hi.
  destruct (insert_with _ _ _) as [c taken]. cbn [snd] in Hi. by subst taken.
Qed.
Lemma jsonl_elem sp name : name ∈ jsonl_names sp <-> is_jsonl name = true /\ is_Some (sp_files sp !! name).
Proof.
  unfold jsonl_names. rewrite list_elem_of_filter, list_elem_of_fmap. split.
  - intros [Hj ((n & c) & -> & Hc)]. apply elem_of_map_to_list in Hc. split; [done|by eexists].
  - intros [Hj [c Hc]]. split; [done|]. exists (name, c). split; [done|]. by apply elem_of_map_to_list.
Qed.
Lemma jsonl_NoDup sp : NoDup (jsonl_names sp).
Proof. apply NoDup_filter, NoDup_fst_map_to_list. Qed.
Lemma good_tick_spool s a : good_tick s -> sk_closed (an_sink a) = false -> an_phase a = Running -> readable (wr_spool (an_writer a)) ->
  let a' := writer_step pid s a in
  sk_closed (an_sink a') = false /\ an_phase a' = Running /\ readable (wr_spool (an_writer a')) /\ wr_buffer (an_writer a') = [] /\
  (length (jsonl_names (wr_spool (an_writer a'))) = length (jsonl_names (wr_spool (an_writer a))) - CLICKHOUSE_SPOOL_REPLAY_MAX_FILES)%nat.
Proof using JL EL.
  destruct s as [| |seen reading f| | | |]; try done. intros [Hr Hf] Hc Hrun Hv. unfold writer_step. rewrite Hc, Hrun. cbn [an_sink an_writer on_writer].
  set (sp := wr_spool (an_writer a)) in *. set (names := spool_listing seen sp).
  assert (forall n, sp_files (wr_spool (flush_clickhouse_events pid f (replay_clickhouse_spool pid seen reading (an_writer a)))) !! n =
    if bool_decide (n ∈ names) then None else sp_files sp !! n) as Hfiles.
  { intros n. rewrite flush_good by done. apply replay_all_good; [intros; apply Hr|done]. }
  split_and!; [done|done| |apply flush_buffer|].
  - intros n c. rewrite Hfiles. case_bool_decide; [done|]. apply Hv.
  - assert (names = take CLICKHOUSE_SPOOL_REPLAY_MAX_FILES (sort_strings (jsonl_names sp))) as Hn.
    { unfold names, spool_listing, jsonl_names. f_equal. f_equal. apply list_filter_iff. intros n. by rewrite (proj1 (Hr n)). }
    rewrite <- (Permutation_length (merge_sort_Permutation str_le (jsonl_names sp))), <- length_drop. apply Permutation_length, NoDup_Permutation; [apply jsonl_NoDup| |].
    { eapply sublist_NoDup; [|apply sublist_drop]. unfold sort_strings. rewrite merge_sort_Permutation. apply jsonl_NoDup. }
    intros n. rewrite jsonl_elem, Hfiles, Hn. unfold sort_strings. set (l := merge_sort str_le (jsonl_names sp)).
    assert (NoDup l) as Hnd by (unfold l; rewrite merge_sort_Permutation; apply jsonl_NoDup).
    assert (n ∈ l <-> is_jsonl n = true /\ is_Some (sp_files sp !! n)) as Hl by (unfold l; rewrite merge_sort_Permutation; apply jsonl_elem).
    rewrite <- (take_drop CLICKHOUSE_SPOOL_REPLAY_MAX_FILES l) in Hl, Hnd. apply NoDup_app in Hnd as (_ & Hnd & _). rewrite elem_of_app in Hl.
    case_bool_decide as Hin; [split; [by intros [_ []]|intros Hd; by destruct (Hnd _ Hin)]|]. rewrite <- Hl. naive_solver.
Qed.
Lemma flush_good_lines f w : good_exchange (fl_first f) -> writer_lines w ⊆+ writer_lines (flush_clickhouse_events pid f w).
Proof using JL.
  intros Hf. unfold flush_clickhouse_events. destruct (wr_buffer w) as [|e0 events0] eqn:Eb; cbn [is_empty]; [done|].
  rewrite <- Eb. assert (wr_buffer w <> []) as Hne by by rewrite Eb. pose proof (insert_good (fl_first f) (wr_buffer w) (wr_client w) Hf) as Hi.
  destruct (insert_with (fl_first f) (wr_buffer w) (wr_client w)) as [c taken] eqn:E. cbn [snd] in Hi. subst taken.
  destruct (insert_with_lines _ _ _ _ _ Hne (good_honest _ Hf) E) as [[_ ?]|HL]; [done|]. unfold writer_lines. cbn [wr_client wr_buffer wr_spool app].
  by rewrite HL, map_app, <- app_assoc.
Qed.
Lemma good_tick_lines s a : good_tick s -> sk_closed (an_sink a) = false -> an_phase a = Running -> handle_ok (wr_spool (an_writer a)) ->
  let w' := an_writer (writer_step pid s a) in writer_lines (an_writer a) ⊆+ writer_lines w' /\ handle_ok (wr_spool w').
Proof using JL.
  destruct s as [| |seen reading f| | | |]; try done. intros [Hr Hf] Hc Hrun Hh. unfold writer_step. rewrite Hc, Hrun. cbn [an_writer on_writer].
  destruct (replay_files_spec reading (spool_listing seen (wr_spool (an_writer a))) (an_writer a) Hh) as (H1 & H2 & _); [intros n; apply good_honest, Hr|].
  split; [|by apply flush_handle]. etrans; [exact H1|]. by apply flush_good_lines.
Qed.
Lemma no_batches sp : jsonl_names sp = [] -> batches sp = [].
Proof.
  intros H. unfold batches, batch_list. assert (forall kv, kv ∈ map_to_list (sp_files sp) -> is_batch (fst kv) = false) as Hb.
  { intros [n c] Hk. apply elem_of_map_to_list in Hk. cbn [fst]. unfold is_batch. destruct (is_jsonl n) eqn:E; [|done]. exfalso.
    assert (n ∈ jsonl_names sp) as Hin by (apply jsonl_elem; split; [done|by eexists]). rewrite H in Hin. by apply elem_of_nil in Hin. }
  induction (map_to_list (sp_files sp)) as [|kv l IH]; [done|]. cbn [flat_map]. rewrite Hb by left. apply IH. intros kv' ?. apply Hb. by right.
Qed.

End theorems.

(** *** The overflow spool after a replay *)

Section overflow.
Context {J : JsonLib} {EC : EventCodec} (pid : Z).
Definition gone (a : Analytics) : Prop := sp_handle (wr_spool (an_writer a)) = Unlinked.
Lemma append_unlinked r e sp : sp_handle sp = Unlinked -> append pid r e sp = sp.
Proof.
  intros H. unfold append, open_overflow, write_open. rewrite H. destruct (ar_fate r), (event_to_string e); by rewrite ?H.
Qed.
Lemma append_all_unlinked l sp : sp_handle sp = Unlinked -> append_all pid l sp = sp.
Proof. intros H. unfold append_all. induction l as [|a l IH]; [done|]. cbn [foldl]. by rewrite append_unlinked. Qed.
Lemma append_named r e sp name : sp_handle sp = Named name -> sp_handle (append pid r e sp) = Named name.
Proof.
  intros H. unfold append, open_overflow, write_open. rewrite H. destruct (ar_fate r), (event_to_string e); rewrite ?H; cbn [sp_handle]; done.
Qed.
Lemma append_all_named l sp name : sp_handle sp = Named name -> sp_handle (append_all pid l sp) = Named name.
Proof. revert sp. unfold append_all. induction l as [|a l IH]; intros sp H; [done|]. cbn [foldl]. apply IH. by apply append_named. Qed.
Lemma spool_unlinked fate stamp events sp : sp_handle sp = Unlinked -> sp_handle (fst (spool_clickhouse_events pid fate stamp events sp)) = Unlinked.
Proof. intros H. unfold spool_clickhouse_events. repeat case_match; cbn [fst put_file sp_handle]; by rewrite ?H. Qed.
Lemma flush_unlinked f w : sp_handle (wr_spool w) = Unlinked -> sp_handle (wr_spool (flush_clickhouse_events pid f w)) = Unlinked.
Proof. intros H. unfold flush_clickhouse_events. repeat case_match; cbn [wr_spool]; try done. by apply spool_unlinked. Qed.
Lemma push_unlinked f e w : sp_handle (wr_spool w) = Unlinked -> sp_handle (wr_spool (push_event pid f e w)) = Unlinked.
Proof. intros H. unfold push_event. case_match; [by apply flush_unlinked|done]. Qed.
Lemma replay_file_unlinked r name w : sp_handle (wr_spool w) = Unlinked -> sp_handle (wr_spool (fst (replay_file pid r name w))) = Unlinked.
Proof.
  intros H. unfold replay_file. destruct (_ !! name); [|done]. destruct (negb _); [done|]. rewrite append_all_unlinked by done. cbn [wr_client wr_buffer wr_spool].
  assert (forall b c, sp_handle (wr_spool (remove_if b name {| wr_client := c; wr_buffer := wr_buffer w; wr_spool := wr_spool w |})) = Unlinked) as Hr.
  { intros b c0. unfold remove_if. destruct b; cbn; by rewrite ?H. }
  destruct (is_empty _); [apply Hr|]. destruct (insert_with _ _ _) as [c0 []]; [apply Hr|done].
Qed.
Lemma replay_files_unlinked reading names : forall w, sp_handle (wr_spool w) = Unlinked -> sp_handle (wr_spool (replay_files pid reading names w)) = Unlinked.
Proof.
  induction names as [|name names IH]; intros w H; [done|]. cbn [replay_files]. pose proof (replay_file_unlinked (reading name) name w H) as Hr.
  destruct (replay_file _ _ _ _) as [w1 []]; [by apply IH|done].
Qed.
Lemma step_gone s a : gone a -> gone (writer_step pid s a).
Proof.
  unfold gone, writer_step. intros H. destruct (sk_closed _); [done|]. destruct s as [e r|f|seen reading f| |f| |f].
  - destruct (try_send _ _); [done| |done]. cbn. by rewrite append_unlinked.
  - destruct (an_phase a); try done; destruct (sk_queue _); try done; by apply push_unlinked.
  - destruct (an_phase a); try done. by apply flush_unlinked, replay_files_unlinked.
  - by destruct (an_phase a).
  - destruct (an_phase a); try done; destruct (sk_queue _); try done; by apply flush_unlinked.
  - by destruct (an_phase a).
  - destruct (an_phase a); try done; destruct (sk_queue _); try done; by apply flush_unlinked.
Qed.
(** Events of a full queue are lost once the file of the overflow spool has been
    replayed: the core crate keeps writing to the file the replay has removed.  From
    then on, whatever happens, the file is not opened again, and recording an event
    while the queue is full leaves everything as it is. *)
Theorem overflow_lost_after_replay r name contents sink w phase steps :
  sp_handle (wr_spool w) = Named name -> sp_files (wr_spool w) !! name = Some contents -> valid_utf8 contents = true -> file_events contents <> [] ->
  rf_read r = true -> rf_removed r = true -> snd (insert_with (rf_exchange r) (file_events contents) (wr_client w)) = true ->
  let a := run_steps pid steps {| an_sink := sink; an_writer := fst (replay_file pid r name w); an_phase := phase |} in
  sp_handle (wr_spool (an_writer a)) = Unlinked /\
  (sk_capacity (an_sink a) <= Z.of_nat (length (sk_queue (an_sink a))) -> forall event reading, writer_step pid (Recorded event reading) a = a).
Proof.
  intros Hh Hn Hv He Hr Hm Hi. cbn zeta. assert (gone (run_steps pid steps {| an_sink := sink; an_writer := fst (replay_file pid r name w); an_phase := phase |})) as Hg.
  { assert (gone {| an_sink := sink; an_writer := fst (replay_file pid r name w); an_phase := phase |}) as H0.
    { unfold gone, replay_file. cbn [an_writer]. rewrite Hn, Hr, Hv. cbn [andb negb]. destruct (is_empty (file_events contents)) eqn:Ee; [by destruct (file_events contents)|].
      cbn [wr_client wr_buffer wr_spool]. destruct (insert_with _ _ _) as [c taken]. cbn [snd] in Hi. subst taken. unfold remove_if. rewrite Hm.
      cbn [fst wr_spool remove_file sp_handle]. rewrite (append_all_named _ _ name Hh). cbn [loses]. by rewrite seqb_refl. }
    revert H0. generalize {| an_sink := sink; an_writer := fst (replay_file pid r name w); an_phase := phase |}. induction steps as [|s steps IH]; intros a H0; [done|].
    cbn [run_steps foldl]. apply IH. by apply step_gone. }
  split; [done|]. intros Hfull event reading. unfold gone in Hg. set (a := run_steps pid steps _) in *. unfold writer_step.
  destruct (sk_closed (an_sink a)) eqn:Ec; [done|]. unfold try_send. rewrite Ec, (proj2 (Z.leb_le _ _)) by done. unfold on_writer. rewrite append_unlinked by done.
  destruct a as [s [c b sp] ph]. reflexivity.
Qed.
End overflow.

(** ** Examples *)

Module WriterDemo.
Import StorageDemo.
Definition geo_tuple (g : GeoLocation) := (gl_country_code g, gl_country_name g, gl_continent_code g, gl_continent_name g, gl_region g, gl_city g, gl_source g).
#[export] Instance GeoLocation_countable : Countable GeoLocation.
Proof.
  refine (inj_countable' geo_tuple (fun '(a, b, c, d, e, f, g) => {| gl_country_code := a; gl_country_name := b; gl_continent_code := c; gl_continent_name := d;
    gl_region := e; gl_city := f; gl_source := g |}) _). by intros [].
Defined.
Definition event_tuple (e : RequestObservation) :=
  (ob_request_id e, ob_domain e, ob_method e, ob_path e, ob_status e, ob_latency_ms e, (ob_upstream e, ob_remote_ip e, ob_location e, ob_timestamp_unix_ms e,
   ob_bytes_sent e, ob_bytes_received e)).
#[export] Instance RequestObservation_eq_dec : EqDecision RequestObservation.
Proof. solve_decision. Defined.
#[export] Instance RequestObservation_countable : Countable RequestObservation.
Proof.
  refine (inj_countable' event_tuple (fun '(a, b, c, d, e, f, (g, h, i, j, k, l)) => {| ob_request_id := a; ob_domain := b; ob_method := c; ob_path := d; ob_status := e;
    ob_latency_ms := f; ob_upstream := g; ob_remote_ip := h; ob_location := i; ob_timestamp_unix_ms := j; ob_bytes_sent := k; ob_bytes_received := l |}) _). by intros [].
Defined.
#[export] Instance BitEvents : EventCodec := {|
  event_to_string e := Some (chr "{" :: bits_of (encode e));
  event_from_str s := match s with b :: s => if beq b (chr "{") then decode (of_bits s) else None | [] => None end |}.
#[export] Instance BitEventsLaws : EventLaws BitEvents.
Proof.
  split. intros e. exists (chr "{" :: bits_of (encode e)). assert (Forall visible (chr "{" :: bits_of (encode e))) as Hv by (constructor; [by vm_compute|apply bits_visible]).
  split_and!; [done| | | |by apply visible_utf8|].
  - intros H. rewrite Forall_forall in Hv. specialize (Hv _ H). by destruct Hv.
  - intros H%last_Some_elem_of. rewrite Forall_forall in Hv. specialize (Hv _ H). by destruct Hv.
  - by rewrite trim_visible.
  - cbn [event_from_str BitEvents]. by rewrite beq_refl, of_bits_of, decode_encode.
Qed.

Definition event (id : string) : RequestObservation := {|
  ob_request_id := lit id; ob_domain := []; ob_method := []; ob_path := []; ob_status := 200; ob_latency_ms := 1; ob_upstream := None; ob_remote_ip := None;
  ob_location := GeoLocation_unknown; ob_timestamp_unix_ms := 7; ob_bytes_sent := 0; ob_bytes_received := 0 |}.
Definition answered : exchange := {| ex_started := 0; ex_executed := true; ex_answer := Response 200 []; ex_finished := 0 |}.
Definition lost : exchange := {| ex_started := 0; ex_executed := true; ex_answer := NoAnswer; ex_finished := 0 |}.
Definition flush (first second : exchange) (stamp : Z) : flush_reading := {| fl_first := first; fl_second := second; fl_fate := SpooledAll; fl_stamp := stamp |}.
Definition down (stamp : Z) : flush_reading := flush unreachable unreachable stamp.
Definition appended_now : append_reading := {| ar_fate := AppendedAll; ar_day := 3 |}.
Definition all_seen (_ : rstr) : bool := true.
Definition read_with (x : exchange) (meanwhile : list (append_reading * RequestObservation)) (_ : rstr) : replay_reading := {|
  rf_read := true; rf_meanwhile := meanwhile; rf_exchange := x; rf_removed := true |}.
Definition start (capacity : Z) : Analytics := {|
  an_sink := {| sk_queue := []; sk_capacity := capacity; sk_closed := false |};
  an_writer := {| wr_client := StorageDemo.new_client; wr_buffer := []; wr_spool := {| sp_files := ∅; sp_handle := NotOpen |} |};
  an_phase := Running |}.

(** An event is recorded while the database is away, and spooled at the next turn. *)
Definition outage : list step := [Recorded (event "1") appended_now; Received (down 1); Ticked all_seen (read_with unreachable []) (down 2)].
Lemma queued_events_kept_witness : map row_line [event "1"] ++ all_lines (start 1) ⊆+ all_lines (run_steps 7 outage (start 1)).
Proof.
  apply (proj1 (queued_events_kept 7 StorageDemo.PlainJsonLaws BitEventsLaws outage (start 1) ltac:(by intros name) eq_refl eq_refl
    ltac:(split_and!; try done; split_and!; done))).
Defined.
Definition back : step := Ticked all_seen (read_with answered []) (flush answered answered 3).

(** The queue has one place: the second event overflows into the file, which is then
    replayed and removed; the third is lost. *)
Definition overflowing : list step := [Recorded (event "1") appended_now; Recorded (event "2") appended_now].
Definition overflown : Analytics := run_steps 7 overflowing (start 1).
Definition overflow_text : rstr := default [] (sp_files (wr_spool (an_writer overflown)) !! overflow_name 7 3).
Lemma overflow_lost_after_replay_witness :
  let a := {| an_sink := an_sink overflown; an_writer := fst (replay_file 7 (read_with answered [] []) (overflow_name 7 3) (an_writer overflown)); an_phase := Running |} in
  writer_step 7 (Recorded (event "3") appended_now) a = a /\ stored_lines (wr_client (an_writer a)) = [lit "2"].
Proof.
  split; [|vm_compute; reflexivity].
  refine (proj2 (overflow_lost_after_replay 7 (read_with answered [] []) (overflow_name 7 3) overflow_text (an_sink overflown) (an_writer overflown) Running [] _ _ _ _ _ _ _) _ _ _);
    try (vm_compute; reflexivity).
  - by vm_compute.
  - vm_compute. discriminate.
Defined.
(** The shutdown: the first event is in the queue and is stored; the second comes
    while the last flush is awaited, is taken by the queue, and is lost. *)
Definition stopping : list step := [Recorded (event "1") appended_now; ShutDown; Received (flush answered answered 1); LastFlush (flush answered answered 2);
  Recorded (event "2") appended_now; TaskEnds].
Example late_event_lost :
  let a := run_steps 7 stopping (start 1) in
  (accepted_all 7 stopping (start 1), stored_lines (wr_client (an_writer a)), sk_queue (an_sink a), batches (wr_spool (an_writer a))) =
  ([event "1"], [lit "1"], [], []) /\
  sk_queue (an_sink (run_steps 7 (take 5 stopping) (start 1))) = [event "2"].
Proof. split; by vm_compute. Qed.
(** What is appended between the reading of the file and its removal is lost too. *)
Example appended_meanwhile_lost :
  let w := fst (replay_file 7 (read_with answered [(appended_now, event "3")] []) (overflow_name 7 3) (an_writer overflown)) in
  (stored_lines (wr_client w), size (sp_files (wr_spool w))) = ([lit "2"], 0%nat).
Proof. by vm_compute. Qed.
(** A reply that is lost makes the events appear twice. *)
Example lost_reply_stores_twice :
  stored_lines (wr_client (an_writer (run_steps 7 [Recorded (event "1") appended_now; Received (down 1); Ticked all_seen (read_with answered []) (flush lost answered 2)] (start 1))))
  = lits ["1"; "1"].
Proof. by vm_compute. Qed.
(** A file the database does not take stops the replay of all that come after it. *)
Definition two_files : Writer := an_writer (run_steps 7 (outage ++ [Recorded (event "2") appended_now; Received (down 3); Ticked all_seen (read_with unreachable []) (down 4)]) (start 1)).
Definition poison (name : rstr) : replay_reading := read_with (if name =s? spool_name 7 2 then unreachable else answered) [] name.
Example first_file_blocks_the_rest :
  (length (jsonl_names (wr_spool two_files)), length (jsonl_names (wr_spool (replay_clickhouse_spool 7 all_seen poison two_files))),
   stored_lines (wr_client (replay_clickhouse_spool 7 all_seen poison two_files))) = (2%nat, 2%nat, []).
Proof. by vm_compute. Qed.
End WriterDemo.
