(* ===== verification/Listeners.v ===== *)
(** The listeners of the edge: the accept loops of the HTTP and HTTPS proxy
    ([http-proxy]), of the admin and metrics ports ([api]) and of the database
    ports ([database-proxy]).  All have one form: a loop that waits for a
    connection or for the shutdown channel, a semaphore of permits, and one
    spawned task for each connection, which gives its permit back when it ends.
    The tunnel of an upgraded connection is a task of its own that the handler spawns:
    it has no permit and no time limit, and lives on after the connection's task.

    The state is that of all loops and tasks; an event is one thing the network,
    the clock, the scheduler or the main task may do.  [listener_step] has no
    result where the event cannot happen.  The theorems hold for every order of
    the events.  What a task does with the bytes of its connection is modelled
    elsewhere; [service_call] says which handler it runs, with which arguments. *)
From stdpp Require Import options.
From S2P Require Import Prelude RustStr RustNum RustNet HttpPolicy DatabaseProxy.

Local Open Scope Z_scope.
Local Open Scope rust_scope.

(** ** Limits *)

Definition EDGE_CONNECTION_TIMEOUT_SECONDS : Z := 120.
Definition EDGE_MAX_CONNECTIONS : Z := 8192.
Definition API_CONNECTION_TIMEOUT_SECONDS : Z := 120.
Definition API_MAX_CONNECTIONS : Z := 2048.
Definition DB_PROXY_CONNECTION_TIMEOUT_SECONDS : Z := 300.
Definition DB_PROXY_MAX_CONNECTIONS : Z := 4096.

(** ** The six loops *)

(** What the task of a connection runs, with what arguments. *)
Inductive Call :=
| ProxyHandle (remote_ip : IpAddr) (scheme : RequestScheme) (client_cert_pem : option rstr)
| ApiHandle (remote_ip : IpAddr)
| MetricsGather
| DatabaseConnection (database_type : rstr)
| PublicPortConnection (port : Z).
(** What the loops differ in: the permits of the semaphore, the limit of
    [time::timeout] in seconds, whether a TLS handshake comes first, whether
    [serve_stream] counts the connection in [active_connections], and the handler. *)
Record Loop := {
  lp_permits : Z;
  lp_timeout : Z;
  lp_handshake : bool;
  lp_counted : bool;
  lp_call : IpAddr -> option rstr -> Call;
}.
Definition run_plain_listener : Loop := {|
  lp_permits := EDGE_MAX_CONNECTIONS; lp_timeout := EDGE_CONNECTION_TIMEOUT_SECONDS; lp_handshake := false; lp_counted := true;
  lp_call peer client_cert := ProxyHandle peer Http client_cert |}.
Definition run_tls_listener : Loop := {|
  lp_permits := EDGE_MAX_CONNECTIONS; lp_timeout := EDGE_CONNECTION_TIMEOUT_SECONDS; lp_handshake := true; lp_counted := true;
  lp_call peer client_cert := ProxyHandle peer Https client_cert |}.
Definition run_api_listener : Loop := {|
  lp_permits := API_MAX_CONNECTIONS; lp_timeout := API_CONNECTION_TIMEOUT_SECONDS; lp_handshake := false; lp_counted := false;
  lp_call peer _ := ApiHandle peer |}.
Definition run_metrics_listener : Loop := {|
  lp_permits := API_MAX_CONNECTIONS; lp_timeout := API_CONNECTION_TIMEOUT_SECONDS; lp_handshake := false; lp_counted := false;
  lp_call _ _ := MetricsGather |}.
(** The type is normalised once, before the loop. *)
Definition run_database_proxy (database_type : rstr) : Loop := {|
  lp_permits := DB_PROXY_MAX_CONNECTIONS; lp_timeout := DB_PROXY_CONNECTION_TIMEOUT_SECONDS; lp_handshake := false; lp_counted := false;
  lp_call _ _ := DatabaseConnection (normalize_database_type database_type) |}.
Definition run_database_proxy_public_port (public_port : Z) : Loop := {|
  lp_permits := DB_PROXY_MAX_CONNECTIONS; lp_timeout := DB_PROXY_CONNECTION_TIMEOUT_SECONDS; lp_handshake := false; lp_counted := false;
  lp_call _ _ := PublicPortConnection public_port |}.

Inductive Kind := PlainListener | TlsListener | ApiListener | MetricsListener
  | DatabaseListener (database_type : rstr) | PublicPortListener (port : Z).
Definition loop_of (k : Kind) : Loop :=
  match k with
  | PlainListener => run_plain_listener
  | TlsListener => run_tls_listener
  | ApiListener => run_api_listener
  | MetricsListener => run_metrics_listener
  | DatabaseListener database_type => run_database_proxy database_type
  | PublicPortListener port => run_database_proxy_public_port port
  end.
Definition max_connections (k : Kind) : Z := lp_permits (loop_of k).
Definition connection_timeout (k : Kind) : Z := lp_timeout (loop_of k).
Definition counted (k : Kind) : bool := lp_counted (loop_of k).

(** ** The server *)

(** [TlsConfig] is rustls' [ServerConfig]; [base64] the standard alphabet. *)
Section listeners.
Context {TlsConfig : Type} (base64 : rstr -> rstr).

(** The task of a connection: spawned and not yet run, in the TLS handshake with
    the configuration of its arrival, or being served since a moment. *)
Inductive Phase := Spawned | Handshake (config : TlsConfig) | Serving (since : Z) (client_cert : option rstr).
Record Conn := { cn_peer : IpAddr; cn_phase : Phase }.
Inductive Status := Listening | Stopped | Failed (error : rstr).
Record Listener := {
  ls_kind : Kind;
  ls_status : Status;
  ls_permits : Z;
  ls_conns : gmap nat Conn;
  ls_next : nat;
  (** the tunnel tasks that handlers of this listener's connections spawned and that live *)
  ls_tunnels : nat;
  (** the served connections, counted in the gauge, whose task ended in a panic *)
  ls_panicked : Z;
}.
(** The clock, the configuration in [ReloadableTlsConfig], the gauge
    [active_connections], and the listeners. *)
Record Edge := {
  eg_now : Z;
  eg_tls : TlsConfig;
  eg_active : Z;
  eg_listeners : list Listener;
}.

Inductive Event :=
| Accepted (peer : IpAddr)
| AcceptFailed (error : rstr)
| ShutdownChanged (changed : bool) (value : bool)
| Started (c : nat)
| HandshakeDone (c : nat) (peer_certificates : list rstr)
| HandshakeFailed (c : nat)
| Ended (c : nat)
| TimedOut (c : nat)
| Panicked (c : nat)
| Upgraded (c : nat)
| TunnelClosed.

(** [TcpListener::bind(addr).await?]: the task ends when the address is taken. *)
Definition bind (k : Kind) (error : option rstr) : Listener := {|
  ls_kind := k; ls_status := match error with Some error => Failed error | None => Listening end;
  ls_permits := max_connections k; ls_conns := ∅; ls_next := 0; ls_tunnels := 0; ls_panicked := 0 |}.
Definition set_status (s : Status) (l : Listener) : Listener := {|
  ls_kind := ls_kind l; ls_status := s; ls_permits := ls_permits l; ls_conns := ls_conns l; ls_next := ls_next l; ls_tunnels := ls_tunnels l;
  ls_panicked := ls_panicked l |}.
Definition set_conns (permits : Z) (conns : gmap nat Conn) (l : Listener) : Listener := {|
  ls_kind := ls_kind l; ls_status := ls_status l; ls_permits := permits; ls_conns := conns; ls_next := ls_next l; ls_tunnels := ls_tunnels l;
  ls_panicked := ls_panicked l |}.

(** [spawn_connection] and [tokio::spawn]: the task takes the permit with it. *)
Definition spawn_connection (c : Conn) (l : Listener) : Listener := {|
  ls_kind := ls_kind l; ls_status := ls_status l; ls_permits := ls_permits l - 1;
  ls_conns := <[ls_next l := c]> (ls_conns l); ls_next := S (ls_next l); ls_tunnels := ls_tunnels l; ls_panicked := ls_panicked l |}.
(** The TLS listener takes the configuration when the connection arrives. *)
Definition arrival (tls : TlsConfig) (k : Kind) : Phase := if lp_handshake (loop_of k) then Handshake tls else Spawned.
(** [try_acquire_owned]: without a permit the connection is closed at once. *)
Definition accept (tls : TlsConfig) (peer : IpAddr) (l : Listener) : Listener :=
  if ls_permits l <=? 0 then l
  else spawn_connection {| cn_peer := peer; cn_phase := arrival tls (ls_kind l) |} l.
(** The end of the task drops the permit. *)
Definition finish (c : nat) (l : Listener) : Listener := set_conns (ls_permits l + 1) (delete c (ls_conns l)) l.
Definition set_tunnels (n : nat) (panicked : Z) (l : Listener) : Listener := {|
  ls_kind := ls_kind l; ls_status := ls_status l; ls_permits := ls_permits l; ls_conns := ls_conns l; ls_next := ls_next l;
  ls_tunnels := n; ls_panicked := panicked |}.
(** [serve_stream] up to its [time::timeout] *)
Definition begin_serving (now : Z) (cert : option rstr) (c : nat) (conn : Conn) (l : Listener) : Listener :=
  set_conns (ls_permits l) (<[c := {| cn_peer := cn_peer conn; cn_phase := Serving now cert |}]> (ls_conns l)) l.
(** [peer_certificate_pem]: the line ends are written as a backslash and an n. *)
Definition peer_certificate_pem (certificates : list rstr) : option rstr :=
  match certificates with
  | cert :: _ => Some (lit "-----BEGIN CERTIFICATE-----\n" ++ base64 cert ++ lit "\n-----END CERTIFICATE-----")
  | [] => None
  end.

Definition gauge_change (l : Listener) (change : Z) : Z := if counted (ls_kind l) then change else 0.
(** A panic of the handler unwinds the task: the permit is dropped, but the line of
    [serve_stream] that takes the gauge back is not reached. *)
Definition panic (c : nat) (conn : Conn) (l : Listener) : Listener :=
  let l := finish c l in
  set_tunnels (ls_tunnels l) (ls_panicked l + match cn_phase conn with Serving _ _ => gauge_change l 1 | _ => 0 end) l.
(** The listener after the event, and the change of the gauge. *)
Definition listener_step (now : Z) (tls : TlsConfig) (e : Event) (l : Listener) : option (Listener * Z) :=
  match e with
  | Accepted peer => match ls_status l with Listening => Some (accept tls peer l, 0) | _ => None end
  | AcceptFailed error => match ls_status l with Listening => Some (set_status (Failed error) l, 0) | _ => None end
  | ShutdownChanged changed value =>
    match ls_status l with
    | Listening => Some (if changed && value then set_status Stopped l else l, 0)
    | _ => None
    end
  | Started c =>
    match ls_conns l !! c with
    | Some conn => match cn_phase conn with Spawned => Some (begin_serving now None c conn l, gauge_change l 1) | _ => None end
    | None => None
    end
  | HandshakeDone c certificates =>
    match ls_conns l !! c with
    | Some conn =>
      match cn_phase conn with
      | Handshake _ => Some (begin_serving now (peer_certificate_pem certificates) c conn l, gauge_change l 1)
      | _ => None
      end
    | None => None
    end
  | HandshakeFailed c =>
    match ls_conns l !! c with
    | Some conn => match cn_phase conn with Handshake _ => Some (finish c l, 0) | _ => None end
    | None => None
    end
  | Ended c =>
    match ls_conns l !! c with
    | Some conn => match cn_phase conn with Serving _ _ => Some (finish c l, gauge_change l (-1)) | _ => None end
    | None => None
    end
  | TimedOut c =>
    match ls_conns l !! c with
    | Some conn =>
      match cn_phase conn with
      | Serving since _ => if since + connection_timeout (ls_kind l) <=? now then Some (finish c l, gauge_change l (-1)) else None
      | _ => None
      end
    | None => None
    end
  | Panicked c => match ls_conns l !! c with Some conn => Some (panic c conn l, 0) | None => None end
  (* a handler of the proxy switched protocols and spawned a tunnel *)
  | Upgraded c =>
    match ls_conns l !! c with
    | Some conn =>
      match cn_phase conn with
      | Serving _ _ => if counted (ls_kind l) then Some (set_tunnels (S (ls_tunnels l)) (ls_panicked l) l, 0) else None
      | _ => None
      end
    | None => None
    end
  | TunnelClosed => match ls_tunnels l with S n => Some (set_tunnels n (ls_panicked l) l, 0) | O => None end
  end.

(** What may happen to the edge: an event of a listener, the passing of time, and
    [ReloadableTlsConfig::store] by the certificate reloader. *)
Inductive EdgeEvent := At (i : nat) (e : Event) | Elapse (seconds : Z) | StoreTls (config : TlsConfig).
Definition edge_step (e : EdgeEvent) (s : Edge) : option Edge :=
  match e with
  | Elapse seconds =>
    if 0 <=? seconds then
      Some {| eg_now := eg_now s + seconds; eg_tls := eg_tls s; eg_active := eg_active s; eg_listeners := eg_listeners s |}
    else None
  | StoreTls config =>
    Some {| eg_now := eg_now s; eg_tls := config; eg_active := eg_active s; eg_listeners := eg_listeners s |}
  | At i e =>
    match eg_listeners s !! i with
    | Some l =>
      match listener_step (eg_now s) (eg_tls s) e l with
      | Some (l', change) =>
        Some {| eg_now := eg_now s; eg_tls := eg_tls s; eg_active := eg_active s + change;
                eg_listeners := <[i := l']> (eg_listeners s) |}
      | None => None
      end
    | None => None
    end
  end.
Fixpoint run (events : list EdgeEvent) (s : Edge) : option Edge :=
  match events with
  | [] => Some s
  | e :: rest => match edge_step e s with Some s => run rest s | None => None end
  end.
(** The start: each listener with the error of its [bind], if it had one.  The
    main task spawns them all and looks at none of them before the signal. *)
Definition start (now : Z) (tls : TlsConfig) (kinds : list (Kind * option rstr)) : Edge := {|
  eg_now := now; eg_tls := tls; eg_active := 0; eg_listeners := (fun ke => bind (fst ke) (snd ke)) <$> kinds |}.

(** The handler of a connection that is being served. *)
Definition service_call (k : Kind) (c : Conn) : option Call :=
  match cn_phase c with Serving _ cert => Some (lp_call (loop_of k) (cn_peer c) cert) | _ => None end.
End listeners.

(** ** Theorems *)

Section theorems.
Context {TlsConfig : Type} (base64 : rstr -> rstr).
Local Abbreviation Conn := (Conn (TlsConfig := TlsConfig)).
Local Abbreviation Listener := (Listener (TlsConfig := TlsConfig)).
Local Abbreviation Edge := (Edge (TlsConfig := TlsConfig)).
Local Abbreviation step := (listener_step (TlsConfig := TlsConfig) base64).

Definition is_serving (c : Conn) : bool := match cn_phase c with Serving _ _ => true | _ => false end.
Definition serving (conns : gmap nat Conn) : Z := Z.of_nat (size (filter (fun kc => is_serving (snd kc) = true) conns)).
Definition active_of (l : Listener) : Z := gauge_change l (serving (ls_conns l)).
Definition total (f : Listener -> Z) (ls : list Listener) : Z := foldr (fun l n => f l + n) 0 ls.
Definition sum_active (ls : list Listener) : Z := total active_of ls.
(** The served connections whose handler panicked. *)
Definition sum_panicked (ls : list Listener) : Z := total ls_panicked ls.
(** What the gauge has for a listener. *)
Definition gauge_of (l : Listener) : Z := active_of l + ls_panicked l.

(** What the phase of a task may be, at a time, in a listener of a kind. *)
Definition phase_ok (now : Z) (k : Kind) (p : Phase (TlsConfig := TlsConfig)) : Prop :=
  match p with
  | Spawned => k <> TlsListener
  | Handshake _ => k = TlsListener
  | Serving since cert => since <= now /\ (k <> TlsListener -> cert = None)
  end.
Record listener_ok (now : Z) (l : Listener) : Prop := {
  ok_permits : ls_permits l + Z.of_nat (size (ls_conns l)) = max_connections (ls_kind l);
  ok_free : 0 <= ls_permits l;
  ok_next c conn : ls_conns l !! c = Some conn -> (c < ls_next l)%nat;
  ok_phase c conn : ls_conns l !! c = Some conn -> phase_ok now (ls_kind l) (cn_phase conn);
  ok_panicked : 0 <= ls_panicked l;
}.
Record edge_ok (s : Edge) : Prop := {
  ok_listeners : Forall (listener_ok (eg_now s)) (eg_listeners s);
  ok_active : eg_active s = total gauge_of (eg_listeners s);
}.

(** *** Counting *)

Lemma serving_fresh m c x : m !! c = None -> serving (<[c := x]> m) = (if is_serving x then 1 else 0) + serving m.
Proof.
  intros Hm. unfold serving. destruct (is_serving x) eqn:E.
  - rewrite map_filter_insert_True by done. rewrite map_size_insert_None; [lia|]. apply map_lookup_filter_None. by left.
  - rewrite map_filter_insert_False, delete_id by (done || (cbn; congruence)). lia.
Qed.
Lemma serving_delete m c y : m !! c = Some y -> serving m = (if is_serving y then 1 else 0) + serving (delete c m).
Proof. intros Hm. rewrite <- (insert_delete_id m c y Hm) at 1. apply serving_fresh, lookup_delete_eq. Qed.
Lemma serving_insert m c x y : m !! c = Some y -> is_serving y = false -> is_serving x = true -> serving (<[c := x]> m) = serving m + 1.
Proof.
  intros Hm Ey Ex. rewrite (serving_delete m c y Hm), Ey, <- insert_delete_eq, serving_fresh, Ex by apply lookup_delete_eq. lia.
Qed.
Lemma size_delete_Z (m : gmap nat Conn) c y : m !! c = Some y -> Z.of_nat (size (delete c m)) = Z.of_nat (size m) - 1.
Proof. intros Hm. rewrite map_size_delete_Some by done. assert (size m <> O) by (apply map_size_ne_0_lookup; eauto). lia. Qed.
Lemma total_insert f ls i l l' : ls !! i = Some l -> total f (<[i := l']> ls) = total f ls + (f l' - f l).
Proof.
  revert i. induction ls as [|x ls IH]; intros [|i] Hi; simplify_eq/=; [lia|]. rewrite (IH i) by done. lia.
Qed.
Lemma total_gauge ls : total gauge_of ls = sum_active ls + sum_panicked ls.
Proof. unfold sum_active, sum_panicked. induction ls as [|l ls IH]; cbn [total foldr] in *; [done|]. unfold total in *. rewrite IH. unfold gauge_of. lia. Qed.

(** *** The invariant *)

Lemma phase_ok_later now now' k p : now <= now' -> phase_ok now k p -> phase_ok now' k p.
Proof. destruct p; cbn; [done..|]. intros ? [? ?]. split; [lia|done]. Qed.
Lemma listener_ok_later now now' l : now <= now' -> listener_ok now l -> listener_ok now' l.
Proof. intros Hn []. split; try done. intros c conn Hc. eapply phase_ok_later; eauto. Qed.
Lemma bind_ok now k error : listener_ok now (bind k error).
Proof. split; cbn [bind ls_permits ls_conns ls_kind]; [rewrite map_size_empty; lia|by destruct k|done..]. Qed.

Lemma accept_ok now tls peer l : listener_ok now l -> listener_ok now (accept tls peer l) /\ gauge_of (accept tls peer l) = gauge_of l.
Proof.
  intros [Hp Hf Hn Hph Hpa]. unfold accept. destruct (Z.leb_spec (ls_permits l) 0); [done|].
  assert (Hfresh : ls_conns l !! ls_next l = None).
  { destruct (ls_conns l !! ls_next l) eqn:E; [|done]. apply Hn in E. lia. }
  split; [split|]; cbn [spawn_connection ls_permits ls_conns ls_kind ls_next].
  - rewrite map_size_insert_None by done. lia.
  - lia.
  - intros c conn [[<- _]|[_ Hc%Hn]]%lookup_insert_Some; lia.
  - intros c conn [[_ <-]|[_ Hc%Hph]]%lookup_insert_Some; [|done]. by destruct (ls_kind l).
  - done.
  - unfold gauge_of, active_of, gauge_change. cbn [spawn_connection ls_conns ls_kind ls_panicked]. rewrite serving_fresh by done.
    unfold is_serving. cbn [cn_phase]. by destruct (ls_kind l).
Qed.
Lemma finish_ok now c conn l : listener_ok now l -> ls_conns l !! c = Some conn ->
  listener_ok now (finish c l) /\ gauge_of (finish c l) = gauge_of l - gauge_change l (if is_serving conn then 1 else 0).
Proof.
  intros [Hp Hf Hn Hph Hpa] Hc. split; [split|]; cbn [finish set_conns ls_permits ls_conns ls_kind ls_next].
  - rewrite (size_delete_Z _ _ _ Hc). lia.
  - lia.
  - intros c' conn' [_ H]%lookup_delete_Some. eauto.
  - intros c' conn' [_ H]%lookup_delete_Some. eauto.
  - done.
  - unfold gauge_of, active_of, gauge_change. cbn [finish set_conns ls_conns ls_kind ls_panicked]. rewrite (serving_delete _ _ _ Hc).
    destruct (counted _); lia.
Qed.
Lemma set_tunnels_ok now n k l : listener_ok now l -> 0 <= k ->
  listener_ok now (set_tunnels n (ls_panicked l + k) l) /\ gauge_of (set_tunnels n (ls_panicked l + k) l) = gauge_of l + k.
Proof.
  intros [Hp Hf Hn Hph Hpa] Hk. split; [split; cbn; try done; lia|]. unfold gauge_of, active_of, gauge_change. cbn [set_tunnels ls_conns ls_kind ls_panicked]. lia.
Qed.
Lemma panic_ok now c conn l : listener_ok now l -> ls_conns l !! c = Some conn ->
  listener_ok now (panic c conn l) /\ gauge_of (panic c conn l) = gauge_of l.
Proof.
  intros Hl Hc. destruct (finish_ok _ _ _ _ Hl Hc) as [Hf Hg]. unfold panic.
  edestruct set_tunnels_ok as [H1 H2]; [exact Hf| |split; [exact H1|rewrite H2, Hg]].
  - unfold gauge_change. destruct (cn_phase conn); [lia..|]. destruct (counted _); lia.
  - unfold is_serving. destruct (cn_phase conn); unfold gauge_change; cbn [finish set_conns ls_kind]; destruct (counted _); lia.
Qed.
Lemma begin_serving_ok now cert c conn l : listener_ok now l -> ls_conns l !! c = Some conn -> is_serving conn = false ->
  (ls_kind l <> TlsListener -> cert = None) ->
  listener_ok now (begin_serving now cert c conn l) /\ gauge_of (begin_serving now cert c conn l) = gauge_of l + gauge_change l 1.
Proof.
  intros [Hp Hf Hn Hph Hpa] Hc Hs Hcert. split; [split|]; cbn [begin_serving set_conns ls_permits ls_conns ls_kind ls_next].
  - rewrite map_size_insert_Some by eauto. lia.
  - lia.
  - intros c' conn' [[<- _]|[_ H]]%lookup_insert_Some; eauto.
  - intros c' conn' [[_ <-]|[_ H]]%lookup_insert_Some; [|eauto]. cbn. split; [lia|done].
  - done.
  - unfold gauge_of, active_of, gauge_change. cbn [begin_serving set_conns ls_conns ls_kind ls_panicked].
    rewrite (serving_insert _ _ _ _ Hc) by done. destruct (counted _); lia.
Qed.

(** An event of a connection finds the connection in the phase it is about. *)
Lemma step_cases now tls e l l' change : step now tls e l = Some (l', change) ->
  (ls_conns l' = ls_conns l /\ ls_permits l' = ls_permits l /\ ls_next l' = ls_next l /\ ls_kind l' = ls_kind l /\ ls_panicked l' = ls_panicked l /\ change = 0) \/
  (exists peer, l' = accept tls peer l /\ change = 0 /\ ls_status l = Listening) \/
  (exists c conn cert, l' = begin_serving now cert c conn l /\ change = gauge_change l 1 /\ ls_conns l !! c = Some conn /\
     ((cn_phase conn = Spawned /\ cert = None) \/ exists config, cn_phase conn = Handshake config)) \/
  (exists c conn, l' = finish c l /\ ls_conns l !! c = Some conn /\ change = gauge_change l (if is_serving conn then -1 else 0) /\ cn_phase conn <> Spawned) \/
  (exists c conn, l' = panic c conn l /\ ls_conns l !! c = Some conn /\ change = 0).
Proof.
  destruct e; cbn [listener_step]; intros H; repeat match type of H with context [match ?x with _ => _ end] => destruct x eqn:?; simplify_eq end;
    try (left; try match goal with |- context [if ?b then _ else _] => destruct b end; split_and!; done); try (right; left; eexists; split_and!; done);
    try (right; right; left; do 3 eexists; split_and!; [reflexivity|reflexivity|eassumption|naive_solver]; fail).
  all: try (right; right; right; right; do 2 eexists; split_and!; [reflexivity|eassumption|reflexivity]; fail).
  all: right; right; right; left; do 2 eexists; split_and!; [done|eassumption| |congruence].
  all: unfold is_serving; match goal with Hp : cn_phase _ = _ |- _ => rewrite Hp end; unfold gauge_change; by destruct (counted _).
Qed.
Lemma step_ok now tls e l l' change : listener_ok now l -> step now tls e l = Some (l', change) ->
  listener_ok now l' /\ gauge_of l' = gauge_of l + change.
Proof.
  intros Hl H. destruct (step_cases _ _ _ _ _ _ H) as [(Hc & Hp & Hn & Hk & Hpa & ->)|[(peer & -> & -> & _)|[(c & conn & cert & -> & -> & Hc & Hcert)|[(c & conn & -> & Hc & -> & _)|(c & conn & -> & Hc & ->)]]]].
  - destruct Hl. split; [split; rewrite ?Hc, ?Hp, ?Hn, ?Hk, ?Hpa; done|]. unfold gauge_of, active_of, gauge_change. rewrite Hc, Hk, Hpa. lia.
  - rewrite Z.add_0_r. by apply accept_ok.
  - apply begin_serving_ok; [done..| |].
    + unfold is_serving. by destruct Hcert as [[-> _]|[? ->]].
    + destruct Hcert as [[_ ->]|[? Hp]]; [done|]. pose proof (ok_phase _ _ Hl _ _ Hc) as Hk. rewrite Hp in Hk. by intros [].
  - destruct (finish_ok _ _ _ _ Hl Hc) as [? ->]. split; [done|]. unfold gauge_change. destruct (counted _), (is_serving conn); lia.
  - rewrite Z.add_0_r. by apply panic_ok.
Qed.
Lemma listeners_step_ok e s s' : edge_ok s -> edge_step base64 e s = Some s' -> edge_ok s'.
Proof.
  intros [Hl Ha]. destruct e as [i e|seconds|config]; cbn [edge_step].
  - destruct (eg_listeners s !! i) as [l|] eqn:Ei; [|done]. destruct (step _ _ _ _) as [[l' change]|] eqn:Es; [|done]. intros [= <-].
    destruct (step_ok _ _ _ _ _ _ (Forall_lookup_1 _ _ _ _ Hl Ei) Es) as [Hl' Hd]. split; cbn [eg_listeners eg_now eg_active].
    + by apply Forall_insert.
    + rewrite (total_insert _ _ _ _ _ Ei). lia.
  - destruct (Z.leb_spec 0 seconds); [|done]. intros [= <-]. split; cbn; [|done].
    eapply Forall_impl; [exact Hl|]. intros l. apply listener_ok_later. lia.
  - by intros [= <-].
Qed.
Lemma start_ok now tls kinds : edge_ok (start now tls kinds).
Proof.
  split; cbn [start eg_listeners eg_now eg_active].
  - apply Forall_fmap, Forall_true. intros [k error]. apply bind_ok.
  - induction kinds as [|[k error] kinds IH]; [done|]. cbn [fmap list_fmap total foldr]. fold (total gauge_of ((fun ke => bind (fst ke) (snd ke)) <$> kinds)).
    rewrite <- IH. unfold gauge_of, active_of, gauge_change, serving. cbn [fst snd bind ls_conns ls_panicked]. rewrite map_filter_empty, map_size_empty. by destruct (counted _).
Qed.
Lemma run_ok events s s' : edge_ok s -> run base64 events s = Some s' -> edge_ok s'.
Proof.
  revert s. induction events as [|e events IH]; intros s Hs; cbn [run]; [by intros [= <-]|].
  destruct (edge_step base64 e s) eqn:E; [|done]. apply IH. by eapply listeners_step_ok.
Qed.
Lemma run_app (events events' : list (EdgeEvent (TlsConfig := TlsConfig))) s s1 s' : run base64 events s = Some s1 -> run base64 events' s1 = Some s' -> run base64 (events ++ events') s = Some s'.
Proof.
  revert s. induction events as [|e events IH]; intros s; cbn [run app]; [by intros [= ->]|]. destruct (edge_step base64 e s); [|done]. apply IH.
Qed.
Lemma active_bounds now l : listener_ok now l -> 0 <= active_of l <= (if counted (ls_kind l) then max_connections (ls_kind l) else 0).
Proof.
  intros [Hp Hf _ _ _]. unfold active_of, gauge_change, serving. destruct (counted _); [|lia].
  pose proof (map_size_filter (fun kc => is_serving (snd kc) = true) (ls_conns l)). lia.
Qed.

(** C22: in every state the listeners can reach, whatever connections, errors,
    handshakes, ends, timeouts, panics, upgrades, shutdowns and reloads came in
    whatever order, each listener has handed out exactly one permit for every
    connection task that lives, never more than its limit, so at most that many of
    these tasks run; and the gauge [active_connections] is the number of connections
    being served by the HTTP and HTTPS listeners together, plus one for each served
    connection whose task ended in a panic, which is never taken back. The tunnels of
    upgraded connections are outside all of this: their tasks have no permit, the
    gauge does not count them, and no limit holds for their number. *)
Theorem connection_slots_exact now tls kinds events s :
  run base64 events (start now tls kinds) = Some s ->
  (forall i l, eg_listeners s !! i = Some l ->
     ls_permits l = max_connections (ls_kind l) - Z.of_nat (size (ls_conns l)) /\
     Z.of_nat (size (ls_conns l)) <= max_connections (ls_kind l)) /\
  eg_active s = sum_active (eg_listeners s) + sum_panicked (eg_listeners s).
Proof.
  intros H. destruct (run_ok _ _ _ (start_ok _ _ _) H) as [Hl Ha]. split; [|by rewrite <- total_gauge].
  intros i l Hi. destruct (Forall_lookup_1 _ _ _ _ Hl Hi). lia.
Qed.

(** *** The life of a connection *)

Definition evolves (c c' : Conn) : Prop :=
  cn_peer c' = cn_peer c /\ match cn_phase c with Serving _ _ => cn_phase c' = cn_phase c | _ => True end.
Record follows (l l' : Listener) : Prop := {
  fw_kind : ls_kind l' = ls_kind l;
  fw_next : (ls_next l <= ls_next l')%nat;
  fw_status : ls_status l <> Listening -> ls_status l' = ls_status l /\ ls_next l' = ls_next l;
  fw_conns c conn' : (c < ls_next l)%nat -> ls_conns l' !! c = Some conn' -> exists conn, ls_conns l !! c = Some conn /\ evolves conn conn';
}.
Lemma evolves_refl c : evolves c c.
Proof. split; [done|]. by destruct (cn_phase c). Qed.
Lemma evolves_trans c1 c2 c3 : evolves c1 c2 -> evolves c2 c3 -> evolves c1 c3.
Proof. intros [P1 H1] [P2 H2]. split; [congruence|]. destruct (cn_phase c1); try done. rewrite H1 in H2. by rewrite H2. Qed.
Lemma follows_refl l : follows l l.
Proof. split; [done..|]. intros. eexists. split; [eassumption|apply evolves_refl]. Qed.
Lemma follows_trans l1 l2 l3 : follows l1 l2 -> follows l2 l3 -> follows l1 l3.
Proof.
  intros [K1 N1 S1 C1] [K2 N2 S2 C2]. split.
  - congruence.
  - lia.
  - intros H. destruct (S1 H) as [E1 E2]. rewrite E1, E2 in S2. by apply S2.
  - intros c conn3 Hc H3. destruct (C2 c conn3) as (conn2 & H2 & E2); [lia|done|]. destruct (C1 c conn2 Hc H2) as (conn1 & H1 & E1).
    exists conn1. split; [done|by eapply evolves_trans].
Qed.
Lemma step_follows now tls e l l' change : step now tls e l = Some (l', change) -> follows l l'.
Proof.
  intros H. destruct (step_cases _ _ _ _ _ _ H) as [(Hc & Hp & Hn & Hk & _)|[(peer & -> & _ & Hs)|[(c & conn & cert & -> & _ & Hc & Hph)|[(c & conn & -> & Hc & _)|(c & conn & -> & Hc & _)]]]].
  - split; [done|lia| |].
    + intros Hs. split; [|done]. destruct e; cbn [listener_step] in H; repeat (case_match; simplify_eq); done.
    + intros c conn' _. rewrite Hc. intros Hc'. exists conn'. split; [done|apply evolves_refl].
  - unfold accept. destruct (ls_permits l <=? 0); [apply follows_refl|].
    split; cbn; [done|lia|done|]. intros c conn' Hc [[<- _]|[_ Hc']]%lookup_insert_Some; [lia|]. exists conn'. split; [done|apply evolves_refl].
  - split; cbn; [done|lia|done|]. intros c' conn' _ [[<- <-]|[_ Hc']]%lookup_insert_Some.
    + exists conn. split; [done|]. split; [done|]. by destruct Hph as [[-> _]|[? ->]].
    + exists conn'. split; [done|apply evolves_refl].
  - split; cbn; [done|lia|done|]. intros c' conn' _ [_ Hc']%lookup_delete_Some. exists conn'. split; [done|apply evolves_refl].
  - split; cbn; [done|lia|done|]. intros c' conn' _ [_ Hc']%lookup_delete_Some. exists conn'. split; [done|apply evolves_refl].
Qed.
Lemma edge_step_follows e s s' i l : edge_step base64 e s = Some s' -> eg_listeners s !! i = Some l ->
  exists l', eg_listeners s' !! i = Some l' /\ follows l l'.
Proof.
  intros H Hi. assert (Hsame : eg_listeners s' = eg_listeners s -> exists l', eg_listeners s' !! i = Some l' /\ follows l l').
  { intros ->. exists l. split; [done|apply follows_refl]. }
  destruct e as [j e|seconds|config]; cbn [edge_step] in H.
  - destruct (eg_listeners s !! j) as [lj|] eqn:Ej; [|done]. destruct (step _ _ _ _) as [[l' change]|] eqn:Es; [|done]. injection H as <-. cbn.
    destruct (decide (j = i)) as [->|Hji].
    + rewrite list_lookup_insert_eq by (by eapply lookup_lt_Some). eexists. split; [done|]. simplify_eq. by eapply step_follows.
    + rewrite list_lookup_insert_ne by done. exists l. split; [done|apply follows_refl].
  - destruct (0 <=? seconds); [|done]. injection H as <-. by apply Hsame.
  - injection H as <-. by apply Hsame.
Qed.
Lemma run_follows events s s' i l : run base64 events s = Some s' -> eg_listeners s !! i = Some l ->
  exists l', eg_listeners s' !! i = Some l' /\ follows l l'.
Proof.
  revert s l. induction events as [|e events IH]; intros s l; cbn [run].
  - intros [= <-] Hi. exists l. split; [done|apply follows_refl].
  - destruct (edge_step base64 e s) as [s1|] eqn:E; [|done]. intros H Hi.
    destruct (edge_step_follows _ _ _ _ _ E Hi) as (l1 & H1 & F1). destruct (IH _ _ H H1) as (l2 & H2 & F2).
    exists l2. split; [done|by eapply follows_trans].
Qed.

(** The timers have fired: no connection is being served past its limit. *)
Definition timely (s : Edge) : Prop :=
  forall i l c conn since cert, eg_listeners s !! i = Some l -> ls_conns l !! c = Some conn -> cn_phase conn = Serving since cert ->
  eg_now s < since + connection_timeout (ls_kind l).

(** No connection task serves for longer than the limit of its listener, on any
    of the six listeners (the tunnel of an upgraded connection is another task): take any connection being served, any continuation of the
    run, whatever the client, the upstream and the other connections do; when the
    limit has passed and the timers have fired, the task is gone and its permit is
    back (the table of the listener no longer has it). *)
Theorem served_connections_close now (tls : TlsConfig) kinds before after s s' i l c conn since cert :
  run base64 before (start now tls kinds) = Some s -> run base64 after s = Some s' ->
  eg_listeners s !! i = Some l -> ls_conns l !! c = Some conn -> cn_phase conn = Serving since cert ->
  eg_now s + connection_timeout (ls_kind l) <= eg_now s' -> timely s' ->
  exists l', eg_listeners s' !! i = Some l' /\ ls_conns l' !! c = None.
Proof.
  intros Hb Ha Hi Hc Hp Hnow Ht. destruct (run_ok _ _ _ (start_ok _ _ _) Hb) as [Hl _]. pose proof (Forall_lookup_1 _ _ _ _ Hl Hi) as Hlo.
  destruct (run_follows _ _ _ _ _ Ha Hi) as (l' & Hi' & F). exists l'. split; [done|].
  destruct (ls_conns l' !! c) as [conn'|] eqn:E; [|done]. exfalso.
  destruct (fw_conns _ _ F c conn' (ok_next _ _ Hlo _ _ Hc) E) as (conn0 & H0 & _ & Hev). simplify_eq. rewrite Hp in Hev.
  pose proof (Ht _ _ _ _ _ _ Hi' E Hev) as Hlt. rewrite (fw_kind _ _ F) in Hlt.
  pose proof (ok_phase _ _ Hlo _ _ Hc) as Hph. rewrite Hp in Hph. destruct Hph. lia.
Qed.

(** *** What ends a listener, and what blocks it *)

(** A listener whose [bind] or [accept] failed, or which was stopped, never takes
    another connection, whatever happens; nothing starts it again. *)
Theorem ended_listener_stays events (s s' : Edge) i (l : Listener) : run base64 events s = Some s' -> eg_listeners s !! i = Some l -> ls_status l <> Listening ->
  exists l', eg_listeners s' !! i = Some l' /\ ls_status l' = ls_status l /\ ls_next l' = ls_next l.
Proof.
  intros H Hi Hs. destruct (run_follows _ _ _ _ _ H Hi) as (l' & Hi' & F). exists l'. split; [done|]. by apply (fw_status _ _ F).
Qed.

Definition ends_handshake (i : nat) (e : EdgeEvent (TlsConfig := TlsConfig)) : bool :=
  match e with At j (HandshakeDone _ _) | At j (HandshakeFailed _) | At j (Panicked _) => Nat.eqb i j | _ => false end.
Definition all_handshaking (l : Listener) : Prop :=
  ls_permits l = 0 /\ forall c conn, ls_conns l !! c = Some conn -> exists config, cn_phase conn = Handshake config.
Lemma stuck_step now tls e (l l' : Listener) change : all_handshaking l -> step now tls e l = Some (l', change) -> (forall i, ends_handshake i (At i e) = false) ->
  ls_conns l' = ls_conns l /\ ls_permits l' = ls_permits l /\ ls_next l' = ls_next l.
Proof.
  intros [Hp Hall] H He. pose proof (He O) as He0.
  destruct e as [peer|error|changed value|c|c certs|c|c|c|c|c|]; cbn [listener_step] in H; try done.
  4-7: destruct (ls_conns l !! c) as [conn|] eqn:Ec; [|done]; destruct (Hall _ _ Ec) as [config Hcf]; by rewrite Hcf in H.
  - destruct (ls_status l); [|done..]. injection H as <- _. unfold accept. by rewrite Hp.
  - destruct (ls_status l); [|done..]. by injection H as <- _.
  - destruct (ls_status l); [|done..]. injection H as <- _. by destruct (changed && value).
  - destruct (ls_tunnels l); [done|]. by injection H as <- _.
Qed.
(** The TLS handshake has no time limit: connections that say nothing hold every
    permit for as long as they like, and no other connection of the listener is
    taken, however much time passes. *)
Theorem stuck_handshakes_deny events (s s' : Edge) i (l : Listener) : run base64 events s = Some s' -> eg_listeners s !! i = Some l -> all_handshaking l ->
  Forall (fun e => ends_handshake i e = false) events ->
  exists l', eg_listeners s' !! i = Some l' /\ ls_conns l' = ls_conns l /\ ls_next l' = ls_next l /\ ls_permits l' = 0.
Proof.
  revert s l. induction events as [|e events IH]; intros s l; cbn [run].
  - intros [= <-] Hi [Hp _] _. by exists l.
  - destruct (edge_step base64 e s) as [s1|] eqn:E; [|done]. intros H Hi Hall [He Hes]%Forall_cons.
    assert (exists l1, eg_listeners s1 !! i = Some l1 /\ ls_conns l1 = ls_conns l /\ ls_permits l1 = ls_permits l /\ ls_next l1 = ls_next l) as (l1 & H1 & Ec & Ep & En).
    { destruct e as [j e|seconds|config]; cbn [edge_step] in E; [|destruct (0 <=? seconds); [|done]; injection E as <-; by exists l|injection E as <-; by exists l].
      destruct (eg_listeners s !! j) as [lj|] eqn:Ej; [|done]. destruct (step _ _ _ _) as [[l' change]|] eqn:Es; [|done]. injection E as <-. cbn.
      destruct (decide (j = i)) as [->|Hji].
      - rewrite list_lookup_insert_eq by (by eapply lookup_lt_Some). eexists. split; [done|]. simplify_eq. eapply stuck_step; [done..|].
        intros k. destruct e; try done; cbn in He; by rewrite Nat.eqb_refl in He.
      - rewrite list_lookup_insert_ne by done. by exists l. }
    destruct (IH s1 l1 H H1) as (l2 & ? & ? & ? & ?); [|done|exists l2; split_and!; congruence].
    destruct Hall as [Hp Hall]. split; [congruence|]. by rewrite Ec.
Qed.

(** One more tunnel: a connection comes, is upgraded, and its task ends. *)
Lemma one_more_tunnel now (tls : TlsConfig) peer (l : Listener) (s : Edge) : ls_kind l = PlainListener -> ls_status l = Listening -> ls_conns l = ∅ ->
  0 < ls_permits l -> eg_listeners s = [l] -> eg_now s = now -> eg_tls s = tls ->
  exists s' l', run base64 [At 0 (Accepted peer); At 0 (Started (ls_next l)); At 0 (Upgraded (ls_next l)); At 0 (Ended (ls_next l))] s = Some s' /\
    eg_listeners s' = [l'] /\ eg_now s' = now /\ eg_tls s' = tls /\
    ls_kind l' = PlainListener /\ ls_status l' = Listening /\ ls_conns l' = ∅ /\ ls_permits l' = ls_permits l /\ ls_tunnels l' = S (ls_tunnels l).
Proof.
  intros Hk Hs Hc Hp Hl Hnow Htls. destruct l as [kind status permits conns next tunnels panicked]. cbn in *. subst.
  assert ((permits <=? 0) = false) as E by lia. unfold run. cbn [edge_step]. rewrite Hl. cbn [lookup list_lookup listener_step ls_status].
  unfold accept. cbn [ls_permits]. rewrite E. repeat (cbn; rewrite ?lookup_insert_eq). do 2 eexists. split; [reflexivity|].
  split_and!; try done; [|cbn; lia]. unfold finish, begin_serving, set_tunnels, spawn_connection, set_conns. cbn. by rewrite insert_insert_eq, delete_insert_id.
Qed.
(** As many clients as the HTTPS listener has permits are enough. *)
Lemma accept_many now (tls : TlsConfig) peer n (l : Listener) : ls_kind l = TlsListener -> ls_status l = Listening ->
  (forall c conn, ls_conns l !! c = Some conn -> exists config, cn_phase conn = Handshake config) -> Z.of_nat n = ls_permits l ->
  forall (s : Edge), eg_listeners s = [l] -> eg_now s = now -> eg_tls s = tls ->
  exists s' l', run base64 (replicate n (At 0 (Accepted peer))) s = Some s' /\ eg_listeners s' = [l'] /\ all_handshaking l'.
Proof.
  revert l. induction n as [|n IH]; intros l Hk Hs Hall Hn s Hl Hnow Htls.
  - exists s, l. by split_and!; [| |split].
  - cbn [replicate run edge_step listener_step]. rewrite Hl. cbn [lookup list_lookup]. rewrite Hs.
    unfold accept at 1. destruct (Z.leb_spec (ls_permits l) 0); [lia|].
    edestruct (IH (spawn_connection {| cn_peer := peer; cn_phase := arrival tls (ls_kind l) |} l)) as (s' & l' & Hrun & Hl' & Ha); [done|done| |cbn; lia| | | |].
    5: { exists s', l'. split; [|done]. rewrite <- Hrun. by rewrite Htls. }
    all: try done.
    cbn. intros c conn [[_ <-]|[_ Hc]]%lookup_insert_Some; [|eauto]. rewrite Hk. by eexists.
Qed.
End theorems.

(** ** Examples *)

Module ListenersDemo.
Definition here : IpAddr := V4 (127 * 2 ^ 24 + 1).
Definition kinds : list (Kind * option rstr) := [(PlainListener, None); (TlsListener, None); (DatabaseListener (lit "PostgreSQL"), None)].
Definition begun : Edge (TlsConfig := nat) := start 0 1%nat kinds.
(** One connection of each kind; the certificate is replaced during the handshake. *)
Definition opening : list (EdgeEvent (TlsConfig := nat)) :=
  [At 0 (Accepted here); At 1 (Accepted here); StoreTls 2%nat; At 0 (Started 0); Elapse 5; At 1 (HandshakeDone 0 [lit "der"]);
   At 2 (Accepted here); At 2 (Started 0)].
Definition opened : Edge (TlsConfig := nat) := default begun (run id opening begun).
Definition closing : list (EdgeEvent (TlsConfig := nat)) := [Elapse 115; At 0 (TimedOut 0); Elapse 5; At 1 (TimedOut 0)].
Definition closed : Edge (TlsConfig := nat) := default begun (run id closing opened).

Definition calls (s : Edge (TlsConfig := nat)) : list (option Call) :=
  flat_map (fun l => (fun kc => service_call (ls_kind l) (snd kc)) <$> map_to_list (ls_conns l)) (eg_listeners s).
Example calls_of_opened : calls opened =
  [Some (ProxyHandle here Http None);
   Some (ProxyHandle here Https (Some (lit "-----BEGIN CERTIFICATE-----\nder\n-----END CERTIFICATE-----")));
   Some (DatabaseConnection (lit "postgres"))].
Proof. vm_compute. reflexivity. Qed.
Example active_of_opened : eg_active opened = 2 /\ eg_active closed = 0.
Proof. vm_compute. split; reflexivity. Qed.
(** Twelve seconds are not enough for a timer, and a closed channel does not stop. *)
Example not_yet : run id [Elapse 12; At 0 (TimedOut 0)] opened = None.
Proof. vm_compute. reflexivity. Qed.
Example shutdown_values :
  (ls_status <$> eg_listeners (default begun (run id [At 0 (ShutdownChanged false true); At 1 (ShutdownChanged true false); At 2 (ShutdownChanged true true)] begun)))
  = [Listening; Listening; Stopped].
Proof. vm_compute. reflexivity. Qed.

(** The handler of the HTTPS connection panics, and that of the other upgrades. *)
Definition upset : Edge (TlsConfig := nat) := default begun (run id (opening ++ [At 1 (Panicked 0); At 0 (Upgraded 0); At 0 (Ended 0)]) begun).
Example upset_state :
  eg_active upset = 1 /\ sum_active (eg_listeners upset) = 0 /\ (ls_tunnels <$> eg_listeners upset) = [1; 0; 0]%nat /\
  (ls_permits <$> eg_listeners upset) = [8192; 8192; 4095].
Proof. vm_compute. repeat split. Qed.
Lemma connection_slots_exact_witness : eg_active upset = sum_active (eg_listeners upset) + sum_panicked (eg_listeners upset).
Proof. apply (connection_slots_exact id 0 1%nat kinds (opening ++ [At 1 (Panicked 0); At 0 (Upgraded 0); At 0 (Ended 0)]) upset). vm_compute. reflexivity. Defined.
Lemma closed_timely : timely closed.
Proof.
  intros i l c conn since cert Hi Hc Hp.
  destruct i as [|[|[|i]]]; vm_compute in Hi; [injection Hi as <-; try done..|done].
  change (({[0%nat := {| cn_peer := here; cn_phase := Serving 5 None |}]} : gmap nat Conn) !! c = Some conn) in Hc.
  apply lookup_singleton_Some in Hc as [<- <-]. cbn in Hp. injection Hp as <- <-. by vm_compute.
Qed.
Lemma served_connections_close_witness :
  exists l', eg_listeners closed !! 1%nat = Some l' /\ ls_conns l' !! 0%nat = None.
Proof.
  refine (served_connections_close id 0 1%nat kinds opening closing opened closed 1 _ 0 _ 5 _ _ _ eq_refl eq_refl eq_refl _ closed_timely); vm_compute; try reflexivity; discriminate.
Defined.

(** A listener that ran out of file descriptors once is closed for good, while the
    others go on. *)
Example out_of_descriptors :
  option_map (fun s => ls_status <$> eg_listeners s) (run id [At 0 (AcceptFailed (lit "Too many open files")); Elapse 1000; At 1 (Accepted here)] begun)
    = Some [Failed (lit "Too many open files"); Listening; Listening] /\
  run id [At 0 (AcceptFailed (lit "Too many open files")); Elapse 1000; At 0 (Accepted here)] begun = None.
Proof. split; vm_compute; reflexivity. Qed.
(** However many tunnels there are, there can be another, with no connection task
    alive and all permits free. *)
Lemma tunnels_unbounded n : exists events s l,
  run id events (start 0 1%nat [(PlainListener, None)]) = Some s /\ eg_listeners s = [l] /\ ls_tunnels l = n /\ ls_conns l = ∅ /\ ls_permits l = EDGE_MAX_CONNECTIONS.
Proof.
  enough (exists events s l, run id events (start 0 1%nat [(PlainListener, None)]) = Some s /\ eg_listeners s = [l] /\ ls_tunnels l = n /\ ls_conns l = ∅ /\
    ls_permits l = EDGE_MAX_CONNECTIONS /\ ls_kind l = PlainListener /\ ls_status l = Listening) as (events & s & l & ? & ? & ? & ? & ? & _) by (by exists events, s, l).
  induction n as [|n (events & s & l & Hr & Hl & Ht & Hc & Hp & Hk & Hs)].
  - exists [], (start 0 1%nat [(PlainListener, None)]), (bind PlainListener None). by split_and!.
  - destruct (one_more_tunnel id (eg_now s) (eg_tls s) here l s) as (s' & l' & Hr' & Hl' & _ & _ & Hk' & Hs' & Hc' & Hp' & Ht'); try done; [by rewrite Hp|].
    eexists _, s', l'. split; [by eapply run_app|]. split_and!; congruence.
Qed.
(** 8192 silent clients close the HTTPS port. *)
Definition https_only : Edge (TlsConfig := nat) := start 0 1%nat [(TlsListener, None)].
Lemma silent_clients_deny : exists s l,
  run id (replicate (Z.to_nat EDGE_MAX_CONNECTIONS) (At 0 (Accepted here))) https_only = Some s /\ eg_listeners s !! 0%nat = Some l /\ all_handshaking l.
Proof.
  destruct (accept_many id 0 1%nat here (Z.to_nat EDGE_MAX_CONNECTIONS) (bind TlsListener None) eq_refl eq_refl) with (s := https_only) as (s & l & H & Hl & Ha);
    [done|rewrite Z2Nat.id; [reflexivity|discriminate]|reflexivity..|]. exists s, l. rewrite Hl. exact (conj H (conj eq_refl Ha)).
Qed.
End ListenersDemo.
