(* ===== verification/RedisCounters.v ===== *)
(** The remaining parts of [redis-sync]: the counters of the bandwidth of a domain by
    month and by day ([RedisBandwidthTracker]), with the expiry of their keys, and the
    channel of blacklist commands ([RedisBlacklistSync]).  Every command may fail to
    arrive or lose its reply. *)
From stdpp Require Import options.
From S2P Require Import Prelude RustStr RustNum RustNet Ddos Redis.

Local Open Scope Z_scope.
Local Open Scope rust_scope.

(** ** The keys *)

(** A date of [chrono]: year, month, day. *)
Record Date := { dt_year : Z; dt_month : Z; dt_day : Z }.
Definition key_prefix : rstr := lit "pxxl:bandwidth".
Definition month_stamp (d : Date) : rstr := to_dec (dt_year d) ++ lit "-" ++ zero_pad 2 (to_dec (dt_month d)).
Definition day_stamp (d : Date) : rstr :=
  to_dec (dt_year d) ++ lit "-" ++ zero_pad 2 (to_dec (dt_month d)) ++ lit "-" ++ zero_pad 2 (to_dec (dt_day d)).
Definition get_monthly_key (domain : rstr) (now : Date) : rstr := key_prefix ++ lit ":" ++ domain ++ lit ":" ++ month_stamp now.
Definition get_daily_key (domain : rstr) (now : Date) : rstr := key_prefix ++ lit ":" ++ domain ++ lit ":" ++ day_stamp now.

(** ** The server *)

(** A key with its number and the second at which it is removed. *)
Record Counter := { co_value : Z; co_expires : option Z }.
Abbreviation Counters := (gmap rstr Counter).
Definition I64_MAX : Z := 2 ^ 63 - 1.
Definition live (now : Z) (m : Counters) (key : rstr) : option Counter :=
  match m !! key with
  | Some c => match co_expires c with Some at_ => if at_ <=? now then None else Some c | None => Some c end
  | None => None
  end.
(** [INCRBY]: a missing key counts as 0, the expiry stays, and a number above the
    range of [i64] is refused. *)
Definition INCRBY (now : Z) (key : rstr) (n : Z) (m : Counters) : Counters * result rstr Z :=
  let old := match live now m key with Some c => c | None => {| co_value := 0; co_expires := None |} end in
  if (I64_MAX <? n) || (I64_MAX <? co_value old + n) then (m, Err (lit "ERR increment or decrement would overflow"))
  else (<[key := {| co_value := co_value old + n; co_expires := co_expires old |}]> m, Ok (co_value old + n)).
Definition EXPIRE (now : Z) (key : rstr) (seconds : Z) (m : Counters) : Counters * bool :=
  match live now m key with
  | Some c => (<[key := {| co_value := co_value c; co_expires := Some (now + seconds) |}]> m, true)
  | None => (m, false)
  end.
Definition GET (now : Z) (key : rstr) (m : Counters) : Counters * option Z := (m, co_value <$> live now m key).

(** ** The tracker *)

Abbreviation tracker A := (action Counters rstr A).
Definition redis_error : rstr := lit "redis".
Definition connect : tracker unit := run_command redis_error (fun m => (m, tt)).
Definition incr (now : Z) (key : rstr) (n : Z) : tracker Z :=
  let* reply := run_command redis_error (INCRBY now key n) in
  match reply with Ok v => rret v | Err e => rfail e end.
Definition expire (now : Z) (key : rstr) (seconds : Z) : tracker bool := run_command redis_error (EXPIRE now key seconds).
Definition get (now : Z) (key : rstr) : tracker (option Z) := run_command redis_error (GET now key).

Definition MONTHLY_TTL : Z := 90 * 24 * 3600.
Definition DAILY_TTL : Z := 7 * 24 * 3600.
(** The clock of the edge is read for each key; [now] is the clock of the server. *)
Definition record_bandwidth (month_date day_date : Date) (now : Z) (domain : rstr) (bytes : Z) : tracker unit :=
  do* connect in
  let monthly_key := get_monthly_key domain month_date in
  let daily_key := get_daily_key domain day_date in
  do* incr now monthly_key bytes in
  do* incr now daily_key bytes in
  do* expire now monthly_key MONTHLY_TTL in
  do* expire now daily_key DAILY_TTL in
  rret tt.
Definition get_monthly_usage (date : Date) (now : Z) (domain : rstr) : tracker Z :=
  do* connect in
  let* bytes := get now (get_monthly_key domain date) in
  rret (default 0 bytes).
Definition get_daily_usage (date : Date) (now : Z) (domain : rstr) : tracker Z :=
  do* connect in
  let* bytes := get now (get_daily_key domain date) in
  rret (default 0 bytes).
Definition check_limit (date : Date) (now : Z) (domain : rstr) (monthly_limit daily_limit : option Z) : tracker bool :=
  let daily_check :=
    match daily_limit with
    | Some limit => let* usage := get_daily_usage date now domain in rret (negb (limit <=? usage))
    | None => rret true
    end in
  match monthly_limit with
  | Some limit => let* usage := get_monthly_usage date now domain in if limit <=? usage then rret false else daily_check
  | None => daily_check
  end.

(** ** The blacklist channel *)

Section channel.
Context {NL : IpNetLib}.
(** [serde_json]'s text of a command, and the command of a text. *)
Context (to_text : Blacklist.BlacklistCommand -> rstr) (of_text : rstr -> option Blacklist.BlacklistCommand).
(** The subscribers get the messages of the channel in the order of publication. *)
Abbreviation channel A := (action (list rstr) rstr A).
Definition publish (command : Blacklist.BlacklistCommand) : channel unit :=
  do* run_command redis_error (fun messages => (messages, tt)) in
  do* run_command redis_error (fun messages => (messages ++ [to_text command], tt)) in
  rret tt.
(** [None]: the payload of a message is not a string. *)
Fixpoint subscribe_forever (messages : list (option rstr)) (blacklist : Blacklist.BlacklistEngine)
  : Blacklist.BlacklistEngine * result rstr unit :=
  match messages with
  | [] => (blacklist, Ok tt)
  | None :: _ => (blacklist, Err redis_error)
  | Some payload :: rest =>
    match of_text payload with
    | None => (blacklist, Err (lit "json"))
    | Some command => subscribe_forever rest (Blacklist.apply command blacklist)
    end
  end.
End channel.

(** ** Theorems *)

(** *** Keys *)

Definition same_month (d d' : Date) : bool := (dt_year d =? dt_year d') && (dt_month d =? dt_month d').
Definition same_day (d d' : Date) : bool := same_month d d' && (dt_day d =? dt_day d').
(** The range of the numbers of a date. *)
Record date_ok (d : Date) : Prop := { do_year : 0 <= dt_year d < 2 ^ 127; do_month : 1 <= dt_month d <= 12; do_day : 1 <= dt_day d <= 31 }.

Lemma dec_plain q n : (forall d, digit_value q = Some d -> 10 <= d) -> q ∉ to_dec n.
Proof. intros Hq. apply digits_plain; [done|apply not_elem_of_nil]. Qed.
Lemma dash_digit d : digit_value (chr "-") = Some d -> 10 <= d.
Proof. done. Qed.
Lemma colon_digit d : digit_value (chr ":") = Some d -> 10 <= d.
Proof. done. Qed.
Lemma stamp_no_colon d : (chr ":" ∉ month_stamp d) /\ (chr ":" ∉ day_stamp d).
Proof.
  assert (Hd : forall n, chr ":" ∉ to_dec n) by (intros n; apply dec_plain, colon_digit).
  assert (Hz : forall n, chr ":" ∉ zero_pad 2 (to_dec n)) by (intros n; apply zero_pad_plain, colon_digit).
  unfold month_stamp, day_stamp. rewrite !elem_of_app. split; intros Hin; destruct_or? Hin; try (by apply Hd in Hin); try (by apply Hz in Hin).
  all: by apply list_elem_of_In in Hin as [|[]].
Qed.
Lemma dec_inj n n' : 0 <= n < 2 ^ 127 -> 0 <= n' < 2 ^ 127 -> to_dec n = to_dec n' -> n = n'.
Proof. apply (zero_pad_inj 0). Qed.
Lemma month_stamp_inj d d' : date_ok d -> date_ok d' -> month_stamp d = month_stamp d' -> same_month d d' = true.
Proof.
  intros [Hy Hm _] [Hy' Hm' _] H. unfold month_stamp in H. apply app_sep_inj in H as [H1 H2]; [|apply dec_plain, dash_digit..].
  apply dec_inj in H1; [|lia..]. apply zero_pad_inj in H2; [|lia..]. unfold same_month. lia.
Qed.
Lemma day_stamp_inj d d' : date_ok d -> date_ok d' -> day_stamp d = day_stamp d' -> same_day d d' = true.
Proof.
  intros [Hy Hm Hd] [Hy' Hm' Hd'] H. unfold day_stamp in H. apply app_sep_inj in H as [H1 H2]; [|apply dec_plain, dash_digit..].
  apply app_sep_inj in H2 as [H2 H3]; [|apply zero_pad_plain, dash_digit..].
  apply dec_inj in H1; [|lia..]. apply zero_pad_inj in H2; [|lia..]. apply zero_pad_inj in H3; [|lia..]. unfold same_day, same_month. lia.
Qed.
Lemma month_not_day d d' : month_stamp d <> day_stamp d'.
Proof.
  unfold month_stamp, day_stamp. intros H. apply app_sep_inj in H as [_ H]; [|apply dec_plain, dash_digit..].
  apply (zero_pad_plain (chr "-") 2 (dt_month d) dash_digit). rewrite H, elem_of_app. right. left.
Qed.
Lemma key_inj domain domain' stamp stamp' : chr ":" ∉ stamp -> chr ":" ∉ stamp' ->
  key_prefix ++ lit ":" ++ domain ++ lit ":" ++ stamp = key_prefix ++ lit ":" ++ domain' ++ lit ":" ++ stamp' -> domain = domain' /\ stamp = stamp'.
Proof. intros Hs Hs' H. apply app_inv_head, app_inv_head in H. by apply app_sep_inj_r in H. Qed.
Lemma monthly_key_inj domain domain' d d' : date_ok d -> date_ok d' -> get_monthly_key domain d = get_monthly_key domain' d' ->
  domain = domain' /\ same_month d d' = true.
Proof. intros Hd Hd' H. apply key_inj in H as [-> H]; [|apply stamp_no_colon..]. split; [done|by apply month_stamp_inj]. Qed.
Lemma daily_key_inj domain domain' d d' : date_ok d -> date_ok d' -> get_daily_key domain d = get_daily_key domain' d' ->
  domain = domain' /\ same_day d d' = true.
Proof. intros Hd Hd' H. apply key_inj in H as [-> H]; [|apply stamp_no_colon..]. split; [done|by apply day_stamp_inj]. Qed.
Lemma monthly_not_daily domain domain' d d' : get_monthly_key domain d <> get_daily_key domain' d'.
Proof. intros H. apply key_inj in H as [_ H]; [|apply stamp_no_colon..]. by apply month_not_day in H. Qed.
Lemma same_month_key domain d d' : same_month d d' = true -> get_monthly_key domain d = get_monthly_key domain d'.
Proof. unfold same_month, get_monthly_key, month_stamp. intros H. assert (dt_year d = dt_year d' /\ dt_month d = dt_month d') as [-> ->] by lia. done. Qed.
Lemma same_day_key domain d d' : same_day d d' = true -> get_daily_key domain d = get_daily_key domain d'.
Proof.
  unfold same_day, same_month, get_daily_key, day_stamp. intros H.
  assert (dt_year d = dt_year d' /\ dt_month d = dt_month d' /\ dt_day d = dt_day d') as (-> & -> & ->) by lia. done.
Qed.

(** *** Actions that may stop half way *)

Abbreviation triple P m Q R := (hoare P m (fun _ => Q) R).
Lemma triple_ret {S E A} (a : A) (P R : S -> Prop) : triple P (rret a : action S E A) P R.
Proof. apply (hoare_ret a (fun _ => P)). Qed.
Lemma triple_bind {S E A B} (m : action S E A) (k : A -> action S E B) (P Q Q' R : S -> Prop) :
  triple P m Q R -> (forall a, triple Q (k a) Q' R) -> triple P (rbind m k) Q' R.
Proof. apply hoare_bind. Qed.
Lemma triple_command {S E A} (error : E) (f : S -> S * A) (P Q R : S -> Prop) :
  (forall s, P s -> R s) -> (forall s, P s -> Q (fst (f s))) -> (forall s, Q s -> R s) -> triple P (run_command error f) Q R.
Proof.
  intros HPR HPQ HQR [s rs] HP. cbn in HP. unfold run_command. specialize (HPQ s HP).
  destruct rs as [|[] rs]; destruct (f s) as [s' a]; cbn in *; auto.
Qed.
Lemma triple_kept {S E A} (m : action S E A) (P R : S -> Prop) : triple P m P P -> (forall s, P s -> R s) -> triple P m P R.
Proof. intros Hm HR. by eapply hoare_weaken; [exact Hm|..]. Qed.

(** *** One counter *)

(** The number under a key lies between what was acknowledged and what was tried,
    and the key is not removed at a moment of its period. *)
Definition holds (key : rstr) (period : Z -> Prop) (low high : Z) (m : Counters) : Prop :=
  match m !! key with
  | None => low <= 0 <= high
  | Some c => low <= co_value c <= high /\ forall at_ t, co_expires c = Some at_ -> period t -> t < at_
  end.
Lemma holds_weaken key period low high low' high' m : low' <= low -> high <= high' -> holds key period low high m -> holds key period low' high' m.
Proof. unfold holds. intros ? ?. destruct (m !! key); [|lia]. intros [? ?]. split; [lia|done]. Qed.
Lemma holds_live key (period : Z -> Prop) low high m now : period now -> holds key period low high m -> live now m key = m !! key.
Proof.
  unfold holds, live. intros Hp. destruct (m !! key) as [c|]; [|done]. intros [_ He]. destruct (co_expires c) as [at_|] eqn:E; [|done].
  destruct (Z.leb_spec at_ now); [|done]. specialize (He at_ now eq_refl Hp). lia.
Qed.
Lemma holds_value key (period : Z -> Prop) low high m now : period now -> holds key period low high m ->
  low <= default 0 (co_value <$> live now m key) <= high.
Proof. intros Hp H. rewrite (holds_live _ _ _ _ _ _ Hp H). unfold holds in H. destruct (m !! key); cbn; [|done]. apply H. Qed.
Lemma holds_other key key' period low high c m : key <> key' -> holds key period low high m -> holds key period low high (<[key' := c]> m).
Proof. intros Hk. unfold holds. by rewrite lookup_insert_ne. Qed.

Section counter.
Context (key : rstr) (period : Z -> Prop).
Lemma connect_keeps low high : triple (holds key period low high) connect (holds key period low high) (holds key period low high).
Proof. by apply triple_command. Qed.
Lemma incr_hit now n low high : period now -> 0 <= n -> 0 <= high -> high + n <= I64_MAX ->
  triple (holds key period low high) (incr now key n) (holds key period (low + n) (high + n)) (holds key period low (high + n)).
Proof.
  intros Hp Hn Hh Hmax [m rs] H. cbn in H. pose proof (holds_live _ _ _ _ _ _ Hp H) as Hl. pose proof (holds_value _ _ _ _ _ _ Hp H) as Hv.
  assert (INCRBY now key n m = (<[key := {| co_value := default 0 (co_value <$> live now m key) + n; co_expires := m !! key ≫= co_expires |}]> m,
                                Ok (default 0 (co_value <$> live now m key) + n))) as E.
  { unfold INCRBY. rewrite Hl in *. destruct (m !! key) as [c|]; cbn in *; rewrite (proj2 (Z.ltb_ge _ _)), (proj2 (Z.ltb_ge _ _)) by lia; done. }
  assert (holds key period (low + n) (high + n) (fst (INCRBY now key n m))) as Hpost.
  { rewrite E. unfold holds. cbn [fst]. rewrite lookup_insert_eq. cbn. split; [lia|]. intros at_ t Ha Ht. unfold holds in H.
    destruct (m !! key) as [c|]; [|done]. by eapply H. }
  assert (Hweak : forall m, holds key period (low + n) (high + n) m -> holds key period low (high + n) m) by (intros; eapply holds_weaken; [..|done]; lia).
  unfold incr, rbind, run_command. destruct rs as [|[] rs]; cbn; rewrite ?E in *; cbn in *; auto; eapply holds_weaken; [..|done]; lia.
Qed.
Lemma incr_miss now key' n low high : key <> key' ->
  triple (holds key period low high) (incr now key' n) (holds key period low high) (holds key period low high).
Proof.
  intros Hk. eapply triple_bind; [apply (triple_command _ _ _ (holds key period low high)); [done| |done]|].
  - intros m H. unfold INCRBY. destruct (_ || _); [done|]. by apply holds_other.
  - intros [v|e]; [apply triple_ret|by intros st H].
Qed.
Lemma expire_hit now seconds low high : (forall t, period t -> t < now + seconds) ->
  triple (holds key period low high) (expire now key seconds) (holds key period low high) (holds key period low high).
Proof.
  intros Hp. apply triple_command; [done| |done]. intros m H. unfold EXPIRE. destruct (live now m key) as [c|] eqn:E; [|done].
  assert (m !! key = Some c) as Hc.
  { unfold live in E. destruct (m !! key) as [c'|]; [|done]. destruct (co_expires c') as [at_|]; [destruct (at_ <=? now); [done|]|]; congruence. }
  unfold holds in *. rewrite Hc in H. cbn [fst]. rewrite lookup_insert_eq. cbn. split; [apply H|]. intros at_ t [= <-]. apply Hp.
Qed.
Lemma expire_miss now key' seconds low high : key <> key' ->
  triple (holds key period low high) (expire now key' seconds) (holds key period low high) (holds key period low high).
Proof.
  intros Hk. apply triple_command; [done| |done]. intros m H. unfold EXPIRE. destruct (live now m key'); [by apply holds_other|done].
Qed.
End counter.
#[local] Hint Resolve connect_keeps incr_miss expire_miss triple_ret : core.

(** *** A record *)

Lemma record_other key period month day now domain bytes low high :
  key <> get_monthly_key domain month -> key <> get_daily_key domain day ->
  triple (holds key period low high) (record_bandwidth month day now domain bytes) (holds key period low high) (holds key period low high).
Proof. intros. unfold record_bandwidth. do 5 (eapply triple_bind; [by auto|intros _]). auto. Qed.
Lemma record_month (period : Z -> Prop) month day now domain bytes low high :
  period now -> (forall t, period t -> t < now + MONTHLY_TTL) -> 0 <= bytes -> 0 <= high -> high + bytes <= I64_MAX ->
  let key := get_monthly_key domain month in
  triple (holds key period low high) (record_bandwidth month day now domain bytes)
    (holds key period (low + bytes) (high + bytes)) (holds key period low (high + bytes)).
Proof.
  intros Hp Ht Hb Hh Hmax key. pose proof (monthly_not_daily domain domain month day) as Hne. unfold record_bandwidth.
  assert (Hw : forall m, holds key period (low + bytes) (high + bytes) m -> holds key period low (high + bytes) m) by (intros; eapply holds_weaken; [..|done]; lia).
  assert (Hw' : forall m, holds key period low high m -> holds key period low (high + bytes) m) by (intros; eapply holds_weaken; [..|done]; lia).
  apply (triple_bind _ _ _ (holds key period low high)); [apply triple_kept; [apply connect_keeps|exact Hw']|intros _].
  apply (triple_bind _ _ _ (holds key period (low + bytes) (high + bytes))); [by apply incr_hit|intros _].
  apply (triple_bind _ _ _ (holds key period (low + bytes) (high + bytes))); [apply triple_kept; [by apply incr_miss|exact Hw]|intros _].
  apply (triple_bind _ _ _ (holds key period (low + bytes) (high + bytes))); [apply triple_kept; [by apply expire_hit|exact Hw]|intros _].
  apply (triple_bind _ _ _ (holds key period (low + bytes) (high + bytes))); [apply triple_kept; [by apply expire_miss|exact Hw]|intros _]. apply triple_ret.
Qed.
Lemma record_day (period : Z -> Prop) month day now domain bytes low high :
  period now -> (forall t, period t -> t < now + DAILY_TTL) -> 0 <= bytes -> 0 <= high -> high + bytes <= I64_MAX ->
  let key := get_daily_key domain day in
  triple (holds key period low high) (record_bandwidth month day now domain bytes)
    (holds key period (low + bytes) (high + bytes)) (holds key period low (high + bytes)).
Proof.
  intros Hp Ht Hb Hh Hmax key. pose proof (not_eq_sym (monthly_not_daily domain domain month day)) as Hne. unfold record_bandwidth.
  assert (Hw : forall m, holds key period (low + bytes) (high + bytes) m -> holds key period low (high + bytes) m) by (intros; eapply holds_weaken; [..|done]; lia).
  assert (Hw' : forall m, holds key period low high m -> holds key period low (high + bytes) m) by (intros; eapply holds_weaken; [..|done]; lia).
  apply (triple_bind _ _ _ (holds key period low high)); [apply triple_kept; [apply connect_keeps|exact Hw']|intros _].
  apply (triple_bind _ _ _ (holds key period low high)); [apply triple_kept; [by apply incr_miss|exact Hw']|intros _].
  apply (triple_bind _ _ _ (holds key period (low + bytes) (high + bytes))); [by apply incr_hit|intros _].
  apply (triple_bind _ _ _ (holds key period (low + bytes) (high + bytes))); [apply triple_kept; [by apply expire_miss|exact Hw]|intros _].
  apply (triple_bind _ _ _ (holds key period (low + bytes) (high + bytes))); [apply triple_kept; [by apply expire_hit|exact Hw]|intros _]. apply triple_ret.
Qed.

(** *** A log of records *)

Record Entry := { en_now : Z; en_domain : rstr; en_bytes : Z; en_replies : list reply }.
(** What [chrono] promises of the date of a second up to its last ([MAX_UTC]): its parts are in their ranges,
    and two moments of one month are less than 31 days apart, of one day less than one. *)
Definition in_range (t : Z) : Prop := 0 <= t <= 8210266876799.
Class Calendar (date : Z -> Date) : Prop := {
  date_parts t : in_range t -> date_ok (date t);
  month_length t t' : in_range t -> in_range t' -> same_month (date t) (date t') = true -> t' < t + 31 * 86400;
  day_length t t' : in_range t -> in_range t' -> same_day (date t) (date t') = true -> t' < t + 86400;
}.

Section log.
Context (date : Z -> Date) {CA : Calendar date}.
Definition record_entry (e : Entry) : tracker unit :=
  record_bandwidth (date (en_now e)) (date (en_now e)) (en_now e) (en_domain e) (en_bytes e).
(** Each record with whether it was acknowledged. *)
Fixpoint record_log (log : list Entry) (m : Counters) : Counters * list (Entry * bool) :=
  match log with
  | [] => (m, [])
  | e :: rest =>
    let '((m, _), r) := record_entry e (m, en_replies e) in
    let '(m, done_) := record_log rest m in (m, (e, is_ok r) :: done_)
  end.
Definition sum_bytes (sel : Entry * bool -> bool) (l : list (Entry * bool)) : Z :=
  foldr (fun x n => (if sel x then en_bytes (fst x) else 0) + n) 0 l.
(** The records of a domain in the month, or on the day, of a moment. *)
Definition in_month (domain : rstr) (t : Z) (x : Entry * bool) : bool :=
  (en_domain (fst x) =s? domain) && same_month (date (en_now (fst x))) (date t).
Definition in_day (domain : rstr) (t : Z) (x : Entry * bool) : bool :=
  (en_domain (fst x) =s? domain) && same_day (date (en_now (fst x))) (date t).
Definition acked (sel : Entry * bool -> bool) (x : Entry * bool) : bool := sel x && snd x.
Definition log_ok (log : list Entry) : Prop :=
  Forall (fun e => in_range (en_now e) /\ 0 <= en_bytes e) log /\ foldr (fun e n => en_bytes e + n) 0 log <= I64_MAX.

Lemma record_log_holds key period (sel : Entry * bool -> bool) :
  (forall e b, sel (e, b) = sel (e, true)) ->
  (forall e low high, in_range (en_now e) -> 0 <= en_bytes e -> 0 <= high -> high + en_bytes e <= I64_MAX -> sel (e, true) = true ->
     triple (holds key period low high) (record_entry e) (holds key period (low + en_bytes e) (high + en_bytes e)) (holds key period low (high + en_bytes e))) ->
  (forall e low high, in_range (en_now e) -> sel (e, true) = false ->
     triple (holds key period low high) (record_entry e) (holds key period low high) (holds key period low high)) ->
  forall log m low high, holds key period low high m -> 0 <= high -> Forall (fun e => in_range (en_now e) /\ 0 <= en_bytes e) log ->
  high + foldr (fun e n => en_bytes e + n) 0 log <= I64_MAX ->
  let '(m', l) := record_log log m in holds key period (low + sum_bytes (acked sel) l) (high + sum_bytes sel l) m'.
Proof.
  intros Hsel Hhit Hmiss. induction log as [|e log IH]; intros m low high H Hh Hpos Hmax; cbn [record_log].
  { unfold sum_bytes. cbn. by rewrite !Z.add_0_r. }
  apply Forall_cons in Hpos as [[Hn Hb] Hpos]. cbn [foldr] in Hmax.
  assert (0 <= foldr (fun e n => en_bytes e + n) 0 log) as Hrest.
  { clear -Hpos. induction Hpos as [|e log [_ ?] _ IH]; cbn; lia. }
  destruct (record_entry e (m, en_replies e)) as [[m1 rs1] r] eqn:E. destruct (record_log log m1) as [m2 l] eqn:E2.
  unfold sum_bytes. cbn [foldr fst]. fold (sum_bytes (acked sel) l) (sum_bytes sel l). unfold acked at 1. rewrite (Hsel e). cbn [snd].
  destruct (sel (e, true)) eqn:Es; cbn [andb].
  - pose proof (Hhit e low high Hn Hb Hh ltac:(lia) Es (m, en_replies e) H) as Ht. rewrite E in Ht. cbn [fst snd] in Ht.
    destruct r as [u|err]; cbn [is_ok]; [specialize (IH m1 _ _ Ht)|specialize (IH m1 _ _ Ht)]; rewrite E2 in IH.
    + rewrite !Z.add_assoc. apply IH; [lia|done|lia].
    + rewrite Z.add_0_l, Z.add_assoc. apply IH; [lia|done|lia].
  - pose proof (Hmiss e low high Hn Es (m, en_replies e) H) as Ht. rewrite E in Ht. cbn [fst snd] in Ht.
    assert (holds key period low high m1) as H1 by (by destruct r). specialize (IH m1 low high H1). rewrite E2 in IH. rewrite !Z.add_0_l. apply IH; [lia|done|lia].
Qed.

Lemma month_holds log domain t : log_ok log -> in_range t -> let '(m, l) := record_log log ∅ in
  holds (get_monthly_key domain (date t)) (fun t' => in_range t' /\ same_month (date t') (date t) = true)
    (sum_bytes (acked (in_month domain t)) l) (sum_bytes (in_month domain t) l) m.
Proof.
  intros [Hpos Hmax] Ht. apply (record_log_holds _ _ (in_month domain t)) with (low := 0) (high := 0); try done.
  - intros e low high Hn Hb Hh Hm [Hd Hs]%andb_prop. cbn [fst] in Hd, Hs. apply seqb_true in Hd. unfold record_entry. rewrite <- Hd, <- (same_month_key _ _ _ Hs).
    apply record_month; try done. intros t' [Ht' Hs']. unfold MONTHLY_TTL.
    assert (same_month (date (en_now e)) (date t') = true) as Hee by (unfold same_month in *; lia).
    pose proof (month_length _ _ Hn Ht' Hee). lia.
  - intros e low high Hn Hf. apply record_other; [|apply monthly_not_daily].
    intros Hk. apply monthly_key_inj in Hk as [-> Hs]; [|by apply date_parts..]. unfold in_month in Hf. cbn [fst] in Hf.
    rewrite seqb_refl in Hf. unfold same_month in *. cbn [andb] in Hf. lia.
Qed.
Lemma day_holds log domain t : log_ok log -> in_range t -> let '(m, l) := record_log log ∅ in
  holds (get_daily_key domain (date t)) (fun t' => in_range t' /\ same_day (date t') (date t) = true)
    (sum_bytes (acked (in_day domain t)) l) (sum_bytes (in_day domain t) l) m.
Proof.
  intros [Hpos Hmax] Ht. apply (record_log_holds _ _ (in_day domain t)) with (low := 0) (high := 0); try done.
  - intros e low high Hn Hb Hh Hm [Hd Hs]%andb_prop. cbn [fst] in Hd, Hs. apply seqb_true in Hd. unfold record_entry. rewrite <- Hd, <- (same_day_key _ _ _ Hs).
    apply record_day; try done. intros t' [Ht' Hs']. unfold DAILY_TTL.
    assert (same_day (date (en_now e)) (date t') = true) as Hee by (unfold same_day, same_month in *; lia).
    pose proof (day_length _ _ Hn Ht' Hee). lia.
  - intros e low high Hn Hf. apply record_other; [intros Hk; by apply eq_sym, monthly_not_daily in Hk|].
    intros Hk. apply daily_key_inj in Hk as [-> Hs]; [|by apply date_parts..]. unfold in_day in Hf. cbn [fst] in Hf.
    rewrite seqb_refl in Hf. unfold same_day, same_month in *. cbn [andb] in Hf. lia.
Qed.

Lemma monthly_read t domain m : get_monthly_usage (date t) t domain (m, []) = ((m, []), Ok (default 0 (co_value <$> live t m (get_monthly_key domain (date t))))).
Proof. reflexivity. Qed.
Lemma daily_read t domain m : get_daily_usage (date t) t domain (m, []) = ((m, []), Ok (default 0 (co_value <$> live t m (get_daily_key domain (date t))))).
Proof. reflexivity. Qed.

(** C25: after any sequence of records on a fresh server, with commands that fail or
    lose their reply at any point, the limit check of a domain uses a monthly and a
    daily number that lie between the bytes of the acknowledged records and the bytes
    of all records of that domain in the current month and on the current day (so
    they are exact when no command fails): keys of different domains, months and
    days never meet, no key expires within its period, and traffic is allowed
    exactly while both numbers are below their limits. *)
Theorem bandwidth_limit_checked log domain t monthly_limit daily_limit :
  log_ok log -> in_range t ->
  let '(m, l) := record_log log ∅ in
  exists month day,
    sum_bytes (acked (in_month domain t)) l <= month <= sum_bytes (in_month domain t) l /\
    sum_bytes (acked (in_day domain t)) l <= day <= sum_bytes (in_day domain t) l /\
    snd (get_monthly_usage (date t) t domain (m, [])) = Ok month /\
    snd (get_daily_usage (date t) t domain (m, [])) = Ok day /\
    snd (check_limit (date t) t domain monthly_limit daily_limit (m, [])) =
      Ok (match monthly_limit with Some limit => month <? limit | None => true end &&
          match daily_limit with Some limit => day <? limit | None => true end).
Proof.
  intros Hlog Ht. pose proof (month_holds log domain t Hlog Ht) as Hm. pose proof (day_holds log domain t Hlog Ht) as Hd.
  destruct (record_log log ∅) as [m l]. exists (default 0 (co_value <$> live t m (get_monthly_key domain (date t)))), (default 0 (co_value <$> live t m (get_daily_key domain (date t)))).
  split_and!; [apply (holds_value _ _ _ _ _ t) in Hm; [lia|]|apply (holds_value _ _ _ _ _ t) in Hm; [lia|]
              |apply (holds_value _ _ _ _ _ t) in Hd; [lia|]|apply (holds_value _ _ _ _ _ t) in Hd; [lia|]|done|done|].
  1-4: split; [done|]; unfold same_day, same_month; lia.
  unfold check_limit, rbind, rret. destruct monthly_limit as [ml|], daily_limit as [dl|].
  all: rewrite ?monthly_read; try destruct (Z.leb_spec ml (default 0 (co_value <$> live t m (get_monthly_key domain (date t))))).
  all: rewrite ?daily_read; cbn [snd]; rewrite ?Z.ltb_antisym; try done; f_equal; lia.
Qed.
End log.

(** *** The channel *)

Section channel_theorems.
Context {NL : IpNetLib} (to_text : Blacklist.BlacklistCommand -> rstr) (of_text : rstr -> option Blacklist.BlacklistCommand).
Hypothesis text_law : forall command, of_text (to_text command) = Some command.
Abbreviation apply_all := (foldl (fun e command => Blacklist.apply command e)).
(** Publishing every command, with an answer from the server. *)
Definition publish_all (commands : list Blacklist.BlacklistCommand) : list rstr :=
  foldl (fun messages command => fst (fst (publish to_text command (messages, [])))) [] commands.
Lemma publish_all_texts commands : publish_all commands = map to_text commands.
Proof.
  unfold publish_all. rewrite <- (app_nil_l (map to_text commands)). generalize (@nil rstr).
  induction commands as [|c commands IH]; intros messages; cbn [foldl map]; [by rewrite app_nil_r|].
  rewrite IH. cbn. by rewrite <- app_assoc.
Qed.
Lemma subscribe_applies commands rest e :
  subscribe_forever of_text (map Some (map to_text commands) ++ rest) e = subscribe_forever of_text rest (apply_all e commands).
Proof using text_law.
  revert e. induction commands as [|c commands IH]; intros e; [done|]. cbn [map app subscribe_forever foldl]. by rewrite text_law.
Qed.
(** A subscriber that sees all messages ends with the blacklist that the commands make. *)
Theorem blacklist_converges commands e :
  subscribe_forever of_text (map Some (publish_all commands)) e = (apply_all e commands, Ok tt).
Proof using text_law. rewrite publish_all_texts, <- (app_nil_r (map Some _)). apply subscribe_applies. Qed.
(** One message that is not a command ends the subscription: what comes after it is
    never applied. *)
Theorem bad_message_ends commands payload later e : of_text payload = None ->
  subscribe_forever of_text (map Some (publish_all commands) ++ Some payload :: later) e = (apply_all e commands, Err (lit "json")).
Proof using text_law. intros Hp. rewrite publish_all_texts, subscribe_applies. cbn [subscribe_forever]. by rewrite Hp. Qed.
End channel_theorems.

(** ** Examples *)

Module CountersDemo.
(** A calendar of twelve months of thirty days. *)
Definition plain_date (t : Z) : Date := {| dt_year := t / 31104000; dt_month := (t / 2592000) mod 12 + 1; dt_day := (t / 86400) mod 30 + 1 |}.
#[export] Instance plain_calendar : Calendar plain_date.
Proof.
  split.
  - intros t Ht. unfold in_range in Ht. split; cbn; [split; [apply Z.div_pos; lia|apply Z.div_lt_upper_bound; lia]|..].
    + pose proof (Z.mod_pos_bound (t / 2592000) 12). lia.
    + pose proof (Z.mod_pos_bound (t / 86400) 30). lia.
  - unfold in_range, same_month. cbn. intros t t' Ht Ht' H. apply andb_prop in H as [H1 H2]. bools. Z.to_euclidean_division_equations. lia.
  - unfold in_range, same_day, same_month. cbn. intros t t' Ht Ht' H. apply andb_prop in H as [H H3]. apply andb_prop in H as [H1 H2]. bools.
    Z.to_euclidean_division_equations. lia.
Qed.
Definition site : rstr := lit "example.com".
(** Two records, one of a day before, and a third whose second counter is not reached. *)
Definition log : list Entry := [
  {| en_now := 86400; en_domain := site; en_bytes := 100; en_replies := [] |};
  {| en_now := 86400 + 90000; en_domain := site; en_bytes := 20; en_replies := [] |};
  {| en_now := 86400 + 90001; en_domain := site; en_bytes := 3; en_replies := [Answered; Answered; NotSent] |}].
Example keys : get_monthly_key site (plain_date 86400) = lit "pxxl:bandwidth:example.com:0-01" /\
  get_daily_key site (plain_date 86400) = lit "pxxl:bandwidth:example.com:0-01-02".
Proof. split; vm_compute; reflexivity. Qed.
Example usage :
  snd (get_monthly_usage (plain_date 180000) 180000 site (fst (record_log plain_date log ∅), [])) = Ok 123 /\
  snd (get_daily_usage (plain_date 180000) 180000 site (fst (record_log plain_date log ∅), [])) = Ok 20.
Proof. split; vm_compute; reflexivity. Qed.
Lemma log_fits : log_ok log.
Proof. split; [repeat constructor; vm_compute; discriminate|vm_compute; discriminate]. Qed.
Lemma bandwidth_limit_checked_witness :
  let '(m, l) := record_log plain_date log ∅ in
  exists month day, sum_bytes (acked (in_month plain_date site 180000)) l <= month <= sum_bytes (in_month plain_date site 180000) l /\
    sum_bytes (acked (in_day plain_date site 180000)) l <= day <= sum_bytes (in_day plain_date site 180000) l /\
    snd (get_monthly_usage (plain_date 180000) 180000 site (m, [])) = Ok month /\
    snd (get_daily_usage (plain_date 180000) 180000 site (m, [])) = Ok day /\
    snd (check_limit (plain_date 180000) 180000 site (Some 120) None (m, [])) = Ok ((month <? 120) && true).
Proof. apply (bandwidth_limit_checked plain_date log site 180000 (Some 120) None log_fits). split; vm_compute; discriminate. Defined.
End CountersDemo.
