(* ===== verification/DatabaseFiles.v ===== *)
(** The rest of the [database-proxy] crate: the file that keeps its routes across a
    restart ([load_database_routes_from_file], [save_database_routes_to_file]), and
    what is done with one inbound connection ([handle_database_connection],
    [handle_public_port_connection]).  The directory of the file is that of
    [RouteStore]; [serde_json] is a parameter with its laws. *)
From stdpp Require Import options sorting.
From S2P Require Import Prelude RustStr RustNum RustNet CommonTypes RouteRegistry RedisTokens RouteStore DatabaseProxy Config.

Local Open Scope Z_scope.
Local Open Scope rust_scope.

(** ** The file *)

Class DatabaseCodec := {
  encode_database : list DatabaseProxyRoute -> option rstr;
  decode_database : rstr -> option (list DatabaseProxyRoute);
}.
(** [u8::is_ascii_whitespace]: not the vertical tab. *)
Definition is_ascii_whitespace (c : ascii) : bool := existsb (fun n => bz c =? n) [32; 9; 10; 12; 13].
(** What was written reads back as it was; a list has a bracket. *)
Class DatabaseCodecLaws (DC : DatabaseCodec) : Prop := {
  decode_encode_database : forall l p, encode_database l = Some p -> decode_database p = Some l;
  encode_database_text : forall l p, encode_database l = Some p -> forallb is_ascii_whitespace p = false;
}.

(** The order of the file: type, key, host and port, absent ones as empty or 0. *)
Definition database_route_le (a b : DatabaseProxyRoute) : Prop :=
  let host r := default [] (dp_route_host r) in
  let port r := default 0 (dp_public_port r) in
  dp_database_type a <> dp_database_type b /\ str_le (dp_database_type a) (dp_database_type b) \/
  dp_database_type a = dp_database_type b /\
  (dp_key a <> dp_key b /\ str_le (dp_key a) (dp_key b) \/
   dp_key a = dp_key b /\
   (host a <> host b /\ str_le (host a) (host b) \/ host a = host b /\ port a <= port b)).
#[export] Instance database_route_le_dec : RelDecision database_route_le.
Proof. intros a b. unfold database_route_le. cbv zeta. apply _. Defined.

Section file.
Context {NL : IpNetLib} {DC : DatabaseCodec}.
Definition sorted_routes (routes : list DatabaseProxyRoute) : list DatabaseProxyRoute := merge_sort database_route_le routes.
Definition save_database_routes (fate : save_fate) (routes : list DatabaseProxyRoute) (f : Files) : Files * bool :=
  match encode_database (sorted_routes routes) with
  | None => (f, false)
  | Some bytes => save_bytes fate bytes f
  end.
(** A missing file has no routes; [readable] is false when reading fails otherwise. *)
Definition load_database_routes (readable : bool) (f : Files) : result rstr (list DatabaseProxyRoute) :=
  match content f with
  | None => Ok []
  | Some bytes =>
    if negb readable then Err (lit "reading")
    else if forallb is_ascii_whitespace bytes then Ok []
    else ok_or (lit "parsing") (decode_database bytes)
  end.
(** The start: the registry has the routes of the configuration, and those of the
    file are put on top of them; an error of the file is logged. *)
Definition restore_database_routes (c : PxxlConfig) (loaded : result rstr (list DatabaseProxyRoute)) : DatabaseRouteRegistry :=
  database_routes c (match loaded with Ok routes => Some routes | Err _ => None end).
End file.

(** ** A connection *)

(** What the inbound connection comes to: refused before the upstream is known or
    reached, or connected, with what the upstream gets before the bytes are copied. *)
Inductive session := SessionError (error : rstr) | Copying (upstream : rstr) (sent : rstr).
(** [connect]: the error of [TcpStream::connect] to an upstream, if any; [written]: whether
    the prelude could be written. *)
Definition handle_public_port_connection (connect : rstr -> option rstr) (public_port : Z) (r : DatabaseRouteRegistry) : session :=
  match public_port_upstream r public_port with
  | Err error => SessionError error
  | Ok upstream =>
    match connect upstream with
    | Some _ => SessionError (lit "connecting to database upstream " ++ upstream)
    | None => Copying upstream []
    end
  end.
Definition handle_database_connection (token_env : option rstr) (connect : rstr -> option rstr) (written : bool) (database_type : rstr) (inbound : rstr)
    (r : DatabaseRouteRegistry) : session :=
  match choose_database token_env database_type inbound r with
  | Err error => SessionError error
  | Ok (upstream, prelude) =>
    match connect upstream with
    | Some _ => SessionError (lit "connecting to database upstream " ++ upstream)
    | None => if negb (is_empty prelude) && negb written then SessionError (lit "write") else Copying upstream prelude
    end
  end.

(** ** Theorems *)

(** *** Normalised routes stay as they are *)

Lemma normalize_route_key_idem k : normalize_route_key (normalize_route_key k) = normalize_route_key k.
Proof. unfold normalize_route_key. by rewrite trim_lower, trim_idem, to_ascii_lowercase_idem. Qed.
Lemma normalize_database_type_idem t : normalize_database_type (normalize_database_type t) = normalize_database_type t.
Proof.
  assert (H : normalize_database_type t = lit "postgres" \/ normalize_database_type t = lit "dragonfly" \/
    normalize_database_type t = to_ascii_lowercase (trim t) /\ (to_ascii_lowercase (trim t) =s? lit "postgresql") = false /\
    (to_ascii_lowercase (trim t) =s? lit "dragonflydb") = false).
  { unfold normalize_database_type. repeat case_match; auto. }
  destruct H as [->|[->|(-> & H1 & H2)]]; [by vm_compute..|]. unfold normalize_database_type.
  by rewrite trim_lower, trim_idem, to_ascii_lowercase_idem, H1, H2.
Qed.
Lemma normalized_idem route : normalized (normalized route) = normalized route.
Proof. unfold normalized. cbn [dp_database_type dp_key dp_upstream dp_route_host dp_public_port]. by rewrite normalize_database_type_idem, normalize_route_key_idem. Qed.
Lemma normalized_storable route : storable (normalized route) = storable route.
Proof. unfold storable, db_entry. cbn [normalized dp_database_type dp_key dp_upstream]. by rewrite normalize_database_type_idem, normalize_route_key_idem. Qed.

(** What the registry holds is normalised and can be stored again. *)
Definition settled (route : DatabaseProxyRoute) : Prop := normalized route = route /\ storable route = true.
Lemma spec_settled ops e route : foldl spec_step ∅ ops !! e = Some route -> settled route.
Proof.
  revert e. induction ops as [|op ops IH] using rev_ind; intros e; [by cbn [foldl]; rewrite lookup_empty|]. rewrite foldl_snoc. destruct op as [x|t k]; cbn [spec_step].
  - destruct (storable x) eqn:Es; [|apply IH]. rewrite spec_insert_lookup. case_decide; [|apply IH]. intros [= <-].
    split; [apply normalized_idem|by rewrite normalized_storable].
  - rewrite spec_delete_lookup. case_decide; [done|apply IH].
Qed.
Definition key_of (route : DatabaseProxyRoute) : rstr * rstr := (dp_database_type route, dp_key route).
Lemma settled_entry route : settled route -> db_entry (dp_database_type route) (dp_key route) = key_of route.
Proof. intros [<- _]. unfold db_entry, key_of. cbn [normalized dp_database_type dp_key]. by rewrite normalize_database_type_idem, normalize_route_key_idem. Qed.

(** *** Putting a list of settled routes back *)

Lemma restored_lookup routes M e : Forall settled routes -> NoDup (key_of <$> routes) ->
  foldl spec_step M (DbUpsert <$> routes) !! e = match List.find (fun route => bool_decide (key_of route = e)) routes with Some route => Some route | None => M !! e end.
Proof.
  revert M. induction routes as [|x routes IH]; intros M Hs Hn; [done|]. apply Forall_cons in Hs as [Hx Hs]. apply NoDup_cons in Hn as [Hnx Hn].
  cbn [fmap list_fmap foldl List.find]. fold (DbUpsert <$> routes). rewrite IH by done. cbn [spec_step]. destruct (Hx) as [Ex ->]. rewrite (settled_entry _ Hx), Ex.
  destruct (List.find _ routes) as [y|] eqn:Ef.
  - apply find_some in Ef as [Hy He]. bools. case_bool_decide as Hk; [|done]. destruct Hnx. rewrite Hk, <- He. apply list_elem_of_fmap. exists y. split; [done|]. by apply list_elem_of_In.
  - rewrite spec_insert_lookup. repeat case_decide; case_bool_decide; congruence.
Qed.
Lemma upserts_steps routes r : foldl db_step r (DbUpsert <$> routes) = foldl (fun r route => db_upsert route r) r routes.
Proof. revert r. induction routes as [|x routes IH]; intros r; [done|]. apply (IH (db_upsert x r)). Qed.
Section start.
Context {NL : IpNetLib}.
(** What is put in at the start, as operations. *)
Definition loaded_routes (loaded : result rstr (list DatabaseProxyRoute)) : list DatabaseProxyRoute :=
  match loaded with Ok routes => routes | Err _ => [] end.
Definition start_ops (c : PxxlConfig) (loaded : result rstr (list DatabaseProxyRoute)) : list db_op :=
  (DbUpsert <$> configured_database_routes c) ++ (DbUpsert <$> loaded_routes loaded).
Lemma restore_steps c loaded : restore_database_routes c loaded = foldl db_step DatabaseRouteRegistry_default (start_ops c loaded).
Proof. unfold restore_database_routes, database_routes, start_ops, db_new. rewrite foldl_app, !upserts_steps. by destruct loaded. Qed.
Lemma run_repr c loaded ops : db_repr (foldl db_step (restore_database_routes c loaded) ops) (foldl spec_step ∅ (start_ops c loaded ++ ops)).
Proof. rewrite restore_steps, <- foldl_app. apply db_run_repr. Qed.

(** The routes of the list, in any order, laid over a table [M']. *)
Lemma restored_spec ops routes M' e : routes ≡ₚ db_list (foldl db_step DatabaseRouteRegistry_default ops) ->
  foldl spec_step M' (DbUpsert <$> routes) !! e = union_with (fun x _ => Some x) (foldl spec_step ∅ ops !! e) (M' !! e).
Proof.
  intros Hp. pose proof (db_run_repr ops) as HR. pose proof (db_spec_keyed ops) as HK. set (M := foldl spec_step ∅ ops) in *.
  pose proof (db_list_elem _ M HR HK) as Hel. rewrite restored_lookup.
  - destruct (List.find _ routes) as [x|] eqn:Ef.
    + apply find_some in Ef as [Hx He]. bools. rewrite <- He. assert (M !! key_of x = Some x) as ->; [|by destruct (M' !! _)].
      apply Hel. rewrite <- Hp. by apply list_elem_of_In.
    + destruct (M !! e) as [x|] eqn:Ex; [|by destruct (M' !! e)]. pose proof (HK _ _ Ex) as He. subst e.
      apply Hel in Ex. rewrite <- Hp in Ex. apply list_elem_of_In in Ex.
      pose proof (find_none _ _ Ef _ Ex) as Hn. cbn in Hn. by rewrite bool_decide_true in Hn.
  - apply Forall_forall. intros x Hx. rewrite Hp in Hx. apply Hel in Hx. by eapply spec_settled.
  - rewrite Hp. apply NoDup_fmap_2_strong; [|by eapply db_list_NoDup]. intros x y Hx%Hel Hy%Hel Hxy. unfold key_of in Hxy. rewrite Hxy in Hx. congruence.
Qed.
Lemma configured_repr c : db_repr (db_new (configured_database_routes c)) (foldl spec_step ∅ (DbUpsert <$> configured_database_routes c)).
Proof. unfold db_new. rewrite <- upserts_steps. apply db_run_repr. Qed.
(** The next start: the list over the configured routes. *)
Lemma overlaid_repr c routes ops : routes ≡ₚ db_list (foldl db_step DatabaseRouteRegistry_default ops) ->
  exists M, db_repr (restore_database_routes c (Ok routes)) M /\
    forall e, M !! e = union_with (fun x _ => Some x) (foldl spec_step ∅ ops !! e) (foldl spec_step ∅ (DbUpsert <$> configured_database_routes c) !! e).
Proof.
  intros Hp. eexists. split; [apply (run_repr c (Ok routes) [])|]. intros e. rewrite app_nil_r. unfold start_ops. rewrite foldl_app. by apply restored_spec.
Qed.
(** Registries with the same table answer the same. *)
Lemma same_only_route r r' M : db_repr r M -> db_repr r' M -> forall t, db_resolve_only_route r' t = db_resolve_only_route r t.
Proof. intros HR HR' t. apply option_eq. intros u. by rewrite (db_only_route_spec _ _ HR'), (db_only_route_spec _ _ HR). Qed.

End start.

Section restart.
Context {NL : IpNetLib} {DC : DatabaseCodec} {DL : DatabaseCodecLaws DC}.

(** The file reads back: a save that reports success leaves a file from which all
    routes are loaded, in the order of the file. *)
Lemma database_file_roundtrip routes f : files_ok f -> snd (save_database_routes SavedAll routes f) = true ->
  load_database_routes true (fst (save_database_routes SavedAll routes f)) = Ok (sorted_routes routes).
Proof using DL.
  intros Hf Hs. unfold save_database_routes in *. destruct (encode_database (sorted_routes routes)) as [bytes|] eqn:E; [|done].
  destruct (save_bytes_content SavedAll bytes f Hf) as (_ & Hc & _). unfold load_database_routes. rewrite Hc. cbn [negb].
  by rewrite (encode_database_text _ _ E), (decode_encode_database _ _ E).
Qed.
(** A save that fails, at any point, leaves what a load finds as it was. *)
Lemma failed_save_keeps fate routes readable f : files_ok f -> snd (save_database_routes fate routes f) = false ->
  load_database_routes readable (fst (save_database_routes fate routes f)) = load_database_routes readable f.
Proof using.
  intros Hf Hs. unfold save_database_routes in *. destruct (encode_database (sorted_routes routes)) as [bytes|]; [|done].
  destruct (save_bytes_content fate bytes f Hf) as (_ & Hc & Hr). rewrite Hr in Hs. unfold load_database_routes. rewrite Hc. by destruct fate.
Qed.

(** C26: the database routes survive a restart. The process starts with the routes
    of its configuration and those of its file, upserts and deletes follow, and the
    registry's list is saved; the next start is with any configuration and that file.
    Then every type and key that resolved before resolves to the same upstream
    again; a type and key that did not resolve before resolves to what the new
    configuration has for it, so that a configured route that was deleted comes back;
    and if the new configuration has no such route, the fallback of every type is the
    same as before, too. A save that fails at any point leaves what a load finds as
    it was. (Which route a shared public port leads to is not kept.) *)
Theorem database_restart c loaded ops c' f fate routes readable :
  files_ok f ->
  let r := foldl db_step (restore_database_routes c loaded) ops in
  (snd (save_database_routes SavedAll (db_list r) f) = true ->
   let r' := restore_database_routes c' (load_database_routes true (fst (save_database_routes SavedAll (db_list r) f))) in
   let configured := db_new (configured_database_routes c') in
   (forall t k, db_resolve r' t k = match db_resolve r t k with Some u => Some u | None => db_resolve configured t k end) /\
   ((forall t k, db_resolve r t k = None -> db_resolve configured t k = None) ->
    forall t, db_resolve_only_route r' t = db_resolve_only_route r t)) /\
  (snd (save_database_routes fate routes f) = false ->
   load_database_routes readable (fst (save_database_routes fate routes f)) = load_database_routes readable f).
Proof using DL.
  intros Hf r. split; [|by apply failed_save_keeps]. intros Hs r' configured. unfold r'. rewrite database_file_roundtrip by done. clear r'.
  pose proof (run_repr c loaded ops) as HR. fold r in HR. set (l := sorted_routes (db_list r)).
  pose proof (configured_repr c') as HC. fold configured in HC.
  assert (Hl : l ≡ₚ db_list (foldl db_step DatabaseRouteRegistry_default (start_ops c loaded ++ ops))).
  { unfold l, sorted_routes. rewrite merge_sort_Permutation. unfold r. by rewrite restore_steps, <- foldl_app. }
  pose proof (overlaid_repr c' l _ Hl) as (M' & HR' & HM'). split.
  - intros t k. unfold db_resolve. rewrite (repr_routes _ _ HR'), (repr_routes _ _ HR), (repr_routes _ _ HC), HM'.
    destruct (foldl spec_step _ (_ ++ ops) !! _), (foldl spec_step _ _ !! _); reflexivity.
  - intros Hnone. apply (same_only_route _ _ _ HR). assert (foldl spec_step ∅ (start_ops c loaded ++ ops) = M') as ->; [|done].
    apply map_eq. intros e. rewrite HM'. destruct (foldl spec_step _ (_ ++ ops) !! e) as [x|] eqn:Ex; [destruct (foldl spec_step ∅ (DbUpsert <$> _) !! e); reflexivity|].
    destruct (foldl spec_step ∅ (DbUpsert <$> _) !! e) as [x|] eqn:Ec; [|reflexivity]. pose proof (spec_settled _ _ _ Ec) as Hx. pose proof (db_spec_keyed _ _ _ Ec) as He.
    fold (key_of x) in He. rewrite <- (settled_entry _ Hx) in He. subst e. specialize (Hnone (dp_database_type x) (dp_key x)).
    unfold db_resolve in Hnone. rewrite (repr_routes _ _ HR), (repr_routes _ _ HC) in Hnone. fold (db_entry (dp_database_type x) (dp_key x)) in Hnone.
    rewrite Ex, Ec in Hnone. by specialize (Hnone eq_refl).
Qed.
End restart.

(** ** Examples *)

Module FilesDemo.
Definition flat (r : DatabaseProxyRoute) := (dp_database_type r, dp_key r, dp_upstream r, dp_route_host r, dp_public_port r).
Definition unflat (x : rstr * rstr * rstr * option rstr * option Z) : DatabaseProxyRoute :=
  let '(t, k, u, h, p) := x in {| dp_database_type := t; dp_key := k; dp_upstream := u; dp_route_host := h; dp_public_port := p |}.
#[export] Instance BitCodec : DatabaseCodec := {|
  encode_database l := Some (chr "[" :: bits_of (encode (map flat l)));
  decode_database p := match p with _ :: p => option_map (map unflat) (decode (of_bits p)) | [] => None end |}.
#[export] Instance BitCodecLaws : DatabaseCodecLaws BitCodec.
Proof.
  split; cbn [encode_database decode_database BitCodec]; intros l p [= <-]; [|done].
  rewrite of_bits_of, decode_encode. cbn [option_map]. f_equal. rewrite map_map. rewrite <- (map_id l) at 2. apply map_ext. by intros [].
Qed.
Definition no_files : Files := {| fl_main := None; fl_temp := None; fl_data := ∅; fl_next := 0 |}.
Lemma no_files_ok : files_ok no_files.
Proof. by split. Qed.
Definition route (t k u : string) (port : option Z) : DatabaseProxyRoute :=
  {| dp_database_type := lit t; dp_key := lit k; dp_upstream := lit u; dp_route_host := None; dp_public_port := port |}.
Definition ops : list db_op := [
  DbUpsert (route "PostgreSQL" " Shop " "10.0.0.1:5432" (Some 30001)); DbUpsert (route "redis" "cache" "10.0.0.2:6379" None);
  DbUpsert (route "redis" "old" "10.0.0.3:6379" None); DbDelete (lit "redis") (lit "OLD")].
(** A configuration with database routes. *)
Definition configured (routes : list DatabaseProxyRoute) : @PxxlConfig CidrLib :=
  let c := PxxlConfig_default in
  {| cf_listeners := cf_listeners c; cf_tls := cf_tls c; cf_docker := cf_docker c; cf_podman := cf_podman c;
     cf_database_proxy := {| dx_enabled := true; dx_listeners := []; dx_routes := map (fun r =>
       {| dc_database_type := dp_database_type r; dc_key := dp_key r; dc_upstream := dp_upstream r; dc_route_host := dp_route_host r; dc_public_port := dp_public_port r |}) routes |};
     cf_error_pages := cf_error_pages c; cf_geoip := cf_geoip c; cf_admin := cf_admin c; cf_metrics := cf_metrics c;
     cf_health_checks := cf_health_checks c; cf_security := cf_security c; cf_redis := cf_redis c; cf_storage := cf_storage c; cf_routes := cf_routes c |}.
Definition config : @PxxlConfig CidrLib := configured [route "mysql" "main" "10.0.0.9:3306" None; route "postgres" "shop" "10.0.0.8:5432" None].
(** The registry after a start with the configuration and no file, and the operations. *)
Definition ran : DatabaseRouteRegistry := foldl db_step (@restore_database_routes CidrLib config (Ok [])) ops.
Definition restarted (c : @PxxlConfig CidrLib) (r : DatabaseRouteRegistry) : DatabaseRouteRegistry :=
  @restore_database_routes CidrLib c (load_database_routes true (fst (save_database_routes SavedAll (db_list r) no_files))).
Lemma database_restart_witness :
  db_resolve (restarted config ran) (lit "postgres") (lit "SHOP") = Some (lit "10.0.0.1:5432") /\
  load_database_routes true (fst (save_database_routes (Torn 3) (db_list ran) no_files)) = load_database_routes true no_files.
Proof.
  split.
  - destruct (@database_restart CidrLib BitCodec BitCodecLaws config (Ok []) ops config no_files SavedAll [] true no_files_ok) as [H _].
    destruct H as [H _]; [vm_compute; reflexivity|]. etransitivity; [apply (H (lit "postgres") (lit "SHOP"))|vm_compute; reflexivity].
  - apply (@database_restart CidrLib BitCodec BitCodecLaws config (Ok []) ops config no_files (Torn 3) _ true no_files_ok). vm_compute. reflexivity.
Defined.
(** A configured route that is deleted is back after the restart. *)
Example deleted_configured_route_returns :
  let r := fst (db_delete (lit "mysql") (lit "main") ran) in
  db_resolve r (lit "mysql") (lit "main") = None /\
  db_resolve (restarted config r) (lit "mysql") (lit "main") = Some (lit "10.0.0.9:3306").
Proof. split; vm_compute; reflexivity. Qed.
(** The port of a route that two routes share goes to the one stored last; after a
    restart, to the one that comes last in the order of the file. *)
Definition shared : list db_op := [
  DbUpsert (route "redis" "b" "10.0.0.2:6379" (Some 30001)); DbUpsert (route "redis" "a" "10.0.0.1:6379" (Some 30001))].
Example shared_port_moves :
  let r := foldl db_step DatabaseRouteRegistry_default shared in
  handle_public_port_connection (fun _ => None) 30001 r = Copying (lit "10.0.0.1:6379") [] /\
  handle_public_port_connection (fun _ => None) 30001 (restarted (configured []) r) = Copying (lit "10.0.0.2:6379") [].
Proof. split; vm_compute; reflexivity. Qed.
(** Only PostgreSQL connections show the token; a type with one route is open. *)
Example redis_needs_no_token :
  handle_database_connection (Some (lit "secret")) (fun _ => None) true (lit "redis") [] (foldl db_step DatabaseRouteRegistry_default ops)
  = Copying (lit "10.0.0.2:6379") [].
Proof. vm_compute. reflexivity. Qed.
End FilesDemo.
