(* ===== verification/EdgeMain.v ===== *)
(** The frame of the edge binary ([main.rs]): the tasks [main] starts and how it waits
    for them at the end, the ports it opens for database routes, and the file that
    keeps the statistics of the domains across a restart. *)
From stdpp Require Import options sorting.
From S2P Require Import Prelude RustStr RustNum RustNet CommonTypes RouteRegistry RedisTokens RouteStore DatabaseProxy Stats AdminAuth AdminRoutes AdminApi Config Listeners.

Local Open Scope Z_scope.
Local Open Scope rust_scope.

(** ** The tasks *)

Inductive Task :=
| HttpProxyTask (addr : IpAddr * Z) | HttpsProxyTask (addr : IpAddr * Z) | AdminApiTask (addr : IpAddr * Z) | MetricsTask (addr : IpAddr * Z)
| ClickHouseWriterTask | StatsSnapshotTask | RouteEventTask
| DatabaseProxyTask (database_type : rstr) (addr : IpAddr * Z)
| HealthCheckTask | TlsReloaderTask | DockerTask | PodmanTask.

Section main.
Context {NL : IpNetLib} (env : rstr -> option rstr).

Fixpoint database_tasks (listeners : list DatabaseProxyListenerConfig) : result rstr (list Task) :=
  match listeners with
  | [] => Ok []
  | l :: rest =>
    let? addr := parse_addr (lit "database_proxy.listeners.listen") (dl_listen l) in
    let? tasks := database_tasks rest in
    Ok (DatabaseProxyTask (dl_database_type l) addr :: tasks)
  end.
(** [analytics]: a writer was set up; [socket]: the socket of a path is there.  An
    address that does not parse ends [main] with an error. *)
Definition main_tasks (c : PxxlConfig) (analytics : bool) (socket : rstr -> bool) : result rstr (list Task) :=
  let? http_addr := parse_addr (lit "listeners.http") (ln_http (cf_listeners c)) in
  let? https_addr := parse_addr (lit "listeners.https") (ln_https (cf_listeners c)) in
  let? admin_addr := parse_addr (lit "listeners.admin") (ln_admin (cf_listeners c)) in
  let? metrics_addr := parse_addr (lit "listeners.metrics") (ln_metrics (cf_listeners c)) in
  let? database := if dx_enabled (cf_database_proxy c) then database_tasks (dx_listeners (cf_database_proxy c)) else Ok [] in
  Ok ([HttpProxyTask http_addr; HttpsProxyTask https_addr; AdminApiTask admin_addr; MetricsTask metrics_addr]
      ++ (if analytics then [ClickHouseWriterTask] else [])
      ++ [StatsSnapshotTask]
      ++ (if env_flag_default env "PXXL_ROUTE_EVENTS_ENABLED" true then [RouteEventTask] else [])
      ++ database
      ++ (if hc_enabled (cf_health_checks c) then [HealthCheckTask] else [])
      ++ [TlsReloaderTask]
      ++ (if docker_enabled (cf_docker c) && socket (docker_socket_path (cf_docker c)) then [DockerTask] else [])
      ++ (if podman_enabled (cf_podman c) && socket (podman_socket_path (cf_podman c)) then [PodmanTask] else [])).
(** The ports the manager opens for the routes the edge starts with. *)
Definition started_ports (c : PxxlConfig) (routes : DatabaseRouteRegistry) : gset Z :=
  match database_port_proxy_manager env c with
  | None => ∅
  | Some (_, range) => foldl (fun ports route => ensure_listener (Some range) (dp_public_port route) ports) ∅ (db_list routes)
  end.
End main.

(** The loop a task runs, for the tasks that listen. *)
Definition kind_of_task (t : Task) : option Kind :=
  match t with
  | HttpProxyTask _ => Some PlainListener
  | HttpsProxyTask _ => Some TlsListener
  | AdminApiTask _ => Some ApiListener
  | MetricsTask _ => Some MetricsListener
  | DatabaseProxyTask database_type _ => Some (DatabaseListener database_type)
  | _ => None
  end.

(** ** The end *)

(** After the signal [main] waits for each task in turn, ten seconds at most.  A
    task is the time at which it is done, in milliseconds after the signal. *)
Definition TASK_STOP_TIMEOUT_MS : Z := 10 * 1000.
Definition wait_for_task (now : Z) (done_at : option Z) : Z :=
  match done_at with
  | Some at_ => Z.min (Z.max now at_) (now + TASK_STOP_TIMEOUT_MS)
  | None => now + TASK_STOP_TIMEOUT_MS
  end.
Definition wait_for_tasks (tasks : list (option Z)) : Z := foldl wait_for_task 0 tasks.

(** ** The statistics file *)

Section stats_file.
(** [serde_json]'s text of a list of snapshots. *)
Context (encode_stats : list DomainStatsSnapshot -> option rstr) (decode_stats : rstr -> option (list DomainStatsSnapshot)).

Definition load_domain_stats_snapshot (readable : bool) (f : Files) (r : DomainStatsRegistry) : DomainStatsRegistry * result rstr Z :=
  match content f with
  | None => (r, Ok 0)
  | Some bytes =>
    if negb readable then (r, Err (lit "read"))
    else if is_empty bytes then (r, Ok 0)
    else
      match decode_stats bytes with
      | None => (r, Err (lit "parsing edge metrics snapshot"))
      | Some snapshots => (restore_snapshots snapshots r, Ok (Z.of_nat (length snapshots)))
      end
  end.
Definition write_domain_stats_snapshot (fate : save_fate) (r : DomainStatsRegistry) (f : Files) : Files * bool :=
  match encode_stats (snapshots r) with
  | None => (f, false)
  | Some bytes => save_bytes fate bytes f
  end.
Definition stats_interval (env : rstr -> option rstr) : Z :=
  Z.max 2 (default 10 (match env (lit "PXXL_STATS_SNAPSHOT_INTERVAL_SECONDS") with Some value => parse_uint U64_MAX value | None => None end)).
(** One turn of [run_domain_stats_snapshotter], with what becomes of its write: the
    timer, or a change of the shutdown channel.  The flag says whether it goes on. *)
Inductive snapshotter_event := SnapshotTick (fate : save_fate) | SnapshotShutdown (changed value : bool) (fate : save_fate).
Definition snapshotter_step (e : snapshotter_event) (r : DomainStatsRegistry) (f : Files) : Files * bool :=
  match e with
  | SnapshotTick fate => (fst (write_domain_stats_snapshot fate r f), true)
  | SnapshotShutdown changed value fate =>
    if changed && value then (fst (write_domain_stats_snapshot fate r f), false) else (f, true)
  end.
(** The turns, each with the statistics of its moment, until the task ends. *)
Fixpoint run_domain_stats_snapshotter (turns : list (snapshotter_event * DomainStatsRegistry)) (f : Files) : Files :=
  match turns with
  | [] => f
  | (e, r) :: rest =>
    let '(f, goes_on) := snapshotter_step e r f in if goes_on then run_domain_stats_snapshotter rest f else f
  end.
End stats_file.

(** ** Theorems *)

Lemma wait_for_task_range now at_ : now <= wait_for_task now at_ <= now + TASK_STOP_TIMEOUT_MS.
Proof. unfold wait_for_task, TASK_STOP_TIMEOUT_MS. destruct at_; lia. Qed.
(** The end comes: however the tasks behave, [main] returns within ten seconds for
    each, and as soon as the last one is done when all are done within ten seconds. *)
Theorem shutdown_bounded tasks :
  wait_for_tasks tasks <= TASK_STOP_TIMEOUT_MS * Z.of_nat (length tasks) /\
  forall last, 0 <= last <= TASK_STOP_TIMEOUT_MS -> Forall (fun at_ => exists t, at_ = Some t /\ t <= last) tasks -> wait_for_tasks tasks <= last.
Proof.
  unfold wait_for_tasks. split.
  - replace (TASK_STOP_TIMEOUT_MS * Z.of_nat (length tasks)) with (0 + TASK_STOP_TIMEOUT_MS * Z.of_nat (length tasks)) by lia.
    generalize 0. induction tasks as [|at_ tasks IH]; intros now; cbn [foldl length]; [lia|].
    specialize (IH (wait_for_task now at_)). pose proof (wait_for_task_range now at_). lia.
  - intros last Hl Hall. assert (H0 : 0 <= last) by lia. clear Hl. revert H0. generalize 0. induction Hall as [|at_ tasks (t & -> & Ht) _ IH]; intros now Hn; cbn [foldl]; [done|].
    apply IH. unfold wait_for_task. lia.
Qed.

(** The listeners of the edge are the four fixed ones and one for each entry of the
    database section, when it is enabled. *)
Lemma database_tasks_kinds {NL : IpNetLib} listeners tasks : database_tasks listeners = Ok tasks ->
  omap kind_of_task tasks = (fun l => DatabaseListener (dl_database_type l)) <$> listeners.
Proof.
  revert tasks. induction listeners as [|l rest IH]; intros tasks; cbn [database_tasks]; [by intros [= <-]|].
  destruct (parse_addr _ _); [|done]. destruct (database_tasks rest) as [ts|]; [|done]. intros [= <-]. cbn. f_equal. by apply IH.
Qed.
Lemma main_listeners {NL : IpNetLib} env c analytics socket tasks : main_tasks env c analytics socket = Ok tasks ->
  omap kind_of_task tasks = [PlainListener; TlsListener; ApiListener; MetricsListener]
    ++ (if dx_enabled (cf_database_proxy c) then (fun l => DatabaseListener (dl_database_type l)) <$> dx_listeners (cf_database_proxy c) else []).
Proof.
  unfold main_tasks. destruct (parse_addr _ _); [|done]. destruct (parse_addr _ _); [|done]. destruct (parse_addr _ _); [|done]. destruct (parse_addr _ _); [|done].
  destruct (if dx_enabled _ then _ else _) as [database|] eqn:E; [|done].
  assert (Hd : omap kind_of_task database = (if dx_enabled (cf_database_proxy c) then (fun l => DatabaseListener (dl_database_type l)) <$> dx_listeners (cf_database_proxy c) else [])).
  { destruct (dx_enabled _); [by apply database_tasks_kinds|by injection E as <-]. }
  rewrite <- Hd. generalize (env_flag_default env "PXXL_ROUTE_EVENTS_ENABLED" true), (hc_enabled (cf_health_checks c)),
    (docker_enabled (cf_docker c) && socket (docker_socket_path (cf_docker c))), (podman_enabled (cf_podman c) && socket (podman_socket_path (cf_podman c))).
  intros b1 b2 b3 b4 [= <-]. destruct analytics, b1, b2, b3, b4; cbn; rewrite ?omap_app; cbn; by rewrite ?app_nil_r.
Qed.

(** The ports that are opened at the start are those of the stored routes, in the
    range of the configuration, and never port 0. *)
Lemma ensure_listener_elem range port ports p : p ∈ ensure_listener (Some range) port ports <->
  p ∈ ports \/ port = Some p /\ p <> 0 /\ fst range <= p <= snd range.
Proof.
  destruct range as [lo hi]. cbn [ensure_listener fst snd]. destruct port as [q|]; [|naive_solver].
  destruct (_ || _) eqn:E.
  - split; [by left|]. intros [H|([= ->] & H0 & Hr)]; [done|]. exfalso. lia.
  - rewrite elem_of_union, elem_of_singleton. split; [intros [->|H]; [right|by left]; split; [done|lia]|naive_solver].
Qed.
Theorem started_ports_exact {NL : IpNetLib} env c routes p : p ∈ started_ports env c routes <->
  exists host range, database_port_proxy_manager env c = Some (host, range) /\
    exists route, route ∈ db_list routes /\ dp_public_port route = Some p /\ p <> 0 /\ fst range <= p <= snd range.
Proof.
  unfold started_ports. destruct (database_port_proxy_manager env c) as [[host range]|]; [|set_solver].
  assert (H : forall l ports, p ∈ foldl (fun ports route => ensure_listener (Some range) (dp_public_port route) ports) ports l <->
    p ∈ ports \/ exists route, route ∈ l /\ dp_public_port route = Some p /\ p <> 0 /\ fst range <= p <= snd range).
  { induction l as [|x l IH]; intros ports; cbn [foldl]; [set_solver|]. rewrite IH, ensure_listener_elem. setoid_rewrite elem_of_cons. naive_solver. }
  rewrite H. setoid_rewrite elem_of_empty. naive_solver.
Qed.

(** *** The connections of the whole edge *)

Definition connections {TlsConfig} (s : Edge (TlsConfig := TlsConfig)) : Z := foldr (fun l n => Z.of_nat (size (ls_conns l)) + n) 0 (eg_listeners s).
Definition permits_of (kinds : list Kind) : Z := foldr (fun k n => max_connections k + n) 0 kinds.
Lemma step_kinds {TlsConfig} base64 now (tls : TlsConfig) e l l' change : listener_step base64 now tls e l = Some (l', change) -> ls_kind l' = ls_kind l.
Proof. intros H. apply (fw_kind _ _ (step_follows _ _ _ _ _ _ _ H)). Qed.
Lemma run_kinds {TlsConfig} base64 events (s s' : Edge (TlsConfig := TlsConfig)) : run base64 events s = Some s' -> ls_kind <$> eg_listeners s' = ls_kind <$> eg_listeners s.
Proof.
  revert s. induction events as [|e events IH]; intros s; cbn [run]; [by intros [= <-]|]. destruct (edge_step base64 e s) as [s1|] eqn:E; [|done].
  intros H. rewrite (IH _ H). destruct e as [i e|seconds|config]; cbn [edge_step] in E.
  - destruct (eg_listeners s !! i) as [l|] eqn:Ei; [|done]. destruct (listener_step _ _ _ _ _) as [[l' change]|] eqn:Es; [|done]. injection E as <-. cbn.
    rewrite list_fmap_insert, (step_kinds _ _ _ _ _ _ _ Es), list_insert_id; [done|]. by rewrite list_lookup_fmap, Ei.
  - destruct (0 <=? seconds); [|done]. by injection E as <-.
  - by injection E as <-.
Qed.
Lemma permits_app a b : permits_of (a ++ b) = permits_of a + permits_of b.
Proof.
  induction a as [|k a IH]; [done|]. change (permits_of ((k :: a) ++ b)) with (max_connections k + permits_of (a ++ b)).
  change (permits_of (k :: a)) with (max_connections k + permits_of a). lia.
Qed.
Abbreviation database_kinds := (fmap (fun l => DatabaseListener (dl_database_type l))).
Lemma permits_database (l : list DatabaseProxyListenerConfig) : permits_of (database_kinds l) = 4096 * Z.of_nat (length l).
Proof.
  induction l as [|x l IH]; [done|]. change (permits_of (database_kinds (x :: l))) with (4096 + permits_of (database_kinds l)). cbn [length]. lia.
Qed.
Abbreviation counted_kinds := (filter (fun k => counted k = true)).
Lemma counted_database (l : list DatabaseProxyListenerConfig) : counted_kinds (database_kinds l) = [].
Proof. induction l as [|x l IH]; [done|]. cbn [fmap list_fmap]. by rewrite filter_cons_False. Qed.
Lemma connections_permits {TlsConfig} (s : Edge (TlsConfig := TlsConfig)) : edge_ok s ->
  connections s <= permits_of (ls_kind <$> eg_listeners s) /\
  0 <= eg_active s - sum_panicked (eg_listeners s) <= permits_of (counted_kinds (ls_kind <$> eg_listeners s)).
Proof.
  intros [Hl Ha]. rewrite total_gauge in Ha. replace (eg_active s - _) with (sum_active (eg_listeners s)) by lia. clear Ha. unfold connections. induction Hl as [|l ls Hok _ [IH1 IH2]]; [done|]. pose proof (active_bounds _ _ Hok) as Hb. destruct Hok as [Hp Hf _ _ _].
  cbn [fmap list_fmap foldr]. change (sum_active (l :: ls)) with (active_of l + sum_active ls). change (permits_of (ls_kind l :: ?x)) with (max_connections (ls_kind l) + permits_of x).
  rewrite filter_cons. split; [lia|]. destruct (counted (ls_kind l)); case_decide; try done; [|lia].
  change (permits_of (ls_kind l :: ?x)) with (max_connections (ls_kind l) + permits_of x). lia.
Qed.

(** Whatever the configuration, the edge never runs more than 2 * 8192 + 2 * 2048
    connection tasks of its fixed listeners plus 4096 for each database listener of
    the configuration: in every state its listeners can reach, the tasks that live are
    within that number, and the gauge of connections is within 2 * 8192 of the number
    of served connections that ended in a panic. Tunnels are not counted. *)
Theorem edge_connections_bounded {NL : IpNetLib} {TlsConfig} base64 env c analytics socket tasks errors now (tls : TlsConfig) events s :
  main_tasks env c analytics socket = Ok tasks -> length errors = length (omap kind_of_task tasks) ->
  run base64 events (start now tls (zip (omap kind_of_task tasks) errors)) = Some s ->
  connections s <= 2 * 8192 + 2 * 2048 + 4096 * Z.of_nat (length (dx_listeners (cf_database_proxy c))) /\
  0 <= eg_active s - sum_panicked (eg_listeners s) <= 2 * 8192.
Proof.
  intros Ht Hlen Hr. destruct (connections_permits _ (run_ok _ _ _ _ (start_ok _ _ _) Hr)) as [Hc Hg].
  assert (Hk : ls_kind <$> eg_listeners s = omap kind_of_task tasks).
  { rewrite (run_kinds _ _ _ _ Hr). cbn. rewrite <- list_fmap_compose. rewrite <- (fst_zip (omap kind_of_task tasks) errors) at 2 by lia. by apply list_fmap_ext. }
  rewrite Hk, (main_listeners _ _ _ _ _ Ht), permits_app in Hc. rewrite Hk, (main_listeners _ _ _ _ _ Ht), filter_app, permits_app in Hg.
  change (permits_of [PlainListener; TlsListener; ApiListener; MetricsListener]) with (2 * 8192 + 2 * 2048) in Hc.
  change (permits_of (counted_kinds [PlainListener; TlsListener; ApiListener; MetricsListener])) with (2 * 8192) in Hg.
  destruct (dx_enabled _); rewrite ?permits_database in Hc; rewrite ?counted_database in Hg; cbn [permits_of foldr filter list_filter] in Hc, Hg; lia.
Qed.

(** *** The statistics across a restart *)

Lemma restore_one_foldl (l : list DomainStatsSnapshot) m d : NoDup (sn_domain <$> l) ->
  foldl restore_one m l !! d =
    match List.find (fun s => bool_decide (sn_domain s = d)) l with
    | Some s => if is_empty (trim d) then m !! d else Some (counters_restore s DomainStatsCounters_default)
    | None => m !! d
    end.
Proof.
  revert m. induction l as [|x l IH]; intros m Hn; [done|]. apply NoDup_cons in Hn as [Hx Hn]. cbn [foldl List.find]. rewrite IH by done.
  assert (Hm : restore_one m x !! d = if bool_decide (sn_domain x = d) then if is_empty (trim d) then m !! d else Some (counters_restore x DomainStatsCounters_default) else m !! d).
  { unfold restore_one. case_bool_decide as Hd; [subst d; destruct (is_empty (trim (sn_domain x))); [reflexivity|apply lookup_insert_eq]|].
    destruct (is_empty (trim (sn_domain x))); [reflexivity|]. by apply lookup_insert_ne. }
  rewrite Hm. destruct (List.find _ l) as [s|] eqn:Ef; [|by case_bool_decide]. apply find_some in Ef as [Hs He]. bools.
  case_bool_decide as Hd; [|done]. destruct Hx. rewrite Hd, <- He. apply list_elem_of_fmap. exists s. split; [done|by apply list_elem_of_In].
Qed.
Lemma snapshots_domains r : sn_domain <$> snapshots r ≡ₚ (map_to_list (sr_domains r)).*1.
Proof. unfold snapshots. rewrite merge_sort_Permutation, <- list_fmap_compose. done. Qed.
(** The counters of a domain in the registry the snapshots of another one make. *)
Lemma restored_domain r sink spool d :
  sr_domains (restore_snapshots (snapshots r) (StatsRegistry_new sink spool)) !! d =
    if is_empty (trim d) then None else (fun c => counters_restore (counters_snapshot d c) DomainStatsCounters_default) <$> sr_domains r !! d.
Proof.
  cbn [restore_snapshots StatsRegistry_new sr_domains]. rewrite restore_one_foldl; [|rewrite snapshots_domains; apply NoDup_fst_map_to_list].
  rewrite lookup_empty. destruct (List.find _ (snapshots r)) as [s|] eqn:Ef.
  - apply find_some in Ef as [Hs He]. bools. apply list_elem_of_In in Hs. unfold snapshots in Hs. rewrite merge_sort_Permutation in Hs.
    apply list_elem_of_fmap in Hs as ([d' c] & -> & Hc). cbn in He. subst d'. apply elem_of_map_to_list in Hc. by rewrite Hc.
  - destruct (sr_domains r !! d) as [c|] eqn:Ec; [|by destruct (is_empty _)]. exfalso.
    assert (counters_snapshot d c ∈ snapshots r) as Hin.
    { unfold snapshots. rewrite merge_sort_Permutation. apply list_elem_of_fmap. exists (d, c). split; [done|by apply elem_of_map_to_list]. }
    apply list_elem_of_In in Hin. pose proof (find_none _ _ Ef _ Hin) as Hn. cbn in Hn. by rewrite bool_decide_true in Hn.
Qed.

Section restart.
Context (encode_stats : list DomainStatsSnapshot -> option rstr).
Abbreviation snapshotter := (run_domain_stats_snapshotter encode_stats).

Definition writes (e : snapshotter_event) : bool := match e with SnapshotTick _ => true | SnapshotShutdown changed value _ => changed && value end.
Definition fate_of (e : snapshotter_event) : save_fate := match e with SnapshotTick fate | SnapshotShutdown _ _ fate => fate end.
Definition ends (e : snapshotter_event) : bool := match e with SnapshotTick _ => false | SnapshotShutdown changed value _ => changed && value end.
Definition reaches (x : snapshotter_event * DomainStatsRegistry) : Prop :=
  writes (fst x) = true /\ fate_of (fst x) = SavedAll /\ encode_stats (snapshots (snd x)) <> None.
Lemma snapshotter_step_files e r f : files_ok f ->
  files_ok (fst (snapshotter_step encode_stats e r f)) /\ snd (snapshotter_step encode_stats e r f) = negb (ends e) /\
  (reaches (e, r) -> content (fst (snapshotter_step encode_stats e r f)) = encode_stats (snapshots r)) /\
  (~ reaches (e, r) -> content (fst (snapshotter_step encode_stats e r f)) = content f).
Proof.
  intros Hf. unfold reaches. cbn [fst snd]. destruct e as [fate|changed value fate]; cbn [snapshotter_step ends writes fate_of].
  2: destruct (changed && value); [|split_and!; [done|done|naive_solver|done]].
  all: unfold write_domain_stats_snapshot; destruct (encode_stats (snapshots r)) as [bytes|]; [|split_and!; [done|done|naive_solver|done]].
  all: destruct (save_bytes_content fate bytes f Hf) as (H1 & H2 & _); cbn [fst snd]; rewrite H2; destruct fate; split_and!; naive_solver.
Qed.

Lemma snapshotter_keeps turns f : files_ok f -> Forall (fun x => ~ reaches x) turns -> content (snapshotter turns f) = content f.
Proof.
  intros Hf Hall. revert f Hf. induction Hall as [|[e r] turns Hx _ IH]; intros f Hf; [done|]. cbn [run_domain_stats_snapshotter].
  destruct (snapshotter_step_files e r f Hf) as (Hf1 & _ & _ & Hw). specialize (Hw Hx). destruct (snapshotter_step _ e r f) as [f1 go]. cbn in *.
  rewrite <- Hw. destruct go; [by apply IH|done].
Qed.
Lemma snapshotter_content before e r after f :
  files_ok f -> Forall (fun x => ends (fst x) = false) before -> reaches (e, r) -> Forall (fun x => ~ reaches x) after ->
  content (snapshotter (before ++ (e, r) :: after) f) = encode_stats (snapshots r).
Proof.
  intros Hf Hb He Ha. revert f Hf. induction Hb as [|[e0 r0] before Hx _ IH]; intros f Hf; cbn [app run_domain_stats_snapshotter].
  - destruct (snapshotter_step_files e r f Hf) as (Hf1 & _ & Hw & _). specialize (Hw He). destruct (snapshotter_step _ e r f) as [f1 go]. cbn in *.
    rewrite <- Hw. destruct go; [by apply snapshotter_keeps|done].
  - destruct (snapshotter_step_files e0 r0 f Hf) as (Hf1 & Hgo & _). cbn in Hx. rewrite Hx in Hgo.
    destruct (snapshotter_step _ e0 r0 f) as [f1 go]. cbn in Hgo. subst go. by apply IH.
Qed.

Context (decode_stats : rstr -> option (list DomainStatsSnapshot)).
Hypothesis stats_text : forall l p, encode_stats l = Some p -> p <> [] /\ decode_stats p = Some l.
(** the statistics survive a restart as far as the snapshots go. When the
    snapshotter has run any number of turns, with writes that fail at any point, and
    its last write that got through was of the statistics [r], then the next start
    reads the file without an error, reports the number of domains of [r], and has
    for each domain with a name the counters that its snapshot gives back, and none
    for others. Later writes that fail do not damage it. *)
Theorem stats_survive_restart before e r after f sink spool :
  files_ok f -> Forall (fun x => ends (fst x) = false) before -> reaches (e, r) -> Forall (fun x => ~ reaches x) after ->
  let '(restored, answer) := load_domain_stats_snapshot decode_stats true (snapshotter (before ++ (e, r) :: after) f) (StatsRegistry_new sink spool) in
  answer = Ok (Z.of_nat (size (sr_domains r))) /\
  forall d, sr_domains restored !! d =
    if is_empty (trim d) then None else (fun c => counters_restore (counters_snapshot d c) DomainStatsCounters_default) <$> sr_domains r !! d.
Proof using stats_text.
  intros Hf Hb He Ha. pose proof (snapshotter_content before e r after f Hf Hb He Ha) as Hc.
  unfold load_domain_stats_snapshot. rewrite Hc. destruct He as (_ & _ & He). cbn [fst snd] in He. destruct (encode_stats (snapshots r)) as [bytes|] eqn:E; [|done].
  destruct (stats_text _ _ E) as [Hne ->]. destruct bytes; [done|]. cbn [negb is_empty]. split; [|intros d; apply restored_domain].
  do 2 f_equal. unfold snapshots. rewrite merge_sort_Permutation, length_fmap. apply length_map_to_list.
Qed.
End restart.

(** ** Examples *)

Module MainDemo.
(** The statistics of the events of [Stats], and a text for their snapshots. *)
Definition stats : DomainStatsRegistry := record_all example_events (StatsRegistry_new None false).
#[local] Instance location_count_eq : EqDecision LocationCount.
Proof. solve_decision. Defined.
#[local] Instance string_count_eq : EqDecision StringCount.
Proof. solve_decision. Defined.
#[local] Instance snapshot_eq : EqDecision DomainStatsSnapshot.
Proof. solve_decision. Defined.
Definition encode_demo (l : list DomainStatsSnapshot) : option rstr := if decide (l = snapshots stats) then Some (lit "[stats]") else None.
Definition decode_demo (p : rstr) : option (list DomainStatsSnapshot) := if p =s? lit "[stats]" then Some (snapshots stats) else None.
Lemma demo_text l p : encode_demo l = Some p -> p <> [] /\ decode_demo p = Some l.
Proof. unfold encode_demo. case_decide as H; [|done]. intros [= <-]. split; [done|]. by rewrite H. Qed.
Definition no_files : Files := {| fl_main := None; fl_temp := None; fl_data := ∅; fl_next := 0 |}.
Definition turns_before : list (snapshotter_event * DomainStatsRegistry) := [(SnapshotTick (Torn 2), stats); (SnapshotShutdown true false SavedAll, stats)].
Definition turns_after : list (snapshotter_event * DomainStatsRegistry) := [(SnapshotShutdown true true RenameFailed, stats)].
Lemma stats_survive_restart_witness :
  let '(restored, answer) := load_domain_stats_snapshot decode_demo true
    (run_domain_stats_snapshotter encode_demo (turns_before ++ (SnapshotTick SavedAll, stats) :: turns_after) no_files) (StatsRegistry_new None false) in
  answer = Ok (Z.of_nat (size (sr_domains stats))) /\
  forall d, sr_domains restored !! d =
    if is_empty (trim d) then None else (fun c => counters_restore (counters_snapshot d c) DomainStatsCounters_default) <$> sr_domains stats !! d.
Proof.
  apply (stats_survive_restart encode_demo decode_demo demo_text turns_before (SnapshotTick SavedAll) stats turns_after no_files None false).
  - by split.
  - repeat constructor.
  - split_and!; [done|done|]. unfold encode_demo. cbn [snd]. by rewrite decide_True.
  - repeat constructor. by intros (_ & ? & _).
Defined.

Definition no_env : rstr -> option rstr := fun _ => None.
Definition config : @PxxlConfig CidrLib :=
  let c := PxxlConfig_default in {|
  cf_listeners := cf_listeners c; cf_tls := cf_tls c; cf_docker := cf_docker c; cf_podman := cf_podman c;
  cf_database_proxy := {| dx_enabled := true; dx_listeners := [{| dl_database_type := lit "postgres"; dl_listen := lit "127.0.0.1:5432" |}]; dx_routes := [] |};
  cf_error_pages := cf_error_pages c; cf_geoip := cf_geoip c; cf_admin := cf_admin c;
  cf_metrics := cf_metrics c; cf_health_checks := cf_health_checks c; cf_security := cf_security c; cf_redis := cf_redis c;
  cf_storage := cf_storage c; cf_routes := cf_routes c |}.
Definition tasks : list Task := match main_tasks no_env config true (fun _ => false) with Ok tasks => tasks | Err _ => [] end.
Definition busy : list (EdgeEvent (TlsConfig := unit)) := [At 0 (Accepted (V4 1)); At 0 (Started 0); At 4 (Accepted (V4 2))].
Definition edge : Edge (TlsConfig := unit) := start 0 tt (zip (omap kind_of_task tasks) (replicate 5 None)).
Definition edge_busy : Edge (TlsConfig := unit) := default edge (run id busy edge).
Lemma edge_connections_bounded_witness :
  connections edge_busy <= 2 * 8192 + 2 * 2048 + 4096 * Z.of_nat (length (dx_listeners (cf_database_proxy config))) /\
  0 <= eg_active edge_busy - sum_panicked (eg_listeners edge_busy) <= 2 * 8192.
Proof.
  apply (edge_connections_bounded id no_env config true (fun _ => false) tasks (replicate 5 None) 0 tt busy); vm_compute; reflexivity.
Defined.
End MainDemo.
