(* ===== verification/Certificates.v ===== *)
(** The certificates of the admin API ([api]): the record of each domain and the file
    that keeps them, the inspection of the installed certificate, the request of a
    certificate with certbot and its installation, the status the API answers, and
    the maintenance that asks for missing and expiring certificates.

    The disk is that of [Tls]: every operation may fail, a write may stop half way.
    The PEM and X.509 readers, the text of the registry, the name resolution and
    certbot are parameters.  One call reads the clock once. *)
From stdpp Require Import options sorting.
From S2P Require Import Prelude RustStr RustNum RustNet CommonTypes CommonPath RouteRegistry RedisTokens AdminAuth Config Tls TlsReload.

Local Open Scope Z_scope.
Local Open Scope rust_scope.

Definition CERT_REGISTRY_VERSION : Z := 1.
Definition DEFAULT_CERT_RENEW_BEFORE_DAYS : Z := 30.
Definition DEFAULT_CERT_MAINTENANCE_INTERVAL_SECONDS : Z := 6 * 60 * 60.
Definition DEFAULT_CERT_MAINTENANCE_INITIAL_DELAY_SECONDS : Z := 60.
Definition DEFAULT_CERT_MAINTENANCE_MAX_PER_RUN : Z := 25.
Definition DEFAULT_CERT_FAILED_RETRY_SECONDS : Z := 60 * 60.

(** ** Data *)

Record DomainCertificateRecord := {
  rec_domain : rstr; rec_status : rstr; rec_reason : rstr; rec_dedicated : bool; rec_renewal_required : bool;
  rec_cert_path : option rstr; rec_key_path : option rstr; rec_issuer : option rstr; rec_subject : option rstr; rec_san_domains : list rstr;
  rec_not_before_unix_ms : option Z; rec_not_after_unix_ms : option Z; rec_last_checked_unix_ms : Z;
  rec_last_attempt_unix_ms : option Z; rec_last_issued_unix_ms : option Z; rec_last_error : option rstr;
}.
Record CertificateRegistry := {
  reg_version : Z; reg_updated_unix_ms : Z; reg_domains : gmap rstr DomainCertificateRecord;
}.
Record CertificateDomainStatus := {
  cs_domain : rstr; cs_tls_enabled : bool; cs_covered : bool; cs_status : rstr; cs_reason : rstr; cs_dedicated : bool; cs_renewal_required : bool;
  cs_cert_path : option rstr; cs_key_path : option rstr; cs_issuer : option rstr; cs_subject : option rstr; cs_san_domains : list rstr;
  cs_not_before_unix_ms : option Z; cs_not_after_unix_ms : option Z; cs_expires_in_days : option Z; cs_last_checked_unix_ms : option Z;
  cs_last_attempt_unix_ms : option Z; cs_last_issued_unix_ms : option Z; cs_last_error : option rstr;
}.
(** What [x509-parser] reads of a certificate: the times in seconds, the DNS names. *)
Record X509 := { x_issuer : rstr; x_subject : rstr; x_not_before : Z; x_not_after : Z; x_dns_names : list rstr }.

Class CertReaders := {
  (** [rustls_pemfile::certs], [X509Certificate::from_der] *)
  pem_ders : rstr -> result rstr (list rstr);
  x509_from_der : rstr -> result rstr X509;
  (** [serde_json]'s text of the registry *)
  encode_registry : CertificateRegistry -> option rstr;
  decode_registry : rstr -> option CertificateRegistry;
  (** the text of an error of the file system *)
  show_io : TlsError -> rstr;
}.

(** ** More of the disk *)

(** [metadata(path).is_ok()] *)
Definition metadata_ok (path : rstr) : io bool := fun s =>
  match snd s with
  | Failed :: fates | Partly _ :: fates => ((fst s, fates), Ok false)
  | fates => ((fst s, tail fates), Ok (bool_decide (is_Some (fst s !! path))))
  end.
Definition rename_file (from to : rstr) : io unit :=
  io_op (TlsWrite to) (fun d =>
    match d !! from with
    | Some file => (<[to := file]> (delete from d), Ok tt)
    | None => (d, Err (TlsWrite to))
    end).
(** The result of an action as a value. *)
Definition attempt {A} (m : io A) : io (result TlsError A) := fun s => let '(s, r) := m s in (s, Ok r).

(** ** Settings *)

Section settings.
Context (env : rstr -> option rstr).
Definition env_bool (key : string) (fallback : bool) : bool :=
  match env (lit key) with
  | Some value => existsb (fun word => to_ascii_lowercase (trim value) =s? word) (lits ["1"; "true"; "yes"; "on"])
  | None => fallback
  end.
Definition env_u64 (key : string) (fallback : Z) : Z :=
  default fallback (match env (lit key) with Some value => parse_uint U64_MAX (trim value) | None => None end).
Definition env_usize (key : string) (fallback : Z) : Z := env_u64 key fallback.
(** Only positive numbers are taken, so the sign needs no reading. *)
Definition cert_renew_before_days : Z :=
  match match env (lit "PXXL_CERT_RENEW_BEFORE_DAYS") with Some value => parse_uint (2 ^ 63 - 1) (trim value) | None => None end with
  | Some days => if 0 <? days then days else DEFAULT_CERT_RENEW_BEFORE_DAYS
  | None => DEFAULT_CERT_RENEW_BEFORE_DAYS
  end.
Definition env_or (key fallback : string) : rstr := default (lit fallback) (env (lit key)).
Definition certificate_proxy_ips : list IpAddr :=
  let configured := match env (lit "PXXL_CERTIFICATE_PUBLIC_IPS") with Some ips => ips | None => env_or "PXXL_PUBLIC_IPS" "193.181.212.65" end in
  omap (fun item => parse_ip (trim item)) (split (chr ",") configured).
(** [lookup]: the addresses of a name, or the error of the resolver. *)
Definition certificate_domain_points_to_proxy (lookup : rstr -> result rstr (list IpAddr)) (domain : rstr) : result rstr bool :=
  let expected_ips := certificate_proxy_ips in
  if bool_decide (expected_ips = []) then Ok false
  else
    let? resolved_ips := lookup domain in
    Ok (existsb (fun resolved_ip => existsb (fun expected_ip => bool_decide (expected_ip = resolved_ip)) expected_ips) resolved_ips).
End settings.
(** The product is an [i64]. *)
Definition wrap_i64 (n : Z) : Z := (n + 2 ^ 63) mod 2 ^ 64 - 2 ^ 63.
Definition DAY_MS : Z := 24 * 60 * 60 * 1000.

(** ** Records *)

Section certificates.
Context {NL : IpNetLib} {CR : CertReaders} (env : rstr -> option rstr) (cert_dir : rstr).

Definition cert_registry_path : rstr := join_path cert_dir (lit "cert-state.json").
Definition registry_temp_path : rstr := join_path cert_dir (lit "cert-state.json.tmp").
Definition domain_certificate_path (domain : rstr) : rstr :=
  join_path (join_path (join_path cert_dir (lit "domains")) (safe_domain_cert_name domain)) (lit "fullchain.pem").
Definition domain_private_key_path (domain : rstr) : rstr :=
  join_path (join_path (join_path cert_dir (lit "domains")) (safe_domain_cert_name domain)) (lit "privkey.pem").

Definition missing_certificate_record (now : Z) (domain : rstr) : DomainCertificateRecord := {|
  rec_domain := domain; rec_status := lit "missing"; rec_reason := lit "dedicated_certificate_missing"; rec_dedicated := false;
  rec_renewal_required := true; rec_cert_path := Some (domain_certificate_path domain); rec_key_path := Some (domain_private_key_path domain);
  rec_issuer := None; rec_subject := None; rec_san_domains := []; rec_not_before_unix_ms := None; rec_not_after_unix_ms := None;
  rec_last_checked_unix_ms := now; rec_last_attempt_unix_ms := None; rec_last_issued_unix_ms := None; rec_last_error := None |}.
Definition with_judgement (status reason : rstr) (renewal_required : bool) (r : DomainCertificateRecord) : DomainCertificateRecord := {|
  rec_domain := rec_domain r; rec_status := status; rec_reason := reason; rec_dedicated := rec_dedicated r; rec_renewal_required := renewal_required;
  rec_cert_path := rec_cert_path r; rec_key_path := rec_key_path r; rec_issuer := rec_issuer r; rec_subject := rec_subject r;
  rec_san_domains := rec_san_domains r; rec_not_before_unix_ms := rec_not_before_unix_ms r; rec_not_after_unix_ms := rec_not_after_unix_ms r;
  rec_last_checked_unix_ms := rec_last_checked_unix_ms r; rec_last_attempt_unix_ms := rec_last_attempt_unix_ms r;
  rec_last_issued_unix_ms := rec_last_issued_unix_ms r; rec_last_error := rec_last_error r |}.
Definition with_history (last_checked : Z) (last_attempt last_issued : option Z) (last_error : option rstr) (r : DomainCertificateRecord) : DomainCertificateRecord := {|
  rec_domain := rec_domain r; rec_status := rec_status r; rec_reason := rec_reason r; rec_dedicated := rec_dedicated r;
  rec_renewal_required := rec_renewal_required r; rec_cert_path := rec_cert_path r; rec_key_path := rec_key_path r; rec_issuer := rec_issuer r;
  rec_subject := rec_subject r; rec_san_domains := rec_san_domains r; rec_not_before_unix_ms := rec_not_before_unix_ms r;
  rec_not_after_unix_ms := rec_not_after_unix_ms r; rec_last_checked_unix_ms := last_checked; rec_last_attempt_unix_ms := last_attempt;
  rec_last_issued_unix_ms := last_issued; rec_last_error := last_error |}.
Definition error_certificate_record (now : Z) (domain error : rstr) : DomainCertificateRecord :=
  let record := missing_certificate_record now domain in
  with_history (rec_last_checked_unix_ms record) (rec_last_attempt_unix_ms record) (rec_last_issued_unix_ms record) (Some error)
    (with_judgement (lit "error") (lit "certificate_inspection_failed") (rec_renewal_required record) record).

(** *** Inspection *)

Definition parsed_record (now : Z) (domain : rstr) (parsed : X509) : DomainCertificateRecord := {|
  rec_domain := domain; rec_status := lit "valid"; rec_reason := lit "dedicated_sni_certificate"; rec_dedicated := true; rec_renewal_required := false;
  rec_cert_path := Some (domain_certificate_path domain); rec_key_path := Some (domain_private_key_path domain);
  rec_issuer := Some (x_issuer parsed); rec_subject := Some (x_subject parsed); rec_san_domains := map to_ascii_lowercase (x_dns_names parsed);
  rec_not_before_unix_ms := Some (x_not_before parsed * 1000); rec_not_after_unix_ms := Some (x_not_after parsed * 1000);
  rec_last_checked_unix_ms := now; rec_last_attempt_unix_ms := None; rec_last_issued_unix_ms := None; rec_last_error := None |}.
(** The names are compared first, then the end of the validity. *)
Definition judge (now : Z) (record : DomainCertificateRecord) : DomainCertificateRecord :=
  if negb (existsb (fun name => eq_ignore_ascii_case name (rec_domain record)) (rec_san_domains record))
  then with_judgement (lit "invalid") (lit "domain_not_in_certificate") true record
  else
    let renew_before_ms := wrap_i64 (cert_renew_before_days env * DAY_MS) in
    match rec_not_after_unix_ms record with
    | Some not_after =>
      if not_after <=? now then with_judgement (lit "expired") (lit "certificate_expired") true record
      else if not_after - now <=? renew_before_ms
           then with_judgement (lit "expiring_soon") (lit "certificate_expiring_before_renew_window") true record
           else record
    | None => record
    end.
Definition read_certificate (now : Z) (domain cert_bytes : rstr) : DomainCertificateRecord :=
  match pem_ders cert_bytes with
  | Err error => error_certificate_record now domain (lit "failed_to_parse_pem: " ++ error)
  | Ok [] => error_certificate_record now domain (lit "certificate_file_empty")
  | Ok (der :: _) =>
    match x509_from_der der with
    | Err error => error_certificate_record now domain (lit "failed_to_parse_x509: " ++ error)
    | Ok parsed => judge now (parsed_record now domain parsed)
    end
  end.
Definition inspect_domain_certificate (now : Z) (domain : rstr) : io (option DomainCertificateRecord) :=
  let domain := normalize_domain domain in
  if is_empty domain then rret None
  else
    let* cert_there := metadata_ok (domain_certificate_path domain) in
    let* key_there := if cert_there then metadata_ok (domain_private_key_path domain) else rret false in
    if negb key_there then rret (Some (missing_certificate_record now domain))
    else
      let* bytes := attempt (read_file (domain_certificate_path domain)) in
      rret (Some match bytes with
                 | Err error => error_certificate_record now domain (lit "failed_to_read_certificate: " ++ show_io error)
                 | Ok bytes => read_certificate now domain bytes
                 end).

(** *** The registry file *)

Definition empty_registry (now : Z) : CertificateRegistry := {|
  reg_version := CERT_REGISTRY_VERSION; reg_updated_unix_ms := now; reg_domains := ∅ |}.
Definition set_record (domain : rstr) (record : DomainCertificateRecord) (r : CertificateRegistry) : CertificateRegistry := {|
  reg_version := reg_version r; reg_updated_unix_ms := reg_updated_unix_ms r; reg_domains := <[domain := record]> (reg_domains r) |}.
Definition load_certificate_registry (now : Z) : io CertificateRegistry :=
  let* bytes := attempt (read_file cert_registry_path) in
  rret match bytes with
       | Ok bytes => if is_empty bytes then empty_registry now else default (empty_registry now) (decode_registry bytes)
       | Err _ => empty_registry now
       end.
Definition save_certificate_registry (now : Z) (r : CertificateRegistry) : io unit :=
  do* create_dir_all cert_dir in
  match encode_registry {| reg_version := CERT_REGISTRY_VERSION; reg_updated_unix_ms := now; reg_domains := reg_domains r |} with
  | None => rfail (TlsWrite cert_registry_path)
  | Some bytes =>
    do* write_file now registry_temp_path bytes in
    rename_file registry_temp_path cert_registry_path
  end.
Definition upsert_certificate_record (now : Z) (record : DomainCertificateRecord) : io unit :=
  let* registry := load_certificate_registry now in
  save_certificate_registry now (set_record (normalize_domain (rec_domain record)) record registry).
Definition attempted (now : Z) (error : option rstr) (record : DomainCertificateRecord) : DomainCertificateRecord :=
  let record := with_history now (Some now) (rec_last_issued_unix_ms record) error record in
  match error with
  | Some _ => with_judgement (lit "error") (lit "certificate_issue_failed") true record
  | None => record
  end.
Definition mark_domain (now : Z) (error : option rstr) (registry : CertificateRegistry) (domain : rstr) : CertificateRegistry :=
  let domain := normalize_domain domain in
  if is_empty domain then registry
  else
    let record := default (missing_certificate_record now domain) (reg_domains registry !! domain) in
    set_record domain (attempted now error record) registry.
Definition mark_certificate_attempt (now : Z) (domains : list rstr) (error : option rstr) : io unit :=
  let* registry := load_certificate_registry now in
  save_certificate_registry now (foldl (mark_domain now error) registry domains).
Definition refreshed (now : Z) (issued : bool) (existing : option DomainCertificateRecord) (record : DomainCertificateRecord) : DomainCertificateRecord :=
  with_history (rec_last_checked_unix_ms record) (Some now)
    (if issued then Some now else match existing with Some existing => rec_last_issued_unix_ms existing | None => rec_last_issued_unix_ms record end)
    (rec_last_error record) record.
Fixpoint refresh_domains (now : Z) (issued : bool) (domains : list rstr) (registry : CertificateRegistry) : io CertificateRegistry :=
  match domains with
  | [] => rret registry
  | domain :: rest =>
    let domain := normalize_domain domain in
    if is_empty domain then refresh_domains now issued rest registry
    else
      let* inspected := inspect_domain_certificate now domain in
      let record := default (missing_certificate_record now domain) inspected in
      refresh_domains now issued rest (set_record domain (refreshed now issued (reg_domains registry !! domain) record) registry)
  end.
Definition refresh_certificate_records (now : Z) (domains : list rstr) (issued : bool) : io unit :=
  let* registry := load_certificate_registry now in
  let* registry := refresh_domains now issued domains registry in
  save_certificate_registry now registry.

(** ** Status *)

Definition days_left (now not_after : Z) : Z := Z.max 0 (Z.quot (not_after - now) DAY_MS).
(** The fields a status takes over from the record. *)
Definition status_of (now : Z) (record : option DomainCertificateRecord) (domain : rstr) (tls_enabled covered : bool) (status reason : rstr)
    (dedicated renewal_required : bool) : CertificateDomainStatus := {|
  cs_domain := domain; cs_tls_enabled := tls_enabled; cs_covered := covered; cs_status := status; cs_reason := reason; cs_dedicated := dedicated;
  cs_renewal_required := renewal_required; cs_cert_path := record ≫= rec_cert_path; cs_key_path := record ≫= rec_key_path;
  cs_issuer := record ≫= rec_issuer; cs_subject := record ≫= rec_subject; cs_san_domains := default [] (rec_san_domains <$> record);
  cs_not_before_unix_ms := record ≫= rec_not_before_unix_ms; cs_not_after_unix_ms := record ≫= rec_not_after_unix_ms;
  cs_expires_in_days := days_left now <$> (record ≫= rec_not_after_unix_ms); cs_last_checked_unix_ms := rec_last_checked_unix_ms <$> record;
  cs_last_attempt_unix_ms := record ≫= rec_last_attempt_unix_ms; cs_last_issued_unix_ms := record ≫= rec_last_issued_unix_ms;
  cs_last_error := record ≫= rec_last_error |}.
Definition disabled_status (record : option DomainCertificateRecord) (domain : rstr) : CertificateDomainStatus := {|
  cs_domain := domain; cs_tls_enabled := false; cs_covered := false; cs_status := lit "disabled"; cs_reason := lit "route_tls_disabled";
  cs_dedicated := false; cs_renewal_required := false; cs_cert_path := None; cs_key_path := None; cs_issuer := None; cs_subject := None;
  cs_san_domains := []; cs_not_before_unix_ms := None; cs_not_after_unix_ms := None; cs_expires_in_days := None;
  cs_last_checked_unix_ms := rec_last_checked_unix_ms <$> record; cs_last_attempt_unix_ms := record ≫= rec_last_attempt_unix_ms;
  cs_last_issued_unix_ms := record ≫= rec_last_issued_unix_ms; cs_last_error := record ≫= rec_last_error |}.
Definition certificate_domain_status (now : Z) (domain : rstr) (route : option Route) (generated : bool) (record : option DomainCertificateRecord)
  : CertificateDomainStatus :=
  let dedicated := default false (rec_dedicated <$> record) in
  let renewal_required := default true (rec_renewal_required <$> record) in
  let base_from_record tls_enabled covered :=
    status_of now record domain tls_enabled covered (default (lit "missing") (rec_status <$> record))
      (default (lit "dedicated_certificate_missing") (rec_reason <$> record)) dedicated renewal_required in
  match route with
  | Some route =>
    if negb (r_tls route) then disabled_status record domain
    else if dedicated && negb renewal_required then base_from_record true true
    else if dedicated then base_from_record true false
    else if generated
         then status_of now record domain true false (lit "pending") (lit "dedicated_certificate_missing_fallback_available") false true
         else status_of now record domain true false (lit "pending") (lit "certificate_bundle_not_generated_yet") false true
  | None => status_of now record domain false false (lit "not_found") (lit "domain_not_registered") dedicated false
  end.

Record CertificateStatusResponse := {
  sr_cert_path : rstr; sr_key_path : rstr; sr_generated : bool; sr_cert_modified_unix_ms : option Z; sr_status_domains : list CertificateDomainStatus;
  sr_registry_path : rstr; sr_renew_before_days : Z;
}.
(** The names of one domain: that of its route, and its alias. *)
Definition status_names (route : option Route) (domain : rstr) : list rstr :=
  dedup (sort_strings
    match route with
    | Some route => r_domain route :: (if route_allows_www_alias (r_domain route) (dr_www_alias (r_rules route)) then [lit "www." ++ r_domain route] else [])
    | None => [domain]
    end).
Fixpoint inspect_names (now : Z) (route : option Route) (generated : bool) (names : list rstr) (registry : CertificateRegistry) (changed : bool)
  : io (list CertificateDomainStatus * CertificateRegistry * bool) :=
  match names with
  | [] => rret ([], registry, changed)
  | name :: rest =>
    let* record := inspect_domain_certificate now name in
    let '(registry, changed) :=
      match record with Some r => (set_record (normalize_domain (rec_domain r)) r registry, true) | None => (registry, changed) end in
    let* others := inspect_names now route generated rest registry changed in
    let '(statuses, registry, changed) := others in
    rret (certificate_domain_status now name route generated record :: statuses, registry, changed)
  end.
(** Without a filter nothing is inspected: the record of the registry, or one that
    says a pair of files is there. *)
Definition uninspected_record (domain : rstr) : DomainCertificateRecord := {|
  rec_domain := domain; rec_status := lit "unknown"; rec_reason := lit "certificate_exists_not_inspected"; rec_dedicated := true;
  rec_renewal_required := false; rec_cert_path := Some (domain_certificate_path domain); rec_key_path := Some (domain_private_key_path domain);
  rec_issuer := None; rec_subject := None; rec_san_domains := []; rec_not_before_unix_ms := None; rec_not_after_unix_ms := None;
  rec_last_checked_unix_ms := 0; rec_last_attempt_unix_ms := None; rec_last_issued_unix_ms := None; rec_last_error := None |}.
Definition domain_certificate_exists_sync (d : Disk) (domain : rstr) : bool :=
  bool_decide (is_Some (d !! domain_certificate_path domain)) && bool_decide (is_Some (d !! domain_private_key_path domain)).
Definition route_status (now : Z) (generated : bool) (registry : CertificateRegistry) (d : Disk) (route : Route) : CertificateDomainStatus :=
  let record :=
    match reg_domains registry !! normalize_domain (r_domain route) with
    | Some record => Some record
    | None => if domain_certificate_exists_sync d (r_domain route) then Some (uninspected_record (r_domain route)) else None
    end in
  certificate_domain_status now (r_domain route) (Some route) generated record.
Definition certificate_status (now : Z) (es : EdgeState) (domain_filter : option rstr) : io CertificateStatusResponse :=
  let* registry := load_certificate_registry now in
  let* cert_meta := metadata_ok (cert_path cert_dir) in
  let* key_exists := metadata_ok (key_path cert_dir) in
  let generated := cert_meta && key_exists in
  let* found :=
    match domain_filter with
    | Some domain =>
      let route := find_domain (es_routes es) (normalize_domain domain) in
      inspect_names now route generated (status_names route (normalize_domain domain)) registry false
    | None => fun s => (s, Ok (map (route_status now generated registry (fst s)) (snapshot (es_routes es)), registry, false))
    end in
  let '(domains, registry, changed) := found in
  do* (if changed : bool then let* saved := attempt (save_certificate_registry now registry) in rret tt else rret tt) in
  fun s => (s, Ok {| sr_cert_path := cert_path cert_dir; sr_key_path := key_path cert_dir; sr_generated := generated;
                     sr_cert_modified_unix_ms := if cert_meta then snd <$> fst s !! cert_path cert_dir else None; sr_status_domains := domains;
                     sr_registry_path := cert_registry_path; sr_renew_before_days := cert_renew_before_days env |}).

(** ** Issuing *)

(** What becomes of a run of certbot, which also writes its own files. *)
Inductive certbot_run := CertbotNotStarted (error : rstr) | CertbotTimedOut | CertbotExit (success : bool) (stdout stderr : rstr).
Context (certbot : Z -> list rstr -> Disk -> Disk * certbot_run) (lookup : rstr -> result rstr (list IpAddr)).

Inductive cert_answer :=
| InvalidDomain
| Reused (domain : rstr) (domains skipped : list rstr) (status : CertificateStatusResponse)
| DirectoryFailed (error : rstr)
| CertbotStartFailed (message : rstr)
| CertbotTimeout
| IssueFailed (stdout stderr : rstr)
| InstallFailed (message : rstr)
| Issued (domain : rstr) (domains skipped cert_paths : list rstr) (status : CertificateStatusResponse) (stdout : rstr).
Definition answer_status (a : cert_answer) : Z :=
  match a with
  | InvalidDomain => 400
  | Reused _ _ _ _ | Issued _ _ _ _ _ _ => 200
  | DirectoryFailed _ => 500
  | CertbotStartFailed _ | IssueFailed _ _ | InstallFailed _ => 502
  | CertbotTimeout => 504
  end.

Definition invalid_certificate_domain (domain : rstr) : bool :=
  is_empty domain || (domain =s? lit "localhost") || ends_with (lit ".local") domain || ends_with (lit ".test") domain
  || contains_char (chr "*") domain || bool_decide (is_Some (parse_ip domain)).
(** The names a certificate is asked for, and those that are left out. *)
Definition certificate_names_for (route : option Route) (requested_domain : rstr) : rstr * list rstr * list rstr :=
  let domain := match route with Some route => r_domain route | None => requested_domain end in
  let www := lit "www." ++ domain in
  match route with
  | Some route =>
    if route_allows_www_alias (r_domain route) (dr_www_alias (r_rules route)) then
      match certificate_domain_points_to_proxy env lookup www with
      | Ok true => (domain, dedup (sort_strings [domain; www]), [])
      | _ => (domain, [domain], [www])
      end
    else (domain, [domain], [])
  | None => (domain, [domain], [])
  end.
Fixpoint inspect_all (now : Z) (domains : list rstr) : io (list (option DomainCertificateRecord)) :=
  match domains with
  | [] => rret []
  | domain :: rest =>
    let* record := inspect_domain_certificate now domain in
    let* others := inspect_all now rest in
    rret (record :: others)
  end.
Definition still_good (record : option DomainCertificateRecord) : bool :=
  match record with Some record => rec_dedicated record && negb (rec_renewal_required record) | None => false end.
Fixpoint keep_records (now : Z) (records : list DomainCertificateRecord) : io unit :=
  match records with
  | [] => rret tt
  | record :: rest => do* attempt (upsert_certificate_record now record) in keep_records now rest
  end.
(** The failure of [mark_certificate_attempt] is only logged. *)
Definition mark (now : Z) (domains : list rstr) (error : option rstr) : io unit :=
  do* attempt (mark_certificate_attempt now domains error) in rret tt.

Definition webroot : rstr := env_or env "PXXL_ACME_CHALLENGE_DIR" "/data/acme-challenges".
Definition certbot_config : rstr := env_or env "PXXL_CERTBOT_CONFIG_DIR" "/data/letsencrypt".
Definition certbot_work : rstr := env_or env "PXXL_CERTBOT_WORK_DIR" "/data/letsencrypt-work".
Definition certbot_logs : rstr := env_or env "PXXL_CERTBOT_LOGS_DIR" "/data/letsencrypt-logs".
Fixpoint create_dirs (dirs : list rstr) : io unit :=
  match dirs with [] => rret tt | dir :: rest => do* create_dir_all dir in create_dirs rest end.
Definition cert_name (domain : rstr) : rstr := lit "pxxl-domain-" ++ safe_domain_cert_name domain.
Definition certbot_args (domain : rstr) (domains : list rstr) : list rstr :=
  [lit "certonly"; lit "--webroot"; lit "-w"; webroot; lit "--config-dir"; certbot_config; lit "--work-dir"; certbot_work;
   lit "--logs-dir"; certbot_logs; lit "--cert-name"; cert_name domain; lit "--agree-tos"; lit "--non-interactive"; lit "--email";
   env_or env "PXXL_ACME_EMAIL" "admin@pxxl.app"; lit "--keep-until-expiring"] ++ flat_map (fun domain => [lit "-d"; domain]) domains.
Definition run_certbot (now : Z) (args : list rstr) : io certbot_run := fun s =>
  let '(d, outcome) := certbot now args (fst s) in ((d, snd s), Ok outcome).
Definition set_permissions (path : rstr) : io unit := io_op (TlsWrite path) (fun d => (d, Ok tt)).
Definition copy_certbot_bundle (now : Z) (live_dir cert_path key_path cert_dir : rstr) : io unit :=
  let* fullchain := read_file (join_path live_dir (lit "fullchain.pem")) in
  let* private_key := read_file (join_path live_dir (lit "privkey.pem")) in
  do* create_dir_all cert_dir in
  do* write_file now cert_path fullchain in
  do* write_file now key_path private_key in
  do* set_permissions cert_path in
  set_permissions key_path.
Definition live_dir (domain : rstr) : rstr := join_path (join_path certbot_config (lit "live")) (cert_name domain).
(** The pairs of all names: [Err] is the answer to give. *)
Fixpoint install_all (now : Z) (domain : rstr) (all domains : list rstr) : io (result cert_answer (list rstr)) :=
  match domains with
  | [] => rret (Ok [])
  | name :: rest =>
    let dir := join_path (join_path cert_dir (lit "domains")) (safe_domain_cert_name name) in
    let* made := attempt (create_dir_all dir) in
    match made with
    | Err error => rret (Err (DirectoryFailed (lit "failed to create domain certificate directory: " ++ show_io error)))
    | Ok _ =>
      let* copied := attempt (copy_certbot_bundle now (live_dir domain) (domain_certificate_path name) (domain_private_key_path name) dir) in
      match copied with
      | Err error =>
        let message := lit "certificate issued but could not be installed: " ++ show_io error in
        do* mark now all (Some message) in rret (Err (InstallFailed message))
      | Ok _ =>
        let* others := install_all now domain all rest in
        rret match others with Ok paths => Ok (domain_certificate_path name :: paths) | Err answer => Err answer end
      end
    end
  end.
Definition issue (now : Z) (es : EdgeState) (domain : rstr) (domains skipped : list rstr) : io cert_answer :=
  do* mark now domains None in
  let* made := attempt (create_dirs [webroot; certbot_config; certbot_work; certbot_logs]) in
  match made with
  | Err error => rret (DirectoryFailed (lit "failed to create certificate directory: " ++ show_io error))
  | Ok _ =>
    let* outcome := run_certbot now (certbot_args domain domains) in
    match outcome with
    | CertbotNotStarted error =>
      let message := lit "failed to run certbot: " ++ error in
      do* mark now domains (Some message) in rret (CertbotStartFailed message)
    | CertbotTimedOut =>
      do* mark now domains (Some (lit "certbot timed out while issuing certificate")) in rret CertbotTimeout
    | CertbotExit success stdout stderr =>
      let stdout := trim (from_utf8_lossy stdout) in
      let stderr := trim (from_utf8_lossy stderr) in
      if negb success then
        do* mark now domains (Some (if is_empty stderr then stdout else stderr)) in rret (IssueFailed stdout stderr)
      else
        let* installed := install_all now domain domains domains in
        match installed with
        | Err answer => rret answer
        | Ok cert_paths =>
          do* attempt (refresh_certificate_records now domains true) in
          let* status := certificate_status now es (Some domain) in
          rret (Issued domain domains skipped cert_paths status stdout)
        end
    end
  end.
Definition resync_domain_certificate (now : Z) (es : EdgeState) (domain : rstr) : io cert_answer :=
  let requested_domain := normalize_domain domain in
  if invalid_certificate_domain requested_domain then rret InvalidDomain
  else
    let '(domain, domains, skipped) := certificate_names_for (find_domain (es_routes es) requested_domain) requested_domain in
    let* existing := inspect_all now domains in
    if forallb still_good existing then
      do* keep_records now (omap id existing) in
      let* status := certificate_status now es (Some domain) in
      rret (Reused domain domains skipped status)
    else issue now es domain domains skipped.

(** ** Downloads *)

Inductive download := PemFile (filename pem : rstr) | NotAvailable (error : rstr).
Definition download_certificate_file (path filename : rstr) : io download :=
  let* pem := attempt (read_file path) in
  rret match pem with
       | Ok pem => if valid_utf8 pem then PemFile filename pem else NotAvailable (lit "public certificate is not available: stream did not contain valid UTF-8")
       | Err error => NotAvailable (lit "public certificate is not available: " ++ show_io error)
       end.
Definition download_public_certificate : io download := download_certificate_file (cert_path cert_dir) (lit "pxxl-proxy-public-cert.pem").
Definition download_domain_public_certificate (domain : rstr) : io download :=
  let* there := metadata_ok (domain_certificate_path domain) in
  download_certificate_file (if there then domain_certificate_path domain else cert_path cert_dir)
    (safe_domain_cert_name domain ++ lit "_public_certificate.pem").

(** ** Maintenance *)

(** The names of a route a pass looks at. *)
Definition maintained_names (route : Route) : list rstr :=
  if negb (r_tls route) then []
  else r_domain route :: (if route_allows_www_alias (r_domain route) (dr_www_alias (r_rules route)) then [lit "www." ++ r_domain route] else []).
(** Whether a certificate is asked for, after a look at the installed one. *)
Definition due (now retry_after_ms : Z) (domain : rstr) : io bool :=
  let* record := inspect_domain_certificate now domain in
  match record with
  | None => rret true
  | Some record =>
    if negb (rec_renewal_required record) then
      do* attempt (upsert_certificate_record now record) in rret false
    else
      rret match rec_last_attempt_unix_ms record with
           | Some last_attempt => negb (Z.max 0 (now - last_attempt) <? retry_after_ms)
           | None => true
           end
  end.
(** The names in turn; the result lists those a certificate was asked for. *)
Fixpoint maintain_names (now : Z) (es : EdgeState) (max_per_run retry_after_ms : Z) (names done_ : list rstr) : io (list rstr) :=
  match names with
  | [] => rret done_
  | name :: rest =>
    if max_per_run <=? Z.of_nat (length done_) then rret done_
    else
      let domain := normalize_domain name in
      if is_empty domain then maintain_names now es max_per_run retry_after_ms rest done_
      else
        match certificate_domain_points_to_proxy env lookup domain with
        | Ok true =>
          let* wanted := due now retry_after_ms domain in
          if wanted then
            do* resync_domain_certificate now es domain in
            maintain_names now es max_per_run retry_after_ms rest (done_ ++ [domain])
          else maintain_names now es max_per_run retry_after_ms rest done_
        | _ => maintain_names now es max_per_run retry_after_ms rest done_
        end
  end.
Definition maintain_domain_certificates (now : Z) (es : EdgeState) : io (list rstr) :=
  let max_per_run := env_usize env "PXXL_CERT_MAINTENANCE_MAX_PER_RUN" DEFAULT_CERT_MAINTENANCE_MAX_PER_RUN in
  if max_per_run =? 0 then rret []
  else
    let retry_after_ms := env_u64 env "PXXL_CERT_FAILED_RETRY_SECONDS" DEFAULT_CERT_FAILED_RETRY_SECONDS * 1000 in
    maintain_names now es max_per_run retry_after_ms (flat_map maintained_names (snapshot (es_routes es))) [].
(** [run_certificate_maintenance]: when its first turn is, and how far apart they are. *)
Definition maintenance_schedule : option (Z * Z) :=
  if env_bool env "PXXL_CERT_MAINTENANCE_ENABLED" true
  then Some (env_u64 env "PXXL_CERT_MAINTENANCE_INITIAL_DELAY_SECONDS" DEFAULT_CERT_MAINTENANCE_INITIAL_DELAY_SECONDS,
             env_u64 env "PXXL_CERT_MAINTENANCE_INTERVAL_SECONDS" DEFAULT_CERT_MAINTENANCE_INTERVAL_SECONDS)
  else None.
End certificates.

(** ** Theorems *)

Section theorems.
Context {NL : IpNetLib} {CR : CertReaders} (env : rstr -> option rstr) (cert_dir : rstr).

(** *** Inspection *)

Lemma missing_attempt now domain : rec_last_attempt_unix_ms (missing_certificate_record cert_dir now domain) = None.
Proof. done. Qed.
Lemma read_attempt now domain bytes : rec_last_attempt_unix_ms (read_certificate env cert_dir now domain bytes) = None.
Proof. unfold read_certificate, judge. repeat case_match; done. Qed.
(** The record of an inspection never knows of an attempt. *)
Lemma inspect_no_attempt now domain st : match inspect_domain_certificate env cert_dir now domain st with
  | (_, Ok (Some r)) => rec_last_attempt_unix_ms r = None
  | (_, Ok None) => normalize_domain domain = []
  | (_, Err _) => False
  end.
Proof.
  unfold inspect_domain_certificate. destruct (normalize_domain domain) as [|c s] eqn:Ed; cbn [is_empty]; [done|]. unfold rbind, rret, metadata_ok, attempt.
  destruct st as [d fates]. cbn [fst snd].
  repeat (case_match; cbn [fst snd negb] in *; simplify_eq/=; try done); apply read_attempt.
Qed.

(** The time a certificate must still be valid, in milliseconds. *)
Definition renew_window : Z := cert_renew_before_days env * DAY_MS.
Lemma renew_window_pos : 0 < renew_window.
Proof.
  unfold renew_window, cert_renew_before_days, DAY_MS, DEFAULT_CERT_RENEW_BEFORE_DAYS. repeat case_match; try lia.
  all: match goal with H : (0 <? _) = true |- _ => apply Z.ltb_lt in H end; nia.
Qed.
(** A certificate that is good for a domain at a time. *)
Definition good_certificate (now : Z) (domain bytes : rstr) : Prop :=
  exists der rest x, pem_ders bytes = Ok (der :: rest) /\ x509_from_der der = Ok x /\
    (exists name, name ∈ x_dns_names x /\ to_ascii_lowercase name = to_ascii_lowercase domain) /\ now + renew_window < x_not_after x * 1000.
Lemma judge_exact now domain x : renew_window < 2 ^ 63 ->
  rec_renewal_required (judge env now (parsed_record cert_dir now domain x)) = false <->
  (exists name, name ∈ x_dns_names x /\ to_ascii_lowercase name = to_ascii_lowercase domain) /\ now + renew_window < x_not_after x * 1000.
Proof.
  intros Hw. pose proof renew_window_pos as Hp. unfold judge. cbn [parsed_record rec_san_domains rec_domain rec_not_after_unix_ms].
  fold renew_window. assert (wrap_i64 renew_window = renew_window) as -> by (unfold wrap_i64; rewrite Z.mod_small; lia).
  assert (Hn : existsb (fun name => eq_ignore_ascii_case name domain) (map to_ascii_lowercase (x_dns_names x)) = true <->
    exists name, name ∈ x_dns_names x /\ to_ascii_lowercase name = to_ascii_lowercase domain).
  { rewrite existsb_exists. setoid_rewrite in_map_iff. setoid_rewrite eq_ignore_ascii_case_spec. setoid_rewrite <- list_elem_of_In. split.
    - intros (y & (name & <- & Hin) & He). rewrite to_ascii_lowercase_idem in He. eauto.
    - intros (name & Hin & He). exists (to_ascii_lowercase name). rewrite to_ascii_lowercase_idem. eauto. }
  destruct (existsb _ _) eqn:Ee; cbn [negb].
  - apply proj1 in Hn. specialize (Hn eq_refl). destruct (Z.leb_spec (x_not_after x * 1000) now); [split; [done|intros [_ ?]; lia]|].
    destruct (Z.leb_spec (x_not_after x * 1000 - now) renew_window); [split; [done|intros [_ ?]; lia]|]. split; [|done]. intros _. split; [done|lia].
  - cbn. split; [done|]. intros [Hin _]. apply Hn in Hin. done.
Qed.
Lemma read_exact now domain bytes : renew_window < 2 ^ 63 ->
  rec_renewal_required (read_certificate env cert_dir now domain bytes) = false <-> good_certificate now domain bytes.
Proof.
  intros Hw. unfold read_certificate, good_certificate. destruct (pem_ders bytes) as [[|der rest]|e]; [split; [done|by intros (? & ? & ? & ? & _)]| |split; [done|by intros (? & ? & ? & ? & _)]].
  destruct (x509_from_der der) as [x|e] eqn:Ex; [|split; [done|intros (? & ? & ? & [= <- <-] & ? & _); congruence]].
  rewrite judge_exact by done. split; [intros [? ?]; by exists der, rest, x|]. intros (? & ? & x' & [= <- <-] & Hx & ? & ?). rewrite Ex in Hx. by injection Hx as <-.
Qed.
(** C24: the inspection decides the renewal exactly. On a disk whose operations work,
    a domain with a name gets a record; it asks for no renewal exactly when the
    certificate and the key of the domain are there and the first certificate of the
    file can be read, names the domain (letters of either case), and is valid for
    longer than the configured number of days from now. *)
Theorem inspection_exact now domain d : normalize_domain domain <> [] -> renew_window < 2 ^ 63 ->
  exists r, inspect_domain_certificate env cert_dir now domain (d, []) = ((d, []), Ok (Some r)) /\
    (rec_renewal_required r = false <->
       exists bytes modified key, d !! domain_certificate_path cert_dir (normalize_domain domain) = Some (bytes, modified) /\
         d !! domain_private_key_path cert_dir (normalize_domain domain) = Some key /\ good_certificate now (normalize_domain domain) bytes).
Proof.
  intros Hd Hw. unfold inspect_domain_certificate. destruct (normalize_domain domain) as [|c s] eqn:Ed; [done|]. cbn [is_empty]. set (dom := c :: s) in *. 
  unfold rbind, rret, metadata_ok, attempt, read_file, io_op. cbn [fst snd tail].
  destruct (d !! domain_certificate_path cert_dir dom) as [[bytes modified]|] eqn:Ec; cbn [bool_decide is_Some].
  2: { eexists. rewrite bool_decide_false by (by intros [? ?]). split; [reflexivity|]. cbn. split; [done|naive_solver]. }
  rewrite bool_decide_true by (by eexists). cbn [fst snd tail].
  destruct (d !! domain_private_key_path cert_dir dom) as [key|] eqn:Ek.
  2: { eexists. rewrite bool_decide_false by (by intros [? ?]). split; [reflexivity|]. cbn. split; [done|naive_solver]. }
  rewrite bool_decide_true by (by eexists). cbn [negb fst snd tail]. rewrite Ec. eexists. split; [reflexivity|]. rewrite read_exact by done. naive_solver.
Qed.

(** *** Nothing here fails as a whole *)

(** Whatever becomes of the disk, the action returns a value. *)
Abbreviation total m := (hoare (fun _ : Disk => True) m (fun _ _ => True) (fun _ : Disk => False)).
Lemma total_ret {A} (a : A) : total (rret a : io A).
Proof. by intros st _. Qed.
Lemma total_bind {A B} (m : io A) (k : A -> io B) : total m -> (forall a, total (k a)) -> total (rbind m k).
Proof. intros Hm Hk. by eapply hoare_bind. Qed.
Lemma total_attempt {A} (m : io A) : total (attempt m).
Proof. intros st _. unfold attempt. by destruct (m st). Qed.
Lemma total_metadata path : total (metadata_ok path).
Proof. intros [d fates] _. unfold metadata_ok. cbn [fst snd]. by destruct fates as [|[] fates]. Qed.
Create HintDb total.
#[local] Hint Resolve total_ret total_bind total_attempt total_metadata : total.
Lemma total_inspect now domain : total (inspect_domain_certificate env cert_dir now domain).
Proof. unfold inspect_domain_certificate. repeat first [case_match | apply total_bind; [auto with total|intros] | by auto with total]. Qed.
Lemma total_load now : total (load_certificate_registry cert_dir now).
Proof. unfold load_certificate_registry. auto with total. Qed.
#[local] Hint Resolve total_inspect total_load : total.
Lemma total_inspect_names now route generated names registry changed : total (inspect_names env cert_dir now route generated names registry changed).
Proof.
  revert registry changed. induction names as [|name rest IH]; intros registry changed; cbn [inspect_names]; [auto with total|].
  apply total_bind; [auto with total|]. intros record. destruct (match record with Some r => _ | None => _ end) as [registry' changed'].
  apply total_bind; [apply IH|]. intros [[statuses ?] ?]. auto with total.
Qed.
#[local] Hint Resolve total_inspect_names : total.
Lemma total_status now es domain : total (certificate_status env cert_dir now es domain).
Proof.
  unfold certificate_status. apply total_bind; [auto with total|intros registry]. do 2 (apply total_bind; [auto with total|intros ?]).
  apply total_bind; [destruct domain; [auto with total|by intros st _]|]. intros [[domains registry'] changed].
  apply total_bind; [destruct changed; auto with total|]. by intros _ st _.
Qed.
#[local] Hint Resolve total_status : total.

Section issuing.
Context (certbot : Z -> list rstr -> Disk -> Disk * certbot_run) (lookup : rstr -> result rstr (list IpAddr)).
Lemma total_inspect_all now domains : total (inspect_all env cert_dir now domains).
Proof. induction domains; cbn [inspect_all]; auto 6 with total. Qed.
Lemma total_keep now records : total (keep_records cert_dir now records).
Proof. induction records; cbn [keep_records]; auto with total. Qed.
Lemma total_mark now domains error : total (mark cert_dir now domains error).
Proof. unfold mark. auto with total. Qed.
#[local] Hint Resolve total_inspect_all total_keep total_mark : total.
Lemma total_install now domain all domains : total (install_all env cert_dir now domain all domains).
Proof.
  induction domains as [|name rest IH]; cbn [install_all]; [auto with total|].
  apply total_bind; [auto with total|intros [[]|error]; [|auto with total]].
  apply total_bind; [auto with total|intros [[]|error]; auto with total].
Qed.
Lemma total_certbot now args : total (run_certbot certbot now args).
Proof. intros st _. unfold run_certbot. by destruct (certbot now args (fst st)). Qed.
#[local] Hint Resolve total_install total_certbot : total.
Lemma total_issue now es domain domains skipped : total (issue env cert_dir certbot now es domain domains skipped).
Proof.
  unfold issue. apply total_bind; [auto with total|intros _]. apply total_bind; [auto with total|intros [[]|error]; [|auto with total]].
  apply total_bind; [auto with total|]. intros [error| |success stdout stderr]; [auto with total..|]. cbv zeta. destruct (negb success); [auto with total|].
  apply total_bind; [auto with total|]. intros [paths|answer]; auto 6 with total.
Qed.
(** A request for a certificate always gets an answer. *)
Lemma total_resync now es domain : total (resync_domain_certificate env cert_dir certbot lookup now es domain).
Proof.
  unfold resync_domain_certificate. case_match; [auto with total|]. case_match. case_match.
  apply total_bind; [auto with total|]. intros existing. case_match; [auto 6 with total|apply total_issue].
Qed.

(** *** Maintenance *)

Lemma env_u64_pos key fallback : 0 <= fallback -> 0 <= env_u64 env key fallback.
Proof. unfold env_u64. destruct (env (lit key)) as [v|]; [|done]. destruct (parse_uint U64_MAX (trim v)) as [n|] eqn:E; [|done]. intros _. apply parse_uint_range in E; [apply E|done]. Qed.


(** The time of a failed attempt is never seen: a record that is inspected has no
    attempt, so a pass asks again however short the time is. *)
Theorem retry_window_ignored now retry_after_ms retry_after_ms' domain st :
  due env cert_dir now retry_after_ms domain st = due env cert_dir now retry_after_ms' domain st.
Proof.
  unfold due, rbind. pose proof (inspect_no_attempt now domain st) as H.
  destruct (inspect_domain_certificate env cert_dir now domain st) as [st1 [[r|]|e]]; [|done..]. rewrite H. by case_match.
Qed.
Lemma total_due now retry_after_ms domain : total (due env cert_dir now retry_after_ms domain).
Proof. unfold due. apply total_bind; [auto with total|]. intros [r|]; [|auto with total]. case_match; auto with total. Qed.

Definition asked (names : list rstr) (x : rstr) : Prop :=
  x <> [] /\ certificate_domain_points_to_proxy env lookup x = Ok true /\ exists name, name ∈ names /\ x = normalize_domain name.
Lemma maintain_names_spec now es max_per_run retry_after_ms names : forall all done_,
  (forall name, name ∈ names -> name ∈ all) -> Forall (asked all) done_ -> Z.of_nat (length done_) <= Z.max 0 max_per_run ->
  hoare (fun _ => True) (maintain_names env cert_dir certbot lookup now es max_per_run retry_after_ms names done_)
    (fun l _ => Z.of_nat (length l) <= Z.max 0 max_per_run /\ Forall (asked all) l) (fun _ => False).
Proof.
  induction names as [|name rest IH]; intros all done_ Hin Hd Hl; cbn [maintain_names]; [by intros st _|].
  destruct (Z.leb_spec max_per_run (Z.of_nat (length done_))); [by intros st _|].
  assert (Hrest : forall n, n ∈ rest -> n ∈ all) by (intros; apply Hin; by right).
  destruct (is_empty (normalize_domain name)) eqn:Ee; [by apply IH|].
  destruct (certificate_domain_points_to_proxy env lookup (normalize_domain name)) as [[]|] eqn:Ep; [|by apply IH..].
  eapply (hoare_bind _ _ _ (fun _ _ => True)); [apply total_due|]. intros [|]; [|by apply IH].
  eapply (hoare_bind _ _ _ (fun _ _ => True)); [apply total_resync|]. intros _. apply IH; [done| |].
  - apply Forall_app. split; [done|]. constructor; [|constructor]. split; [by destruct (normalize_domain name)|]. split; [done|]. exists name. split; [apply Hin; left|done].
  - rewrite length_app. cbn. lia.
Qed.
(** a maintenance pass is bounded and stays at home. Whatever becomes of the
    disk, certbot and the resolver, a pass ends with a list of the names it asked a
    certificate for, which has at most as many entries as the configured number, and
    each of them is a name of a route with TLS (its domain, or its www alias) that
    resolves to an address of the proxy. *)
Theorem maintenance_bounded now es st :
  exists st' l, maintain_domain_certificates env cert_dir certbot lookup now es st = (st', Ok l) /\
    Z.of_nat (length l) <= env_usize env "PXXL_CERT_MAINTENANCE_MAX_PER_RUN" DEFAULT_CERT_MAINTENANCE_MAX_PER_RUN /\
    Forall (fun x => certificate_domain_points_to_proxy env lookup x = Ok true /\
      exists route, route ∈ snapshot (es_routes es) /\ r_tls route = true /\
        (x = normalize_domain (r_domain route) \/ x = normalize_domain (lit "www." ++ r_domain route))) l.
Proof.
  assert (Hmax : 0 <= env_usize env "PXXL_CERT_MAINTENANCE_MAX_PER_RUN" DEFAULT_CERT_MAINTENANCE_MAX_PER_RUN) by (by apply env_u64_pos).
  unfold maintain_domain_certificates. revert Hmax. generalize (env_usize env "PXXL_CERT_MAINTENANCE_MAX_PER_RUN" DEFAULT_CERT_MAINTENANCE_MAX_PER_RUN). intros max Hmax.
  destruct (Z.eqb_spec max 0) as [->|Hne]; [exists st, []; done|].
  set (names := flat_map maintained_names (snapshot (es_routes es))). set (retry := env_u64 _ _ _ * 1000).
  pose proof (maintain_names_spec now es max retry names names [] (fun _ H => H) (Forall_nil_2 _) ltac:(cbn; lia) st I) as H.
  destruct (maintain_names _ _ _ _ _ _ _ _ _ _ st) as [st' [l|]]; [|done]. cbn in H. destruct H as [Hl Ha]. exists st', l. split; [done|]. split; [lia|].
  eapply Forall_impl; [exact Ha|]. intros x (_ & Hp & name & Hn & ->). split; [done|].
  apply list_elem_of_In, in_flat_map in Hn as (route & Hr & Hn). exists route. split; [by apply list_elem_of_In|].
  unfold maintained_names in Hn. destruct (r_tls route); [|done]. cbn [negb] in Hn. split; [done|]. destruct Hn as [<-|Hn]; [by left|]. case_match; [|done]. destruct Hn as [<-|[]]. by right.
Qed.
End issuing.

(** *** Paths *)

Definition solid (d : rstr) : Prop := d <> [] /\ last d <> Some slash.
Lemma join_suffix d n : exists p, join_path d n = p ++ n.
Proof. unfold join_path. repeat case_match; [by exists []|by exists d|]. exists (d ++ lit "/"). by rewrite <- app_assoc. Qed.
Lemma app_solid p n : n <> [] -> slash ∉ n -> solid (p ++ n).
Proof.
  intros Hne Hs. split; [destruct p; [done|by cbn]|]. rewrite last_app. destruct (last n) as [c|] eqn:E; [|by apply last_None in E].
  intros [= ->]. apply Hs, last_Some_elem_of, E.
Qed.
Lemma join_solid d n : n <> [] -> slash ∉ n -> solid (join_path d n).
Proof. destruct (join_suffix d n) as [p ->]. apply app_solid. Qed.
Lemma join_of_solid d n : solid d -> join_path d n = d ++ slash :: n.
Proof.
  intros [Hne Hl]. unfold join_path. destruct d as [|c d]; [done|]. cbn [is_empty]. set (s := c :: d) in *.
  destruct (ends_with (lit "/") s) eqn:E; [|done]. by apply ends_with_slash_last in E.
Qed.
Lemma join_parts d n : slash ∉ n -> exists l, split slash (join_path d n) = l ++ [n].
Proof.
  intros Hn. unfold join_path. destruct (is_empty d); [exists []; by rewrite split_no_sep_single|].
  destruct (ends_with (lit "/") d) eqn:E.
  - apply ends_with_spec in E as [r ->]. exists (split slash r). rewrite <- app_assoc. change (lit "/" ++ n) with (slash :: n). by rewrite split_app, (split_no_sep_single _ n).
  - exists (split slash d). change (lit "/" ++ n) with (slash :: n). by rewrite split_app, (split_no_sep_single _ n).
Qed.
Lemma last_part d n d' n' : slash ∉ n -> slash ∉ n' -> join_path d n = join_path d' n' -> n = n'.
Proof.
  intros Hn Hn' H. destruct (join_parts d n Hn) as [l Hl], (join_parts d' n' Hn') as [l' Hl']. rewrite H, Hl' in Hl. by apply app_inj_tail in Hl as [_ ->].
Qed.
Lemma safe_no_slash name : slash ∉ safe_domain_cert_name name.
Proof.
  unfold safe_domain_cert_name. rewrite list_elem_of_In, in_map_iff. intros (ch & H & _). revert H.
  destruct (is_ascii_alphanumeric ch || _ || _) eqn:E; [|done]. destruct ch as [[] [] [] [] [] [] [] []]; cbn in *; done.
Qed.

Definition domains_base : rstr := join_path cert_dir (lit "domains").
Lemma base_solid : solid domains_base.
Proof. apply join_solid; [done|]. intros H. apply list_elem_of_In in H. cbn in H. repeat destruct H as [H|H]; done. Qed.
Definition in_domain (name file : rstr) : rstr :=
  join_path (join_path (join_path cert_dir (lit "domains")) (safe_domain_cert_name name)) file.
Lemma in_domain_form name file : in_domain name file =
  domains_base ++ slash :: (if is_empty (safe_domain_cert_name name) then file else safe_domain_cert_name name ++ slash :: file).
Proof.
  unfold in_domain. fold domains_base. rewrite (join_of_solid domains_base) by apply base_solid. destruct (safe_domain_cert_name name) as [|c s] eqn:E; cbn [is_empty].
  - unfold join_path at 1. assert (is_empty (domains_base ++ [slash]) = false) as -> by (by destruct domains_base).
    assert (ends_with (lit "/") (domains_base ++ [slash]) = true) as -> by (apply ends_with_slash_last, last_snoc). by rewrite <- app_assoc.
  - rewrite join_of_solid; [by rewrite <- app_assoc|]. pose proof (safe_no_slash name) as Hs. rewrite E in Hs.
    change (slash :: c :: s) with ([slash] ++ (c :: s)). rewrite app_assoc. by apply app_solid.
Qed.
Lemma in_domain_name name name' file : file <> [] -> slash ∉ file -> in_domain name file = in_domain name' file -> safe_domain_cert_name name = safe_domain_cert_name name'.
Proof.
  intros Hf Hs H. rewrite !in_domain_form in H. apply app_inv_head in H. injection H as H.
  pose proof (safe_no_slash name) as H1. pose proof (safe_no_slash name') as H2.
  destruct (safe_domain_cert_name name) as [|c s], (safe_domain_cert_name name') as [|c' s']; cbn [is_empty] in H; try done.
  - exfalso. apply Hs. rewrite H, elem_of_app. right. left.
  - exfalso. apply Hs. rewrite <- H, elem_of_app. right. left.
  - by apply app_sep_inj_r in H as [? _].
Qed.
Definition live_file (domain file : rstr) : rstr := join_path (live_dir env domain) file.
Lemma cert_name_parts domain : cert_name domain <> [] /\ (slash ∉ cert_name domain).
Proof.
  split; [done|]. unfold cert_name. rewrite elem_of_app. intros [H|H]; [|by apply safe_no_slash in H].
  apply list_elem_of_In in H. cbn in H. repeat destruct H as [H|H]; done.
Qed.
Lemma plain_word w : forallb (fun c => negb (beq c slash)) w = true -> slash ∉ w.
Proof. intros H Hin. apply list_elem_of_In in Hin. rewrite forallb_forall in H. specialize (H _ Hin). by rewrite beq_refl in H. Qed.
Lemma live_not_installed domain name file file' : slash ∉ file -> slash ∉ file' -> live_file domain file <> in_domain name file'.
Proof.
  intros Hf Hf' H. destruct (cert_name_parts domain) as [Hc Hcs]. unfold live_file, live_dir in H.
  assert (HL : solid (join_path (certbot_config env) (lit "live"))) by (apply join_solid; [done|by apply plain_word]).
  assert (Hdir : solid (join_path (join_path (certbot_config env) (lit "live")) (cert_name domain))) by (by apply join_solid).
  rewrite (join_of_solid _ _ Hdir), (join_of_solid _ _ HL), in_domain_form in H.
  pose proof (safe_no_slash name) as Hs. destruct (safe_domain_cert_name name) as [|c s] eqn:E; cbn [is_empty] in H.
  - apply app_sep_inj_r in H as [H _]; [|done..]. rewrite <- (join_of_solid _ _ HL) in H. unfold domains_base in H.
    apply last_part in H; [|done|by apply plain_word]. unfold cert_name in H. cbn in H. done.
  - change (domains_base ++ slash :: (c :: s) ++ slash :: file') with (domains_base ++ (slash :: c :: s) ++ slash :: file') in H.
    rewrite app_assoc in H. apply app_sep_inj_r in H as [H _]; [|done..]. apply app_sep_inj_r in H as [H _]; [|done..].
    unfold domains_base in H. apply last_part in H; [done|by apply plain_word..].
Qed.

(** *** What else is written *)

(** The action leaves every file but the registry and its temporary file alone. *)
Definition frame {A} (m : io A) : Prop :=
  forall st path, path <> cert_registry_path cert_dir -> path <> registry_temp_path cert_dir -> fst (fst (m st)) !! path = fst st !! path.
Lemma frame_ret {A} (a : A) : frame (rret a : io A).
Proof. by intros st path. Qed.
Lemma frame_fail {A} e : frame (rfail e : io A).
Proof. by intros st path. Qed.
Lemma frame_bind {A B} (m : io A) (k : A -> io B) : frame m -> (forall a, frame (k a)) -> frame (rbind m k).
Proof.
  intros Hm Hk st path H1 H2. unfold rbind. specialize (Hm st path H1 H2). destruct (m st) as [st1 [a|e]]; [|done]. by rewrite Hk.
Qed.
Lemma frame_attempt {A} (m : io A) : frame m -> frame (attempt m).
Proof. intros Hm st path H1 H2. unfold attempt. specialize (Hm st path H1 H2). by destruct (m st). Qed.
Lemma frame_read path' : frame (read_file path').
Proof. intros [d fates] path _ _. unfold read_file, io_op. cbn. by repeat case_match. Qed.
Lemma frame_metadata path' : frame (metadata_ok path').
Proof. intros [d fates] path _ _. unfold metadata_ok. cbn. by repeat case_match. Qed.
Lemma frame_save now r : frame (save_certificate_registry cert_dir now r).
Proof.
  unfold save_certificate_registry. apply frame_bind.
  { intros [d fates] path _ _. unfold create_dir_all, io_op. cbn. by repeat case_match. }
  intros _. case_match; [|apply frame_fail]. apply frame_bind.
  - intros [d fates] path _ H2. unfold write_file. cbn. repeat case_match; cbn; by rewrite ?lookup_insert_ne.
  - intros _ [d fates] path H1 H2. unfold rename_file, io_op. cbn.
    repeat case_match; simplify_eq/=; rewrite ?lookup_insert_ne, ?lookup_delete_ne by done; done.
Qed.
Create HintDb frame.
#[local] Hint Resolve frame_ret frame_bind frame_attempt frame_read frame_metadata frame_save : frame.
Lemma frame_inspect now domain : frame (inspect_domain_certificate env cert_dir now domain).
Proof. unfold inspect_domain_certificate. repeat first [case_match | apply frame_bind; [auto with frame|intros] | by auto with frame]. Qed.
Lemma frame_load now : frame (load_certificate_registry cert_dir now).
Proof. unfold load_certificate_registry. auto with frame. Qed.
#[local] Hint Resolve frame_inspect frame_load : frame.
Lemma frame_refresh_domains now issued domains registry : frame (refresh_domains env cert_dir now issued domains registry).
Proof. revert registry. induction domains; intros registry; cbn [refresh_domains]; [auto with frame|]. case_match; auto with frame. Qed.
#[local] Hint Resolve frame_refresh_domains : frame.
Lemma frame_refresh now domains issued : frame (refresh_certificate_records env cert_dir now domains issued).
Proof. unfold refresh_certificate_records. auto 6 with frame. Qed.
Lemma frame_inspect_names now route generated names registry changed : frame (inspect_names env cert_dir now route generated names registry changed).
Proof.
  revert registry changed. induction names as [|name rest IH]; intros registry changed; cbn [inspect_names]; [auto with frame|].
  apply frame_bind; [auto with frame|]. intros record. destruct (match record with Some r => _ | None => _ end) as [registry' changed'].
  apply frame_bind; [apply IH|]. intros [[statuses ?] ?]. auto with frame.
Qed.
#[local] Hint Resolve frame_inspect_names : frame.
Lemma frame_status now es domain : frame (certificate_status env cert_dir now es domain).
Proof.
  unfold certificate_status. apply frame_bind; [auto with frame|intros registry]. do 2 (apply frame_bind; [auto with frame|intros ?]).
  apply frame_bind; [destruct domain; [auto with frame|by intros st path]|]. intros [[domains registry'] changed].
  apply frame_bind; [destruct changed; auto 6 with frame|]. by intros _ st path.
Qed.
Lemma registry_apart d file : file <> lit "cert-state.json" -> file <> lit "cert-state.json.tmp" -> slash ∉ file ->
  join_path d file <> cert_registry_path cert_dir /\ join_path d file <> registry_temp_path cert_dir.
Proof. intros H1 H2 Hs. split; intros H; apply last_part in H; try done; by apply plain_word. Qed.

(** *** Installation *)

Definition FULLCHAIN : rstr := lit "fullchain.pem".
Definition PRIVKEY : rstr := lit "privkey.pem".
Lemma file_words : (slash ∉ FULLCHAIN) /\ (slash ∉ PRIVKEY).
Proof. split; by apply plain_word. Qed.
(** The pair certbot keeps for a domain, and that a name is served with. *)
Definition live_pair (domain cert key : rstr) (d : Disk) : Prop :=
  (fst <$> d !! live_file domain FULLCHAIN) = Some cert /\ (fst <$> d !! live_file domain PRIVKEY) = Some key.
Definition installed (now : Z) (cert key name : rstr) (d : Disk) : Prop :=
  d !! in_domain name FULLCHAIN = Some (cert, now) /\ d !! in_domain name PRIVKEY = Some (key, now).
Definition all_installed (now : Z) (domain : rstr) (names : list rstr) (d : Disk) : Prop :=
  forall cert key name, live_pair domain cert key d -> name ∈ names -> installed now cert key name d.

Lemma read_hoare (path : rstr) (P : Disk -> Prop) : hoare P (read_file path) (fun bytes (d : Disk) => P d /\ (fst <$> d !! path) = Some bytes) (fun _ => True).
Proof.
  intros [d fates] H. unfold read_file, io_op. cbn [fst snd] in *.
  destruct fates as [|[] fates]; cbn [fst snd]; try done; destruct (d !! path) as [[bytes modified]|] eqn:E; cbn; try done; by rewrite E.
Qed.
Lemma unit_hoare (error : TlsError) (P : Disk -> Prop) : hoare P (io_op error (fun d => (d, Ok tt))) (fun _ d => P d) (fun _ => True).
Proof. intros [d fates] H. unfold io_op. cbn [fst snd] in *. by destruct fates as [|[] fates]. Qed.
Lemma write_hoare (now : Z) (path bytes : rstr) (P : Disk -> Prop) :
  hoare P (write_file now path bytes) (fun _ d => exists d0, P d0 /\ d = <[path := (bytes, now)]> d0) (fun _ => True).
Proof. intros [d fates] H. unfold write_file. cbn [fst snd] in *. destruct fates as [|[] fates]; cbn [fst snd]; try done; by exists d. Qed.
Lemma copy_hoare (now : Z) (domain name : rstr) (names : list rstr) (dir : rstr) :
  Forall (fun n => safe_domain_cert_name n <> safe_domain_cert_name name) names ->
  hoare (all_installed now domain names) (copy_certbot_bundle now (live_dir env domain) (in_domain name FULLCHAIN) (in_domain name PRIVKEY) dir)
    (fun _ d => (exists cert key, live_pair domain cert key d) /\ all_installed now domain (names ++ [name]) d) (fun _ => True).
Proof.
  intros Hn. destruct file_words as [Hf Hk]. unfold copy_certbot_bundle.
  eapply hoare_bind; [apply read_hoare|intros fullchain]. eapply hoare_bind; [apply read_hoare|intros private_key].
  eapply hoare_bind; [apply unit_hoare|intros ?]. eapply hoare_bind; [apply write_hoare|intros ?]. eapply hoare_bind; [apply write_hoare|intros ?].
  eapply hoare_bind; [apply unit_hoare|intros ?]. eapply hoare_weaken; [apply unit_hoare|intros ? H; exact H| |done].
  intros _ s (d1 & (d0 & ((Hall & Hc) & Hp) & ->) & ->).
  assert (Hother : forall path, path <> in_domain name FULLCHAIN -> path <> in_domain name PRIVKEY ->
    (<[in_domain name PRIVKEY := (private_key, now)]> (<[in_domain name FULLCHAIN := (fullchain, now)]> d0) : Disk) !! path = d0 !! path).
  { intros path H1 H2. by rewrite !lookup_insert_ne. }
  assert (Hlive : forall cert key, live_pair domain cert key (<[in_domain name PRIVKEY := (private_key, now)]> (<[in_domain name FULLCHAIN := (fullchain, now)]> d0)) <-> cert = fullchain /\ key = private_key).
  { intros cert key. unfold live_pair. rewrite !Hother by (by apply live_not_installed). fold (live_file domain (lit "fullchain.pem")) (live_file domain (lit "privkey.pem")) in Hc, Hp.
    unfold FULLCHAIN, PRIVKEY. rewrite Hc, Hp. naive_solver. }
  split; [exists fullchain, private_key; by apply Hlive|]. intros cert key x [-> ->]%Hlive [Hx| ->%list_elem_of_singleton]%elem_of_app.
  - rewrite Forall_forall in Hn. specialize (Hn x Hx). destruct (Hall fullchain private_key x) as [H1 H2]; [by split|done|].
    split; rewrite Hother; try done; intros He.
    all: try (apply in_domain_name in He; done). all: unfold in_domain in He; apply last_part in He; done.
  - split; [|apply lookup_insert_eq]. rewrite lookup_insert_ne, lookup_insert_eq; [done|]. intros He. unfold in_domain in He. by apply last_part in He.
Qed.
Lemma hoare_attempt {A : Type} (P : Disk -> Prop) (m : io A) (Q : A -> Disk -> Prop) X :
  hoare P m Q X -> hoare P (attempt m) (fun r d => match r with Ok a => Q a d | Err _ => X d end) (fun _ => False).
Proof. intros Hm st HP. specialize (Hm st HP). unfold attempt. destruct (m st) as [st1 [a|e]]; exact Hm. Qed.
Lemma hoare_any {A : Type} (P : Disk -> Prop) (m : io A) (Q : A -> Disk -> Prop) (X : Disk -> Prop) : (forall a s, Q a s) -> (forall s, X s) -> hoare P m Q X.
Proof. intros HQ HX st _. destruct (snd (m st)); auto. Qed.

Definition not_issued (a : cert_answer) : Prop := match a with Issued _ _ _ _ _ _ => False | _ => True end.
Definition served_by (now : Z) (domain : rstr) (names : list rstr) (d : Disk) : Prop :=
  exists cert key, live_pair domain cert key d /\ forall name, name ∈ names -> installed now cert key name d.
Lemma install_hoare now domain all rest : forall done_, NoDup (safe_domain_cert_name <$> done_ ++ rest) ->
  hoare (all_installed now domain done_) (install_all env cert_dir now domain all rest)
    (fun r d => match r with Ok _ => all_installed now domain (done_ ++ rest) d /\ (rest = [] \/ exists cert key, live_pair domain cert key d) | Err answer => not_issued answer end)
    (fun _ => True).
Proof.
  induction rest as [|name rest IH]; intros done_ Hn; cbn [install_all].
  { rewrite app_nil_r. intros st H. split; [done|by left]. }
  eapply hoare_bind; [eapply hoare_weaken; [apply hoare_attempt, unit_hoare|intros ? H; exact H|intros ? ? H; exact H|done]|].
  intros [[]|error]; [|by intros st _]. cbv beta iota.
  eapply hoare_bind; [eapply hoare_weaken; [apply hoare_attempt, (copy_hoare now domain name done_)|intros ? H; exact H|intros ? ? H; exact H|done]|].
  { rewrite fmap_app, fmap_cons in Hn. apply NoDup_app in Hn as (_ & Hn & _). apply Forall_forall. intros x Hx He.
    apply (Hn (safe_domain_cert_name x)); [apply list_elem_of_fmap; eauto|]. rewrite He. left. }
  intros [[]|error]; [|eapply (hoare_bind _ _ _ (fun _ _ => True)); [by apply hoare_any|by intros _ st _]]. cbv beta iota. assert (done_ ++ name :: rest = (done_ ++ [name]) ++ rest) as E by (by rewrite <- app_assoc).
  rewrite E in *. specialize (IH (done_ ++ [name]) Hn). eapply hoare_bind.
  - intros st [Hl Ha]. specialize (IH st Ha).
    instantiate (1 := fun r d => match r with Ok _ => all_installed now domain ((done_ ++ [name]) ++ rest) d /\ exists cert key, live_pair domain cert key d | Err answer => not_issued answer end).
    destruct (install_all env cert_dir now domain all rest st) as [st1 [[paths|answer]|e]] eqn:Ei; cbn [fst snd] in *; [|done..]. destruct IH as [IH1 [->|IH2]]; [|done].
    cbn in Ei. injection Ei as <- _. done.
  - intros [paths|answer]; [|by intros st H]. intros st H. split; [apply H|]. right. apply H.
Qed.

Definition stable (G : Disk -> Prop) : Prop := forall d d' : Disk,
  (forall path, path <> cert_registry_path cert_dir -> path <> registry_temp_path cert_dir -> d' !! path = d !! path) -> G d -> G d'.
Lemma frame_hoare {A : Type} (m : io A) G : stable G -> frame m -> hoare G m (fun _ => G) G.
Proof.
  intros HG Hm st HP. assert (G (fst (fst (m st)))); [|by destruct (snd (m st))]. eapply HG; [|exact HP]. intros path. apply Hm.
Qed.
Lemma served_stable now domain names : stable (served_by now domain names).
Proof.
  intros d d' Hd (cert & key & [Hc Hk] & Hall). destruct file_words as [Hf Hp].
  assert (Hkeep : forall dir file, (file = FULLCHAIN \/ file = PRIVKEY) -> d' !! join_path dir file = d !! join_path dir file).
  { intros dir file Hfile. destruct (registry_apart dir file) as [H1 H2]; [by destruct Hfile as [-> | ->]..|by apply Hd]. }
  exists cert, key. split; [|intros name Hn; destruct (Hall name Hn) as [H1 H2]; split; unfold in_domain; rewrite Hkeep by auto; done].
  split; unfold live_file; rewrite Hkeep by auto; done.
Qed.

Section answers.
Context (certbot : Z -> list rstr -> Disk -> Disk * certbot_run) (lookup : rstr -> result rstr (list IpAddr)).
Definition answer_ok (now : Z) (a : cert_answer) (d : Disk) : Prop :=
  match a with Issued domain domains _ _ _ _ => served_by now domain domains d /\ NoDup (safe_domain_cert_name <$> domains) /\ domains <> [] | _ => True end.
Lemma issue_hoare now es domain domains skipped : NoDup (safe_domain_cert_name <$> domains) -> domains <> [] ->
  hoare (fun _ => True) (issue env cert_dir certbot now es domain domains skipped) (answer_ok now) (fun _ => True).
Proof.
  intros Hn Hne. unfold issue. eapply (hoare_bind _ _ _ (fun _ _ => True)); [by apply hoare_any|intros _].
  eapply (hoare_bind _ _ _ (fun _ _ => True)); [by apply hoare_any|intros [[]|error]; [|by intros st _]].
  eapply (hoare_bind _ _ _ (fun _ _ => True)); [by apply hoare_any|]. intros [error| |success stdout stderr]; cbv zeta.
  1,2: eapply (hoare_bind _ _ _ (fun _ _ => True)); [by apply hoare_any|]; by intros _ st _.
  destruct (negb success); [eapply (hoare_bind _ _ _ (fun _ _ => True)); [by apply hoare_any|]; by intros _ st _|].
  eapply hoare_bind; [eapply hoare_weaken; [apply (install_hoare now domain domains domains [] Hn)| |intros ? ? H; exact H|done]|].
  { intros s _ cert key name _ H. by apply not_elem_of_nil in H. }
  intros [paths|answer]; cbv beta iota; [|intros st H; by destruct answer]. cbn [app].
  assert (Hs : forall d, all_installed now domain domains d /\ (domains = [] \/ exists cert key, live_pair domain cert key d) -> served_by now domain domains d).
  { intros d [Ha [->|(cert & key & Hl)]]; [done|]. exists cert, key. split; [done|]. intros name. by apply Ha. }
  pose proof (served_stable now domain domains) as Hst.
  eapply hoare_bind; [eapply hoare_weaken; [apply (frame_hoare _ _ Hst), frame_attempt, frame_refresh|exact Hs|intros ? ? H; exact H|done]|intros ?].
  eapply hoare_bind; [eapply hoare_weaken; [apply (frame_hoare _ _ Hst), frame_status|done|intros ? ? H; exact H|done]|intros status]. intros st H. by split.
Qed.

(** The names of one certificate have directories of their own. *)
Lemma certificate_names_apart route requested : let '(domain, domains, skipped) := certificate_names_for env lookup route requested in
  NoDup (safe_domain_cert_name <$> domains) /\ domains <> [].
Proof.
  assert (Hone : forall x : rstr, NoDup (safe_domain_cert_name <$> [x]) /\ [x] <> []) by (intros x; split; [apply NoDup_singleton|done]).
  unfold certificate_names_for. destruct route as [route|]; [|apply Hone].
  destruct (route_allows_www_alias _ _); [|apply Hone]. destruct (certificate_domain_points_to_proxy _ _ _) as [[]|]; [|apply Hone..].
  set (x := r_domain route). assert (Hp : sort_strings [x; lit "www." ++ x] ≡ₚ [x; lit "www." ++ x]) by apply merge_sort_Permutation.
  assert (Hsub : forall y, y ∈ dedup (sort_strings [x; lit "www." ++ x]) -> y = x \/ y = lit "www." ++ x).
  { intros y Hy. apply (proj1 (dedup_elem _ _)) in Hy. rewrite Hp in Hy. set_solver. }
  assert (Hlen : length (safe_domain_cert_name (lit "www." ++ x)) = (4 + length (safe_domain_cert_name x))%nat).
  { unfold safe_domain_cert_name. rewrite filter_app, map_app, length_app. done. }
  split.
  - apply NoDup_fmap_2_strong; [|apply dedup_sorted, (StronglySorted_merge_sort str_le)].
    intros y z [-> | ->]%Hsub [-> | ->]%Hsub He; try done; apply (f_equal length) in He; lia.
  - intros He. assert (x ∈ dedup (sort_strings [x; lit "www." ++ x])) as Hx by (apply (proj2 (dedup_elem _ _)); rewrite Hp; left). rewrite He in Hx. by apply not_elem_of_nil in Hx.
Qed.

(** The files of distinct names, certificates and keys, are distinct. *)
Lemma installed_paths_apart domains : NoDup (safe_domain_cert_name <$> domains) ->
  NoDup ((domain_certificate_path cert_dir <$> domains) ++ (domain_private_key_path cert_dir <$> domains)).
Proof.
  intros Hn. destruct file_words as [Hf Hk].
  assert (Hinj : forall file, file <> [] -> slash ∉ file -> NoDup ((fun name => in_domain name file) <$> domains)).
  { intros file Hne Hs. induction domains as [|x l IH]; [apply NoDup_nil_2|]. cbn [fmap list_fmap] in *. apply NoDup_cons in Hn as [Hx Hn].
    apply NoDup_cons. split; [|by apply IH]. intros (y & He & Hy)%list_elem_of_fmap. apply Hx. apply in_domain_name in He; [|done..]. rewrite He. by apply list_elem_of_fmap_2. }
  apply NoDup_app. split_and!; [by apply (Hinj FULLCHAIN)| |by apply (Hinj PRIVKEY)].
  intros path (x & -> & _)%list_elem_of_fmap (y & He & _)%list_elem_of_fmap. by apply last_part in He.
Qed.

(** C23: a certificate that is reported as issued is installed for all its names.
    Whatever the disk did before and whatever certbot wrote, when a request answers
    that a certificate was issued, then the answer has at least one name, and the
    certificate and the private key in certbot's directory for the domain are, byte
    for byte and written at this time, the files of every name of the answer; and no
    two of these files, of one name or of two, are the same file, so that the pair of
    one name never overwrites that of another. *)
Theorem issued_is_installed now es domain st st' dom domains skipped paths status stdout :
  resync_domain_certificate env cert_dir certbot lookup now es domain st = (st', Ok (Issued dom domains skipped paths status stdout)) ->
  domains <> [] /\
  (exists cert key, live_pair dom cert key (fst st') /\
    forall name, name ∈ domains -> fst st' !! domain_certificate_path cert_dir name = Some (cert, now) /\
      fst st' !! domain_private_key_path cert_dir name = Some (key, now)) /\
  NoDup ((domain_certificate_path cert_dir <$> domains) ++ (domain_private_key_path cert_dir <$> domains)).
Proof.
  assert (H : hoare (fun _ => True) (resync_domain_certificate env cert_dir certbot lookup now es domain) (answer_ok now) (fun _ => True)).
  { unfold resync_domain_certificate. case_match; [by intros ? _|]. pose proof (certificate_names_apart (find_domain (es_routes es) (normalize_domain domain)) (normalize_domain domain)) as Hn.
    destruct (certificate_names_for _ _ _ _) as [[dom' domains'] skipped']. destruct Hn as [Hn Hne].
    eapply (hoare_bind _ _ _ (fun _ _ => True)); [by apply hoare_any|]. intros existing. case_match; [|by apply issue_hoare].
    eapply (hoare_bind _ _ _ (fun _ _ => True)); [by apply hoare_any|intros _]. eapply (hoare_bind _ _ _ (fun _ _ => True)); [by apply hoare_any|]. by intros ? ? _. }
  intros E. specialize (H st I). rewrite E in H. destruct H as (Hs & Hn & Hne). split_and!; [done|exact Hs|by apply installed_paths_apart].
Qed.
End answers.
End theorems.

(** ** Examples *)

Module CertDemo.
(** A certificate is the second it ends and its names: [2000000;a.example.com,..]. *)
#[export] Instance PlainReaders : CertReaders := {|
  pem_ders bytes := if is_empty bytes then Ok [] else if contains_char (chr ";") bytes then Ok [bytes] else Err (lit "no certificate");
  x509_from_der der := match split_once (chr ";") der with
                       | Some (ends, names) =>
                         match parse_uint U64_MAX ends with
                         | Some ends => Ok {| x_issuer := lit "ca"; x_subject := []; x_not_before := 0; x_not_after := ends; x_dns_names := split (chr ",") names |}
                         | None => Err (lit "no end")
                         end
                       | None => Err (lit "no names")
                       end;
  encode_registry _ := Some (lit "{}"); decode_registry _ := None; show_io _ := lit "io" |}.
Definition no_env : rstr -> option rstr := fun _ => None.
Definition dir : rstr := lit "/certs".
Definition site : rstr := lit "example.com".
(** The end of the certificates, in seconds, and a time 29 and 31 days before it. *)
Definition ends : Z := 4000000.
Definition now_late : Z := ends * 1000 - 29 * DAY_MS.
Definition now_early : Z := ends * 1000 - 31 * DAY_MS.
Definition with_pair (d : Disk) : Disk :=
  <[domain_private_key_path dir site := (lit "4000000", 0)]> (<[domain_certificate_path dir site := (lit "4000000;EXAMPLE.com", 0)]> d).
Definition judged (now : Z) (d : Disk) : option (rstr * bool) :=
  match snd (inspect_domain_certificate no_env dir now site (d, [])) with Ok (Some r) => Some (rec_status r, rec_renewal_required r) | _ => None end.
Example judgements :
  judged now_early (with_pair ∅) = Some (lit "valid", false) /\ judged now_late (with_pair ∅) = Some (lit "expiring_soon", true) /\
  judged (ends * 1000) (with_pair ∅) = Some (lit "expired", true) /\ judged now_early ∅ = Some (lit "missing", true) /\
  judged now_early (<[domain_certificate_path dir site := (lit "4000000;www.example.com", 0)]> (with_pair ∅)) = Some (lit "invalid", true).
Proof. split_and!; vm_compute; reflexivity. Qed.
Lemma inspection_exact_witness : exists r, inspect_domain_certificate no_env dir now_early site (with_pair ∅, []) = ((with_pair ∅, []), Ok (Some r)) /\
  rec_renewal_required r = false.
Proof.
  destruct (inspection_exact no_env dir now_early site (with_pair ∅)) as (r & Hr & Hx); [vm_compute; discriminate|vm_compute; reflexivity|].
  exists r. split; [exact Hr|]. apply Hx. exists (lit "4000000;EXAMPLE.com"), 0, (lit "4000000", 0). split_and!; [vm_compute; reflexivity..|].
  exists (lit "4000000;EXAMPLE.com"), [], {| x_issuer := lit "ca"; x_subject := []; x_not_before := 0; x_not_after := ends; x_dns_names := [lit "EXAMPLE.com"] |}.
  split_and!; [vm_compute; reflexivity|vm_compute; reflexivity|exists (lit "EXAMPLE.com"); split; [left|vm_compute; reflexivity]|vm_compute; reflexivity].
Defined.

(** A certbot that leaves a new pair for the name it is given. *)
Definition certbot (now : Z) (args : list rstr) (d : Disk) : Disk * certbot_run :=
  (<[live_file no_env site PRIVKEY := (lit "9000000", now)]> (<[live_file no_env site FULLCHAIN := (lit "9000000;example.com", now)]> d),
   CertbotExit true (lit " Successfully received certificate. ") []).
Definition no_names : rstr -> result rstr (list IpAddr) := fun _ => Err (lit "no such host").
Definition no_routes : @EdgeState CidrLib := {| es_routes := Registry_empty; es_routes_total := ∅; es_upstream_health_status := ∅ |}.
Definition outcome : (Disk * list io_fate) * result TlsError cert_answer :=
  resync_domain_certificate no_env dir certbot no_names now_late no_routes site (with_pair ∅, []).
Lemma outcome_issued : exists skipped paths status stdout, snd outcome = Ok (Issued site [site] skipped paths status stdout).
Proof. vm_compute. do 4 eexists. reflexivity. Qed.
Lemma issued_is_installed_witness : exists cert key, live_pair no_env site cert key (fst (fst outcome)) /\
  forall name, name ∈ [site] -> fst (fst outcome) !! domain_certificate_path dir name = Some (cert, now_late) /\
    fst (fst outcome) !! domain_private_key_path dir name = Some (key, now_late).
Proof.
  destruct outcome_issued as (skipped & paths & status & stdout & E).
  refine (proj1 (proj2 (issued_is_installed no_env dir certbot no_names now_late no_routes site (with_pair ∅, []) (fst outcome) site [site] skipped paths status stdout _))).
  rewrite <- E. apply surjective_pairing.
Defined.

(** The two files are written one after the other: when the disk fails in between,
    the new certificate stands beside the old key. *)
Definition torn_fates : list io_fate := replicate 16 Done ++ [Failed].
Definition torn : (Disk * list io_fate) * result TlsError cert_answer :=
  resync_domain_certificate no_env dir certbot no_names now_late no_routes site (with_pair ∅, torn_fates).
Example torn_pair :
  match snd torn with Ok (InstallFailed _) => true | _ => false end = true /\
  fst (fst torn) !! domain_certificate_path dir site = Some (lit "9000000;example.com", now_late) /\
  fst (fst torn) !! domain_private_key_path dir site = Some (lit "4000000", 0).
Proof. split_and!; vm_compute; reflexivity. Qed.
(** With such a pair the whole TLS configuration is refused. *)
Example torn_pair_stops_tls :
  let own d := <[cert_path dir := (lit "k;localhost", 0)]> (<[key_path dir := (lit "k", 0)]> d) in
  let config d := is_ok (snd (@server_config_with_domain_certs TlsDemo.PlainCerts dir (bundle dir []) (own d, []))) in
  config (with_pair ∅) = true /\ config (fst (fst torn)) = false.
Proof. split; vm_compute; reflexivity. Qed.
(** A name whose certificate cannot be had is asked for again in every pass, and
    uses up the number of a pass: the names behind it never have their turn. *)
Definition refused (now : Z) (args : list rstr) (d : Disk) : Disk * certbot_run := (d, CertbotExit false [] (lit "too many failed authorizations")).
Definition here : rstr -> result rstr (list IpAddr) := fun _ => Ok (option_list (parse_ip (lit "193.181.212.65"))).
Definition pass (now : Z) (st : Disk * list io_fate) : (Disk * list io_fate) * result TlsError (list rstr) :=
  maintain_names no_env dir refused here now no_routes 1 (3600 * 1000) [lit "a.example.com"; lit "b.example.com"] [] st.
Example maintenance_starves :
  let first := pass 1000 (∅, []) in let second := pass 1001 (fst first) in let third := pass 1002 (fst second) in
  snd first = Ok [lit "a.example.com"] /\ snd second = Ok [lit "a.example.com"] /\ snd third = Ok [lit "a.example.com"].
Proof. split_and!; vm_compute; reflexivity. Qed.
End CertDemo.
