(* ===== verification/HttpSettings.v ===== *)
(** What the HTTP proxy reads for itself when it starts ([http-proxy]): the directory
    of error page templates and the variables of the trusted client addresses and of
    the runtime diagnostics; and the request to the diagnostics service that an error
    answer waits for.  The directory, the environment, [Url], [Uri], [serde_json] and
    the answer of the service are parameters. *)
From stdpp Require Import options.
From S2P Require Import Prelude RustStr RustNum RustNet CommonTypes CommonValidate HttpHeaders HttpPages Tls.

Local Open Scope Z_scope.
Local Open Scope rust_scope.

(** ** The template directory *)

(** An entry of the directory: its name, [is_file], and the answer of
    [read_to_string] ([None] also for bytes that are not UTF-8). *)
Record DirEntry := { de_name : rstr; de_is_file : bool; de_text : option rstr }.
(** What is at the path; an entry that cannot be read is [None]. *)
Inductive PageDir :=
| NoDirectory
| NotADirectory
| UnreadableDirectory
| Directory (entries : list (option DirEntry)).

(** [Path::file_stem] and [Path::extension] of a file name *)
Definition file_parts (name : rstr) : rstr * option rstr :=
  if name =s? lit ".." then (name, None)
  else match rsplit_once (chr ".") name with
       | Some (before, after) => if is_empty before then (name, None) else (before, Some after)
       | None => (name, None)
       end.
(** [OsStr::to_str] *)
Definition os_to_str (s : rstr) : option rstr := if valid_utf8 s then Some s else None.

Definition is_html_template (name : rstr) : bool :=
  match snd (file_parts name) ≫= os_to_str with
  | Some extension => eq_ignore_ascii_case extension (lit "html") || eq_ignore_ascii_case extension (lit "htm")
  | None => false
  end.
(** [StatusCode::from_u16] *)
Definition status_code_ok (code : Z) : bool := (100 <=? code) && (code <? 1000).

Fixpoint load_entries (dir : rstr) (entries : list (option DirEntry)) (pages : gmap Z rstr) (default_page : option rstr)
  : result rstr (gmap Z rstr * option rstr) :=
  match entries with
  | [] => Ok (pages, default_page)
  | None :: _ => Err (lit "reading error page entry under " ++ dir)
  | Some entry :: rest =>
    if negb (de_is_file entry) || negb (is_html_template (de_name entry)) then load_entries dir rest pages default_page
    else match de_text entry with
         | None => Err (lit "reading error page template " ++ join_path dir (de_name entry))
         | Some body =>
           match os_to_str (fst (file_parts (de_name entry))) with
           | None => load_entries dir rest pages default_page
           | Some stem =>
             if eq_ignore_ascii_case stem (lit "default") then load_entries dir rest pages (Some body)
             else match parse_uint 65535 stem with
                  | Some code =>
                    if status_code_ok code then load_entries dir rest (<[code := body]> pages) default_page
                    else load_entries dir rest pages default_page
                  | None => load_entries dir rest pages default_page
                  end
           end
         end
  end.
Definition load_from_dir (enabled : bool) (dir : rstr) (found : PageDir) : result rstr ErrorPageRenderer :=
  if negb enabled then Ok ErrorPageRenderer_disabled
  else match found with
       | NoDirectory => Ok ErrorPageRenderer_default
       | NotADirectory => Err (lit "error page path is not a directory: " ++ dir)
       | UnreadableDirectory => Err (lit "reading error page directory " ++ dir)
       | Directory entries =>
         let? loaded := load_entries dir entries ∅ None in
         Ok {| ep_enabled := true; ep_pages := fst loaded; ep_default_page := snd loaded |}
       end.
(** The pages of the edge: [main] falls back to the built-in ones. *)
Definition start_error_pages (enabled : bool) (dir : rstr) (found : PageDir) : ErrorPageRenderer :=
  match load_from_dir enabled dir found with Ok pages => pages | Err _ => ErrorPageRenderer_default end.

(** ** The environment *)

Section environment.
Context (env : rstr -> option rstr).

(** [or_else] on the value of a second variable *)
Definition env_either (name other : string) : option rstr :=
  match env (lit name) with Some value => Some value | None => env (lit other) end.
Definition trusted_from_env {NL : IpNetLib} : list IpNet :=
  trusted_parse (default [] (env_either "PXXL_TRUSTED_CLIENT_IP_CIDRS" "PXXL_TRUSTED_PROXY_CIDRS")).

Definition bare (value : rstr) : rstr := trim_end_matches (chr "/") (trim value).
Definition non_empty (value : rstr) : option rstr := if is_empty value then None else Some value.
Definition first_env (keys : list string) : option rstr := find_map (fun key => env (lit key)) keys ≫= fun value => non_empty (bare value).

(** The time limit is in milliseconds. *)
Record RuntimeDiagnosticsConfig := { rd_endpoint : option rstr; rd_token : option rstr; rd_timeout : Z }.
Definition diagnostics_from_env : RuntimeDiagnosticsConfig := {|
  rd_endpoint :=
    match env_either "PXXL_RUNTIME_DIAGNOSTICS_URL" "PXXL_GATEWAY_RUNTIME_DIAGNOSTICS_URL" ≫= (fun value => non_empty (bare value)) with
    | Some endpoint => Some endpoint
    | None => (fun base => bare base ++ lit "/api/v3/internal/proxy-diagnostics")
                <$> first_env ["PXXL_GATEWAY_API_URL"; "GATEWAY_API_URL"; "PXXL_API_URL"]%string
    end;
  rd_token := first_env ["PXXL_PROXY_DIAGNOSTICS_TOKEN"; "PXXL_GATEWAY_INTERNAL_TOKEN"; "INFRA_TOKEN"]%string;
  rd_timeout :=
    Z.max 100 (Z.min 5000 (default 800 (env (lit "PXXL_RUNTIME_DIAGNOSTICS_TIMEOUT_MS") ≫= fun value => parse_uint (2 ^ 64 - 1) (trim value)))) |}.
End environment.

Definition diagnostics_enabled (c : RuntimeDiagnosticsConfig) : bool :=
  bool_decide (is_Some (rd_endpoint c)) && bool_decide (is_Some (rd_token c)).

(** ** The diagnostics service *)

Definition MAX_RUNTIME_DIAGNOSTIC_BYTES : Z := 16 * 1024.

Record DiagnosticRequest := { dq_uri : rstr; dq_token : rstr }.
(** What becomes of a request: it fails, or the head of an answer comes after a time,
    followed by the frames of its body, each after a time of its own ([None]: the
    connection breaks). *)
Inductive DiagnosticReply :=
| NoReply (after : Z)
| Reply (after status : Z) (frames : list (Z * option rstr)).

(** [Limited::collect] *)
Fixpoint collect_limited (remaining : Z) (frames : list (Z * option rstr)) : Z * option rstr :=
  match frames with
  | [] => (0, Some [])
  | (after, None) :: _ => (after, None)
  | (after, Some data) :: rest =>
    if remaining <? str_len data then (after, None)
    else let '(time, body) := collect_limited (remaining - str_len data) rest in (after + time, (data ++.) <$> body)
  end.

Section diagnostics.
Context {HL : HeaderLib}.
(** [Url::parse], [query_pairs_mut] and [as_str]; the parser of [Uri]; the decoder of
    [RuntimeDiagnosticPayload], which gives its only field; the service. *)
Context (url_with_query : rstr -> list (rstr * rstr) -> option rstr) (uri_ok : rstr -> bool).
Context (decode_payload : rstr -> option (option rstr)) (request : DiagnosticRequest -> DiagnosticReply).

Record fetched := { ft_sent : list DiagnosticRequest; ft_elapsed : Z; ft_payload : option (option rstr) }.
Definition not_fetched : fetched := {| ft_sent := []; ft_elapsed := 0; ft_payload := None |}.

(** The answer to a request that was sent, with the time it took. *)
Definition receive (timeout : Z) (reply : DiagnosticReply) : Z * option (option rstr) :=
  match reply with
  | NoReply after => (Z.min after timeout, None)
  | Reply after status frames =>
    if timeout <? after then (timeout, None)
    else if negb ((200 <=? status) && (status <? 300)) then (after, None)
    else let '(time, body) := collect_limited MAX_RUNTIME_DIAGNOSTIC_BYTES frames in (after + time, body ≫= decode_payload)
  end.
Definition fetch_runtime_diagnostic (c : RuntimeDiagnosticsConfig) (domain path : rstr) : fetched :=
  if negb (diagnostics_enabled c) then not_fetched
  else match rd_endpoint c, rd_token c with
       | Some endpoint, Some token =>
         match url_with_query endpoint [(lit "domain", domain); (lit "path", path)] with
         | None => not_fetched
         | Some uri =>
           if negb (uri_ok uri) then not_fetched
           else match value_from_str token with
                | None => not_fetched
                | Some token_header =>
                  let q := {| dq_uri := uri; dq_token := token_header |} in
                  let '(elapsed, payload) := receive (rd_timeout c) (request q) in
                  {| ft_sent := [q]; ft_elapsed := elapsed; ft_payload := payload |}
                end
         end
       | _, _ => not_fetched
       end.
(** [ProxyServer::diagnostic_error_response]: the page with the reason of the service
    if it gives a known one. *)
Definition diagnosed_error_response (canonical_reason : Z -> option rstr) (template : rstr) (p : ErrorPageRenderer)
    (c : RuntimeDiagnosticsConfig) (status : Z) (reason : ProxyErrorReason) (domain path request_id : rstr) (elapsed_ms : Z) : page_response :=
  diagnostic_error_response canonical_reason template p (mjoin (ft_payload (fetch_runtime_diagnostic c domain path)))
    status reason domain request_id elapsed_ms.
End diagnostics.

(** ** Which templates are loaded *)

(** A reference: what an entry is a page for. *)
Inductive page_key := DefaultPage | StatusPage (code : Z).
#[export] Instance page_key_eq_dec : EqDecision page_key.
Proof. solve_decision. Defined.

Definition is_template (e : DirEntry) : bool := de_is_file e && is_html_template (de_name e).
Definition entry_key (e : DirEntry) : option page_key :=
  os_to_str (fst (file_parts (de_name e))) ≫= fun stem =>
  if eq_ignore_ascii_case stem (lit "default") then Some DefaultPage
  else parse_uint 65535 stem ≫= fun code => if status_code_ok code then Some (StatusPage code) else None.
Definition page_of (k : page_key) (e : option DirEntry) : option rstr :=
  e ≫= fun e => if is_template e && bool_decide (entry_key e = Some k) then de_text e else None.
(** The texts for a page, in the order of the directory. *)
Definition pages_for (k : page_key) (l : list (option DirEntry)) : list rstr := omap (page_of k) l.
(** An entry that stops the loading: it cannot be read, or is a template that cannot. *)
Definition readable (e : option DirEntry) : bool :=
  match e with Some e => negb (is_template e) || bool_decide (is_Some (de_text e)) | None => false end.

Definition or_before (l : list rstr) (before : option rstr) : option rstr :=
  match last l with Some text => Some text | None => before end.
Lemma or_before_cons x l before : or_before (x :: l) before = or_before l (Some x).
Proof. unfold or_before. rewrite last_cons. by destruct (last l). Qed.

Lemma pages_for_cons k e l : pages_for k (e :: l) = match page_of k e with Some text => text :: pages_for k l | None => pages_for k l end.
Proof. done. Qed.

(** The loop, in terms of the reference. *)
Definition loaded_as (l : list (option DirEntry)) (pages : gmap Z rstr) (default_page : option rstr) (r : result rstr (gmap Z rstr * option rstr)) : Prop :=
  match r with
  | Ok (pages', default') =>
    forallb readable l = true /\ default' = or_before (pages_for DefaultPage l) default_page /\
    forall code, pages' !! code = or_before (pages_for (StatusPage code) l) (pages !! code)
  | Err _ => forallb readable l = false
  end.
Lemma loaded_skip e l pages default_page r :
  (forall k, page_of k e = None) -> readable e = true -> loaded_as l pages default_page r -> loaded_as (e :: l) pages default_page r.
Proof.
  intros Hk Hr. unfold loaded_as. cbn [forallb]. rewrite Hr. destruct r as [[pages' default']|]; [|done].
  intros (? & ? & Hp). split; [done|]. setoid_rewrite pages_for_cons. rewrite !Hk. split; [done|]. intros code. by rewrite Hk.
Qed.
Lemma loaded_default e body l pages default_page r :
  (forall k, page_of k e = if decide (k = DefaultPage) then Some body else None) -> readable e = true ->
  loaded_as l pages (Some body) r -> loaded_as (e :: l) pages default_page r.
Proof.
  intros Hk Hr. unfold loaded_as. cbn [forallb]. rewrite Hr. destruct r as [[pages' default']|]; [|done].
  intros (? & ? & Hp). split; [done|]. setoid_rewrite pages_for_cons. rewrite Hk, decide_True, or_before_cons by done. split; [done|]. intros code. by rewrite Hk.
Qed.
Lemma loaded_status e body code l pages default_page r :
  (forall k, page_of k e = if decide (k = StatusPage code) then Some body else None) -> readable e = true ->
  loaded_as l (<[code := body]> pages) default_page r -> loaded_as (e :: l) pages default_page r.
Proof.
  intros Hk Hr. unfold loaded_as. cbn [forallb]. rewrite Hr. destruct r as [[pages' default']|]; [|done].
  intros (? & ? & Hp). split; [done|]. setoid_rewrite pages_for_cons. rewrite Hk, decide_False by done. split; [done|]. intros c. rewrite Hp, Hk.
  destruct (decide (StatusPage c = StatusPage code)) as [[= ->]|Hne].
  - by rewrite lookup_insert_eq, or_before_cons.
  - rewrite lookup_insert_ne by congruence. done.
Qed.
Lemma load_entries_spec dir l pages default_page : loaded_as l pages default_page (load_entries dir l pages default_page).
Proof.
  revert pages default_page. induction l as [|[e|] l IH]; intros pages default_page; [done| |done].
  cbn [load_entries]. rewrite <- negb_andb. fold (is_template e). destruct (is_template e) eqn:Ht; cbn [negb].
  2: { apply loaded_skip; [intros k; cbn|cbn|done]; by rewrite Ht. }
  destruct (de_text e) as [body|] eqn:Eb; [|cbn [loaded_as forallb readable]; rewrite Ht, Eb; reflexivity].
  assert (Hr : readable (Some e) = true) by (cbn [readable]; by rewrite Ht, Eb).
  assert (Hp : forall k, page_of k (Some e) = if decide (entry_key e = Some k) then Some body else None).
  { intros k. cbn [page_of mbind option_bind]. rewrite Ht, Eb. cbn [andb]. destruct (decide (entry_key e = Some k)) as [H|H]; [by rewrite bool_decide_eq_true_2|by rewrite bool_decide_eq_false_2]. }
  assert (Hskip : entry_key e = None -> loaded_as (Some e :: l) pages default_page (load_entries dir l pages default_page)).
  { intros Hn. apply loaded_skip; [intros k; by rewrite Hp, Hn|done|done]. }
  unfold entry_key in Hp, Hskip.
  destruct (os_to_str _) as [stem|]; cbn [mbind option_bind] in Hp, Hskip; [|auto].
  destruct (eq_ignore_ascii_case stem _).
  { apply (loaded_default _ body); [|done|done]. intros k. rewrite Hp. by repeat case_decide; simplify_eq. }
  destruct (parse_uint _ stem) as [code|]; cbn [mbind option_bind] in Hp, Hskip; [|auto].
  destruct (status_code_ok code); [|auto].
  apply (loaded_status _ body code); [|done|done]. intros k. rewrite Hp. by repeat case_decide; simplify_eq.
Qed.

(** the loaded pages are exactly those of the directory. The templates of an
    enabled directory are accepted exactly when every entry, and the text of every
    html file among them, can be read; then the page of a status is the text of the
    last entry for that status in the order of the directory, or else that of the
    last default page, or else the built-in one, and only real status codes have a
    page of their own. *)
Theorem templates_exact dir entries :
  is_ok (load_from_dir true dir (Directory entries)) = forallb readable entries /\
  forall p, load_from_dir true dir (Directory entries) = Ok p ->
    ep_enabled p = true /\
    forall status, page_template p status = or_before (pages_for (StatusPage status) entries) (last (pages_for DefaultPage entries)).
Proof.
  unfold load_from_dir. cbn [negb]. pose proof (load_entries_spec dir entries ∅ None) as H. unfold loaded_as in H.
  destruct (load_entries dir entries ∅ None) as [[pages default_page]|error]; cbn [rbind is_ok fst snd].
  - destruct H as (Hr & Hd & Hp). split; [done|]. intros p [= <-]. split; [done|]. intros status.
    unfold page_template. cbn [ep_pages ep_default_page]. rewrite Hp, lookup_empty, Hd. unfold or_before. by repeat destruct (last _).
  - by split.
Qed.

(** The order of the directory does not matter where no page has two texts. *)
Lemma permuted_single {A} (l l' : list A) : l ≡ₚ l' -> (length l <= 1)%nat -> l = l'.
Proof.
  intros HP Hl. destruct l as [|x [|y l]]; [|by apply Permutation_singleton_l in HP as ->|cbn in Hl; lia]. by apply Permutation_nil_l in HP as ->.
Qed.
Theorem templates_order_irrelevant dir entries entries' p p' :
  entries ≡ₚ entries' -> (forall k, (length (pages_for k entries) <= 1)%nat) ->
  load_from_dir true dir (Directory entries) = Ok p -> load_from_dir true dir (Directory entries') = Ok p' -> p' = p.
Proof.
  intros HP Hl. unfold load_from_dir. cbn [negb].
  assert (Hk : forall k, pages_for k entries' = pages_for k entries).
  { intros k. symmetry. apply permuted_single; [unfold pages_for; by rewrite HP|done]. }
  pose proof (load_entries_spec dir entries ∅ None) as H. pose proof (load_entries_spec dir entries' ∅ None) as H'.
  destruct (load_entries dir entries ∅ None) as [[pages d]|]; [|done]. destruct (load_entries dir entries' ∅ None) as [[pages' d']|]; [|done].
  destruct H as (_ & -> & Hp), H' as (_ & -> & Hp'). cbn [rbind fst snd]. intros [= <-] [= <-]. rewrite Hk. f_equal.
  apply map_eq. intros code. by rewrite Hp, Hp', Hk.
Qed.

(** ** The environment and the diagnostics service *)

(** The limit of the request is between 100 and 5000 ms whatever the variable says. *)
Lemma diagnostics_timeout_bounds env : 100 <= rd_timeout (diagnostics_from_env env) <= 5000.
Proof. cbn [diagnostics_from_env rd_timeout]. lia. Qed.
(** Only the first variable that is set counts. *)
Lemma first_env_exact env keys v :
  first_env env keys = Some v <->
  exists before key after value, keys = before ++ key :: after /\ Forall (fun k => env (lit k) = None) before /\
    env (lit key) = Some value /\ v = bare value /\ v <> [].
Proof.
  unfold first_env. induction keys as [|k keys IH].
  { split; [done|]. intros (before & ? & ? & ? & H & _). by destruct before. }
  cbn [find_map]. destruct (env (lit k)) as [value|] eqn:E; cbn [mbind option_bind].
  - unfold non_empty. split.
    + destruct (is_empty (bare value)) eqn:Ee; [done|]. intros [= <-]. exists [], k, keys, value. split_and!; [done..|]. by destruct (bare value).
    + intros (before & key & after & value' & Hk & Hb & Hv & -> & Hne). destruct before as [|b before].
      * injection Hk as <- <-. rewrite E in Hv. injection Hv as <-. by destruct (bare value).
      * injection Hk as <- ->. apply Forall_cons in Hb as [? _]. congruence.
  - rewrite IH. split; intros (before & key & after & value' & Hk & Hb & Hv).
    + exists (k :: before), key, after, value'. split; [by rewrite Hk|]. split; [by constructor|done].
    + destruct before as [|b before]; [injection Hk as <- <-; destruct Hv; congruence|].
      injection Hk as <- ->. apply Forall_cons in Hb as [_ Hb]. by exists before, key, after, value'.
Qed.

(** A limited body: all frames arrived and have at most the limit together. *)
Lemma collect_limited_spec limit frames body : 0 <= limit ->
  snd (collect_limited limit frames) = Some body <->
  exists parts, map snd frames = Some <$> parts /\ body = concat parts /\ str_len body <= limit.
Proof.
  revert limit body. induction frames as [|[t [data|]] frames IH]; intros limit body Hl; cbn [collect_limited snd].
  - split; [intros [= <-]; by exists []|]. intros (parts & Hp & -> & _). by destruct parts.
  - destruct (limit <? str_len data) eqn:E.
    { split; [done|]. intros (parts & Hp & -> & Hle). destruct parts as [|p parts]; [done|]. injection Hp as <- _.
      cbn [concat] in Hle. unfold str_len in *. rewrite length_app in Hle. lia. }
    destruct (collect_limited (limit - str_len data) frames) as [time rest] eqn:Ec. cbn [snd].
    specialize (IH (limit - str_len data)). rewrite Ec in IH. cbn [snd] in IH. rewrite fmap_Some. split.
    + intros (b & -> & ->). destruct (proj1 (IH b ltac:(lia)) eq_refl) as (parts & Hp & -> & Hle).
      exists (data :: parts). cbn. rewrite Hp. split_and!; [done|done|]. unfold str_len in *. rewrite length_app. lia.
    + intros (parts & Hp & -> & Hle). destruct parts as [|p parts]; [done|]. injection Hp as <- Hp. exists (concat parts). split; [|done].
      apply IH; [lia|]. exists parts. split_and!; [done|done|]. cbn [concat] in Hle. unfold str_len in *. rewrite length_app in Hle. lia.
  - split; [done|]. intros (parts & Hp & _). by destruct parts.
Qed.

Section service.
Context {HL : HeaderLib} (url_with_query : rstr -> list (rstr * rstr) -> option rstr) (uri_ok : rstr -> bool).
Context (decode_payload : rstr -> option (option rstr)).

Definition good_reply (timeout : Z) (reply : DiagnosticReply) (code : option rstr) : Prop :=
  exists after status frames parts, reply = Reply after status frames /\ after <= timeout /\ 200 <= status < 300 /\
    map snd frames = Some <$> parts /\ str_len (concat parts) <= MAX_RUNTIME_DIAGNOSTIC_BYTES /\ decode_payload (concat parts) = Some code.

Lemma receive_exact timeout reply code : snd (receive decode_payload timeout reply) = Some code <-> good_reply timeout reply code.
Proof.
  unfold good_reply. destruct reply as [after|after status frames]; cbn [receive snd]; [split; [done|intros (?&?&?&?&?&?); done]|].
  destruct (timeout <? after) eqn:Et; [split; [done|intros (?&?&?&?&[= <- <- <-]&?&_); lia]|].
  destruct ((200 <=? status) && (status <? 300)) eqn:Es; cbn [negb]; [|split; [done|intros (?&?&?&?&[= <- <- <-]&?&?&_); lia]].
  pose proof (collect_limited_spec MAX_RUNTIME_DIAGNOSTIC_BYTES frames) as H.
  destruct (collect_limited _ frames) as [time body]. cbn [snd] in *. split.
  - destruct body as [body|]; [|done]. intros Hc. destruct (proj1 (H body ltac:(done)) eq_refl) as (parts & Hp & -> & Hle).
    exists after, status, frames, parts. split_and!; [done|lia|lia|lia|done|done|done].
  - intros (? & ? & ? & parts & [= <- <- <-] & _ & _ & Hp & Hle & Hd).
    assert (body = Some (concat parts)) as -> by (apply H; [done|by exists parts]). done.
Qed.

(** A fetch that sends nothing, or the one request it sends. *)
Lemma fetch_cases request c domain path :
  let f := fetch_runtime_diagnostic url_with_query uri_ok decode_payload request c domain path in
  f = not_fetched \/
  exists endpoint token q, rd_endpoint c = Some endpoint /\ rd_token c = Some token /\
    url_with_query endpoint [(lit "domain", domain); (lit "path", path)] = Some (dq_uri q) /\ value_from_str token = Some (dq_token q) /\
    ft_sent f = [q] /\ ft_payload f = snd (receive decode_payload (rd_timeout c) (request q)).
Proof.
  unfold fetch_runtime_diagnostic. destruct (negb _); [by left|].
  destruct (rd_endpoint c) as [endpoint|]; [|by left]. destruct (rd_token c) as [token|]; [|by left].
  destruct (url_with_query endpoint _) as [uri|] eqn:Eu; [|by left]. destruct (negb (uri_ok uri)); [by left|].
  destruct (value_from_str token) as [header|] eqn:Eh; [|by left].
  right. exists endpoint, token, {| dq_uri := uri; dq_token := header |}. cbv zeta. destruct (receive _ _ _). by split_and!.
Qed.
Lemma fetch_payload request c domain path code :
  let f := fetch_runtime_diagnostic url_with_query uri_ok decode_payload request c domain path in
  ft_payload f = Some code <-> exists q, ft_sent f = [q] /\ good_reply (rd_timeout c) (request q) code.
Proof.
  cbv zeta. destruct (fetch_cases request c domain path) as [E|(endpoint & token & q & _ & _ & _ & _ & Hs & Hp)].
  - rewrite E. split; [done|by intros (? & ? & _)].
  - rewrite Hp, Hs, receive_exact. split; [by exists q|]. by intros (? & [= <-] & ?).
Qed.

(** the diagnostics service is asked for nothing more than it may know, and is
    believed only when it answers in order. Whatever the service does, a request is
    sent only when an endpoint and a token are configured, and then once, to that
    endpoint with that token; and a payload is taken exactly when the head of the
    answer came in time with a success status, the whole body came without an error
    and within 16 KiB, and it decodes. *)
Theorem diagnostics_exact request c domain path :
  let f := fetch_runtime_diagnostic url_with_query uri_ok decode_payload request c domain path in
  (forall q, q ∈ ft_sent f -> ft_sent f = [q] /\ exists endpoint token, rd_endpoint c = Some endpoint /\ rd_token c = Some token /\
     url_with_query endpoint [(lit "domain", domain); (lit "path", path)] = Some (dq_uri q) /\ value_from_str token = Some (dq_token q)) /\
  (forall code, ft_payload f = Some code <-> exists q, ft_sent f = [q] /\ good_reply (rd_timeout c) (request q) code).
Proof.
  cbv zeta. split; [|intros code; apply fetch_payload]. intros q Hq.
  destruct (fetch_cases request c domain path) as [E|(endpoint & token & q' & ? & ? & ? & ? & Hs & _)].
  - rewrite E in Hq. by apply not_elem_of_nil in Hq.
  - rewrite Hs in Hq. apply list_elem_of_singleton in Hq as ->. split; [done|]. by exists endpoint, token.
Qed.

(** The limit covers the head of the answer only: once it has come, an error answer
    of the edge waits for the body, for as long as the service likes. *)
Theorem diagnostics_wait_unbounded c endpoint token uri header domain path bound :
  rd_endpoint c = Some endpoint -> rd_token c = Some token -> 0 <= rd_timeout c ->
  url_with_query endpoint [(lit "domain", domain); (lit "path", path)] = Some uri -> uri_ok uri = true -> value_from_str token = Some header ->
  exists request, bound < ft_elapsed (fetch_runtime_diagnostic url_with_query uri_ok decode_payload request c domain path).
Proof.
  intros He Ht Hc Hu Ho Hh. exists (fun _ => Reply 0 200 [(bound + 1, None)]).
  unfold fetch_runtime_diagnostic, diagnostics_enabled. rewrite He, Ht, Hu, Ho, Hh. cbn [negb andb receive collect_limited].
  replace (rd_timeout c <? 0) with false by lia. cbn. lia.
Qed.

(** The answer keeps its status; its reason is the edge's own, or one the service
    named, in time and in order, with a code that the edge knows. *)
Theorem diagnosed_reason request canonical_reason template p c status reason domain path request_id elapsed_ms :
  let answer := diagnosed_error_response url_with_query uri_ok decode_payload request canonical_reason template p c status reason domain path request_id elapsed_ms in
  ps_status answer = status /\
  exists shown, (lit "x-pxxl-error-code", reason_code shown) ∈ ps_headers answer /\
    (shown = reason \/ exists q code, ft_sent (fetch_runtime_diagnostic url_with_query uri_ok decode_payload request c domain path) = [q] /\
       good_reply (rd_timeout c) (request q) (Some code) /\ runtime_diagnostic_reason (Some code) = Some shown).
Proof.
  intros answer. unfold answer, diagnosed_error_response, diagnostic_error_response.
  pose proof (fetch_payload request c domain path) as Hp. cbv zeta in Hp. destruct (ft_payload _) as [[code|]|]; cbn [mjoin option_join].
  1: destruct (runtime_diagnostic_reason (Some code)) as [shown|] eqn:E; cbn [default].
  1: split; [|exists shown; split; [|right; destruct (proj1 (Hp (Some code)) eq_refl) as (q & ? & ?); by exists q, code]].
  3, 4, 5: split; [|exists reason; split; [|by left]].
  all: unfold response_with_reason_code; destruct (negb _); try done.
  all: cbn [attach_error_code_header ps_headers rc_reason_code]; apply elem_of_app; right; by left.
Qed.
End service.

(** ** Examples *)

Module SettingsDemo.
Definition page (name text : string) : option DirEntry := Some {| de_name := lit name; de_is_file := true; de_text := Some (lit text) |}.
Definition templates : list (option DirEntry) := [page "404.html" "four"; page "Default.HTM" "any"; page "readme.txt" "no"; page "1404.html" "no"; page ".html" "no"].

Example templates_loaded :
  match load_from_dir true (lit "/pages") (Directory templates) with
  | Ok p => map (page_template p) [404; 502; 1404] = Some <$> lits ["four"; "any"; "any"]
  | Err _ => False
  end.
Proof. vm_compute. reflexivity. Qed.

(** Two files for one status: the one that the directory names last is shown. *)
Example templates_collide :
  (fun l => match load_from_dir true (lit "/pages") (Directory l) with Ok p => page_template p 404 | Err _ => None end)
    <$> [[page "404.html" "a"; page "404.htm" "b"]; [page "404.htm" "b"; page "404.html" "a"]] = [Some (lit "b"); Some (lit "a")].
Proof. vm_compute. reflexivity. Qed.

(** One html file that cannot be read, whatever its name, and all pages are lost. *)
Example unreadable_template_drops_all :
  start_error_pages true (lit "/pages") (Directory (templates ++ [Some {| de_name := lit "notes.html"; de_is_file := true; de_text := None |}])) =
  ErrorPageRenderer_default.
Proof. vm_compute. reflexivity. Qed.

Definition variables (l : list (string * string)) (name : rstr) : option rstr :=
  (fun kv => lit (snd kv)) <$> head (filter (fun kv => lit (fst kv) = name) l).

(** A blank variable hides the ones after it. *)
Example blank_token_hides_next :
  rd_token (diagnostics_from_env (variables [("PXXL_PROXY_DIAGNOSTICS_TOKEN"%string, " "%string); ("INFRA_TOKEN"%string, "secret"%string)])) = None.
Proof. vm_compute. reflexivity. Qed.
(** A token that ends in a slash, as Base64 text may, is not the one that is sent. *)
Example token_loses_slash :
  rd_token (diagnostics_from_env (variables [("INFRA_TOKEN"%string, "c2VjcmV/"%string)])) = Some (lit "c2VjcmV").
Proof. vm_compute. reflexivity. Qed.
Example endpoint_of_base :
  rd_endpoint (diagnostics_from_env (variables [("PXXL_RUNTIME_DIAGNOSTICS_URL"%string, ""%string); ("PXXL_API_URL"%string, " http://gw/ "%string)])) =
  Some (lit "http://gw/api/v3/internal/proxy-diagnostics").
Proof. vm_compute. reflexivity. Qed.
End SettingsDemo.
