(* ===== verification/Metrics.v ===== *)
(** The Prometheus metrics of the edge ([metrics]): the twenty-one metrics with their
    labels, their registration in the order of the source, and the text that the
    metrics endpoint answers.  The [prometheus] crate is a parameter with the laws of
    its documentation. *)
From stdpp Require Import options.
From S2P Require Import Prelude RustStr.

Local Open Scope Z_scope.
Local Open Scope rust_scope.

Inductive MetricKind := IntCounter | IntCounterVec | IntGauge | IntGaugeVec | HistogramVec.
Record MetricOpts := { mo_kind : MetricKind; mo_name : rstr; mo_help : rstr; mo_labels : list rstr }.

(** The crate: [new] of a metric, an empty registry, [register], [gather] and the
    encoder of the text format. *)
Class PromLib := {
  PromRegistry : Type;
  registry_new : PromRegistry;
  metric_new : MetricOpts -> result rstr unit;
  register : MetricOpts -> PromRegistry -> result rstr PromRegistry;
  gather_text : PromRegistry -> result rstr rstr;
}.

Definition metric (k : MetricKind) (name help : string) (labels : list string) : MetricOpts :=
  {| mo_kind := k; mo_name := lit name; mo_help := lit help; mo_labels := lits labels |}.
Definition requests_total : MetricOpts :=
  metric IntCounterVec "pxxl_requests_total" "Total proxied HTTP requests" ["domain"; "method"; "status"]%string.
Definition active_connections : MetricOpts :=
  metric IntGauge "pxxl_active_connections" "Active edge connections" []%string.
Definition upstream_latency_seconds : MetricOpts :=
  metric HistogramVec "pxxl_upstream_latency_seconds" "Observed upstream response latency" ["domain"; "upstream"]%string.
Definition rate_limited_total : MetricOpts :=
  metric IntCounterVec "pxxl_rate_limited_total" "Rate-limited requests" ["domain"]%string.
Definition blocked_total : MetricOpts :=
  metric IntCounterVec "pxxl_blocked_total" "Blocked requests" ["domain"; "reason"]%string.
Definition container_route_changes_total : MetricOpts :=
  metric IntCounterVec "pxxl_container_route_changes_total" "Container provider route registry updates" ["provider"]%string.
Definition docker_route_changes_total : MetricOpts :=
  metric IntCounter "pxxl_docker_route_changes_total" "Docker route registry updates" []%string.
Definition tls_certificates_total : MetricOpts :=
  metric IntCounterVec "pxxl_tls_certificates_total" "TLS certificates generated or loaded" ["mode"; "result"]%string.
Definition routes_total : MetricOpts :=
  metric IntGaugeVec "pxxl_routes_total" "Current configured routes" ["source"]%string.
Definition router_request_duration_seconds : MetricOpts :=
  metric HistogramVec "pxxl_router_request_duration_seconds" "End-to-end router request duration" ["domain"; "route_id"; "path_prefix"; "upstream"; "status"]%string.
Definition upstream_in_flight : MetricOpts :=
  metric IntGaugeVec "pxxl_upstream_in_flight" "Current in-flight requests by route and upstream" ["domain"; "route_id"; "path_prefix"; "upstream"]%string.
Definition middleware_executions_total : MetricOpts :=
  metric IntCounterVec "pxxl_middleware_executions_total" "Middleware executions by result" ["domain"; "middleware"; "result"]%string.
Definition upstream_health_status : MetricOpts :=
  metric IntGaugeVec "pxxl_upstream_health_status" "Current upstream health status, 1 for healthy and 0 for unhealthy" ["upstream"]%string.
Definition passive_health_events_total : MetricOpts :=
  metric IntCounterVec "pxxl_passive_health_events_total" "Passive health state changes and failure observations" ["upstream"; "event"]%string.
Definition retries_total : MetricOpts :=
  metric IntCounterVec "pxxl_retries_total" "Retry attempts by route and upstream" ["domain"; "upstream"; "result"]%string.
Definition mirror_requests_total : MetricOpts :=
  metric IntCounterVec "pxxl_mirror_requests_total" "Traffic mirror requests by route and mirror upstream" ["domain"; "upstream"; "result"]%string.
Definition circuit_breaker_open_total : MetricOpts :=
  metric IntCounterVec "pxxl_circuit_breaker_open_total" "Circuit breaker openings by route and upstream" ["domain"; "upstream"]%string.
Definition in_flight_limited_total : MetricOpts :=
  metric IntCounterVec "pxxl_in_flight_limited_total" "Requests rejected by in-flight limit" ["domain"; "scope"]%string.
Definition adaptive_blocks_total : MetricOpts :=
  metric IntCounterVec "pxxl_adaptive_blocks_total" "Temporary adaptive IP blocks created by reason" ["reason"]%string.
Definition adaptive_active_blocks : MetricOpts :=
  metric IntGauge "pxxl_adaptive_active_blocks" "Currently active adaptive IP blocks" []%string.
Definition adaptive_observed_ips : MetricOpts :=
  metric IntGauge "pxxl_adaptive_observed_ips" "Currently tracked IP windows for adaptive blocking" []%string.

(** The metrics in the order in which they are made and registered. *)
Definition all_metrics : list MetricOpts :=
  [requests_total; active_connections; upstream_latency_seconds; rate_limited_total;
   blocked_total; container_route_changes_total; docker_route_changes_total; tls_certificates_total;
   routes_total; router_request_duration_seconds; upstream_in_flight; middleware_executions_total;
   upstream_health_status; passive_health_events_total; retries_total; mirror_requests_total;
   circuit_breaker_open_total; in_flight_limited_total; adaptive_blocks_total; adaptive_active_blocks;
   adaptive_observed_ips].

Inductive MetricsError := MetricsRegister (error : rstr) | MetricsEncode (error : rstr).

Section metrics.
Context {PL : PromLib}.

Fixpoint register_all (metrics : list MetricOpts) (registry : PromRegistry) : result MetricsError PromRegistry :=
  match metrics with
  | [] => Ok registry
  | m :: rest => let? registry := map_err MetricsRegister (register m registry) in register_all rest registry
  end.
Definition PxxlMetrics_new : result MetricsError PromRegistry :=
  let? _ := map_err MetricsRegister (for_each metric_new all_metrics) in
  register_all all_metrics registry_new.
Definition gather (registry : PromRegistry) : result MetricsError rstr :=
  let? buffer := map_err MetricsEncode (gather_text registry) in
  if valid_utf8 buffer then Ok buffer else Err (MetricsEncode (lit "invalid utf-8 sequence")).
End metrics.

(** ** Registration *)

(** Names as the data model of Prometheus has them: letters, digits and underscores,
    for metrics also colons, without a digit in front; [le] is the label of buckets. *)
Definition word_char (b : ascii) : bool := is_ascii_alphanumeric b || beq b (chr "_").
Definition legal_name (s : rstr) : bool :=
  match s with [] => false | b :: _ => negb (is_ascii_digit b) && forallb (fun b => word_char b || beq b (chr ":")) s end.
Definition legal_label (s : rstr) : bool :=
  match s with [] => false | b :: _ => negb (is_ascii_digit b) && forallb word_char s end.
Definition plain_metric (k : MetricKind) : bool := match k with IntCounter | IntGauge => true | _ => false end.
Definition legal_opts (o : MetricOpts) : bool :=
  legal_name (mo_name o) && negb (is_empty (mo_help o)) && forallb legal_label (mo_labels o) && bool_decide (NoDup (mo_labels o))
  && negb (existsb (seq_eqb (lit "le")) (mo_labels o)) && (if plain_metric (mo_kind o) then is_empty (mo_labels o) else negb (is_empty (mo_labels o))).

(** What the documentation of the crate says: a legal metric can be made; a registry
    takes a metric whose name it does not have yet. *)
Class PromLaws (PL : PromLib) := {
  registered : PromRegistry -> list MetricOpts;
  registered_new : registered registry_new = [];
  legal_metric_new : forall o, legal_opts o = true -> metric_new o = Ok tt;
  fresh_registers : forall o r, mo_name o ∉ map mo_name (registered r) -> exists r', register o r = Ok r' /\ registered r' = registered r ++ [o];
}.

Lemma all_metrics_legal : Forall (fun o => legal_opts o = true) all_metrics.
Proof. rewrite Forall_forall. intros o Ho%list_elem_of_In. revert o Ho. apply forallb_forall. vm_compute. reflexivity. Qed.
Lemma metric_names_distinct : NoDup (map mo_name all_metrics).
Proof. apply (bool_decide_unpack _). vm_compute. exact I. Qed.

Section registration.
Context {PL : PromLib} {PW : PromLaws PL}.

Lemma register_all_ok metrics r : NoDup (map mo_name (registered r ++ metrics)) ->
  exists r', register_all metrics r = Ok r' /\ registered r' = registered r ++ metrics.
Proof using PW.
  revert r. induction metrics as [|m metrics IH]; intros r Hn; [exists r; by rewrite app_nil_r|].
  destruct (fresh_registers m r) as (r1 & E & Hr1).
  { rewrite map_app in Hn. apply NoDup_app in Hn as (_ & Hn & _). intros Hin. eapply Hn; [done|by left]. }
  cbn [register_all]. rewrite E. cbn [map_err rbind]. destruct (IH r1) as (r2 & E2 & Hr2); [by rewrite Hr1, <- app_assoc|].
  exists r2. split; [done|]. by rewrite Hr2, Hr1, <- app_assoc.
Qed.

(** the metrics cannot keep the edge from starting. With a crate that makes legal
    metrics and registers fresh names, [PxxlMetrics::new] succeeds, and the registry
    has each of the metrics once, in the order of the source. *)
Theorem metrics_start : exists r, PxxlMetrics_new = Ok r /\ registered r = all_metrics.
Proof using PW.
  unfold PxxlMetrics_new. rewrite (proj2 (for_each_ok _ _)).
  - cbn [map_err rbind]. destruct (register_all_ok all_metrics registry_new) as (r & E & Hr).
    + rewrite registered_new. apply metric_names_distinct.
    + exists r. by rewrite E, Hr, registered_new.
  - eapply Forall_impl; [apply all_metrics_legal|]. intros o. apply legal_metric_new.
Qed.
End registration.

(** ** Examples *)

Module MetricsDemo.
(** A registry that is a list, with its names as text. *)
#[export] Instance ListProm : PromLib := {|
  PromRegistry := list MetricOpts; registry_new := [];
  metric_new := fun o => if legal_opts o then Ok tt else Err (lit "invalid metric");
  register := fun o r => if existsb (seq_eqb (mo_name o)) (map mo_name r) then Err (lit "duplicate metric") else Ok (r ++ [o]);
  gather_text := fun r => Ok (join [LF] (map mo_name r)) |}.
#[export] Instance ListPromLaws : PromLaws ListProm.
Proof.
  refine {| registered := fun r => r |}; [done|intros o H; cbn; by rewrite H|]. intros o r Hn. exists (r ++ [o]). cbn.
  destruct (existsb _ _) eqn:E; [|done]. apply existsb_exists in E as (x & Hx & Heq). apply bool_decide_eq_true in Heq as <-. by apply list_elem_of_In in Hx.
Defined.
Example exposes_prometheus_text :
  match PxxlMetrics_new with
  | Ok r => match gather r with Ok body => contains (lit "pxxl_requests_total") body | Err _ => false end
  | Err _ => false
  end = true.
Proof. vm_compute. reflexivity. Qed.
End MetricsDemo.
